(* ===== verification/_CoqProject ===== *)
-Q . S2P
Prelude.v
RustStr.v
Voice.v
Identity.v
Pow.v
Perms.v
Proto.v
State.v
Prog.v
StoreApi.v
SqlStore.v
Moderation.v
Admin.v
Session.v
RoleTable.v
Delivery.v
Invariant.v
Samples.v
Interleaving.v
Relay.v
Membership.v
Channels.v
Visibility.v
Authority.v
Durability.v
Chat.v
Bans.v
Jitter.v
Floats.v
Rounding.v
Limiter.v
Vad.v
VoiceCodec.v
Fuzz.v
Mixer.v
Speakers.v
Resample.v
Devices.v
Engine.v
Talking.v
VoicePath.v
Frame.v
Disk.v
Keystore.v
Sealed.v
Vault.v
VaultSafety.v
Documents.v
Migration.v
Config.v
Tls.v
Boot.v
Mirrored.v
Writes.v
Restart.v
Trust.v
Client.v
Mirror.v
Hearing.v
Following.v
Mirrors.v
Agreement.v
Login.v
AgreementSamples.v
EndToEnd.v
Bookmarks.v
Settings.v
MouseGrab.v
Dto.v
App.v
Bridge.v
Commands.v
Shortcuts.v
Keys.v
Tables.v
Answers.v
Controls.v
Routing.v
Window.v
AppSamples.v
