(* ===== verification/Prelude.v ===== *)
(** * Pickle: a verification development (root file)

    Pickle is a voice-and-text chat: a server ([crates/pickle-server]) that keeps channels,
    roles and members and relays their voice, a client library ([crates/pickle-client]), and a
    desktop application ([apps/desktop/src-tauri]) on top of it.  They share a wire protocol
    ([crates/pickle-proto]), cryptographic identities ([crates/pickle-identity]) and an audio
    pipeline ([crates/pickle-audio]).  This library translates the Rust of those crates into
    executable Rocq definitions and proves what makes them correct.

    ** How to read it

    Every definition carries the name of the function, method or type it translates, and each
    file's first comment names its source.  A 64-bit or narrower integer is a [Z], wrapped or
    clipped where the source's arithmetic wraps or saturates; a [String] is the list of its
    scalar values ([RustStr.v]); a [HashMap] or [BTreeMap] is a [gmap], and where the source
    iterates over a hash map the order is the parameter [HashOrder], while a [BTreeMap] iterates
    by key ([btree_values]); a [Vec] is a list with the source's own indexing and panics.

    Code that waits is a [prog] ([Prog.v]): a tree of atomic steps over a shared state.  One
    step is what the source does between two awaits under one lock: the server's state lock is
    taken inside each method of [Shared] and never held across an await, so a method of
    [state.rs] is a function of the state and one step of a handler, and each database call is
    a step of its own.  [run] executes a program alone, [pstep] interleaves a pool of them;
    [safe] is the rule that proves an invariant of every interleaving from one program at a
    time, [keeps] the same for programs that are under way already, [knows] the rely-guarantee rule
    for a program that remembers something others must not undo, [answers] the rule that no program
    is ever caught, and [owning] that rule for programs that rely on a thing of their own.
    [schedule] plays a schedule out, for the witnesses.  The same type carries file code, over a disk that can fail any operation and lose
    power between any two ([Disk.v]), the client's connection attempt, over its trust store, and
    every command and thread of the desktop application ([App.v]): there each [Mutex] is taken for
    one statement at a time, so a statement is a step, and an [Arc] is a place in a store of the
    state, so that two holders see one object.

    ** The parts

    - Foundations: [Prelude] (machine integers, little-endian bytes, lists, sorting),
      [RustStr] (strings), [Prog] (programs of steps), [Disk] (files and crashes), [Documents]
      (a document format for witnesses).
    - The wire: [Voice] ([voice.rs], both datagram layouts), [Proto] ([lib.rs], the control
      messages), [Frame] ([codec.rs], length-prefixed frames), [Perms] ([perms.rs], masks,
      overwrites, resolution, hierarchy).
    - Identities: [Identity] ([pickle-identity/lib.rs]), [Pow] ([pow.rs]), [Keystore],
      [Sealed], [Vault] with [VaultSafety] and [Migration] (the files of the same names).
    - The server: [State] ([state.rs], every method of [Shared]), [StoreApi] (what handlers ask
      of a database, a class), [SqlStore] ([store.rs] and its migrations, the instance),
      [Moderation], [Admin], [Session] (the handlers) with [Limiter] (the token bucket of
      [session.rs]); [Config] ([config.rs]), [Tls] (both [tls.rs]) and [Boot] ([lib.rs] and
      [main.rs]: the commands of the process, the start, the accept loop and its end).
    - What holds of the server: [RoleTable], [Delivery], [Invariant] (the invariant and one
      preservation lemma per method), [Interleaving] (every schedule of every handler keeps it),
      [Relay], [Membership], [Channels], [Visibility], [Authority], [Durability], [Chat],
      [Bans]; and [Mirrored], [Writes], [Restart] (memory equals tables, across a
      restart).
    - The client: [Trust] ([trust.rs]), [Client] ([pickle-client/lib.rs]), [Login] (the attempt,
      and both ends together), [EndToEnd] (a frame from one end to the other).
    - Audio: [Floats] (IEEE numbers; [Rounding] says how far a result is from the exact one),
      [Jitter], [Vad], [VoiceCodec] ([codec.rs]), [Mixer],
      [Resample], [Devices] and [Engine] (the files of the same names); what holds of them is in
      [Talking] (the microphone and the sound card), [Speakers] (the mixer) and
      [VoicePath] (both).
    - The application's rules: [Mirror] ([perms.rs]), [Bookmarks], [Settings]; [Hearing],
      [Following], [Mirrors] and [Agreement] set its mirror against the server.
    - The application itself: [App] ([state.rs]), [Bridge] ([bridge.rs]), [Commands]
      ([commands.rs]), [Dto] ([dto.rs]), [Shortcuts] ([shortcuts.rs]) and [MouseGrab]
      ([mouse_grab.rs]). One record [App] holds [AppState] with everything its [Arc]s lead to;
      [Desk] adds the registry of shortcuts. What holds of it: [Tables] (ids, under every
      interleaving), [Answers] (no thread panics or is caught), [Routing] (voice, audio and keys,
      one command at a time), [Controls] (what commands do), [Window] (what the
      window is told), [Keys] (what is bound).
    - The fuzz targets: [Fuzz] ([fuzz/src/lib.rs]).
    - Concrete instances, for the witnesses: [Samples], [AgreementSamples], [AppSamples] and the
      [Sample_*] modules inside the files.

    ** What the theorems show

    - The server's memory is always well formed, under every interleaving of every session's
      commands and of log-ins ([Interleaving]); a command without the permission or against a
      senior member is only refused, and nobody mints permissions ([Authority]); a ban holds,
      whatever runs in between, until it is lifted, replaced or lapses, but for a login that was
      looked up before it ([Bans]); members are shown exactly the channels they may see ([Visibility], a refinement
      of a client that folds events) and messages and voice reach exactly those entitled
      ([Relay], [Chat]).
    - Memory and database: no change appears in memory that the database refused
      ([Durability]), and a server stopped after any command and started again has the memory
      it had ([Restart], a refinement of memory by tables).
    - The process: the identity an operator is shown is the one every later start serves under
      that finds the key's file as it was, from its first connection to its shutdown the state is well formed, and the shutdown tells
      every session ([Boot]); the certificate is kept by every start that can read it and its
      key stays private ([Tls]); a
      control stream is held to its rate and heard within it, rounding included ([Limiter]).
    - Files: saving, changing the passphrase and migrating lose no key, whatever operation
      fails and whenever power goes ([VaultSafety], [Migration], [Keystore]); the bookmarks and
      the settings are replaced as a whole or not at all.
    - Both ends: an honest client and an honest server always complete a login, nothing is
      signed or disclosed to a server that did not prove its identity, and no attempt changes a
      pin ([Login]); control messages and voice frames arrive as they were sent ([EndToEnd]).
      Whatever is commanded by whom, what the application shows of permissions is what the
      server enforces, and what its menus offer is what the server allows ([Agreement]).
    - Voice: every sample is framed once and what is sent is numbered bursts (less the frames the
      codec refuses), a muted
      microphone ends its burst and is silent, and capture and playback keep up with a sound card
      of any rate ([Talking], on what [Resample] shows of the converter's buffer under the
      rounding of its position); speakers are mixed independently of
      each other, the sound card always gets a whole frame in range and a silent speaker is
      forgotten ([Speakers]); a burst of which no frame was refused is heard as it was spoken
      ([VoicePath]).
    - The application: under every interleaving each session keeps a client, a mirror and a pump
      of its own ([Tables]) and every command the interface can invoke answers ([Answers], on a vault
      that lists no key twice); run one at a time, commands
      leave voice on a listed connection, the audio running while there is one, and every key in
      use in the vault ([Routing]; overlapping ones do not, see below); the window's copy of
      roles and permissions is the mirror's ([Window]); mute and deafen reach every server and
      survive a change of devices, and what is accepted after a warning is what the
      warning showed (both [Controls]); rebinding is a full replacement and its report is kept,
      also where a key is not let go ([Keys]); a process that reads mice cannot read keystrokes, and no device's name becomes a
      rule of udev ([MouseGrab]).
    - The parsers: no bytes fail the assertions of the fuzz targets ([Fuzz]); a signature reads
      back from either form it is written in ([Frame]).
    - Components against their own contracts: permission resolution against a per-bit
      definition ([Perms]), the jitter buffer against a playout list and its wrap-around bounds
      ([Jitter]), mining terminates ([Pow]), the tree walk terminates exactly on trees
      ([Channels]), permission names round trip ([Mirror]), a gate at a steady level does not
      chatter ([Vad]), the rate that is listed is the rate that is opened ([Devices]).

    Where the code does not do what it says, a lemma next to the model shows the case:
    [Authority.concurrent_edits_lose_a_grant], [Channels.reused_channel_id_closes_a_loop],
    [Jitter.underrun_forgets_the_slot], [Membership.sanitize_leaves_trailing_space],
    [SqlStore.huge_cursor_hides_history], [Config.a_knot_of_parents_is_accepted],
    [Tls.First_start.a_torn_key_is_kept], [Tls.First_start.a_read_that_fails_once_replaces_the_certificate],
    [Bans.Sample_ban.a_login_slips_past_the_ban], [VoicePath.Sample_voice_path.Refused_start.a_refused_start_silences_the_burst], [Speakers.a_gap_is_concealed_slot_by_slot], [Devices.Sample_devices.devices_that_share_a_name],
    and at the end of [AppSamples] what overlapping commands of the application lose
    ([a_key_is_deleted_under_a_login], [voice_is_left_on_a_dead_connection],
    [audio_stops_under_a_new_connection], [a_packet_outlives_the_move_of_voice]) and where its
    controls and reports mislead ([a_new_server_is_not_told_of_the_mute],
    [unmuting_while_deafened_divides_them], [a_failed_change_of_devices_is_never_made],
    [rebinding_leaves_the_microphone_keyed], [a_button_is_reported_that_nobody_reads]).

    ** Fuel and bounds

    The structures the code recurses on are finite, so most definitions are structural.
    [Pow.mine_loop] runs the unbounded search on fuel: [mine_terminates] gives the fuel that
    suffices once a witness exists.  [State.parent_walk] runs on as much fuel as there are
    channels plus one: a walk that uses it up has met a channel twice, and the program then
    takes the step [Hang], as the source's loop would spin.  [Session.control_loop] recurses on
    the list of frames that arrive, and the application's pumps on the frames and events they are
    given.  [Engine.drain], which empties the converter, runs on fuel, and
    [capture_keeps_up_at_any_rate] gives an amount that is enough for the life of a stream.  The length prefix of a frame, the 32-bit sequence numbers,
    the 64-bit ids and the signed columns of the database keep their widths; [Jitter] bounds
    how far its extended numbers drift, which keeps the source's [i64] exact.

    ** Parameters

    Code that is not part of the repository is a parameter, with the laws the code relies on in
    a class or as named hypotheses, each instantiated for the witnesses: SHA-256, Ed25519,
    base32 and the Unicode case tables ([Crypto], [CryptoLaws]), Argon2id and the cipher
    ([Sealed]), JSON, TOML, base64 and the address parser, postcard ([Postcard]), the order of
    hash maps and of unordered SQL scans, which statements of the database fail, the clock, the
    environment, and the network ([Wire]: how each step of an attempt comes out).

    ** What is not modelled

    QUIC and TLS themselves: making a certificate, judging one and opening an endpoint are
    parameters of the server's start, and the signal that ends it is a step that may be taken at
    any moment.  The theorems on the handlers hold for every answer a limiter may give, of which
    [Limiter]'s are some.  Waiting for a lock is not modelled: a locked section is one step.  Opening sound streams and the
    audio thread belong to the sound library; their callbacks are calls of the model.  Of the
    path through the converter it is proved that it never panics, ends and drops nothing, not how
    it sounds.  The rest of
    the desktop application's [lib.rs] sets up the window, the plugins and Tauri's table of
    commands; the names serde gives to fields are left out.  Threads and tasks of the application
    are programs that run once they are spawned: what the operating system schedules is the order
    of steps.  Error texts that a library composes are parameters; log lines are left out. *)

From stdpp Require Export base gmap strings list fin_maps sorting.
From Stdlib Require Export ZArith Lia.
#[global] Open Scope Z_scope.

(** ** Notations of the development *)

Declare Scope pickle_scope.
Delimit Scope pickle_scope with pickle.

(** ** Machine integers

    A w-bit unsigned integer is a [Z] in [0, 2^w); arithmetic that wraps in the
    source wraps here through [wrap]. *)

Definition wrap (w z : Z) : Z := z mod 2 ^ w.
Definition fits (w z : Z) : Prop := 0 <= z < 2 ^ w.
Definition u32_max : Z := 2 ^ 32 - 1.
Definition u64_max : Z := 2 ^ 64 - 1.

(** The two's complement reading of a w-bit pattern ([as i32], [as i64]). *)
Definition as_signed (w z : Z) : Z :=
  let u := wrap w z in if u <? 2 ^ (w - 1) then u else u - 2 ^ w.

#[global] Instance fits_dec w z : Decision (fits w z).
Proof. unfold fits. apply _. Defined.

Lemma wrap_fits w z : 0 <= w -> fits w (wrap w z).
Proof. intros. unfold fits, wrap. apply Z.mod_pos_bound. lia. Qed.

Lemma wrap_id w z : fits w z -> wrap w z = z.
Proof. intros. unfold wrap. by apply Z.mod_small. Qed.

Lemma wrap_add_mod w a b : wrap w (wrap w a + b) = wrap w (a + b).
Proof. unfold wrap. by rewrite Zplus_mod_idemp_l. Qed.

(** ** Little-endian byte strings

    Bytes are [Z] values in [0, 256); [le_bytes n z] is [to_le_bytes] of an
    n-byte integer and [of_le] is [from_le_bytes]. *)

Definition bytes : Type := list Z.

Definition is_byte (b : Z) : Prop := 0 <= b < 256.

Fixpoint le_bytes (n : nat) (z : Z) : list Z :=
  match n with
  | O => []
  | S m => (z mod 256) :: le_bytes m (z / 256)
  end.

Fixpoint of_le (bs : list Z) : Z :=
  match bs with
  | [] => 0
  | b :: rest => b + 256 * of_le rest
  end.

Lemma length_le_bytes n z : length (le_bytes n z) = n.
Proof. revert z; induction n; intros; simpl; auto. Qed.

Lemma le_bytes_are_bytes n z : Forall is_byte (le_bytes n z).
Proof.
  revert z; induction n; intros z; simpl; constructor; auto.
  apply Z.mod_pos_bound; lia.
Qed.

Lemma of_le_bytes n z : 0 <= z < 256 ^ Z.of_nat n -> of_le (le_bytes n z) = z.
Proof.
  revert z; induction n as [|n IH]; intros z Hz; simpl.
  - simpl in Hz. lia.
  - rewrite IH.
    + pose proof (Z.div_mod z 256). lia.
    + rewrite Nat2Z.inj_succ, Z.pow_succ_r in Hz by lia.
      split; [apply Z.div_pos; lia | apply Z.div_lt_upper_bound; lia].
Qed.

Lemma le_bytes_of_le bs :
  Forall is_byte bs -> le_bytes (length bs) (of_le bs) = bs.
Proof.
  induction 1 as [|b bs Hb _ IH]; [done|]. simpl.
  unfold is_byte in Hb. rewrite (Z.add_comm b), (Z.mul_comm 256).
  rewrite Z.div_add_l, (Z.div_small b), Z.add_0_r by lia.
  f_equal; [|done]. rewrite Z.add_comm, Z_mod_plus_full. apply Z.mod_small. lia.
Qed.

Lemma of_le_range bs :
  Forall is_byte bs -> 0 <= of_le bs < 256 ^ Z.of_nat (length bs).
Proof.
  induction 1 as [|b bs Hb _ IH]; [simpl; lia|].
  simpl length. rewrite Nat2Z.inj_succ, Z.pow_succ_r by lia.
  unfold is_byte in Hb. simpl. lia.
Qed.

Lemma le_bytes_inj n a b :
  0 <= a < 256 ^ Z.of_nat n -> 0 <= b < 256 ^ Z.of_nat n ->
  le_bytes n a = le_bytes n b -> a = b.
Proof. intros Ha Hb E. rewrite <- (of_le_bytes n a), <- (of_le_bytes n b), E; done. Qed.

(** ** Lists *)

(** [slice s] from a position to the end, and between two positions. *)
Definition slice {A} (from to : nat) (l : list A) : list A := take (to - from) (drop from l).

Lemma app_inj_length {A} (a b c d : list A) :
  length a = length c -> a ++ b = c ++ d -> a = c /\ b = d.
Proof. intros. by apply app_inj_1. Qed.

(** The first element satisfying a boolean test ([Iterator::find]). *)
Fixpoint find {A} (p : A -> bool) (l : list A) : option A :=
  match l with
  | [] => None
  | x :: rest => if p x then Some x else find p rest
  end.

Lemma find_some {A} (p : A -> bool) l x : find p l = Some x -> x ∈ l /\ p x = true.
Proof.
  induction l as [|y l IH]; simpl; [done|].
  destruct (p y) eqn:E.
  - intros [= ->]. split; [left | done].
  - intros Hf. destruct (IH Hf). split; [by right | done].
Qed.

Lemma find_none {A} (p : A -> bool) l : find p l = None <-> forall x, x ∈ l -> p x = false.
Proof.
  induction l as [|y l IH]; simpl.
  - split; [intros _ x Hx; by apply not_elem_of_nil in Hx | done].
  - destruct (p y) eqn:E; [split; [done|]|].
    + intros H. rewrite (H y) in E; [done | left].
    + rewrite IH. split; intros H x.
      * rewrite elem_of_cons. intros [-> | Hx]; auto.
      * intros Hx. apply H. by right.
Qed.

(** [l.retain(p)] / [filter] with a boolean test. *)
Definition retain {A} (p : A -> bool) (l : list A) : list A := filter (fun x => p x = true) l.

Lemma elem_of_retain {A} (p : A -> bool) l x : x ∈ retain p l <-> x ∈ l /\ p x = true.
Proof. unfold retain. rewrite list_elem_of_filter. tauto. Qed.

Lemma retain_app {A} (p : A -> bool) l k : retain p (l ++ k) = retain p l ++ retain p k.
Proof. apply filter_app. Qed.

Lemma retain_map {A B} (p : B -> bool) (f : A -> B) l : retain p (map f l) = map f (retain (fun x => p (f x)) l).
Proof.
  induction l as [|x l IH]; [done|]. unfold retain in *. cbn [map]. rewrite !filter_cons. cbn.
  by destruct (p (f x)); rewrite IH.
Qed.

Lemma retain_cons {A} (p : A -> bool) x l : retain p (x :: l) = if p x then x :: retain p l else retain p l.
Proof. unfold retain. rewrite filter_cons. by destruct (p x). Qed.

#[export] Instance retain_perm {A} (p : A -> bool) : Proper ((≡ₚ) ==> (≡ₚ)) (retain p).
Proof. intros l l' H. unfold retain. by rewrite H. Qed.

Lemma retain_ext {A} (p q : A -> bool) l : (forall x, x ∈ l -> p x = q x) -> retain p l = retain q l.
Proof.
  induction l as [|x l IH]; intros H; [done|]. rewrite !retain_cons, (H x) by left.
  rewrite IH by (intros y Hy; apply H; by right). done.
Qed.

Lemma retain_retain {A} (p q : A -> bool) l : retain p (retain q l) = retain (fun x => q x && p x) l.
Proof. induction l as [|x l IH]; [done|]. rewrite !retain_cons. destruct (q x); [rewrite retain_cons; cbn; by rewrite IH | done]. Qed.

Lemma retain_none {A} (p : A -> bool) l : (forall x, x ∈ l -> p x = false) -> retain p l = [].
Proof. induction l as [|x l IH]; intros H; [done|]. rewrite retain_cons, H, IH by (try left; intros; apply H; by right). done. Qed.

Lemma retain_all {A} (p : A -> bool) l : (forall x, x ∈ l -> p x = true) -> retain p l = l.
Proof. induction l as [|x l IH]; intros H; [done|]. rewrite retain_cons, H, IH by (try left; intros; apply H; by right). done. Qed.

(** [Iterator::any]. *)
Definition any {A} (p : A -> bool) (l : list A) : bool := existsb p l.

Lemma any_true {A} (p : A -> bool) l : any p l = true <-> exists x, x ∈ l /\ p x = true.
Proof.
  unfold any. rewrite existsb_exists. split; intros (x & H & Hp); exists x; split; auto;
    by apply list_elem_of_In.
Qed.

Lemma any_false {A} (p : A -> bool) l : any p l = false <-> forall x, x ∈ l -> p x = false.
Proof.
  rewrite <- not_true_iff_false, any_true. split.
  - intros H x Hx. destruct (p x) eqn:E; [exfalso; eauto | done].
  - intros H (x & Hx & Hp). by rewrite (H x Hx) in Hp.
Qed.

(** [sort_by_key]: a stable sort by an integer key. *)
Fixpoint insert_by_key {A} (key : A -> Z) (x : A) (l : list A) : list A :=
  match l with
  | [] => [x]
  | y :: rest => if key x <=? key y then x :: l else y :: insert_by_key key x rest
  end.

Definition sort_by_key {A} (key : A -> Z) (l : list A) : list A := foldr (insert_by_key key) [] l.

Definition by_key {A} (key : A -> Z) (x y : A) : Prop := key x <= key y.

Lemma insert_by_key_perm {A} (key : A -> Z) x l : insert_by_key key x l ≡ₚ x :: l.
Proof.
  induction l as [|y l IH]; simpl; [done|]. destruct (key x <=? key y); [done|].
  rewrite IH. by apply Permutation_swap.
Qed.

Lemma sort_by_key_perm {A} (key : A -> Z) l : sort_by_key key l ≡ₚ l.
Proof. induction l as [|x l IH]; simpl; [done|]. by rewrite insert_by_key_perm, IH. Qed.

Lemma insert_by_key_sorted {A} (key : A -> Z) x l :
  StronglySorted (by_key key) l -> StronglySorted (by_key key) (insert_by_key key x l).
Proof.
  induction 1 as [|y l Hl IH Hy]; simpl; [repeat constructor|].
  destruct (Z.leb_spec (key x) (key y)).
  - constructor; [by constructor|]. constructor; [done|].
    eapply Forall_impl; [exact Hy|]. unfold by_key. intros. lia.
  - constructor; [done|]. rewrite insert_by_key_perm. constructor; [unfold by_key; lia | done].
Qed.

Lemma sort_by_key_sorted {A} (key : A -> Z) l : StronglySorted (by_key key) (sort_by_key key l).
Proof. induction l as [|x l IH]; simpl; [constructor | by apply insert_by_key_sorted]. Qed.

(** Keys under each of which there is at most one element. *)
Lemma at_most_one_NoDup {A} (key : A -> Z) l :
  (forall k, (length (retain (fun x => (key x =? k)%Z) l) <= 1)%nat) -> NoDup (map key l).
Proof.
  induction l as [|x l IH]; intros H; [constructor|]. cbn. apply NoDup_cons. split.
  - intros (y & Hy & Hin)%list_elem_of_fmap. specialize (H (key x)). rewrite retain_cons, Z.eqb_refl in H. cbn in H.
    assert (Hy' : y ∈ retain (fun z => key z =? key x) l) by (apply elem_of_retain; split; [done | by apply Z.eqb_eq]).
    destruct (retain _ l); [by apply not_elem_of_nil in Hy' | cbn in H; lia].
  - apply IH. intros k. specialize (H k). rewrite retain_cons in H. destruct (key x =? k); cbn in H; lia.
Qed.

(** A list sorted by distinct keys is the only sorting of its elements. *)
Lemma sorted_by_key_unique {A} (key : A -> Z) l1 l2 :
  StronglySorted (by_key key) l1 -> StronglySorted (by_key key) l2 -> l1 ≡ₚ l2 -> NoDup (map key l1) -> l1 = l2.
Proof.
  revert l2; induction l1 as [|x l1 IH]; intros l2 H1 H2 Hp Hn.
  { by apply Permutation_nil_l in Hp as ->. }
  destruct l2 as [|y l2]; [by apply Permutation_nil_r in Hp|].
  apply StronglySorted_inv in H1 as [H1 Hx], H2 as [H2 Hy]. cbn in Hn. apply NoDup_cons in Hn as [Hni Hn].
  assert (x = y) as ->.
  { assert (Hxin : x ∈ y :: l2) by (rewrite <- Hp; left). assert (Hyin : y ∈ x :: l1) by (rewrite Hp; left).
    apply elem_of_cons in Hxin as [-> | Hxin]; [done|]. apply elem_of_cons in Hyin as [-> | Hyin]; [done|].
    rewrite Forall_forall in Hx, Hy. specialize (Hx y Hyin). specialize (Hy x Hxin). unfold by_key in *.
    exfalso. apply Hni. replace (key x) with (key y) by lia. by apply (list_elem_of_fmap_2 key). }
  f_equal. apply IH; try done. by apply Permutation_cons_inv in Hp.
Qed.

Lemma sort_by_key_stable {A} (key : A -> Z) l l' :
  StronglySorted (by_key key) l -> NoDup (map key l) -> l' ≡ₚ l -> sort_by_key key l' = l.
Proof.
  intros Hs Hn Hp. symmetry. apply (sorted_by_key_unique key); [done | apply sort_by_key_sorted | | done].
  rewrite sort_by_key_perm. by symmetry.
Qed.

(** A map collected from a list whose keys tell its elements apart. *)
Lemma fold_insert_find {A V} (key : A -> Z) (val : A -> V) l (m : gmap Z V) k :
  (forall x y, x ∈ l -> y ∈ l -> key x = key y -> x = y) ->
  fold_left (fun m x => <[key x := val x]> m) l m !! k =
    match find (fun x => key x =? k) l with Some x => Some (val x) | None => m !! k end.
Proof.
  revert m; induction l as [|x l IH]; intros m Hu; [done|]. cbn [fold_left find].
  rewrite IH by (intros; apply Hu; [by right | by right | done]).
  destruct (Z.eqb_spec (key x) k) as [<- | Hne].
  - destruct (find _ l) as [y|] eqn:E; [|by rewrite lookup_insert_eq].
    apply find_some in E as [Hy Ek%Z.eqb_eq]. by rewrite (Hu x y); [| left | right |].
  - destruct (find _ l); [done | by rewrite lookup_insert_ne].
Qed.

(** [opt.unwrap_or(d)] is stdpp's [default d opt]. *)

(** ** Ordered maps

    A [BTreeMap] with integer keys is a [gmap]; its iteration visits the entries by
    ascending key. *)

Definition key_le {V} (a b : Z * V) : Prop := a.1 <= b.1.

#[global] Instance key_le_dec {V} (a b : Z * V) : Decision (key_le a b).
Proof. unfold key_le. apply _. Defined.

#[global] Instance key_le_total {V} : Total (@key_le V).
Proof. intros a b. unfold key_le. lia. Qed.

#[global] Instance key_le_trans {V} : Transitive (@key_le V).
Proof. intros a b c. unfold key_le. lia. Qed.

Definition btree_iter {V} (m : gmap Z V) : list (Z * V) := merge_sort key_le (map_to_list m).

Definition btree_values {V} (m : gmap Z V) : list V := (btree_iter m).*2.

Lemma btree_iter_perm {V} (m : gmap Z V) : btree_iter m ≡ₚ map_to_list m.
Proof. apply merge_sort_Permutation. Qed.

Lemma btree_iter_sorted {V} (m : gmap Z V) : StronglySorted key_le (btree_iter m).
Proof. apply StronglySorted_merge_sort; apply _. Qed.

Lemma elem_of_btree_iter {V} (m : gmap Z V) k v : (k, v) ∈ btree_iter m <-> m !! k = Some v.
Proof. rewrite btree_iter_perm. apply elem_of_map_to_list. Qed.

Lemma elem_of_btree_values {V} (m : gmap Z V) v : v ∈ btree_values m <-> exists k, m !! k = Some v.
Proof.
  unfold btree_values. rewrite list_elem_of_fmap. split.
  - intros ([k v'] & -> & H). exists k. by apply elem_of_btree_iter.
  - intros (k & H). exists (k, v). split; [done | by apply elem_of_btree_iter].
Qed.

Lemma NoDup_btree_keys {V} (m : gmap Z V) : NoDup (btree_iter m).*1.
Proof. rewrite btree_iter_perm. apply NoDup_fst_map_to_list. Qed.

(** A boolean test on every entry of a map, by evaluation. *)
Definition all_entries {V} (p : Z -> V -> bool) (m : gmap Z V) : bool :=
  forallb (fun e => p e.1 e.2) (map_to_list m).

Lemma all_entries_spec {V} (p : Z -> V -> bool) (m : gmap Z V) :
  all_entries p m = true -> forall k v, m !! k = Some v -> p k v = true.
Proof.
  unfold all_entries. rewrite forallb_forall. intros H k v Hkv.
  apply (H (k, v)). apply list_elem_of_In. by apply elem_of_map_to_list.
Qed.

(** ** Hash maps and sets

    A [HashMap] or [HashSet] visits its entries once each, in an order nobody may rely on:
    the order is a parameter of the model. *)

Class HashOrder : Type := {
  hash_iter : forall {V : Type}, gmap Z V -> list (Z * V);
  hash_set_iter : gset Z -> list Z }.

Class HashOrderLaws (HO : HashOrder) : Prop := {
  hash_iter_perm V (m : gmap Z V) : hash_iter m ≡ₚ map_to_list m;
  hash_set_iter_perm (s : gset Z) : hash_set_iter s ≡ₚ elements s }.

(** The order stdpp's own iteration uses, for evaluating the model. *)
Module MapOrder.
#[export] Instance order : HashOrder := {|
  hash_iter := fun V (m : gmap Z V) => map_to_list m;
  hash_set_iter := fun s => elements s |}.

#[export] Instance order_laws : HashOrderLaws order.
Proof. by split. Qed.
End MapOrder.

Section HashOrderLemmas.
Context {HO : HashOrder} {L : HashOrderLaws HO}.

Lemma elem_of_hash_iter {V} (m : gmap Z V) k v : (k, v) ∈ hash_iter m <-> m !! k = Some v.
Proof. rewrite hash_iter_perm. apply elem_of_map_to_list. Qed.

Lemma elem_of_hash_set_iter (s : gset Z) k : k ∈ hash_set_iter s <-> k ∈ s.
Proof. rewrite hash_set_iter_perm. apply elem_of_elements. Qed.

Lemma NoDup_hash_iter {V} (m : gmap Z V) : NoDup (hash_iter m).*1.
Proof. rewrite hash_iter_perm. apply NoDup_fst_map_to_list. Qed.

Lemma NoDup_hash_set_iter (s : gset Z) : NoDup (hash_set_iter s).
Proof. rewrite hash_set_iter_perm. apply NoDup_elements. Qed.
End HashOrderLemmas.

(** ** The greatest of a list *)

Lemma foldr_max_ge (n : Z) (l : list Z) x : x ∈ l -> x <= foldr Z.max n l.
Proof. induction l as [|y l IH]; [by intros ?%not_elem_of_nil|]. intros [-> | Hin]%elem_of_cons; cbn [foldr]; [lia|]. specialize (IH Hin). lia. Qed.

(** ** Triples in lexicographic order *)

Definition lex_lt (a b : Z * Z * Z) : Prop :=
  a.1.1 < b.1.1 \/ (a.1.1 = b.1.1 /\ (a.1.2 < b.1.2 \/ (a.1.2 = b.1.2 /\ a.2 < b.2))).

Definition lex_ltb (a b : Z * Z * Z) : bool :=
  (a.1.1 <? b.1.1) || ((a.1.1 =? b.1.1) && ((a.1.2 <? b.1.2) || ((a.1.2 =? b.1.2) && (a.2 <? b.2)))).

Lemma lex_ltb_lt a b : lex_ltb a b = true <-> lex_lt a b.
Proof. unfold lex_ltb, lex_lt. rewrite orb_true_iff, andb_true_iff, orb_true_iff, andb_true_iff, !Z.ltb_lt, !Z.eqb_eq. tauto. Qed.

Lemma lex_trans a b c : lex_lt a b -> lex_lt b c -> lex_lt a c.
Proof. unfold lex_lt. lia. Qed.

Lemma lex_total a b : a = b \/ lex_lt a b \/ lex_lt b a.
Proof.
  destruct a as [[a1 a2] a3], b as [[b1 b2] b3]. unfold lex_lt. simpl.
  destruct (Z.lt_trichotomy a1 b1) as [?|[->|?]]; [lia| |lia].
  destruct (Z.lt_trichotomy a2 b2) as [?|[->|?]]; [lia| |lia].
  destruct (Z.lt_trichotomy a3 b3) as [?|[->|?]]; [lia|by left|lia].
Qed.

(** ** Automation *)

Create HintDb pickle.
Create Rewrite HintDb pickle_len.
#[export] Hint Resolve wrap_fits length_le_bytes le_bytes_are_bytes : pickle.
#[export] Hint Rewrite @length_le_bytes @length_app : pickle_len.

(** Split every match and conditional the goal or a hypothesis is stuck on. *)
Ltac case_match_all :=
  repeat match goal with
  | H : context [match ?x with _ => _ end] |- _ => destruct x eqn:?; try discriminate
  | |- context [match ?x with _ => _ end] => destruct x eqn:?; try discriminate
  end.

(** Turn boolean comparisons in the context into propositions. *)
Ltac bool_props :=
  repeat match goal with
  | H : andb _ _ = true |- _ => apply andb_true_iff in H; destruct H
  | H : orb _ _ = false |- _ => apply orb_false_iff in H; destruct H
  | H : negb _ = true |- _ => apply negb_true_iff in H
  | H : negb _ = false |- _ => apply negb_false_iff in H
  | H : (_ =? _) = true |- _ => apply Z.eqb_eq in H
  | H : (_ =? _) = false |- _ => apply Z.eqb_neq in H
  | H : (_ <? _) = true |- _ => apply Z.ltb_lt in H
  | H : (_ <? _) = false |- _ => apply Z.ltb_ge in H
  | H : (_ <=? _) = true |- _ => apply Z.leb_le in H
  | H : (_ <=? _) = false |- _ => apply Z.leb_gt in H
  | H : bool_decide _ = true |- _ => apply bool_decide_eq_true in H
  | H : bool_decide _ = false |- _ => apply bool_decide_eq_false in H
  end.
