(* ===== verification/RustStr.v ===== *)
(** * Rust strings

    The model of the [String]/[str] operations the sources use.  A string is the
    list of its Unicode scalar values, so [chars] is the identity; [str_len] is
    the length in UTF-8 bytes ([str::len]).  [is_control] and [is_whitespace]
    are [char::is_control] (general category Cc) and [char::is_whitespace] (the
    White_Space property), [trim] is [str::trim]. *)

From S2P Require Export Prelude.

Definition char : Type := Z.
Definition rstring : Type := list char.

Fixpoint lit (s : string) : rstring :=
  match s with
  | EmptyString => []
  | String a rest => Z.of_N (Ascii.N_of_ascii a) :: lit rest
  end.

Definition is_control (c : char) : bool :=
  ((0 <=? c) && (c <=? 31)) || ((127 <=? c) && (c <=? 159)).

Definition is_whitespace (c : char) : bool :=
  ((9 <=? c) && (c <=? 13)) || (c =? 32) || (c =? 133) || (c =? 160)
  || (c =? 5760) || ((8192 <=? c) && (c <=? 8202)) || (c =? 8232) || (c =? 8233)
  || (c =? 8239) || (c =? 8287) || (c =? 12288).

Definition char_len (c : char) : Z :=
  if c <? 128 then 1 else if c <? 2048 then 2 else if c <? 65536 then 3 else 4.

(** UTF-8 ([str::as_bytes]). *)
Definition char_bytes (c : char) : list Z :=
  if c <? 128 then [c]
  else if c <? 2048 then [192 + c / 64; 128 + c mod 64]
  else if c <? 65536 then [224 + c / 4096; 128 + c / 64 mod 64; 128 + c mod 64]
  else [240 + c / 262144; 128 + c / 4096 mod 64; 128 + c / 64 mod 64; 128 + c mod 64].

Definition as_bytes (s : rstring) : list Z := s ≫= char_bytes.

Definition str_len (s : rstring) : Z := foldr (fun c n => char_len c + n) 0 s.

Fixpoint trim_start (s : rstring) : rstring :=
  match s with
  | [] => []
  | c :: rest => if is_whitespace c then trim_start rest else s
  end.

Definition trim_end (s : rstring) : rstring := reverse (trim_start (reverse s)).

Definition trim (s : rstring) : rstring := trim_end (trim_start s).

Definition is_empty {A} (s : list A) : bool :=
  match s with [] => true | _ :: _ => false end.

(** Decimal rendering of a non-negative integer ([to_string], [{}]); twenty
    digits hold every u64. *)
Fixpoint digits (fuel : nat) (n : Z) (acc : rstring) : rstring :=
  match fuel with
  | O => acc
  | S f =>
      let acc' := (48 + n mod 10) :: acc in
      if n <? 10 then acc' else digits f (n / 10) acc'
  end.

Definition dec (n : Z) : rstring := digits 20 n [].

(** ASCII case mapping, and the ASCII strings it is documented for. *)
Definition is_ascii (c : char) : bool := (0 <=? c) && (c <? 128).
Definition ascii_upper (c : char) : char := if (97 <=? c) && (c <=? 122) then c - 32 else c.
Definition ascii_lower (c : char) : char := if (65 <=? c) && (c <=? 90) then c + 32 else c.

(** ** Lemmas *)

Lemma length_as_bytes s : Z.of_nat (length (as_bytes s)) = str_len s.
Proof.
  induction s as [|c s IH]; [done|].
  unfold as_bytes in *. rewrite bind_cons, length_app, Nat2Z.inj_add, IH. simpl.
  f_equal. unfold char_bytes, char_len.
  destruct (c <? 128), (c <? 2048), (c <? 65536); done.
Qed.

Lemma is_empty_true {A} (s : list A) : is_empty s = true <-> s = [].
Proof. destruct s; done. Qed.

Lemma is_empty_false {A} (s : list A) : is_empty s = false <-> s <> [].
Proof. destruct s; done. Qed.

Lemma trim_start_suffix s : exists pre, s = pre ++ trim_start s /\ Forall (fun c => is_whitespace c = true) pre.
Proof.
  induction s as [|c s (pre & E & H)]; simpl; [by exists []|].
  destruct (is_whitespace c) eqn:W.
  - exists (c :: pre). simpl. split; [congruence | by constructor].
  - by exists [].
Qed.

Lemma trim_start_head s c rest : trim_start s = c :: rest -> is_whitespace c = false.
Proof.
  induction s as [|d s IH]; simpl; [done|].
  destruct (is_whitespace d) eqn:W; [done|]. by intros [= -> ->].
Qed.

Lemma trim_end_prefix s : exists post, s = trim_end s ++ post /\ Forall (fun c => is_whitespace c = true) post.
Proof.
  unfold trim_end. destruct (trim_start_suffix (reverse s)) as (pre & E & H).
  exists (reverse pre). split.
  - rewrite <- reverse_app, <- E. by rewrite reverse_involutive.
  - by apply Forall_reverse.
Qed.

(** [trim s] is [s] with whitespace taken off both ends and nothing else. *)
Lemma trim_spec s :
  exists pre post,
    s = pre ++ trim s ++ post
    /\ Forall (fun c => is_whitespace c = true) pre
    /\ Forall (fun c => is_whitespace c = true) post.
Proof.
  destruct (trim_start_suffix s) as (pre & E & Hpre).
  destruct (trim_end_prefix (trim_start s)) as (post & E' & Hpost).
  exists pre, post. split; [|done]. rewrite E at 1. f_equal. exact E'.
Qed.

Lemma trim_head s c rest : trim s = c :: rest -> is_whitespace c = false.
Proof.
  unfold trim. intros E.
  destruct (trim_end_prefix (trim_start s)) as (post & E' & _).
  rewrite E in E'. eapply trim_start_head. exact E'.
Qed.

Lemma trim_last s c : last (trim s) = Some c -> is_whitespace c = false.
Proof.
  unfold trim, trim_end. rewrite last_reverse.
  destruct (trim_start (reverse (trim_start s))) as [|d l] eqn:E; simpl; [done|].
  intros [= <-]. by eapply trim_start_head.
Qed.

(** A trimmed string is empty exactly when the string is blank. *)
Lemma trim_empty s : trim s = [] <-> Forall (fun c => is_whitespace c = true) s.
Proof.
  destruct (trim_spec s) as (pre & post & E & Hpre & Hpost). split.
  - intros H. rewrite H in E. simpl in E. subst s. by apply Forall_app.
  - intros H. destruct (trim s) as [|c l] eqn:T; [done|].
    pose proof (trim_head _ _ _ T) as W. rewrite E in H.
    apply Forall_app in H as [_ H]. apply Forall_app in H as [H _].
    apply Forall_cons in H as [H _]. congruence.
Qed.

Lemma elem_of_trim s c : c ∈ trim s -> c ∈ s.
Proof.
  destruct (trim_spec s) as (pre & post & E & _). intros H. rewrite E. set_solver.
Qed.
