(* ===== verification/Voice.v ===== *)
(** * Voice datagrams ([crates/pickle-proto/src/voice.rs])

    The hand-rolled headers of the voice relay: the client-to-server and
    server-to-client packets with their byte layouts, the burst flags and the
    wrap-around sequence comparison.  A [Bytes] value is a list of byte values. *)

From S2P Require Export Prelude.


Definition SAMPLE_RATE : Z := 48000.
Definition FRAME_MS : Z := 20.
Definition SAMPLES_PER_FRAME : Z := (SAMPLE_RATE / 1000) * FRAME_MS.
Definition MAX_OPUS_PACKET : nat := 1275.
Definition UPSTREAM_HEADER_LEN : nat := 6.
Definition DOWNSTREAM_HEADER_LEN : nat := 10.
Definition MAX_DATAGRAM_LEN : nat := DOWNSTREAM_HEADER_LEN + MAX_OPUS_PACKET.
Definition TAG_UPSTREAM : Z := 1.
Definition TAG_DOWNSTREAM : Z := 2.
Definition FLAG_BURST_START : Z := Z.shiftl 1 0.
Definition FLAG_BURST_END : Z := Z.shiftl 1 1.

Inductive VoiceDecodeError : Type :=
| TooShort (len : nat)
| UnknownTag (tag : Z)
| PayloadTooLarge (len : nat).

Abbreviation ClientId := Z (only parsing).

Record VoiceUpstream : Type := mkUp { up_seq : Z; up_flags : Z; up_payload : bytes }.

Record VoiceDownstream : Type :=
  mkDown { down_sender : ClientId; down_seq : Z; down_flags : Z; down_payload : bytes }.

#[global] Instance VoiceUpstream_eq_dec : EqDecision VoiceUpstream.
Proof. solve_decision. Defined.

(** [datagram[i]]; the decoders index only below the checked length. *)
Definition byte_at (d : bytes) (i : nat) : Z := default 0 (d !! i).

Definition encode_up (p : VoiceUpstream) : bytes :=
  [TAG_UPSTREAM] ++ le_bytes 4 (up_seq p) ++ [up_flags p] ++ up_payload p.

Definition decode_up (datagram : bytes) : VoiceDecodeError + VoiceUpstream :=
  if (length datagram <? UPSTREAM_HEADER_LEN)%nat then inl (TooShort (length datagram))
  else if negb (byte_at datagram 0 =? TAG_UPSTREAM) then inl (UnknownTag (byte_at datagram 0))
  else
    let seq := of_le (slice 1 5 datagram) in
    let flags := byte_at datagram 5 in
    let payload := drop UPSTREAM_HEADER_LEN datagram in
    if (MAX_OPUS_PACKET <? length payload)%nat then inl (PayloadTooLarge (length payload))
    else inr (mkUp seq flags payload).

Definition into_downstream (p : VoiceUpstream) (sender : ClientId) : VoiceDownstream :=
  mkDown sender (up_seq p) (up_flags p) (up_payload p).

Definition encode_down (p : VoiceDownstream) : bytes :=
  [TAG_DOWNSTREAM] ++ le_bytes 4 (down_sender p) ++ le_bytes 4 (down_seq p)
    ++ [down_flags p] ++ down_payload p.

Definition decode_down (datagram : bytes) : VoiceDecodeError + VoiceDownstream :=
  if (length datagram <? DOWNSTREAM_HEADER_LEN)%nat then inl (TooShort (length datagram))
  else if negb (byte_at datagram 0 =? TAG_DOWNSTREAM) then inl (UnknownTag (byte_at datagram 0))
  else
    let sender := of_le (slice 1 5 datagram) in
    let seq := of_le (slice 5 9 datagram) in
    let flags := byte_at datagram 9 in
    let payload := drop DOWNSTREAM_HEADER_LEN datagram in
    if (MAX_OPUS_PACKET <? length payload)%nat then inl (PayloadTooLarge (length payload))
    else inr (mkDown sender seq flags payload).

Definition starts_burst (p : VoiceDownstream) : bool :=
  negb (Z.land (down_flags p) FLAG_BURST_START =? 0).

Definition ends_burst (p : VoiceDownstream) : bool :=
  negb (Z.land (down_flags p) FLAG_BURST_END =? 0).

Definition seq_newer_than (a b : Z) : bool :=
  negb (a =? b) && (wrap 32 (a - b) <? u32_max / 2).

(** ** Well-formed packets *)

(** What the Rust types guarantee, with the payload an Opus packet. *)
Record up_ok (p : VoiceUpstream) : Prop := {
  up_ok_seq : fits 32 (up_seq p);
  up_ok_flags : is_byte (up_flags p);
  up_ok_bytes : Forall is_byte (up_payload p);
  up_ok_len : (length (up_payload p) <= MAX_OPUS_PACKET)%nat }.

Record down_ok (p : VoiceDownstream) : Prop := {
  down_ok_sender : fits 32 (down_sender p);
  down_ok_seq : fits 32 (down_seq p);
  down_ok_flags : is_byte (down_flags p);
  down_ok_bytes : Forall is_byte (down_payload p);
  down_ok_len : (length (down_payload p) <= MAX_OPUS_PACKET)%nat }.

(** ** Lemmas *)

(** Split a datagram whose length is known to reach its header. *)
Ltac split_header d :=
  repeat match goal with
  | H : context [length d] |- _ =>
      let b := fresh "b" in destruct d as [|b d]; simpl in H; try lia
  end.

Lemma four_bytes b1 b2 b3 b4 :
  is_byte b1 -> is_byte b2 -> is_byte b3 -> is_byte b4 ->
  le_bytes 4 (of_le [b1; b2; b3; b4]) = [b1; b2; b3; b4]
  /\ fits 32 (of_le [b1; b2; b3; b4]).
Proof.
  intros. assert (F : Forall is_byte [b1; b2; b3; b4]) by (rewrite !Forall_cons; auto using Forall_nil_2).
  split; [exact (le_bytes_of_le _ F) |].
  pose proof (of_le_range _ F) as R. unfold fits. exact R.
Qed.

Lemma of_le_u32 z : fits 32 z -> of_le (le_bytes 4 z) = z.
Proof. intros. by apply of_le_bytes. Qed.

Lemma decode_encode_up p : up_ok p -> decode_up (encode_up p) = inr p.
Proof.
  intros [Hseq _ _ Hlen]. destruct p as [seq flags payload]; simpl in *.
  unfold decode_up, encode_up. cbv zeta. simpl up_seq. simpl up_flags. simpl up_payload.
  rewrite !length_app, length_le_bytes. cbn [length].
  destruct (Nat.ltb_spec (1 + (4 + (1 + length payload))) UPSTREAM_HEADER_LEN);
    [unfold UPSTREAM_HEADER_LEN in *; lia |].
  change (byte_at _ 0) with TAG_UPSTREAM. rewrite Z.eqb_refl. cbn [negb].
  change (slice 1 5 _) with (le_bytes 4 seq). rewrite of_le_u32 by done.
  change (drop UPSTREAM_HEADER_LEN _) with payload.
  destruct (Nat.ltb_spec MAX_OPUS_PACKET (length payload)); [lia | reflexivity].
Qed.

Lemma decode_encode_down p : down_ok p -> decode_down (encode_down p) = inr p.
Proof.
  intros [Hsnd Hseq _ _ Hlen]. destruct p as [snd seq flags payload]; simpl in *.
  unfold decode_down, encode_down. cbv zeta.
  simpl down_sender. simpl down_seq. simpl down_flags. simpl down_payload.
  rewrite !length_app, !length_le_bytes. cbn [length].
  destruct (Nat.ltb_spec (1 + (4 + (4 + (1 + length payload)))) DOWNSTREAM_HEADER_LEN);
    [unfold DOWNSTREAM_HEADER_LEN in *; lia |].
  change (byte_at _ 0) with TAG_DOWNSTREAM. rewrite Z.eqb_refl. cbn [negb].
  change (slice 1 5 _) with (le_bytes 4 snd). change (slice 5 9 _) with (le_bytes 4 seq).
  rewrite !of_le_u32 by done. change (drop DOWNSTREAM_HEADER_LEN _) with payload.
  destruct (Nat.ltb_spec MAX_OPUS_PACKET (length payload)); [lia | reflexivity].
Qed.

Lemma decode_up_inv d p :
  Forall is_byte d -> decode_up d = inr p -> up_ok p /\ d = encode_up p.
Proof.
  unfold decode_up. cbv zeta. intros Hd.
  destruct (Nat.ltb_spec (length d) UPSTREAM_HEADER_LEN) as [|Hl]; [done|].
  unfold UPSTREAM_HEADER_LEN in Hl.
  destruct d as [|t [|b1 [|b2 [|b3 [|b4 [|f payload]]]]]]; simpl in Hl; try lia.
  destruct (negb _) eqn:T; [done|]. bool_props. change (byte_at _ 0) with t in T.
  change (slice 1 5 _) with [b1; b2; b3; b4].
  change (drop UPSTREAM_HEADER_LEN _) with payload. change (byte_at _ 5) with f.
  destruct (Nat.ltb_spec MAX_OPUS_PACKET (length payload)); [done|].
  intros [= <-]. rewrite !Forall_cons in Hd. destruct Hd as (? & ? & ? & ? & ? & ? & ?).
  destruct (four_bytes b1 b2 b3 b4) as [E R]; try done.
  split; [by constructor|]. rewrite T. exact (f_equal (fun l => [TAG_UPSTREAM] ++ l ++ [f] ++ payload) (eq_sym E)).
Qed.

Lemma decode_down_inv d p :
  Forall is_byte d -> decode_down d = inr p -> down_ok p /\ d = encode_down p.
Proof.
  unfold decode_down. cbv zeta. intros Hd.
  destruct (Nat.ltb_spec (length d) DOWNSTREAM_HEADER_LEN) as [|Hl]; [done|].
  unfold DOWNSTREAM_HEADER_LEN in Hl.
  destruct d as [|t [|b1 [|b2 [|b3 [|b4 [|c1 [|c2 [|c3 [|c4 [|f payload]]]]]]]]]];
    simpl in Hl; try lia.
  destruct (negb _) eqn:T; [done|]. bool_props. change (byte_at _ 0) with t in T.
  change (slice 1 5 _) with [b1; b2; b3; b4]. change (slice 5 9 _) with [c1; c2; c3; c4].
  change (drop DOWNSTREAM_HEADER_LEN _) with payload. change (byte_at _ 9) with f.
  destruct (Nat.ltb_spec MAX_OPUS_PACKET (length payload)); [done|].
  intros [= <-]. rewrite !Forall_cons in Hd.
  destruct Hd as (? & ? & ? & ? & ? & ? & ? & ? & ? & ? & ?).
  destruct (four_bytes b1 b2 b3 b4) as [E R]; try done.
  destruct (four_bytes c1 c2 c3 c4) as [E' R']; try done.
  split; [by constructor|]. rewrite T.
  exact (f_equal2 (fun l m => [TAG_DOWNSTREAM] ++ l ++ m ++ [f] ++ payload) (eq_sym E) (eq_sym E')).
Qed.

Lemma into_downstream_ok p sender : up_ok p -> fits 32 sender -> down_ok (into_downstream p sender).
Proof. intros [] ?. by constructor. Qed.
#[export] Hint Resolve into_downstream_ok : pickle.

(** ** Properties *)

(** A byte string decodes as an upstream packet exactly when it is the encoding of
    a well-formed packet, so decoding inverts encoding, accepts nothing else and
    never yields a field out of range or an oversized payload. *)
Theorem decode_up_iff d p :
  Forall is_byte d -> decode_up d = inr p <-> up_ok p /\ d = encode_up p.
Proof.
  intros Hd. split; [by apply decode_up_inv |].
  intros [Hp ->]. by apply decode_encode_up.
Qed.

Lemma decode_up_iff_witness :
  Forall is_byte [1; 2; 1; 0; 0; 3; 9]
  /\ (decode_up [1; 2; 1; 0; 0; 3; 9] = inr (mkUp 258 3 [9])
      <-> up_ok (mkUp 258 3 [9]) /\ [1; 2; 1; 0; 0; 3; 9] = encode_up (mkUp 258 3 [9])).
Proof.
  assert (H : Forall is_byte [1; 2; 1; 0; 0; 3; 9])
    by (repeat constructor; unfold is_byte; lia).
  split; [exact H | exact (decode_up_iff [1; 2; 1; 0; 0; 3; 9] (mkUp 258 3 [9]) H)].
Defined.

(** The same for the downstream packets a client receives. *)
Theorem decode_down_iff d p :
  Forall is_byte d -> decode_down d = inr p <-> down_ok p /\ d = encode_down p.
Proof.
  intros Hd. split; [by apply decode_down_inv |].
  intros [Hp ->]. by apply decode_encode_down.
Qed.

Lemma decode_down_iff_witness :
  let d := [2; 5; 0; 0; 0; 1; 2; 0; 0; 3; 9] in
  Forall is_byte d
  /\ (decode_down d = inr (mkDown 5 513 3 [9])
      <-> down_ok (mkDown 5 513 3 [9]) /\ d = encode_down (mkDown 5 513 3 [9])).
Proof.
  assert (H : Forall is_byte [2; 5; 0; 0; 0; 1; 2; 0; 0; 3; 9])
    by (rewrite !Forall_cons; unfold is_byte; repeat split; try lia; apply Forall_nil_2).
  split; [exact H | exact (decode_down_iff _ (mkDown 5 513 3 [9]) H)].
Defined.

(** What the server relays is what the speaker sent: an accepted upstream datagram,
    attributed to [sender] and re-encoded, decodes at the listener to that sender with the
    speaker's sequence number, flags and payload, and fits the datagram buffer. *)
Theorem relay_roundtrip d p sender :
  Forall is_byte d -> fits 32 sender -> decode_up d = inr p ->
  decode_down (encode_down (into_downstream p sender))
    = inr (mkDown sender (up_seq p) (up_flags p) (up_payload p))
  /\ (length (encode_down (into_downstream p sender)) <= MAX_DATAGRAM_LEN)%nat
  /\ (length (encode_down (into_downstream p sender)) = length d + 4)%nat.
Proof.
  intros Hd Hs Hdec. apply decode_up_inv in Hdec as [Hp ->]; [|done].
  split; [apply (decode_encode_down (into_downstream p sender)); auto with pickle |].
  destruct Hp as [_ _ _ Hlen]. unfold encode_down, encode_up, MAX_DATAGRAM_LEN.
  rewrite !length_app, !length_le_bytes. cbn [length into_downstream down_payload].
  unfold DOWNSTREAM_HEADER_LEN. lia.
Qed.

Lemma relay_roundtrip_witness :
  decode_down (encode_down (into_downstream (mkUp 258 3 [9]) 77)) = inr (mkDown 77 258 3 [9])
  /\ length (encode_down (into_downstream (mkUp 258 3 [9]) 77)) = 11%nat.
Proof.
  destruct (relay_roundtrip [1; 2; 1; 0; 0; 3; 9] (mkUp 258 3 [9]) 77) as (H & _ & L).
  - rewrite !Forall_cons; unfold is_byte; repeat split; try lia; apply Forall_nil_2.
  - unfold fits; lia.
  - reflexivity.
  - split; [exact H | exact L].
Defined.

(** The two directions never decode as each other, whatever the packets carry, so a
    client cannot pass a server packet (with its sender field) off as its own. *)
Theorem directions_disjoint (up : VoiceUpstream) (down : VoiceDownstream) :
  decode_up (encode_down down) = inl (UnknownTag TAG_DOWNSTREAM)
  /\ exists e, decode_down (encode_up up) = inl e /\ (e = UnknownTag TAG_UPSTREAM \/ exists n, e = TooShort n).
Proof.
  split.
  - unfold decode_up, encode_down. rewrite !length_app, !length_le_bytes. cbn [length].
    destruct (Nat.ltb_spec (1 + (4 + (4 + (1 + length (down_payload down))))) UPSTREAM_HEADER_LEN);
      [unfold UPSTREAM_HEADER_LEN in *; lia | reflexivity].
  - unfold decode_down. destruct (_ <? _)%nat eqn:L.
    + eexists. split; [reflexivity | right; eauto].
    + exists (UnknownTag TAG_UPSTREAM). split; [reflexivity | by left].
Qed.

(** [seq_newer_than] is the wrap-around order: [a] is newer than [b] exactly when [a] is
    between 1 and 2^31 - 2 steps ahead of [b] modulo 2^32.  It is irreflexive, asymmetric,
    and unaffected by shifting both numbers across the rollover. *)
Theorem seq_newer_than_spec a b :
  fits 32 a -> fits 32 b ->
  (seq_newer_than a b = true <-> exists k, 0 < k < 2 ^ 31 - 1 /\ a = wrap 32 (b + k))
  /\ (seq_newer_than a b = true -> seq_newer_than b a = false)
  /\ (forall s, seq_newer_than (wrap 32 (a + s)) (wrap 32 (b + s)) = seq_newer_than a b).
Proof.
  intros Ha Hb.
  assert (Hiff : forall a b, fits 32 a -> fits 32 b ->
    seq_newer_than a b = true <-> exists k, 0 < k < 2 ^ 31 - 1 /\ a = wrap 32 (b + k)).
  { clear. intros a b Ha Hb. unfold seq_newer_than, fits, wrap, u32_max in *.
    change ((2 ^ 32 - 1) / 2) with (2 ^ 31 - 1). split.
    - intros H. bool_props. exists ((a - b) mod 2 ^ 32).
      split; [Z.div_mod_to_equations; lia |]. rewrite Zplus_mod_idemp_r.
      rewrite Z.mod_small; lia.
    - intros (k & Hk & ->). apply andb_true_iff. split.
      + apply negb_true_iff, Z.eqb_neq. Z.div_mod_to_equations. lia.
      + apply Z.ltb_lt. rewrite Zminus_mod_idemp_l.
        replace (b + k - b) with k by lia. rewrite Z.mod_small; lia. }
  split; [by apply Hiff |]. split.
  - unfold seq_newer_than, fits, wrap, u32_max in *. intros H. bool_props.
    apply andb_false_iff. right. apply Z.ltb_ge.
    change ((2 ^ 32 - 1) / 2) with (2 ^ 31 - 1) in *. Z.div_mod_to_equations. lia.
  - intros s. unfold seq_newer_than, fits, wrap in *. f_equal.
    + f_equal. destruct (Z.eqb_spec a b), (Z.eqb_spec ((a + s) mod 2 ^ 32) ((b + s) mod 2 ^ 32));
        try done; [congruence |]. Z.div_mod_to_equations. lia.
    + f_equal. rewrite <- Zminus_mod. f_equal. lia.
Qed.

Lemma seq_newer_than_spec_witness :
  seq_newer_than 1 u32_max = true /\ seq_newer_than u32_max 1 = false.
Proof.
  destruct (seq_newer_than_spec 1 u32_max) as (H & A & _).
  - unfold fits; lia.
  - unfold fits, u32_max; lia.
  - assert (T : seq_newer_than 1 u32_max = true).
    { apply H. exists 2. split; [lia | reflexivity]. }
    split; [exact T | exact (A T)].
Defined.
