(* ===== verification/Identity.v ===== *)
(** * Cryptographic identities ([crates/pickle-identity/src/lib.rs])

    Fingerprints and their text form, public and full identities, and the
    domain-separated challenges the two ends sign.  The primitives that live in
    third-party crates (SHA-256, Ed25519, base32) and the Unicode case tables are
    fields of the class [Crypto]; what the code relies on is [CryptoLaws]. *)

From S2P Require Export RustStr.


Record Fingerprint : Type := mkFp { fp_bytes : bytes }.

#[global] Instance Fingerprint_eq_dec : EqDecision Fingerprint.
Proof. solve_decision. Defined.

#[global] Instance Fingerprint_countable : Countable Fingerprint.
Proof. apply (inj_countable' fp_bytes mkFp). by intros []. Defined.

(** A fingerprint as the hash makes it. *)
Definition wf_fp (f : Fingerprint) : Prop := length (fp_bytes f) = 32%nat /\ Forall is_byte (fp_bytes f).

Inductive IdentityError : Type := MalformedKey | MalformedSignature | BadSignature | BadFingerprint.

(** The primitives of [sha2], [ed25519_dalek] and [data_encoding], and [str::to_uppercase],
    [str::to_lowercase]. A key, a seed and a signature are their byte strings. *)
Class Crypto : Type := {
  sha256 : bytes -> bytes;
  ed25519_public : bytes -> bytes;
  ed25519_sign : bytes -> bytes -> bytes;
  ed25519_verify : bytes -> bytes -> bytes -> bool;
  base32_encode : bytes -> rstring;
  base32_decode : bytes -> option bytes;
  to_uppercase : rstring -> rstring;
  to_lowercase : rstring -> rstring }.

(** The RFC 4648 base32 alphabet: A-Z and 2-7. *)
Definition base32_char (c : char) : bool :=
  ((65 <=? c) && (c <=? 90)) || ((50 <=? c) && (c <=? 55)).

Class CryptoLaws (C : Crypto) : Prop := {
  sha256_length m : length (sha256 m) = 32%nat;
  sha256_bytes m : Forall is_byte (sha256 m);
  ed25519_sign_verifies seed m : ed25519_verify (ed25519_public seed) m (ed25519_sign seed m) = true;
  base32_alphabet bs : Forall (fun c => base32_char c = true) (base32_encode bs);
  base32_roundtrip bs : Forall is_byte bs -> base32_decode (as_bytes (base32_encode bs)) = Some bs;
  to_uppercase_ascii s : Forall (fun c => is_ascii c = true) s -> to_uppercase s = map ascii_upper s;
  to_lowercase_ascii s : Forall (fun c => is_ascii c = true) s -> to_lowercase s = map ascii_lower s }.

Definition AUTH_CONTEXT : bytes := lit "pickle-auth-v1".
Definition SERVER_HELLO_CONTEXT : bytes := lit "pickle-server-hello-v1".

Definition HYPHEN : char := 45.

(** [chunks(4)] of the rendered text, joined with hyphens. *)
Fixpoint hyphenate (s : rstring) : rstring :=
  match s with
  | a :: b :: c :: d :: ((_ :: _) as rest) => a :: b :: c :: d :: HYPHEN :: hyphenate rest
  | _ => s
  end.

Definition auth_challenge (nonce cert : bytes) : bytes := AUTH_CONTEXT ++ nonce ++ cert.

Definition server_hello_challenge (nonce cert : bytes) (server_name : rstring) : bytes :=
  let name := as_bytes server_name in
  SERVER_HELLO_CONTEXT ++ nonce ++ cert ++ le_bytes 8 (Z.of_nat (length name)) ++ name.

Section Ops.
Context {C : Crypto}.

Definition fp_of (key : bytes) : Fingerprint := mkFp (sha256 key).

Definition fp_short (f : Fingerprint) : rstring :=
  let full := to_lowercase (base32_encode (fp_bytes f)) in
  let head := take 12 full in
  slice 0 4 head ++ [HYPHEN] ++ slice 4 8 head ++ [HYPHEN] ++ slice 8 12 head.

(** [Display] *)
Definition fp_to_string (f : Fingerprint) : rstring :=
  hyphenate (to_lowercase (base32_encode (fp_bytes f))).

Definition fp_parse (s : rstring) : IdentityError + Fingerprint :=
  let cleaned := to_uppercase (retain (fun c => negb (is_whitespace c) && negb (c =? HYPHEN)) s) in
  match base32_decode (as_bytes cleaned) with
  | None => inl BadFingerprint
  | Some bs => if (length bs =? 32)%nat then inr (mkFp bs) else inl BadFingerprint
  end.

Record PublicIdentity : Type := mkPub { key : bytes; counter : Z }.

#[global] Instance PublicIdentity_eq_dec : EqDecision PublicIdentity.
Proof. solve_decision. Defined.

Definition fingerprint (p : PublicIdentity) : Fingerprint := fp_of (key p).

Definition verify_auth (p : PublicIdentity) (nonce cert signature : bytes) : IdentityError + unit :=
  if ed25519_verify (key p) (auth_challenge nonce cert) signature then inr tt else inl BadSignature.

Definition verify_server_hello (p : PublicIdentity) (nonce cert : bytes) (name : rstring)
    (signature : bytes) : IdentityError + unit :=
  if ed25519_verify (key p) (server_hello_challenge nonce cert name) signature
  then inr tt else inl BadSignature.

Record Identity : Type := mkIdentity { signing : bytes; id_counter : Z }.

Definition public (i : Identity) : PublicIdentity := mkPub (ed25519_public (signing i)) (id_counter i).

Definition identity_fingerprint (i : Identity) : Fingerprint := fp_of (ed25519_public (signing i)).

Definition sign_auth (i : Identity) (nonce cert : bytes) : bytes :=
  ed25519_sign (signing i) (auth_challenge nonce cert).

Definition sign_server_hello (i : Identity) (nonce cert : bytes) (name : rstring) : bytes :=
  ed25519_sign (signing i) (server_hello_challenge nonce cert name).

End Ops.

(** A concrete instance, for evaluating the model: base32 text is one letter A-P per
    nibble, the hash pads to 32 bytes, and a signature is the key followed by the message. *)
Module Toy.

Definition hash (m : bytes) : bytes := take 32 (map (fun b => b mod 256) m ++ replicate 32 0).

Fixpoint encode (bs : bytes) : rstring :=
  match bs with
  | [] => []
  | b :: rest => (65 + b mod 256 / 16) :: (65 + b mod 16) :: encode rest
  end.

Fixpoint decode (cs : bytes) : option bytes :=
  match cs with
  | [] => Some []
  | h :: l :: rest =>
      match decode rest with
      | Some bs => Some ((h - 65) * 16 + (l - 65) :: bs)
      | None => None
      end
  | _ => None
  end.

Definition verify (pk m s : bytes) : bool := bool_decide (s = pk ++ m).

#[export] Instance crypto : Crypto := {|
  sha256 := hash;
  ed25519_public := fun seed => seed;
  ed25519_sign := fun seed m => seed ++ m;
  ed25519_verify := verify;
  base32_encode := encode;
  base32_decode := decode;
  to_uppercase := map ascii_upper;
  to_lowercase := map ascii_lower |}.

Lemma encode_alphabet bs : Forall (fun c => base32_char c = true) (encode bs).
Proof.
  induction bs as [|b bs IH]; simpl; [done|].
  repeat (apply Forall_cons; split); [.. | exact IH]; unfold base32_char;
    apply orb_true_iff; left; apply andb_true_iff; split; apply Z.leb_le;
    Z.div_mod_to_equations; lia.
Qed.

Lemma as_bytes_encode bs : as_bytes (encode bs) = encode bs.
Proof.
  pose proof (encode_alphabet bs) as H. induction H as [|c cs Hc _ IH]; [done|].
  unfold as_bytes in *. rewrite bind_cons, IH.
  unfold base32_char, char_bytes in *.
  destruct (Z.ltb_spec c 128); [done|].
  apply orb_true_iff in Hc as [Hc | Hc]; bool_props; lia.
Qed.

Lemma decode_encode bs : Forall is_byte bs -> decode (encode bs) = Some bs.
Proof.
  induction 1 as [|b bs Hb _ IH]; [done|]. simpl. rewrite IH. do 2 f_equal.
  unfold is_byte in Hb. rewrite Z.mod_small by lia. pose proof (Z.div_mod b 16). lia.
Qed.

#[export] Instance crypto_laws : CryptoLaws crypto.
Proof.
  split; simpl; try done.
  - intros m. unfold hash. rewrite length_take, length_app, length_map, length_replicate. lia.
  - intros m. unfold hash. apply Forall_take, Forall_app. split.
    + apply Forall_map, Forall_true. intros b. apply Z.mod_pos_bound. lia.
    + apply Forall_replicate. unfold is_byte. lia.
  - intros. unfold verify. by rewrite bool_decide_eq_true_2.
  - apply encode_alphabet.
  - intros bs H. rewrite as_bytes_encode. by apply decode_encode.
Qed.

End Toy.

(** ** Lemmas *)

Lemma base32_ascii c : base32_char c = true -> is_ascii c = true.
Proof.
  unfold base32_char, is_ascii. intros H. apply orb_true_iff in H.
  apply andb_true_iff. destruct H; bool_props; split; try apply Z.leb_le; try apply Z.ltb_lt; lia.
Qed.

(** A base32 letter in lower case: it is not stripped by [parse] and upper-casing restores it. *)
Lemma base32_lower c :
  base32_char c = true ->
  negb (is_whitespace (ascii_lower c)) && negb (ascii_lower c =? HYPHEN) = true
  /\ is_ascii (ascii_lower c) = true /\ ascii_upper (ascii_lower c) = c.
Proof.
  intros H. assert (R : 50 <= c <= 55 \/ 65 <= c <= 90).
  { unfold base32_char in H. apply orb_true_iff in H as [H | H]; bool_props; lia. }
  clear H.
  assert (E : exists n : nat, (c = 50 + Z.of_nat n /\ (n < 6)%nat) \/ (c = 65 + Z.of_nat n /\ (n < 26)%nat)).
  { destruct R; [exists (Z.to_nat (c - 50)) | exists (Z.to_nat (c - 65))]; [left | right]; lia. }
  destruct E as (n & [[-> L] | [-> L]]); do 26 (destruct n as [|n]; [done |]); lia.
Qed.

Lemma hyphenate_group a b c d e rest :
  hyphenate (a :: b :: c :: d :: e :: rest) = a :: b :: c :: d :: HYPHEN :: hyphenate (e :: rest).
Proof. reflexivity. Qed.

Lemma hyphenate_retain (p : char -> bool) (n : nat) (s : rstring) :
  (length s <= n)%nat -> p HYPHEN = false -> Forall (fun c => p c = true) s ->
  retain p (hyphenate s) = s.
Proof.
  intros Hl Hh. revert s Hl. induction n as [|n IH]; intros s Hl Hs.
  - destruct s; [done | simpl in Hl; lia].
  - assert (R : forall l, Forall (fun c => p c = true) l -> retain p l = l).
    { induction 1 as [|x l Hx _ IHl]; [done|]. unfold retain in *.
      rewrite filter_cons_True, IHl; done. }
    destruct s as [|a [|b [|c [|d [|e rest]]]]]; try (apply R; done).
    rewrite hyphenate_group. rewrite !Forall_cons in Hs. destruct Hs as (Ha & Hb & Hc & Hd & He).
    unfold retain in *. do 4 (rewrite filter_cons_True by done).
    rewrite filter_cons_False by (rewrite Hh; discriminate). rewrite IH; [done | simpl in *; lia |].
    by apply Forall_cons.
Qed.

Lemma challenge_parts (a b c d : bytes) rest rest' :
  length a = 32%nat -> length b = 32%nat -> length c = 32%nat -> length d = 32%nat ->
  a ++ b ++ rest = c ++ d ++ rest' -> a = c /\ b = d /\ rest = rest'.
Proof.
  intros Ha Hb Hc Hd E. apply app_inj_length in E as [-> E]; [|congruence].
  apply app_inj_length in E as [-> E]; [done | congruence].
Qed.

Section Fingerprints.
Context {C : Crypto} {L : CryptoLaws C}.

Lemma fp_roundtrip f : wf_fp f -> fp_parse (fp_to_string f) = inr f.
Proof.
  intros [Hl Hb]. unfold fp_parse, fp_to_string.
  pose proof (base32_alphabet (fp_bytes f)) as A.
  set (e := base32_encode (fp_bytes f)) in *.
  rewrite to_lowercase_ascii by (eapply Forall_impl; [exact A | by apply base32_ascii]).
  rewrite hyphenate_retain with (n := length (map ascii_lower e)); [| lia | reflexivity |].
  2: { apply Forall_map. eapply Forall_impl; [exact A |]. intros c Hc. by apply base32_lower. }
  rewrite to_uppercase_ascii.
  2: { apply Forall_map. eapply Forall_impl; [exact A |]. intros c Hc. by apply base32_lower. }
  replace (map ascii_upper (map ascii_lower e)) with e.
  - unfold e. rewrite base32_roundtrip by done. rewrite Hl. by destruct f.
  - clear -A. induction A as [|c cs Hc _ IH]; [done|]. simpl. rewrite <- IH.
    by destruct (base32_lower c Hc) as (_ & _ & ->).
Qed.

Lemma fp_to_string_inj f g : wf_fp f -> wf_fp g -> fp_to_string f = fp_to_string g -> f = g.
Proof. intros Hf Hg E. pose proof (fp_roundtrip f Hf) as H. rewrite E, fp_roundtrip in H by done. congruence. Qed.

Lemma wf_fp_of key : wf_fp (fp_of key).
Proof. split; [apply sha256_length | apply sha256_bytes]. Qed.

End Fingerprints.

(** ** Properties *)

Section Properties.
Context {C : Crypto} {L : CryptoLaws C}.

(** A fingerprint's printed form parses back to it, so what a user copies out of one
    client (or what the database stores as text) names the same key everywhere, and no two
    fingerprints print alike. *)
Theorem fp_parse_to_string f g :
  wf_fp f -> wf_fp g ->
  fp_parse (fp_to_string f) = inr f /\ (fp_to_string f = fp_to_string g <-> f = g).
Proof.
  intros Hf Hg. split; [by apply fp_roundtrip|].
  split; [by apply fp_to_string_inj | by intros ->].
Qed.

(** Signatures are bound to their connection and role: a client challenge determines
    the nonce and certificate hash, a server challenge determines these and the server name's
    bytes, and no client challenge is a server challenge. *)
Theorem challenges_unambiguous nonce nonce' cert cert' name name' :
  length nonce = 32%nat -> length nonce' = 32%nat ->
  length cert = 32%nat -> length cert' = 32%nat ->
  (auth_challenge nonce cert = auth_challenge nonce' cert' -> nonce = nonce' /\ cert = cert')
  /\ (server_hello_challenge nonce cert name = server_hello_challenge nonce' cert' name' ->
      nonce = nonce' /\ cert = cert' /\ as_bytes name = as_bytes name')
  /\ auth_challenge nonce cert <> server_hello_challenge nonce' cert' name.
Proof.
  intros Hn Hn' Hc Hc'. split; [| split].
  - intros E. apply app_inv_head in E. apply app_inj_length in E; [done | congruence].
  - intros E. apply app_inv_head, challenge_parts in E; [| done..].
    destruct E as (-> & -> & E). split; [done |]. split; [done |].
    apply app_inj_length in E as [_ ->]; [done |]. by rewrite !length_le_bytes.
  - unfold auth_challenge, server_hello_challenge, AUTH_CONTEXT, SERVER_HELLO_CONTEXT.
    cbn. discriminate.
Qed.

(** An honest login verifies: the signature a client produces over the server's nonce
    and certificate hash passes the server's check of the client's public half, and the
    server's own attestation passes the client's check. *)
Theorem signatures_verify (i : Identity) nonce cert name :
  verify_auth (public i) nonce cert (sign_auth i nonce cert) = inr tt
  /\ verify_server_hello (public i) nonce cert name (sign_server_hello i nonce cert name) = inr tt
  /\ fingerprint (public i) = identity_fingerprint i.
Proof.
  unfold verify_auth, verify_server_hello, sign_auth, sign_server_hello, public. simpl.
  by rewrite !ed25519_sign_verifies.
Qed.

End Properties.

#[local] Existing Instances Toy.crypto Toy.crypto_laws.

Lemma fp_parse_to_string_witness :
  fp_parse (fp_to_string (mkFp (replicate 32 7))) = inr (mkFp (replicate 32 7)).
Proof.
  apply (fp_parse_to_string (mkFp (replicate 32 7)) (mkFp (replicate 32 8)));
    (split; [reflexivity | apply Forall_replicate; unfold is_byte; lia]).
Defined.

Lemma challenges_unambiguous_witness :
  auth_challenge (replicate 32 1) (replicate 32 2)
    <> server_hello_challenge (replicate 32 1) (replicate 32 2) (lit "Pickle").
Proof.
  destruct (challenges_unambiguous (replicate 32 1) (replicate 32 1) (replicate 32 2)
              (replicate 32 2) (lit "Pickle") (lit "Pickle")) as (_ & _ & H); [reflexivity.. |].
  exact H.
Defined.

Lemma signatures_verify_witness :
  verify_auth (public (mkIdentity [5] 0)) [1] [2] (sign_auth (mkIdentity [5] 0) [1] [2]) = inr tt.
Proof. exact (proj1 (signatures_verify (mkIdentity [5] 0) [1] [2] [])). Defined.
