(* ===== verification/Pow.v ===== *)
(** * Proof of work ([crates/pickle-identity/src/pow.rs], [Identity::mine])

    The security level of a key and the search for a better witness.  The search
    loop has no bound in the source; [mine_loop] runs it on fuel and the
    theorems say which fuel is enough. *)

From S2P Require Export Identity.

Definition POW_CONTEXT : bytes := lit "pickle-identity-pow-v1".
Definition PROGRESS_INTERVAL : Z := Z.shiftl 1 16.

(** [u8::leading_zeros] *)
Definition byte_leading_zeros (b : Z) : Z := if b =? 0 then 8 else 7 - Z.log2 b.

Fixpoint leading_zero_bits (digest : bytes) : Z :=
  match digest with
  | [] => 0
  | b :: rest => if b =? 0 then 8 + leading_zero_bits rest else byte_leading_zeros b
  end.

Record MineProgress : Type := mkProgress { prog_counter : Z; prog_best_level : Z; prog_hashes : Z }.

Record MineReport : Type := mkReport { rep_counter : Z; rep_level : Z; rep_hashes : Z; rep_cancelled : bool }.

(** [1u64.checked_shl(level).unwrap_or(u64::MAX)] *)
Definition expected_hashes (level : Z) : Z := if level <? 64 then Z.shiftl 1 level else u64_max.

Section Mine.
Context {C : Crypto}.

Definition security_level (public_key : bytes) (counter : Z) : Z :=
  leading_zero_bits (sha256 (POW_CONTEXT ++ public_key ++ le_bytes 8 counter)).

(** The callback is an [FnMut]: it carries a state [W] from call to call. *)
Context {W : Type} (progress : W -> MineProgress -> W * bool).

Fixpoint mine_loop (fuel : nat) (public_key : bytes) (target : Z)
    (w : W) (best_counter best_level hashes counter : Z) : option (W * MineReport) :=
  if negb (best_level <? target) then Some (w, mkReport best_counter best_level hashes false)
  else match fuel with
  | O => None
  | S fuel =>
      let counter := wrap 64 (counter + 1) in
      let hashes := wrap 64 (hashes + 1) in
      let level := security_level public_key counter in
      let '(best_level, best_counter) :=
        if best_level <? level then (level, counter) else (best_level, best_counter) in
      let '(w, cancel) :=
        if hashes mod PROGRESS_INTERVAL =? 0 then
          let '(w, go_on) := progress w (mkProgress counter best_level hashes) in (w, negb go_on)
        else (w, false) in
      if cancel then Some (w, mkReport best_counter best_level hashes true)
      else mine_loop fuel public_key target w best_counter best_level hashes counter
  end.

Definition mine (fuel : nat) (w : W) (public_key : bytes) (start_counter target : Z)
    : option (W * MineReport) :=
  mine_loop fuel public_key target w start_counter (security_level public_key start_counter) 0 start_counter.

(** [PublicIdentity::security_level], [Identity::security_level] *)
Definition public_security_level (p : PublicIdentity) : Z := security_level (key p) (counter p).

Definition identity_security_level (i : Identity) : Z :=
  security_level (ed25519_public (signing i)) (id_counter i).

(** [Identity::mine]: keep the report's counter when it is an improvement. *)
Definition identity_mine (fuel : nat) (w : W) (i : Identity) (target : Z)
    : option (W * MineReport * Identity) :=
  match mine fuel w (ed25519_public (signing i)) (id_counter i) target with
  | None => None
  | Some (w, report) =>
      if identity_security_level i <? rep_level report
      then Some (w, report, mkIdentity (signing i) (rep_counter report))
      else Some (w, report, i)
  end.

End Mine.

(** The big-endian value of a digest. *)
Fixpoint be_value (bs : bytes) : Z :=
  match bs with
  | [] => 0
  | b :: rest => b * 256 ^ Z.of_nat (length rest) + be_value rest
  end.

(** ** Lemmas *)

Lemma be_value_range bs : Forall is_byte bs -> 0 <= be_value bs < 256 ^ Z.of_nat (length bs).
Proof.
  induction 1 as [|b bs Hb _ IH]; [simpl; lia|].
  cbn [be_value length]. rewrite Nat2Z.inj_succ, Z.pow_succ_r by lia. unfold is_byte in Hb. nia.
Qed.

Lemma leading_zero_bits_range bs :
  Forall is_byte bs -> 0 <= leading_zero_bits bs <= 8 * Z.of_nat (length bs).
Proof.
  induction 1 as [|b bs Hb _ IH]; [simpl; lia|].
  cbn [leading_zero_bits length]. rewrite Nat2Z.inj_succ.
  destruct (Z.eqb_spec b 0); [lia|]. unfold byte_leading_zeros, is_byte in *.
  destruct (Z.eqb_spec b 0); [done|].
  assert (0 <= Z.log2 b < 8); [|lia].
  split; [apply Z.log2_nonneg | apply Z.log2_lt_pow2; lia].
Qed.

Lemma pow256 n : 256 ^ Z.of_nat n = 2 ^ (8 * Z.of_nat n).
Proof. rewrite Z.pow_mul_r by lia. done. Qed.

(** Between reaching the next candidate and the loop's own exit test. *)
Definition loop_inv {C : Crypto} (pk : bytes) (start bc bl : Z) : Prop :=
  bl = security_level pk bc /\ security_level pk start <= bl.

Section MineLemmas.
Context {C : Crypto} {W : Type} (progress : W -> MineProgress -> W * bool) (pk : bytes) (target start : Z).

Lemma mine_loop_sound fuel w bc bl h c w' rep :
  loop_inv pk start bc bl ->
  mine_loop progress fuel pk target w bc bl h c = Some (w', rep) ->
  rep_level rep = security_level pk (rep_counter rep)
  /\ security_level pk start <= rep_level rep
  /\ (rep_cancelled rep = false -> target <= rep_level rep).
Proof.
  revert w bc bl h c. induction fuel as [|fuel IH]; intros w bc bl h c [Hbl Hge]; cbn [mine_loop].
  - destruct (Z.ltb_spec bl target); cbn [negb]; [done|]. intros [= <- <-]. simpl. auto.
  - destruct (Z.ltb_spec bl target); cbn [negb]; [|intros [= <- <-]; simpl; auto].
    set (c' := wrap 64 (c + 1)).
    assert (Inv : loop_inv pk start (if bl <? security_level pk c' then c' else bc)
                                    (if bl <? security_level pk c' then security_level pk c' else bl)).
    { split; destruct (Z.ltb_spec bl (security_level pk c')); auto; lia. }
    destruct (bl <? security_level pk c'); cbn beta iota in Inv |- *;
      destruct (_ mod _ =? 0); try destruct (progress _ _) as [w1 []]; cbn [negb]; intros E;
      try (eapply IH; [exact Inv | exact E]);
      injection E as <- <-; destruct Inv; simpl; split_and!; done.
Qed.

(** The callback never cancels. *)
Context (never_cancels : forall w p, (progress w p).2 = true).

(** From a counter still [n] steps short of one that reaches the target, with no better
    candidate passed on the way, fuel [n] is enough. *)
Lemma mine_loop_finds n fuel w bc bl h c :
  (n <= fuel)%nat -> 0 <= h -> h + Z.of_nat n < 2 ^ 64 -> bl < target ->
  (forall k, (0 < k < n)%nat -> security_level pk (wrap 64 (c + Z.of_nat k)) < target) ->
  (0 < n)%nat -> target <= security_level pk (wrap 64 (c + Z.of_nat n)) ->
  exists w', mine_loop progress fuel pk target w bc bl h c
    = Some (w', mkReport (wrap 64 (c + Z.of_nat n)) (security_level pk (wrap 64 (c + Z.of_nat n)))
                         (h + Z.of_nat n) false).
Proof.
  revert fuel w bc bl h c. induction n as [|n IH]; intros fuel w bc bl h c Hf Hh Hov Hbl Hbelow Hpos Hhit;
    [lia|].
  destruct fuel as [|fuel]; [lia|]. cbn [mine_loop].
  destruct (Z.ltb_spec bl target); [|lia]. cbn [negb].
  set (c' := wrap 64 (c + 1)). rewrite (wrap_id 64 (h + 1)) by (unfold fits; lia).
  assert (Hstep : forall k, wrap 64 (c' + Z.of_nat k) = wrap 64 (c + Z.of_nat (S k))).
  { intros k. unfold c'. rewrite wrap_add_mod. f_equal. lia. }
  assert (Hgo : forall lvl bc' w1, (lvl = bl \/ lvl = security_level pk c') ->
    (n = O -> lvl = security_level pk c' /\ bc' = c') ->
    exists w', mine_loop progress fuel pk target w1 bc' lvl (h + 1) c'
    = Some (w', mkReport (wrap 64 (c + Z.of_nat (S n))) (security_level pk (wrap 64 (c + Z.of_nat (S n))))
                         (h + Z.of_nat (S n)) false)).
  { intros lvl bc' w1 Hlvl Hz. destruct n as [|n].
    - destruct (Hz eq_refl) as [-> ->]. change (Z.of_nat 1) with 1 in *. fold c' in Hhit |- *.
      destruct fuel; cbn [mine_loop]; destruct (Z.ltb_spec (security_level pk c') target);
        try lia; cbn [negb]; eauto.
    - destruct (IH fuel w1 bc' lvl (h + 1) c') as (w' & E); try lia.
      + destruct Hlvl as [-> | ->]; [lia |]. unfold c'. apply (Hbelow 1%nat). lia.
      + intros k Hk. rewrite Hstep. apply Hbelow. lia.
      + by rewrite Hstep.
      + exists w'. rewrite E, Hstep. do 3 f_equal. lia. }
  assert (Hp : forall lvl, exists w1, (if (h + 1) mod PROGRESS_INTERVAL =? 0
      then let '(w, go_on) := progress w (mkProgress c' lvl (h + 1)) in (w, negb go_on)
      else (w, false)) = (w1, false)).
  { intros lvl. destruct (_ =? 0); [|eauto].
    pose proof (never_cancels w (mkProgress c' lvl (h + 1))) as N.
    destruct (progress _ _) as [w1 b]; simpl in N; subst b. eauto. }
  destruct (Z.ltb_spec bl (security_level pk c')).
  - destruct (Hp (security_level pk c')) as [w1 E]. rewrite E.
    apply Hgo; auto.
  - destruct (Hp bl) as [w1 E]. rewrite E. apply Hgo; auto. intros ->.
    exfalso. change (Z.of_nat 1) with 1 in Hhit. fold c' in Hhit. lia.
Qed.

End MineLemmas.

(** ** Properties *)

(** The security level is the number of leading zero bits of the digest: a digest has
    level at least [l] exactly when, read as a big-endian number, it is below 2^(bits - l). *)
Theorem leading_zero_bits_spec digest l :
  Forall is_byte digest -> 0 <= l <= 8 * Z.of_nat (length digest) ->
  l <= leading_zero_bits digest <-> be_value digest < 2 ^ (8 * Z.of_nat (length digest) - l).
Proof.
  intros H. revert l. induction H as [|b bs Hb Hbs IH]; intros l Hl.
  - simpl in *. replace l with 0 by lia. simpl. lia.
  - cbn [leading_zero_bits be_value length] in *. rewrite Nat2Z.inj_succ in *.
    pose proof (be_value_range _ Hbs) as R. rewrite pow256 in *.
    set (n := 8 * Z.of_nat (length bs)) in *. assert (Hn : 0 <= n) by lia.
    replace (8 * Z.succ (Z.of_nat (length bs))) with (8 + n) in * by lia.
    unfold is_byte in Hb. destruct (Z.eqb_spec b 0) as [-> | Hb0].
    + rewrite Z.mul_0_l, Z.add_0_l. destruct (Z.le_gt_cases l 8).
      * pose proof (leading_zero_bits_range _ Hbs). split; [intros _ | lia].
        eapply Z.lt_le_trans; [apply R|]. apply Z.pow_le_mono_r; lia.
      * replace (8 + n - l) with (n - (l - 8)) by lia. rewrite <- IH by lia. lia.
    + unfold byte_leading_zeros. destruct (Z.eqb_spec b 0); [done|].
      destruct (Z.log2_spec b) as [L U]; [lia|].
      assert (0 <= Z.log2 b < 8) by (split; [apply Z.log2_nonneg | apply Z.log2_lt_pow2; lia]).
      rewrite Z.pow_succ_r in U by lia.
      assert (P : 0 < 2 ^ n) by (apply Z.pow_pos_nonneg; lia). split; intros Hlt.
      * assert (2 ^ (Z.succ (Z.log2 b) + n) <= 2 ^ (8 + n - l)) by (apply Z.pow_le_mono_r; lia).
        rewrite Z.pow_add_r, Z.pow_succ_r in H0 by lia. nia.
      * destruct (Z.le_gt_cases l (7 - Z.log2 b)); [done|]. exfalso.
        assert (2 ^ (8 + n - l) <= 2 ^ (Z.log2 b + n)) by (apply Z.pow_le_mono_r; lia).
        rewrite Z.pow_add_r in H1 by lia. nia.
Qed.

Lemma leading_zero_bits_spec_witness :
  12 <= leading_zero_bits [0; 15; 255] <-> be_value [0; 15; 255] < 2 ^ 12.
Proof.
  apply (leading_zero_bits_spec [0; 15; 255] 12).
  - rewrite !Forall_cons; unfold is_byte; repeat split; try lia; apply Forall_nil_2.
  - simpl; lia.
Defined.

Section MineProperties.
Context {C : Crypto} {W : Type} (progress : W -> MineProgress -> W * bool).

(** Mining an identity never costs anything: whatever the callback does and whenever it
    cancels, the reported level is the true level of the reported counter and no worse than
    the starting one, the target is met unless the run was cancelled, and the identity kept
    has the same fingerprint and a level at least as high as before. *)
Theorem identity_mine_sound fuel w i target w' rep i' :
  identity_mine progress fuel w i target = Some (w', rep, i') ->
  rep_level rep = security_level (ed25519_public (signing i)) (rep_counter rep)
  /\ (rep_cancelled rep = false -> target <= rep_level rep)
  /\ identity_fingerprint i' = identity_fingerprint i
  /\ identity_security_level i <= identity_security_level i'
  /\ rep_level rep <= identity_security_level i'.
Proof.
  unfold identity_mine, mine. destruct (mine_loop _ _ _ _ _ _ _ _ _) as [[w1 r]|] eqn:E; [|done].
  apply (mine_loop_sound progress _ target (id_counter i)) in E as (Hlvl & Hge & Hmet); [|split; [done | reflexivity]].
  unfold identity_security_level. destruct (Z.ltb_spec (security_level (ed25519_public (signing i)) (id_counter i)) (rep_level r));
    intros [= <- <- <-]; split_and!; auto; simpl; lia.
Qed.

(** Mining terminates when some counter reaches the target: if the [n]-th counter after the
    start (modulo 2^64) is the first that does and the callback lets the search run, every
    fuel from [n] on gives the same report, naming exactly that counter after [n] hashes. *)
Theorem mine_terminates n fuel w pk start target :
  (forall w p, (progress w p).2 = true) ->
  fits 64 start -> (n <= fuel)%nat -> Z.of_nat n < 2 ^ 64 ->
  (forall k, (k < n)%nat -> security_level pk (wrap 64 (start + Z.of_nat k)) < target) ->
  target <= security_level pk (wrap 64 (start + Z.of_nat n)) ->
  exists w', mine progress fuel w pk start target
    = Some (w', mkReport (wrap 64 (start + Z.of_nat n))
                         (security_level pk (wrap 64 (start + Z.of_nat n))) (Z.of_nat n) false).
Proof.
  intros Hp Hs Hf Hn Hbelow Hhit. unfold mine.
  destruct n as [|n].
  - rewrite Z.add_0_r, wrap_id in * by done. exists w.
    destruct fuel; cbn [mine_loop]; destruct (Z.ltb_spec (security_level pk start) target); auto; lia.
  - apply (mine_loop_finds progress pk target Hp); try lia; auto.
    + specialize (Hbelow O). rewrite Z.add_0_r, wrap_id in Hbelow by done. apply Hbelow. lia.
    + intros k Hk. apply Hbelow. lia.
Qed.

End MineProperties.

(** A hash whose leading bytes are the counter, most significant byte first: the level is 0
    just below the rollover of the counter and at least 64 just after it. *)
#[local] Instance reversing_crypto : Crypto := {|
  sha256 := fun m => Toy.hash (reverse m);
  ed25519_public := fun seed => seed;
  ed25519_sign := fun seed m => seed ++ m;
  ed25519_verify := Toy.verify;
  base32_encode := Toy.encode;
  base32_decode := Toy.decode;
  to_uppercase := map ascii_upper;
  to_lowercase := map ascii_lower |}.

Lemma mine_terminates_witness :
  exists w', mine (fun (w : nat) _ => (S w, true)) 5 O [1] (u64_max - 1) 10
    = Some (w', mkReport 0 71 2 false).
Proof.
  destruct (mine_terminates (fun (w : nat) _ => (S w, true)) 2 5 O [1] (u64_max - 1) 10)
    as (w' & E).
  - reflexivity.
  - unfold fits, u64_max; lia.
  - lia.
  - lia.
  - intros k Hk. destruct k as [|[|k]]; [reflexivity | reflexivity | lia].
  - vm_compute. discriminate.
  - exists w'. exact E.
Defined.

Lemma identity_mine_sound_witness :
  exists w' rep i', identity_mine (C := Toy.crypto) (fun (w : unit) _ => (w, false)) 3 tt (mkIdentity [1] 7) 1
    = Some (w', rep, i') /\ rep_level rep <= identity_security_level (C := Toy.crypto) i'.
Proof.
  eexists _, _, _. split; [vm_compute; reflexivity |].
  eapply (identity_mine_sound (C := Toy.crypto) (fun (w : unit) _ => (w, false)) 3 tt (mkIdentity [1] 7) 1).
  vm_compute. reflexivity.
Defined.
