(* ===== verification/Perms.v ===== *)
(** * The permission model ([crates/pickle-proto/src/perms.rs])

    Permission masks, roles, channel overwrites, the resolution of a member's
    permissions and the role hierarchy, exactly as both ends of the wire run
    them.  A mask is a u64 as a [Z]. *)

From S2P Require Export Identity.

Abbreviation RoleId := Z (only parsing).
Definition EVERYONE_ROLE_ID : RoleId := 0.

Definition Permissions : Type := Z.

Definition ADMINISTRATOR : Permissions := Z.shiftl 1 0.
Definition MANAGE_SERVER : Permissions := Z.shiftl 1 1.
Definition MANAGE_ROLES : Permissions := Z.shiftl 1 2.
Definition MANAGE_CHANNELS : Permissions := Z.shiftl 1 3.
Definition KICK_MEMBERS : Permissions := Z.shiftl 1 4.
Definition BAN_MEMBERS : Permissions := Z.shiftl 1 5.
Definition VIEW_CHANNEL : Permissions := Z.shiftl 1 16.
Definition SEND_MESSAGES : Permissions := Z.shiftl 1 17.
Definition READ_HISTORY : Permissions := Z.shiftl 1 18.
Definition MANAGE_MESSAGES : Permissions := Z.shiftl 1 19.
Definition CONNECT : Permissions := Z.shiftl 1 20.
Definition SPEAK : Permissions := Z.shiftl 1 21.
Definition MUTE_MEMBERS : Permissions := Z.shiftl 1 22.
Definition MOVE_MEMBERS : Permissions := Z.shiftl 1 23.

Declare Scope perm_scope.
Delimit Scope perm_scope with perm.
Infix "|||" := Z.lor (at level 50, left associativity) : perm_scope.
Open Scope perm_scope.

Definition CHANNEL_SCOPED : Permissions :=
  VIEW_CHANNEL ||| SEND_MESSAGES ||| READ_HISTORY ||| MANAGE_MESSAGES ||| CONNECT ||| SPEAK
  ||| MUTE_MEMBERS ||| MOVE_MEMBERS.

Definition ALL : Permissions :=
  ADMINISTRATOR ||| MANAGE_SERVER ||| MANAGE_ROLES ||| MANAGE_CHANNELS ||| KICK_MEMBERS
  ||| BAN_MEMBERS ||| VIEW_CHANNEL ||| SEND_MESSAGES ||| READ_HISTORY ||| MANAGE_MESSAGES
  ||| CONNECT ||| SPEAK ||| MUTE_MEMBERS ||| MOVE_MEMBERS.

Definition NONE : Permissions := 0.

Definition DEFAULT_EVERYONE : Permissions :=
  VIEW_CHANNEL ||| SEND_MESSAGES ||| READ_HISTORY ||| CONNECT ||| SPEAK.

(** [!bits] on a u64. *)
Definition not64 (bits : Permissions) : Permissions := Z.lxor bits (Z.ones 64).

Definition contains (p bits : Permissions) : bool := Z.land p bits =? bits.
Definition perm_union (p bits : Permissions) : Permissions := p ||| bits.
Definition without (p bits : Permissions) : Permissions := Z.land p (not64 bits).
Definition intersect (p bits : Permissions) : Permissions := Z.land p bits.
Definition perm_is_empty (p : Permissions) : bool := p =? 0.

Record Role : Type := mkRole {
  role_id : RoleId; role_name : rstring; role_color : option Z;
  role_position : Z; role_perms : Permissions }.

#[global] Instance Role_eq_dec : EqDecision Role.
Proof. solve_decision. Defined.

Inductive OverwriteTarget : Type := TRole (id : RoleId) | TMember (member : Fingerprint).

#[global] Instance OverwriteTarget_eq_dec : EqDecision OverwriteTarget.
Proof. solve_decision. Defined.

Record Overwrite : Type := mkOverwrite {
  ow_target : OverwriteTarget; ow_allow : Permissions; ow_deny : Permissions }.

#[global] Instance Overwrite_eq_dec : EqDecision Overwrite.
Proof. solve_decision. Defined.

Definition role_permissions (roles : list Role) (id : RoleId) : Permissions :=
  default NONE (role_perms <$> find (fun r => role_id r =? id) roles).

Definition overwrite_for_role (overwrites : list Overwrite) (id : RoleId) : option Overwrite :=
  find (fun o => bool_decide (ow_target o = TRole id)) overwrites.

Definition overwrite_for_member (overwrites : list Overwrite) (member : Fingerprint) : option Overwrite :=
  find (fun o => bool_decide (ow_target o = TMember member)) overwrites.

(** One overwrite folded in: deny, then allow, both masked to the channel-scoped bits. *)
Definition apply_overwrite (perms deny allow : Permissions) : Permissions :=
  without perms (intersect deny CHANNEL_SCOPED) ||| intersect allow CHANNEL_SCOPED.

Definition resolve (roles : list Role) (member_roles : list RoleId) (member : Fingerprint)
    (owner : bool) (channel_overwrites : option (list Overwrite)) : Permissions :=
  if owner then ALL else
  let base := fold_left (fun base id => base ||| role_permissions roles id) member_roles
                (role_permissions roles EVERYONE_ROLE_ID) in
  if contains base ADMINISTRATOR then ALL else
  match channel_overwrites with
  | None => base
  | Some overwrites =>
      let perms := base in
      let perms := match overwrite_for_role overwrites EVERYONE_ROLE_ID with
        | Some ow => apply_overwrite perms (ow_deny ow) (ow_allow ow)
        | None => perms
        end in
      let '(denies, allows) := fold_left (fun '(denies, allows) id =>
          match overwrite_for_role overwrites id with
          | Some ow => (denies ||| ow_deny ow, allows ||| ow_allow ow)
          | None => (denies, allows)
          end) member_roles (NONE, NONE) in
      let perms := apply_overwrite perms denies allows in
      let perms := match overwrite_for_member overwrites member with
        | Some ow => apply_overwrite perms (ow_deny ow) (ow_allow ow)
        | None => perms
        end in
      if negb (contains perms VIEW_CHANNEL) then NONE else perms
  end.

(** [filter_map] over the member's roles, the maximum position, 0 when there is none. *)
Definition top_role_position (roles : list Role) (member_roles : list RoleId) : Z :=
  let positions := omap (fun id => role_position <$> find (fun r => role_id r =? id) roles) member_roles in
  match positions with
  | [] => 0
  | p :: rest => foldr Z.max p rest
  end.

Definition can_act_on (roles : list Role) (actor_roles : list RoleId) (actor_owner : bool)
    (target_roles : list RoleId) (target_owner : bool) : bool :=
  if target_owner then false
  else if actor_owner then true
  else top_role_position roles target_roles <? top_role_position roles actor_roles.

Definition can_manage_role (roles : list Role) (actor_roles : list RoleId) (actor_owner : bool)
    (role : RoleId) : bool :=
  if actor_owner then true
  else match find (fun r => role_id r =? role) roles with
  | None => false
  | Some target => role_position target <? top_role_position roles actor_roles
  end.

(** ** Specification *)

(** The union of a list of masks. *)
Definition or_all (ms : list Permissions) : Permissions := foldr Z.lor 0 ms.

(** The masks the explicit roles of a member contribute: their bits, and the denies and
    allows of their overwrites in a channel. *)
Definition base_permissions (roles : list Role) (member_roles : list RoleId) : Permissions :=
  role_permissions roles EVERYONE_ROLE_ID ||| or_all (map (role_permissions roles) member_roles).

Definition role_denies (ows : list Overwrite) (member_roles : list RoleId) : Permissions :=
  or_all (map ow_deny (omap (overwrite_for_role ows) member_roles)).

Definition role_allows (ows : list Overwrite) (member_roles : list RoleId) : Permissions :=
  or_all (map ow_allow (omap (overwrite_for_role ows) member_roles)).

(** One layer of the channel rules on one bit: an allow wins over a deny, and either wins
    over what the layers below say. *)
Definition layer (deny allow below : bool) : bool := allow || (below && negb deny).

Definition ow_bit (f : Overwrite -> Permissions) (ow : option Overwrite) (i : Z) : bool :=
  match ow with Some o => Z.testbit (f o) i | None => false end.

(** What a channel's overwrites make of bit [i]: server-wide bits keep their base value,
    channel-scoped bits go through the @everyone layer, the layer of all role overwrites
    together, and the member layer. *)
Definition channel_bit (roles : list Role) (mrs : list RoleId) (member : Fingerprint)
    (ows : list Overwrite) (i : Z) : bool :=
  let base := Z.testbit (base_permissions roles mrs) i in
  if Z.testbit CHANNEL_SCOPED i then
    layer (ow_bit ow_deny (overwrite_for_member ows member) i)
          (ow_bit ow_allow (overwrite_for_member ows member) i)
      (layer (Z.testbit (role_denies ows mrs) i) (Z.testbit (role_allows ows mrs) i)
        (layer (ow_bit ow_deny (overwrite_for_role ows EVERYONE_ROLE_ID) i)
               (ow_bit ow_allow (overwrite_for_role ows EVERYONE_ROLE_ID) i) base))
  else base.

(** The mask of a channel before visibility is considered, layer by layer. *)
Definition apply_layer (ow : option Overwrite) (p : Permissions) : Permissions :=
  match ow with Some o => apply_overwrite p (ow_deny o) (ow_allow o) | None => p end.

Definition channel_mask (roles : list Role) (mrs : list RoleId) (member : Fingerprint)
    (ows : list Overwrite) : Permissions :=
  apply_layer (overwrite_for_member ows member)
    (apply_overwrite
       (apply_layer (overwrite_for_role ows EVERYONE_ROLE_ID) (base_permissions roles mrs))
       (role_denies ows mrs) (role_allows ows mrs)).

(** ** Lemmas *)

Lemma contains_bits p bits :
  0 <= bits -> contains p bits = true <-> forall i, 0 <= i -> Z.testbit bits i = true -> Z.testbit p i = true.
Proof.
  intros Hb. unfold contains. rewrite Z.eqb_eq. split.
  - intros E i _ Hi. rewrite <- E, Z.land_spec in Hi. by apply andb_true_iff in Hi as [? _].
  - intros H. apply Z.bits_inj'. intros i Hi. rewrite Z.land_spec.
    destruct (Z.testbit bits i) eqn:B; [rewrite (H i Hi B); done | by rewrite andb_false_r].
Qed.

(** A one-bit mask is contained exactly when its bit is set. *)
Lemma contains_bit p n : 0 <= n -> contains p (Z.shiftl 1 n) = Z.testbit p n.
Proof.
  intros Hn. apply eq_true_iff_eq. rewrite contains_bits by (rewrite Z.shiftl_1_l; lia).
  rewrite Z.shiftl_1_l. split.
  - intros H. apply H; [done |]. by apply Z.pow2_bits_true.
  - intros H i Hi Hb. rewrite Z.pow2_bits_eqb in Hb by done. apply Z.eqb_eq in Hb. by subst.
Qed.

Lemma or_all_app a b : or_all (a ++ b) = or_all a ||| or_all b.
Proof. induction a as [|x a IH]; simpl; [done | by rewrite IH, Z.lor_assoc]. Qed.

Lemma or_all_bit ms i : Z.testbit (or_all ms) i = existsb (fun m => Z.testbit m i) ms.
Proof. induction ms as [|m ms IH]; simpl; [by rewrite Z.bits_0 | by rewrite Z.lor_spec, IH]. Qed.

(** Unions depend on the set of masks only. *)
Lemma or_all_set ms ms' : (forall m, m ∈ ms <-> m ∈ ms') -> or_all ms = or_all ms'.
Proof.
  intros H. apply Z.bits_inj'. intros i _. rewrite !or_all_bit. apply eq_true_iff_eq.
  rewrite !existsb_exists. split; intros (m & Hm & Hb); exists m; split; auto;
    apply list_elem_of_In, H, list_elem_of_In; done.
Qed.

Lemma fold_or {A} (f : A -> Permissions) l b :
  fold_left (fun b x => b ||| f x) l b = b ||| or_all (map f l).
Proof.
  revert b; induction l as [|x l IH]; intros b; simpl; [by rewrite Z.lor_0_r|].
  by rewrite IH, Z.lor_assoc.
Qed.

Lemma fold_overwrites ows l d a :
  fold_left (fun '(denies, allows) id =>
      match overwrite_for_role ows id with
      | Some ow => (denies ||| ow_deny ow, allows ||| ow_allow ow)
      | None => (denies, allows)
      end) l (d, a)
  = (d ||| role_denies ows l, a ||| role_allows ows l).
Proof.
  unfold role_denies, role_allows.
  revert d a; induction l as [|x l IH]; intros d a; simpl; [by rewrite !Z.lor_0_r|].
  destruct (overwrite_for_role ows x); rewrite IH; simpl; by rewrite ?Z.lor_assoc.
Qed.

(** [resolve] in terms of the specification's masks. *)
Lemma resolve_masks roles mrs member ows :
  resolve roles mrs member false ows =
    if contains (base_permissions roles mrs) ADMINISTRATOR then ALL
    else match ows with
    | None => base_permissions roles mrs
    | Some ows =>
        if negb (contains (channel_mask roles mrs member ows) VIEW_CHANNEL) then NONE
        else channel_mask roles mrs member ows
    end.
Proof.
  unfold resolve. rewrite fold_or. fold (base_permissions roles mrs).
  destruct (contains _ ADMINISTRATOR); [done|]. destruct ows as [ows|]; [|done].
  rewrite fold_overwrites, !Z.lor_0_l. done.
Qed.

Lemma apply_overwrite_bit p d a i :
  0 <= i < 64 ->
  Z.testbit (apply_overwrite p d a) i
  = if Z.testbit CHANNEL_SCOPED i then layer (Z.testbit d i) (Z.testbit a i) (Z.testbit p i)
    else Z.testbit p i.
Proof.
  intros Hi. unfold apply_overwrite, without, intersect, not64, layer.
  rewrite Z.lor_spec, Z.land_spec, Z.lxor_spec, !Z.land_spec, Z.ones_spec_low by lia.
  destruct (Z.testbit CHANNEL_SCOPED i), (Z.testbit d i), (Z.testbit a i), (Z.testbit p i); done.
Qed.

Lemma top_role_position_spec roles mrs :
  (forall id r, id ∈ mrs -> find (fun r => role_id r =? id) roles = Some r ->
     role_position r <= top_role_position roles mrs)
  /\ (top_role_position roles mrs = 0
      \/ exists id r, id ∈ mrs /\ find (fun r => role_id r =? id) roles = Some r
                      /\ top_role_position roles mrs = role_position r).
Proof.
  unfold top_role_position.
  set (ps := omap (fun id => role_position <$> find (fun r => role_id r =? id) roles) mrs).
  assert (Hin : forall p, p ∈ ps <-> exists id r, id ∈ mrs /\ find (fun r => role_id r =? id) roles = Some r
                                                   /\ p = role_position r).
  { intros p. unfold ps. rewrite list_elem_of_omap. split.
    - intros (id & Hid & E). destruct (find _ roles) as [r|] eqn:F; [|done].
      injection E as <-. eauto.
    - intros (id & r & Hid & F & ->). exists id. by rewrite F. }
  assert (Hmax : forall p rest q, q ∈ p :: rest -> q <= foldr Z.max p rest).
  { intros p rest q. induction rest as [|x rest IH]; simpl.
    - rewrite list_elem_of_singleton. lia.
    - rewrite !elem_of_cons. intros [-> | [-> | Hq]]; [| lia |].
      + assert (p <= foldr Z.max p rest) by (apply IH; left). lia.
      + assert (q <= foldr Z.max p rest) by (apply IH; by right). lia. }
  assert (Hmem : forall p rest, foldr Z.max p rest ∈ p :: rest).
  { intros p rest. induction rest as [|x rest IH]; simpl; [left|].
    destruct (Z.max_spec x (foldr Z.max p rest)) as [[_ ->] | [_ ->]].
    - apply elem_of_cons in IH as [E | Hin']; [rewrite E; left | right; by right].
    - right. left. }
  destruct ps as [|p rest].
  - split; [|by left]. intros id r Hid F. exfalso. apply (not_elem_of_nil (role_position r)), Hin. eauto.
  - split.
    + intros id r Hid F. apply Hmax, Hin. eauto.
    + right. apply Hin. apply Hmem.
Qed.

(** Every mask below 2^64 that agrees with another on the first 64 bits is equal to it. *)
Lemma testbit_high p i : fits 64 p -> 64 <= i -> Z.testbit p i = false.
Proof.
  intros H Hi. unfold fits in H. destruct (Z.eq_dec p 0) as [-> | ]; [apply Z.bits_0|].
  apply Z.bits_above_log2; [lia|]. assert (Z.log2 p < 64); [apply Z.log2_lt_pow2|]; lia.
Qed.

Lemma channel_scoped_not_admin : Z.testbit CHANNEL_SCOPED 0 = false.
Proof. reflexivity. Qed.

Lemma channel_mask_bit roles mrs member ows i :
  0 <= i < 64 -> Z.testbit (channel_mask roles mrs member ows) i = channel_bit roles mrs member ows i.
Proof.
  intros Hi. unfold channel_mask, channel_bit, apply_layer, ow_bit.
  destruct (overwrite_for_member ows member), (overwrite_for_role ows EVERYONE_ROLE_ID);
    rewrite !apply_overwrite_bit by done; unfold layer;
    destruct (Z.testbit CHANNEL_SCOPED i); rewrite ?andb_true_r; done.
Qed.

(** Bit by bit, a channel's resolution before the visibility mask is the specification. *)
Lemma resolve_channel_bits roles mrs member ows i :
  0 <= i < 64 -> contains (base_permissions roles mrs) ADMINISTRATOR = false ->
  Z.testbit (resolve roles mrs member false (Some ows)) i
  = channel_bit roles mrs member ows i && channel_bit roles mrs member ows 16.
Proof.
  intros Hi Hadm. rewrite resolve_masks, Hadm. unfold VIEW_CHANNEL.
  rewrite contains_bit, (channel_mask_bit _ _ _ _ 16) by lia.
  destruct (channel_bit roles mrs member ows 16); cbn [negb].
  - by rewrite channel_mask_bit, andb_true_r.
  - by rewrite Z.bits_0, andb_false_r.
Qed.

(** ** Properties *)

(** C40: resolution is the documented rule, bit by bit.  The owner and anyone whose base
    carries ADMINISTRATOR resolve to everything; others hold their base permissions
    server-wide, and inside a channel each bit is decided by the layers @everyone < roles
    together < member, allow over deny within a layer, server-wide bits untouched, and the
    whole mask empty when the channel is not visible. *)
Theorem resolve_spec roles mrs member owner ows i :
  0 <= i < 64 ->
  Z.testbit (resolve roles mrs member owner ows) i =
    if owner || Z.testbit (base_permissions roles mrs) 0 then Z.testbit ALL i
    else match ows with
    | None => Z.testbit (base_permissions roles mrs) i
    | Some ows => channel_bit roles mrs member ows i && channel_bit roles mrs member ows 16
    end.
Proof.
  intros Hi. destruct owner; [done|]. cbn [orb].
  assert (A : contains (base_permissions roles mrs) ADMINISTRATOR = Z.testbit (base_permissions roles mrs) 0)
    by (apply contains_bit; lia).
  destruct (Z.testbit (base_permissions roles mrs) 0) eqn:E.
  - by rewrite resolve_masks, A.
  - destruct ows as [ows|]; [by apply resolve_channel_bits |].
    by rewrite resolve_masks, A.
Qed.

Lemma resolve_spec_witness :
  Z.testbit (resolve [mkRole 0 [] None 0 DEFAULT_EVERYONE] [] (mkFp []) false
              (Some [mkOverwrite (TRole 0) NONE SEND_MESSAGES])) 17 = false.
Proof. rewrite resolve_spec by lia. reflexivity. Defined.

(** No order matters and no repetition does: two members with the same set of roles
    resolve to the same permissions, in every channel and server-wide. *)
Theorem resolve_role_set roles mrs mrs' member owner ows :
  (forall id, id ∈ mrs <-> id ∈ mrs') ->
  resolve roles mrs member owner ows = resolve roles mrs' member owner ows.
Proof.
  intros H. destruct owner; [done|]. rewrite !resolve_masks.
  assert (E : base_permissions roles mrs = base_permissions roles mrs').
  { unfold base_permissions. f_equal. apply or_all_set. intros m.
    rewrite !list_elem_of_fmap. split; intros (id & -> & Hid); exists id; split; auto; by apply H. }
  assert (D : forall f ows, or_all (map f (omap (overwrite_for_role ows) mrs))
                          = or_all (map f (omap (overwrite_for_role ows) mrs'))).
  { intros f o. apply or_all_set. intros m. rewrite !list_elem_of_fmap.
    split; intros (w & -> & Hw); exists w; split; auto;
      apply list_elem_of_omap in Hw as (id & Hid & Hw); apply list_elem_of_omap; exists id; split; auto;
      by apply H. }
  unfold channel_mask, role_denies, role_allows. rewrite E. destruct ows as [o|]; [|done].
  by rewrite (D ow_deny o), (D ow_allow o).
Qed.

Lemma resolve_role_set_witness :
  resolve [mkRole 1 [] None 1 KICK_MEMBERS; mkRole 2 [] None 2 BAN_MEMBERS] [1; 2; 1] (mkFp []) false None
  = resolve [mkRole 1 [] None 1 KICK_MEMBERS; mkRole 2 [] None 2 BAN_MEMBERS] [2; 1] (mkFp []) false None.
Proof. apply resolve_role_set. intros id. rewrite !elem_of_cons. tauto. Defined.

(** A channel's overwrites can never mint a server-wide power and a hidden channel
    grants nothing: for a member who is neither owner nor administrator, every server-wide
    bit held in a channel is held in the base, and the mask is empty or includes VIEW. *)
Theorem channel_grants_are_confined roles mrs member ows :
  contains (resolve roles mrs member false None) ADMINISTRATOR = false ->
  let p := resolve roles mrs member false (Some ows) in
  (forall i, 0 <= i < 64 -> Z.testbit CHANNEL_SCOPED i = false -> Z.testbit p i = true ->
     Z.testbit (resolve roles mrs member false None) i = true)
  /\ contains p ADMINISTRATOR = false
  /\ (p = NONE \/ contains p VIEW_CHANNEL = true).
Proof.
  intros Hadm p.
  assert (A : contains (base_permissions roles mrs) ADMINISTRATOR = false).
  { rewrite resolve_masks in Hadm.
    destruct (contains (base_permissions roles mrs) ADMINISTRATOR); [discriminate Hadm | done]. }
  assert (Hbase : resolve roles mrs member false None = base_permissions roles mrs)
    by (by rewrite resolve_masks, A).
  assert (H1 : forall i, 0 <= i < 64 -> Z.testbit CHANNEL_SCOPED i = false -> Z.testbit p i = true ->
     Z.testbit (resolve roles mrs member false None) i = true).
  { intros i Hi Hs. unfold p. rewrite resolve_channel_bits by done. unfold channel_bit at 1.
    rewrite Hs, Hbase. by intros [? _]%andb_true_iff. }
  split; [exact H1|]. split.
  - unfold ADMINISTRATOR in *. rewrite contains_bit in * by lia.
    destruct (Z.testbit p 0) eqn:E; [|done]. apply H1 in E; [congruence | lia | done].
  - unfold p. rewrite resolve_masks, A.
    destruct (negb _) eqn:V; [by left | right]. by apply negb_false_iff in V.
Qed.

Lemma channel_grants_are_confined_witness :
  contains (resolve [mkRole 0 [] None 0 DEFAULT_EVERYONE] [] (mkFp []) false
    (Some [mkOverwrite (TMember (mkFp [])) ADMINISTRATOR NONE])) ADMINISTRATOR = false.
Proof.
  apply (channel_grants_are_confined [mkRole 0 [] None 0 DEFAULT_EVERYONE] [] (mkFp [])
           [mkOverwrite (TMember (mkFp [])) ADMINISTRATOR NONE]).
  reflexivity.
Defined.

(** Rank is a strict order the owner stands outside of: nobody acts on an owner, an
    owner acts on every other member, and among the rest the relation is irreflexive,
    asymmetric and transitive, so two members can never both act on each other. *)
Theorem can_act_on_strict_order roles a b c ao bo co :
  can_act_on roles a ao b true = false
  /\ can_act_on roles a true b false = true
  /\ can_act_on roles a ao a ao = false
  /\ (can_act_on roles a ao b bo = true -> can_act_on roles b bo a ao = false)
  /\ (can_act_on roles a ao b bo = true -> can_act_on roles b bo c co = true -> can_act_on roles a ao c co = true).
Proof.
  unfold can_act_on. split_and!; try done.
  - destruct ao; [done|]. apply Z.ltb_irrefl.
  - destruct ao, bo; try done. rewrite Z.ltb_lt, Z.ltb_ge. lia.
  - destruct ao, bo, co; try done. rewrite !Z.ltb_lt. lia.
Qed.

(** Managing a role takes seniority: whoever may manage a role without being the owner
    holds an existing role placed strictly above it, so a role at one's own top position,
    and every role above, is out of reach. *)
Theorem can_manage_role_needs_senior_role roles mrs id :
  Forall (fun r => 0 <= role_position r) roles ->
  can_manage_role roles mrs false id = true <->
  exists target held r, find (fun r => role_id r =? id) roles = Some target
    /\ held ∈ mrs /\ find (fun r => role_id r =? held) roles = Some r
    /\ role_position target < role_position r.
Proof.
  intros Hpos. unfold can_manage_role.
  destruct (top_role_position_spec roles mrs) as [Hmax Hatt]. split.
  - destruct (find _ roles) as [t|] eqn:F; [|done]. intros Hlt. bool_props.
    apply find_some in F as [Ht _]. rewrite Forall_forall in Hpos. apply Hpos in Ht.
    destruct Hatt as [Z0 | (h & r & Hh & Fr & E)]; [lia|].
    exists t, h, r. rewrite <- E. auto.
  - intros (t & h & r & -> & Hh & Fr & Hlt). apply Z.ltb_lt.
    specialize (Hmax h r Hh Fr). lia.
Qed.

Lemma can_manage_role_needs_senior_role_witness :
  let roles := [mkRole 0 [] None 0 NONE; mkRole 1 [] None 1 NONE; mkRole 2 [] None 2 NONE] in
  Forall (fun r => 0 <= role_position r) roles
  /\ can_manage_role roles [2] false 1 = true /\ can_manage_role roles [1] false 1 <> true.
Proof.
  set (roles := [mkRole 0 [] None 0 NONE; mkRole 1 [] None 1 NONE; mkRole 2 [] None 2 NONE]).
  assert (H : Forall (fun r => 0 <= role_position r) roles) by (repeat (constructor; [simpl; lia|]); constructor).
  split; [exact H|]. split.
  - apply (can_manage_role_needs_senior_role roles [2] 1 H).
    exists (mkRole 1 [] None 1 NONE), 2, (mkRole 2 [] None 2 NONE). split_and!; [reflexivity | left | reflexivity | simpl; lia].
  - discriminate.
Defined.

Lemma can_act_on_strict_order_witness :
  let roles := [mkRole 1 [] None 1 NONE; mkRole 2 [] None 2 NONE] in
  can_act_on roles [2] false [1] false = true /\ can_act_on roles [1] false [2] false = false.
Proof.
  set (roles := [mkRole 1 [] None 1 NONE; mkRole 2 [] None 2 NONE]).
  split; [reflexivity |].
  destruct (can_act_on_strict_order roles [2] [1] [] false false false) as (_ & _ & _ & H & _).
  apply H. reflexivity.
Defined.
