(* ===== verification/Proto.v ===== *)
(** * Protocol messages ([crates/pickle-proto/src/lib.rs])

    The data that crosses the control stream: channels, users, chat messages and
    the two message enums, with the source's fields and variants in the source's
    order.  Integers are [Z], [String] is [rstring], a boxed value is the value. *)

From S2P Require Export Perms Voice.

Definition PROTOCOL_VERSION : Z := 2.

Abbreviation ChannelId := Z (only parsing).
Abbreviation MessageId := Z (only parsing).

Record ServerHello : Type := mkHello {
  sh_protocol_version : Z; sh_server_name : rstring; sh_server_identity : PublicIdentity;
  sh_nonce : bytes; sh_min_security_level : Z; sh_requires_password : bool; sh_signature : bytes }.

Record ClientAuth : Type := mkAuth {
  ca_protocol_version : Z; ca_identity : PublicIdentity; ca_nickname : rstring;
  ca_password : option rstring; ca_client_version : rstring; ca_signature : bytes }.

Inductive AuthFailure : Type :=
| ProtocolMismatch (server_version : Z)
| SecurityLevelTooLow (required provided : Z)
| AuthBadSignature
| PasswordRequired
| BadPassword
| AuthBanned (reason : rstring) (until_unix_ms : option Z)
| ServerFull
| NicknameRejected (reason : rstring).

Record ServerLimits : Type := mkLimits {
  max_message_len : Z; max_nickname_len : Z; max_users_limit : Z; limits_history_enabled : bool }.

Definition ServerLimits_default : ServerLimits := mkLimits 4000 32 64 true.

Inductive ChannelKind : Type := Voice | Text | VoiceAndText.

#[global] Instance ChannelKind_eq_dec : EqDecision ChannelKind.
Proof. solve_decision. Defined.

Definition has_voice (k : ChannelKind) : bool :=
  match k with Voice | VoiceAndText => true | Text => false end.

Definition has_text (k : ChannelKind) : bool :=
  match k with Text | VoiceAndText => true | Voice => false end.

Record Channel : Type := mkChannel {
  ch_id : ChannelId; ch_parent : option ChannelId; ch_name : rstring; ch_topic : rstring;
  ch_kind : ChannelKind; ch_max_users : option Z; ch_order : Z; ch_overwrites : list Overwrite }.

#[global] Instance Channel_eq_dec : EqDecision Channel.
Proof. solve_decision. Defined.

Record VoiceState : Type := mkVoice {
  self_muted : bool; self_deafened : bool; server_muted : bool; speaking : bool }.

#[global] Instance VoiceState_eq_dec : EqDecision VoiceState.
Proof. solve_decision. Defined.

Definition VoiceState_default : VoiceState := mkVoice false false false false.

Record UserInfo : Type := mkUser {
  u_client_id : ClientId; u_identity : PublicIdentity; u_nickname : rstring;
  u_channel : option ChannelId; u_voice : VoiceState; u_connected_at : Z;
  u_roles : list RoleId; u_owner : bool }.

#[global] Instance UserInfo_eq_dec : EqDecision UserInfo.
Proof. solve_decision. Defined.

Definition user_fingerprint {C : Crypto} (u : UserInfo) : Fingerprint := fingerprint (u_identity u).

Record AuthOk : Type := mkAuthOk {
  ok_client_id : ClientId; ok_channels : list Channel; ok_users : list UserInfo;
  ok_roles : list Role; ok_default_channel : option ChannelId; ok_limits : ServerLimits }.

Inductive DisconnectReason : Type := Quit | TimedOut | Kicked | Banned | ServerShutdown.

Record Attachment : Type := mkAttachment {
  at_id : Z; at_filename : rstring; at_byte_len : Z; at_mime : rstring; at_content_hash : bytes }.

Record Reaction : Type := mkReaction { re_emoji : rstring; re_reactors : list Fingerprint }.

Record ChatMessage : Type := mkMessage {
  m_id : MessageId; m_channel : ChannelId; m_author : option ClientId;
  m_author_fingerprint : Fingerprint; m_author_nickname : rstring; m_sent_at : Z;
  m_edited_at : option Z; m_content : rstring; m_reply_to : option MessageId;
  m_attachments : list Attachment; m_reactions : list Reaction }.

Inductive ErrorCode : Type :=
| NotAuthenticated | NoSuchChannel | NoSuchMessage | ChannelFull | ChannelPasswordRequired
| NotPermitted | RateLimited | MessageTooLong | Malformed | Internal.

#[global] Instance ErrorCode_eq_dec : EqDecision ErrorCode.
Proof. solve_decision. Defined.

Record BanEntry : Type := mkBan {
  ban_fingerprint : Fingerprint; ban_reason : rstring; ban_until : option Z;
  ban_issued_by : Fingerprint; ban_issued_at : Z }.

Inductive ClientControl : Type :=
| CAuth (auth : ClientAuth)
| CJoinChannel (channel : ChannelId)
| CLeaveChannel
| CSetVoiceState (muted deafened : bool)
| CSetNickname (nickname : rstring)
| CSendMessage (channel : ChannelId) (content : rstring) (reply_to : option MessageId) (nonce : Z)
| CEditMessage (id : MessageId) (content : rstring)
| CDeleteMessage (id : MessageId)
| CReact (message : MessageId) (emoji : rstring) (add : bool)
| CFetchHistory (channel : ChannelId) (before : option MessageId) (limit : Z)
| CTyping (channel : ChannelId)
| CPing (nonce : Z)
| CKick (nonce : Z) (client : ClientId) (reason : rstring)
| CBan (nonce : Z) (fp : Fingerprint) (reason : rstring) (until_unix_ms : option Z)
| CUnban (nonce : Z) (fp : Fingerprint)
| CListBans (nonce : Z)
| CSetServerMute (nonce : Z) (client : ClientId) (muted : bool)
| CMoveMember (nonce : Z) (client : ClientId) (to : option ChannelId)
| CCreateRole (nonce : Z) (name : rstring) (permissions : Permissions)
| CUpdateRole (nonce : Z) (id : RoleId) (name : option rstring) (color : option (option Z))
              (permissions : option Permissions)
| CDeleteRole (nonce : Z) (id : RoleId)
| CReorderRoles (nonce : Z) (positions : list (RoleId * Z))
| CSetMemberRoles (nonce : Z) (fp : Fingerprint) (roles : list RoleId)
| CSetChannelOverwrite (nonce : Z) (channel : ChannelId) (target : OverwriteTarget)
                       (allow deny : Permissions)
| CDeleteChannelOverwrite (nonce : Z) (channel : ChannelId) (target : OverwriteTarget)
| CCreateChannel (nonce : Z) (name : rstring) (parent : option ChannelId) (topic : rstring)
                 (kind : ChannelKind) (max_users : option Z) (order : Z)
| CUpdateChannel (nonce : Z) (id : ChannelId) (parent : option ChannelId) (name topic : rstring)
                 (kind : ChannelKind) (max_users : option Z) (order : Z)
| CDeleteChannel (nonce : Z) (id : ChannelId).

Inductive ServerControl : Type :=
| SHello (hello : ServerHello)
| SAuthOk (ok : AuthOk)
| SAuthFailed (failure : AuthFailure)
| SUserJoined (user : UserInfo)
| SUserLeft (client : ClientId) (reason : DisconnectReason)
| SUserMoved (client : ClientId) (from to : option ChannelId)
| SUserUpdated (user : UserInfo)
| SVoiceActivity (client : ClientId) (speaking : bool)
| SChannelCreated (channel : Channel)
| SChannelUpdated (channel : Channel)
| SChannelRemoved (channel : ChannelId)
| SMessagePosted (message : ChatMessage) (nonce : option Z)
| SMessageEdited (id : MessageId) (content : rstring) (edited_at : Z)
| SMessageDeleted (id : MessageId)
| SReactionUpdated (message : MessageId) (reaction : Reaction)
| SHistory (channel : ChannelId) (messages : list ChatMessage) (reached_start : bool)
| STyping (client : ClientId) (channel : ChannelId)
| SPong (nonce : Z)
| SError (code : ErrorCode) (detail : rstring)
| SRoleCreated (role : Role)
| SRoleUpdated (role : Role)
| SRoleDeleted (id : RoleId)
| SRolesReordered (positions : list (RoleId * Z))
| SBanList (bans : list BanEntry)
| SAck (nonce : Z)
| SCommandFailed (nonce : Z) (code : ErrorCode) (detail : rstring).
