(* ===== verification/State.v ===== *)
(** * Authoritative server state ([crates/pickle-server/src/state.rs])

    Who is connected, where they are, what they may do, and how messages reach
    them.  Every method of [Shared] is a function of the state; one that writes
    returns the new state.  A method is one step here: the source takes the
    state lock inside it and never holds it across an await.

    [Shared] also carries the two pieces of the outside world its methods read
    or write: the clock, and the transports already closed. *)

From S2P Require Export Proto Pow.

Definition CONTROL_QUEUE_DEPTH : nat := 64.

(** The bounded queue of control frames behind a [ControlSender]; [q_closed] once the
    session's writer is gone. *)
Record Queue : Type := mkQueue { q_frames : list ServerControl; q_closed : bool }.

Definition new_queue : Queue := mkQueue [] false.

(** A connected client; its [DatagramSink] is the list of datagrams handed to it. *)
Record ConnectedClient : Type := mkClient {
  cc_info : UserInfo; cc_control : Queue; cc_datagrams : list bytes }.

Inductive TrySend : Type := Sent (q : Queue) | Closed | Full.

(** [mpsc::Sender::try_send] on a queue of [CONTROL_QUEUE_DEPTH]. *)
Definition try_send (q : Queue) (m : ServerControl) : TrySend :=
  if q_closed q then Closed
  else if (CONTROL_QUEUE_DEPTH <=? length (q_frames q))%nat then Full
  else Sent (mkQueue (q_frames q ++ [m]) false).

Definition set_info (e : ConnectedClient) (i : UserInfo) : ConnectedClient :=
  mkClient i (cc_control e) (cc_datagrams e).

Definition set_control (e : ConnectedClient) (q : Queue) : ConnectedClient :=
  mkClient (cc_info e) q (cc_datagrams e).

Definition try_queue (entry : ConnectedClient) (m : ServerControl) : ConnectedClient * option ClientId :=
  match try_send (cc_control entry) m with
  | Sent q => (set_control entry q, None)
  | Closed => (entry, None)
  | Full => (entry, Some (u_client_id (cc_info entry)))
  end.

Record PermState : Type := mkPerms {
  ps_roles : list Role; ps_members : gmap Fingerprint (list RoleId) }.

Definition default_roles : list Role :=
  [ mkRole EVERYONE_ROLE_ID (lit "everyone") None 0 DEFAULT_EVERYONE;
    mkRole 1 (lit "moderator") None 1
      (perm_union (perm_union (perm_union (perm_union KICK_MEMBERS BAN_MEMBERS) MUTE_MEMBERS) MOVE_MEMBERS) MANAGE_MESSAGES);
    mkRole 2 (lit "admin") None 2 ADMINISTRATOR ].

Definition PermState_defaults : PermState := mkPerms default_roles ∅.

(** A socket address: the octets of an IP address and a port. *)
Record SocketAddr : Type := mkAddr { sa_ip : list Z; sa_port : Z }.

Record ChannelConfig : Type := mkChannelConfig {
  cfg_ch_name : rstring; cfg_ch_topic : rstring; cfg_ch_kind : ChannelKind;
  cfg_ch_parent : option rstring; cfg_ch_max_users : option Z; cfg_ch_order : Z }.

Record ServerConfig : Type := mkConfig {
  cfg_name : rstring; cfg_min_security_level : Z; cfg_max_users : Z; cfg_password : option rstring;
  cfg_history_enabled : bool; cfg_owner : option rstring; cfg_channels : list ChannelConfig;
  cfg_bind : SocketAddr; cfg_database_url : option rstring; cfg_history_retention_days : option Z;
  cfg_history_max_messages_per_channel : option Z }.

Record Inner : Type := mkInner {
  next_client_id : ClientId; clients : gmap ClientId ConnectedClient;
  channels : gmap ChannelId Channel; next_message_id : Z }.

Record Shared (DB : Type) : Type := mkShared {
  config : ServerConfig; identity : Identity; cert_hash : bytes; limits : ServerLimits;
  perms : PermState; owner : option Fingerprint; store : option DB; inner : Inner;
  clock : Z; closed : list (ClientId * Z * rstring) }.
Arguments mkShared {DB}.
Arguments config {DB}. Arguments identity {DB}. Arguments cert_hash {DB}. Arguments limits {DB}.
Arguments perms {DB}. Arguments owner {DB}. Arguments store {DB}. Arguments inner {DB}.
Arguments clock {DB}. Arguments closed {DB}.

Section Updates.
Context {DB : Type}.
Implicit Types s : Shared DB.

Definition set_perms (p : PermState) s : Shared DB :=
  mkShared (config s) (identity s) (cert_hash s) (limits s) p (owner s) (store s) (inner s) (clock s) (closed s).
Definition set_store (d : option DB) s : Shared DB :=
  mkShared (config s) (identity s) (cert_hash s) (limits s) (perms s) (owner s) d (inner s) (clock s) (closed s).
Definition set_inner (i : Inner) s : Shared DB :=
  mkShared (config s) (identity s) (cert_hash s) (limits s) (perms s) (owner s) (store s) i (clock s) (closed s).
Definition set_clock (t : Z) s : Shared DB :=
  mkShared (config s) (identity s) (cert_hash s) (limits s) (perms s) (owner s) (store s) (inner s) t (closed s).
Definition set_closed (c : list (ClientId * Z * rstring)) s : Shared DB :=
  mkShared (config s) (identity s) (cert_hash s) (limits s) (perms s) (owner s) (store s) (inner s) (clock s) c.
Definition set_clients (m : gmap ClientId ConnectedClient) s : Shared DB :=
  set_inner (mkInner (next_client_id (inner s)) m (channels (inner s)) (next_message_id (inner s))) s.
Definition set_channels (m : gmap ChannelId Channel) s : Shared DB :=
  set_inner (mkInner (next_client_id (inner s)) (clients (inner s)) m (next_message_id (inner s))) s.

Definition the_clients s : gmap ClientId ConnectedClient := clients (inner s).
Definition the_channels s : gmap ChannelId Channel := channels (inner s).
End Updates.

(** Field updates of a user's record. *)
Definition set_user_channel (c : option ChannelId) (u : UserInfo) : UserInfo :=
  mkUser (u_client_id u) (u_identity u) (u_nickname u) c (u_voice u) (u_connected_at u) (u_roles u) (u_owner u).
Definition set_user_voice (v : VoiceState) (u : UserInfo) : UserInfo :=
  mkUser (u_client_id u) (u_identity u) (u_nickname u) (u_channel u) v (u_connected_at u) (u_roles u) (u_owner u).
Definition set_user_nickname (n : rstring) (u : UserInfo) : UserInfo :=
  mkUser (u_client_id u) (u_identity u) n (u_channel u) (u_voice u) (u_connected_at u) (u_roles u) (u_owner u).
Definition set_user_roles (r : list RoleId) (u : UserInfo) : UserInfo :=
  mkUser (u_client_id u) (u_identity u) (u_nickname u) (u_channel u) (u_voice u) (u_connected_at u) r (u_owner u).

Definition map_info (f : UserInfo -> UserInfo) (e : ConnectedClient) : ConnectedClient :=
  set_info e (f (cc_info e)).

Definition sanitize_nickname (raw : rstring) (max_len : nat) : option rstring :=
  let cleaned := take max_len (trim (retain (fun c => negb (is_control c)) raw)) in
  if is_empty cleaned then None else Some cleaned.

(** [ids.get(p)] over the name-to-id map: a later channel of the same name wins. *)
Definition build_channels (cfg : ServerConfig) : list Channel :=
  let ids : list (rstring * ChannelId) :=
    imap (fun i c => (cfg_ch_name c, Z.of_nat i + 1)) (cfg_channels cfg) in
  let get p := snd <$> find (fun e => bool_decide (e.1 = p)) (reverse ids) in
  imap (fun i c =>
    mkChannel (Z.of_nat i + 1) (cfg_ch_parent c ≫= get) (cfg_ch_name c) (cfg_ch_topic c)
      (cfg_ch_kind c) (cfg_ch_max_users c) (cfg_ch_order c) []) (cfg_channels cfg).

Section Methods.
Context {C : Crypto} {HO : HashOrder} {DB : Type}.
Implicit Types s : Shared DB.

(** [Shared::new]: no store yet, nobody connected. [t] is the time the process starts at. *)
Definition new_shared (cfg : ServerConfig) (ident : Identity) (cert : bytes) (chans : list Channel)
    (ps : PermState) (t : Z) : Shared DB :=
  let channels : gmap ChannelId Channel :=
    fold_left (fun m c => <[ch_id c := c]> m) chans ∅ in
  let limits := mkLimits (max_message_len ServerLimits_default) (max_nickname_len ServerLimits_default)
                  (cfg_max_users cfg) (limits_history_enabled ServerLimits_default) in
  let owner := cfg_owner cfg ≫= (fun raw => match fp_parse raw with inr f => Some f | inl _ => None end) in
  mkShared cfg ident cert limits ps owner None (mkInner 1 ∅ channels 1) t [].

Definition perm_state s : PermState := perms s.

Definition is_owner s (f : Fingerprint) : bool := bool_decide (owner s = Some f).

Definition member_roles s (f : Fingerprint) : list RoleId := default [] (ps_members (perms s) !! f).

(** The call of [resolve] every method below makes on a user's record. *)
Definition resolve_user (snapshot : PermState) (u : UserInfo) (ows : option (list Overwrite)) : Permissions :=
  resolve (ps_roles snapshot) (u_roles u) (user_fingerprint u) (u_owner u) ows.

Definition can s (client : ClientId) (channel : ChannelId) (bits : Permissions) : bool :=
  match the_clients s !! client with
  | None => false
  | Some entry =>
    match the_channels s !! channel with
    | None => false
    | Some target => contains (resolve_user (perm_state s) (cc_info entry) (Some (ch_overwrites target))) bits
    end
  end.

Definition can_view_channel (snapshot : PermState) (u : UserInfo) (c : Channel) : bool :=
  contains (resolve_user snapshot u (Some (ch_overwrites c))) VIEW_CHANNEL.

Definition visible_channels s (member : UserInfo) : list Channel :=
  retain (can_view_channel (perm_state s) member) (btree_values (the_channels s)).

(** [min_by_key]: the first minimum of (order, id). *)
Definition key_lt (a b : Channel) : bool :=
  (ch_order a <? ch_order b) || ((ch_order a =? ch_order b) && (ch_id a <? ch_id b)).

Fixpoint min_by_order (best : Channel) (l : list Channel) : Channel :=
  match l with
  | [] => best
  | c :: rest => min_by_order (if key_lt c best then c else best) rest
  end.

Definition default_channel_for s (member : UserInfo) : option ChannelId :=
  match retain (fun c => bool_decide (ch_parent c = None) && has_text (ch_kind c)) (visible_channels s member) with
  | [] => None
  | c :: rest => Some (ch_id (min_by_order c rest))
  end.

Definition roles_snapshot s : list Role := ps_roles (perms s).
Definition list_channels s : list Channel := btree_values (the_channels s).
Definition users s : list UserInfo := (fun e => cc_info e.2) <$> hash_iter (the_clients s).
Definition user_count s : nat := size (the_clients s).
Definition user s (client : ClientId) : option UserInfo := cc_info <$> the_clients s !! client.
Definition channel s (id : ChannelId) : option Channel := the_channels s !! id.
Definition fingerprint_of s (client : ClientId) : option Fingerprint :=
  (fun e => user_fingerprint (cc_info e)) <$> the_clients s !! client.

Definition sessions_for s (f : Fingerprint) : nat :=
  length (filter (fun e => user_fingerprint (cc_info e.2) = f) (hash_iter (the_clients s))).

Definition now_unix_ms s : Z := clock s.

Definition admit_client s (ident : PublicIdentity) (nickname : rstring) (control : Queue)
    : (AuthFailure + UserInfo) * Shared DB :=
  let level := public_security_level ident in
  if level <? cfg_min_security_level (config s)
  then (inl (SecurityLevelTooLow (cfg_min_security_level (config s)) level), s) else
  match sanitize_nickname nickname (Z.to_nat (max_nickname_len (limits s))) with
  | None => (inl (NicknameRejected (lit "nickname must contain at least one printable character")), s)
  | Some nickname =>
    let fp := fingerprint ident in
    let roles := member_roles s fp in
    let own := is_owner s fp in
    if cfg_max_users (config s) <=? Z.of_nat (size (the_clients s)) then (inl ServerFull, s) else
    let client_id := next_client_id (inner s) in
    let next := Z.max (wrap 32 (client_id + 1)) 1 in
    let info := mkUser client_id ident nickname None VoiceState_default (now_unix_ms s) roles own in
    (inr info,
     set_inner (mkInner next (<[client_id := mkClient info control []]> (the_clients s))
                  (the_channels s) (next_message_id (inner s))) s)
  end.

Definition remove s (client : ClientId) : option UserInfo * Shared DB :=
  (user s client, set_clients (delete client (the_clients s)) s).

(** How many other clients stand in a channel. *)
Definition occupants s (channel : ChannelId) (client : ClientId) : nat :=
  length (filter (fun e => u_channel (cc_info e.2) = Some channel /\ u_client_id (cc_info e.2) <> client)
            (hash_iter (the_clients s))).

(** [occupants >= max as usize] when the channel has a cap. *)
Definition channel_full s (target : Channel) (channel : ChannelId) (client : ClientId) : bool :=
  match ch_max_users target with
  | Some max => max <=? Z.of_nat (occupants s channel client)
  | None => false
  end.

Definition update_client (f : UserInfo -> UserInfo) s (client : ClientId) (e : ConnectedClient) : Shared DB :=
  set_clients (<[client := map_info f e]> (the_clients s)) s.

Definition join_channel s (client : ClientId) (channel : ChannelId)
    : (ErrorCode + option ChannelId) * Shared DB :=
  match the_channels s !! channel with
  | None => (inl NoSuchChannel, s)
  | Some target =>
    match the_clients s !! client with
    | None => (inl NotAuthenticated, s)
    | Some me =>
      let bits := resolve_user (perm_state s) (cc_info me) (Some (ch_overwrites target)) in
      if negb (contains bits VIEW_CHANNEL) then (inl NoSuchChannel, s)
      else if negb (has_voice (ch_kind target)) then (inl NotPermitted, s)
      else if negb (contains bits CONNECT) then (inl NotPermitted, s)
      else if channel_full s target channel client then (inl ChannelFull, s)
      else (inr (u_channel (cc_info me)),
            update_client (set_user_channel (Some channel)) s client me)
    end
  end.

Definition leave_channel s (client : ClientId) : option ChannelId * Shared DB :=
  match the_clients s !! client with
  | None => (None, s)
  | Some e => (u_channel (cc_info e), update_client (set_user_channel None) s client e)
  end.

(** [get_mut(&client)?], change the record, return a copy of it. *)
Definition modify_user (f : UserInfo -> UserInfo) s (client : ClientId) : option UserInfo * Shared DB :=
  match the_clients s !! client with
  | None => (None, s)
  | Some e => (Some (f (cc_info e)), update_client f s client e)
  end.

Definition set_voice_state s (client : ClientId) (muted deafened : bool) : option UserInfo * Shared DB :=
  modify_user (fun u =>
    let v := u_voice u in
    set_user_voice (mkVoice (if deafened then true else muted) deafened (server_muted v) (speaking v)) u)
    s client.

Definition set_nickname s (client : ClientId) (nickname : rstring) : option UserInfo * Shared DB :=
  match sanitize_nickname nickname (Z.to_nat (max_nickname_len (limits s))) with
  | None => (None, s)
  | Some cleaned => modify_user (set_user_nickname cleaned) s client
  end.

Definition set_server_muted s (client : ClientId) (muted : bool) : option UserInfo * Shared DB :=
  modify_user (fun u =>
    let v := u_voice u in
    set_user_voice (mkVoice (self_muted v) (self_deafened v) muted (speaking v)) u) s client.

Definition fresh_message_id s : Z * Shared DB :=
  let i := inner s in
  (next_message_id i,
   set_inner (mkInner (next_client_id i) (clients i) (channels i) (wrap 64 (next_message_id i + 1))) s).

Definition resume_message_ids_after s (highest : Z) : Shared DB :=
  let i := inner s in
  set_inner (mkInner (next_client_id i) (clients i) (channels i)
               (Z.max (next_message_id i) (wrap 64 (highest + 1)))) s.

Definition attach_store s (d : DB) : Shared DB := set_store (Some d) s.

Definition history_enabled s : bool :=
  cfg_history_enabled (config s) && match store s with Some _ => true | None => false end.

(** The read-lock half of [drop_overflowed]: a best-effort notice to everyone left. *)
Definition push_best_effort (m : ServerControl) (e : ConnectedClient) : ConnectedClient := (try_queue e m).1.

Definition drop_overflowed s (ids : list ClientId) : Shared DB :=
  fold_left (fun s id =>
    match remove s id with
    | (Some _, s) => set_clients (push_best_effort (SUserLeft id Kicked) <$> the_clients s) s
    | (None, s) => s
    end) ids s.

Definition send s (client : ClientId) (m : ServerControl) : Shared DB :=
  match the_clients s !! client with
  | None => s
  | Some entry =>
    let '(entry, overflowed) := try_queue entry m in
    drop_overflowed (set_clients (<[client := entry]> (the_clients s)) s) (option_list overflowed)
  end.

(** Queue a frame for every client the test selects, then drop those whose queue is full. *)
Definition broadcast_to (selected : ClientId -> ConnectedClient -> bool) s (m : ServerControl) : Shared DB :=
  let overflowed := omap (fun e : ClientId * ConnectedClient =>
      if selected e.1 e.2 then (try_queue e.2 m).2 else None) (hash_iter (the_clients s)) in
  let queued := map_imap (fun id e =>
      Some (if selected id e then push_best_effort m e else e)) (the_clients s) in
  drop_overflowed (set_clients queued s) overflowed.

Definition broadcast s (m : ServerControl) (except : option ClientId) : Shared DB :=
  broadcast_to (fun id _ => negb (bool_decide (Some id = except))) s m.

Definition broadcast_filtered s (m : ServerControl) (channel : ChannelId) (except : option ClientId) : Shared DB :=
  let snapshot := perm_state s in
  match the_channels s !! channel with
  | None => s
  | Some target =>
    broadcast_to (fun id e => negb (bool_decide (Some id = except))
                              && can_view_channel snapshot (cc_info e) target) s m
  end.

Definition push_datagram (d : bytes) (e : ConnectedClient) : ConnectedClient :=
  mkClient (cc_info e) (cc_control e) (cc_datagrams e ++ [d]).

Definition relay_voice s (from : ClientId) (packet : VoiceUpstream) : Shared DB :=
  let snapshot := perm_state s in
  match the_clients s !! from with
  | None => s
  | Some sender =>
    if self_muted (u_voice (cc_info sender)) || server_muted (u_voice (cc_info sender)) then s else
    match u_channel (cc_info sender) with
    | None => s
    | Some channel =>
      match the_channels s !! channel with
      | None => s
      | Some room =>
        if negb (has_voice (ch_kind room)) then s
        else if negb (contains (resolve_user snapshot (cc_info sender) (Some (ch_overwrites room))) SPEAK) then s
        else
          let datagram := encode_down (into_downstream packet from) in
          set_clients (map_imap (fun id e =>
            Some (if (id =? from) || negb (bool_decide (u_channel (cc_info e) = Some channel))
                     || self_deafened (u_voice (cc_info e))
                  then e else push_datagram datagram e)) (the_clients s)) s
      end
    end
  end.

Definition can_globally s (client : ClientId) (bits : Permissions) : bool :=
  match the_clients s !! client with
  | None => false
  | Some entry => contains (resolve_user (perm_state s) (cc_info entry) None) bits
  end.

Definition actor_outranks s (actor : ClientId) (target : Fingerprint) : bool :=
  let snapshot := perm_state s in
  let target_roles := default [] (ps_members snapshot !! target) in
  let target_owner := is_owner s target in
  match the_clients s !! actor with
  | None => false
  | Some entry => can_act_on (ps_roles snapshot) (u_roles (cc_info entry)) (u_owner (cc_info entry))
                    target_roles target_owner
  end.

Definition swap_perm_state s (next : PermState) : Shared DB := set_perms next s.

(** The set of channels one user may view. *)
Definition visible_ids s (u : UserInfo) : gset ChannelId :=
  list_to_set (ch_id <$> retain (can_view_channel (perm_state s) u) (btree_values (the_channels s))).

Definition visible_ids_by_client s : list (ClientId * gset ChannelId) :=
  (fun e => (u_client_id (cc_info e.2), visible_ids s (cc_info e.2))) <$> hash_iter (the_clients s).

(** [map.get(client)] over the pairs collected into a map: a later pair wins. *)
Definition after_get (after : list (ClientId * gset ChannelId)) (c : ClientId) : option (gset ChannelId) :=
  snd <$> find (fun e => e.1 =? c) (reverse after).

Definition resync_client (chans : gmap ChannelId Channel) (touched : list ChannelId) s
    (client : ClientId) (was now : gset ChannelId) : Shared DB :=
  let s := fold_left (fun s gained =>
      match chans !! gained with Some c => send s client (SChannelCreated c) | None => s end)
    (retain (fun id => negb (bool_decide (id ∈ was))) (hash_set_iter now)) s in
  let s := fold_left (fun s lost => send s client (SChannelRemoved lost))
    (retain (fun id => negb (bool_decide (id ∈ now))) (hash_set_iter was)) s in
  fold_left (fun s id =>
      if bool_decide (id ∈ was) && bool_decide (id ∈ now) then
        match chans !! id with Some c => send s client (SChannelUpdated c) | None => s end
      else s) touched s.

Definition resync_visibility s (before : list (ClientId * gset ChannelId)) (touched : list ChannelId) : Shared DB :=
  let after := visible_ids_by_client s in
  let chans := the_channels s in
  fold_left (fun s '(client, was) =>
    match after_get after client with
    | None => s
    | Some now => resync_client chans touched s client was now
    end) before s.

(** [values_mut().filter(p).map(change and clone)]: change the selected records in place and
    return copies of them. *)
Definition modify_where (p : UserInfo -> bool) (f : UserInfo -> UserInfo) s : list UserInfo * Shared DB :=
  (omap (fun e => if p (cc_info e.2) then Some (f (cc_info e.2)) else None) (hash_iter (the_clients s)),
   set_clients ((fun e => if p (cc_info e) then map_info f e else e) <$> the_clients s) s).

Definition update_live_member_roles s (f : Fingerprint) (roles : list RoleId) : list UserInfo * Shared DB :=
  modify_where (fun u => bool_decide (user_fingerprint u = f)) (set_user_roles roles) s.

Definition strip_live_role s (role : RoleId) : list UserInfo * Shared DB :=
  modify_where (fun u => bool_decide (role ∈ u_roles u))
    (fun u => set_user_roles (retain (fun r => negb (r =? role)) (u_roles u)) u) s.

Definition set_overwrites (ows : list Overwrite) (c : Channel) : Channel :=
  mkChannel (ch_id c) (ch_parent c) (ch_name c) (ch_topic c) (ch_kind c) (ch_max_users c) (ch_order c) ows.

Definition set_channel_overwrite s (channel : ChannelId) (ow : Overwrite) : bool * Shared DB :=
  match the_channels s !! channel with
  | None => (false, s)
  | Some target =>
    let ows := retain (fun o => negb (bool_decide (ow_target o = ow_target ow))) (ch_overwrites target) ++ [ow] in
    (true, set_channels (<[channel := set_overwrites ows target]> (the_channels s)) s)
  end.

Definition remove_channel_overwrite s (channel : ChannelId) (target : OverwriteTarget) : bool * Shared DB :=
  match the_channels s !! channel with
  | None => (false, s)
  | Some entry =>
    let ows := retain (fun o => negb (bool_decide (ow_target o = target))) (ch_overwrites entry) in
    (true, set_channels (<[channel := set_overwrites ows entry]> (the_channels s)) s)
  end.

Definition names_role (role : RoleId) (c : Channel) : bool :=
  any (fun o => bool_decide (ow_target o = TRole role)) (ch_overwrites c).

Definition strip_role_overwrites s (role : RoleId) : list ChannelId * Shared DB :=
  (ch_id <$> retain (names_role role) (btree_values (the_channels s)),
   set_channels ((fun c =>
     if names_role role c
     then set_overwrites (retain (fun o => negb (bool_decide (ow_target o = TRole role))) (ch_overwrites c)) c
     else c) <$> the_channels s) s).

Definition next_channel_id s : ChannelId :=
  wrap 32 (foldr Z.max 0 (btree_iter (the_channels s)).*1 + 1).

(** The [while let] walk up the parents. [None] when the fuel runs out first. *)
Fixpoint parent_walk (chans : gmap ChannelId Channel) (child : ChannelId) (fuel : nat)
    (cursor : option ChannelId) : option bool :=
  match cursor with
  | None => Some false
  | Some id =>
    if id =? child then Some true
    else match fuel with
    | O => None
    | S fuel => parent_walk chans child fuel (chans !! id ≫= ch_parent)
    end
  end.

(** Fuel for one visit of every channel: a walk that has not ended by then is going round a
    cycle and never ends; the result [None] stands for that. *)
Definition parent_would_cycle s (child : ChannelId) (parent : option ChannelId) : option bool :=
  parent_walk (the_channels s) child (S (size (the_channels s))) parent.

Definition insert_channel_mem s (c : Channel) : Shared DB :=
  set_channels (<[ch_id c := c]> (the_channels s)) s.

Definition update_channel_mem s (c : Channel) : bool * Shared DB :=
  match the_channels s !! ch_id c with
  | None => (false, s)
  | Some existing =>
    (true, set_channels (<[ch_id c := set_overwrites (ch_overwrites existing) c]> (the_channels s)) s)
  end.

Definition remove_channel_mem s (channel : ChannelId) : list UserInfo * Shared DB :=
  match the_channels s !! channel with
  | None => ([], s)
  | Some _ =>
    modify_where (fun u => bool_decide (u_channel u = Some channel)) (set_user_channel None)
      (set_channels (delete channel (the_channels s)) s)
  end.

Definition eject s (victim : ClientId) (reason : DisconnectReason) : option ConnectedClient * Shared DB :=
  match the_clients s !! victim with
  | None => (None, s)
  | Some entry =>
    let entry := push_best_effort (SUserLeft victim reason) entry in
    let s := set_clients (delete victim (the_clients s)) s in
    (Some entry, broadcast s (SUserLeft victim reason) None)
  end.

(** [ConnectedClient::close_transport] on an entry already out of the roster. *)
Definition close_transport s (entry : ConnectedClient) (code : Z) (reason : rstring) : Shared DB :=
  set_closed (closed s ++ [(u_client_id (cc_info entry), code, reason)]) s.

Definition force_move s (client : ClientId) (to : option ChannelId)
    : (ErrorCode + option ChannelId) * Shared DB :=
  let move s :=
    match the_clients s !! client with
    | None => (inl NotAuthenticated, s)
    | Some e => (inr (u_channel (cc_info e)), update_client (set_user_channel to) s client e)
    end in
  match to with
  | None => move s
  | Some channel =>
    match the_channels s !! channel with
    | None => (inl NoSuchChannel, s)
    | Some target =>
      if negb (has_voice (ch_kind target)) then (inl NotPermitted, s)
      else if channel_full s target channel client then (inl ChannelFull, s)
      else move s
    end
  end.

Definition build_message s (author : UserInfo) (channel : ChannelId) (content : rstring)
    (reply_to : option MessageId) : ChatMessage * Shared DB :=
  let '(id, s) := fresh_message_id s in
  (mkMessage id channel (Some (u_client_id author)) (user_fingerprint author) (u_nickname author)
     (now_unix_ms s) None content reply_to [] [], s).

Definition disconnect_all s (reason : DisconnectReason) : Shared DB :=
  set_clients (map_imap (fun id e => Some (push_best_effort (SUserLeft id reason) e)) (the_clients s)) s.

End Methods.
