(* ===== verification/Prog.v ===== *)
(** * Handlers as programs of atomic steps

    A server handler is a sequence of locked sections and database calls, between
    which other sessions run.  [prog S A] is such a program over a shared state
    [S]: each [Act] is one atomic step, and [Hang] is a thread caught in a loop
    that never ends.  [run] executes a program alone; [pstep] interleaves a pool of
    programs, one atomic step at a time; [safe] is the rule for proving an
    invariant of every interleaving by looking at one program at a time. *)

From S2P Require Export Prelude.

Inductive prog (S A : Type) : Type :=
| Ret (a : A)
| Act {X : Type} (f : S -> X * S) (k : X -> prog S A)
| Hang.
Arguments Ret {S A}.
Arguments Act {S A X}.
Arguments Hang {S A}.

Fixpoint bind {S A B} (p : prog S A) (k : A -> prog S B) : prog S B :=
  match p with
  | Ret a => k a
  | Act f g => Act f (fun x => bind (g x) k)
  | Hang => Hang
  end.

(** One atomic read, update, or update with a result. *)
Definition get {S A} (f : S -> A) : prog S A := Act (fun s => (f s, s)) Ret.
Definition update {S} (f : S -> S) : prog S unit := Act (fun s => (tt, f s)) Ret.
Definition call {S A} (f : S -> A * S) : prog S A := Act f Ret.

Declare Scope prog_scope.
Delimit Scope prog_scope with prog.
Notation "x <- p ;; k" := (bind p (fun x => k))
  (at level 100, p at next level, right associativity) : prog_scope.
Notation "p ;; k" := (bind p (fun _ : unit => k))
  (at level 100, right associativity) : prog_scope.

Fixpoint for_each {S A} (l : list A) (body : A -> prog S unit) : prog S unit :=
  match l with
  | [] => Ret tt
  | x :: rest => bind (body x) (fun _ => for_each rest body)
  end.

(** A program over one part of a larger state. *)
Fixpoint zoom {S T A} (look : T -> S) (put : S -> T -> T) (p : prog S A) : prog T A :=
  match p with
  | Ret a => Ret a
  | Act f k => Act (fun t => let '(x, s) := f (look t) in (x, put s t)) (fun x => zoom look put (k x))
  | Hang => Hang
  end.

(** A program whose state is made of a part of the shared state and a value of the thread's own. *)
Fixpoint zoom_local {S L T A} (look : T -> L -> S) (put : S -> T -> T) (keep : S -> L) (p : prog S A) (l : L) : prog T (A * L) :=
  match p with
  | Ret a => Ret (a, l)
  | Act f k =>
      Act (fun t => let '(x, s) := f (look t l) in ((x, keep s), put s t)) (fun e => zoom_local look put keep (k e.1) e.2)
  | Hang => Hang
  end.

(** Running alone, to the end; [None] when the program hangs. *)
Fixpoint run {S A} (p : prog S A) (s : S) : option (A * S) :=
  match p with
  | Ret a => Some (a, s)
  | Act f k => let '(x, s) := f s in run (k x) s
  | Hang => None
  end.

(** A pool of threads and the state they share: any thread may take its next step, and a
    new thread of the set [spawnable] may start. *)
Inductive pstep {S} (spawnable : prog S unit -> Prop) :
    list (prog S unit) * S -> list (prog S unit) * S -> Prop :=
| pstep_act l s i X (f : S -> X * S) k :
    l !! i = Some (Act f k) ->
    pstep spawnable (l, s) (<[i := k (f s).1]> l, (f s).2)
| pstep_spawn l s p : spawnable p -> pstep spawnable (l, s) (l ++ [p], s).

(** A step taken in a state where [P] holds. *)
Definition pstep_within {S} (P : S -> Prop) (spawnable : prog S unit -> Prop)
    (c c' : list (prog S unit) * S) : Prop := P c.2 /\ pstep spawnable c c'.

(** A schedule played out: in each turn the named thread takes one step, if it has one left and
    [P] holds. *)
Fixpoint schedule {S} (P : S -> bool) (turns : list nat) (c : list (prog S unit) * S) : list (prog S unit) * S :=
  match turns with
  | [] => c
  | i :: turns =>
      schedule P turns
        match c.1 !! i with
        | Some (Act f k) => if P c.2 then (<[i := k (f c.2).1]> c.1, (f c.2).2) else c
        | _ => c
        end
  end.

(** [safe P I Q p]: as long as its steps are taken in states satisfying [P] and [I], [p] keeps
    [I] at every step and returns only values satisfying [Q]. *)
Fixpoint safe {S A} (P I : S -> Prop) (Q : A -> Prop) (p : prog S A) : Prop :=
  match p with
  | Ret a => Q a
  | Act f k => forall s, P s -> I s -> I (f s).2 /\ safe P I Q (k (f s).1)
  | Hang => True
  end.

(** ** Running *)

(** Every schedule is a run of the pool. *)
Lemma schedule_steps {S} (P : S -> bool) (Q : S -> Prop) spawnable turns (c : list (prog S unit) * S) :
  (forall s, P s = true -> Q s) -> rtc (pstep_within Q spawnable) c (schedule P turns c).
Proof.
  intros HP. revert c; induction turns as [|i turns IH]; intros [l s]; [apply rtc_refl|]. cbn [schedule fst snd].
  destruct (l !! i) as [[a | X f k |]|] eqn:E; try apply IH. destruct (P s) eqn:Hs; [|apply IH].
  eapply rtc_l; [|apply IH]. split; [by apply HP | by constructor].
Qed.

Lemma run_bind {S A B} (p : prog S A) (k : A -> prog S B) s :
  run (bind p k) s = match run p s with Some (a, s') => run (k a) s' | None => None end.
Proof.
  revert s; induction p as [a | X f g IH |]; intros s; simpl; auto.
  destruct (f s) as [x s']. apply IH.
Qed.

Lemma run_get {S A B} (f : S -> A) (k : A -> prog S B) s : run (bind (get f) k) s = run (k (f s)) s.
Proof. done. Qed.

Lemma run_update {S B} (f : S -> S) (k : unit -> prog S B) s : run (bind (update f) k) s = run (k tt) (f s).
Proof. done. Qed.

Lemma run_call {S A B} (f : S -> A * S) (k : A -> prog S B) s :
  run (bind (call f) k) s = run (k (f s).1) (f s).2.
Proof. simpl. by destruct (f s). Qed.

Lemma run_update_last {S} (f : S -> S) s : run (update f) s = Some (tt, f s).
Proof. done. Qed.

(** A zoomed program runs as the program does, and leaves the rest of the state alone. *)
Lemma run_zoom {S T A} (look : T -> S) (put : S -> T -> T) (p : prog S A) t :
  (forall s t, look (put s t) = s) -> (forall t, put (look t) t = t) -> (forall s s' t, put s' (put s t) = put s' t) ->
  run (zoom look put p) t = match run p (look t) with Some (a, s) => Some (a, put s t) | None => None end.
Proof.
  intros H1 H2 H3. revert t; induction p as [a | X f k IH |]; intros t; simpl; [by rewrite H2 | | done].
  destruct (f (look t)) as [x s]. rewrite IH, H1. destruct (run (k x) s) as [[a s']|]; [|done]. by rewrite H3.
Qed.

Create Rewrite HintDb run.
#[export] Hint Rewrite @run_get @run_update @run_call @run_update_last : run.

Lemma schedule_run {S} (P : S -> bool) spawnable turns (c : list (prog S unit) * S) : rtc (pstep spawnable) c (schedule P turns c).
Proof.
  eapply rtc_subrel; [|by apply (schedule_steps P (fun _ => True))]. by intros x y [_ H].
Qed.

(** ** Safety *)

Section Safety.
Context {S : Type} (P I : S -> Prop).

Lemma safe_bind {A B} (Q : A -> Prop) (R : B -> Prop) p k :
  safe P I Q p -> (forall a, Q a -> safe P I R (k a)) -> safe P I R (bind p k).
Proof.
  intros Hp Hk. induction p as [a | X f g IH |]; simpl in *; auto.
  intros s HP Hs. destruct (Hp s HP Hs). split; auto.
Qed.

Lemma safe_assoc {A B D} (Q : D -> Prop) (p : prog S A) (f : A -> prog S B) (g : B -> prog S D) :
  safe P I Q (bind p (fun a => bind (f a) g)) -> safe P I Q (bind (bind p f) g).
Proof.
  induction p as [a | X h k IH |]; simpl; auto. intros H s HP Hs.
  destruct (H s HP Hs). split; auto.
Qed.

Lemma safe_then {B} (R : B -> Prop) (p : prog S unit) k :
  safe P I (fun _ => True) p -> safe P I R (k tt) -> safe P I R (bind p k).
Proof. intros Hp Hk. eapply safe_bind; [exact Hp|]. by intros [] _. Qed.

Lemma safe_weaken {A} (Q R : A -> Prop) p :
  safe P I Q p -> (forall a, Q a -> R a) -> safe P I R p.
Proof.
  intros Hp HQ. induction p as [a | X f g IH |]; simpl in *; auto.
  intros s HP Hs. destruct (Hp s HP Hs). split; auto.
Qed.

Lemma safe_get {A B} (f : S -> A) (Q : B -> Prop) k :
  (forall s, P s -> I s -> safe P I Q (k (f s))) -> safe P I Q (bind (get f) k).
Proof. intros H s HP Hs. simpl. auto. Qed.

Lemma safe_call {A B} (f : S -> A * S) (Q : B -> Prop) k :
  (forall s, P s -> I s -> I (f s).2 /\ safe P I Q (k (f s).1)) -> safe P I Q (bind (call f) k).
Proof. intros H s HP Hs. simpl. auto. Qed.

Lemma safe_update (f : S -> S) :
  (forall s, P s -> I s -> I (f s)) -> safe P I (fun _ => True) (update f).
Proof. intros H s HP Hs. simpl. auto. Qed.

Lemma safe_for_each {A} (l : list A) body :
  (forall x, x ∈ l -> safe P I (fun _ => True) (body x)) -> safe P I (fun _ => True) (for_each l body).
Proof.
  induction l as [|x l IH]; intros H; simpl; [done|].
  eapply safe_bind; [apply H; left |]. intros _ _. apply IH. intros y Hy. apply H. by right.
Qed.

(** The pool keeps the invariant when every thread is safe, whatever the schedule. *)
Lemma pstep_safe (spawnable : prog S unit -> Prop) c c' :
  (forall p, spawnable p -> safe P I (fun _ => True) p) ->
  pstep_within P spawnable c c' ->
  I c.2 /\ Forall (safe P I (fun _ => True)) c.1 ->
  I c'.2 /\ Forall (safe P I (fun _ => True)) c'.1.
Proof.
  intros Hspawn [HP Hstep]. destruct Hstep as [l s i X f k Hi | l s p Hp]; intros [Hs Hl]; simpl in *.
  - pose proof (Forall_lookup_1 _ _ _ _ Hl Hi) as Hsafe. simpl in Hsafe.
    destruct (Hsafe s HP Hs). split; [done|]. by apply Forall_insert.
  - split; [done|]. apply Forall_app. split; [done|]. repeat constructor. auto.
Qed.

Lemma psteps_safe (spawnable : prog S unit -> Prop) c c' :
  (forall p, spawnable p -> safe P I (fun _ => True) p) ->
  rtc (pstep_within P spawnable) c c' ->
  I c.2 /\ Forall (safe P I (fun _ => True)) c.1 ->
  I c'.2 /\ Forall (safe P I (fun _ => True)) c'.1.
Proof.
  intros Hspawn. induction 1 as [|c c1 c2 Hstep _ IH]; [done|].
  intros H. apply IH. by eapply pstep_safe.
Qed.

End Safety.

(** ** Threads under way

    [rest_of p q]: [q] is what is left of [p] after some of its steps, taken in any states. *)

Inductive rest_of {S A} (p : prog S A) : prog S A -> Prop :=
| rest_all : rest_of p p
| rest_next X (f : S -> X * S) k s : rest_of p (Act f k) -> rest_of p (k (f s).1).

(** [keeps I p]: every step [p] can come to keeps [I], whatever the steps before it gave. *)
Fixpoint keeps {S A} (I : S -> Prop) (p : prog S A) : Prop :=
  match p with
  | Ret _ => True
  | Act f k => (forall s, I s -> I (f s).2) /\ forall x, keeps I (k x)
  | Hang => True
  end.

Section Keeping.
Context {S : Type} (I : S -> Prop).

Lemma keeps_rest {A} (p q : prog S A) : keeps I p -> rest_of p q -> keeps I q.
Proof. intros Hp. induction 1 as [|X f k s _ [_ IH]]; [done | apply IH]. Qed.

Lemma keeps_safe {A} P (Q : A -> Prop) (p : prog S A) : keeps I p -> (forall a, Q a) -> safe P I Q p.
Proof. induction p as [a | X f k IH |]; simpl; auto. intros [Hf Hk] HQ s _ Hs. auto. Qed.

Lemma keeps_bind {A B} (p : prog S A) (k : A -> prog S B) : keeps I p -> (forall a, keeps I (k a)) -> keeps I (bind p k).
Proof. intros Hp Hk. induction p as [a | X f g IH |]; simpl in *; [apply Hk | | done]. destruct Hp. auto. Qed.

Lemma keeps_get {A} (f : S -> A) : keeps I (get f).
Proof. done. Qed.

Lemma keeps_update (f : S -> S) : (forall s, I s -> I (f s)) -> keeps I (update f).
Proof. done. Qed.

Lemma keeps_call {A} (f : S -> A * S) : (forall s, I s -> I (f s).2) -> keeps I (call f).
Proof. done. Qed.

Lemma keeps_for_each {A} (l : list A) body : (forall x, x ∈ l -> keeps I (body x)) -> keeps I (for_each l body).
Proof.
  induction l as [|x l IH]; intros H; [done|]. simpl. apply keeps_bind; [apply H; left|]. intros []. apply IH. intros y Hy. apply H. by right.
Qed.

End Keeping.

(** One step of such a proof; [step] shows that one atomic step keeps the invariant. *)
Ltac keeps_step step :=
  match goal with
  | |- keeps _ (Ret _) => exact Logic.I
  | |- keeps _ Hang => exact Logic.I
  | |- keeps _ (bind _ _) => apply keeps_bind; [|intros ?]
  | |- keeps _ (get _) => apply keeps_get
  | |- keeps _ (update _) => apply keeps_update; intros ? ?; step
  | |- keeps _ (call _) => apply keeps_call; intros ? ?; step
  | |- keeps _ (for_each _ _) => apply keeps_for_each; intros ? ?
  | |- keeps _ (if ?b then _ else _) => destruct b
  | |- keeps _ (match ?x with _ => _ end) => destruct x
  end.

(** ** Rely and guarantee

    What a thread knows while others run: [knows F Q p] says that [p], started in a state where
    the assertion [F] holds, keeps [I] and takes only steps that [R] allows, and ends in values and
    states satisfying [Q], whatever steps of [R] come between its own.  Every assertion it relies on
    on the way is stable: no step of [R] breaks it. *)

Section Rely.
Context {S : Type} (P I : S -> Prop) (R : S -> S -> Prop) {Rrefl : Reflexive R}.

Definition stable (F : S -> Prop) : Prop := forall s s', I s -> R s s' -> F s -> F s'.

Fixpoint knows {A} (F : S -> Prop) (Q : A -> S -> Prop) (p : prog S A) : Prop :=
  match p with
  | Ret a => forall s, I s -> F s -> Q a s
  | Act f k => forall s, P s -> I s -> F s -> I (f s).2 /\ R s (f s).2 /\
                 exists F', F' (f s).2 /\ stable F' /\ knows F' Q (k (f s).1)
  | Hang => True
  end.

Lemma knows_pre {A} (F G : S -> Prop) (Q : A -> S -> Prop) p :
  (forall s, I s -> G s -> F s) -> knows F Q p -> knows G Q p.
Proof. destruct p; simpl; intros HFG H; auto. Qed.

Lemma knows_bind {A B} (F : S -> Prop) (Q1 : A -> S -> Prop) (Q : B -> S -> Prop) p k :
  knows F Q1 p -> (forall a, knows (Q1 a) Q (k a)) -> knows F Q (bind p k).
Proof.
  intros Hp Hk. revert F Hp. induction p as [a | X f g IH |]; intros F Hp; simpl in *; [| | done].
  - eapply knows_pre; [|apply Hk]. exact Hp.
  - intros s HP Hs HF. destruct (Hp s HP Hs HF) as (H1 & H2 & F' & H3 & H4 & H5). split_and!; [done..|].
    exists F'. split_and!; [done..|]. by apply IH.
Qed.

Lemma knows_get {A B} (f : S -> A) (F : S -> Prop) (Q : B -> S -> Prop) k :
  (forall s, P s -> I s -> F s -> exists F', F' s /\ stable F' /\ knows F' Q (k (f s))) -> knows F Q (bind (get f) k).
Proof. intros H s HP Hs HF. split_and!; [done..|]. by apply H. Qed.

Lemma knows_call {A B} (f : S -> A * S) (F : S -> Prop) (Q : B -> S -> Prop) k :
  (forall s, P s -> I s -> F s -> I (f s).2 /\ R s (f s).2 /\
     exists F', F' (f s).2 /\ stable F' /\ knows F' Q (k (f s).1)) -> knows F Q (bind (call f) k).
Proof. intros H. exact H. Qed.

(** A step that needs no assertion, and what was known before it. *)
Lemma knows_update {B} (f : S -> S) (F : S -> Prop) (Q : B -> S -> Prop) k :
  stable F -> (forall s, P s -> I s -> F s -> I (f s) /\ R s (f s)) -> knows F Q (k tt) -> knows F Q (bind (update f) k).
Proof.
  intros HF Hf Hk s HP Hs H. destruct (Hf s HP Hs H) as [H1 H2]. split_and!; [done..|]. exists F. split_and!; [|done..].
  by apply (HF s).
Qed.

(** [tame p]: every step of [p] keeps [I] and is allowed by [R], with nothing known. *)
Definition tame {A} (p : prog S A) : Prop := knows (fun _ => True) (fun _ _ => True) p.

Lemma tame_knows {A B} (F : S -> Prop) (Q : B -> S -> Prop) (p : prog S A) k :
  stable F -> tame p -> (forall a, knows F Q (k a)) -> knows F Q (bind p k).
Proof.
  intros HF Hp Hk. eapply (knows_bind F (fun _ => F)); [|exact Hk]. unfold tame in Hp.
  assert (H : forall G : S -> Prop, knows G (fun _ _ => True) p -> knows (fun s => G s /\ F s) (fun _ : A => F) p).
  { clear Hp Hk. induction p as [a | X f g IH |]; intros G HG; simpl in *; [by intros s _ [_ H] | | done].
    intros s HP Hs [Hs1 Hs2]. destruct (HG s HP Hs Hs1) as (H1 & H2 & F' & H3 & H4 & H5). split_and!; [done..|].
    exists (fun s => F' s /\ F s). split_and!; [done | by apply (HF s) | | by apply IH].
    intros s1 s2 Hi Hr [Ha Hb]. split; [by apply (H4 s1) | by apply (HF s1)]. }
  eapply knows_pre; [|apply (H _ Hp)]. done.
Qed.

Lemma stable_true : stable (fun _ => True).
Proof. done. Qed.

Lemma tame_ret {A} (a : A) : tame (Ret a).
Proof. done. Qed.

Lemma tame_bind {A B} (p : prog S A) (k : A -> prog S B) : tame p -> (forall a, tame (k a)) -> tame (bind p k).
Proof. intros Hp Hk. by apply (tame_knows _ _ _ _ stable_true). Qed.

Lemma tame_get {A B} (f : S -> A) (k : A -> prog S B) : (forall a, tame (k a)) -> tame (bind (get f) k).
Proof. intros H. apply knows_get. intros s _ _ _. exists (fun _ => True). split_and!; [done..|]. apply H. Qed.

Lemma tame_last_get {A} (f : S -> A) : tame (get f).
Proof. intros s _ Hs _. split_and!; [done..|]. by exists (fun _ => True). Qed.

Lemma tame_update (f : S -> S) : (forall s, P s -> I s -> I (f s) /\ R s (f s)) -> tame (update f).
Proof. intros H s HP Hs _. destruct (H s HP Hs). split_and!; [done..|]. by exists (fun _ => True). Qed.

Lemma tame_call {A} (f : S -> A * S) : (forall s, P s -> I s -> I (f s).2 /\ R s (f s).2) -> tame (call f).
Proof. intros H s HP Hs _. destruct (H s HP Hs). split_and!; [done..|]. by exists (fun _ => True). Qed.

Lemma tame_for_each {A} (l : list A) body : (forall a, tame (body a)) -> tame (for_each l body).
Proof. intros H. induction l as [|a l IH]; [done|]. simpl. by apply tame_bind. Qed.

Lemma knows_tame {A} (Q : A -> S -> Prop) p : knows (fun _ => True) Q p -> tame p.
Proof.
  unfold tame. generalize (fun _ : S => True) at 1 2 as F. induction p as [a | X f g IH |]; intros F; simpl; [done | | done].
  intros H s HP Hs HF. destruct (H s HP Hs HF) as (H1 & H2 & F' & H3 & H4 & H5). split_and!; [done..|].
  exists F'. split_and!; [done..|]. by apply IH.
Qed.

(** A pool of threads each of which knows something true. *)
Definition knowing (c : list (prog S unit) * S) : Prop :=
  I c.2 /\ Forall (fun p => exists F, F c.2 /\ stable F /\ knows F (fun _ _ => True) p) c.1.

Lemma pstep_knowing (spawnable : prog S unit -> Prop) c c' :
  (forall p, spawnable p -> tame p) -> pstep_within P spawnable c c' -> knowing c -> knowing c' /\ R c.2 c'.2.
Proof.
  intros Hspawn [HP Hstep]. destruct Hstep as [l s i X f k Hi | l s p Hp]; intros [Hs Hl]; simpl in *.
  - destruct (Forall_lookup_1 _ _ _ _ Hl Hi) as (F & HF & _ & Hk). simpl in Hk.
    destruct (Hk s HP Hs HF) as (H1 & H2 & F' & H3). split; [|done]. split; [done|]. simpl. apply Forall_insert; [|by exists F'].
    eapply Forall_impl; [exact Hl|]. intros q (G & HG & HGs & Hq). exists G. split_and!; [by apply (HGs s) | done..].
  - split; [|done]. split; [done|]. apply Forall_app. split; [done|]. apply Forall_singleton. exists (fun _ => True). split_and!; [done..|]. by apply Hspawn.
Qed.

Lemma psteps_knowing (spawnable : prog S unit -> Prop) {Rtrans : Transitive R} c c' :
  (forall p, spawnable p -> tame p) -> rtc (pstep_within P spawnable) c c' -> knowing c -> knowing c' /\ R c.2 c'.2.
Proof.
  intros Hspawn. induction 1 as [|c c1 c2 Hstep _ IH]; [done|]. intros H.
  destruct (pstep_knowing _ _ _ Hspawn Hstep H) as [H1 Hr1]. destruct (IH H1) as [H2 Hr2]. split; [done|]. by transitivity c1.2.
Qed.

End Rely.

(** ** What a program run alone ends in

    [ends Q p s]: run alone from [s], [p] comes to an end, in a value and a state that satisfy
    [Q]. *)

Definition ends {S A} (Q : A -> S -> Prop) (p : prog S A) (s : S) : Prop :=
  match run p s with Some (a, s') => Q a s' | None => False end.

Section Ends.
Context {S : Type}.
Implicit Types s : S.

Lemma ends_ret {A} (Q : A -> S -> Prop) a s : Q a s -> ends Q (Ret a) s.
Proof. done. Qed.

Lemma ends_bind {A B} (R : A -> S -> Prop) (Q : B -> S -> Prop) p k s :
  ends R p s -> (forall a s', R a s' -> ends Q (k a) s') -> ends Q (bind p k) s.
Proof.
  unfold ends. rewrite run_bind. intros Hp Hk. destruct (run p s) as [[a s']|]; [|done]. exact (Hk a s' Hp).
Qed.

Lemma ends_assoc {A B D} (Q : D -> S -> Prop) (p : prog S A) (f : A -> prog S B) (g : B -> prog S D) s :
  ends Q (bind p (fun a => bind (f a) g)) s -> ends Q (bind (bind p f) g) s.
Proof.
  unfold ends. rewrite !run_bind. destruct (run p s) as [[a s']|]; [|done]. by rewrite run_bind.
Qed.

Lemma ends_get {A B} (f : S -> A) (Q : B -> S -> Prop) k s : ends Q (k (f s)) s -> ends Q (bind (get f) k) s.
Proof. done. Qed.

Lemma ends_update {B} (f : S -> S) (Q : B -> S -> Prop) k s : ends Q (k tt) (f s) -> ends Q (bind (update f) k) s.
Proof. done. Qed.

Lemma ends_update_last (f : S -> S) (Q : unit -> S -> Prop) s : Q tt (f s) -> ends Q (update f) s.
Proof. done. Qed.

Lemma ends_call {A B} (f : S -> A * S) (Q : B -> S -> Prop) k s :
  ends Q (k (f s).1) (f s).2 -> ends Q (bind (call f) k) s.
Proof. unfold ends. by rewrite run_call. Qed.

(** A property of the state kept by every step of a loop. *)
Lemma ends_for_each {A} (R : S -> Prop) (l : list A) body s :
  (forall a s, a ∈ l -> R s -> ends (fun _ => R) (body a) s) -> R s -> ends (fun _ => R) (for_each l body) s.
Proof.
  revert s; induction l as [|a l IH]; intros s H HR; [done|]. simpl.
  apply (ends_bind (fun _ => R)); [apply H; [left | done]|]. intros _ s' HR'. apply IH; [|exact HR'].
  intros b s1 Hb. apply H. by right.
Qed.

Lemma ends_weaken {A} (R Q : A -> S -> Prop) p s : ends R p s -> (forall a s', R a s' -> Q a s') -> ends Q p s.
Proof. unfold ends. destruct (run p s) as [[a s']|]; auto. Qed.

End Ends.

(** ** What a program that ends leaves *)

(** [leads Q p s]: if [p] comes to an end when it runs alone from [s], then in a value and a state
    that satisfy [Q]. *)

Definition leads {S A} (Q : A -> S -> Prop) (p : prog S A) (s : S) : Prop :=
  match run p s with Some (a, s') => Q a s' | None => True end.

Section Leads.
Context {S : Type}.
Implicit Types s : S.

Lemma leads_ret {A} (Q : A -> S -> Prop) a s : Q a s -> leads Q (Ret a) s.
Proof. done. Qed.

Lemma leads_bind {A B} (R : A -> S -> Prop) (Q : B -> S -> Prop) p k s :
  leads R p s -> (forall a s', R a s' -> leads Q (k a) s') -> leads Q (bind p k) s.
Proof. unfold leads. rewrite run_bind. intros Hp Hk. destruct (run p s) as [[a s']|]; [by apply Hk | done]. Qed.

Lemma leads_assoc {A B D} (Q : D -> S -> Prop) (p : prog S A) (f : A -> prog S B) (g : B -> prog S D) s :
  leads Q (bind p (fun a => bind (f a) g)) s -> leads Q (bind (bind p f) g) s.
Proof.
  unfold leads. rewrite !run_bind. destruct (run p s) as [[a s']|]; [|done]. by rewrite run_bind.
Qed.

Lemma leads_get {A B} (f : S -> A) (Q : B -> S -> Prop) k s : leads Q (k (f s)) s -> leads Q (bind (get f) k) s.
Proof. done. Qed.
Lemma leads_update {B} (f : S -> S) (Q : B -> S -> Prop) k s : leads Q (k tt) (f s) -> leads Q (bind (update f) k) s.
Proof. done. Qed.
Lemma leads_update_last (f : S -> S) (Q : unit -> S -> Prop) s : Q tt (f s) -> leads Q (update f) s.
Proof. done. Qed.
Lemma leads_call {A B} (f : S -> A * S) (Q : B -> S -> Prop) k s : leads Q (k (f s).1) (f s).2 -> leads Q (bind (call f) k) s.
Proof. unfold leads. simpl. by destruct (f s). Qed.
Lemma leads_hang {A} (Q : A -> S -> Prop) s : leads Q Hang s.
Proof. done. Qed.

Lemma leads_for_each {A} (R : S -> Prop) (l : list A) body s :
  R s -> (forall x s, R s -> leads (fun _ => R) (body x) s) -> leads (fun _ => R) (for_each l body) s.
Proof.
  intros HR Hb. revert s HR; induction l as [|x l IH]; intros s HR; [done|]. cbn [for_each].
  eapply (leads_bind (fun _ => R)); [by apply Hb|]. intros _ s1 H1. by apply IH.
Qed.

(** A program every step of which keeps [I]. *)
Lemma leads_safe {A} (I : S -> Prop) (Q : A -> Prop) p s :
  safe (fun _ => True) I Q p -> I s -> leads (fun a s' => I s' /\ Q a) p s.
Proof.
  unfold leads. revert s; induction p as [a | X f k IH |]; intros s Hs HI; [done | | done].
  destruct (Hs s Logic.I HI) as [HI' Hs']. simpl. destruct (f s) as [x s']. by apply IH.
Qed.

End Leads.

(** ** Programs that answer

    [answers I p]: as long as [I] holds, which its own steps keep, [p] never hangs.  Others may step
    in between, as long as they keep [I] too. *)

Fixpoint answers {S A} (I : S -> Prop) (p : prog S A) : Prop :=
  match p with
  | Ret _ => True
  | Act f k => forall s, I s -> I (f s).2 /\ answers I (k (f s).1)
  | Hang => False
  end.

Section Answers.
Context {S : Type} (I : S -> Prop).

Lemma answers_bind {A B} (p : prog S A) (k : A -> prog S B) : answers I p -> (forall a, answers I (k a)) -> answers I (bind p k).
Proof.
  intros Hp Hk. induction p as [a | X f g IH |]; simpl in *; auto. intros s Hs. destruct (Hp s Hs). split; auto.
Qed.

(** What a step gives is given in a state satisfying [I]. *)
Lemma answers_get {A B} (f : S -> A) (k : A -> prog S B) : (forall s, I s -> answers I (k (f s))) -> answers I (bind (get f) k).
Proof. intros H s Hs. simpl. auto. Qed.

Lemma answers_call {A B} (f : S -> A * S) (k : A -> prog S B) :
  (forall s, I s -> I (f s).2 /\ answers I (k (f s).1)) -> answers I (bind (call f) k).
Proof. intros H s Hs. simpl. auto. Qed.

Lemma answers_last_get {A} (f : S -> A) : answers I (get f).
Proof. done. Qed.

Lemma answers_update (f : S -> S) : (forall s, I s -> I (f s)) -> answers I (update f).
Proof. intros H s Hs. simpl. auto. Qed.

Lemma answers_last_call {A} (f : S -> A * S) : (forall s, I s -> I (f s).2) -> answers I (call f).
Proof. intros H s Hs. simpl. auto. Qed.

Lemma answers_for_each {A} (l : list A) body : (forall x, answers I (body x)) -> answers I (for_each l body).
Proof. intros H. induction l as [|x l IH]; [done|]. simpl. by apply answers_bind. Qed.

Lemma answers_zoom {T A} (look : T -> S) (put : S -> T -> T) (J : T -> Prop) (p : prog S A) :
  (forall t, J t -> I (look t)) -> (forall s t, J t -> I s -> J (put s t)) -> answers I p -> answers J (zoom look put p).
Proof.
  intros Hl Hp. induction p as [a | X f k IH |]; simpl; [done | | done]. intros H t Ht. destruct (H (look t) (Hl t Ht)) as [Hi Hk].
  destruct (f (look t)) as [x s]. simpl in *. split; [by apply Hp | by apply IH].
Qed.

Lemma answers_zoom_local {T L A} (look : T -> L -> S) (put : S -> T -> T) (keep : S -> L) (J : T -> Prop) (p : prog S A) l :
  (forall t l, J t -> I (look t l)) -> (forall s t, J t -> J (put s t)) -> answers I p -> answers J (zoom_local look put keep p l).
Proof.
  intros Hl Hp. revert l. induction p as [a | X f k IH |]; intros l; simpl; [done | | done].
  intros H t Ht. destruct (H (look t l) (Hl t l Ht)) as [Hi Hk]. destruct (f (look t l)) as [x s]. simpl in *. split; [by apply Hp | by apply IH].
Qed.

(** Left alone, it comes to its end. *)
Lemma answers_ends {A} (p : prog S A) s : answers I p -> I s -> ends (fun _ => I) p s.
Proof.
  unfold ends. revert s; induction p as [a | X f k IH |]; simpl; intros s H Hs; [done | | done].
  destruct (H s Hs) as [Hi Hk]. destruct (f s) as [x s']. by apply IH.
Qed.

Lemma ends_leads {A} (Q R : A -> S -> Prop) (p : prog S A) s : ends R p s -> leads Q p s -> ends Q p s.
Proof. unfold ends, leads. by destruct (run p s) as [[a s']|]. Qed.

(** Whatever the schedule, no thread of a pool is ever caught. *)
Lemma psteps_answer (spawnable : prog S unit -> Prop) c c' :
  (forall p, spawnable p -> answers I p) -> rtc (pstep spawnable) c c' ->
  I c.2 /\ Forall (answers I) c.1 -> I c'.2 /\ Forall (answers I) c'.1.
Proof.
  intros Hspawn. induction 1 as [|c c1 c2 Hstep _ IH]; [done|]. intros H. apply IH. clear IH.
  destruct Hstep as [l s i X f k Hi | l s p Hp]; destruct H as [Hs Hl]; simpl in *.
  - pose proof (Forall_lookup_1 _ _ _ _ Hl Hi) as Hk. simpl in Hk. destruct (Hk s Hs). split; [done|]. by apply Forall_insert.
  - split; [done|]. apply Forall_app. split; [done|]. repeat constructor. by apply Hspawn.
Qed.

End Answers.

(** ** Programs that answer, with something of their own

    [has e s] says that the thing [e] is there for whoever made it.  [owning I has o p]: as long as
    [I] holds, and [p]'s own thing [o] is there, [p] never hangs, and it takes away nothing but what it
    owns: that is at first [o], and on the way it may make a new one or give it up. *)

Section Owning.
Context {S : Type} (I : S -> Prop) (has : Z -> S -> Prop).

Definition at_hand (o : option Z) (s : S) : Prop := match o with Some e => has e s | None => True end.

(** Everything that is there stays there, but for [o]. *)
Definition spares (o : option Z) (s s' : S) : Prop := forall e, has e s -> o <> Some e -> has e s'.

(** What is at hand after a step: nothing, what was, or a new thing. *)
Definition handed (o o' : option Z) (s s' : S) : Prop :=
  at_hand o' s' /\ (o' = None \/ o' = o \/ exists e, o' = Some e /\ ~ has e s).

Fixpoint owning {A} (o : option Z) (p : prog S A) : Prop :=
  match p with
  | Ret _ => True
  | Act f k => forall s, I s -> at_hand o s ->
      I (f s).2 /\ spares o s (f s).2 /\ exists o', handed o o' s (f s).2 /\ owning o' (k (f s).1)
  | Hang => False
  end.

(** A step that keeps the invariant and everything that is there. *)
Definition steady (s s' : S) : Prop := I s' /\ forall e, has e s -> has e s'.

Lemma steady_spares o s s' : steady s s' -> spares o s s'.
Proof. intros [_ H] e He _. by apply H. Qed.

Lemma steady_handed o s s' : steady s s' -> at_hand o s -> handed o o s s'.
Proof. intros [_ H] Ho. split; [|by right; left]. destruct o as [e|]; [by apply H | done]. Qed.

Lemma owning_weaken {A} o (p : prog S A) : owning None p -> owning o p.
Proof.
  destruct p as [a | X f k |]; [done | | done]. intros H s Hs _. destruct (H s Hs Logic.I) as (H1 & H2 & o' & [H3 H4] & H5).
  split_and!; [done | by intros e He _; apply H2 |]. exists o'. split; [split; [done|] | done].
  destruct H4 as [-> | [-> | H4]]; [by left | by left | by right; right].
Qed.

Lemma owning_bind {A B} o (p : prog S A) (k : A -> prog S B) :
  owning o p -> (forall a, owning None (k a)) -> owning o (bind p k).
Proof.
  intros Hp Hk. revert o Hp. induction p as [a | X f g IH |]; intros o Hp; simpl in *; [apply owning_weaken, Hk | | done].
  intros s Hs Ho. destruct (Hp s Hs Ho) as (H1 & H2 & o' & H3 & H4). split_and!; [done..|]. exists o'. split; [done | by apply IH].
Qed.

(** A step that takes nothing away. *)
Lemma owning_step {A X} o (f : S -> X * S) (k : X -> prog S A) :
  (forall s, I s -> steady s (f s).2 /\ owning o (k (f s).1)) -> owning o (Act f k).
Proof.
  intros H s Hs Ho. destruct (H s Hs) as [H1 H2]. split_and!; [apply H1 | by apply steady_spares|].
  exists o. split; [by apply steady_handed | done].
Qed.

Lemma owning_get {A B} o (f : S -> A) (k : A -> prog S B) : (forall s, I s -> owning o (k (f s))) -> owning o (bind (get f) k).
Proof. intros H. apply owning_step. intros s Hs. split; [by split | by apply H]. Qed.

Lemma owning_call {A B} o (f : S -> A * S) (k : A -> prog S B) :
  (forall s, I s -> steady s (f s).2 /\ owning o (k (f s).1)) -> owning o (bind (call f) k).
Proof. intros H. by apply owning_step. Qed.

Lemma owning_then {B} o (f : S -> S) (k : unit -> prog S B) :
  (forall s, I s -> steady s (f s)) -> owning o (k tt) -> owning o (bind (update f) k).
Proof. intros H Hk. apply owning_step. intros s Hs. split; [by apply H | exact Hk]. Qed.

Lemma owning_last_get {A} (f : S -> A) : owning None (get f).
Proof. apply owning_step. by intros s Hs. Qed.

Lemma owning_update (f : S -> S) : (forall s, I s -> steady s (f s)) -> owning None (update f).
Proof. intros H. apply owning_step. intros s Hs. split; [by apply H | done]. Qed.

Lemma owning_last_call {A} (f : S -> A * S) : (forall s, I s -> steady s (f s).2) -> owning None (call f).
Proof. intros H. apply owning_step. intros s Hs. split; [by apply H | done]. Qed.

Lemma owning_for_each {A} (l : list A) body : (forall x, owning None (body x)) -> owning None (for_each l body).
Proof. intros H. induction l as [|x l IH]; [done|]. simpl. by apply owning_bind. Qed.

(** Work on a part of the state that has none of those things in it. *)
Lemma owning_aside {T A} (look : S -> T) (put : T -> S -> S) (J : T -> Prop) (p : prog T A) :
  (forall s, I s -> J (look s)) -> (forall t s, I s -> steady s (put t s)) -> answers J p -> owning None (zoom look put p).
Proof.
  intros Hl Hp. induction p as [a | X f k IH |]; cbn [zoom answers]; [done | | done]. intros H. apply owning_step. intros s Hs.
  destruct (H (look s) (Hl s Hs)) as [Hj Hk]. destruct (f (look s)) as [x t]. split; [by apply Hp | by apply IH].
Qed.

Lemma owning_aside_local {T L A} (look : S -> L -> T) (put : T -> S -> S) (keep : T -> L) (J : T -> Prop) (p : prog T A) l :
  (forall s l, I s -> J (look s l)) -> (forall t s, I s -> steady s (put t s)) -> answers J p -> owning None (zoom_local look put keep p l).
Proof.
  intros Hl Hp. revert l. induction p as [a | X f k IH |]; intros l; cbn [zoom_local answers]; [done | | done]. intros H. apply owning_step. intros s Hs.
  destruct (H (look s l) (Hl s l Hs)) as [Hj Hk]. destruct (f (look s l)) as [x t]. split; [by apply Hp | by apply IH].
Qed.

(** Left alone, it comes to its end. *)
Lemma owning_ends {A} o (p : prog S A) s : owning o p -> I s -> at_hand o s -> ends (fun _ => I) p s.
Proof.
  unfold ends. revert o s; induction p as [a | X f k IH |]; simpl; intros o s H Hs Ho; [done | | done].
  destruct (H s Hs Ho) as (H1 & _ & o' & [H2 _] & H3). destruct (f s) as [x s']. by apply (IH x o').
Qed.

(** ** A pool of owners *)

(** Each thread with what it owns, which is there, and no two of them own the same. *)
Definition owners (c : list (prog S unit) * S) : Prop :=
  I c.2 /\ exists os, Forall2 owning os c.1 /\ Forall (fun o => at_hand o c.2) os /\
    forall i j e, os !! i = Some (Some e) -> os !! j = Some (Some e) -> i = j.

(** The thread [i] takes a step from owning [o] to owning [o']. *)
Lemma owners_step os i o o' s s' :
  os !! i = Some o -> spares o s s' -> handed o o' s s' -> Forall (fun o => at_hand o s) os ->
  (forall i j e, os !! i = Some (Some e) -> os !! j = Some (Some e) -> i = j) ->
  Forall (fun o => at_hand o s') (<[i := o']> os) /\
  forall j k e, <[i := o']> os !! j = Some (Some e) -> <[i := o']> os !! k = Some (Some e) -> j = k.
Proof.
  intros Hi Hspares [Ho' Hnew] Hall Huniq. pose proof (lookup_lt_Some _ _ _ Hi) as Hlen.
  assert (Hother : forall j e, j <> i -> os !! j = Some (Some e) -> has e s /\ o <> Some e).
  { intros j e Hne Hj. split; [exact (Forall_lookup_1 _ _ _ _ Hall Hj)|]. intros ->. by apply Hne, (Huniq j i e). }
  assert (Hmine : forall j e, j <> i -> os !! j = Some (Some e) -> o' <> Some e).
  { intros j e Hne Hj ->. destruct (Hother j e Hne Hj) as [Hh Ho]. destruct Hnew as [? | [? | (e' & [= <-] & ?)]]; [done | congruence | done]. }
  split.
  - apply Forall_lookup. intros j x. destruct (decide (i = j)) as [<- | Hne]; [rewrite list_lookup_insert_eq by done; by intros [= <-]|].
    rewrite list_lookup_insert_ne by done. intros Hj. destruct x as [e|]; [|done]. destruct (Hother j e (not_eq_sym Hne) Hj). by apply Hspares.
  - intros j k e. destruct (decide (i = j)) as [<- | Hj]; destruct (decide (i = k)) as [<- | Hk];
      rewrite ?list_lookup_insert_eq, ?list_lookup_insert_ne by done; intros E1 E2; [done | | | by apply (Huniq j k e)].
    + injection E1 as E1. by destruct (Hmine k e (not_eq_sym Hk) E2).
    + injection E2 as E2. by destruct (Hmine j e (not_eq_sym Hj) E1).
Qed.

Lemma psteps_owning (spawnable : prog S unit -> Prop) c c' :
  (forall p, spawnable p -> owning None p) -> rtc (pstep spawnable) c c' -> owners c -> owners c'.
Proof.
  intros Hspawn. induction 1 as [|c c1 c2 Hstep _ IH]; [done|]. intros H. apply IH. clear IH.
  destruct Hstep as [l s i X f k Hi | l s p Hp]; destruct H as (Hs & os & Hl & Ho & Hu); simpl in *.
  - destruct (Forall2_lookup_r _ _ _ _ _ Hl Hi) as (o & Eo & Hk). simpl in Hk.
    destruct (Hk s Hs (Forall_lookup_1 _ _ _ _ Ho Eo)) as (H1 & H2 & o' & H3 & H4). split; [done|].
    destruct (owners_step os i o o' s (f s).2 Eo H2 H3 Ho Hu) as [H5 H6]. exists (<[i := o']> os).
    split_and!; [by apply Forall2_insert | done | done].
  - split; [done|]. exists (os ++ [None]). split_and!.
    + apply Forall2_app; [done|]. by constructor; [apply Hspawn | constructor].
    + apply Forall_app. split; [done | by constructor].
    + intros i j e E1 E2. apply (Hu i j e); [by apply lookup_app_Some in E1 as [? | [_ [_ [=]]%list_lookup_singleton_Some]]|].
      by apply lookup_app_Some in E2 as [? | [_ [_ [=]]%list_lookup_singleton_Some]].
Qed.

Lemma owners_end c i p : owners c -> c.1 !! i = Some p -> ends (fun _ => I) p c.2.
Proof.
  intros (Hs & os & Hl & Ho & _) Hi. destruct (Forall2_lookup_r _ _ _ _ _ Hl Hi) as (o & Eo & Hk).
  exact (owning_ends o p c.2 Hk Hs (Forall_lookup_1 _ _ _ _ Ho Eo)).
Qed.

End Owning.

(** A thread over a part of the state, where the things are in that part. *)
Lemma owning_zoom {S T A} (I : S -> Prop) has (look : T -> S) (put : S -> T -> T) o (p : prog S A) :
  (forall s t, look (put s t) = s) ->
  owning I has o p -> owning (fun t => I (look t)) (fun e t => has e (look t)) o (zoom look put p).
Proof.
  intros Hl. revert o. induction p as [a | X f k IH |]; intros o; simpl; [done | | done]. intros H t Ht Ho.
  destruct (H (look t) Ht Ho) as (H1 & H2 & o' & H3 & H4). destruct (f (look t)) as [x s] eqn:E. cbn [fst snd] in *.
  rewrite Hl. split_and!; [done | |].
  - intros e He Hne. cbn. rewrite Hl. by apply H2.
  - exists o'. split; [destruct H3 as [H3 H5]; split; [|done] | by apply IH]. destruct o' as [e|]; [cbn; by rewrite Hl | done].
Qed.
