(* ===== verification/StoreApi.v ===== *)
(** * What the handlers ask of the durable store

    The interface between the handlers and [crates/pickle-server/src/store.rs]: one
    operation per query the handlers make.  A statement answers [true] or [false]
    ([Ok] or [Err]), a query [Some] or [None]; either may leave the database
    changed, the state of which is the type [DB].  The handlers are verified
    against any such store; [SqlStore.v] gives the source's own. *)

From S2P Require Export State Prog.

Record History : Type := mkHistory { h_messages : list ChatMessage; h_reached_start : bool }.

Class StoreApi (DB : Type) : Type := {
  db_insert_message : ChatMessage -> DB -> bool * DB;
  db_history : ChannelId -> option MessageId -> Z -> DB -> option History * DB;
  db_insert_role : Role -> DB -> bool * DB;
  db_update_role : Role -> DB -> bool * DB;
  db_delete_role : RoleId -> DB -> bool * DB;
  db_set_role_positions : list (RoleId * Z) -> DB -> bool * DB;
  db_replace_member_roles : Fingerprint -> list RoleId -> DB -> bool * DB;
  db_upsert_overwrite : ChannelId -> Overwrite -> DB -> bool * DB;
  db_delete_overwrite : ChannelId -> OverwriteTarget -> DB -> bool * DB;
  db_insert_channel : Channel -> DB -> bool * DB;
  db_update_channel : Channel -> DB -> bool * DB;
  db_delete_channel : ChannelId -> DB -> bool * DB;
  db_insert_ban : BanEntry -> DB -> bool * DB;
  db_delete_ban : Fingerprint -> DB -> bool * DB;
  db_list_bans : DB -> option (list BanEntry) * DB;
  db_active_ban : Fingerprint -> Z -> DB -> option (option BanEntry) * DB }.

Section Calls.
Context {DB : Type}.

(** One awaited call on the attached store: a step of its own. [err] is what a call through a
    store that is not there would answer; a handler makes the call only after checking. *)
Definition store_step {A} (err : A) (f : DB -> A * DB) (s : Shared DB) : A * Shared DB :=
  match store s with
  | Some d => let '(a, d) := f d in (a, set_store (Some d) s)
  | None => (err, s)
  end.

Definition store_exec (f : DB -> bool * DB) : prog (Shared DB) bool := call (store_step false f).

Definition store_query {A} (f : DB -> option A * DB) : prog (Shared DB) (option A) :=
  call (store_step None f).

Definition has_store (s : Shared DB) : bool := match store s with Some _ => true | None => false end.

End Calls.
