(* ===== verification/SqlStore.v ===== *)
(** * The durable store ([crates/pickle-server/src/store.rs], [migrations/])

    The tables of the two migrations as lists of rows, and every query as the source
    writes it, with the conversions between the wire's unsigned integers and the
    columns' signed ones.  The statements have their SQL meaning; the order in which an
    unordered scan returns rows, and which statements fail, belong to the engine and are
    parameters: the class [SqlOrder] and the stream [faults]. *)

From S2P Require Export StoreApi.

Class SqlOrder : Type := { scan : forall {A : Type}, list A -> list A }.

Class SqlOrderLaws (O : SqlOrder) : Prop := {
  scan_perm A (rows : list A) : scan rows ≡ₚ rows }.

Module RowOrder.
#[export] Instance order : SqlOrder := {| scan := fun _ rows => rows |}.
#[export] Instance order_laws : SqlOrderLaws order.
Proof. by split. Qed.
End RowOrder.

Definition MAX_HISTORY_LIMIT : Z := 200.

(** ** Tables *)

Record MessageRow : Type := mkMessageRow {
  mr_id : Z; mr_channel : Z; mr_author_fingerprint : rstring; mr_author_nickname : rstring;
  mr_sent_at : Z; mr_edited_at : option Z; mr_content : rstring; mr_reply_to : option Z }.

Record RoleRow : Type := mkRoleRow {
  rr_id : Z; rr_name : rstring; rr_position : Z; rr_color : option Z; rr_permissions : Z }.

Record MemberRow : Type := mkMemberRow { gr_fingerprint : rstring; gr_role_id : Z }.

Record OverwriteRow : Type := mkOverwriteRow {
  or_channel : Z; or_kind : Z; or_target : rstring; or_allow : Z; or_deny : Z }.

Record ChannelRow : Type := mkChannelRow {
  cr_id : Z; cr_parent : option Z; cr_name : rstring; cr_topic : rstring; cr_kind : rstring;
  cr_max_users : option Z; cr_sort_order : Z }.

Record BanRow : Type := mkBanRow {
  br_fingerprint : rstring; br_reason : rstring; br_until : option Z; br_issued_by : rstring;
  br_issued_at : Z }.

Record Tables : Type := mkTables {
  t_messages : list MessageRow; t_roles : list RoleRow; t_members : list MemberRow;
  t_overwrites : list OverwriteRow; t_channels : list ChannelRow; t_bans : list BanRow }.

Record Database : Type := mkDb { tables : Tables; faults : list bool }.

Definition empty_tables : Tables := mkTables [] [] [] [] [] [].

Definition set_messages (x : list MessageRow) (t : Tables) : Tables :=
  mkTables x (t_roles t) (t_members t) (t_overwrites t) (t_channels t) (t_bans t).
Definition set_role_rows (x : list RoleRow) (t : Tables) : Tables :=
  mkTables (t_messages t) x (t_members t) (t_overwrites t) (t_channels t) (t_bans t).
Definition set_members (x : list MemberRow) (t : Tables) : Tables :=
  mkTables (t_messages t) (t_roles t) x (t_overwrites t) (t_channels t) (t_bans t).
Definition set_overwrite_rows (x : list OverwriteRow) (t : Tables) : Tables :=
  mkTables (t_messages t) (t_roles t) (t_members t) x (t_channels t) (t_bans t).
Definition set_channel_rows (x : list ChannelRow) (t : Tables) : Tables :=
  mkTables (t_messages t) (t_roles t) (t_members t) (t_overwrites t) x (t_bans t).
Definition set_bans (x : list BanRow) (t : Tables) : Tables :=
  mkTables (t_messages t) (t_roles t) (t_members t) (t_overwrites t) (t_channels t) x.

(** ** Running statements *)

Definition Sql (A : Type) : Type := Database -> option A * Database.

Definition sql_ret {A} (a : A) : Sql A := fun d => (Some a, d).
Definition sql_bind {A B} (m : Sql A) (k : A -> Sql B) : Sql B := fun d =>
  match m d with (Some a, d) => k a d | (None, d) => (None, d) end.

(** One statement: [None] is a constraint it breaks; the engine may also fail it. *)
Definition statement {A} (f : Tables -> option (A * Tables)) : Sql A := fun d =>
  let rest := tail (faults d) in
  if default false (head (faults d)) then (None, mkDb (tables d) rest)
  else match f (tables d) with
       | Some (a, t) => (Some a, mkDb t rest)
       | None => (None, mkDb (tables d) rest)
       end.

Definition exec (f : Tables -> option Tables) : Sql unit :=
  statement (fun t => (fun t' => (tt, t')) <$> f t).
Definition write (f : Tables -> Tables) : Sql unit := exec (fun t => Some (f t)).
Definition query {A} (f : Tables -> A) : Sql A := statement (fun t => Some (f t, t)).

(** [begin], the body, [commit]; the tables go back to what they were if any of it fails. *)
Definition transaction {A} (body : Sql A) : Sql A := fun d =>
  match sql_bind (query (fun _ => tt)) (fun _ =>
          sql_bind body (fun a => sql_bind (query (fun _ => tt)) (fun _ => sql_ret a))) d with
  | (Some a, d') => (Some a, d')
  | (None, d') => (None, mkDb (tables d) (faults d'))
  end.

Fixpoint sql_each {A} (l : list A) (body : A -> Sql unit) : Sql unit :=
  match l with
  | [] => sql_ret tt
  | x :: rest => sql_bind (body x) (fun _ => sql_each rest body)
  end.

(** INSERT on a table whose primary key is [key]: a duplicate key is an error. *)
Definition insert_row {R K} `{EqDecision K} (key : R -> K) (r : R) (rows : list R) : option (list R) :=
  if any (fun r' => bool_decide (key r' = key r)) rows then None else Some (rows ++ [r]).

(** INSERT ... ON CONFLICT (key) DO UPDATE. *)
Definition upsert_row {R K} `{EqDecision K} (key : R -> K) (r : R) (rows : list R) : list R :=
  if any (fun r' => bool_decide (key r' = key r)) rows
  then map (fun r' => if bool_decide (key r' = key r) then r else r') rows
  else rows ++ [r].

(** UPDATE ... WHERE p. *)
Definition update_rows {R} (p : R -> bool) (f : R -> R) (rows : list R) : list R :=
  map (fun r => if p r then f r else r) rows.

(** DELETE ... WHERE p. *)
Definition delete_rows {R} (p : R -> bool) (rows : list R) : list R := retain (fun r => negb (p r)) rows.

(** ** Rows and records *)

Definition i64 (u : Z) : Z := as_signed 64 u.

Definition kind_str (k : ChannelKind) : rstring :=
  match k with Voice => lit "voice" | Text => lit "text" | VoiceAndText => lit "voice_and_text" end.

Definition kind_from_str (raw : rstring) : ChannelKind :=
  if bool_decide (raw = lit "voice") then Voice
  else if bool_decide (raw = lit "text") then Text else VoiceAndText.

(** [str::parse::<u32>]: an optional sign, then digits, without overflow. *)
Fixpoint parse_digits (s : rstring) (acc : Z) : option Z :=
  match s with
  | [] => Some acc
  | c :: rest =>
      if (48 <=? c) && (c <=? 57) then
        let acc := 10 * acc + (c - 48) in
        if u32_max <? acc then None else parse_digits rest acc
      else None
  end.

Definition parse_u32 (s : rstring) : option Z :=
  let body := match s with 43 :: rest => rest | _ => s end in
  match body with [] => None | _ => parse_digits body 0 end.

Section Rows.
Context {C : Crypto}.

Definition overwrite_key (t : OverwriteTarget) : Z * rstring :=
  match t with
  | TRole id => (0, dec id)
  | TMember fp => (1, fp_to_string fp)
  end.

Definition parse_fp (s : rstring) : option Fingerprint :=
  match fp_parse s with inr fp => Some fp | inl _ => None end.

Definition target_of_key (kind : Z) (raw : rstring) : option OverwriteTarget :=
  if kind =? 0 then TRole <$> parse_u32 raw
  else if kind =? 1 then TMember <$> parse_fp raw
  else None.

Definition message_row (m : ChatMessage) : MessageRow :=
  mkMessageRow (i64 (m_id m)) (m_channel m) (fp_to_string (m_author_fingerprint m)) (m_author_nickname m)
    (i64 (m_sent_at m)) (i64 <$> m_edited_at m) (m_content m) (i64 <$> m_reply_to m).

Definition row_to_message (r : MessageRow) : option ChatMessage :=
  fp ← parse_fp (mr_author_fingerprint r);
  Some (mkMessage (wrap 64 (mr_id r)) (wrap 32 (mr_channel r)) None fp (mr_author_nickname r)
    (wrap 64 (mr_sent_at r)) (wrap 64 <$> mr_edited_at r) (mr_content r) (wrap 64 <$> mr_reply_to r) [] []).

Definition role_row (r : Role) : RoleRow :=
  mkRoleRow (role_id r) (role_name r) (role_position r) (role_color r) (i64 (role_perms r)).

Definition row_to_role (r : RoleRow) : Role :=
  mkRole (wrap 32 (rr_id r)) (rr_name r) (wrap 32 <$> rr_color r) (wrap 32 (rr_position r))
    (wrap 64 (rr_permissions r)).

Definition channel_row (c : Channel) : ChannelRow :=
  mkChannelRow (ch_id c) (ch_parent c) (ch_name c) (ch_topic c) (kind_str (ch_kind c))
    (ch_max_users c) (ch_order c).

Definition row_to_channel (r : ChannelRow) : Channel :=
  mkChannel (wrap 32 (cr_id r)) (wrap 32 <$> cr_parent r) (cr_name r) (cr_topic r)
    (kind_from_str (cr_kind r)) (wrap 16 <$> cr_max_users r) (as_signed 32 (cr_sort_order r)) [].

Definition ban_row (b : BanEntry) : BanRow :=
  mkBanRow (fp_to_string (ban_fingerprint b)) (ban_reason b) (i64 <$> ban_until b)
    (fp_to_string (ban_issued_by b)) (i64 (ban_issued_at b)).

Definition row_to_ban (r : BanRow) : option BanEntry :=
  fp ← parse_fp (br_fingerprint r);
  by_fp ← parse_fp (br_issued_by r);
  Some (mkBan fp (br_reason r) (wrap 64 <$> br_until r) by_fp (wrap 64 (br_issued_at r))).

End Rows.

(** ** The queries *)

Section Store.
Context {C : Crypto} {O : SqlOrder}.

(** ORDER BY one integer column, ascending or descending. *)
Definition order_asc {R} (col : R -> Z) (rows : list R) : list R := sort_by_key col rows.
Definition order_desc {R} (col : R -> Z) (rows : list R) : list R := sort_by_key (fun r => - col r) rows.

(** [try_get] and the row readers fail the whole call. *)
Definition decoded {A} (o : option A) : Sql A := fun d => (o, d).

Definition max_id (rows : list MessageRow) : option Z :=
  match map mr_id rows with [] => None | x :: rest => Some (fold_left Z.max rest x) end.

Definition highest_message_id : Sql (option MessageId) :=
  query (fun t => wrap 64 <$> max_id (t_messages t)).

Definition insert_message (m : ChatMessage) : Sql unit :=
  exec (fun t => (fun rows => set_messages rows t) <$> insert_row mr_id (message_row m) (t_messages t)).

Definition history (chan : ChannelId) (before : option MessageId) (limit : Z) : Sql History :=
  let limit := Z.max 1 (Z.min MAX_HISTORY_LIMIT limit) in
  let probe := limit + 1 in
  let wanted r := (mr_channel r =? chan) &&
    match before with Some before => mr_id r <? i64 before | None => true end in
  sql_bind (query (fun t => take (Z.to_nat probe) (order_desc mr_id (retain wanted (scan (t_messages t)))))) (fun rows =>
  let reached_start := Z.of_nat (length rows) <=? limit in
  sql_bind (decoded (mapM row_to_message (take (Z.to_nat limit) rows))) (fun messages =>
  sql_ret (mkHistory (reverse messages) reached_start))).

Definition load_roles : Sql (list Role) :=
  query (fun t => map row_to_role (order_asc rr_position (scan (t_roles t)))).

Definition insert_role (r : Role) : Sql unit :=
  exec (fun t => (fun rows => set_role_rows rows t) <$> insert_row rr_id (role_row r) (t_roles t)).

Definition store_update_role (r : Role) : Sql unit :=
  write (fun t => set_role_rows (update_rows (fun row => rr_id row =? role_id r)
    (fun row => mkRoleRow (rr_id row) (role_name r) (rr_position row) (role_color r) (i64 (role_perms r)))
    (t_roles t)) t).

Definition store_delete_role (role : RoleId) : Sql unit :=
  transaction (
    sql_bind (write (fun t => set_members (delete_rows (fun r => gr_role_id r =? role) (t_members t)) t)) (fun _ =>
    sql_bind (write (fun t => set_overwrite_rows
      (delete_rows (fun r => (or_kind r =? 0) && bool_decide (or_target r = dec role)) (t_overwrites t)) t)) (fun _ =>
    write (fun t => set_role_rows (delete_rows (fun r => rr_id r =? role) (t_roles t)) t)))).

Definition set_role_positions (positions : list (RoleId * Z)) : Sql unit :=
  transaction (sql_each positions (fun '(role, position) =>
    write (fun t => set_role_rows (update_rows (fun r => rr_id r =? role)
      (fun r => mkRoleRow (rr_id r) (rr_name r) position (rr_color r) (rr_permissions r)) (t_roles t)) t))).

Definition member_key (r : MemberRow) : rstring * Z := (gr_fingerprint r, gr_role_id r).

Definition replace_member_roles (fp : Fingerprint) (roles : list RoleId) : Sql unit :=
  transaction (
    sql_bind (write (fun t => set_members
      (delete_rows (fun r => bool_decide (gr_fingerprint r = fp_to_string fp)) (t_members t)) t)) (fun _ =>
    sql_each roles (fun role =>
      exec (fun t => (fun rows => set_members rows t) <$>
        insert_row member_key (mkMemberRow (fp_to_string fp) role) (t_members t))))).

Definition insert_role_member (fp : Fingerprint) (role : RoleId) : Sql unit :=
  write (fun t =>
    match insert_row member_key (mkMemberRow (fp_to_string fp) role) (t_members t) with
    | Some rows => set_members rows t
    | None => t
    end).

Definition overwrite_row_key (r : OverwriteRow) : Z * Z * rstring := (or_channel r, or_kind r, or_target r).

Definition upsert_overwrite (chan : ChannelId) (o : Overwrite) : Sql unit :=
  let '(kind, target) := overwrite_key (ow_target o) in
  write (fun t => set_overwrite_rows
    (upsert_row overwrite_row_key (mkOverwriteRow chan kind target (i64 (ow_allow o)) (i64 (ow_deny o)))
      (t_overwrites t)) t).

Definition delete_overwrite (chan : ChannelId) (target : OverwriteTarget) : Sql unit :=
  let '(kind, key) := overwrite_key target in
  write (fun t => set_overwrite_rows
    (delete_rows (fun r => bool_decide (overwrite_row_key r = (chan, kind, key))) (t_overwrites t)) t).

(** Unreadable rows are skipped. *)
Definition load_role_members : Sql (list (Fingerprint * RoleId)) :=
  query (fun t => omap (fun r => (fun fp => (fp, wrap 32 (gr_role_id r))) <$> parse_fp (gr_fingerprint r))
                    (scan (t_members t))).

Definition row_to_overwrite (r : OverwriteRow) : option (ChannelId * Overwrite) :=
  (fun target => (wrap 32 (or_channel r), mkOverwrite target (wrap 64 (or_allow r)) (wrap 64 (or_deny r))))
    <$> target_of_key (or_kind r) (or_target r).

Definition load_overwrites : Sql (list (ChannelId * Overwrite)) :=
  query (fun t => omap row_to_overwrite (scan (t_overwrites t))).

(** ORDER BY sort_order ASC, id ASC: sorting stably by the second key first. *)
Definition load_channels : Sql (list Channel) :=
  query (fun t => map row_to_channel (order_asc cr_sort_order (order_asc cr_id (scan (t_channels t))))).

Definition insert_channel (c : Channel) : Sql unit :=
  exec (fun t => (fun rows => set_channel_rows rows t) <$> insert_row cr_id (channel_row c) (t_channels t)).

Definition store_update_channel (c : Channel) : Sql unit :=
  write (fun t => set_channel_rows (update_rows (fun r => cr_id r =? ch_id c) (fun _ => channel_row c)
    (t_channels t)) t).

Definition store_delete_channel (chan : ChannelId) : Sql unit :=
  transaction (
    sql_bind (write (fun t => set_overwrite_rows (delete_rows (fun r => or_channel r =? chan) (t_overwrites t)) t)) (fun _ =>
    write (fun t => set_channel_rows (delete_rows (fun r => cr_id r =? chan) (t_channels t)) t))).

Definition insert_ban (b : BanEntry) : Sql unit :=
  write (fun t => set_bans (upsert_row br_fingerprint (ban_row b) (t_bans t)) t).

Definition delete_ban (fp : Fingerprint) : Sql unit :=
  write (fun t => set_bans (delete_rows (fun r => bool_decide (br_fingerprint r = fp_to_string fp)) (t_bans t)) t).

Definition store_list_bans : Sql (list BanEntry) :=
  sql_bind (query (fun t => order_desc br_issued_at (scan (t_bans t)))) (fun rows => decoded (mapM row_to_ban rows)).

Definition active_ban (fp : Fingerprint) (now : Z) : Sql (option BanEntry) :=
  sql_bind (query (fun t => find (fun r => bool_decide (br_fingerprint r = fp_to_string fp)) (scan (t_bans t)))) (fun row =>
  match row with
  | None => sql_ret None
  | Some row =>
      sql_bind (decoded (row_to_ban row)) (fun b =>
      match ban_until b with
      | Some until => if until <=? now then sql_ret None else sql_ret (Some b)
      | None => sql_ret (Some b)
      end)
  end).

(** [DELETE] answering how many rows went. *)
Definition delete_messages (p : MessageRow -> bool) : Sql Z :=
  statement (fun t => Some (Z.of_nat (length (retain p (t_messages t))),
                            set_messages (delete_rows p (t_messages t)) t)).

Definition prune_before (cutoff : Z) : Sql Z := delete_messages (fun r => mr_sent_at r <? i64 cutoff).

Definition prune_channel (keep chan : Z) (removed : Z) : Sql Z :=
  sql_bind (query (fun t => mr_id <$> (order_desc mr_id (retain (fun r => mr_channel r =? chan) (scan (t_messages t))))
                                       !! Z.to_nat keep)) (fun cutoff =>
  match cutoff with
  | None => sql_ret removed
  | Some cutoff =>
      sql_bind (delete_messages (fun r => (mr_channel r =? chan) && (mr_id r <=? cutoff))) (fun n =>
      sql_ret (removed + n))
  end).

Definition prune_to_limit (keep : Z) : Sql Z :=
  sql_bind (query (fun t => remove_dups (map mr_channel (scan (t_messages t))))) (fun chans =>
  fold_left (fun acc chan => sql_bind acc (prune_channel keep chan)) chans (sql_ret 0)).

Definition message_count : Sql Z := query (fun t => wrap 64 (Z.of_nat (length (t_messages t)))).

(** The store as the handlers see it. *)
Definition succeeds (q : Sql unit) (d : Database) : bool * Database :=
  match q d with (Some _, d) => (true, d) | (None, d) => (false, d) end.

#[global] Instance sql_store : StoreApi Database := {|
  db_insert_message m := succeeds (insert_message m);
  db_history := history;
  db_insert_role r := succeeds (insert_role r);
  db_update_role r := succeeds (store_update_role r);
  db_delete_role id := succeeds (store_delete_role id);
  db_set_role_positions ps := succeeds (set_role_positions ps);
  db_replace_member_roles fp roles := succeeds (replace_member_roles fp roles);
  db_upsert_overwrite chan o := succeeds (upsert_overwrite chan o);
  db_delete_overwrite chan t := succeeds (delete_overwrite chan t);
  db_insert_channel c := succeeds (insert_channel c);
  db_update_channel c := succeeds (store_update_channel c);
  db_delete_channel id := succeeds (store_delete_channel id);
  db_insert_ban b := succeeds (insert_ban b);
  db_delete_ban fp := succeeds (delete_ban fp);
  db_list_bans := store_list_bans;
  db_active_ban := active_ban |}.

End Store.

(** * Lemmas *)

(** ** Statements *)

Lemma statement_inv {A} (f : Tables -> option (A * Tables)) d a d' :
  statement f d = (Some a, d') ->
  f (tables d) = Some (a, tables d') /\ faults d' = tail (faults d).
Proof.
  unfold statement. destruct (default false (head (faults d))); [done|].
  destruct (f (tables d)) as [[b t]|]; [|done]. by intros [= -> <-].
Qed.

Lemma statement_failed {A} (f : Tables -> option (A * Tables)) d d' :
  statement f d = (None, d') -> tables d' = tables d.
Proof.
  unfold statement. destruct (default false (head (faults d))); [by intros [= <-]|].
  destruct (f (tables d)) as [[b t]|]; [done|]. by intros [= <-].
Qed.

Lemma exec_inv (f : Tables -> option Tables) d u d' :
  exec f d = (Some u, d') -> f (tables d) = Some (tables d').
Proof.
  intros H. apply statement_inv in H as [H _]. destruct (f (tables d)) as [t|]; simplify_eq/=. done.
Qed.

Lemma write_inv f d u d' : write f d = (Some u, d') -> tables d' = f (tables d).
Proof. intros H. apply exec_inv in H. by injection H. Qed.

Lemma query_inv {A} (f : Tables -> A) d a d' :
  query f d = (Some a, d') -> a = f (tables d) /\ tables d' = tables d.
Proof. intros H. apply statement_inv in H as [H _]. simplify_eq. auto. Qed.

Lemma sql_bind_inv {A B} (m : Sql A) (k : A -> Sql B) d b d' :
  sql_bind m k d = (Some b, d') -> exists a d1, m d = (Some a, d1) /\ k a d1 = (Some b, d').
Proof. unfold sql_bind. destruct (m d) as [[a|] d1]; [eauto | done]. Qed.

Lemma transaction_inv {A} (body : Sql A) d a d' :
  transaction body d = (Some a, d') ->
  exists d1 d2, tables d1 = tables d /\ body d1 = (Some a, d2) /\ tables d' = tables d2.
Proof.
  unfold transaction. intros H. destruct (sql_bind _ _ d) as [[b|] d3] eqn:E; [|done].
  injection H as -> ->.
  apply sql_bind_inv in E as (? & d1 & H1 & E). apply sql_bind_inv in E as (b & d2 & H2 & E).
  apply sql_bind_inv in E as (? & d4 & H3 & E). injection E as <- <-.
  apply query_inv in H1 as [_ H1]. apply query_inv in H3 as [_ H3]. exists d1, d2. auto.
Qed.

(** A transaction that fails leaves the tables as they were. *)
Lemma transaction_failed {A} (body : Sql A) d d' :
  transaction body d = (None, d') -> tables d' = tables d.
Proof. unfold transaction. destruct (sql_bind _ _ d) as [[b|] d3]; [done|]. by intros [= <-]. Qed.

(** ** Integers in columns *)

Lemma as_signed_id w z : 0 < w -> 0 <= z < 2 ^ (w - 1) -> as_signed w z = z.
Proof.
  intros Hw Hz. assert (2 ^ w = 2 * 2 ^ (w - 1)) by (rewrite <- Z.pow_succ_r by lia; f_equal; lia).
  unfold as_signed. rewrite wrap_id by (unfold fits; lia). destruct (Z.ltb_spec z (2 ^ (w - 1))); lia.
Qed.

Lemma wrap_as_signed w z : 0 <= w -> wrap w (as_signed w z) = wrap w z.
Proof.
  intros Hw. unfold as_signed, wrap. destruct (_ <? _); [by rewrite Zmod_mod|].
  rewrite Zminus_mod, Z_mod_same_full, Z.sub_0_r, !Zmod_mod. done.
Qed.

Lemma wrap_i64 z : fits 64 z -> wrap 64 (i64 z) = z.
Proof. intros H. unfold i64. rewrite wrap_as_signed by lia. by apply wrap_id. Qed.

(** ** Decimal text *)

Lemma digits_app fuel n acc : digits fuel n acc = digits fuel n [] ++ acc.
Proof.
  revert n acc; induction fuel as [|f IH]; intros n acc; simpl; [done|].
  destruct (n <? 10); [done|]. rewrite IH, (IH _ [_]), <- app_assoc. done.
Qed.

Lemma parse_digits_app s c acc :
  parse_digits (s ++ [c]) acc =
  match parse_digits s acc with
  | Some v => parse_digits [c] v
  | None => None
  end.
Proof.
  revert acc; induction s as [|d s IH]; intros acc; [done|]. simpl app. simpl parse_digits at 1 2.
  destruct ((48 <=? d) && (d <=? 57)); [|done].
  destruct (u32_max <? _); [done|]. apply IH.
Qed.

Lemma parse_digits_digits fuel n :
  0 <= n < 10 ^ Z.of_nat fuel -> n <= u32_max -> (0 < fuel)%nat ->
  parse_digits (digits fuel n []) 0 = Some n.
Proof.
  revert n; induction fuel as [|f IH]; intros n Hn Hm Hf; [lia|].
  assert (Hlast : forall v m, v = 10 * m + n mod 10 -> v <= u32_max -> parse_digits [48 + n mod 10] m = Some v).
  { intros v m -> Hv. pose proof (Z.mod_pos_bound n 10 ltac:(lia)). simpl.
    replace (48 <=? 48 + n mod 10) with true by (symmetry; apply Z.leb_le; lia).
    replace (48 + n mod 10 <=? 57) with true by (symmetry; apply Z.leb_le; lia).
    replace (10 * m + (48 + n mod 10 - 48)) with (10 * m + n mod 10) by lia. simpl andb.
    destruct (Z.ltb_spec u32_max (10 * m + n mod 10)); [lia | done]. }
  simpl digits. destruct (Z.ltb_spec n 10) as [Hlt|Hge].
  - apply Hlast; [|lia]. rewrite Z.mod_small by lia. lia.
  - rewrite digits_app, parse_digits_app.
    pose proof (Z.div_mod n 10 ltac:(lia)). pose proof (Z.mod_pos_bound n 10 ltac:(lia)).
    rewrite Nat2Z.inj_succ, Z.pow_succ_r in Hn by lia.
    rewrite IH; [apply Hlast; lia | | | ].
    + split; [apply Z.div_pos; lia | apply Z.div_lt_upper_bound; lia].
    + lia.
    + destruct f; [simpl in Hn; lia | lia].
Qed.

Lemma digits_head fuel n acc : 0 <= n -> (0 < fuel)%nat ->
  exists c rest, digits fuel n acc = c :: rest /\ 48 <= c <= 57.
Proof.
  revert n acc; induction fuel as [|f IH]; intros n acc Hn Hf; [lia|].
  pose proof (Z.mod_pos_bound n 10 ltac:(lia)). simpl.
  destruct (n <? 10); [eexists _, _; split; [done | lia]|].
  destruct f as [|f]; [eexists _, _; split; [done | lia]|]. apply IH; [apply Z.div_pos; lia | lia].
Qed.

Lemma parse_u32_dec n : fits 32 n -> parse_u32 (dec n) = Some n.
Proof.
  unfold fits. intros Hn. unfold parse_u32, dec.
  destruct (digits_head 20 n [] ltac:(lia) ltac:(lia)) as (c & rest & E & Hc).
  assert (Hbody : match digits 20 n [] with 43 :: rest => rest | _ => digits 20 n [] end = digits 20 n []).
  { rewrite E. destruct (Z.eq_dec c 43); [lia|]. destruct c as [|p|p]; try lia.
    repeat (destruct p as [p|p|]; try done; try lia). }
  rewrite Hbody, E, <- E. apply parse_digits_digits; unfold u32_max; lia.
Qed.

(** ** Rows *)

Section RowFacts.
Context {C : Crypto} {CL : CryptoLaws C}.

(** Records whose fields are machine integers of the widths the source declares. *)
Definition message_fits (m : ChatMessage) : Prop :=
  fits 64 (m_id m) /\ fits 32 (m_channel m) /\ wf_fp (m_author_fingerprint m) /\ fits 64 (m_sent_at m) /\
  (forall t, m_edited_at m = Some t -> fits 64 t) /\ (forall t, m_reply_to m = Some t -> fits 64 t).

Definition role_fits (r : Role) : Prop :=
  fits 32 (role_id r) /\ fits 32 (role_position r) /\ (forall c, role_color r = Some c -> fits 32 c) /\
  fits 64 (role_perms r).

Definition channel_fits (c : Channel) : Prop :=
  fits 32 (ch_id c) /\ (forall p, ch_parent c = Some p -> fits 32 p) /\
  (forall m, ch_max_users c = Some m -> fits 16 m) /\ - 2 ^ 31 <= ch_order c < 2 ^ 31.

Definition ban_fits (b : BanEntry) : Prop :=
  wf_fp (ban_fingerprint b) /\ wf_fp (ban_issued_by b) /\ (forall t, ban_until b = Some t -> fits 64 t) /\
  fits 64 (ban_issued_at b).

Definition target_fits (t : OverwriteTarget) : Prop :=
  match t with TRole id => fits 32 id | TMember fp => wf_fp fp end.

Definition overwrite_fits (o : Overwrite) : Prop :=
  target_fits (ow_target o) /\ fits 64 (ow_allow o) /\ fits 64 (ow_deny o).

Lemma parse_fp_to_string fp : wf_fp fp -> parse_fp (fp_to_string fp) = Some fp.
Proof. intros H. unfold parse_fp. by rewrite fp_roundtrip. Qed.

Lemma option_wrap_i64 (o : option Z) : (forall t, o = Some t -> fits 64 t) -> wrap 64 <$> (i64 <$> o) = o.
Proof. destruct o; simpl; [|done]. intros H. by rewrite wrap_i64 by auto. Qed.

Lemma option_wrap w (o : option Z) : (forall t, o = Some t -> fits w t) -> wrap w <$> o = o.
Proof. destruct o; simpl; [|done]. intros H. by rewrite wrap_id by auto. Qed.

Lemma kind_roundtrip k : kind_from_str (kind_str k) = k.
Proof. by destruct k. Qed.

Lemma signed_32 z : - 2 ^ 31 <= z < 2 ^ 31 -> as_signed 32 z = z.
Proof.
  intros Hz. unfold as_signed, wrap. destruct (Z.le_gt_cases 0 z) as [Hp|Hn].
  - rewrite Z.mod_small by lia. destruct (Z.ltb_spec z (2 ^ (32 - 1))); lia.
  - replace (z mod 2 ^ 32) with (z + 2 ^ 32) by (apply (Z.mod_unique _ _ (-1)); lia).
    destruct (Z.ltb_spec (z + 2 ^ 32) (2 ^ (32 - 1))); lia.
Qed.

Lemma message_roundtrip m :
  message_fits m ->
  row_to_message (message_row m) =
  Some (mkMessage (m_id m) (m_channel m) None (m_author_fingerprint m) (m_author_nickname m) (m_sent_at m)
          (m_edited_at m) (m_content m) (m_reply_to m) [] []).
Proof.
  intros (Hi & Hc & Hf & Hs & He & Hr). unfold row_to_message, message_row. simpl.
  rewrite parse_fp_to_string by done. simpl.
  by rewrite !wrap_i64, wrap_id, !option_wrap_i64 by done.
Qed.

Lemma role_roundtrip r : role_fits r -> row_to_role (role_row r) = r.
Proof.
  intros (Hi & Hp & Hc & Hb). unfold row_to_role, role_row. simpl.
  rewrite !wrap_id, option_wrap, wrap_i64 by done. by destruct r.
Qed.

Lemma channel_roundtrip c : channel_fits c -> row_to_channel (channel_row c) = set_overwrites [] c.
Proof.
  intros (Hi & Hp & Hm & Ho). unfold row_to_channel, channel_row, set_overwrites. simpl.
  by rewrite wrap_id, !option_wrap, kind_roundtrip, signed_32 by done.
Qed.

Lemma ban_roundtrip b : ban_fits b -> row_to_ban (ban_row b) = Some b.
Proof.
  intros (Hf & Hb & Hu & Ha). unfold row_to_ban, ban_row. simpl.
  rewrite parse_fp_to_string by done. simpl. rewrite parse_fp_to_string by done. simpl.
  rewrite option_wrap_i64, wrap_i64 by done. by destruct b.
Qed.

Lemma target_roundtrip t :
  target_fits t -> target_of_key (overwrite_key t).1 (overwrite_key t).2 = Some t.
Proof.
  destruct t as [id | fp]; simpl; intros H; unfold target_of_key; simpl.
  - by rewrite parse_u32_dec.
  - by rewrite parse_fp_to_string.
Qed.

Lemma overwrite_roundtrip chan o :
  fits 32 chan -> overwrite_fits o ->
  row_to_overwrite (mkOverwriteRow chan (overwrite_key (ow_target o)).1 (overwrite_key (ow_target o)).2
                      (i64 (ow_allow o)) (i64 (ow_deny o))) = Some (chan, o).
Proof.
  intros Hc (Ht & Ha & Hd). unfold row_to_overwrite. simpl or_kind. simpl or_target.
  rewrite target_roundtrip by done. simpl. rewrite !wrap_i64, wrap_id by done. by destruct o.
Qed.

End RowFacts.

(** ** Sorting *)

Lemma take_drop_sorted {A} (R : A -> A -> Prop) n (l : list A) :
  StronglySorted R l -> StronglySorted R (take n l) /\ StronglySorted R (drop n l).
Proof.
  revert l; induction n as [|n IH]; intros l Hl; [simpl; rewrite drop_0; split; [constructor | done]|].
  destruct l as [|x l]; simpl; [split; constructor|].
  apply StronglySorted_inv in Hl as [Hl Hx]. destruct (IH l Hl). split; [|done].
  constructor; [done | by apply Forall_take].
Qed.

Lemma StronglySorted_reverse {A} (R : A -> A -> Prop) (l : list A) :
  StronglySorted R l -> StronglySorted (fun x y => R y x) (reverse l).
Proof.
  induction 1 as [|x l Hl IH Hx]; [constructor|]. rewrite reverse_cons.
  apply StronglySorted_app. split_and!; [| done | by repeat constructor].
  intros y z Hy Hz. apply list_elem_of_singleton in Hz as ->. rewrite elem_of_reverse in Hy.
  by apply (proj1 (Forall_forall _ _) Hx).
Qed.

Section Keys.
Context {O : SqlOrder} {OL : SqlOrderLaws O}.

(** Looking up by key after writing the key: whatever the scan order, the row written. *)
Lemma find_upserted {R K} `{EqDecision K} (key : R -> K) r rows :
  find (fun r' => bool_decide (key r' = key r)) (scan (upsert_row key r rows)) = Some r.
Proof.
  assert (Hin : r ∈ upsert_row key r rows).
  { unfold upsert_row. destruct (any _ rows) eqn:E; [|apply elem_of_app; right; by left].
    apply any_true in E as (r' & Hr' & Hk). apply list_elem_of_fmap. exists r'. by rewrite Hk. }
  assert (Honly : forall r', r' ∈ upsert_row key r rows -> key r' = key r -> r' = r).
  { unfold upsert_row. intros r'. destruct (any _ rows) eqn:E.
    - intros (r0 & -> & Hr0)%list_elem_of_fmap. case_bool_decide; [done | congruence].
    - intros [Hr' | Hr']%elem_of_app Hk; [|by apply list_elem_of_singleton in Hr'].
      pose proof (proj1 (any_false _ _) E r' Hr') as Hb. apply bool_decide_eq_false in Hb. congruence. }
  destruct (find _ (scan _)) as [r'|] eqn:E.
  - apply find_some in E as [Hr' Hk]. apply bool_decide_eq_true in Hk. f_equal. apply Honly; [|done].
    by rewrite <- (scan_perm _ (upsert_row key r rows)).
  - rewrite <- (scan_perm _ (upsert_row key r rows)) in Hin.
    pose proof (proj1 (find_none _ _) E r Hin) as Hb. by apply bool_decide_eq_false in Hb.
Qed.

Lemma find_deleted {R} (p : R -> bool) rows : find p (scan (delete_rows p rows)) = None.
Proof.
  apply find_none. intros r Hr. rewrite (scan_perm _ (delete_rows p rows)) in Hr.
  apply elem_of_retain in Hr as [_ Hr]. by apply negb_true_iff in Hr.
Qed.

End Keys.

Lemma mapM_reverse {A B} (f : A -> option B) l k : mapM f l = Some k -> mapM f (reverse l) = Some (reverse k).
Proof. rewrite !mapM_Some. apply Forall2_reverse. Qed.

Lemma StronglySorted_impl {A} (R S : A -> A -> Prop) l :
  (forall x y, R x y -> S x y) -> StronglySorted R l -> StronglySorted S l.
Proof. intros H. induction 1; constructor; [done|]. eapply Forall_impl; eauto. Qed.

Lemma order_desc_reverse {R} (col : R -> Z) rows : StronglySorted (by_key col) (reverse (sort_by_key (fun r => - col r) rows)).
Proof.
  eapply StronglySorted_impl; [|apply StronglySorted_reverse, sort_by_key_sorted].
  unfold by_key. intros x y H. lia.
Qed.

(** ** Properties *)

Section Properties.
Context {C : Crypto} {CL : CryptoLaws C} {O : SqlOrder} {OL : SqlOrderLaws O}.

(** What the store writes it reads back: a message (without the connection that sent
    it), a role, a channel (whose overwrites are joined separately), a ban and an overwrite of
    either kind come out of their rows as they went in, for every value of their integer
    widths, although the columns are signed and the overwrite's target is text. *)
Theorem rows_roundtrip m r c b o :
  message_fits m -> role_fits r -> channel_fits c -> ban_fits b -> overwrite_fits o ->
  row_to_message (message_row m) =
    Some (mkMessage (m_id m) (m_channel m) None (m_author_fingerprint m) (m_author_nickname m) (m_sent_at m)
            (m_edited_at m) (m_content m) (m_reply_to m) [] [])
  /\ row_to_role (role_row r) = r
  /\ row_to_channel (channel_row c) = set_overwrites [] c
  /\ row_to_ban (ban_row b) = Some b
  /\ row_to_overwrite (mkOverwriteRow (ch_id c) (overwrite_key (ow_target o)).1 (overwrite_key (ow_target o)).2
                        (i64 (ow_allow o)) (i64 (ow_deny o))) = Some (ch_id c, o).
Proof.
  intros Hm Hr Hc Hb Ho. split_and!.
  - by apply message_roundtrip.
  - by apply role_roundtrip.
  - by apply channel_roundtrip.
  - by apply ban_roundtrip.
  - apply overwrite_roundtrip; [exact (proj1 Hc) | done].
Qed.

(** What [history] is asked for: the channel's messages below [before]. *)
Definition in_page (chan : ChannelId) (before : option MessageId) (r : MessageRow) : bool :=
  (mr_channel r =? chan) && match before with Some b => mr_id r <? b | None => true end.

(** A page of history is the newest [limit] messages of the channel below [before]
    (between 1 and 200 of them however many are asked for), oldest first, and says it has
    reached the start exactly when no older message exists, so paging back by the oldest id
    received visits every message. *)
Theorem history_page chan before limit d page d' :
  history chan before limit d = (Some page, d') ->
  (forall b, before = Some b -> 0 <= b < 2 ^ 63) ->
  exists older newer,
    older ++ newer ≡ₚ retain (in_page chan before) (t_messages (tables d))
    /\ StronglySorted (by_key mr_id) (older ++ newer)
    /\ mapM row_to_message newer = Some (h_messages page)
    /\ Z.of_nat (length newer) =
         Z.min (Z.of_nat (length (older ++ newer))) (Z.max 1 (Z.min MAX_HISTORY_LIMIT limit))
    /\ (h_reached_start page = true <-> older = []).
Proof.
  intros H Hb. unfold history in H. set (lim := Z.max 1 (Z.min MAX_HISTORY_LIMIT limit)) in *.
  apply sql_bind_inv in H as (rows & d1 & Hrows & H). apply query_inv in Hrows as [Hrows _].
  apply sql_bind_inv in H as (ms & d2 & Hms & H). unfold decoded in Hms.
  injection Hms as Hms <-. injection H as <- <-.
  assert (Hp : forall t, retain (fun r => (mr_channel r =? chan) &&
            match before with Some b => mr_id r <? i64 b | None => true end) t = retain (in_page chan before) t).
  { intros t. apply list_filter_iff. intros r. unfold in_page. destruct before as [b|]; [|done].
    unfold i64. rewrite as_signed_id by (specialize (Hb b eq_refl); lia). done. }
  rewrite Hp in Hrows. clear Hp Hb.
  set (sorted := order_desc mr_id _) in Hrows. simpl h_messages. simpl h_reached_start.
  assert (Hperm : sorted ≡ₚ retain (in_page chan before) (t_messages (tables d))).
  { unfold sorted, order_desc. rewrite sort_by_key_perm. unfold retain. by rewrite (scan_perm _ _). }
  assert (Htake : take (Z.to_nat lim) rows = take (Z.to_nat lim) sorted).
  { rewrite Hrows, take_take. f_equal. lia. }
  rewrite Htake in Hms.
  exists (reverse (drop (Z.to_nat lim) sorted)), (reverse (take (Z.to_nat lim) sorted)).
  rewrite <- reverse_app, take_drop. split_and!.
  - rewrite reverse_Permutation. done.
  - apply order_desc_reverse.
  - by apply mapM_reverse.
  - rewrite !length_reverse, length_take. lia.
  - rewrite Hrows, length_take, Z.leb_le. split.
    + intros Hle. rewrite drop_ge by lia. done.
    + intros E. apply (f_equal length) in E. rewrite length_reverse, length_drop in E. simpl in E. lia.
Qed.

(** What a lookup at [now] makes of a ban. *)
Definition lapsing (b : BanEntry) (now : Z) : option BanEntry :=
  match ban_until b with Some t => if t <=? now then None else Some b | None => Some b end.

(** A lookup finds the ban that was written last, for as long as it has not lapsed. *)
Lemma active_ban_upserted b rows now d found d2 :
  ban_fits b -> t_bans (tables d) = upsert_row br_fingerprint (ban_row b) rows ->
  active_ban (ban_fingerprint b) now d = (Some found, d2) -> found = lapsing b now.
Proof.
  intros Hfits Hrows H. unfold active_ban in H. apply sql_bind_inv in H as (row & d3 & Hq & H).
  apply query_inv in Hq as [-> _]. rewrite Hrows in H.
  change (fp_to_string (ban_fingerprint b)) with (br_fingerprint (ban_row b)) in H.
  rewrite find_upserted in H.
  apply sql_bind_inv in H as (b' & d4 & Hd & H). unfold decoded in Hd. rewrite ban_roundtrip in Hd by done.
  injection Hd as <- <-. unfold lapsing. destruct (ban_until b) as [t|]; [destruct (t <=? now)|]; by injection H.
Qed.

(** And a database without faults answers. *)
Lemma active_ban_answers b rows now d :
  faults d = [] -> ban_fits b -> t_bans (tables d) = upsert_row br_fingerprint (ban_row b) rows ->
  active_ban (ban_fingerprint b) now d = (Some (lapsing b now), d).
Proof.
  intros Hf Hfits Hrows. destruct d as [t fs]. simpl in *. subst fs.
  unfold active_ban, sql_bind, query, statement. cbn [faults head tail default tables]. rewrite Hrows.
  change (fp_to_string (ban_fingerprint b)) with (br_fingerprint (ban_row b)). rewrite find_upserted.
  unfold decoded. rewrite ban_roundtrip by done. unfold lapsing.
  by destruct (ban_until b) as [u|]; [destruct (u <=? now)|].
Qed.

(** A ban that was saved is enforced until it lapses or is lifted: the lookup the
    handshake makes answers with it, unless the database itself fails, for as long as its
    expiry lies ahead; once lifted, no lookup finds a ban. *)
Theorem bans_are_enforced b now u d d1 :
  ban_fits b -> insert_ban b d = (Some u, d1) ->
  (forall found d2, active_ban (ban_fingerprint b) now d1 = (Some found, d2) ->
     found = lapsing b now)
  /\ (forall v d2 found d3, delete_ban (ban_fingerprint b) d1 = (Some v, d2) ->
     active_ban (ban_fingerprint b) now d2 = (Some found, d3) -> found = None).
Proof.
  intros Hfits Hins. apply write_inv in Hins. split.
  - intros found d2 H. eapply active_ban_upserted; [exact Hfits | by rewrite Hins | exact H].
  - intros v d2 found d3 Hdel H. apply write_inv in Hdel. unfold active_ban in H.
    apply sql_bind_inv in H as (row & d4 & Hq & H). apply query_inv in Hq as [-> _].
    rewrite Hdel in H. cbn [t_bans set_bans] in H. rewrite find_deleted in H. by injection H.
Qed.

End Properties.

(** A cursor past the largest signed integer turns negative on its way into the query: the
    page is empty and claims to be the start, although every message lies below it. *)
Lemma huge_cursor_hides_history {C : Crypto} {O : SqlOrder} {OL : SqlOrderLaws O} chan before limit d page d' :
  2 ^ 63 <= before < 2 ^ 64 -> Forall (fun r => 0 <= mr_id r) (t_messages (tables d)) ->
  history chan (Some before) limit d = (Some page, d') ->
  h_messages page = [] /\ h_reached_start page = true.
Proof.
  intros Hb Hids H. unfold history in H.
  apply sql_bind_inv in H as (rows & d1 & Hrows & H). apply query_inv in Hrows as [Hrows _].
  apply sql_bind_inv in H as (ms & d2 & Hms & H). unfold decoded in Hms.
  injection Hms as Hms <-. injection H as <- <-.
  assert (Hi : i64 before < 0).
  { unfold i64, as_signed. rewrite wrap_id by (unfold fits; lia). destruct (Z.ltb_spec before (2 ^ (64 - 1))); lia. }
  assert (Hnone : retain (fun r => (mr_channel r =? chan) && (mr_id r <? i64 before)) (scan (t_messages (tables d))) = []).
  { destruct (retain _ _) as [|r l] eqn:E; [done|]. assert (Hr : r ∈ r :: l) by left.
    rewrite <- E in Hr. apply elem_of_retain in Hr as [Hr Hlt]. rewrite (scan_perm _ (t_messages _)) in Hr.
    apply (proj1 (Forall_forall _ _) Hids) in Hr. bool_props. lia. }
  rewrite Hnone in Hrows. simpl in Hrows. rewrite take_nil in Hrows. subst rows. simpl in *.
  rewrite take_nil in Hms. injection Hms as <-. split; [done|]. apply Z.leb_le. lia.
Qed.

(** ** Witnesses *)

#[local] Existing Instances Toy.crypto Toy.crypto_laws RowOrder.order RowOrder.order_laws.

Definition sample_fp : Fingerprint := mkFp (replicate 32 7).
Definition sample_message (id : Z) : ChatMessage :=
  mkMessage id 3 (Some 1) sample_fp (lit "alice") 1000 None (lit "hello") (Some (2 ^ 63 + 5)) [] [].
Definition sample_ban : BanEntry := mkBan sample_fp (lit "spam") (Some 2000) sample_fp 1000.
Definition empty_db : Database := mkDb empty_tables [].
Definition sample_db : Database :=
  (sql_bind (insert_message (sample_message 1)) (fun _ =>
   sql_bind (insert_message (sample_message 2)) (fun _ => insert_message (sample_message 4))) empty_db).2.

Lemma wf_sample_fp : wf_fp sample_fp.
Proof. split; [reflexivity | apply Forall_replicate; unfold is_byte; lia]. Qed.

Lemma rows_roundtrip_witness :
  row_to_ban (ban_row sample_ban) = Some sample_ban.
Proof.
  assert (F := wf_sample_fp).
  apply (rows_roundtrip (sample_message (2 ^ 64 - 1)) (mkRole 5 (lit "r") (Some 7) 2 (2 ^ 63))
    (mkChannel 3 (Some 1) (lit "a") [] Text (Some 4) (-2) []) sample_ban (mkOverwrite (TRole 12) 0 4)).
  - unfold message_fits. simpl. split_and!; auto; try (by (unfold fits; lia)); intros t [= <-]; unfold fits; lia.
  - unfold role_fits. simpl. split_and!; try (by (unfold fits; lia)). intros t [= <-]. unfold fits; lia.
  - unfold channel_fits. simpl. split_and!; try (by (unfold fits; lia)); intros t [= <-]; unfold fits; lia.
  - unfold ban_fits. simpl. split_and!; auto; try (by (unfold fits; lia)). intros t [= <-]. unfold fits; lia.
  - unfold overwrite_fits. simpl. split_and!; unfold fits; lia.
Defined.

Lemma history_page_witness :
  exists older newer,
    older ++ newer ≡ₚ retain (in_page 3 (Some 3)) (t_messages (tables sample_db))
    /\ StronglySorted (by_key mr_id) (older ++ newer)
    /\ mapM row_to_message newer = Some (h_messages (mkHistory
         [mkMessage 2 3 None sample_fp (lit "alice") 1000 None (lit "hello") (Some (2 ^ 63 + 5)) [] []] false))
    /\ Z.of_nat (length newer) = Z.min (Z.of_nat (length (older ++ newer))) (Z.max 1 (Z.min MAX_HISTORY_LIMIT 1))
    /\ (false = true <-> older = []).
Proof.
  eapply (history_page 3 (Some 3) 1 sample_db).
  - vm_compute. reflexivity.
  - intros b [= <-]. lia.
Defined.

Lemma bans_are_enforced_witness :
  fst (active_ban sample_fp 1500 (snd (insert_ban sample_ban empty_db))) = Some (Some sample_ban).
Proof.
  assert (F := wf_sample_fp).
  destruct (bans_are_enforced sample_ban 1500 tt empty_db (snd (insert_ban sample_ban empty_db))) as [H _].
  - unfold ban_fits. simpl. split_and!; auto; try (by (unfold fits; lia)). intros t [= <-]. unfold fits; lia.
  - reflexivity.
  - rewrite (surjective_pairing (active_ban _ _ _)). simpl fst.
    rewrite (H (Some sample_ban) (snd (active_ban sample_fp 1500 (snd (insert_ban sample_ban empty_db)))));
      [reflexivity | vm_compute; reflexivity].
Defined.
