(* ===== verification/Moderation.v ===== *)
(** * Moderation commands ([crates/pickle-server/src/moderation.rs])

    Kick, ban, unban, list bans, server mute and move: the permission bit, then
    the hierarchy, then the effect, and an [Ack] or [CommandFailed] by nonce. *)

From S2P Require Export StoreApi.
Open Scope prog_scope.

Definition CLOSE_KICKED : Z := 3.
Definition CLOSE_BANNED : Z := 4.

Section Moderation.
Context {C : Crypto} {HO : HashOrder} {DB : Type} {ST : StoreApi DB}.

Definition ack (actor : ClientId) (nonce : Z) : prog (Shared DB) unit :=
  update (fun s => send s actor (SAck nonce)).

Definition refuse (actor : ClientId) (nonce : Z) (code : ErrorCode) (detail : rstring) : prog (Shared DB) unit :=
  update (fun s => send s actor (SCommandFailed nonce code detail)).

Definition authorize_against_online (actor : ClientId) (nonce : Z) (bit : Permissions) (target : ClientId)
    : prog (Shared DB) (option Fingerprint) :=
  allowed <- get (fun s => can_globally s actor bit);;
  if negb allowed then
    refuse actor nonce NotPermitted (lit "you may not do that");; Ret None
  else
    fp <- get (fun s => fingerprint_of s target);;
    match fp with
    | None => refuse actor nonce Malformed (lit "no such client");; Ret None
    | Some fp =>
        outranks <- get (fun s => actor_outranks s actor fp);;
        if negb outranks then
          refuse actor nonce NotPermitted (lit "their highest role is not below yours");; Ret None
        else Ret (Some fp)
    end.

(** The 50 ms sleep before the transport closes is the boundary between the two steps. *)
Definition eject_and_close (victim : ClientId) (reason : DisconnectReason) : prog (Shared DB) unit :=
  entry <- call (fun s => eject s victim reason);;
  match entry with
  | None => Ret tt
  | Some entry =>
      let '(code, text) := match reason with
        | Banned => (CLOSE_BANNED, lit "banned")
        | _ => (CLOSE_KICKED, lit "kicked")
        end in
      update (fun s => close_transport s entry code text)
  end.

Definition kick (actor : ClientId) (nonce : Z) (target : ClientId) (reason : rstring) : prog (Shared DB) unit :=
  fp <- authorize_against_online actor nonce KICK_MEMBERS target;;
  match fp with
  | None => Ret tt
  | Some _ => eject_and_close target Kicked;; ack actor nonce
  end.

Definition ban (actor : ClientId) (nonce : Z) (fp : Fingerprint) (reason : rstring)
    (until_unix_ms : option Z) : prog (Shared DB) unit :=
  allowed <- get (fun s => can_globally s actor BAN_MEMBERS);;
  if negb allowed then refuse actor nonce NotPermitted (lit "you may not do that") else
  me <- get (fun s => fingerprint_of s actor);;
  if bool_decide (Some fp = me) then refuse actor nonce NotPermitted (lit "you cannot ban yourself") else
  outranks <- get (fun s => actor_outranks s actor fp);;
  if negb outranks then refuse actor nonce NotPermitted (lit "their highest role is not below yours") else
  stored <- get has_store;;
  if negb stored then refuse actor nonce Internal (lit "no database") else
  by_fp <- get (fun s => fingerprint_of s actor);;
  now <- get now_unix_ms;;
  let entry := mkBan fp reason until_unix_ms (default fp by_fp) now in
  ok <- store_exec (db_insert_ban entry);;
  if negb ok then refuse actor nonce Internal (lit "the ban was not saved") else
  everyone <- get users;;
  let victims := u_client_id <$> retain (fun u => bool_decide (user_fingerprint u = fp)) everyone in
  for_each victims (fun victim => eject_and_close victim Banned);;
  ack actor nonce.

Definition unban (actor : ClientId) (nonce : Z) (fp : Fingerprint) : prog (Shared DB) unit :=
  allowed <- get (fun s => can_globally s actor BAN_MEMBERS);;
  if negb allowed then refuse actor nonce NotPermitted (lit "you may not do that") else
  stored <- get has_store;;
  if negb stored then refuse actor nonce Internal (lit "no database") else
  ok <- store_exec (db_delete_ban fp);;
  if negb ok then refuse actor nonce Internal (lit "the unban was not saved") else
  ack actor nonce.

Definition list_bans (actor : ClientId) (nonce : Z) : prog (Shared DB) unit :=
  allowed <- get (fun s => can_globally s actor BAN_MEMBERS);;
  if negb allowed then refuse actor nonce NotPermitted (lit "you may not do that") else
  stored <- get has_store;;
  if negb stored then refuse actor nonce Internal (lit "no database") else
  bans <- store_query db_list_bans;;
  match bans with
  | Some bans => update (fun s => send s actor (SBanList bans))
  | None => refuse actor nonce Internal (lit "could not read the ban list")
  end.

Definition set_server_mute (actor : ClientId) (nonce : Z) (target : ClientId) (muted : bool)
    : prog (Shared DB) unit :=
  fp <- authorize_against_online actor nonce MUTE_MEMBERS target;;
  match fp with
  | None => Ret tt
  | Some _ =>
      info <- call (fun s => set_server_muted s target muted);;
      match info with
      | None => refuse actor nonce Malformed (lit "no such client")
      | Some info => update (fun s => broadcast s (SUserUpdated info) None);; ack actor nonce
      end
  end.

Definition move_member (actor : ClientId) (nonce : Z) (target : ClientId) (to : option ChannelId)
    : prog (Shared DB) unit :=
  fp <- authorize_against_online actor nonce MOVE_MEMBERS target;;
  match fp with
  | None => Ret tt
  | Some _ =>
      let finish :=
        moved <- call (fun s => force_move s target to);;
        match moved with
        | inr from => update (fun s => broadcast s (SUserMoved target from to) None);; ack actor nonce
        | inl code => refuse actor nonce code (lit "could not move them")
        end in
      match to with
      | None => finish
      | Some channel =>
          view <- get (fun s => can s actor channel VIEW_CHANNEL);;
          if negb view then refuse actor nonce NoSuchChannel (lit "no such channel") else
          connect <- get (fun s => can s actor channel CONNECT);;
          if negb connect then refuse actor nonce NotPermitted (lit "you cannot enter that channel yourself")
          else finish
      end
  end.

End Moderation.
