(* ===== verification/Admin.v ===== *)
(** * Administration commands ([crates/pickle-server/src/admin.rs])

    Roles, grants, overwrites and channels.  Every mutation writes the database
    first, then swaps memory, then announces; each of these is a step, with the
    awaits of the source between them. *)

From S2P Require Export Moderation.

Record Actor : Type := mkActor { a_roles : list RoleId; a_owner : bool; a_base : Permissions }.

Definition may_grant (a : Actor) (bits : Permissions) : bool :=
  a_owner a || contains (a_base a) ADMINISTRATOR || contains (a_base a) bits.

Definition shifted_positions (roles : list Role) : list (RoleId * Z) :=
  map (fun r => if role_position r =? 0 then (role_id r, 0)
                else (role_id r, wrap 32 (role_position r + 1))) roles.

Definition set_position (p : Z) (r : Role) : Role :=
  mkRole (role_id r) (role_name r) (role_color r) p (role_perms r).

(** The position a list of pairs gives a role, when it names it. *)
Definition position_of (positions : list (RoleId * Z)) (id : RoleId) : option Z :=
  snd <$> find (fun e => e.1 =? id) positions.

(** [for role in &mut roles: if let Some((_, p)) = positions.find(..) { role.position = p }] *)
Definition reposition (positions : list (RoleId * Z)) (roles : list Role) : list Role :=
  map (fun r => match position_of positions (role_id r) with Some p => set_position p r | None => r end) roles.

Definition ordering_of (roles : list Role) : list (RoleId * Z) :=
  map (fun r => (role_id r, role_position r)) roles.

Definition find_role (roles : list Role) (id : RoleId) : option Role :=
  find (fun r => role_id r =? id) roles.

(** The next [PermState] of each command, from the snapshot it read. *)
Definition next_role_id (roles : list Role) : RoleId := wrap 32 (foldr Z.max 0 (map role_id roles) + 1).

Definition perms_with_new_role (snapshot : PermState) (role : Role) : PermState :=
  mkPerms (sort_by_key role_position
             (reposition (shifted_positions (ps_roles snapshot)) (ps_roles snapshot) ++ [role]))
          (ps_members snapshot).

(** [iter_mut().find(..)]: the first role with the id is replaced. *)
Fixpoint replace_role (id : RoleId) (updated : Role) (roles : list Role) : list Role :=
  match roles with
  | [] => []
  | r :: rest => if role_id r =? id then updated :: rest else r :: replace_role id updated rest
  end.

Definition perms_with_updated_role (snapshot : PermState) (id : RoleId) (updated : Role) : PermState :=
  mkPerms (replace_role id updated (ps_roles snapshot)) (ps_members snapshot).

Definition perms_without_role (snapshot : PermState) (id : RoleId) : PermState :=
  let roles := sort_by_key role_position (retain (fun r => negb (role_id r =? id)) (ps_roles snapshot)) in
  mkPerms (imap (fun i r => set_position (Z.of_nat i) r) roles)
          (retain (fun r => negb (r =? id)) <$> ps_members snapshot).

Definition perms_reordered (snapshot : PermState) (positions : list (RoleId * Z)) : PermState :=
  mkPerms (sort_by_key role_position (reposition positions (ps_roles snapshot))) (ps_members snapshot).

Definition perms_with_grants (snapshot : PermState) (fp : Fingerprint) (roles : list RoleId) : PermState :=
  mkPerms (ps_roles snapshot)
    (if is_empty roles then delete fp (ps_members snapshot) else <[fp := roles]> (ps_members snapshot)).

(** The checks of [reorder_roles]: every role once, positions 0..n-1. *)
Definition is_dense_reorder (roles : list Role) (positions : list (RoleId * Z)) : bool :=
  let expected := map Z.of_nat (seq 0 (length roles)) in
  let given := sort_by_key (fun p => p) (map snd positions) in
  let names_all := (length positions =? length roles)%nat
    && forallb (fun r => any (fun e => e.1 =? role_id r) positions) roles in
  names_all && bool_decide (given = expected).

Definition moves_everyone (positions : list (RoleId * Z)) : bool :=
  any (fun e => (e.1 =? EVERYONE_ROLE_ID) && negb (e.2 =? 0)) positions.

(** A position change at or above the actor's top. *)
Definition moves_senior (roles : list Role) (my_top : Z) (positions : list (RoleId * Z)) : bool :=
  any (fun '(id, new_position) =>
    let old := default 0 (role_position <$> find_role roles id) in
    negb (old =? new_position) && ((my_top <=? old) || (my_top <=? new_position))) positions.

(** The roles a new grant list adds or removes. *)
Definition changed_roles (current roles : list RoleId) : list RoleId :=
  retain (fun r => negb (bool_decide (r ∈ roles))) current
  ++ retain (fun r => negb (bool_decide (r ∈ current))) roles.

(** The role an [UpdateRole] asks for, or the refusal. *)
Definition update_role_fields (existing : Role) (a : Actor) (name : option rstring)
    (color : option (option Z)) (permissions : option Permissions) : (ErrorCode * rstring) + Role :=
  let named := match name with
    | None => inr existing
    | Some name =>
        let name := trim name in
        if is_empty name then inl (Malformed, lit "a role needs a name")
        else inr (mkRole (role_id existing) name (role_color existing) (role_position existing) (role_perms existing))
    end in
  match named with
  | inl e => inl e
  | inr updated =>
      let updated := match color with
        | Some color => mkRole (role_id updated) (role_name updated) color (role_position updated) (role_perms updated)
        | None => updated
        end in
      match permissions with
      | None => inr updated
      | Some permissions =>
          let permissions := intersect permissions ALL in
          let added := without permissions (role_perms existing) in
          if negb (may_grant a added) then inl (NotPermitted, lit "you cannot grant permissions you do not hold")
          else inr (mkRole (role_id updated) (role_name updated) (role_color updated) (role_position updated) permissions)
      end
  end.

Section Admin.
Context {C : Crypto} {HO : HashOrder} {DB : Type} {ST : StoreApi DB}.

Definition actor (client : ClientId) (nonce : Z) : prog (Shared DB) (option Actor) :=
  allowed <- get (fun s => can_globally s client MANAGE_ROLES);;
  if negb allowed then
    refuse client nonce NotPermitted (lit "you may not manage roles");; Ret None
  else
    snapshot <- get perm_state;;
    fp <- get (fun s => fingerprint_of s client);;
    match fp with
    | None => Ret None
    | Some fp =>
        let roles := default [] (ps_members snapshot !! fp) in
        own <- get (fun s => is_owner s fp);;
        let base := resolve (ps_roles snapshot) roles fp own None in
        Ret (Some (mkActor roles own base))
    end.

(** The common tail of the store errors. *)
Definition no_database (client : ClientId) (nonce : Z) : prog (Shared DB) unit :=
  refuse client nonce Internal (lit "no database").

Definition announce (m : ServerControl) : prog (Shared DB) unit := update (fun s => broadcast s m None).

Definition create_role (client : ClientId) (nonce : Z) (name : rstring) (permissions : Permissions)
    : prog (Shared DB) unit :=
  a <- actor client nonce;;
  match a with
  | None => Ret tt
  | Some a =>
      let name := trim name in
      if is_empty name then refuse client nonce Malformed (lit "a role needs a name") else
      let permissions := intersect permissions ALL in
      if negb (may_grant a permissions)
      then refuse client nonce NotPermitted (lit "you cannot grant permissions you do not hold") else
      stored <- get has_store;;
      if negb stored then no_database client nonce else
      snapshot <- get perm_state;;
      let role := mkRole (next_role_id (ps_roles snapshot)) name None 1 permissions in
      shifted <- store_exec (db_set_role_positions (shifted_positions (ps_roles snapshot)));;
      if negb shifted then refuse client nonce Internal (lit "the role was not saved") else
      inserted <- store_exec (db_insert_role role);;
      if negb inserted then refuse client nonce Internal (lit "the role was not saved") else
      let next := perms_with_new_role snapshot role in
      update (fun s => swap_perm_state s next);;
      announce (SRoleCreated role);;
      announce (SRolesReordered (ordering_of (ps_roles next)));;
      ack client nonce
  end.

Definition update_role (client : ClientId) (nonce : Z) (id : RoleId) (name : option rstring)
    (color : option (option Z)) (permissions : option Permissions) : prog (Shared DB) unit :=
  a <- actor client nonce;;
  match a with
  | None => Ret tt
  | Some a =>
      snapshot <- get perm_state;;
      match find_role (ps_roles snapshot) id with
      | None => refuse client nonce Malformed (lit "no such role")
      | Some existing =>
          if negb (can_manage_role (ps_roles snapshot) (a_roles a) (a_owner a) id)
          then refuse client nonce NotPermitted (lit "that role is not below yours") else
          if (id =? EVERYONE_ROLE_ID) && match name with Some _ => true | None => false end
          then refuse client nonce Malformed (lit "everyone is not renamable") else
          match update_role_fields existing a name color permissions with
          | inl (code, detail) => refuse client nonce code detail
          | inr updated =>
              stored <- get has_store;;
              if negb stored then no_database client nonce else
              before <- get visible_ids_by_client;;
              saved <- store_exec (db_update_role updated);;
              if negb saved then refuse client nonce Internal (lit "the change was not saved") else
              update (fun s => swap_perm_state s (perms_with_updated_role snapshot id updated));;
              announce (SRoleUpdated updated);;
              update (fun s => resync_visibility s before []);;
              ack client nonce
          end
      end
  end.

Definition delete_role (client : ClientId) (nonce : Z) (id : RoleId) : prog (Shared DB) unit :=
  a <- actor client nonce;;
  match a with
  | None => Ret tt
  | Some a =>
      if id =? EVERYONE_ROLE_ID then refuse client nonce NotPermitted (lit "everyone is not deletable") else
      snapshot <- get perm_state;;
      if negb (any (fun r => role_id r =? id) (ps_roles snapshot))
      then refuse client nonce Malformed (lit "no such role") else
      if negb (can_manage_role (ps_roles snapshot) (a_roles a) (a_owner a) id)
      then refuse client nonce NotPermitted (lit "that role is not below yours") else
      stored <- get has_store;;
      if negb stored then no_database client nonce else
      before <- get visible_ids_by_client;;
      deleted <- store_exec (db_delete_role id);;
      if negb deleted then refuse client nonce Internal (lit "the deletion was not saved") else
      let next := perms_without_role snapshot id in
      let ordering := ordering_of (ps_roles next) in
      _compacted <- store_exec (db_set_role_positions ordering);;
      update (fun s => swap_perm_state s next);;
      touched <- call (fun s => strip_role_overwrites s id);;
      holders <- call (fun s => strip_live_role s id);;
      announce (SRoleDeleted id);;
      announce (SRolesReordered ordering);;
      for_each holders (fun info => announce (SUserUpdated info));;
      update (fun s => resync_visibility s before touched);;
      ack client nonce
  end.

Definition reorder_roles (client : ClientId) (nonce : Z) (positions : list (RoleId * Z))
    : prog (Shared DB) unit :=
  a <- actor client nonce;;
  match a with
  | None => Ret tt
  | Some a =>
      snapshot <- get perm_state;;
      if negb (is_dense_reorder (ps_roles snapshot) positions)
      then refuse client nonce Malformed (lit "a reorder names every role exactly once, densely") else
      if moves_everyone positions
      then refuse client nonce Malformed (lit "everyone stays at the bottom") else
      if negb (a_owner a)
         && moves_senior (ps_roles snapshot) (top_role_position (ps_roles snapshot) (a_roles a)) positions
      then refuse client nonce NotPermitted (lit "you can only move roles below your own") else
      stored <- get has_store;;
      if negb stored then no_database client nonce else
      saved <- store_exec (db_set_role_positions positions);;
      if negb saved then refuse client nonce Internal (lit "the reorder was not saved") else
      update (fun s => swap_perm_state s (perms_reordered snapshot positions));;
      announce (SRolesReordered positions);;
      ack client nonce
  end.

Definition set_member_roles (client : ClientId) (nonce : Z) (fp : Fingerprint) (roles : list RoleId)
    : prog (Shared DB) unit :=
  a <- actor client nonce;;
  match a with
  | None => Ret tt
  | Some a =>
      snapshot <- get perm_state;;
      if bool_decide (EVERYONE_ROLE_ID ∈ roles)
      then refuse client nonce Malformed (lit "everyone is implicit, not granted") else
      if any (fun id => negb (any (fun r => role_id r =? id) (ps_roles snapshot))) roles
      then refuse client nonce Malformed (lit "no such role") else
      target_owner <- get (fun s => is_owner s fp);;
      if target_owner && negb (a_owner a)
      then refuse client nonce NotPermitted (lit "the owner's roles are not yours to change") else
      let current := default [] (ps_members snapshot !! fp) in
      if negb (forallb (can_manage_role (ps_roles snapshot) (a_roles a) (a_owner a)) (changed_roles current roles))
      then refuse client nonce NotPermitted (lit "some of those roles are not below yours") else
      stored <- get has_store;;
      if negb stored then no_database client nonce else
      before <- get visible_ids_by_client;;
      saved <- store_exec (db_replace_member_roles fp roles);;
      if negb saved then refuse client nonce Internal (lit "the change was not saved") else
      update (fun s => swap_perm_state s (perms_with_grants snapshot fp roles));;
      infos <- call (fun s => update_live_member_roles s fp roles);;
      for_each infos (fun info => announce (SUserUpdated info));;
      update (fun s => resync_visibility s before []);;
      ack client nonce
  end.

Definition set_channel_overwrite_cmd (client : ClientId) (nonce : Z) (channel : ChannelId)
    (target : OverwriteTarget) (allow deny : Permissions) : prog (Shared DB) unit :=
  a <- actor client nonce;;
  match a with
  | None => Ret tt
  | Some a =>
      view <- get (fun s => can s client channel VIEW_CHANNEL);;
      if negb view then refuse client nonce NoSuchChannel (lit "no such channel") else
      let allow := intersect allow CHANNEL_SCOPED in
      let deny := intersect deny CHANNEL_SCOPED in
      if negb (perm_is_empty (intersect allow deny))
      then refuse client nonce Malformed (lit "a bit cannot be both allowed and denied") else
      named <- match target with
        | TRole role =>
            snapshot <- get perm_state;;
            Ret (any (fun r => role_id r =? role) (ps_roles snapshot))
        | TMember _ => Ret true
        end;;
      if negb named then refuse client nonce Malformed (lit "no such role") else
      let store_it :=
        stored <- get has_store;;
        if negb stored then no_database client nonce else
        let overwrite := mkOverwrite target allow deny in
        before <- get visible_ids_by_client;;
        saved <- store_exec (db_upsert_overwrite channel overwrite);;
        if negb saved then refuse client nonce Internal (lit "the change was not saved") else
        _changed <- call (fun s => set_channel_overwrite s channel overwrite);;
        update (fun s => resync_visibility s before [channel]);;
        ack client nonce in
      if negb (a_owner a) && negb (contains (a_base a) ADMINISTRATOR) then
        snapshot <- get perm_state;;
        fp <- get (fun s => fingerprint_of s client);;
        match fp with
        | None => Ret tt
        | Some fp =>
            chans <- get list_channels;;
            match find (fun c => ch_id c =? channel) chans with
            | None => refuse client nonce NoSuchChannel (lit "no such channel")
            | Some target_channel =>
                let mine := resolve (ps_roles snapshot) (a_roles a) fp (a_owner a)
                              (Some (ch_overwrites target_channel)) in
                if negb (contains mine (perm_union allow deny))
                then refuse client nonce NotPermitted (lit "you cannot toggle permissions you do not hold here")
                else store_it
            end
        end
      else store_it
  end.

Definition delete_channel_overwrite (client : ClientId) (nonce : Z) (channel : ChannelId)
    (target : OverwriteTarget) : prog (Shared DB) unit :=
  a <- actor client nonce;;
  match a with
  | None => Ret tt
  | Some _ =>
      view <- get (fun s => can s client channel VIEW_CHANNEL);;
      if negb view then refuse client nonce NoSuchChannel (lit "no such channel") else
      stored <- get has_store;;
      if negb stored then no_database client nonce else
      before <- get visible_ids_by_client;;
      saved <- store_exec (db_delete_overwrite channel target);;
      if negb saved then refuse client nonce Internal (lit "the change was not saved") else
      _changed <- call (fun s => remove_channel_overwrite s channel target);;
      update (fun s => resync_visibility s before [channel]);;
      ack client nonce
  end.

(** The cycle test is the one place a handler can loop for ever: then the thread hangs. *)
Definition validate_channel (actor_id : ClientId) (nonce : Z) (id : option ChannelId)
    (name : rstring) (parent : option ChannelId) : prog (Shared DB) (option rstring) :=
  let name := trim name in
  if is_empty name then
    refuse actor_id nonce Malformed (lit "a channel needs a name");; Ret None
  else
    match parent with
    | None => Ret (Some name)
    | Some parent_id =>
        chans <- get list_channels;;
        if negb (any (fun c => ch_id c =? parent_id) chans) then
          refuse actor_id nonce Malformed (lit "no such parent");; Ret None
        else
          match id with
          | None => Ret (Some name)
          | Some child =>
              cycle <- get (fun s => parent_would_cycle s child parent);;
              match cycle with
              | None => Hang
              | Some true =>
                  refuse actor_id nonce Malformed (lit "a channel cannot contain itself");; Ret None
              | Some false => Ret (Some name)
              end
          end
    end.

Definition create_channel (client : ClientId) (nonce : Z) (name : rstring) (parent : option ChannelId)
    (topic : rstring) (kind : ChannelKind) (max_users : option Z) (order : Z) : prog (Shared DB) unit :=
  allowed <- get (fun s => can_globally s client MANAGE_CHANNELS);;
  if negb allowed then refuse client nonce NotPermitted (lit "you may not manage channels") else
  name <- validate_channel client nonce None name parent;;
  match name with
  | None => Ret tt
  | Some name =>
      stored <- get has_store;;
      if negb stored then no_database client nonce else
      id <- get next_channel_id;;
      let channel := mkChannel id parent name topic kind max_users order [] in
      saved <- store_exec (db_insert_channel channel);;
      if negb saved then refuse client nonce Internal (lit "the channel was not saved") else
      before <- get visible_ids_by_client;;
      update (fun s => insert_channel_mem s channel);;
      update (fun s => resync_visibility s before []);;
      ack client nonce
  end.

Definition update_channel (client : ClientId) (nonce : Z) (id : ChannelId) (parent : option ChannelId)
    (name topic : rstring) (kind : ChannelKind) (max_users : option Z) (order : Z) : prog (Shared DB) unit :=
  allowed <- get (fun s => can_globally s client MANAGE_CHANNELS);;
  if negb allowed then refuse client nonce NotPermitted (lit "you may not manage channels") else
  view <- get (fun s => can s client id VIEW_CHANNEL);;
  if negb view then refuse client nonce NoSuchChannel (lit "no such channel") else
  name <- validate_channel client nonce (Some id) name parent;;
  match name with
  | None => Ret tt
  | Some name =>
      stored <- get has_store;;
      if negb stored then no_database client nonce else
      let channel := mkChannel id parent name topic kind max_users order [] in
      saved <- store_exec (db_update_channel channel);;
      if negb saved then refuse client nonce Internal (lit "the change was not saved") else
      before <- get visible_ids_by_client;;
      _changed <- call (fun s => update_channel_mem s channel);;
      update (fun s => resync_visibility s before [id]);;
      ack client nonce
  end.

Definition delete_channel (client : ClientId) (nonce : Z) (id : ChannelId) : prog (Shared DB) unit :=
  allowed <- get (fun s => can_globally s client MANAGE_CHANNELS);;
  if negb allowed then refuse client nonce NotPermitted (lit "you may not manage channels") else
  view <- get (fun s => can s client id VIEW_CHANNEL);;
  if negb view then refuse client nonce NoSuchChannel (lit "no such channel") else
  stored <- get has_store;;
  if negb stored then no_database client nonce else
  deleted <- store_exec (db_delete_channel id);;
  if negb deleted then refuse client nonce Internal (lit "the deletion was not saved") else
  before <- get visible_ids_by_client;;
  evicted <- call (fun s => remove_channel_mem s id);;
  for_each evicted (fun info =>
    announce (SUserMoved (u_client_id info) (Some id) None);;
    announce (SUserUpdated info));;
  update (fun s => resync_visibility s before []);;
  ack client nonce.

End Admin.
