(* ===== verification/Session.v ===== *)
(** * Sessions ([crates/pickle-server/src/session.rs])

    One connection from the hello frame to its end: the handshake, the dispatch of
    control frames, the voice relay's entry, and the tidying up afterwards.  What the
    network does is a parameter of each program: the first frame read, whether a write
    succeeds, the frames and datagrams that arrive.  The token bucket of the control
    loop counts in [f64]; its answers are a parameter too. *)

From S2P Require Export Admin.

Definition CONTROL_RATE_LIMIT : Z := 30.
Definition CLOSE_OK : Z := 0.
Definition CLOSE_AUTH_FAILED : Z := 1.
Definition CLOSE_PROTOCOL_ERROR : Z := 2.

(** The loop over the zipped bytes, with its accumulator. *)
Fixpoint diff_bytes (diff : Z) (a b : bytes) : Z :=
  match a, b with
  | x :: a, y :: b => diff_bytes (Z.lor diff (Z.lxor x y)) a b
  | _, _ => diff
  end.

Definition constant_time_eq (a b : bytes) : bool :=
  if negb (length a =? length b)%nat then false else diff_bytes 0 a b =? 0.

(** Which characters [{:?}] prints as they are, beyond ASCII: the tables of the standard
    library. *)
Class UnicodeTables : Type := { unicode_printable : char -> bool }.

(** Tables that print every character. *)
Module AllPrintable.
#[export] Instance tables : UnicodeTables := {| unicode_printable := fun _ => true |}.
End AllPrintable.

(** The end of a frame exchange with a peer that has not authenticated yet. *)
Record Peer : Type := mkPeer {
  pr_nonce : bytes;                    (* the bytes the server drew *)
  pr_hello_written : bool;             (* the stream opened and took the hello *)
  pr_first : option ClientControl;     (* the first frame, when one came in time *)
  pr_reply_written : bool }.           (* the reply was written *)

Inductive HandshakeEnd : Type :=
| Started (info : UserInfo) (ok : AuthOk)
| Refused (failure : AuthFailure)
| Faulted.

Definition escape_hex (c : char) : rstring :=
  let digit n := if n <? 10 then 48 + n else 87 + n in
  let fix go (fuel : nat) (n : Z) (acc : rstring) : rstring :=
    match fuel with
    | O => acc
    | S f => let acc := digit (n mod 16) :: acc in if n <? 16 then acc else go f (n / 16) acc
    end in
  lit "\u{" ++ go 6%nat c [] ++ lit "}".

Section Session.
Context {C : Crypto} {HO : HashOrder} {U : UnicodeTables} {DB : Type} {ST : StoreApi DB}.

Definition debug_char (c : char) : rstring :=
  if c =? 0 then lit "\0"
  else if c =? 9 then lit "\t"
  else if c =? 13 then lit "\r"
  else if c =? 10 then lit "\n"
  else if c =? 34 then [92; 34]
  else if c =? 92 then [92; 92]
  else if if c <? 128 then (32 <=? c) && (c <? 127) else unicode_printable c then [c]
  else escape_hex c.

(** [format!("{:?}", s)] *)
Definition debug_str (s : rstring) : rstring := [34] ++ (s ≫= debug_char) ++ [34].

Definition verify_signature (ident : PublicIdentity) (nonce cert signature : bytes) : AuthFailure + unit :=
  match verify_auth ident nonce cert signature with
  | inr _ => inr tt
  | inl _ => inl AuthBadSignature
  end.

(** [session::verify_auth] *)
Definition session_verify_auth (s : Shared DB) (auth : ClientAuth) (nonce : bytes) : AuthFailure + unit :=
  if negb (ca_protocol_version auth =? PROTOCOL_VERSION) then inl (ProtocolMismatch PROTOCOL_VERSION) else
  let password := match cfg_password (config s) with
    | None => inr tt
    | Some expected =>
        match ca_password auth with
        | None => inl PasswordRequired
        | Some supplied =>
            if negb (constant_time_eq (as_bytes expected) (as_bytes supplied)) then inl BadPassword else inr tt
        end
    end in
  match password with
  | inl failure => inl failure
  | inr _ => verify_signature (ca_identity auth) nonce (cert_hash s) (ca_signature auth)
  end.

(** The hello frame the server opens with. *)
Definition server_hello (s : Shared DB) (nonce : bytes) : ServerHello :=
  mkHello PROTOCOL_VERSION (cfg_name (config s)) (public (identity s)) nonce
    (cfg_min_security_level (config s))
    (match cfg_password (config s) with Some _ => true | None => false end)
    (sign_server_hello (identity s) nonce (cert_hash s) (cfg_name (config s))).

(** A refusal is written to the peer; when that write fails the handshake is a fault. *)
Definition refuse_peer (p : Peer) (failure : AuthFailure) : prog (Shared DB) HandshakeEnd :=
  Ret (if pr_reply_written p then Refused failure else Faulted).

(** From admission on: the client holds a slot, which [Admitted] gives back if the reply
    cannot be written. *)
Definition welcome (p : Peer) (info : UserInfo) : prog (Shared DB) HandshakeEnd :=
  chans <- get (fun s => visible_channels s info);;
  everyone <- get users;;
  roles <- get roles_snapshot;;
  default_channel <- get (fun s => default_channel_for s info);;
  limits <- get (fun s =>
    mkLimits (max_message_len (limits s)) (max_nickname_len (limits s)) (max_users_limit (limits s))
      (history_enabled s));;
  let ok := mkAuthOk (u_client_id info) chans everyone roles default_channel limits in
  if pr_reply_written p then
    update (fun s => broadcast s (SUserJoined info) (Some (u_client_id info)));;
    Ret (Started info ok)
  else
    _removed <- call (fun s => State.remove s (u_client_id info));;
    Ret Faulted.

(** The ban the store answers with; a store fault admits. *)
Definition check_ban (fp : Fingerprint) : prog (Shared DB) (option BanEntry) :=
  stored <- get has_store;;
  if (stored : bool) then
    now <- get now_unix_ms;;
    found <- store_query (db_active_ban fp now);;
    Ret (default None found)
  else Ret None.

Definition handshake (p : Peer) : prog (Shared DB) HandshakeEnd :=
  if negb (pr_hello_written p) then Ret Faulted else
  match pr_first p with
  | Some (CAuth auth) =>
      verified <- get (fun s => session_verify_auth s auth (pr_nonce p));;
      match verified with
      | inl failure => refuse_peer p failure
      | inr _ =>
          found <- check_ban (fingerprint (ca_identity auth));;
          match found with
          | Some entry => refuse_peer p (AuthBanned (ban_reason entry) (ban_until entry))
          | None =>
              admitted <- call (fun s => admit_client s (ca_identity auth) (ca_nickname auth) new_queue);;
              match admitted with
              | inl failure => refuse_peer p failure
              | inr info => welcome p info
              end
          end
      end
  | _ => Ret Faulted
  end.

Definition error_to (client : ClientId) (code : ErrorCode) (detail : rstring) : prog (Shared DB) unit :=
  update (fun s => send s client (SError code detail)).

(** The [empty] closure of [fetch_history]. *)
Definition empty_page (client : ClientId) (channel : ChannelId) : prog (Shared DB) unit :=
  update (fun s => send s client (SHistory channel [] true)).

Definition fetch_history (client_id : ClientId) (chan : ChannelId) (before : option MessageId) (limit : Z)
    : prog (Shared DB) unit :=
  enabled <- get history_enabled;;
  if negb enabled then empty_page client_id chan else
  room <- get (fun s => channel s chan);;
  if negb (match room with Some c => has_text (ch_kind c) | None => false end)
  then empty_page client_id chan else
  view <- get (fun s => can s client_id chan VIEW_CHANNEL);;
  read <- (if negb view then Ret false else get (fun s => can s client_id chan READ_HISTORY));;
  if negb read then empty_page client_id chan else
  stored <- get has_store;;
  if negb stored then empty_page client_id chan else
  page <- store_query (db_history chan before limit);;
  match page with
  | Some page => update (fun s => send s client_id (SHistory chan (h_messages page) (h_reached_start page)))
  | None => error_to client_id Internal (lit "the server could not read history")
  end.

(** From [build_message] on: store, answer the author, tell the others. *)
Definition post_message (client_id : ClientId) (author : UserInfo) (chan : ChannelId) (content : rstring)
    (reply_to : option MessageId) (nonce : Z) : prog (Shared DB) unit :=
  message <- call (fun s => build_message s author chan content reply_to);;
  stored <- get has_store;;
  saved <- (if (stored : bool) then store_exec (db_insert_message message) else Ret true);;
  if negb saved then
    error_to client_id Internal (lit "the server could not save that message, so it was not sent")
  else
    update (fun s => send s client_id (SMessagePosted message (Some nonce)));;
    update (fun s => broadcast_filtered s (SMessagePosted message None) chan (Some client_id)).

Definition send_message (client_id : ClientId) (chan : ChannelId) (content : rstring)
    (reply_to : option MessageId) (nonce : Z) : prog (Shared DB) unit :=
  author <- get (fun s => user s client_id);;
  match author with
  | None => Ret tt
  | Some author =>
      if is_empty (trim content) then Ret tt else
      max_len <- get (fun s => max_message_len (limits s));;
      if max_len <? str_len content
      then error_to client_id MessageTooLong (lit "messages are limited to " ++ dec max_len ++ lit " bytes") else
      let no_channel := error_to client_id NoSuchChannel (lit "no channel " ++ dec chan) in
      room <- get (fun s => channel s chan);;
      match room with
      | None => no_channel
      | Some c =>
          view <- get (fun s => can s client_id chan VIEW_CHANNEL);;
          if negb view then no_channel else
          if negb (has_text (ch_kind c))
          then error_to client_id NotPermitted
                 (lit "channel " ++ debug_str (ch_name c) ++ lit " does not carry text") else
          may_send <- get (fun s => can s client_id chan SEND_MESSAGES);;
          if negb may_send
          then error_to client_id NotPermitted (lit "you may not send messages in this channel")
          else post_message client_id author chan content reply_to nonce
      end
  end.

Definition join (client_id : ClientId) (chan : ChannelId) : prog (Shared DB) unit :=
  joined <- call (fun s => join_channel s client_id chan);;
  match joined with
  | inr from => update (fun s => broadcast s (SUserMoved client_id from (Some chan)) None)
  | inl code =>
      error_to client_id code
        (if bool_decide (code = NotPermitted)
         then lit "channel " ++ dec chan ++ lit " carries no voice; text channels are open to everyone without joining"
         else lit "could not join channel " ++ dec chan)
  end.

Definition typing (client_id : ClientId) (chan : ChannelId) : prog (Shared DB) unit :=
  room <- get (fun s => channel s chan);;
  if negb (match room with Some c => has_text (ch_kind c) | None => false end) then Ret tt else
  view <- get (fun s => can s client_id chan VIEW_CHANNEL);;
  if negb view then Ret tt else
  may_send <- get (fun s => can s client_id chan SEND_MESSAGES);;
  if negb may_send then Ret tt else
  update (fun s => broadcast_filtered s (STyping client_id chan) chan (Some client_id)).

Definition handle_control (client_id : ClientId) (message : ClientControl) : prog (Shared DB) unit :=
  match message with
  | CAuth _ => error_to client_id Malformed (lit "already authenticated")
  | CPing nonce => update (fun s => send s client_id (SPong nonce))
  | CKick nonce client reason => kick client_id nonce client reason
  | CBan nonce fp reason until_unix_ms => ban client_id nonce fp reason until_unix_ms
  | CUnban nonce fp => unban client_id nonce fp
  | CListBans nonce => list_bans client_id nonce
  | CSetServerMute nonce client muted => set_server_mute client_id nonce client muted
  | CMoveMember nonce client to => move_member client_id nonce client to
  | CCreateRole nonce name permissions => create_role client_id nonce name permissions
  | CUpdateRole nonce id name color permissions => update_role client_id nonce id name color permissions
  | CDeleteRole nonce id => delete_role client_id nonce id
  | CReorderRoles nonce positions => reorder_roles client_id nonce positions
  | CSetMemberRoles nonce fp roles => set_member_roles client_id nonce fp roles
  | CSetChannelOverwrite nonce chan target allow deny =>
      set_channel_overwrite_cmd client_id nonce chan target allow deny
  | CDeleteChannelOverwrite nonce chan target => delete_channel_overwrite client_id nonce chan target
  | CCreateChannel nonce name parent topic kind max_users order =>
      create_channel client_id nonce name parent topic kind max_users order
  | CUpdateChannel nonce id parent name topic kind max_users order =>
      update_channel client_id nonce id parent name topic kind max_users order
  | CDeleteChannel nonce id => delete_channel client_id nonce id
  | CJoinChannel chan => join client_id chan
  | CLeaveChannel =>
      from <- call (fun s => leave_channel s client_id);;
      update (fun s => broadcast s (SUserMoved client_id from None) None)
  | CSetVoiceState muted deafened =>
      info <- call (fun s => set_voice_state s client_id muted deafened);;
      match info with
      | Some info => update (fun s => broadcast s (SUserUpdated info) None)
      | None => Ret tt
      end
  | CSetNickname nickname =>
      info <- call (fun s => set_nickname s client_id nickname);;
      match info with
      | Some info => update (fun s => broadcast s (SUserUpdated info) None)
      | None => error_to client_id Malformed (lit "nickname must contain a printable character")
      end
  | CSendMessage chan content reply_to nonce => send_message client_id chan content reply_to nonce
  | CTyping chan => typing client_id chan
  | CFetchHistory chan before limit => fetch_history client_id chan before limit
  | CEditMessage _ _ | CDeleteMessage _ | CReact _ _ _ =>
      error_to client_id NotPermitted
        (lit "message editing, deletion and reactions need the message store, which is not implemented yet")
  end.

(** The control loop over the frames that arrive before the stream ends, each with the
    limiter's answer. *)
Definition control_loop (client_id : ClientId) (frames : list (bool * ClientControl)) : prog (Shared DB) unit :=
  for_each frames (fun '(allowed, message) =>
    if negb allowed then error_to client_id RateLimited (lit "too many control messages")
    else handle_control client_id message).

(** The datagram task, for one datagram. *)
Definition datagram_received (client_id : ClientId) (datagram : bytes) : prog (Shared DB) unit :=
  match decode_up datagram with
  | inr packet => update (fun s => relay_voice s client_id packet)
  | inl _ => Ret tt
  end.

(** The writer task, for one frame: it takes the head of the client's queue. *)
Definition take_frame (s : Shared DB) (client_id : ClientId) : option ServerControl * Shared DB :=
  match the_clients s !! client_id with
  | Some e =>
      match q_frames (cc_control e) with
      | m :: rest =>
          (Some m, set_clients (<[client_id := set_control e (mkQueue rest (q_closed (cc_control e)))]>
                     (the_clients s)) s)
      | [] => (None, s)
      end
  | None => (None, s)
  end.

(** The writer is gone (a write failed, or it was aborted): its receiver is dropped. *)
Definition drop_receiver (s : Shared DB) (client_id : ClientId) : Shared DB :=
  match the_clients s !! client_id with
  | Some e => set_clients (<[client_id := set_control e (mkQueue [] true)]> (the_clients s)) s
  | None => s
  end.

(** [serve], from the handshake to the close of the connection. *)
Definition serve (p : Peer) (frames : list (bool * ClientControl)) : prog (Shared DB) Z :=
  outcome <- handshake p;;
  match outcome with
  | Started info _ =>
      let client_id := u_client_id info in
      control_loop client_id frames;;
      removed <- call (fun s => State.remove s client_id);;
      (match removed with
       | Some _ => update (fun s => broadcast s (SUserLeft client_id Quit) (Some client_id))
       | None => Ret tt
       end);;
      Ret CLOSE_OK
  | Refused _ => Ret CLOSE_AUTH_FAILED
  | Faulted => Ret CLOSE_PROTOCOL_ERROR
  end.

(** The threads the server runs: connections, the two per-session tasks, the passing of
    time. *)
Inductive server_thread : prog (Shared DB) unit -> Prop :=
| thread_serve p frames : server_thread (_code <- serve p frames;; Ret tt)
| thread_datagram client_id datagram : server_thread (datagram_received client_id datagram)
| thread_writer client_id : server_thread (_frame <- call (fun s => take_frame s client_id);; Ret tt)
| thread_writer_gone client_id : server_thread (update (fun s => drop_receiver s client_id))
| thread_clock t : server_thread (update (set_clock t)).

End Session.
