(* ===== verification/RoleTable.v ===== *)
(** * The role table and its invariant

    Every command of [admin.rs] that touches roles computes the next [PermState] from a
    snapshot.  Here: what a well-formed table is (positions 0..n-1, ids unique,
    everyone at the bottom, grants naming roles of the table), and that each of those
    computations keeps it. *)

From S2P Require Export Admin.

Definition role_ids (roles : list Role) : list RoleId := map role_id roles.
Definition role_positions (roles : list Role) : list Z := map role_position roles.

(** Positions are dense and sorted, ids unique, and everyone (id 0) holds position 0. *)
Record wf_roles (roles : list Role) : Prop := {
  wf_dense : role_positions roles = seqZ 0 (Z.of_nat (length roles));
  wf_unique : NoDup (role_ids roles);
  wf_everyone : forall r, r ∈ roles -> role_id r = EVERYONE_ROLE_ID <-> role_position r = 0;
  wf_inhabited : roles <> [];
  wf_bits : forall r, r ∈ roles -> contains ALL (role_perms r) = true }.

(** Grants name roles of the table, and never everyone, whose grant is implicit. *)
Definition wf_members (roles : list Role) (members : gmap Fingerprint (list RoleId)) : Prop :=
  forall fp granted id, members !! fp = Some granted -> id ∈ granted ->
    id <> EVERYONE_ROLE_ID /\ id ∈ role_ids roles.

Definition wf_perms (p : PermState) : Prop :=
  wf_roles (ps_roles p) /\ wf_members (ps_roles p) (ps_members p).

(** No role id has reached the last 32-bit value, and there is room for one more position. *)
Definition role_room (roles : list Role) : Prop :=
  (forall id, id ∈ role_ids roles -> 0 <= id < u32_max) /\ Z.of_nat (length roles) < u32_max.

(** ** Sorting by position *)

Lemma sorted_eq_perm (l1 l2 : list Z) :
  StronglySorted Z.le l1 -> StronglySorted Z.le l2 -> l1 ≡ₚ l2 -> l1 = l2.
Proof. apply StronglySorted_unique; [apply _]. Qed.

Lemma seqZ_sorted m n : StronglySorted Z.le (seqZ m n).
Proof.
  unfold seqZ. apply Sorted_StronglySorted; [apply _|]. generalize (Z.to_nat n) at 1. intros k.
  generalize 0%nat. induction k as [|k IH]; intros j; simpl; constructor; [apply IH|].
  destruct k; simpl; constructor. lia.
Qed.

Lemma by_key_sorted_map {A} (key : A -> Z) l :
  StronglySorted (by_key key) l -> StronglySorted Z.le (map key l).
Proof.
  induction 1 as [|x l Hl IH Hx]; simpl; constructor; [done|]. by apply Forall_map.
Qed.

Lemma sort_positions roles n :
  role_positions roles ≡ₚ seqZ 0 n -> role_positions (sort_by_key role_position roles) = seqZ 0 n.
Proof.
  intros H. apply sorted_eq_perm.
  - apply by_key_sorted_map, sort_by_key_sorted.
  - apply seqZ_sorted.
  - unfold role_positions. by rewrite sort_by_key_perm.
Qed.

(** Sorting a table whose positions are 0..n-1 in some order makes it well formed. *)
Lemma wf_roles_dense_perm roles n :
  role_positions roles ≡ₚ seqZ 0 n -> NoDup (role_ids roles) ->
  (forall r, r ∈ roles -> role_id r = EVERYONE_ROLE_ID <-> role_position r = 0) ->
  roles <> [] -> (forall r, r ∈ roles -> contains ALL (role_perms r) = true) ->
  wf_roles (sort_by_key role_position roles).
Proof.
  intros Hd Hu He Hne Hb. assert (Hperm := sort_by_key_perm role_position roles).
  split.
  - rewrite (sort_positions _ _ Hd), Hperm.
    apply Permutation_length in Hd. unfold role_positions in Hd.
    rewrite length_map, length_seqZ in Hd. rewrite Hd.
    destruct (decide (0 <= n)); [by rewrite Z2Nat.id by done|].
    destruct roles; [done | simpl in Hd; lia].
  - unfold role_ids. rewrite Hperm. done.
  - intros r Hr. apply He. by rewrite <- Hperm.
  - intros E. rewrite E in Hperm. apply Permutation_nil in Hperm. done.
  - intros r Hr. apply Hb. by rewrite <- Hperm.
Qed.

(** ** Reading a well-formed table *)

Lemma position_lookup roles r :
  wf_roles roles -> r ∈ roles -> 0 <= role_position r < Z.of_nat (length roles).
Proof.
  intros Hwf Hr. apply (list_elem_of_fmap_2 role_position) in Hr.
  change (role_position <$> roles) with (role_positions roles) in Hr.
  rewrite (wf_dense _ Hwf) in Hr. apply elem_of_seqZ in Hr. lia.
Qed.

Lemma everyone_exists roles : wf_roles roles -> exists r, r ∈ roles /\ role_id r = EVERYONE_ROLE_ID.
Proof.
  intros Hwf. destruct roles as [|r roles]; [by destruct (wf_inhabited _ Hwf)|].
  exists r. split; [left|]. apply (wf_everyone _ Hwf); [left|].
  pose proof (wf_dense _ Hwf) as H. simpl length in H.
  rewrite Nat2Z.inj_succ, seqZ_cons in H by lia. by injection H.
Qed.

Lemma role_id_unique roles r1 r2 :
  NoDup (role_ids roles) -> r1 ∈ roles -> r2 ∈ roles -> role_id r1 = role_id r2 -> r1 = r2.
Proof.
  intros Hwf H1 H2 E. apply list_elem_of_lookup in H1 as [i Hi]. apply list_elem_of_lookup in H2 as [j Hj].
  pose proof Hwf as Hu. unfold role_ids in Hu.
  assert (i = j); [|congruence].
  eapply (NoDup_lookup _ i j (role_id r1) Hu); rewrite list_lookup_fmap; [rewrite Hi | rewrite Hj]; simpl; congruence.
Qed.

Lemma role_id_inj roles r1 r2 :
  wf_roles roles -> r1 ∈ roles -> r2 ∈ roles -> role_id r1 = role_id r2 -> r1 = r2.
Proof. intros Hwf. apply role_id_unique, (wf_unique _ Hwf). Qed.

Lemma elem_of_role_ids roles id : id ∈ role_ids roles <-> exists r, r ∈ roles /\ role_id r = id.
Proof. unfold role_ids. rewrite list_elem_of_fmap. split; intros (r & H1 & H2); eauto. Qed.

Lemma any_role_id roles id : any (fun r => role_id r =? id) roles = true <-> id ∈ role_ids roles.
Proof.
  rewrite any_true, elem_of_role_ids. split; intros (r & Hr & E); exists r; split; auto;
    by apply Z.eqb_eq.
Qed.

Lemma find_role_some roles id r : find_role roles id = Some r -> r ∈ roles /\ role_id r = id.
Proof. intros H. apply find_some in H as [H E]. split; [done | by apply Z.eqb_eq]. Qed.

(** ** A new role *)

Lemma foldr_max_bound (l : list Z) b : 0 < b -> (forall x, x ∈ l -> x < b) -> 0 <= foldr Z.max 0 l < b.
Proof.
  intros Hb. induction l as [|y l IH]; intros H; simpl; [lia|].
  pose proof (H y ltac:(left)). specialize (IH (fun x Hx => H x ltac:(by right))). lia.
Qed.

(** The id is above every id of the table, so it is new to the table. *)
Lemma next_role_id_fresh roles :
  role_room roles ->
  next_role_id roles = foldr Z.max 0 (role_ids roles) + 1 /\ (next_role_id roles ∉ role_ids roles) /\
  next_role_id roles <> EVERYONE_ROLE_ID.
Proof.
  intros [Hr _]. unfold next_role_id.
  assert (H := foldr_max_bound (role_ids roles) u32_max ltac:(done) (fun x Hx => proj2 (Hr x Hx))).
  rewrite wrap_id by (unfold fits, u32_max, role_ids in *; lia). split_and!; [done | |].
  - intros Hin. apply (foldr_max_ge 0) in Hin. unfold role_ids in *. lia.
  - unfold EVERYONE_ROLE_ID, role_ids in *. lia.
Qed.

Lemma position_of_ordering (l : list Role) (f : Role -> Z) r :
  NoDup (role_ids l) -> r ∈ l -> position_of (map (fun r => (role_id r, f r)) l) (role_id r) = Some (f r).
Proof.
  intros Hu Hr. unfold position_of. induction l as [|y l IH]; [by apply elem_of_nil in Hr|].
  simpl in *. inversion Hu as [|? ? Hni Hu']; subst. apply elem_of_cons in Hr as [-> | Hr].
  - by rewrite Z.eqb_refl.
  - destruct (Z.eqb_spec (role_id y) (role_id r)) as [E|]; [|auto].
    exfalso. apply Hni. rewrite E. apply elem_of_role_ids. eauto.
Qed.

(** The shift [create_role] writes: everyone stays, every other role moves up by one. *)
Definition shifted (p : Z) : Z := if p =? 0 then 0 else p + 1.

Lemma reposition_shifted roles :
  wf_roles roles -> role_room roles ->
  reposition (shifted_positions roles) roles = map (fun r => set_position (shifted (role_position r)) r) roles.
Proof.
  intros Hwf [_ Hroom]. unfold reposition. apply map_ext_in. intros r Hr. apply list_elem_of_In in Hr.
  assert (E : shifted_positions roles = map (fun r => (role_id r, shifted (role_position r))) roles).
  { apply map_ext_in. intros q Hq. apply list_elem_of_In, (position_lookup _ _ Hwf) in Hq.
    unfold shifted. destruct (Z.eqb_spec (role_position q) 0); [done|].
    by rewrite wrap_id by (unfold fits, u32_max in *; lia). }
  rewrite E, position_of_ordering; [done | apply (wf_unique _ Hwf) | done].
Qed.

Lemma role_ids_set_position (f : Role -> Z) roles :
  role_ids (map (fun r => set_position (f r) r) roles) = role_ids roles.
Proof. unfold role_ids. by rewrite map_map. Qed.

Lemma shifted_seq n :
  0 < n -> map shifted (seqZ 0 n) ++ [1] ≡ₚ seqZ 0 (n + 1).
Proof.
  intros Hn.
  assert (E : map shifted (seqZ 1 (Z.pred n)) = seqZ 2 (Z.pred n)).
  { change 2 with (1 + 1). rewrite <- fmap_add_seqZ. apply map_ext_in.
    intros p Hp. apply list_elem_of_In, elem_of_seqZ in Hp. unfold shifted.
    destruct (Z.eqb_spec p 0); lia. }
  rewrite (seqZ_cons 0 n), (seqZ_cons 0 (n + 1)), (seqZ_cons (Z.succ 0) (Z.pred (n + 1))) by lia.
  change (Z.succ (Z.succ 0)) with 2. change (Z.succ 0) with 1. rewrite map_cons, E.
  replace (Z.pred (Z.pred (n + 1))) with (Z.pred n) by lia.
  cbn [app]. constructor. by rewrite Permutation_app_comm.
Qed.

Lemma new_role_wf p role :
  wf_perms p -> role_room (ps_roles p) -> role_id role = next_role_id (ps_roles p) ->
  role_position role = 1 -> contains ALL (role_perms role) = true ->
  wf_perms (perms_with_new_role p role).
Proof.
  intros [Hwf Hm] Hroom Hid Hpos Hbits. unfold perms_with_new_role. rewrite reposition_shifted by done.
  set (moved := map _ (ps_roles p)).
  destruct (next_role_id_fresh _ Hroom) as (_ & Hfresh & Hne). rewrite <- Hid in Hfresh, Hne.
  assert (Hids : role_ids (moved ++ [role]) = role_ids (ps_roles p) ++ [role_id role]).
  { unfold role_ids at 1. rewrite map_app. fold (role_ids moved). unfold moved.
    by rewrite role_ids_set_position. }
  assert (Hmoved : forall r, r ∈ moved -> exists q, q ∈ ps_roles p /\ r = set_position (shifted (role_position q)) q).
  { intros r Hr. apply list_elem_of_fmap in Hr as (q & -> & Hq). eauto. }
  split.
  - eapply (wf_roles_dense_perm _ (Z.of_nat (length (ps_roles p)) + 1)).
    + unfold role_positions. rewrite map_app. unfold moved. rewrite map_map. simpl.
      rewrite <- (map_map role_position shifted).
      change (map role_position (ps_roles p)) with (role_positions (ps_roles p)).
      rewrite (wf_dense _ Hwf), Hpos. apply shifted_seq.
      pose proof (wf_inhabited _ Hwf). destruct (ps_roles p); [done | simpl; lia].
    + rewrite Hids. apply NoDup_app. split_and!; [apply (wf_unique _ Hwf) | | apply NoDup_singleton].
      intros x Hx Hx'. apply list_elem_of_singleton in Hx' as ->. done.
    + intros r [Hr | ->%list_elem_of_singleton]%elem_of_app.
      * apply Hmoved in Hr as (q & Hq & ->). simpl. rewrite (wf_everyone _ Hwf q Hq).
        pose proof (position_lookup _ _ Hwf Hq). unfold shifted.
        destruct (Z.eqb_spec (role_position q) 0); lia.
      * rewrite Hpos. split; [by intros E; apply Hne in E | lia].
    + by destruct moved.
    + intros r [Hr | ->%list_elem_of_singleton]%elem_of_app; [|done].
      apply Hmoved in Hr as (q & Hq & ->). exact (wf_bits _ Hwf q Hq).
  - intros fp granted id Hf Hin. destruct (Hm fp granted id Hf Hin) as [H1 H2]. split; [done|].
    simpl. unfold role_ids. rewrite sort_by_key_perm. fold (role_ids (moved ++ [role])).
    rewrite Hids. apply elem_of_app. by left.
Qed.

(** ** An updated role *)

(** The fields an update may not touch: its id and its position. *)
Definition same_place (r1 r2 : Role) : Prop :=
  role_id r1 = role_id r2 /\ role_position r1 = role_position r2.

Lemma update_role_fields_place existing a name color bits updated :
  update_role_fields existing a name color bits = inr updated -> same_place updated existing.
Proof.
  unfold update_role_fields. intros H. case_match_all; simplify_eq/=; split; done.
Qed.

Lemma contains_intersect_all bits : contains ALL (intersect bits ALL) = true.
Proof.
  unfold contains, intersect. apply Z.eqb_eq. rewrite (Z.land_comm bits), Z.land_assoc, Z.land_diag. done.
Qed.

Lemma update_role_fields_bits existing a name color bits updated :
  contains ALL (role_perms existing) = true ->
  update_role_fields existing a name color bits = inr updated -> contains ALL (role_perms updated) = true.
Proof.
  unfold update_role_fields. intros Hb H.
  case_match_all; simplify_eq/=; auto using contains_intersect_all.
Qed.

Lemma replace_role_map {B} (f : Role -> B) id updated existing roles :
  find_role roles id = Some existing -> f updated = f existing ->
  map f (replace_role id updated roles) = map f roles.
Proof.
  unfold find_role. intros Hf E. induction roles as [|r roles IH]; simpl in *; [done|].
  destruct (role_id r =? id); simpl; [by simplify_eq; rewrite E | by rewrite IH].
Qed.

Lemma elem_of_replace_role id updated roles r :
  r ∈ replace_role id updated roles -> r = updated \/ r ∈ roles.
Proof.
  induction roles as [|q roles IH]; simpl; [by intros Hr; right|].
  destruct (role_id q =? id); rewrite !elem_of_cons; tauto.
Qed.

Lemma updated_role_wf p id existing updated :
  wf_perms p -> find_role (ps_roles p) id = Some existing -> same_place updated existing ->
  contains ALL (role_perms updated) = true -> wf_perms (perms_with_updated_role p id updated).
Proof.
  intros [Hwf Hm] Hf [Hid Hpos] Hb.
  assert (Hids := replace_role_map role_id id updated existing _ Hf Hid).
  assert (Hpositions := replace_role_map role_position id updated existing _ Hf Hpos).
  pose proof (find_role_some _ _ _ Hf) as [Hin _].
  split; [split|]; simpl.
  - unfold role_positions. rewrite Hpositions. rewrite (wf_dense _ Hwf : map _ _ = _). f_equal.
    apply (f_equal length) in Hids. rewrite !length_map in Hids. by rewrite Hids.
  - unfold role_ids. rewrite Hids. apply (wf_unique _ Hwf).
  - intros r [-> | Hr]%elem_of_replace_role; [|by apply (wf_everyone _ Hwf)].
    rewrite Hid, Hpos. by apply (wf_everyone _ Hwf).
  - intros E. rewrite E in Hids. destruct (ps_roles p) eqn:Hp; [|done]. by destruct (wf_inhabited _ Hwf).
  - intros r [-> | Hr]%elem_of_replace_role; [done | by apply (wf_bits _ Hwf)].
  - intros fp granted i Hg Hi. unfold role_ids. rewrite Hids. by apply (Hm fp granted).
Qed.

(** ** Without a role *)

Lemma imap_set_position_positions (roles : list Role) (k : nat) :
  role_positions (imap (fun i r => set_position (Z.of_nat (k + i)) r) roles) =
  seqZ (Z.of_nat k) (Z.of_nat (length roles)).
Proof.
  revert k; induction roles as [|r roles IH]; intros k; [done|].
  rewrite imap_cons. simpl length. rewrite Nat2Z.inj_succ, seqZ_cons by lia.
  unfold role_positions. simpl map. f_equal; [by rewrite Nat.add_0_r|].
  rewrite Z.pred_succ, <- Nat2Z.inj_succ, <- IH. unfold role_positions. f_equal.
  apply imap_ext. intros i x _. simpl. do 2 f_equal. lia.
Qed.

Lemma imap_set_position_map {B} (f : Role -> B) (g : nat -> Z) roles :
  (forall p r, f (set_position p r) = f r) ->
  map f (imap (fun i r => set_position (g i) r) roles) = map f roles.
Proof.
  intros Hf. revert g; induction roles as [|r roles IH]; intros g; [done|].
  rewrite imap_cons. simpl. rewrite Hf. f_equal. apply (IH (g ∘ S)).
Qed.

(** The role at the bottom of a sorted table holds the least position. *)
Lemma sorted_head_least roles r q rest :
  sort_by_key role_position roles = r :: rest -> q ∈ roles -> role_position r <= role_position q.
Proof.
  intros E Hq. pose proof (sort_by_key_sorted role_position roles) as Hs. rewrite E in Hs.
  rewrite <- (sort_by_key_perm role_position roles), E in Hq.
  apply StronglySorted_inv in Hs as [_ Hs]. apply elem_of_cons in Hq as [-> | Hq]; [lia|].
  by apply (proj1 (Forall_forall _ _) Hs) in Hq.
Qed.

Lemma removed_role_wf p id :
  wf_perms p -> id <> EVERYONE_ROLE_ID -> wf_perms (perms_without_role p id).
Proof.
  intros [Hwf Hm] Hne. unfold perms_without_role.
  set (kept := retain _ (ps_roles p)). set (sorted := sort_by_key _ kept).
  assert (Hperm : sorted ≡ₚ kept) by apply sort_by_key_perm.
  assert (Hkept : forall r, r ∈ kept <-> r ∈ ps_roles p /\ role_id r <> id).
  { intros r. unfold kept. rewrite elem_of_retain, negb_true_iff, Z.eqb_neq. done. }
  assert (Hids : role_ids (imap (fun i r => set_position (Z.of_nat i) r) sorted) = role_ids sorted)
    by by apply imap_set_position_map.
  assert (Hnodup : NoDup (role_ids sorted)).
  { unfold role_ids. rewrite Hperm. eapply sublist_NoDup; [apply (wf_unique _ Hwf)|].
    apply (fmap_sublist role_id), sublist_filter. }
  destruct (everyone_exists _ Hwf) as (e & He & Hide).
  assert (Hek : e ∈ kept) by (apply Hkept; split; [done | by rewrite Hide]).
  assert (Hes : e ∈ sorted) by by rewrite Hperm.
  destruct sorted as [|h rest] eqn:Hsorted; [by apply elem_of_nil in Hes|].
  assert (Hh : h ∈ ps_roles p /\ role_id h = EVERYONE_ROLE_ID).
  { assert (h ∈ kept) as [Hh _]%Hkept by (rewrite <- Hperm; left). split; [done|].
    apply (wf_everyone _ Hwf _ Hh). pose proof (sorted_head_least _ _ _ _ Hsorted Hek).
    pose proof (proj1 (wf_everyone _ Hwf e He) Hide). pose proof (position_lookup _ _ Hwf Hh). lia. }
  split; [split|]; cbn [ps_roles ps_members].
  - rewrite length_imap. apply (imap_set_position_positions (h :: rest) 0).
  - by rewrite Hids.
  - intros r Hr. apply elem_of_lookup_imap in Hr as (i & q & -> & Hq). simpl.
    split; [|intros Hz; assert (i = 0%nat) as -> by lia; simpl in Hq; simplify_eq; tauto].
    intros E. f_equal. assert (i = 0%nat); [|lia].
    eapply (NoDup_lookup _ i 0 EVERYONE_ROLE_ID Hnodup); unfold role_ids; rewrite list_lookup_fmap;
      [rewrite Hq; simpl; congruence | simpl; f_equal; tauto].
  - by rewrite imap_cons.
  - intros r Hr. apply elem_of_lookup_imap in Hr as (i & q & -> & Hq). simpl.
    apply (wf_bits _ Hwf). assert (q ∈ kept) as [? _]%Hkept; [|done].
    rewrite <- Hperm. by eapply list_elem_of_lookup_2.
  - intros fp granted i Hg Hi. rewrite lookup_fmap in Hg.
    destruct (ps_members p !! fp) as [old|] eqn:Ho; simpl in Hg; [injection Hg as <- | done].
    apply elem_of_retain in Hi as [Hi Hni]. bool_props. destruct (Hm fp old i Ho Hi) as [H0 Hin].
    split; [done|]. rewrite Hids. apply elem_of_role_ids in Hin as (r & Hr & <-).
    apply elem_of_role_ids. exists r. split; [|done]. rewrite Hperm. by apply Hkept.
Qed.

(** ** A new order *)

Lemma is_dense_reorder_spec roles positions :
  NoDup (role_ids roles) -> is_dense_reorder roles positions = true ->
  positions.*1 ≡ₚ role_ids roles /\ positions.*2 ≡ₚ seqZ 0 (Z.of_nat (length roles)).
Proof.
  intros Hu H. unfold is_dense_reorder in H. apply andb_true_iff in H as [H Hgiven].
  apply andb_true_iff in H as [Hlen Hall]. apply Nat.eqb_eq in Hlen. split.
  - symmetry. apply submseteq_length_Permutation; [|unfold role_ids; rewrite length_fmap, length_map; lia].
    apply NoDup_submseteq; [done|]. intros id (r & Hr & <-)%elem_of_role_ids.
    rewrite forallb_forall in Hall. specialize (Hall r (proj1 (list_elem_of_In _ _) Hr)).
    apply any_true in Hall as (e & He & E%Z.eqb_eq). rewrite <- E. by apply (list_elem_of_fmap_2 fst).
  - apply bool_decide_eq_true in Hgiven.
    rewrite <- (sort_by_key_perm (fun p => p) (positions.*2)).
    change (positions.*2) with (map snd positions). rewrite Hgiven. unfold seqZ. rewrite Nat2Z.id.
    apply reflexive_eq, map_ext. intros k. lia.
Qed.

Lemma position_of_some positions id p :
  NoDup positions.*1 -> (id, p) ∈ positions -> position_of positions id = Some p.
Proof.
  intros Hu Hin. unfold position_of. induction positions as [|[i q] l IH]; [by apply elem_of_nil in Hin|].
  simpl in *. inversion Hu as [|? ? Hni Hu']; subst. apply elem_of_cons in Hin as [[= -> ->] | Hin].
  - by rewrite Z.eqb_refl.
  - destruct (Z.eqb_spec i id) as [->|]; [|auto]. exfalso. apply Hni.
    by apply (list_elem_of_fmap_2 fst) in Hin.
Qed.

(** A dense reorder assigns every role the position it names. *)
Lemma reposition_dense roles positions :
  NoDup (role_ids roles) -> is_dense_reorder roles positions = true ->
  NoDup positions.*1 /\
  (forall r, r ∈ roles -> exists p, (role_id r, p) ∈ positions /\ position_of positions (role_id r) = Some p) /\
  role_positions (reposition positions roles) ≡ₚ seqZ 0 (Z.of_nat (length roles)).
Proof.
  intros Hu Hd. destruct (is_dense_reorder_spec _ _ Hu Hd) as [H1 H2].
  assert (Hnd : NoDup positions.*1) by by rewrite H1.
  assert (Hof : forall r, r ∈ roles -> exists p, (role_id r, p) ∈ positions /\ position_of positions (role_id r) = Some p).
  { intros r Hr. assert (Hin : role_id r ∈ positions.*1) by (rewrite H1; apply elem_of_role_ids; eauto).
    apply list_elem_of_fmap in Hin as ([i p] & E & Hin). simpl in E. subst i.
    exists p. split; [done | by apply position_of_some]. }
  split_and!; [done | done |]. rewrite <- H2.
  transitivity ((fun id => default 0 (position_of positions id)) <$> role_ids roles).
  - apply reflexive_eq. unfold role_positions, reposition, role_ids. rewrite !map_map.
    apply map_ext_in. intros r Hr. apply list_elem_of_In in Hr.
    destruct (Hof r Hr) as (p & _ & ->). done.
  - rewrite <- H1, <- list_fmap_compose. apply reflexive_eq, list_fmap_ext.
    intros i [id p] Hi. simpl. by rewrite (position_of_some _ id p Hnd) by (by eapply list_elem_of_lookup_2).
Qed.

Lemma reposition_map {B} (f : Role -> B) positions roles :
  (forall p r, f (set_position p r) = f r) -> map f (reposition positions roles) = map f roles.
Proof.
  intros Hf. unfold reposition. rewrite map_map. apply map_ext. intros r.
  destruct (position_of positions (role_id r)); auto.
Qed.

Lemma reordered_wf p positions :
  wf_perms p -> is_dense_reorder (ps_roles p) positions = true -> moves_everyone positions = false ->
  wf_perms (perms_reordered p positions).
Proof.
  intros [Hwf Hm] Hd Hme. pose proof (wf_unique _ Hwf) as Hu.
  destruct (reposition_dense _ _ Hu Hd) as (Hnd & Hof & Hpos).
  set (moved := reposition positions (ps_roles p)) in *.
  assert (Hids : role_ids moved = role_ids (ps_roles p)) by by apply reposition_map.
  assert (Hmoved : forall r, r ∈ moved -> exists q pos,
            q ∈ ps_roles p /\ r = set_position pos q /\ (role_id q, pos) ∈ positions).
  { intros r Hr. apply list_elem_of_fmap in Hr as (q & -> & Hq). destruct (Hof q Hq) as (pos & Hin & ->). eauto. }
  assert (Hzero : forall pos, (EVERYONE_ROLE_ID, pos) ∈ positions -> pos = 0).
  { intros pos Hin.
    pose proof (proj1 (any_false _ _) Hme _ Hin) as E. simpl in E. by bool_props. }
  destruct (everyone_exists _ Hwf) as (e & He & Hide).
  destruct (Hof e He) as (pe & Hpe & _). rewrite Hide in Hpe. pose proof (Hzero _ Hpe) as ->.
  split.
  - apply (wf_roles_dense_perm _ _ Hpos).
    + by rewrite Hids.
    + intros r Hr. apply Hmoved in Hr as (q & pos & Hq & -> & Hin). simpl. split.
      * intros E. rewrite E in Hin. by apply Hzero.
      * intros ->. destruct (is_dense_reorder_spec _ _ Hu Hd) as [_ H2].
        assert (Hnd2 : NoDup positions.*2) by (rewrite H2; apply NoDup_seqZ).
        apply list_elem_of_lookup in Hin as [i Hi]. apply list_elem_of_lookup in Hpe as [j Hj].
        assert (i = j) as ->; [|congruence].
        eapply (NoDup_lookup _ i j 0 Hnd2); rewrite list_lookup_fmap; [by rewrite Hi | by rewrite Hj].
    + intros E. assert (role_ids moved = []) as E' by by rewrite E. rewrite Hids in E'.
      destruct (ps_roles p); [by destruct (wf_inhabited _ Hwf) | done].
    + intros r Hr. apply Hmoved in Hr as (q & pos & Hq & -> & _). exact (wf_bits _ Hwf q Hq).
  - intros fp granted id Hg Hi. destruct (Hm fp granted id Hg Hi) as [H0 Hin]. split; [done|].
    cbn [ps_roles perms_reordered]. unfold role_ids. rewrite sort_by_key_perm.
    fold moved. by change (id ∈ role_ids moved); rewrite Hids.
Qed.

(** ** New grants *)

Lemma grants_wf p fp granted :
  wf_perms p -> EVERYONE_ROLE_ID ∉ granted ->
  any (fun id => negb (any (fun r => role_id r =? id) (ps_roles p))) granted = false ->
  wf_perms (perms_with_grants p fp granted).
Proof.
  intros [Hwf Hm] H0 Hknown. split; [done|]. simpl. intros f l id Hl Hid.
  assert (Hnew : id ∈ granted -> id <> EVERYONE_ROLE_ID /\ id ∈ role_ids (ps_roles p)).
  { intros Hin. split; [congruence|]. apply any_role_id.
    pose proof (proj1 (any_false _ _) Hknown id Hin) as E. by apply negb_false_iff in E. }
  destruct (is_empty granted) eqn:E.
  - apply lookup_delete_Some in Hl as [_ Hl]. by apply (Hm f l).
  - destruct (decide (f = fp)) as [->|Hne].
    + rewrite lookup_insert_eq in Hl. simplify_eq. auto.
    + rewrite lookup_insert_ne in Hl by done. by apply (Hm f l).
Qed.

(** The table a server starts from. *)
Lemma default_roles_wf : wf_perms PermState_defaults.
Proof.
  split; [split|].
  - reflexivity.
  - apply (bool_decide_unpack _). reflexivity.
  - intros r Hr. unfold PermState_defaults in Hr. cbn [ps_roles default_roles] in Hr.
    repeat (apply elem_of_cons in Hr as [-> | Hr]; [simpl; split; intros E; (reflexivity || discriminate E)|]).
    by apply elem_of_nil in Hr.
  - done.
  - intros r Hr. unfold PermState_defaults in Hr. cbn [ps_roles default_roles] in Hr.
    repeat (apply elem_of_cons in Hr as [-> | Hr]; [reflexivity|]). by apply elem_of_nil in Hr.
  - intros fp granted id Hg. change (ps_members PermState_defaults) with (∅ : gmap Fingerprint (list RoleId)) in Hg. by rewrite lookup_empty in Hg.
Qed.

#[export] Hint Resolve default_roles_wf contains_intersect_all : pickle.
