(* ===== verification/Delivery.v ===== *)
(** * Delivery of control frames

    What [send], [broadcast_to] and [drop_overflowed] do to the roster, once and for
    all: frames are only appended, only to the queues the operation selects, only
    while there is room; a client whose queue is full is dropped, and the others are
    told.  [delivers] is the relation the components above reason with. *)

From S2P Require Export State.

(** The notices that [drop_overflowed] spreads. *)
Definition is_notice (m : ServerControl) : Prop := exists id, m = SUserLeft id Kicked.

(** A notice about a client of [g]. *)
Definition notice_of (g : ClientId -> Prop) (m : ServerControl) : Prop := exists id, m = SUserLeft id Kicked /\ g id.

(** The clients that are not on the roster [m]. *)
Definition gone (m : gmap ClientId ConnectedClient) (id : ClientId) : Prop := m !! id = None.

Lemma notices_of g fs : Forall (notice_of g) fs -> Forall is_notice fs.
Proof. intros H. eapply Forall_impl; [exact H|]. intros f (id & -> & _). by exists id. Qed.

Lemma notices_mono (g h : ClientId -> Prop) fs :
  (forall id, g id -> h id) -> Forall (notice_of g) fs -> Forall (notice_of h) fs.
Proof. intros H Hf. eapply Forall_impl; [exact Hf|]. intros f (id & -> & Hid). exists id. auto. Qed.

(** [e'] is [e] with the frames [new] appended to its queue. *)
Definition extended (e e' : ConnectedClient) (new : list ServerControl) : Prop :=
  e' = set_control e (mkQueue (q_frames (cc_control e) ++ new) (q_closed (cc_control e))) /\
  ((length (q_frames (cc_control e)) <= CONTROL_QUEUE_DEPTH)%nat ->
   (length (q_frames (cc_control e) ++ new) <= CONTROL_QUEUE_DEPTH)%nat).

(** From [m] to [m'] clients may have left, and those who stayed got frames that [F] allows. *)
Definition delivers (F : ClientId -> ServerControl -> Prop) (m m' : gmap ClientId ConnectedClient) : Prop :=
  forall id e', m' !! id = Some e' ->
    exists e new, m !! id = Some e /\ extended e e' new /\ Forall (F id) new.

(** The entries are filed under their own client id. *)
Definition keyed (m : gmap ClientId ConnectedClient) : Prop :=
  forall id e, m !! id = Some e -> u_client_id (cc_info e) = id.

Definition queue_open (e : ConnectedClient) : Prop := q_closed (cc_control e) = false.
Definition queue_full (e : ConnectedClient) : Prop :=
  (CONTROL_QUEUE_DEPTH <= length (q_frames (cc_control e)))%nat.

#[global] Instance queue_open_dec e : Decision (queue_open e).
Proof. unfold queue_open. apply _. Defined.
#[global] Instance queue_full_dec e : Decision (queue_full e).
Proof. unfold queue_full. apply _. Defined.

(** ** Appending frames to one queue *)

Lemma extended_refl e : extended e e [].
Proof. split; [|by rewrite app_nil_r]. destruct e as [i [f c] d]. unfold set_control. simpl. by rewrite app_nil_r. Qed.

Lemma extended_trans e1 e2 e3 n1 n2 :
  extended e1 e2 n1 -> extended e2 e3 n2 -> extended e1 e3 (n1 ++ n2).
Proof.
  intros [-> H1] [-> H2]. unfold extended, set_control in *. simpl in *.
  rewrite !app_assoc. split; auto.
Qed.

Lemma extended_info e e' new : extended e e' new -> cc_info e' = cc_info e.
Proof. by intros [-> _]. Qed.

Lemma extended_closed e e' new : extended e e' new -> q_closed (cc_control e') = q_closed (cc_control e).
Proof. by intros [-> _]. Qed.

Lemma extended_frames e e' new :
  extended e e' new -> q_frames (cc_control e') = q_frames (cc_control e) ++ new.
Proof. by intros [-> _]. Qed.

Lemma extended_datagrams e e' new : extended e e' new -> cc_datagrams e' = cc_datagrams e.
Proof. by intros [-> _]. Qed.

(** [try_queue], by the state of the queue. *)
Lemma try_queue_cases e m :
  (~ queue_open e /\ try_queue e m = (e, None)) \/
  (queue_open e /\ queue_full e /\ try_queue e m = (e, Some (u_client_id (cc_info e)))) \/
  (queue_open e /\ ~ queue_full e /\ exists e', try_queue e m = (e', None) /\ extended e e' [m]).
Proof.
  unfold try_queue, try_send, queue_open, queue_full, extended.
  destruct e as [i [f []] d]; cbn [q_closed cc_control q_frames cc_info]; [by left | right].
  destruct (Nat.leb_spec CONTROL_QUEUE_DEPTH (length f)); [by left | right].
  split; [done|]. split; [lia|]. eexists. split; [done|]. split; [done|].
  intros _. rewrite length_app. simpl. lia.
Qed.

Lemma push_best_effort_cases m e :
  (queue_open e /\ ~ queue_full e /\ extended e (push_best_effort m e) [m]) \/
  ((~ queue_open e \/ queue_full e) /\ push_best_effort m e = e).
Proof.
  unfold push_best_effort.
  destruct (try_queue_cases e m) as [(H & ->) | [(H & Hf & ->) | (H & Hf & e' & -> & He)]]; simpl;
    [right | right | left]; auto.
Qed.

Lemma push_best_effort_extended m e :
  exists new, extended e (push_best_effort m e) new /\ (new = [] \/ new = [m]).
Proof.
  destruct (push_best_effort_cases m e) as [(_ & _ & H) | (_ & ->)]; eauto using extended_refl.
Qed.

(** ** [delivers] *)

Lemma delivers_refl F m : delivers F m m.
Proof. intros id e He. exists e, []. auto using extended_refl. Qed.

Lemma delivers_trans F m1 m2 m3 : delivers F m1 m2 -> delivers F m2 m3 -> delivers F m1 m3.
Proof.
  intros H1 H2 id e3 H3.
  destruct (H2 id e3 H3) as (e2 & n2 & Hm2 & Hx2 & HF2).
  destruct (H1 id e2 Hm2) as (e1 & n1 & Hm1 & Hx1 & HF1).
  exists e1, (n1 ++ n2). split_and!; [done | by eapply extended_trans | by apply Forall_app].
Qed.

Lemma delivers_weaken (F G : ClientId -> ServerControl -> Prop) m m' :
  (forall id f, F id f -> G id f) -> delivers F m m' -> delivers G m m'.
Proof.
  intros HFG H id e' He'. destruct (H id e' He') as (e & new & He & Hx & HF).
  exists e, new. split_and!; auto. eapply Forall_impl; eauto.
Qed.

Lemma delivers_delete F m id : delivers F m (delete id m).
Proof.
  intros k e H. apply lookup_delete_Some in H as [_ H]. exists e, []. auto using extended_refl.
Qed.

Lemma gone_delivers F m m' id : delivers F m m' -> gone m id -> gone m' id.
Proof.
  intros Hd Hg. unfold gone in *. destruct (m' !! id) as [e'|] eqn:E; [|done].
  destruct (Hd id e' E) as (e & new & He & _). congruence.
Qed.

(** ** Frames between which notices may stand *)

(** [new] is [ms] with notices about clients of [g] put in between. *)
Inductive woven (g : ClientId -> Prop) : list ServerControl -> list ServerControl -> Prop :=
| woven_nil : woven g [] []
| woven_frame m ms new : woven g ms new -> woven g (m :: ms) (m :: new)
| woven_notice m ms new : notice_of g m -> woven g ms new -> woven g ms (m :: new).

Lemma woven_notices g new : Forall (notice_of g) new -> woven g [] new.
Proof. induction 1; by constructor. Qed.

Lemma woven_app g ms1 ms2 new1 new2 : woven g ms1 new1 -> woven g ms2 new2 -> woven g (ms1 ++ ms2) (new1 ++ new2).
Proof. induction 1; intros; simpl; [done | constructor; auto | constructor; auto]. Qed.

Lemma woven_sent g (b : bool) m new : Forall (notice_of g) new -> woven g (if b then [m] else []) ((if b then [m] else []) ++ new).
Proof. intros H. destruct b; simpl; [constructor|]; by apply woven_notices. Qed.

Lemma woven_mono (g h : ClientId -> Prop) ms new : (forall id, g id -> h id) -> woven g ms new -> woven h ms new.
Proof. intros H. induction 1 as [| | m ms new (id & -> & Hid)]; constructor; auto. exists id. auto. Qed.

(** Only the set of the clients changed. *)
Definition only_clients {DB} (s s' : Shared DB) : Prop := s' = set_clients (the_clients s') s.

Lemma only_clients_set {DB} (s : Shared DB) m : only_clients s (set_clients m s).
Proof. done. Qed.

Lemma only_clients_refl {DB} (s : Shared DB) : only_clients s s.
Proof. by destruct s as [? ? ? ? ? ? ? [? ? ? ?] ? ?]. Qed.

Lemma only_clients_trans {DB} (s1 s2 s3 : Shared DB) :
  only_clients s1 s2 -> only_clients s2 s3 -> only_clients s1 s3.
Proof. unfold only_clients. intros H1 H2. rewrite H2, H1. done. Qed.

Lemma the_clients_set {DB} (s : Shared DB) m : the_clients (set_clients m s) = m.
Proof. done. Qed.

Lemma the_channels_set_clients {DB} (s : Shared DB) m : the_channels (set_clients m s) = the_channels s.
Proof. done. Qed.

(** What [only_clients] leaves alone. *)
Lemma only_clients_perms {DB} (s s' : Shared DB) : only_clients s s' -> perms s' = perms s.
Proof. intros ->. done. Qed.
Lemma only_clients_channels {DB} (s s' : Shared DB) : only_clients s s' -> the_channels s' = the_channels s.
Proof. intros ->. done. Qed.
Lemma only_clients_owner {DB} (s s' : Shared DB) : only_clients s s' -> owner s' = owner s.
Proof. intros ->. done. Qed.
Lemma only_clients_store {DB} (s s' : Shared DB) : only_clients s s' -> store s' = store s.
Proof. intros ->. done. Qed.

#[export] Hint Resolve extended_refl delivers_refl delivers_delete only_clients_set only_clients_refl : pickle.

Section Messaging.
Context {C : Crypto} {HO : HashOrder} {L : HashOrderLaws HO} {DB : Type}.
Implicit Types s : Shared DB.

(** ** Dropping the clients that fell behind *)

Definition drop_one s (id : ClientId) : Shared DB := drop_overflowed s [id].

Lemma drop_overflowed_cons s id ids : drop_overflowed s (id :: ids) = drop_overflowed (drop_one s id) ids.
Proof. done. Qed.

Lemma drop_one_some s id e :
  the_clients s !! id = Some e ->
  drop_one s id = set_clients (push_best_effort (SUserLeft id Kicked) <$> delete id (the_clients s)) s.
Proof. intros H. unfold drop_one, drop_overflowed, State.remove, user. simpl. by rewrite H. Qed.

Lemma drop_one_none s id : the_clients s !! id = None -> the_clients (drop_one s id) = the_clients s.
Proof.
  intros H. unfold drop_one, drop_overflowed, State.remove, user. simpl. rewrite H. simpl.
  by rewrite the_clients_set, delete_id.
Qed.

(** Who remains, and what they were told. *)
Lemma drop_one_lookup s id k :
  match the_clients (drop_one s id) !! k with
  | None => the_clients s !! k = None \/ k = id
  | Some e' => k <> id /\ exists e new, the_clients s !! k = Some e /\ extended e e' new /\ Forall (notice_of (fun i => i = id)) new
  end.
Proof.
  destruct (the_clients s !! id) as [v|] eqn:Hid.
  - rewrite (drop_one_some _ _ _ Hid), the_clients_set, lookup_fmap.
    destruct (decide (k = id)) as [->|Hne]; [rewrite lookup_delete_eq; simpl; by right|].
    rewrite lookup_delete_ne by done. destruct (the_clients s !! k) as [e|]; simpl; [|by left].
    split; [done|]. destruct (push_best_effort_extended (SUserLeft id Kicked) e) as (new & Hx & Hn).
    exists e, new. split_and!; [done | done |]. destruct Hn as [-> | ->]; repeat constructor. by exists id.
  - rewrite drop_one_none by done. destruct (the_clients s !! k) as [e|] eqn:Hk; [|by left].
    split; [congruence|]. exists e, []. auto using extended_refl.
Qed.

Lemma drop_one_only s id : only_clients s (drop_one s id).
Proof. unfold drop_one, drop_overflowed, State.remove, user. simpl. by destruct (the_clients s !! id). Qed.

Lemma drop_overflowed_only s ids : only_clients s (drop_overflowed s ids).
Proof.
  revert s; induction ids as [|id ids IH]; intros s; [apply only_clients_refl|].
  rewrite drop_overflowed_cons. eapply only_clients_trans; [apply drop_one_only | apply IH].
Qed.

Lemma drop_overflowed_lookup s ids k :
  match the_clients (drop_overflowed s ids) !! k with
  | None => the_clients s !! k = None \/ k ∈ ids
  | Some e' => (k ∉ ids) /\ exists e new, the_clients s !! k = Some e /\ extended e e' new /\ Forall (notice_of (fun i => i ∈ ids)) new
  end.
Proof.
  revert s; induction ids as [|id ids IH]; intros s.
  - simpl. destruct (the_clients s !! k) as [e|]; [|by left].
    split; [apply not_elem_of_nil|]. exists e, []. auto using extended_refl.
  - rewrite drop_overflowed_cons. specialize (IH (drop_one s id)). pose proof (drop_one_lookup s id k) as H1.
    destruct (the_clients (drop_overflowed (drop_one s id) ids) !! k) as [e2|].
    + destruct IH as (Hni & e1 & n2 & He1 & Hx2 & Hn2). rewrite He1 in H1.
      destruct H1 as (Hne & e & n1 & He & Hx1 & Hn1). split; [rewrite elem_of_cons; tauto|].
      exists e, (n1 ++ n2). split_and!; [done | by eapply extended_trans |].
      apply Forall_app. split; (eapply notices_mono; [|done]); intros i Hi; rewrite elem_of_cons; tauto.
    + rewrite elem_of_cons. destruct IH as [IH | IH]; [|tauto]. rewrite IH in H1. tauto.
Qed.

(** The notices are about clients that are off the roster now. *)
Lemma drop_overflowed_exact s ids k :
  match the_clients (drop_overflowed s ids) !! k with
  | None => the_clients s !! k = None \/ k ∈ ids
  | Some e' => (k ∉ ids) /\ exists e new, the_clients s !! k = Some e /\ extended e e' new /\
      Forall (notice_of (gone (the_clients (drop_overflowed s ids)))) new
  end.
Proof.
  pose proof (drop_overflowed_lookup s ids k) as H. destruct (_ !! k) as [e'|] eqn:E; [|done].
  destruct H as (Hni & e & new & He & Hx & Hn). split; [done|]. exists e, new. split_and!; [done | done |].
  eapply notices_mono; [|done]. intros i Hi. unfold gone. pose proof (drop_overflowed_lookup s ids i) as Hd.
  destruct (the_clients (drop_overflowed s ids) !! i); [tauto | done].
Qed.

(** ** Broadcasting *)

(** One selected frame after another: the exact effect of [broadcast_to] on one client. *)
Lemma broadcast_to_exact sel s m k :
  keyed (the_clients s) ->
  match the_clients (broadcast_to sel s m) !! k with
  | None => the_clients s !! k = None \/
      exists e, the_clients s !! k = Some e /\ sel k e = true /\ queue_open e /\ queue_full e
  | Some e' => exists e new, the_clients s !! k = Some e /\
      extended e e' ((if sel k e && bool_decide (queue_open e) then [m] else []) ++ new) /\
      Forall (notice_of (gone (the_clients (broadcast_to sel s m)))) new /\ (sel k e = true -> queue_open e -> ~ queue_full e)
  end.
Proof.
  intros Hkey. unfold broadcast_to.
  set (over := omap _ _). set (queued := map_imap _ _).
  assert (Hover : forall e, the_clients s !! k = Some e ->
            (k ∈ over <-> sel k e = true /\ queue_open e /\ queue_full e)).
  { intros e He. unfold over. rewrite list_elem_of_omap. split.
    - intros ((id & e0) & Hin & Hsome). apply elem_of_hash_iter in Hin. simpl in Hsome.
      destruct (sel id e0) eqn:Hs; [|done].
      destruct (try_queue_cases e0 m) as [(? & Hq) | [(? & ? & Hq) | (? & ? & ? & Hq & ?)]];
        rewrite Hq in Hsome; try discriminate Hsome; injection Hsome as Hk.
      rewrite (Hkey _ _ Hin) in Hk. subst id. rewrite Hin in He. by simplify_eq.
    - intros (Hs & Ho & Hf). exists (k, e). split; [by apply elem_of_hash_iter|]. simpl. rewrite Hs.
      destruct (try_queue_cases e m) as [(? & Hq) | [(? & ? & Hq) | (? & ? & ? & Hq & ?)]];
        rewrite Hq; simpl; [tauto | f_equal; auto | tauto]. }
  pose proof (drop_overflowed_exact (set_clients queued s) over k) as Hd.
  rewrite the_clients_set in Hd. unfold queued in Hd. rewrite map_lookup_imap in Hd.
  destruct (the_clients (drop_overflowed _ over) !! k) as [e'|].
  - destruct Hd as (Hni & e1 & n & He1 & Hx & Hn).
    destruct (the_clients s !! k) as [e|] eqn:He; simplify_eq/=. specialize (Hover e eq_refl).
    exists e. assert (Hne : sel k e = true -> queue_open e -> ~ queue_full e) by tauto.
    destruct (sel k e) eqn:Hs; simpl.
    + destruct (push_best_effort_cases m e) as [(Ho & _ & He1) | (Hc & He1)].
      * rewrite bool_decide_eq_true_2 by done. exists n. split_and!; auto. by eapply extended_trans.
      * rewrite bool_decide_eq_false_2 by tauto. rewrite He1 in Hx. exists n. split_and!; auto.
    + exists n. split_and!; auto.
  - destruct (the_clients s !! k) as [e|] eqn:He; simpl in Hd; [|by left]. right.
    exists e. split; [done|]. apply (Hover e eq_refl). destruct Hd; [done | done].
Qed.

Lemma broadcast_to_lookup sel s m k :
  keyed (the_clients s) ->
  match the_clients (broadcast_to sel s m) !! k with
  | None => the_clients s !! k = None \/
      exists e, the_clients s !! k = Some e /\ sel k e = true /\ queue_open e /\ queue_full e
  | Some e' => exists e new, the_clients s !! k = Some e /\
      extended e e' ((if sel k e && bool_decide (queue_open e) then [m] else []) ++ new) /\
      Forall is_notice new /\ (sel k e = true -> queue_open e -> ~ queue_full e)
  end.
Proof.
  intros Hk. pose proof (broadcast_to_exact sel s m k Hk) as H. destruct (_ !! k) as [e'|]; [|done].
  destruct H as (e & new & He & Hx & Hn & Hf). exists e, new. split_and!; eauto using notices_of.
Qed.

Lemma broadcast_to_only sel s m : only_clients s (broadcast_to sel s m).
Proof. eapply only_clients_trans; [apply only_clients_set | apply drop_overflowed_only]. Qed.

(** ** Sending to one client *)

Lemma send_exact s client m k :
  keyed (the_clients s) ->
  match the_clients (send s client m) !! k with
  | None => the_clients s !! k = None \/
      exists e, the_clients s !! k = Some e /\ k = client /\ queue_open e /\ queue_full e
  | Some e' => exists e new, the_clients s !! k = Some e /\
      extended e e' ((if bool_decide (k = client /\ queue_open e) then [m] else []) ++ new) /\
      Forall (notice_of (gone (the_clients (send s client m)))) new /\ (k = client -> queue_open e -> ~ queue_full e)
  end.
Proof.
  intros Hkey. unfold send. destruct (the_clients s !! client) as [ec|] eqn:Hc.
  2:{ destruct (the_clients s !! k) as [e|] eqn:Hk; [|by left].
      exists e, []. rewrite bool_decide_eq_false_2 by (intros [-> ?]; simplify_eq; tauto). split_and!; auto using extended_refl.
      intros ->. congruence. }
  destruct (try_queue ec m) as [ec1 over] eqn:Hq.
  pose proof (drop_overflowed_exact (set_clients (<[client:=ec1]> (the_clients s)) s) (option_list over) k) as Hd.
  rewrite the_clients_set in Hd. generalize dependent (drop_overflowed (set_clients (<[client:=ec1]> (the_clients s)) s) (option_list over)).
  intros s' Hd.
  destruct (try_queue_cases ec m) as [(Ho & E) | [(Ho & Hf & E) | (Ho & Hf & e1 & E & Hx1)]];
    rewrite E in Hq; injection Hq; intros <- <-; clear Hq; cbn [option_list] in Hd.
  - rewrite insert_id in Hd by done. destruct (the_clients s' !! k) as [e'|].
    + destruct Hd as (_ & e & new & He & Hx & Hn). exists e, new.
      rewrite bool_decide_eq_false_2 by (intros [-> ?]; simplify_eq; tauto). split_and!; auto. by intros ->; simplify_eq.
    + destruct Hd as [Hd | Hd]; [by left | by apply elem_of_nil in Hd].
  - rewrite insert_id in Hd by done. rewrite (Hkey _ _ Hc) in Hd.
    destruct (the_clients s' !! k) as [e'|].
    + destruct Hd as (Hni & e & new & He & Hx & Hn). apply not_elem_of_cons in Hni as [Hne _].
      exists e, new. rewrite bool_decide_eq_false_2 by (intros [-> ?]; simplify_eq; tauto). split_and!; auto.
    + destruct Hd as [Hd | Hd]; [by left|]. apply list_elem_of_singleton in Hd as ->.
      right. exists ec. split_and!; auto.
  - destruct (the_clients s' !! k) as [e'|].
    + destruct Hd as (_ & e0 & new & He0 & Hx & Hn). destruct (decide (k = client)) as [->|Hne].
      * rewrite lookup_insert_eq in He0. simplify_eq. exists ec, new.
        rewrite bool_decide_eq_true_2 by done. split_and!; auto. by eapply extended_trans.
      * rewrite lookup_insert_ne in He0 by done. exists e0, new.
        rewrite bool_decide_eq_false_2 by (intros [-> ?]; simplify_eq; tauto). split_and!; auto.
    + destruct Hd as [Hd | Hd]; [|by apply elem_of_nil in Hd]. left.
      apply lookup_insert_None in Hd. tauto.
Qed.

Lemma send_lookup s client m k :
  keyed (the_clients s) ->
  match the_clients (send s client m) !! k with
  | None => the_clients s !! k = None \/
      exists e, the_clients s !! k = Some e /\ k = client /\ queue_open e /\ queue_full e
  | Some e' => exists e new, the_clients s !! k = Some e /\
      extended e e' ((if bool_decide (k = client /\ queue_open e) then [m] else []) ++ new) /\
      Forall is_notice new /\ (k = client -> queue_open e -> ~ queue_full e)
  end.
Proof.
  intros Hk. pose proof (send_exact s client m k Hk) as H. destruct (_ !! k) as [e'|]; [|done].
  destruct H as (e & new & He & Hx & Hn & Hf). exists e, new. split_and!; eauto using notices_of.
Qed.

Lemma send_only s client m : only_clients s (send s client m).
Proof.
  unfold send. destruct (the_clients s !! client) as [e|]; [|apply only_clients_refl].
  destruct (try_queue e m) as [e' over]. eapply only_clients_trans; [apply only_clients_set | apply drop_overflowed_only].
Qed.

End Messaging.

(** ** The same facts as [delivers] *)

Section Delivers.
Context {C : Crypto} {HO : HashOrder} {L : HashOrderLaws HO} {DB : Type}.
Implicit Types s : Shared DB.

(** What one operation may put in a queue: the notices, and the frame itself where selected. *)
Definition allows (sel : ClientId -> Prop) (m : ServerControl) (id : ClientId) (f : ServerControl) : Prop :=
  is_notice f \/ (f = m /\ sel id).

Lemma Forall_allows (sel : ClientId -> Prop) (m : ServerControl) id (b : bool) new :
  (b = true -> sel id) -> Forall is_notice new ->
  Forall (allows sel m id) ((if b then [m] else []) ++ new).
Proof.
  intros Hb Hn. apply Forall_app. split.
  - destruct b; [|constructor]. constructor; [unfold allows; right; auto | constructor].
  - eapply Forall_impl; [exact Hn|]. intros f Hf. unfold allows; by left.
Qed.

Lemma broadcast_to_delivers sel s m :
  keyed (the_clients s) ->
  delivers (allows (fun id => exists e, the_clients s !! id = Some e /\ sel id e = true) m)
    (the_clients s) (the_clients (broadcast_to sel s m)).
Proof.
  intros Hk id e' He'. pose proof (broadcast_to_lookup sel s m id Hk) as H. rewrite He' in H.
  destruct H as (e & new & He & Hx & Hn & _). exists e. eexists. split_and!; [done | exact Hx |].
  apply Forall_allows; [|done]. intros Hb. apply andb_true_iff in Hb as [Hb _]. eauto.
Qed.

Lemma send_delivers s client m :
  keyed (the_clients s) ->
  delivers (allows (fun id => id = client) m) (the_clients s) (the_clients (send s client m)).
Proof.
  intros Hk id e' He'. pose proof (send_lookup s client m id Hk) as H. rewrite He' in H.
  destruct H as (e & new & He & Hx & Hn & _). exists e. eexists. split_and!; [done | exact Hx |].
  apply Forall_allows; [|done]. intros Hb. by apply bool_decide_eq_true in Hb as [-> _].
Qed.

Lemma keyed_delivers F m m' : keyed m -> delivers F m m' -> keyed m'.
Proof.
  intros Hk Hd id e' He'. destruct (Hd id e' He') as (e & new & He & Hx & _).
  rewrite (extended_info _ _ _ Hx). by apply Hk.
Qed.

(** A method that only talks: the roster keeps its entries, minus those dropped. *)
Definition talks s s' : Prop :=
  only_clients s s' /\ delivers (fun _ _ => True) (the_clients s) (the_clients s').

Lemma talks_refl s : talks s s.
Proof. split; auto with pickle. Qed.

Lemma talks_trans s1 s2 s3 : talks s1 s2 -> talks s2 s3 -> talks s1 s3.
Proof. intros [? ?] [? ?]. split; [by eapply only_clients_trans | by eapply delivers_trans]. Qed.

Lemma send_talks s client m : keyed (the_clients s) -> talks s (send s client m).
Proof.
  intros Hk. split; [apply send_only|]. eapply delivers_weaken; [|by apply send_delivers]. done.
Qed.

Lemma broadcast_to_talks sel s m : keyed (the_clients s) -> talks s (broadcast_to sel s m).
Proof.
  intros Hk. split; [apply broadcast_to_only|]. eapply delivers_weaken; [|by apply broadcast_to_delivers]. done.
Qed.

Lemma keyed_talks s s' : keyed (the_clients s) -> talks s s' -> keyed (the_clients s').
Proof. intros Hk [_ Hd]. by eapply keyed_delivers. Qed.

Lemma broadcast_filtered_talks s m chan except :
  keyed (the_clients s) -> talks s (broadcast_filtered s m chan except).
Proof.
  intros Hk. unfold broadcast_filtered. destruct (the_channels s !! chan); [|apply talks_refl].
  by apply broadcast_to_talks.
Qed.

(** The talking methods change the set of clients only, whatever the keys. *)
Lemma fold_only {A} (f : Shared DB -> A -> Shared DB) l s0 s :
  (forall s a, only_clients s (f s a)) -> only_clients s0 s -> only_clients s0 (fold_left f l s).
Proof.
  intros Hf. revert s; induction l as [|a l IH]; intros s Ho; simpl; [done|].
  apply IH. eapply only_clients_trans; [exact Ho | apply Hf].
Qed.

Lemma broadcast_only s m except : only_clients s (broadcast s m except).
Proof. apply broadcast_to_only. Qed.

Lemma resync_visibility_only s before touched : only_clients s (resync_visibility s before touched).
Proof.
  unfold resync_visibility. apply fold_only; [|apply only_clients_refl]. intros s1 [client was].
  destruct (after_get _ client); [|apply only_clients_refl]. unfold resync_client.
  apply fold_only; [|apply fold_only; [|apply fold_only; [|apply only_clients_refl]]]; intros s2 id.
  - destruct (_ && _); [|apply only_clients_refl]. destruct (_ !! id); [apply send_only | apply only_clients_refl].
  - apply send_only.
  - destruct (_ !! id); [apply send_only | apply only_clients_refl].
Qed.

(** A fold of talking steps talks. *)
Lemma fold_talks {A} (f : Shared DB -> A -> Shared DB) l s0 s :
  (forall s a, keyed (the_clients s) -> talks s (f s a)) ->
  keyed (the_clients s0) -> talks s0 s -> talks s0 (fold_left f l s).
Proof.
  intros Hf Hk. revert s; induction l as [|a l IH]; intros s Ht; simpl; [done|].
  apply IH. eapply talks_trans; [exact Ht|]. apply Hf. by eapply keyed_talks.
Qed.

Lemma resync_client_talks chans touched s client was now :
  keyed (the_clients s) -> talks s (resync_client chans touched s client was now).
Proof.
  intros Hk. unfold resync_client.
  apply fold_talks; [|done|apply fold_talks; [|done|apply fold_talks; [|done|apply talks_refl]]];
    intros s1 id Hk1; try by apply send_talks.
  - destruct (_ && _); [|apply talks_refl].
    destruct (chans !! id); [by apply send_talks | apply talks_refl].
  - destruct (chans !! id); [by apply send_talks | apply talks_refl].
Qed.

Lemma resync_visibility_talks s before touched :
  keyed (the_clients s) -> talks s (resync_visibility s before touched).
Proof.
  intros Hk. unfold resync_visibility. apply fold_talks; [|done|apply talks_refl].
  intros s1 [client was] Hk1. destruct (after_get _ client); [by apply resync_client_talks | apply talks_refl].
Qed.

End Delivers.
