(* ===== verification/Invariant.v ===== *)
(** * The invariant of the server state

    What holds of [Shared] between any two steps: clients are filed under their own id,
    their queues are bounded, their nicknames clean, a deafened client is muted, an occupied
    channel exists; channels are filed under their own id and their overwrites are
    channel-scoped and consistent; the role table is well formed.  One lemma per method
    shows that the method keeps it. *)

From S2P Require Export Delivery RoleTable Session.

(** ** The invariant *)

Definition nickname_ok (max_len : Z) (n : rstring) : Prop :=
  n <> [] /\ Z.of_nat (length n) <= Z.max 0 max_len /\ Forall (fun c => is_control c = false) n.

Record wf_user (lim : ServerLimits) (chans : gmap ChannelId Channel) (u : UserInfo) : Prop := {
  wf_deafened : self_deafened (u_voice u) = true -> self_muted (u_voice u) = true;
  wf_nickname : nickname_ok (max_nickname_len lim) (u_nickname u);
  wf_place : forall c, u_channel u = Some c -> is_Some (chans !! c) }.

Record wf_client (lim : ServerLimits) (chans : gmap ChannelId Channel) (id : ClientId)
    (e : ConnectedClient) : Prop := {
  wf_key : u_client_id (cc_info e) = id;
  wf_queue : (length (q_frames (cc_control e)) <= CONTROL_QUEUE_DEPTH)%nat;
  wf_info : wf_user lim chans (cc_info e) }.

(** Overwrites: one per target, within [CHANNEL_SCOPED], no bit both allowed and denied. *)
Definition wf_overwrite (o : Overwrite) : Prop :=
  contains CHANNEL_SCOPED (ow_allow o) = true /\ contains CHANNEL_SCOPED (ow_deny o) = true /\
  intersect (ow_allow o) (ow_deny o) = 0.

Definition wf_overwrites (ows : list Overwrite) : Prop :=
  NoDup (map ow_target ows) /\ Forall wf_overwrite ows.

Definition wf_channels (chans : gmap ChannelId Channel) : Prop :=
  forall id c, chans !! id = Some c -> ch_id c = id /\ wf_overwrites (ch_overwrites c).

Record server_inv {DB} (s : Shared DB) : Prop := {
  inv_clients : forall id e, the_clients s !! id = Some e -> wf_client (limits s) (the_channels s) id e;
  inv_channels : wf_channels (the_channels s);
  inv_perms : wf_perms (perms s);
  inv_next_client : 1 <= next_client_id (inner s) < 2 ^ 32 }.

(** ** Nicknames and overwrites *)

Lemma retain_no_control raw : Forall (fun c => is_control c = false) (retain (fun c => negb (is_control c)) raw).
Proof.
  apply Forall_forall. intros c Hc. apply elem_of_retain in Hc as [_ Hc]. by apply negb_true_iff in Hc.
Qed.

Lemma Forall_trim (P : char -> Prop) s : Forall P s -> Forall P (trim s).
Proof. rewrite !Forall_forall. intros H c Hc. apply H. by apply elem_of_trim. Qed.

Lemma sanitize_nickname_ok raw max_len n :
  sanitize_nickname raw (Z.to_nat max_len) = Some n -> nickname_ok max_len n.
Proof.
  unfold sanitize_nickname. set (cleaned := take _ _). intros H.
  destruct (is_empty cleaned) eqn:E; [done|]. injection H as <-.
  unfold nickname_ok. split_and!.
  - by apply is_empty_false in E.
  - unfold cleaned. rewrite length_take. lia.
  - unfold cleaned. apply Forall_take, Forall_trim, retain_no_control.
Qed.

Lemma wf_overwrites_retain (p : Overwrite -> bool) ows : wf_overwrites ows -> wf_overwrites (retain p ows).
Proof.
  intros [Hn Hf]. split.
  2:{ rewrite Forall_forall in Hf |- *. intros o [Ho _]%elem_of_retain. auto. }
  eapply sublist_NoDup; [exact Hn|]. apply (fmap_sublist ow_target), sublist_filter.
Qed.

Lemma wf_overwrites_replace ows ow :
  wf_overwrites ows -> wf_overwrite ow ->
  wf_overwrites (retain (fun o => negb (bool_decide (ow_target o = ow_target ow))) ows ++ [ow]).
Proof.
  intros Hows How. destruct (wf_overwrites_retain (fun o => negb (bool_decide (ow_target o = ow_target ow))) _ Hows) as [Hn Hf].
  split.
  - rewrite map_app. apply NoDup_app. split_and!; [done | | apply NoDup_singleton].
    intros t Ht Ht'. apply list_elem_of_singleton in Ht' as ->.
    apply list_elem_of_fmap in Ht as (o & Heq & Ho). apply elem_of_retain in Ho as [_ Ho].
    apply negb_true_iff, bool_decide_eq_false in Ho. congruence.
  - apply Forall_app. split; [done | by constructor].
Qed.

Lemma contains_intersect_r bits mask : contains mask (intersect bits mask) = true.
Proof.
  unfold contains, intersect. apply Z.eqb_eq. by rewrite (Z.land_comm bits), Z.land_assoc, Z.land_diag.
Qed.

(** ** Users *)

Lemma wf_user_channels lim chans chans' u :
  (forall id, is_Some (chans !! id) -> is_Some (chans' !! id)) -> wf_user lim chans u -> wf_user lim chans' u.
Proof. intros H [Hd Hn Hp]. split; auto. Qed.

Lemma wf_user_roles lim chans u r : wf_user lim chans u -> wf_user lim chans (set_user_roles r u).
Proof. by intros []. Qed.

Lemma wf_user_place lim chans u c :
  (forall i, c = Some i -> is_Some (chans !! i)) -> wf_user lim chans u -> wf_user lim chans (set_user_channel c u).
Proof. intros Hc [Hd Hn _]. split; auto. Qed.

Section Methods.
Context {C : Crypto} {HO : HashOrder} {L : HashOrderLaws HO} {DB : Type}.
Implicit Types s : Shared DB.

(** ** The shape of the methods *)

Lemma inv_keyed s : server_inv s -> keyed (the_clients s).
Proof. intros Hinv id e He. apply (wf_key _ _ _ _ (inv_clients _ Hinv _ _ He)). Qed.

Lemma inv_set_clients s m :
  server_inv s -> (forall id e, m !! id = Some e -> wf_client (limits s) (the_channels s) id e) ->
  server_inv (set_clients m s).
Proof. intros [_ Hch Hp Hn] Hm. by split. Qed.

Lemma inv_talks s s' : server_inv s -> talks s s' -> server_inv s'.
Proof.
  intros Hinv [Ho Hd]. rewrite Ho. apply inv_set_clients; [done|].
  intros id e' He'. destruct (Hd id e' He') as (e & new & He & [-> Hlen] & _).
  destruct (inv_clients _ Hinv _ _ He) as [Hk Hq Hi]. split; simpl; auto.
Qed.

(** A change to the records of some clients. *)
Lemma wf_client_info lim chans id e f :
  wf_client lim chans id e -> wf_user lim chans (f (cc_info e)) ->
  u_client_id (f (cc_info e)) = u_client_id (cc_info e) -> wf_client lim chans id (map_info f e).
Proof. intros [Hk Hq Hi] Hf Hid. split; simpl; [congruence | done | done]. Qed.

Lemma inv_update_client s client e f :
  server_inv s -> the_clients s !! client = Some e ->
  (wf_user (limits s) (the_channels s) (cc_info e) -> wf_user (limits s) (the_channels s) (f (cc_info e))) ->
  u_client_id (f (cc_info e)) = u_client_id (cc_info e) ->
  server_inv (update_client f s client e).
Proof.
  intros Hinv He Hf Hid. apply inv_set_clients; [done|]. intros id e'.
  destruct (decide (id = client)) as [->|Hne].
  - rewrite lookup_insert_eq. intros [= <-].
    pose proof (inv_clients _ Hinv _ _ He) as Hw. apply wf_client_info; auto. apply Hf, (wf_info _ _ _ _ Hw).
  - rewrite lookup_insert_ne by done. apply (inv_clients _ Hinv).
Qed.

Lemma inv_modify_user s client f :
  server_inv s ->
  (forall u, wf_user (limits s) (the_channels s) u ->
     wf_user (limits s) (the_channels s) (f u) /\ u_client_id (f u) = u_client_id u) ->
  server_inv (modify_user f s client).2.
Proof.
  intros Hinv Hf. unfold modify_user. destruct (the_clients s !! client) as [e|] eqn:He; [|done].
  pose proof (wf_info _ _ _ _ (inv_clients _ Hinv _ _ He)) as Hw. simpl.
  apply inv_update_client; [done | done | intros _ |]; by apply Hf.
Qed.

Lemma inv_modify_where s p f :
  server_inv s ->
  (forall u, p u = true -> wf_user (limits s) (the_channels s) u ->
     wf_user (limits s) (the_channels s) (f u) /\ u_client_id (f u) = u_client_id u) ->
  server_inv (modify_where p f s).2.
Proof.
  intros Hinv Hf. apply inv_set_clients; [done|]. intros id e'. rewrite lookup_fmap.
  destruct (the_clients s !! id) as [e|] eqn:He; simpl; [|done]. intros [= <-].
  pose proof (inv_clients _ Hinv _ _ He) as Hw.
  destruct (p (cc_info e)) eqn:Hp; [|done].
  destruct (Hf _ Hp (wf_info _ _ _ _ Hw)). by apply wf_client_info.
Qed.

Lemma inv_set_channels s chans :
  server_inv s -> wf_channels chans ->
  (forall id, is_Some (the_channels s !! id) -> is_Some (chans !! id)) ->
  server_inv (set_channels chans s).
Proof.
  intros [Hc Hch Hp Hn] Hw Hsub. split; [|done|done|done].
  intros id e He. destruct (Hc id e He) as [Hk Hq Hi]. split; [done | done | by eapply wf_user_channels].
Qed.

(** ** The methods, one by one *)

Lemma inv_send s client m : server_inv s -> server_inv (send s client m).
Proof. intros H. eapply inv_talks; [exact H|]. by apply send_talks, inv_keyed. Qed.

Lemma inv_broadcast s m except : server_inv s -> server_inv (broadcast s m except).
Proof. intros H. eapply inv_talks; [exact H|]. by apply broadcast_to_talks, inv_keyed. Qed.

Lemma inv_broadcast_filtered s m chan except : server_inv s -> server_inv (broadcast_filtered s m chan except).
Proof. intros H. eapply inv_talks; [exact H|]. by apply broadcast_filtered_talks, inv_keyed. Qed.

Lemma inv_resync s before touched : server_inv s -> server_inv (resync_visibility s before touched).
Proof. intros H. eapply inv_talks; [exact H|]. by apply resync_visibility_talks, inv_keyed. Qed.

Lemma inv_remove s client : server_inv s -> server_inv (State.remove s client).2.
Proof.
  intros H. apply inv_set_clients; [done|]. intros id e [_ He]%lookup_delete_Some. by apply (inv_clients _ H).
Qed.

Lemma inv_eject s victim reason : server_inv s -> server_inv (eject s victim reason).2.
Proof.
  intros H. unfold eject. destruct (the_clients s !! victim); [|done].
  apply inv_broadcast. apply (inv_remove s victim H).
Qed.

Lemma inv_close_transport s e code reason : server_inv s -> server_inv (close_transport s e code reason).
Proof. by intros [? ? ? ?]. Qed.

Lemma inv_admit s ident nickname :
  server_inv s -> server_inv (admit_client s ident nickname new_queue).2.
Proof.
  intros Hinv. unfold admit_client. destruct (_ <? _); [done|].
  destruct (sanitize_nickname _ _) as [n|] eqn:Hn; [|done]. apply sanitize_nickname_ok in Hn.
  destruct (_ <=? _); [done|]. destruct Hinv as [Hc Hch Hp Hnext]. split; [|done|done|].
  - intros id e. unfold the_clients. simpl. destruct (decide (id = next_client_id (inner s))) as [->|Hne].
    + rewrite lookup_insert_eq. intros [= <-]. split; simpl; [done | lia |]. by split.
    + rewrite lookup_insert_ne by done. apply Hc.
  - simpl. pose proof (wrap_fits 32 (next_client_id (inner s) + 1)) as Hf. unfold fits in Hf. lia.
Qed.

Lemma inv_join s client chan : server_inv s -> server_inv (join_channel s client chan).2.
Proof.
  intros Hinv. unfold join_channel. destruct (the_channels s !! chan) as [t|] eqn:Hch; [|done].
  destruct (the_clients s !! client) as [e|] eqn:He; [|done].
  repeat (case_match; [done|]). simpl. apply inv_update_client; [done | done | | done].
  apply wf_user_place. intros i [= <-]. by rewrite Hch.
Qed.

Lemma inv_leave s client : server_inv s -> server_inv (leave_channel s client).2.
Proof.
  intros Hinv. unfold leave_channel. destruct (the_clients s !! client) as [e|] eqn:He; [|done].
  apply inv_update_client; [done | done | by apply wf_user_place | done].
Qed.

Lemma inv_force_move s client to : server_inv s -> server_inv (force_move s client to).2.
Proof.
  intros Hinv. unfold force_move. destruct to as [chan|].
  - destruct (the_channels s !! chan) as [t|] eqn:Hch; [|done].
    repeat (case_match; [done|]). destruct (the_clients s !! client) as [e|] eqn:He; [|done].
    apply inv_update_client; [done | done | | done].
    apply wf_user_place. intros i [= <-]. by rewrite Hch.
  - destruct (the_clients s !! client) as [e|] eqn:He; [|done].
    apply inv_update_client; [done | done | by apply wf_user_place | done].
Qed.

Lemma inv_set_voice_state s client muted deafened :
  server_inv s -> server_inv (set_voice_state s client muted deafened).2.
Proof.
  intros Hinv. apply inv_modify_user; [done|]. intros u [Hd Hn Hp]. split; [|done].
  split; simpl; [by intros -> | done | done].
Qed.

Lemma inv_set_server_muted s client muted : server_inv s -> server_inv (set_server_muted s client muted).2.
Proof.
  intros Hinv. apply inv_modify_user; [done|]. intros u [Hd Hn Hp]. split; [by split | done].
Qed.

Lemma inv_set_nickname s client n : server_inv s -> server_inv (set_nickname s client n).2.
Proof.
  intros Hinv. unfold set_nickname. destruct (sanitize_nickname _ _) eqn:Hn; [|done].
  apply sanitize_nickname_ok in Hn. apply inv_modify_user; [done|]. intros u [Hd _ Hp]. split; [by split | done].
Qed.

Lemma inv_build_message s author chan content reply :
  server_inv s -> server_inv (build_message s author chan content reply).2.
Proof. by intros [? ? ? ?]. Qed.

Lemma inv_store_step {A} (err : A) f s : server_inv s -> server_inv (store_step err f s).2.
Proof.
  intros [? ? ? ?]. unfold store_step. destruct (store s) as [d|]; [|done]. by destruct (f d).
Qed.

Lemma inv_swap_perms s p : server_inv s -> wf_perms p -> server_inv (swap_perm_state s p).
Proof. by intros [? ? ? ?]. Qed.

Lemma inv_update_live_member_roles s fp roles :
  server_inv s -> server_inv (update_live_member_roles s fp roles).2.
Proof. intros H. apply inv_modify_where; [done|]. intros u _ Hu. split; [by apply wf_user_roles | done]. Qed.

Lemma inv_strip_live_role s role : server_inv s -> server_inv (strip_live_role s role).2.
Proof. intros H. apply inv_modify_where; [done|]. intros u _ Hu. split; [by apply wf_user_roles | done]. Qed.

Lemma inv_set_overwrites s chan c ows :
  server_inv s -> the_channels s !! chan = Some c -> wf_overwrites ows ->
  server_inv (set_channels (<[chan := set_overwrites ows c]> (the_channels s)) s).
Proof.
  intros H Hc Ho. apply inv_set_channels; [done | |].
  - intros id c'. destruct (decide (id = chan)) as [->|Hne].
    + rewrite lookup_insert_eq. intros [= <-]. split; [|done]. apply (inv_channels _ H _ _ Hc).
    + rewrite lookup_insert_ne by done. apply (inv_channels _ H).
  - intros id Hid. destruct (decide (id = chan)) as [->|Hne];
      [rewrite lookup_insert_eq; eauto | by rewrite lookup_insert_ne].
Qed.

Lemma inv_set_channel_overwrite s chan ow :
  server_inv s -> wf_overwrite ow -> server_inv (State.set_channel_overwrite s chan ow).2.
Proof.
  intros H Ho. unfold State.set_channel_overwrite. destruct (the_channels s !! chan) as [c|] eqn:Hc; [|done].
  apply inv_set_overwrites; [done | done |]. apply wf_overwrites_replace; [|done].
  apply (inv_channels _ H _ _ Hc).
Qed.

Lemma inv_remove_channel_overwrite s chan target :
  server_inv s -> server_inv (remove_channel_overwrite s chan target).2.
Proof.
  intros H. unfold remove_channel_overwrite. destruct (the_channels s !! chan) as [c|] eqn:Hc; [|done].
  apply inv_set_overwrites; [done | done |]. apply wf_overwrites_retain, (inv_channels _ H _ _ Hc).
Qed.

Lemma inv_strip_role_overwrites s role : server_inv s -> server_inv (strip_role_overwrites s role).2.
Proof.
  intros H. apply inv_set_channels; [done | |].
  - intros id c. rewrite lookup_fmap. destruct (the_channels s !! id) as [c0|] eqn:Hc; simpl; [|done].
    intros [= <-]. destruct (inv_channels _ H _ _ Hc) as [Hid Ho].
    destruct (names_role role c0); [|done]. split; [done | by apply wf_overwrites_retain].
  - intros id. rewrite lookup_fmap. intros [c ->]. simpl. eauto.
Qed.

Lemma wf_overwrites_nil : wf_overwrites [].
Proof. split; constructor. Qed.

(** Channel ids below the last 32-bit value; then the next one is new. *)
Definition channel_room s : Prop := forall id, is_Some (the_channels s !! id) -> id < u32_max.

Lemma next_channel_id_new s : channel_room s -> the_channels s !! next_channel_id s = None.
Proof.
  intros Hroom. set (keys := (btree_iter (the_channels s)).*1).
  assert (Hk : forall k, is_Some (the_channels s !! k) <-> k ∈ keys).
  { intros k. unfold keys. split.
    - intros [c Hc]. apply elem_of_btree_iter in Hc. by apply (list_elem_of_fmap_2 fst) in Hc.
    - intros ([k' c] & -> & Hin)%list_elem_of_fmap. apply elem_of_btree_iter in Hin. by exists c. }
  assert (Hb : 0 <= foldr Z.max 0 keys < u32_max) by (apply foldr_max_bound; [done|]; intros k Hin%Hk; by apply Hroom).
  assert (next_channel_id s = foldr Z.max 0 keys + 1) as ->.
  { unfold next_channel_id. apply wrap_id. unfold fits, u32_max in *. fold keys. lia. }
  destruct (the_channels s !! (foldr Z.max 0 keys + 1)) as [c|] eqn:E; [|done]. exfalso.
  assert (Hin : foldr Z.max 0 keys + 1 ∈ keys) by (apply Hk; by exists c). apply (foldr_max_ge 0) in Hin. lia.
Qed.

Lemma inv_insert_channel s c : server_inv s -> ch_overwrites c = [] -> server_inv (insert_channel_mem s c).
Proof.
  intros H Hc. apply inv_set_channels; [done | |].
  - intros id c'. destruct (decide (id = ch_id c)) as [->|Hne].
    + rewrite lookup_insert_eq. intros [= <-]. rewrite Hc. split; [done | apply wf_overwrites_nil].
    + rewrite lookup_insert_ne by done. apply (inv_channels _ H).
  - intros id Hid. destruct (decide (id = ch_id c)) as [->|Hne];
      [rewrite lookup_insert_eq; eauto | by rewrite lookup_insert_ne].
Qed.

Lemma inv_update_channel s c : server_inv s -> server_inv (update_channel_mem s c).2.
Proof.
  intros H. unfold update_channel_mem. destruct (the_channels s !! ch_id c) as [c0|] eqn:Hc; [|done].
  apply inv_set_channels; [done | |].
  - intros id c'. destruct (decide (id = ch_id c)) as [->|Hne].
    + rewrite lookup_insert_eq. intros [= <-]. split; [done|]. apply (inv_channels _ H _ _ Hc).
    + rewrite lookup_insert_ne by done. apply (inv_channels _ H).
  - intros id Hid. destruct (decide (id = ch_id c)) as [->|Hne];
      [rewrite lookup_insert_eq; eauto | by rewrite lookup_insert_ne].
Qed.

(** The one method that takes a channel away also empties it. *)
Lemma inv_remove_channel s chan : server_inv s -> server_inv (remove_channel_mem s chan).2.
Proof.
  intros [Hc Hch Hp Hn]. unfold remove_channel_mem. destruct (the_channels s !! chan) as [c|] eqn:He; [|done].
  split; [|intros id c' Hl; change (delete chan (the_channels s) !! id = Some c') in Hl;
            apply lookup_delete_Some in Hl as [_ Hl]; by apply Hch | done | done].
  intros id e'. unfold modify_where. cbn [snd]. rewrite the_clients_set, lookup_fmap.
  change (the_clients (set_channels _ s)) with (the_clients s).
  destruct (the_clients s !! id) as [e|] eqn:Hid; simpl; [|done].
  intros [= <-]. destruct (Hc id e Hid) as [Hk Hq [Hd Hnick Hplace]].
  destruct (bool_decide (u_channel (cc_info e) = Some chan)) eqn:Hb.
  - split; [done | done |]. by split.
  - apply bool_decide_eq_false in Hb. split; [done | done |]. split; [done | done |].
    intros i Hi. destruct (Hplace i Hi) as [c' Hc']. exists c'. apply lookup_delete_Some.
    split; [congruence | done].
Qed.

Lemma inv_relay_voice s from packet : server_inv s -> server_inv (relay_voice s from packet).
Proof.
  intros H. unfold relay_voice. destruct (the_clients s !! from) as [sender|]; [|done].
  destruct (_ || _); [done|]. destruct (u_channel _) as [chan|]; [|done].
  destruct (the_channels s !! chan) as [room|]; [|done]. repeat (case_match; [done|]).
  apply inv_set_clients; [done|]. intros id e'. rewrite map_lookup_imap.
  destruct (the_clients s !! id) as [e|] eqn:He; simpl; [|done]. intros [= <-].
  pose proof (inv_clients _ H _ _ He) as [Hk Hq Hi]. by case_match.
Qed.

Lemma inv_take_frame s client : server_inv s -> server_inv (take_frame s client).2.
Proof.
  intros H. unfold take_frame. destruct (the_clients s !! client) as [e|] eqn:He; [|done].
  destruct (q_frames (cc_control e)) as [|m rest] eqn:Hq; [done|]. apply inv_set_clients; [done|].
  intros id e'. destruct (decide (id = client)) as [->|Hne].
  - rewrite lookup_insert_eq. intros [= <-]. destruct (inv_clients _ H _ _ He) as [Hk Hlen Hi].
    rewrite Hq in Hlen. split; simpl in *; [done | lia | done].
  - rewrite lookup_insert_ne by done. apply (inv_clients _ H).
Qed.

Lemma inv_drop_receiver s client : server_inv s -> server_inv (drop_receiver s client).
Proof.
  intros H. unfold drop_receiver. destruct (the_clients s !! client) as [e|] eqn:He; [|done].
  apply inv_set_clients; [done|]. intros id e'. destruct (decide (id = client)) as [->|Hne].
  - rewrite lookup_insert_eq. intros [= <-]. destruct (inv_clients _ H _ _ He) as [Hk _ Hi].
    split; simpl; [done | lia | done].
  - rewrite lookup_insert_ne by done. apply (inv_clients _ H).
Qed.

Lemma inv_set_clock s t : server_inv s -> server_inv (set_clock t s).
Proof. by intros [? ? ? ?]. Qed.

(** ** The first state *)

Lemma fold_insert_channels (chans : list Channel) (m : gmap ChannelId Channel) id c :
  (fold_left (fun m c => <[ch_id c := c]> m) chans m : gmap ChannelId Channel) !! id = Some c ->
  m !! id = Some c \/ (c ∈ chans /\ ch_id c = id).
Proof.
  revert m; induction chans as [|c0 chans IH]; intros m H; simpl in H; [by left|].
  destruct (IH _ H) as [H1 | [H1 H2]]; [|right; split; [by right | done]].
  destruct (decide (id = ch_id c0)) as [->|Hne].
  - rewrite lookup_insert_eq in H1. injection H1 as <-. right. split; [left | done].
  - rewrite lookup_insert_ne in H1 by done. by left.
Qed.

Lemma new_shared_inv cfg ident cert chans ps t d :
  Forall (fun c => wf_overwrites (ch_overwrites c)) chans -> wf_perms ps ->
  server_inv (attach_store (new_shared cfg ident cert chans ps t) d : Shared DB).
Proof.
  intros Hc Hp. split; [|intros id c Hl | done | done].
  - intros id e He. change (the_clients _) with (∅ : gmap ClientId ConnectedClient) in He.
    by rewrite lookup_empty in He.
  - apply fold_insert_channels in Hl as [Hl | [Hin Hid]]; [by rewrite lookup_empty in Hl|].
    split; [done|]. by apply (proj1 (Forall_forall _ _) Hc).
Qed.

End Methods.

#[export] Hint Resolve inv_send inv_broadcast inv_broadcast_filtered inv_resync inv_remove inv_eject
  inv_close_transport inv_admit inv_join inv_leave inv_force_move inv_set_voice_state inv_set_server_muted
  inv_set_nickname inv_build_message inv_store_step inv_update_live_member_roles inv_strip_live_role
  inv_remove_channel_overwrite inv_strip_role_overwrites inv_update_channel inv_remove_channel
  inv_relay_voice inv_take_frame inv_drop_receiver inv_set_clock : pickle.
