(* ===== verification/Samples.v ===== *)
(** * A small concrete server

    The state the witnesses evaluate on: a lobby, a text channel and a staff room; alice, who
    owns the server, bob, who has no role, and carol, a moderator.  The primitives are the toy
    ones of [Identity.v], the maps iterate in key order, the database never fails. *)

From S2P Require Export Invariant SqlStore.

#[export] Existing Instances Toy.crypto Toy.crypto_laws MapOrder.order MapOrder.order_laws
  RowOrder.order RowOrder.order_laws AllPrintable.tables.

Module Sample.

Definition ident (n : Z) : Identity := mkIdentity [n] 0.
Definition fp (n : Z) : Fingerprint := fingerprint (public (ident n)).
Definition alice : Fingerprint := fp 1.
Definition bob : Fingerprint := fp 2.
Definition carol : Fingerprint := fp 3.

Definition config : ServerConfig :=
  mkConfig (lit "test") 0 8 None true (Some (fp_to_string alice))
    [ mkChannelConfig (lit "lobby") [] VoiceAndText None (Some 3) 0;
      mkChannelConfig (lit "notes") [] Text None None 1;
      mkChannelConfig (lit "staff") [] VoiceAndText (Some (lit "lobby")) None 2 ]
    (mkAddr [127; 0; 0; 1] 42071) None None None.

Definition perms : PermState := mkPerms default_roles {[ carol := [1] ]}.

(** The staff room is hidden from everyone, and open to moderators. *)
Definition channels : list Channel :=
  match build_channels config with
  | [lobby; notes; staff] =>
      [lobby; notes; set_overwrites [mkOverwrite (TRole 0) 0 VIEW_CHANNEL; mkOverwrite (TRole 1) VIEW_CHANNEL 0] staff]
  | _ => []
  end.

Definition start : Shared Database :=
  attach_store (new_shared config (ident 0) (replicate 32 9) channels perms 1000) (mkDb empty_tables []).

Definition enter (n : Z) (nick : rstring) (s : Shared Database) : Shared Database :=
  (admit_client s (public (ident n)) nick new_queue).2.

(** alice is client 1, bob 2, carol 3; all three stand in the lobby. *)
Definition server : Shared Database :=
  let s := enter 3 (lit "carol") (enter 2 (lit "bob") (enter 1 (lit "alice") start)) in
  fold_left (fun s id => (join_channel s id 1).2) [1; 2; 3] s.

(** The same server with a database that fails everything from now on. *)
Definition broken : Shared Database :=
  set_store (Some (mkDb empty_tables (replicate 100 true))) server.

End Sample.

(** The sample is a state the invariant describes. *)

Lemma sample_perms_wf : wf_perms Sample.perms.
Proof.
  split; [apply default_roles_wf|]. intros fp granted id Hg Hid.
  change (({[ Sample.carol := [1] ]} : gmap Fingerprint (list RoleId)) !! fp = Some granted) in Hg.
  apply lookup_singleton_Some in Hg as [_ <-]. apply list_elem_of_singleton in Hid as ->.
  split; [done|]. apply any_role_id. reflexivity.
Qed.

Lemma sample_channels_wf : Forall (fun c => wf_overwrites (ch_overwrites c)) Sample.channels.
Proof.
  unfold Sample.channels. repeat constructor; try apply not_elem_of_nil.
  by intros ?%list_elem_of_singleton.
Qed.

Lemma sample_start_inv : server_inv Sample.start.
Proof.
  exact (new_shared_inv Sample.config (Sample.ident 0) (replicate 32 9) Sample.channels Sample.perms 1000
           (mkDb empty_tables []) sample_channels_wf sample_perms_wf).
Qed.

Lemma sample_enter_inv n nick s : server_inv s -> server_inv (Sample.enter n nick s).
Proof. apply inv_admit. Qed.

Lemma sample_inv : server_inv Sample.server.
Proof.
  unfold Sample.server. cbv zeta. cbn [fold_left].
  do 3 apply inv_join. do 3 apply sample_enter_inv. exact sample_start_inv.
Qed.

(** What a command of a session needs of the state, decided. *)
Definition has_room {DB} (s : Shared DB) : bool :=
  let ids := role_ids (ps_roles (perms s)) in
  forallb (fun id => (0 <=? id) && (id <? u32_max)) ids && (Z.of_nat (length ids) <? u32_max) &&
  bool_decide (map_Forall (fun id _ => id < u32_max) (the_channels s)).

Lemma has_room_spec {DB} (s : Shared DB) : has_room s = true -> role_room (ps_roles (perms s)) /\ channel_room s.
Proof.
  unfold has_room. cbv zeta. rewrite !andb_true_iff, bool_decide_eq_true. unfold role_ids. rewrite length_map.
  intros [[Hids Hl] Hc]. pose proof (proj1 (forallb_forall _ _) Hids) as Hall. split; [split; [|lia] |].
  - intros id Hid. apply list_elem_of_In, Hall in Hid. lia.
  - intros id [c Hid]. by eapply Hc.
Qed.

#[export] Hint Resolve sample_perms_wf sample_channels_wf sample_start_inv sample_inv : pickle.

