(* ===== verification/Interleaving.v ===== *)
(** * Every interleaving keeps the invariant

    The handlers are programs of atomic steps; between two steps of one, any number of
    steps of the others may run.  Here each handler is shown to keep [server_inv] at
    every step whatever the others do in between, and so does the whole server. *)

From S2P Require Export Samples.

Create HintDb safe.

(** One step of a safety proof: [keep] shows that an atomic step keeps the invariant, [exec]
    treats a write to the store. *)
Ltac safe_branch :=
  match goal with
  | |- safe _ _ _ (if ?b then _ else _) => destruct b eqn:?
  | |- safe _ _ _ (match ?x with _ => _ end) => destruct x eqn:?
  | |- safe _ _ _ (bind (if ?b then _ else _) _) => destruct b eqn:?
  | |- safe _ _ _ (bind (match ?x with _ => _ end) _) => destruct x eqn:?
  end.

Ltac safe_step keep exec :=
  match goal with
  | |- safe _ _ _ (Ret _) => simpl; auto
  | |- safe _ _ _ (bind (Ret _) _) => cbn [bind]
  | |- safe _ _ _ Hang => exact Logic.I
  | |- safe _ _ _ (bind Hang _) => exact Logic.I
  | |- safe _ _ _ (bind (bind _ _) _) => apply safe_assoc
  | |- safe _ _ _ (bind (get _) _) => apply safe_get; intros ? ? ?
  | |- safe _ _ _ (update _) => apply safe_update; intros; keep
  | |- safe _ _ _ (bind (update _) _) => apply safe_then; [apply safe_update; intros; keep |]
  | |- safe _ _ _ (bind (call _) _) => apply safe_call; intros ? ? ?; split; [keep |]
  | |- safe _ _ _ (bind (store_exec _) _) => exec
  | |- safe _ _ _ (bind (store_query _) _) => apply safe_call; intros ? ? ?; split; [keep |]
  | |- safe _ _ _ (for_each _ _) => apply safe_for_each; intros
  | |- safe _ _ _ (bind (for_each _ _) _) => apply safe_then; [apply safe_for_each; intros |]
  | |- safe _ _ _ (bind (announce _) _) => apply safe_then; [apply safe_update; intros; keep |]
  | |- safe _ _ _ (announce _) => apply safe_update; intros; keep
  | |- safe _ _ _ (bind (refuse _ _ _ _) _) => apply safe_then; [apply safe_update; intros; keep |]
  | |- safe _ _ _ (refuse _ _ _ _) => apply safe_update; intros; keep
  | |- safe _ _ _ (no_database _ _) => apply safe_update; intros; keep
  | |- safe _ _ _ (ack _ _) => apply safe_update; intros; keep
  | |- safe _ _ _ (error_to _ _ _) => apply safe_update; intros; keep
  | |- safe _ _ _ (empty_page _ _) => apply safe_update; intros; keep
  | |- safe _ _ _ (bind (eject_and_close _ _) _) => apply safe_then; [auto with safe |]
  | |- safe _ _ _ (eject_and_close _ _) => auto with safe
  | |- safe _ _ _ (bind (actor _ _) _) => apply (safe_bind _ _ (fun _ => True)); [auto with safe | intros ? _]
  | |- safe _ _ _ (bind (authorize_against_online _ _ _ _) _) =>
      apply (safe_bind _ _ (fun _ => True)); [auto with safe | intros ? _]
  | |- safe _ _ _ (bind (validate_channel _ _ _ _ _) _) =>
      apply (safe_bind _ _ (fun _ => True)); [auto with safe | intros ? _]
  | _ => safe_branch
  end.

(** One step of a handler that runs alone, but for the database. *)
Ltac lead :=
  cbv zeta;
  match goal with
  | |- leads _ (Ret _) _ => apply leads_ret
  | |- leads _ (bind (Ret _) _) _ => cbn [bind]
  | |- leads _ (bind (bind _ _) _) _ => apply leads_assoc
  | |- leads _ Hang _ => apply leads_hang
  | |- leads _ (bind Hang _) _ => apply leads_hang
  | |- leads _ (bind (get _) _) _ => apply leads_get
  | |- leads _ (update _) _ => apply leads_update_last
  | |- leads _ (bind (update _) _) _ => apply leads_update
  | |- leads _ (bind (announce _) _) _ => apply leads_update
  | |- leads _ (bind (refuse _ _ _ _) _) _ => apply leads_update
  | |- leads _ (refuse _ _ _ _) _ => apply leads_update_last
  | |- leads _ (no_database _ _) _ => apply leads_update_last
  | |- leads _ (ack _ _) _ => apply leads_update_last
  | |- leads _ (announce _) _ => apply leads_update_last
  | |- leads _ (if ?b then _ else _) _ => destruct b eqn:?
  | |- leads _ (match ?x with _ => _ end) _ => destruct x eqn:?
  | |- leads _ (bind (if ?b then _ else _) _) _ => destruct b eqn:?
  | |- leads _ (bind (match ?x with _ => _ end) _) _ => destruct x eqn:?
  end.

(** The commands that change roles, grants, overwrites or channels. *)
Definition administers (m : ClientControl) : bool :=
  match m with
  | CCreateRole _ _ _ | CUpdateRole _ _ _ _ _ | CDeleteRole _ _ | CReorderRoles _ _ | CSetMemberRoles _ _ _
  | CSetChannelOverwrite _ _ _ _ _ | CDeleteChannelOverwrite _ _ _ | CCreateChannel _ _ _ _ _ _ _
  | CUpdateChannel _ _ _ _ _ _ _ _ | CDeleteChannel _ _ => true
  | _ => false
  end.

Section Interleaving.
Context {C : Crypto} {HO : HashOrder} {L : HashOrderLaws HO} {U : UnicodeTables}.
Context {DB : Type} {ST : StoreApi DB}.
Implicit Types s : Shared DB.

(** The one thing asked of the states between the steps: 32-bit role ids have not run out. *)
Definition roles_have_room s : Prop := role_room (ps_roles (perms s)).

Abbreviation safely := (safe roles_have_room server_inv).
Abbreviation anything := (fun _ => True).

Ltac safe_handler := repeat safe_step ltac:(auto with pickle) ltac:(apply safe_call; intros ? ? ?; split; [auto with pickle |]).

(** ** Moderation *)

Lemma safe_eject_and_close victim reason : safely anything (eject_and_close victim reason).
Proof. unfold eject_and_close. safe_handler. Qed.

Lemma safe_authorize client nonce bit target : safely anything (authorize_against_online client nonce bit target).
Proof. unfold authorize_against_online. safe_handler. Qed.

Lemma safe_actor client nonce : safely anything (actor client nonce).
Proof. unfold actor. safe_handler. Qed.

Lemma safe_validate client nonce id name parent : safely anything (validate_channel client nonce id name parent).
Proof. unfold validate_channel. safe_handler. Qed.

Hint Resolve safe_eject_and_close safe_authorize safe_actor safe_validate : safe.

Lemma safe_kick client nonce target reason : safely anything (kick client nonce target reason).
Proof. unfold kick. safe_handler. Qed.

Lemma safe_ban client nonce fp reason until_ms : safely anything (ban client nonce fp reason until_ms).
Proof. unfold ban. safe_handler. Qed.

Lemma safe_unban client nonce fp : safely anything (unban client nonce fp).
Proof. unfold unban. safe_handler. Qed.

Lemma safe_list_bans client nonce : safely anything (list_bans client nonce).
Proof. unfold list_bans. safe_handler. Qed.

Lemma safe_set_server_mute client nonce target muted : safely anything (set_server_mute client nonce target muted).
Proof. unfold set_server_mute. safe_handler. Qed.

Lemma safe_move_member client nonce target to : safely anything (move_member client nonce target to).
Proof. unfold move_member. safe_handler. Qed.

(** ** Administration *)

Lemma safe_create_role client nonce name permissions : safely anything (create_role client nonce name permissions).
Proof.
  unfold create_role. safe_handler. apply inv_swap_perms; [done|].
  apply new_role_wf; [by apply inv_perms | done | done | done | apply contains_intersect_all].
Qed.

Lemma safe_update_role client nonce id name color permissions :
  safely anything (update_role client nonce id name color permissions).
Proof.
  unfold update_role. safe_handler. apply inv_swap_perms; [done|].
  assert (wf_perms (perms s)) as Hp by by apply inv_perms.
  eapply updated_role_wf; eauto using update_role_fields_place.
  eapply update_role_fields_bits; [|eassumption].
  apply (wf_bits _ (proj1 Hp)). by eapply find_role_some.
Qed.

Lemma safe_delete_role client nonce id : safely anything (delete_role client nonce id).
Proof.
  unfold delete_role. safe_handler. apply inv_swap_perms; [done|].
  apply removed_role_wf; [by apply inv_perms | by apply Z.eqb_neq].
Qed.

Lemma safe_reorder_roles client nonce positions : safely anything (reorder_roles client nonce positions).
Proof.
  unfold reorder_roles. safe_handler. apply inv_swap_perms; [done|].
  bool_props. apply reordered_wf; [by apply inv_perms | done | done].
Qed.

Lemma safe_set_member_roles client nonce fp roles : safely anything (set_member_roles client nonce fp roles).
Proof.
  unfold set_member_roles. safe_handler. apply inv_swap_perms; [done|].
  bool_props. apply grants_wf; [by apply inv_perms | done | done].
Qed.

Lemma checked_overwrite_wf target allow deny :
  perm_is_empty (intersect (intersect allow CHANNEL_SCOPED) (intersect deny CHANNEL_SCOPED)) = true ->
  wf_overwrite (mkOverwrite target (intersect allow CHANNEL_SCOPED) (intersect deny CHANNEL_SCOPED)).
Proof.
  unfold perm_is_empty. intros H%Z.eqb_eq. unfold wf_overwrite. simpl. auto using contains_intersect_r.
Qed.

Lemma safe_set_channel_overwrite client nonce chan target allow deny :
  safely anything (set_channel_overwrite_cmd client nonce chan target allow deny).
Proof.
  unfold set_channel_overwrite_cmd. safe_handler; bool_props;
    apply inv_set_channel_overwrite; auto using checked_overwrite_wf.
Qed.

Lemma safe_delete_channel_overwrite client nonce chan target :
  safely anything (delete_channel_overwrite client nonce chan target).
Proof. unfold delete_channel_overwrite. safe_handler. Qed.

Lemma safe_create_channel client nonce name parent topic kind max_users order :
  safely anything (create_channel client nonce name parent topic kind max_users order).
Proof. unfold create_channel. safe_handler. by apply inv_insert_channel. Qed.

Lemma safe_update_channel client nonce id parent name topic kind max_users order :
  safely anything (update_channel client nonce id parent name topic kind max_users order).
Proof. unfold update_channel. safe_handler. Qed.

Lemma safe_delete_channel client nonce id : safely anything (delete_channel client nonce id).
Proof. unfold delete_channel. safe_handler. Qed.

(** ** Sessions *)

Lemma safe_fetch_history client chan before limit : safely anything (fetch_history client chan before limit).
Proof. unfold fetch_history. safe_handler. Qed.

Lemma safe_send_message client chan content reply nonce :
  safely anything (send_message client chan content reply nonce).
Proof. unfold send_message, post_message. safe_handler. Qed.

Hint Resolve safe_kick safe_ban safe_unban safe_list_bans safe_set_server_mute safe_move_member
  safe_create_role safe_update_role safe_delete_role safe_reorder_roles safe_set_member_roles
  safe_set_channel_overwrite safe_delete_channel_overwrite safe_create_channel safe_update_channel
  safe_delete_channel safe_fetch_history safe_send_message : safe.

Lemma safe_handle_control client m : safely anything (handle_control client m).
Proof. destruct m; cbn [handle_control]; auto with safe; unfold Session.join, typing; safe_handler. Qed.

Lemma safe_handshake p : safely anything (handshake p).
Proof. unfold handshake, check_ban, refuse_peer, welcome. safe_handler. Qed.

Lemma safe_server_thread p : server_thread p -> safely anything p.
Proof.
  intros [peer frames | client datagram | client | client | t]; unfold datagram_received; safe_handler.
  unfold serve. apply safe_assoc. apply (safe_bind _ _ anything); [apply safe_handshake | intros out _].
  safe_handler. unfold control_loop. apply safe_then.
  - apply safe_for_each. intros [allowed m] _. safe_handler. apply safe_handle_control.
  - safe_handler.
Qed.

(** ** The server from its start *)

(** C2: whatever the connections send, whatever the network and the database do, and however
    the steps of the sessions interleave, the server's state stays well formed: every client is
    filed under its own id with a clean nickname and at most 64 queued frames, a deafened client
    is muted, an occupied channel exists, overwrites are channel-scoped and consistent with one
    per target, role positions are dense with everyone at the bottom, role ids are unique, and
    grants only name roles that exist. *)
Theorem every_interleaving_keeps_the_invariant cfg ident cert chans ps t d threads s :
  Forall (fun c => wf_overwrites (ch_overwrites c)) chans -> wf_perms ps ->
  rtc (pstep_within roles_have_room server_thread)
    ([], attach_store (new_shared cfg ident cert chans ps t) d) (threads, s) ->
  server_inv s.
Proof.
  intros Hc Hp Hrun.
  apply (psteps_safe roles_have_room server_inv server_thread _ _ safe_server_thread Hrun).
  split; [by apply new_shared_inv | constructor].
Qed.

End Interleaving.

Lemma sample_room : roles_have_room Sample.start.
Proof.
  split; [|vm_compute; reflexivity]. intros id Hid.
  repeat (apply elem_of_cons in Hid as [-> | Hid]; [vm_compute; split; congruence|]).
  by apply elem_of_nil in Hid.
Qed.

Lemma every_interleaving_keeps_the_invariant_witness :
  server_inv (set_clock 2000 Sample.start).
Proof.
  apply (every_interleaving_keeps_the_invariant Sample.config (Sample.ident 0) (replicate 32 9)
           Sample.channels Sample.perms 1000 (mkDb empty_tables []) [Ret tt]).
  - exact sample_channels_wf.
  - exact sample_perms_wf.
  - eapply rtc_l; [split; [exact sample_room|]; apply (pstep_spawn _ [] _ (update (set_clock 2000))); constructor|].
    eapply rtc_l; [split; [exact sample_room|]; by apply (pstep_act _ _ _ 0)|]. apply rtc_refl.
Defined.
