(* ===== verification/Relay.v ===== *)
(** * Who hears whom

    The voice relay and the broadcasts, as statements about one client at a time: which
    datagram or frame it gets, and that nobody else's queue is touched. *)

From S2P Require Export Samples.

Section Relay.
Context {C : Crypto} {HO : HashOrder} {L : HashOrderLaws HO} {DB : Type}.
Implicit Types s : Shared DB.

(** [from] may be heard in [chan]: connected, neither muted by itself nor by the server,
    standing in that channel, which exists, carries voice, and lets it speak. *)
Definition speaks s (from : ClientId) (chan : ChannelId) : Prop :=
  exists sender room,
    the_clients s !! from = Some sender /\
    self_muted (u_voice (cc_info sender)) = false /\ server_muted (u_voice (cc_info sender)) = false /\
    u_channel (cc_info sender) = Some chan /\ the_channels s !! chan = Some room /\
    has_voice (ch_kind room) = true /\
    contains (resolve (ps_roles (perms s)) (u_roles (cc_info sender)) (user_fingerprint (cc_info sender))
                (u_owner (cc_info sender)) (Some (ch_overwrites room))) SPEAK = true.

(** [id] listens in [chan]: another client standing there, not deafened. *)
Definition listens (chan : ChannelId) (from id : ClientId) (e : ConnectedClient) : Prop :=
  id <> from /\ u_channel (cc_info e) = Some chan /\ self_deafened (u_voice (cc_info e)) = false.

Lemma speaks_inj s from c1 c2 : speaks s from c1 -> speaks s from c2 -> c1 = c2.
Proof. intros (? & ? & ? & ? & ? & ? & _) (? & ? & ? & ? & ? & ? & _). congruence. Qed.

(** The relay either does nothing or pushes the one datagram to the listeners of one channel. *)
Lemma relay_voice_cases s from packet :
  (relay_voice s from packet = s /\ forall chan, ~ speaks s from chan) \/
  (exists chan, speaks s from chan /\
     relay_voice s from packet =
     set_clients (map_imap (fun id e =>
       Some (if (id =? from) || negb (bool_decide (u_channel (cc_info e) = Some chan))
                || self_deafened (u_voice (cc_info e))
             then e else push_datagram (encode_down (into_downstream packet from)) e)) (the_clients s)) s).
Proof.
  unfold relay_voice. destruct (the_clients s !! from) as [sender|] eqn:Hs.
  2:{ left. split; [done|]. intros chan (? & ? & ? & _). congruence. }
  destruct (self_muted _ || server_muted _) eqn:Hm.
  { left. split; [done|]. intros chan (? & ? & ? & H1 & H2 & _). simplify_eq. by rewrite H1, H2 in Hm. }
  apply orb_false_iff in Hm as [Hm1 Hm2].
  destruct (u_channel (cc_info sender)) as [chan|] eqn:Hc.
  2:{ left. split; [done|]. intros chan (? & ? & ? & ? & ? & ? & _). congruence. }
  destruct (the_channels s !! chan) as [room|] eqn:Hr.
  2:{ left. split; [done|]. intros chan' (? & ? & ? & ? & ? & ? & ? & _). congruence. }
  destruct (has_voice (ch_kind room)) eqn:Hv; simpl.
  2:{ left. split; [done|]. intros chan' (? & ? & ? & ? & ? & ? & ? & ? & _). congruence. }
  destruct (contains _ SPEAK) eqn:Hp; simpl.
  2:{ left. split; [done|]. intros chan' (? & ? & ? & ? & ? & ? & ? & ? & H). simplify_eq.
      unfold resolve_user, perm_state in Hp. congruence. }
  right. exists chan. split; [|done]. exists sender, room. by split_and!.
Qed.

(** Voice reaches exactly the people it should: a client gets the packet, once and
    attributed to its sender, if and only if it is another, undeafened client in the channel
    the sender stands in, and the sender is unmuted and may speak there; nothing else of the
    state changes, and the datagram decodes to the sender's packet. *)
Theorem voice_reaches_exactly_the_listeners s from packet id :
  let s' := relay_voice s from packet in
  only_clients s s' /\
  (up_ok packet -> fits 32 from ->
     decode_down (encode_down (into_downstream packet from)) = inr (into_downstream packet from)) /\
  match the_clients s !! id with
  | None => the_clients s' !! id = None
  | Some e =>
      ((exists chan, speaks s from chan /\ listens chan from id e) ->
         the_clients s' !! id = Some (push_datagram (encode_down (into_downstream packet from)) e)) /\
      (~ (exists chan, speaks s from chan /\ listens chan from id e) -> the_clients s' !! id = Some e)
  end.
Proof.
  intros s'. split; [|split; [by intros; apply decode_encode_down, into_downstream_ok|]];
    destruct (relay_voice_cases s from packet) as [[E Hno] | (chan & Hsp & E)]; unfold s'; rewrite E.
  - apply only_clients_refl.
  - apply only_clients_set.
  - destruct (the_clients s !! id) as [e|]; [|done]. split; [|done]. intros (chan & Hsp & _). by destruct (Hno chan).
  - rewrite the_clients_set, map_lookup_imap.
    destruct (the_clients s !! id) as [e|]; simpl; [|done]. split.
    + intros (chan' & Hsp' & Hne & Hc & Hd). rewrite (speaks_inj _ _ _ _ Hsp' Hsp) in Hc.
      rewrite (proj2 (Z.eqb_neq id from) Hne), bool_decide_eq_true_2, Hd by done. done.
    + intros Hno. destruct (id =? from) eqn:H1; simpl; [done|].
      destruct (bool_decide (u_channel (cc_info e) = Some chan)) eqn:H2; simpl; [|done].
      destruct (self_deafened (u_voice (cc_info e))) eqn:H3; [done|].
      exfalso. apply Hno. exists chan. split; [done|]. bool_props. by split_and!.
Qed.

(** A broadcast to a channel is confidential and complete: a connected client whose queue
    is open gets the frame if and only if it may view the channel and is not the one excepted;
    what else anybody gets is at most the notice that a client fell behind; and the only clients
    dropped are viewers whose queue was already full. *)
Theorem broadcast_filtered_reaches_exactly_the_viewers s m chan target except id :
  keyed (the_clients s) -> the_channels s !! chan = Some target ->
  let wanted e := negb (bool_decide (Some id = except)) && can_view_channel (perm_state s) (cc_info e) target in
  match the_clients (broadcast_filtered s m chan except) !! id with
  | None => the_clients s !! id = None \/
      exists e, the_clients s !! id = Some e /\ wanted e = true /\ queue_open e /\ queue_full e
  | Some e' => exists e new, the_clients s !! id = Some e /\ cc_info e' = cc_info e /\
      q_frames (cc_control e') = q_frames (cc_control e)
        ++ (if wanted e && bool_decide (queue_open e) then [m] else []) ++ new /\
      Forall is_notice new /\ (wanted e = true -> queue_open e -> ~ queue_full e)
  end.
Proof.
  intros Hk Hc wanted. unfold broadcast_filtered. rewrite Hc.
  pose proof (broadcast_to_lookup (fun id e => negb (bool_decide (Some id = except)) &&
    can_view_channel (perm_state s) (cc_info e) target) s m id Hk) as H.
  destruct (the_clients (broadcast_to _ s m) !! id) as [e'|]; [|exact H].
  destruct H as (e & new & He & Hx & Hn & Hf). exists e, new. split_and!; auto.
  - by rewrite (extended_info _ _ _ Hx).
  - by rewrite (extended_frames _ _ _ Hx).
Qed.

End Relay.

(** bob may not view the staff room: the moderators' frame passes him by. *)
Lemma broadcast_filtered_reaches_exactly_the_viewers_witness :
  exists staff, the_channels Sample.server !! 3 = Some staff /\
  let wanted e := negb (bool_decide (Some 2 = Some 1)) && can_view_channel (perm_state Sample.server) (cc_info e) staff in
  match the_clients (broadcast_filtered Sample.server (SPong 7) 3 (Some 1)) !! 2 with
  | None => the_clients Sample.server !! 2 = None \/
      exists e, the_clients Sample.server !! 2 = Some e /\ wanted e = true /\ queue_open e /\ queue_full e
  | Some e' => exists e new, the_clients Sample.server !! 2 = Some e /\ cc_info e' = cc_info e /\
      q_frames (cc_control e') = q_frames (cc_control e)
        ++ (if wanted e && bool_decide (queue_open e) then [SPong 7] else []) ++ new /\
      Forall is_notice new /\ (wanted e = true -> queue_open e -> ~ queue_full e)
  end.
Proof.
  eexists. split; [vm_compute; reflexivity|].
  apply broadcast_filtered_reaches_exactly_the_viewers;
    [apply inv_keyed, sample_inv | vm_compute; reflexivity].
Defined.

Example staff_frames_pass_bob_by :
  (fun e => length (q_frames (cc_control e))) <$>
    the_clients (broadcast_filtered Sample.server (SPong 7) 3 (Some 1)) !! 2 = Some 0%nat /\
  (fun e => length (q_frames (cc_control e))) <$>
    the_clients (broadcast_filtered Sample.server (SPong 7) 3 (Some 1)) !! 3 = Some 1%nat.
Proof. vm_compute. split; reflexivity. Qed.

Example bob_is_heard :
  (fun e => length (cc_datagrams e)) <$>
    the_clients (relay_voice Sample.server 2 (mkUp 1 0 [5])) !! 3 = Some 1%nat.
Proof. vm_compute. reflexivity. Qed.
