(* ===== verification/Membership.v ===== *)
(** * Who gets in, and where they may stand

    Admission, nicknames, joining a channel and being ejected: what each answers, what it
    changes, and that capacity limits hold. *)

From S2P Require Export Samples.

(** ** Counting *)

Lemma size_filter_list {V} (P : Z * V -> Prop) `{forall x, Decision (P x)} (m : gmap Z V) :
  size (filter P m) = length (filter P (map_to_list m)).
Proof.
  rewrite map_filter_alt. apply map_size_list_to_map.
  eapply sublist_NoDup; [apply (NoDup_fst_map_to_list m)|].
  apply (fmap_sublist fst), sublist_filter.
Qed.

Lemma size_delete_le {V} (m : gmap Z V) k : (size (delete k m) <= size m)%nat.
Proof.
  destruct (m !! k) as [v|] eqn:E.
  - rewrite map_size_delete_Some by eauto. lia.
  - by rewrite delete_id.
Qed.

Section Membership.
Context {C : Crypto} {HO : HashOrder} {L : HashOrderLaws HO} {DB : Type}.
Implicit Types s : Shared DB.

(** Those standing in a channel. *)
Definition standing s (chan : ChannelId) : gmap ClientId ConnectedClient :=
  filter (fun e => u_channel (cc_info e.2) = Some chan) (the_clients s).

Lemma occupants_standing s chan client :
  keyed (the_clients s) -> occupants s chan client = size (delete client (standing s chan)).
Proof.
  intros Hk. unfold occupants, standing. rewrite (Permutation_length (filter_Permutation _ _ _ (hash_iter_perm _ _))).
  rewrite <- (size_filter_list (fun e => u_channel (cc_info e.2) = Some chan /\ u_client_id (cc_info e.2) <> client)).
  f_equal. apply map_eq. intros id. destruct (decide (id = client)) as [->|Hne].
  - rewrite lookup_delete_eq. apply map_lookup_filter_None. right. simpl. intros e He [_ H]. by rewrite (Hk _ _ He) in H.
  - rewrite lookup_delete_ne by done. apply option_eq. intros e. rewrite !map_lookup_filter_Some. simpl.
    split; [tauto|]. intros [He Hc]. split_and!; [done | done |]. by rewrite (Hk _ _ He).
Qed.

(** After a client has been put in a channel, one more than the others stand there. *)
Lemma standing_after_move s client e chan :
  keyed (the_clients s) -> the_clients s !! client = Some e ->
  size (standing (update_client (set_user_channel (Some chan)) s client e) chan) = S (occupants s chan client).
Proof.
  intros Hk He. rewrite occupants_standing by done. unfold standing, update_client. rewrite the_clients_set.
  rewrite map_filter_insert_True by done. rewrite <- insert_delete_eq.
  rewrite map_size_insert_None by apply lookup_delete_eq. done.
Qed.

(** What a member may do in a channel. *)
Definition bits_in s (e : ConnectedClient) (c : Channel) : Permissions :=
  resolve (ps_roles (perms s)) (u_roles (cc_info e)) (user_fingerprint (cc_info e)) (u_owner (cc_info e))
    (Some (ch_overwrites c)).

(** Joining a channel answers the first rule it breaks and then changes nothing: a channel
    that does not exist and one the member may not view are the same answer; a room without
    voice or without the right to connect is refused; a full room is refused, the joiner's own
    presence not counted; a success moves exactly the joiner, reports where they came from, and
    leaves the room within its capacity. *)
Theorem join_channel_spec s client chan e :
  keyed (the_clients s) -> the_clients s !! client = Some e ->
  let '(result, s') := join_channel s client chan in
  let visible c := contains (bits_in s e c) VIEW_CHANNEL = true in
  let enterable c := has_voice (ch_kind c) = true /\ contains (bits_in s e c) CONNECT = true in
  let full c := exists max, ch_max_users c = Some max /\ max <= Z.of_nat (size (delete client (standing s chan))) in
  match result with
  | inl NoSuchChannel => s' = s /\ forall c, the_channels s !! chan = Some c -> ~ visible c
  | inl NotPermitted => s' = s /\ exists c, the_channels s !! chan = Some c /\ visible c /\ ~ enterable c
  | inl ChannelFull => s' = s /\ exists c, the_channels s !! chan = Some c /\ visible c /\ enterable c /\ full c
  | inl _ => False
  | inr from =>
      exists c, the_channels s !! chan = Some c /\ visible c /\ enterable c /\ ~ full c /\
      from = u_channel (cc_info e) /\
      s' = set_clients (<[client := map_info (set_user_channel (Some chan)) e]> (the_clients s)) s /\
      (forall max, ch_max_users c = Some max -> Z.of_nat (size (standing s' chan)) <= max)
  end.
Proof.
  intros Hk He. unfold join_channel. rewrite He.
  destruct (the_channels s !! chan) as [c|] eqn:Hc; [|split; [done | congruence]].
  change (resolve_user (perm_state s) (cc_info e) (Some (ch_overwrites c))) with (bits_in s e c).
  destruct (contains (bits_in s e c) VIEW_CHANNEL) eqn:Hv; simpl negb; cbv iota.
  2:{ split; [done|]. intros c' [= <-]. congruence. }
  destruct (has_voice (ch_kind c)) eqn:Hvoice; simpl negb; cbv iota.
  2:{ split; [done|]. exists c. split_and!; [done | done |]. intros [? _]. congruence. }
  destruct (contains (bits_in s e c) CONNECT) eqn:Hcon; simpl negb; cbv iota.
  2:{ split; [done|]. exists c. split_and!; [done | done |]. intros [_ ?]. congruence. }
  destruct (channel_full s c chan client) eqn:Hf; unfold channel_full in Hf.
  - split; [done|]. exists c. split_and!; [done | done | done | done |].
    destruct (ch_max_users c) as [max|]; [|done]. exists max. split; [done|].
    rewrite <- occupants_standing by done. by apply Z.leb_le.
  - exists c. split_and!; [done | done | done | done | | done | done |].
    + intros (max & Hm & Hle). rewrite Hm in Hf. apply Z.leb_gt in Hf.
      rewrite occupants_standing in Hf by done. lia.
    + intros max Hm. rewrite Hm in Hf. apply Z.leb_gt in Hf.
      rewrite standing_after_move by done. lia.
Qed.

(** Admission checks the proof of work, then the nickname, then capacity, and changes
    nothing when it refuses; a newcomer gets the next client id (the counter skips 0 when it
    wraps), a clean nickname, no channel, an unmuted voice, the grants on record for its key and
    an empty queue, and nobody else is touched; the server never holds more than its maximum. *)
Theorem admission_spec s ident nickname :
  let '(result, s') := admit_client s ident nickname new_queue in
  let weak := public_security_level ident < cfg_min_security_level (config s) in
  let crowded := cfg_max_users (config s) <= Z.of_nat (size (the_clients s)) in
  match result with
  | inl (SecurityLevelTooLow required provided) =>
      s' = s /\ weak /\ required = cfg_min_security_level (config s) /\ provided = public_security_level ident
  | inl (NicknameRejected _) =>
      s' = s /\ ~ weak /\ sanitize_nickname nickname (Z.to_nat (max_nickname_len (limits s))) = None
  | inl ServerFull => s' = s /\ ~ weak /\ crowded
  | inl _ => False
  | inr info =>
      ~ weak /\ ~ crowded /\
      sanitize_nickname nickname (Z.to_nat (max_nickname_len (limits s))) = Some (u_nickname info) /\
      info = mkUser (next_client_id (inner s)) ident (u_nickname info) None (mkVoice false false false false)
               (now_unix_ms s) (default [] (ps_members (perms s) !! fingerprint ident))
               (bool_decide (owner s = Some (fingerprint ident))) /\
      s' = set_inner (mkInner (Z.max 1 (wrap 32 (next_client_id (inner s) + 1)))
                       (<[next_client_id (inner s) := mkClient info new_queue []]> (the_clients s))
                       (the_channels s) (next_message_id (inner s))) s /\
      Z.of_nat (size (the_clients s')) <= cfg_max_users (config s)
  end.
Proof.
  unfold admit_client. cbv zeta.
  destruct (Z.ltb_spec (public_security_level ident) (cfg_min_security_level (config s))); [by split_and!|].
  destruct (sanitize_nickname nickname _) as [n|] eqn:Hn; [|split_and!; [done | lia | done]].
  destruct (Z.leb_spec (cfg_max_users (config s)) (Z.of_nat (size (the_clients s)))); [split_and!; [done | lia | done]|].
  split_and!; [lia | lia | done | done | by rewrite Z.max_comm |].
  unfold the_clients at 1. simpl clients. pose proof (size_delete_le (the_clients s) (next_client_id (inner s))).
  rewrite <- insert_delete_eq, map_size_insert_None by apply lookup_delete_eq. lia.
Qed.

(** What is left of a raw nickname before the cut to length. *)
Definition printable (raw : rstring) : rstring := trim (retain (fun c => negb (is_control c)) raw).

(** A nickname with nothing to clean. *)
Definition clean (max_len : nat) (n : rstring) : Prop :=
  Forall (fun c => is_control c = false) n /\ trim n = n /\ n <> [] /\ (length n <= max_len)%nat.

Lemma printable_empty raw :
  printable raw = [] <-> Forall (fun c => is_control c = true \/ is_whitespace c = true) raw.
Proof.
  unfold printable. rewrite trim_empty, !Forall_forall. split; intros H c Hc.
  - destruct (is_control c) eqn:E; [by left|]. right. apply H, elem_of_retain. by rewrite E.
  - apply elem_of_retain in Hc as [Hc Hp]. apply negb_true_iff in Hp.
    destruct (H c Hc) as [E | E]; [congruence | done].
Qed.

(** A nickname is refused exactly when nothing visible is left of it; what is accepted is
    never empty, holds no control character, does not start with whitespace, fits the limit and
    is a prefix of the trimmed text; and a nickname that needs no cleaning is kept as it is. *)
Theorem sanitize_nickname_spec raw max_len :
  (0 < max_len)%nat ->
  (sanitize_nickname raw max_len = None <->
     Forall (fun c => is_control c = true \/ is_whitespace c = true) raw) /\
  (forall n, sanitize_nickname raw max_len = Some n ->
     n <> [] /\ (length n <= max_len)%nat /\ Forall (fun c => is_control c = false) n /\
     (forall c rest, n = c :: rest -> is_whitespace c = false) /\
     exists rest, printable raw = n ++ rest) /\
  (clean max_len raw -> sanitize_nickname raw max_len = Some raw).
Proof.
  intros Hmax.
  assert (E : sanitize_nickname raw max_len =
              if is_empty (take max_len (printable raw)) then None else Some (take max_len (printable raw))) by done.
  rewrite E. split_and!.
  - rewrite <- printable_empty. destruct (printable raw) as [|c l]; [by rewrite take_nil|].
    destruct max_len; [lia|]. done.
  - intros n Hn. destruct (is_empty _) eqn:He; [done|]. injection Hn as <-. apply is_empty_false in He.
    split_and!; [done | rewrite length_take; lia | | |].
    + apply Forall_take, Forall_trim, retain_no_control.
    + intros c rest Ht. destruct (printable raw) as [|c0 l] eqn:Hp; [by rewrite take_nil in Ht|].
      destruct max_len; [lia|]. injection Ht as -> _. by eapply trim_head.
    + exists (drop max_len (printable raw)). by rewrite take_drop.
  - intros (Hc & Ht & Hne & Hlen). unfold printable.
    rewrite retain_all, Ht, take_ge by (done || (intros c Hin; rewrite Forall_forall in Hc; by rewrite (Hc c Hin))).
    by apply is_empty_false in Hne as ->.
Qed.

(** Being ejected: the victim leaves the roster, its queue ends with the reason when there
    was room, the caller gets its entry back to close, and everyone who stays is told the same
    reason, once, unless their own queue was full, in which case they are dropped. *)
Theorem eject_spec s victim reason v :
  keyed (the_clients s) -> the_clients s !! victim = Some v ->
  let '(entry, s') := eject s victim reason in
  entry = Some (push_best_effort (SUserLeft victim reason) v) /\
  the_clients s' !! victim = None /\
  forall id e, id <> victim -> the_clients s !! id = Some e ->
    match the_clients s' !! id with
    | Some e' => exists notices, cc_info e' = cc_info e /\ Forall is_notice notices /\
        q_frames (cc_control e') = q_frames (cc_control e)
          ++ (if bool_decide (queue_open e) then [SUserLeft victim reason] else []) ++ notices
    | None => queue_open e /\ queue_full e
    end.
Proof.
  intros Hk Hv. unfold eject. rewrite Hv. set (s1 := set_clients (delete victim (the_clients s)) s).
  assert (Hk1 : keyed (the_clients s1)).
  { intros id e He. unfold s1 in He. rewrite the_clients_set in He.
    apply lookup_delete_Some in He as [_ He]. by apply Hk. }
  split; [done|]. unfold broadcast.
  set (sel := fun (id : ClientId) (_ : ConnectedClient) => negb (bool_decide (Some id = None))).
  assert (Hsel : forall id e, sel id e = true) by (intros; unfold sel; by rewrite bool_decide_eq_false_2).
  split.
  - pose proof (broadcast_to_lookup sel s1 (SUserLeft victim reason) victim Hk1) as H.
    destruct (the_clients (broadcast_to _ s1 _) !! victim) as [e'|]; [|done].
    destruct H as (e & new & He & _). unfold s1 in He. by rewrite the_clients_set, lookup_delete_eq in He.
  - intros id e Hne He. assert (He1 : the_clients s1 !! id = Some e)
      by (unfold s1; by rewrite the_clients_set, lookup_delete_ne).
    pose proof (broadcast_to_lookup sel s1 (SUserLeft victim reason) id Hk1) as H.
    destruct (the_clients (broadcast_to _ s1 _) !! id) as [e'|].
    + destruct H as (e0 & new & He0 & Hx & Hn & _). rewrite He1 in He0. injection He0 as <-.
      rewrite Hsel in Hx. simpl in Hx. exists new. split_and!; [by eapply extended_info | done |].
      rewrite (extended_frames _ _ _ Hx). done.
    + destruct H as [H | (e0 & He0 & _ & Ho & Hf)]; [congruence|]. rewrite He1 in He0. by injection He0 as <-.
Qed.

End Membership.

(** ** Witnesses *)

(** bob asks for the staff room: for him it does not exist. *)
Lemma join_channel_spec_witness :
  exists e, the_clients Sample.server !! 2 = Some e /\
  forall c, the_channels Sample.server !! 3 = Some c ->
     ~ contains (bits_in Sample.server e c) VIEW_CHANNEL = true.
Proof.
  assert (He : exists e, the_clients Sample.server !! 2 = Some e) by (eexists; vm_compute; reflexivity).
  destruct He as [e He]. exists e. split; [exact He|].
  pose proof (join_channel_spec Sample.server 2 3 e (inv_keyed _ sample_inv) He) as H.
  assert (Hr : (join_channel Sample.server 2 3).1 = inl NoSuchChannel) by (vm_compute; reflexivity).
  destruct (join_channel Sample.server 2 3) as [r s']. cbn [fst] in Hr. subst r. exact (proj2 H).
Defined.

Lemma sanitize_nickname_spec_witness :
  sanitize_nickname (lit "bob") 32 = Some (lit "bob") /\ sanitize_nickname (lit "  ") 32 = None.
Proof.
  split.
  - apply (sanitize_nickname_spec (lit "bob") 32 ltac:(lia)). unfold clean. split_and!.
    + repeat constructor.
    + reflexivity.
    + discriminate.
    + simpl. lia.
  - apply (sanitize_nickname_spec (lit "  ") 32 ltac:(lia)). repeat constructor; by right.
Defined.

Lemma eject_spec_witness :
  the_clients (eject Sample.server 2 Banned).2 !! 2 = None.
Proof.
  assert (H : exists v, the_clients Sample.server !! 2 = Some v) by (eexists; vm_compute; reflexivity).
  destruct H as [v Hv].
  pose proof (eject_spec Sample.server 2 Banned v (inv_keyed _ sample_inv) Hv) as H.
  destruct (eject Sample.server 2 Banned) as [entry s']. exact (proj1 (proj2 H)).
Defined.

(** The cut to length comes after the trim, so it can leave a trailing space: cleaning a
    nickname twice is not cleaning it once. *)
Lemma sanitize_leaves_trailing_space :
  sanitize_nickname (lit "a b") 2 = Some (lit "a ") /\ sanitize_nickname (lit "a ") 2 = Some (lit "a").
Proof. split; reflexivity. Qed.
