(* ===== verification/Channels.v ===== *)
(** * The channel tree

    Channels name their parent, and the handlers keep the parents from forming a loop with
    [parent_would_cycle], a walk up the tree.  Here: what the walk answers, when it ends, and
    that the updates it admits keep the tree a tree. *)

From S2P Require Export Samples.

(** One step up the tree. *)
Definition parent_of (chans : gmap ChannelId Channel) (id : ChannelId) : option ChannelId := chans !! id ≫= ch_parent.

Definition is_parent (chans : gmap ChannelId Channel) (child parent : ChannelId) : Prop :=
  parent_of chans child = Some parent.

(** No channel is its own ancestor. *)
Definition acyclic (chans : gmap ChannelId Channel) : Prop := forall id, ~ tc (is_parent chans) id id.

(** The k-th ancestor of a cursor. *)
Fixpoint climb (chans : gmap ChannelId Channel) (k : nat) (cursor : option ChannelId) : option ChannelId :=
  match k with O => cursor | S k => climb chans k (cursor ≫= parent_of chans) end.

Section Walk.
Context (chans : gmap ChannelId Channel) (child : ChannelId).

Lemma climb_none k : climb chans k None = None.
Proof. induction k; simpl; auto. Qed.

Lemma climb_add i j cursor : climb chans (i + j) cursor = climb chans j (climb chans i cursor).
Proof. revert cursor; induction i as [|i IH]; intros cursor; simpl; auto. Qed.

Lemma climb_reaches k p q : climb chans k (Some p) = Some q -> rtc (is_parent chans) p q.
Proof.
  revert p; induction k as [|k IH]; intros p H; simpl in H; [by injection H as <-|].
  destruct (parent_of chans p) as [r|] eqn:E; simpl in H; [|by rewrite climb_none in H].
  eapply rtc_l; [exact E | by apply IH].
Qed.

Lemma reaches_climb p q : rtc (is_parent chans) p q -> exists k, climb chans k (Some p) = Some q.
Proof.
  induction 1 as [p|p r q Hp _ (k & Hk)]; [by exists 0%nat|]. exists (S k). simpl. by rewrite Hp.
Qed.

Lemma climb_before i k cursor q : (i <= k)%nat -> climb chans k cursor = Some q -> is_Some (climb chans i cursor).
Proof.
  intros Hi H. replace k with (i + (k - i))%nat in H by lia. rewrite climb_add in H.
  destruct (climb chans i cursor); [eauto | by rewrite climb_none in H].
Qed.

(** The walk is still going after [fuel] steps when none of the ids it met was the child. *)
Lemma parent_walk_none fuel cursor :
  parent_walk chans child fuel cursor = None <->
  forall k, (k <= fuel)%nat -> exists id, climb chans k cursor = Some id /\ id <> child.
Proof.
  revert cursor; induction fuel as [|f IH]; intros cursor; destruct cursor as [id|]; simpl.
  - destruct (Z.eqb_spec id child) as [->|Hne]; split; try done.
    + intros H. destruct (H 0%nat ltac:(lia)) as (i & [= <-] & ?). done.
    + intros _ k Hk. assert (k = 0%nat) as -> by lia. by exists id.
  - split; [done|]. intros H. by destruct (H 0%nat ltac:(lia)) as (i & ? & _).
  - destruct (Z.eqb_spec id child) as [->|Hne].
    + split; [done|]. intros H. destruct (H 0%nat ltac:(lia)) as (i & [= <-] & ?). done.
    + rewrite IH. split; intros H k Hk.
      * destruct k as [|k]; [by exists id|]. apply (H k). lia.
      * apply (H (S k)). lia.
  - split; [done|]. intros H. by destruct (H 0%nat ltac:(lia)) as (i & ? & _).
Qed.

Lemma parent_walk_true fuel cursor :
  parent_walk chans child fuel cursor = Some true -> exists p, cursor = Some p /\ rtc (is_parent chans) p child.
Proof.
  revert cursor; induction fuel as [|f IH]; intros [id|]; simpl; try done;
    destruct (Z.eqb_spec id child) as [->|Hne]; try done; intros H.
  1,2: by exists child; split; [done | apply rtc_refl].
  apply IH in H as (p & Hp & Hr). exists id. split; [done|]. by eapply rtc_l.
Qed.

Lemma parent_walk_false fuel cursor :
  parent_walk chans child fuel cursor = Some false -> forall k, climb chans k cursor <> Some child.
Proof.
  revert cursor; induction fuel as [|f IH]; intros [id|]; simpl; try (by intros; rewrite climb_none);
    destruct (Z.eqb_spec id child) as [->|Hne]; try done.
  intros H [|k]; simpl; [congruence | by apply IH].
Qed.

(** Going round: an ancestor met twice is met for ever. *)
Lemma climb_periodic i d cursor id :
  (0 < d)%nat -> climb chans i cursor = Some id -> climb chans (i + d) cursor = Some id ->
  forall k, exists j, (j < i + d)%nat /\ climb chans k cursor = climb chans j cursor.
Proof.
  intros Hd Hi Hj k. induction k as [k IH] using lt_wf_ind.
  destruct (Nat.ltb_spec k (i + d)) as [Hlt|Hge]; [by exists k|].
  destruct (IH (k - d)%nat ltac:(lia)) as (j & Hj' & E). exists j. split; [done|]. rewrite <- E.
  replace k with ((i + d) + (k - (i + d)))%nat at 1 by lia.
  replace (k - d)%nat with (i + (k - (i + d)))%nat by lia. 
  by rewrite (climb_add (i + d)), Hj, (climb_add i _ cursor), Hi.
Qed.

(** The ancestors met in the first [n] steps. *)
Fixpoint ancestors (n : nat) (cursor : option ChannelId) : list ChannelId :=
  match n, cursor with
  | S n, Some id => id :: ancestors n (parent_of chans id)
  | _, _ => []
  end.

Lemma ancestors_lookup n k cursor : (k < n)%nat -> ancestors n cursor !! k = climb chans k cursor.
Proof.
  revert k cursor; induction n as [|n IH]; intros k cursor Hk; [lia|].
  destruct cursor as [id|]; simpl; [|by rewrite climb_none].
  destruct k as [|k]; simpl; [done|]. apply IH. lia.
Qed.

Lemma length_ancestors n cursor : (length (ancestors n cursor) <= n)%nat.
Proof.
  revert cursor; induction n as [|n IH]; intros [c|]; simpl; try lia. specialize (IH (parent_of chans c)). lia.
Qed.

(** With more steps than channels, an ancestor must repeat. *)
Lemma long_climb_repeats cursor :
  (forall k, (k <= S (size chans))%nat -> is_Some (climb chans k cursor)) ->
  exists i d id, (0 < d)%nat /\ climb chans i cursor = Some id /\ climb chans (i + d) cursor = Some id /\
    (i + d <= size chans)%nat.
Proof.
  intros H. pose proof (length_ancestors (S (size chans)) cursor).
  set (ids := ancestors (S (size chans)) cursor).
  assert (Hids : forall k, (k <= size chans)%nat -> ids !! k = climb chans k cursor)
    by (intros; apply ancestors_lookup; lia).
  assert (Hlen : (size chans < length ids)%nat).
  { apply lookup_lt_is_Some. rewrite Hids by lia. apply H. lia. }
  assert (Hsub : ids ⊆ (map_to_list chans).*1).
  { intros id Hid. apply list_elem_of_lookup in Hid as [k Hk].
    assert (k <= size chans)%nat by (pose proof (lookup_lt_Some _ _ _ Hk); unfold ids in *; lia).
    rewrite Hids in Hk by done. destruct (H (S k) ltac:(lia)) as [p Hp].
    rewrite <- Nat.add_1_r, climb_add, Hk in Hp. simpl in Hp. unfold parent_of in Hp.
    destruct (chans !! id) as [c|] eqn:Hc; [|done].
    apply list_elem_of_fmap. exists (id, c). split; [done | by apply elem_of_map_to_list]. }
  destruct (finite.list_pigeonhole ids (map_to_list chans).*1 Hsub) as (i & j & id & Hij & Hi & Hj).
  { rewrite length_fmap. by rewrite length_map_to_list. }
  pose proof (lookup_lt_Some _ _ _ Hj).
  assert (j <= size chans)%nat by (unfold ids in *; lia).
  exists i, (j - i)%nat, id. rewrite Hids in Hi, Hj by lia.
  replace (i + (j - i))%nat with j by lia. split_and!; [lia | done | done | lia].
Qed.

End Walk.

(** ** Changing one channel's parent *)

Section Insert.
Context (chans : gmap ChannelId Channel) (i : ChannelId) (c : Channel).

Let chans' := <[i := c]> chans.

Lemma is_parent_insert x y :
  is_parent chans' x y <-> (x = i /\ ch_parent c = Some y) \/ (x <> i /\ is_parent chans x y).
Proof.
  unfold is_parent, parent_of, chans'. destruct (decide (x = i)) as [->|Hne].
  - rewrite lookup_insert_eq. simpl. tauto.
  - rewrite lookup_insert_ne by done. tauto.
Qed.

Lemma reaches_insert x : rtc (is_parent chans') x i -> rtc (is_parent chans) x i.
Proof.
  intros H. refine (rtc_ind_l (fun x => rtc (is_parent chans) x i) i (rtc_refl _ _) _ x H).
  intros y z Hyz _ IH. apply is_parent_insert in Hyz as [[-> _] | [_ Hyz]]; [apply rtc_refl | by eapply rtc_l].
Qed.

Lemma tc_insert x y :
  tc (is_parent chans') x y -> tc (is_parent chans) x y \/ (rtc (is_parent chans') x i /\ tc (is_parent chans') i y).
Proof.
  induction 1 as [x y H | x y z H Hyz IH].
  - apply is_parent_insert in H as [[-> Hc] | [_ H]]; [|left; by apply tc_once].
    right. split; [apply rtc_refl|]. apply tc_once, is_parent_insert. by left.
  - pose proof H as H'. apply is_parent_insert in H as [[-> Hc] | [Hne H]].
    + right. split; [apply rtc_refl|]. by eapply tc_l.
    + destruct IH as [IH | [IH1 IH2]]; [left; by eapply tc_l|]. right. split; [by eapply rtc_l | done].
Qed.

(** Hanging a channel below one it does not contain closes no loop. *)
Lemma acyclic_insert :
  acyclic chans -> (forall p, ch_parent c = Some p -> ~ rtc (is_parent chans) p i) -> acyclic chans'.
Proof.
  intros Ha Hp id Hid. destruct (tc_insert _ _ Hid) as [H | [H1 H2]]; [by apply (Ha id)|].
  assert (Hii : tc (is_parent chans') i i) by (eapply tc_rtc_r; eauto).
  assert (Hstep : exists p, is_parent chans' i p /\ rtc (is_parent chans') p i).
  { inversion Hii as [? ? H | ? p ? H Hr]; subst; [exists i; split; [done | apply rtc_refl]|].
    exists p. split; [done | by apply tc_rtc]. }
  destruct Hstep as (p & Hip & Hr). apply is_parent_insert in Hip as [[_ Hc] | [? _]]; [|done].
  by apply (Hp p Hc), reaches_insert.
Qed.

End Insert.

Lemma acyclic_delete chans i : acyclic chans -> acyclic (delete i chans).
Proof.
  intros Ha id H. apply (Ha id).
  assert (Hsub : forall x y, is_parent (delete i chans) x y -> is_parent chans x y).
  { unfold is_parent, parent_of. intros x y Hxy. destruct (decide (x = i)) as [->|Hne].
    - by rewrite lookup_delete_eq in Hxy.
    - by rewrite lookup_delete_ne in Hxy. }
  assert (Htc : forall x y, tc (is_parent (delete i chans)) x y -> tc (is_parent chans) x y).
  { induction 1 as [x y Hxy | x y z Hxy _ IH]; [apply tc_once; auto | eapply tc_l; eauto]. }
  by apply Htc.
Qed.

Section Properties.
Context {DB : Type}.
Implicit Types s : Shared DB.

(** C28: the cycle test answers [true] exactly when the new parent is the channel itself or lies
    below it, and [false] exactly when it does not; its fuel is enough, since a walk that
    exhausts it never ends at all, and then the tree already holds a loop; on a tree without
    loops it always answers. *)
Theorem parent_would_cycle_spec s child parent :
  let below := exists p, parent = Some p /\ rtc (is_parent (the_channels s)) p child in
  match parent_would_cycle s child parent with
  | Some true => below
  | Some false => ~ below
  | None => (forall fuel, parent_walk (the_channels s) child fuel parent = None) /\ ~ acyclic (the_channels s)
  end.
Proof.
  unfold parent_would_cycle. set (chans := the_channels s).
  destruct (parent_walk chans child (S (size chans)) parent) as [[|]|] eqn:E.
  - by apply parent_walk_true in E.
  - intros (p & -> & Hr). apply reaches_climb in Hr as [k Hk].
    by apply (parent_walk_false _ _ _ _ E k).
  - pose proof (proj1 (parent_walk_none _ _ _ _) E) as H.
    destruct (long_climb_repeats chans parent) as (i & d & id & Hd & Hi & Hj & Hle).
    { intros k Hk. destruct (H k Hk) as (x & Hx & _). eauto. }
    split.
    + intros fuel. apply parent_walk_none. intros k _.
      destruct (climb_periodic chans i d parent id Hd Hi Hj k) as (j & Hj' & Ek).
      rewrite Ek. apply H. lia.
    + intros Ha. apply (Ha id). rewrite climb_add, Hi in Hj.
      destruct d as [|d]; [lia|]. simpl in Hj.
      destruct (parent_of chans id) as [r|] eqn:Hr; [|by rewrite climb_none in Hj].
      apply climb_reaches in Hj. eapply tc_rtc_r; [by apply tc_once | done].
Qed.

(** C29: the channel tree stays a tree: on a tree the cycle test answers; an update it lets
    through, the removal of any channel, and the creation of a channel whose id nobody names as
    parent, all leave a tree. *)
Theorem tree_stays_a_tree s c :
  acyclic (the_channels s) ->
  parent_would_cycle s (ch_id c) (ch_parent c) <> None /\
  (parent_would_cycle s (ch_id c) (ch_parent c) = Some false ->
     acyclic (the_channels (update_channel_mem s c).2)) /\
  (forall id, acyclic (the_channels (remove_channel_mem s id).2)) /\
  ((forall id d, the_channels s !! id = Some d -> ch_parent d <> Some (ch_id c)) ->
   (forall p, ch_parent c = Some p -> is_Some (the_channels s !! p)) -> the_channels s !! ch_id c = None ->
     acyclic (the_channels (insert_channel_mem s c))).
Proof.
  intros Ha. pose proof (parent_would_cycle_spec s (ch_id c) (ch_parent c)) as H. split_and!.
  - intros E. rewrite E in H. by destruct H.
  - intros E. rewrite E in H. unfold update_channel_mem.
    destruct (the_channels s !! ch_id c) as [old|]; [|done]. simpl.
    apply acyclic_insert; [done|]. intros p Hp Hr. apply H. exists p. auto.
  - intros id. unfold remove_channel_mem. destruct (the_channels s !! id); [|done].
    by apply acyclic_delete.
  - intros Hnone Hparent Hfresh. apply acyclic_insert; [done|]. intros p Hp Hr.
    apply rtc_inv_r in Hr. destruct Hr as [E | (q & _ & Hq)].
    + destruct (Hparent p Hp) as [d Hd]. rewrite E in Hd. congruence.
    + unfold is_parent, parent_of in Hq. destruct (the_channels s !! q) as [d|] eqn:E; [|done].
      by apply (Hnone q d E).
Qed.

End Properties.

(** ** On the sample server *)

(** Parents with smaller ids than their children make a tree. *)
Lemma decreasing_acyclic chans :
  all_entries (fun id c => match ch_parent c with Some p => p <? id | None => true end) chans = true ->
  acyclic chans.
Proof.
  intros H. assert (Hstep : forall x y, is_parent chans x y -> y < x).
  { unfold is_parent, parent_of. intros x y E. destruct (chans !! x) as [c|] eqn:Hc; [|done].
    simpl in E. pose proof (all_entries_spec _ _ H x c Hc) as Hx. cbv beta in Hx. rewrite E in Hx.
    by apply Z.ltb_lt. }
  assert (Htc : forall x y, tc (is_parent chans) x y -> y < x).
  { induction 1 as [x y Hxy | x y z Hxy _ IH]; [auto|]. apply Hstep in Hxy. lia. }
  intros id Hid. apply Htc in Hid. lia.
Qed.

Lemma sample_acyclic : acyclic (the_channels Sample.server).
Proof. apply decreasing_acyclic. vm_compute. reflexivity. Qed.

Definition move_under (parent : option ChannelId) : Channel :=
  mkChannel 1 parent (lit "lobby") [] VoiceAndText (Some 3) 0 [].

Lemma tree_stays_a_tree_witness :
  parent_would_cycle Sample.server 1 (Some 3) = Some true /\
  acyclic (the_channels (update_channel_mem Sample.server (move_under (Some 2))).2).
Proof.
  split; [vm_compute; reflexivity|].
  destruct (tree_stays_a_tree Sample.server (move_under (Some 2)) sample_acyclic) as (_ & H & _).
  apply H. vm_compute. reflexivity.
Defined.

(** The owner's commands: put the notes below the staff room, delete the staff room, create a
    room below the notes. The new room gets the deleted one's id, which the notes still name as
    their parent; the next update of the lobby's parent never returns. *)
Definition loop_script : list ClientControl :=
  [ CUpdateChannel 1 2 (Some 3) (lit "notes") [] Text None 1;
    CDeleteChannel 2 3;
    CCreateChannel 3 (lit "annex") (Some 2) [] Text None 4 ].

Lemma reused_channel_id_closes_a_loop :
  match run (for_each loop_script (handle_control 1)) Sample.server with
  | Some (_, s) =>
      parent_of (the_channels s) 2 = Some 3 /\ parent_of (the_channels s) 3 = Some 2 /\
      run (handle_control 1 (CUpdateChannel 4 1 (Some 2) (lit "lobby") [] VoiceAndText None 0)) s = None
  | None => False
  end.
Proof. vm_compute. auto. Qed.
