(* ===== verification/Visibility.v ===== *)
(** * Visibility resync

    After a change to permissions or channels, [resync_visibility] sends every member the
    channel events that turn the list it had into the list it may see now.  The abstract
    specification is a client that folds the events it receives over the list it holds;
    the theorem is that this list is then exactly the member's visible channels. *)

From S2P Require Export Samples.

(** ** The client's side *)

(** The channel list a client keeps, and what each event does to it. *)
Definition apply_event (view : gmap ChannelId Channel) (f : ServerControl) : gmap ChannelId Channel :=
  match f with
  | SChannelCreated c | SChannelUpdated c => <[ch_id c := c]> view
  | SChannelRemoved id => delete id view
  | _ => view
  end.

Definition apply_events (view : gmap ChannelId Channel) (fs : list ServerControl) : gmap ChannelId Channel :=
  fold_left apply_event fs view.

(** The channels with an id of [ids]. *)
Definition restrict (chans : gmap ChannelId Channel) (ids : gset ChannelId) : gmap ChannelId Channel :=
  filter (fun e => e.1 ∈ ids) chans.

Lemma lookup_restrict chans ids id :
  restrict chans ids !! id = if decide (id ∈ ids) then chans !! id else None.
Proof.
  unfold restrict. apply option_eq. intros c. rewrite map_lookup_filter_Some. simpl.
  case_decide; (split; [by intros [? ?] | done]).
Qed.

Lemma apply_events_app view fs gs : apply_events view (fs ++ gs) = apply_events (apply_events view fs) gs.
Proof. apply fold_left_app. Qed.

Lemma apply_woven g ms new view : woven g ms new -> apply_events view new = apply_events view ms.
Proof.
  intros H. revert view. induction H as [| m ms new _ IH | m ms new (id & -> & _) _ IH]; intros view; [done | apply IH | apply IH].
Qed.

(** ** What one client receives *)

Section Received.
Context {C : Crypto} {HO : HashOrder} {L : HashOrderLaws HO} {DB : Type}.
Implicit Types s : Shared DB.

(** From [s] to [s'], client [id], if still there with an open queue, received the frames [ms],
    and perhaps notices. *)
Definition received (id : ClientId) (ms : list ServerControl) s s' : Prop :=
  only_clients s s' /\ delivers (fun _ _ => True) (the_clients s) (the_clients s') /\
  forall e', the_clients s' !! id = Some e' -> queue_open e' ->
    exists e new, the_clients s !! id = Some e /\ extended e e' new /\ woven (gone (the_clients s')) ms new.

Lemma received_refl id s : received id [] s s.
Proof.
  split_and!; auto with pickle. intros e' He _. exists e', []. split_and!; [done | apply extended_refl | constructor].
Qed.

Lemma received_trans id ms1 ms2 s1 s2 s3 :
  received id ms1 s1 s2 -> received id ms2 s2 s3 -> received id (ms1 ++ ms2) s1 s3.
Proof.
  intros (O1 & D1 & R1) (O2 & D2 & R2).
  split_and!; [by eapply only_clients_trans | by eapply delivers_trans |].
  intros e3 He3 Ho. destruct (R2 e3 He3 Ho) as (e2 & n2 & He2 & Hx2 & V2).
  assert (Ho2 : queue_open e2) by (unfold queue_open in *; by rewrite <- (extended_closed _ _ _ Hx2)).
  destruct (R1 e2 He2 Ho2) as (e1 & n1 & He1 & Hx1 & V1).
  exists e1, (n1 ++ n2). split_and!; [done | by eapply extended_trans |].
  apply woven_app; [|done]. eapply woven_mono; [|done]. intros i. by eapply gone_delivers.
Qed.

Lemma received_send s client id m :
  keyed (the_clients s) -> received id (if decide (id = client) then [m] else []) s (send s client m).
Proof.
  intros Hk. destruct (send_talks s client m Hk) as [Ho Hd]. split_and!; [done | done |].
  intros e' He' Hopen. pose proof (send_exact s client m id Hk) as H. rewrite He' in H.
  destruct H as (e & new & He & Hx & Hn & _).
  assert (Hoe : queue_open e) by (unfold queue_open in *; by rewrite <- (extended_closed _ _ _ Hx)).
  exists e. eexists. split_and!; [done | exact Hx |].
  assert (Eb : (if decide (id = client) then [m] else []) = if bool_decide (id = client /\ queue_open e) then [m] else []).
  { case_decide; [by rewrite bool_decide_eq_true_2 | by rewrite bool_decide_eq_false_2 by (by intros [-> _])]. }
  rewrite Eb. by apply woven_sent.
Qed.

Lemma received_keyed id ms s s' : keyed (the_clients s) -> received id ms s s' -> keyed (the_clients s').
Proof. intros Hk (_ & Hd & _). by eapply keyed_delivers. Qed.

(** A fold of steps, each of which sends [client] its frames. *)
Lemma received_fold {A} (f : Shared DB -> A -> Shared DB) (frames : A -> list ServerControl) id l s :
  (forall s a, keyed (the_clients s) -> received id (frames a) s (f s a)) ->
  keyed (the_clients s) -> received id (l ≫= frames) s (fold_left f l s).
Proof.
  intros Hf. revert s; induction l as [|a l IH]; intros s Hk; simpl; [apply received_refl|].
  pose proof (Hf s a Hk) as H. eapply received_trans; [exact H|]. apply IH. by eapply received_keyed.
Qed.

(** The events [resync_client] sends. *)
Definition gained_events (chans : gmap ChannelId Channel) (was now : gset ChannelId) : list ServerControl :=
  retain (fun id => negb (bool_decide (id ∈ was))) (hash_set_iter now) ≫=
    (fun id => option_list (SChannelCreated <$> chans !! id)).

Definition lost_events (was now : gset ChannelId) : list ServerControl :=
  retain (fun id => negb (bool_decide (id ∈ now))) (hash_set_iter was) ≫= (fun id => [SChannelRemoved id]).

Definition updated_events (chans : gmap ChannelId Channel) (touched : list ChannelId) (was now : gset ChannelId) :
    list ServerControl :=
  touched ≫= (fun id => if bool_decide (id ∈ was) && bool_decide (id ∈ now)
                        then option_list (SChannelUpdated <$> chans !! id) else []).

Definition resync_events chans touched was now : list ServerControl :=
  gained_events chans was now ++ lost_events was now ++ updated_events chans touched was now.

Lemma received_option_send s client (o : option Channel) (mk : Channel -> ServerControl) id :
  keyed (the_clients s) ->
  received id (if decide (id = client) then option_list (mk <$> o) else [])
    s (match o with Some c => send s client (mk c) | None => s end).
Proof.
  intros Hk. destruct o as [c|]; simpl; [by apply received_send|].
  destruct (decide (id = client)); apply received_refl.
Qed.

Lemma bind_if {A B} (P : Prop) `{Decision P} (l : list A) (f : A -> list B) :
  l ≫= (fun a => if decide P then f a else []) = if decide P then l ≫= f else [].
Proof. case_decide; [done|]. induction l; [done | by rewrite bind_cons, IHl]. Qed.

Lemma received_resync_client s client chans touched was now id :
  keyed (the_clients s) ->
  received id (if decide (id = client) then resync_events chans touched was now else [])
    s (resync_client chans touched s client was now).
Proof.
  intros Hk. unfold resync_client, resync_events, gained_events, lost_events, updated_events.
  assert (H : forall (b : bool) (x y z : list ServerControl), (if b then x ++ y ++ z else []) =
    (if b then x else []) ++ ((if b then y else []) ++ (if b then z else []))) by by intros [].
  assert (Hd : forall x : list ServerControl, (if decide (id = client) then x else []) =
             if bool_decide (id = client) then x else []) by (intros; by case_decide; case_bool_decide).
  rewrite Hd, H, <- !Hd, app_assoc.
  rewrite <- !(bind_if (id = client)).
  assert (R1 : forall l s, keyed (the_clients s) ->
    received id (l ≫= (fun g => if decide (id = client) then option_list (SChannelCreated <$> chans !! g) else []))
      s (fold_left (fun s gained => match chans !! gained with
                     | Some c => send s client (SChannelCreated c) | None => s end) l s)).
  { intros l s0 Hk0. apply (received_fold _ (fun g => if decide (id = client) then _ else [])); [|done].
    intros s1 g Hk1. by apply received_option_send. }
  assert (R2 : forall l s, keyed (the_clients s) ->
    received id (l ≫= (fun g => if decide (id = client) then [SChannelRemoved g] else []))
      s (fold_left (fun s lost => send s client (SChannelRemoved lost)) l s)).
  { intros l s0 Hk0. apply (received_fold _ (fun g => if decide (id = client) then _ else [])); [|done].
    intros s1 g Hk1. by apply received_send. }
  eapply received_trans; [eapply received_trans; [by apply R1 | apply R2]|].
  - eapply received_keyed; [done | by apply R1].
  - apply (received_fold _ (fun g => if decide (id = client) then _ else [])).
    + intros s1 g Hk1. destruct (_ && _); [by apply received_option_send|].
      destruct (decide (id = client)); apply received_refl.
    + eapply received_keyed; [|apply R2]; (eapply received_keyed; [done | by apply R1]).
Qed.

End Received.

(** ** What the events do to a list *)

Section Events.
Context (chans : gmap ChannelId Channel).
Context (Hids : forall id c, chans !! id = Some c -> ch_id c = id).

Lemma apply_puts (mk : Channel -> ServerControl) l view id :
  (forall v c, apply_event v (mk c) = <[ch_id c := c]> v) ->
  apply_events view (l ≫= (fun i => option_list (mk <$> chans !! i))) !! id =
  if decide (id ∈ l) then match chans !! id with Some c => Some c | None => view !! id end else view !! id.
Proof.
  intros Hmk. revert view; induction l as [|i l IH]; intros view; [done|].
  rewrite bind_cons, apply_events_app, IH.
  destruct (chans !! i) as [c|] eqn:Hc; simpl.
  - rewrite Hmk, (Hids _ _ Hc). destruct (decide (id = i)) as [->|Hne].
    + rewrite lookup_insert_eq, Hc, (decide_True (P := i ∈ i :: l)) by left. by case_decide.
    + rewrite lookup_insert_ne by done. apply decide_ext; rewrite elem_of_cons; tauto.
  - destruct (decide (id = i)) as [->|Hne]; [|apply decide_ext; rewrite elem_of_cons; tauto].
    rewrite Hc. by repeat case_decide.
Qed.

Lemma apply_removes l view id :
  apply_events view (l ≫= (fun i => [SChannelRemoved i])) !! id =
  if decide (id ∈ l) then None else view !! id.
Proof.
  revert view; induction l as [|i l IH]; intros view; [done|].
  rewrite bind_cons, apply_events_app, IH. simpl.
  destruct (decide (id = i)) as [->|Hne].
  - rewrite lookup_delete_eq, (decide_True (P := i ∈ i :: l)) by left. by case_decide.
  - rewrite lookup_delete_ne by done. apply decide_ext; rewrite elem_of_cons; tauto.
Qed.

Lemma bind_retain {A B} (p : A -> bool) (f : A -> list B) l :
  l ≫= (fun a => if p a then f a else []) = retain p l ≫= f.
Proof.
  unfold retain. induction l as [|a l IH]; [done|]. rewrite bind_cons, IH.
  destruct (p a) eqn:E; [by rewrite filter_cons_True | rewrite filter_cons_False; [done | congruence]].
Qed.

Lemma resync_events_apply {HO : HashOrder} {L : HashOrderLaws HO} touched (was now : gset ChannelId) view :
  (forall id, id ∈ now -> is_Some (chans !! id)) -> dom view = was ->
  (forall id, id ∈ was -> id ∈ now -> view !! id = chans !! id \/ id ∈ touched) ->
  apply_events view (resync_events chans touched was now) = restrict chans now.
Proof.
  intros Hnow Hdom Hsame. apply map_eq. intros id.
  assert (Hout : id ∉ was -> view !! id = None) by (intros; apply not_elem_of_dom; by rewrite Hdom).
  unfold resync_events, gained_events, lost_events, updated_events.
  rewrite !apply_events_app, bind_retain, apply_puts, apply_removes, apply_puts, lookup_restrict by done.
  assert (Hg : id ∈ retain (fun i => negb (bool_decide (i ∈ was))) (hash_set_iter now) <-> id ∈ now /\ id ∉ was).
  { by rewrite elem_of_retain, elem_of_hash_set_iter, negb_true_iff, bool_decide_eq_false. }
  assert (Hl : id ∈ retain (fun i => negb (bool_decide (i ∈ now))) (hash_set_iter was) <-> id ∈ was /\ id ∉ now).
  { by rewrite elem_of_retain, elem_of_hash_set_iter, negb_true_iff, bool_decide_eq_false. }
  assert (Hu : id ∈ retain (fun i => bool_decide (i ∈ was) && bool_decide (i ∈ now)) touched
                 <-> id ∈ touched /\ id ∈ was /\ id ∈ now).
  { by rewrite elem_of_retain, andb_true_iff, !bool_decide_eq_true. }
  destruct (decide (id ∈ now)) as [Hn|Hn].
  - destruct (Hnow id Hn) as [c Hc]. rewrite Hc.
    rewrite (decide_False (P := id ∈ retain (fun i => negb (bool_decide (i ∈ now))) _)) by tauto.
    destruct (decide (id ∈ was)) as [Hw|Hw].
    + rewrite (decide_False (P := id ∈ retain (fun i => negb (bool_decide (i ∈ was))) _)) by tauto.
      case_decide as Ht; [done|]. destruct (Hsame id Hw Hn) as [-> | Hin]; [done | tauto].
    + rewrite (decide_True (P := id ∈ retain (fun i => negb (bool_decide (i ∈ was))) _)) by tauto.
      by case_decide.
  - rewrite (decide_False (P := id ∈ retain (fun i => _ && _) _)) by tauto.
    destruct (decide (id ∈ was)) as [Hw|Hw].
    + by rewrite decide_True by tauto.
    + rewrite !decide_False by tauto. auto.
Qed.

End Events.

Section Properties.
Context {C : Crypto} {HO : HashOrder} {L : HashOrderLaws HO} {DB : Type}.
Implicit Types s : Shared DB.

Lemma remove_channel_overwrite_other s chan target c :
  c <> chan -> the_channels (remove_channel_overwrite s chan target).2 !! c = the_channels s !! c.
Proof.
  intros Hne. unfold remove_channel_overwrite. destruct (the_channels s !! chan); [|done].
  by apply lookup_insert_ne.
Qed.

Lemma visible_ids_exist s u id : wf_channels (the_channels s) -> id ∈ visible_ids s u -> is_Some (the_channels s !! id).
Proof.
  intros Hwf H. unfold visible_ids in H. apply elem_of_list_to_set, list_elem_of_fmap in H as (c & -> & Hc).
  apply elem_of_retain in Hc as [Hc _]. apply elem_of_btree_values in Hc as [k Hk].
  destruct (Hwf k c Hk) as [-> _]. eauto.
Qed.

Lemma after_get_visible s id e :
  keyed (the_clients s) -> the_clients s !! id = Some e ->
  after_get (visible_ids_by_client s) id = Some (visible_ids s (cc_info e)).
Proof.
  intros Hk He. unfold after_get.
  assert (Hmem : forall k v, (k, v) ∈ reverse (visible_ids_by_client s) ->
            exists e', the_clients s !! k = Some e' /\ v = visible_ids s (cc_info e')).
  { intros k v Hin. rewrite elem_of_reverse in Hin. apply list_elem_of_fmap in Hin as ((i & e') & E & Hin).
    apply elem_of_hash_iter in Hin. simpl in E. rewrite (Hk _ _ Hin) in E. injection E as -> ->. eauto. }
  destruct (find _ _) as [[k v]|] eqn:E.
  - apply find_some in E as [Hin Hb]. apply Z.eqb_eq in Hb. simpl in Hb. subst k.
    apply Hmem in Hin as (e' & He' & ->). simpl. by simplify_eq.
  - pose proof (proj1 (find_none _ _) E (id, visible_ids s (cc_info e))) as Hf.
    simpl in Hf. rewrite Z.eqb_refl in Hf. discriminate Hf.
    rewrite elem_of_reverse. apply list_elem_of_fmap. exists (id, e). simpl. rewrite (Hk _ _ He).
    split; [done | by apply elem_of_hash_iter].
Qed.

(** One entry of [before] is the client's; the others send it nothing. *)
Lemma bind_unique {B} (before : list (ClientId * gset ChannelId)) id was (f : gset ChannelId -> list B) :
  NoDup before.*1 -> (id, was) ∈ before ->
  before ≫= (fun e => if decide (id = e.1) then f e.2 else []) = f was.
Proof.
  induction before as [|[i w] l IH]; intros Hn Hin; [by apply elem_of_nil in Hin|].
  rewrite bind_cons. simpl in *. apply NoDup_cons in Hn as [Hni Hn].
  apply elem_of_cons in Hin as [[= <- <-] | Hin].
  - rewrite decide_True by done.
    assert (Hnil : l ≫= (fun e => if decide (id = e.1) then f e.2 else []) = []); [|by rewrite Hnil, app_nil_r].
    clear -Hni. induction l as [|[j w] l IH]; [done|]. simpl in Hni. apply not_elem_of_cons in Hni as [Hne Hni].
    rewrite bind_cons. simpl. rewrite decide_False by done. by apply IH.
  - rewrite decide_False; [by apply IH|]. intros <-. apply Hni. by apply (list_elem_of_fmap_2 fst) in Hin.
Qed.

(** What resync sends one client, who had the ids [was]. *)
Lemma received_resync s before touched id was e :
  keyed (the_clients s) -> NoDup before.*1 -> (id, was) ∈ before -> the_clients s !! id = Some e ->
  received id (resync_events (the_channels s) touched was (visible_ids s (cc_info e))) s (resync_visibility s before touched).
Proof.
  intros Hk Hnd Hin He.
  set (after := visible_ids_by_client s). set (chans := the_channels s) in *.
  set (step := fun (s : Shared DB) (entry : ClientId * gset ChannelId) => let '(client, was) := entry in
         match after_get after client with
         | None => s | Some now => resync_client chans touched s client was now end).
  assert (R : received id (before ≫= (fun e => if decide (id = e.1) then
              match after_get after id with Some now => resync_events chans touched e.2 now | None => [] end
              else [])) s (fold_left step before s)).
  { apply (received_fold step (fun e => if decide (id = e.1) then _ else [])); [|done].
    intros s1 [client w] Hk1. unfold step. simpl.
    destruct (decide (id = client)) as [->|Hne].
    - destruct (after_get after client) as [now|]; [|apply received_refl].
      pose proof (received_resync_client s1 client chans touched w now client Hk1) as H.
      by rewrite decide_True in H.
    - destruct (after_get after client) as [now|]; [|apply received_refl].
      pose proof (received_resync_client s1 client chans touched w now id Hk1) as H.
      by rewrite decide_False in H. }
  rewrite (bind_unique before id was (fun w => match after_get after id with
             Some now => resync_events chans touched w now | None => [] end) Hnd Hin) in R.
  unfold after in R. by rewrite (after_get_visible s id e Hk He) in R.
Qed.

(** For any list the client may hold. *)
Lemma resync_events_view s touched was view e :
  wf_channels (the_channels s) -> dom view = was ->
  (forall c, c ∈ was -> c ∈ visible_ids s (cc_info e) -> view !! c = the_channels s !! c \/ c ∈ touched) ->
  apply_events view (resync_events (the_channels s) touched was (visible_ids s (cc_info e))) =
    restrict (the_channels s) (visible_ids s (cc_info e)).
Proof.
  intros Hwf Hdom Hsame. apply resync_events_apply; [| exact L | | done | done].
  - intros i c Hc. by apply Hwf.
  - intros i Hi. by eapply visible_ids_exist.
Qed.

Lemma visible_ids_by_client_entry s id e :
  keyed (the_clients s) -> the_clients s !! id = Some e ->
  (id, visible_ids s (cc_info e)) ∈ visible_ids_by_client s.
Proof.
  intros Hk He. apply list_elem_of_fmap. exists (id, e). simpl. rewrite (Hk _ _ He).
  split; [done | by apply elem_of_hash_iter].
Qed.

Lemma visible_ids_by_client_NoDup s : keyed (the_clients s) -> NoDup (visible_ids_by_client s).*1.
Proof.
  intros Hk. unfold visible_ids_by_client. rewrite <- list_fmap_compose.
  rewrite (list_fmap_ext _ fst); [apply NoDup_hash_iter|].
  intros i [id e] Hi. simpl. apply Hk. apply elem_of_hash_iter. by eapply list_elem_of_lookup_2.
Qed.

Lemma dom_restrict_visible s u :
  wf_channels (the_channels s) -> dom (restrict (the_channels s) (visible_ids s u)) = visible_ids s u.
Proof.
  intros Hwf. apply set_eq. intros id. rewrite elem_of_dom, lookup_restrict. case_decide as H.
  - split; [done|]. intros _. by eapply visible_ids_exist.
  - split; [by intros [] | done].
Qed.

(** C5: visibility resync keeps its promise: let [s0] be the state in which a handler noted who
    saw what, and [s] the state after its change, where channels that a member could view before
    and may view now differ only if they are listed as touched. A member that held exactly the
    channels it could view in [s0], and is still connected with an open queue, holds after the
    events it is sent exactly the channels it may view in [s], each as it is in [s]. *)
Theorem resync_keeps_channel_lists_exact s0 s touched id e0 e' :
  keyed (the_clients s0) -> wf_channels (the_channels s0) ->
  keyed (the_clients s) -> wf_channels (the_channels s) ->
  the_clients s0 !! id = Some e0 ->
  (forall c, c ∉ touched -> c ∈ visible_ids s0 (cc_info e0) -> the_channels s0 !! c = the_channels s !! c) ->
  the_clients (resync_visibility s (visible_ids_by_client s0) touched) !! id = Some e' -> queue_open e' ->
  exists e new, the_clients s !! id = Some e /\
    q_frames (cc_control e') = q_frames (cc_control e) ++ new /\
    apply_events (restrict (the_channels s0) (visible_ids s0 (cc_info e0))) new =
      restrict (the_channels s) (visible_ids s (cc_info e)).
Proof.
  intros Hk0 Hw0 Hk Hw He0 Hsame He' Ho.
  assert (He : exists e, the_clients s !! id = Some e).
  { destruct (resync_visibility_talks s (visible_ids_by_client s0) touched Hk) as [_ Hd].
    destruct (Hd id e' He') as (e & new & He & _). by exists e. }
  destruct He as [e He].
  destruct (received_resync s (visible_ids_by_client s0) touched id (visible_ids s0 (cc_info e0)) e) as (_ & _ & R);
    [done | by apply visible_ids_by_client_NoDup | by apply visible_ids_by_client_entry | done |].
  destruct (R e' He' Ho) as (e1 & new & He1 & Hx & Hv). simplify_eq. exists e, new.
  split_and!; [done | by apply extended_frames |]. rewrite (apply_woven _ _ _ _ Hv).
  apply resync_events_view; [done | by apply dom_restrict_visible |]. intros c Hc Hc'.
  rewrite lookup_restrict, decide_True by done. destruct (decide (c ∈ touched)); [by right | left; auto].
Qed.

End Properties.

(** The staff room opens to everyone: bob, who could not see it, is told of it. *)
Definition opened : Shared Database := (remove_channel_overwrite Sample.server 3 (TRole 0)).2.

Lemma opened_inv : server_inv opened.
Proof. apply inv_remove_channel_overwrite, sample_inv. Qed.

Lemma resync_keeps_channel_lists_exact_witness :
  exists e0 e' e new,
    the_clients Sample.server !! 2 = Some e0 /\ the_clients opened !! 2 = Some e /\
    the_clients (resync_visibility opened (visible_ids_by_client Sample.server) [3]) !! 2 = Some e' /\
    q_frames (cc_control e') = q_frames (cc_control e) ++ new /\
    apply_events (restrict (the_channels Sample.server) (visible_ids Sample.server (cc_info e0))) new =
      restrict (the_channels opened) (visible_ids opened (cc_info e)).
Proof.
  assert (H0 : exists e0, the_clients Sample.server !! 2 = Some e0) by (eexists; vm_compute; reflexivity).
  assert (H1 : exists e', the_clients (resync_visibility opened (visible_ids_by_client Sample.server) [3]) !! 2 = Some e' /\
            queue_open e') by (eexists; split; [vm_compute; reflexivity | reflexivity]).
  destruct H0 as [e0 He0]. destruct H1 as (e' & He' & Ho).
  destruct (resync_keeps_channel_lists_exact Sample.server opened [3] 2 e0 e') as (e & new & He & Hf & Hv).
  - apply inv_keyed, sample_inv.
  - apply (inv_channels _ sample_inv).
  - apply inv_keyed, opened_inv.
  - apply (inv_channels _ opened_inv).
  - exact He0.
  - intros c Hc _. symmetry. apply remove_channel_overwrite_other. intros ->. apply Hc. left.
  - exact He'.
  - exact Ho.
  - exists e0, e', e, new. auto.
Defined.
