(* ===== verification/Authority.v ===== *)
(** * Who may command what

    The moderation and administration commands as seen from outside: without the
    permission, or against someone who is not outranked, nothing happens but the refusal;
    nobody creates permissions they do not hold; a deleted role leaves no trace; and
    memory never runs ahead of a database that refuses to write. *)

From S2P Require Export Samples.

(** The permission a command needs, when it is a privileged one, and its nonce. *)
Definition required_bit (m : ClientControl) : option Permissions :=
  match m with
  | CKick _ _ _ => Some KICK_MEMBERS
  | CBan _ _ _ _ | CUnban _ _ | CListBans _ => Some BAN_MEMBERS
  | CSetServerMute _ _ _ => Some MUTE_MEMBERS
  | CMoveMember _ _ _ => Some MOVE_MEMBERS
  | CCreateRole _ _ _ | CUpdateRole _ _ _ _ _ | CDeleteRole _ _ | CReorderRoles _ _
  | CSetMemberRoles _ _ _ | CSetChannelOverwrite _ _ _ _ _ | CDeleteChannelOverwrite _ _ _ => Some MANAGE_ROLES
  | CCreateChannel _ _ _ _ _ _ _ | CUpdateChannel _ _ _ _ _ _ _ _ | CDeleteChannel _ _ => Some MANAGE_CHANNELS
  | _ => None
  end.

Definition nonce_of (m : ClientControl) : Z :=
  match m with
  | CKick n _ _ | CBan n _ _ _ | CUnban n _ | CListBans n | CSetServerMute n _ _ | CMoveMember n _ _
  | CCreateRole n _ _ | CUpdateRole n _ _ _ _ | CDeleteRole n _ | CReorderRoles n _ | CSetMemberRoles n _ _
  | CSetChannelOverwrite n _ _ _ _ | CDeleteChannelOverwrite n _ _
  | CCreateChannel n _ _ _ _ _ _ | CUpdateChannel n _ _ _ _ _ _ _ | CDeleteChannel n _ => n
  | _ => 0
  end.

Section Refusals.
Context {C : Crypto} {HO : HashOrder} {U : UnicodeTables} {DB : Type} {ST : StoreApi DB}.
Implicit Types s : Shared DB.

(** The member a command acts on. *)
Definition target_of s (m : ClientControl) : option Fingerprint :=
  match m with
  | CKick _ client _ | CSetServerMute _ client _ | CMoveMember _ client _ => fingerprint_of s client
  | CBan _ fp _ _ => Some fp
  | _ => None
  end.

Ltac refused H :=
  cbn [handle_control];
  unfold kick, ban, unban, list_bans, set_server_mute, move_member, authorize_against_online, create_role, update_role,
    delete_role, reorder_roles, set_member_roles, set_channel_overwrite_cmd, delete_channel_overwrite, actor,
    create_channel, update_channel, delete_channel;
  cbn [run bind get update call refuse]; rewrite H; cbn [run bind get update call refuse negb];
  eexists; reflexivity.

(** C6: a command sent without the permission it needs has exactly one effect: its sender is
    told so, under the command's own nonce. *)
Theorem unauthorised_commands_are_only_refused s client m bit :
  required_bit m = Some bit -> can_globally s client bit = false ->
  exists detail, run (handle_control client m) s =
    Some (tt, send s client (SCommandFailed (nonce_of m) NotPermitted detail)).
Proof.
  intros Hb H. destruct m; simpl in Hb; try discriminate Hb; injection Hb as <-; refused H.
Qed.

(** C7: a moderator who holds the permission but does not outrank the target (the target's
    highest role is not strictly below, or the target is the owner) changes nothing either:
    kick, ban, server mute and move are refused alike. *)
Theorem moderation_respects_rank s client m bit fp :
  required_bit m = Some bit -> target_of s m = Some fp -> actor_outranks s client fp = false ->
  exists detail, run (handle_control client m) s =
    Some (tt, send s client (SCommandFailed (nonce_of m) NotPermitted detail)).
Proof.
  intros Hb Ht Ho. destruct (can_globally s client bit) eqn:Hc.
  - destruct m; simpl in Hb, Ht; try discriminate; injection Hb as <-; cbn [handle_control];
      unfold kick, ban, set_server_mute, move_member, authorize_against_online, refuse;
      cbn [run bind get update call]; rewrite Hc; cbn [run bind get update call negb].
    2:{ injection Ht as ->. destruct (bool_decide _); [eexists; reflexivity|].
        cbn [run bind get update call]. rewrite Ho. eexists. reflexivity. }
    all: rewrite Ht; cbn [run bind get update call]; rewrite Ho; eexists; reflexivity.
  - destruct m; simpl in Hb; try discriminate Hb; injection Hb as <-; refused Hc.
Qed.

End Refusals.

(** bob, who holds no role, asks for alice to be kicked. *)
Lemma unauthorised_commands_are_only_refused_witness :
  exists detail, run (handle_control 2 (CKick 7 1 [])) Sample.server =
    Some (tt, send Sample.server 2 (SCommandFailed 7 NotPermitted detail)).
Proof.
  apply (unauthorised_commands_are_only_refused Sample.server 2 (CKick 7 1 []) KICK_MEMBERS).
  - reflexivity.
  - vm_compute. reflexivity.
Defined.

(** carol is a moderator, and alice owns the server. *)
Lemma moderation_respects_rank_witness :
  can_globally Sample.server 3 KICK_MEMBERS = true /\
  exists detail, run (handle_control 3 (CKick 7 1 [])) Sample.server =
    Some (tt, send Sample.server 3 (SCommandFailed 7 NotPermitted detail)).
Proof.
  split; [vm_compute; reflexivity|].
  apply (moderation_respects_rank Sample.server 3 (CKick 7 1 []) KICK_MEMBERS Sample.alice).
  - reflexivity.
  - vm_compute. reflexivity.
  - vm_compute. reflexivity.
Defined.

(** ** Reading the result of a command *)

Create Rewrite HintDb untouched.

Section Untouched.
Context {C : Crypto} {HO : HashOrder} {DB : Type}.
Implicit Types s : Shared DB.

Lemma perms_send s c m : perms (send s c m) = perms s.
Proof. apply only_clients_perms, send_only. Qed.
Lemma perms_broadcast s m e : perms (broadcast s m e) = perms s.
Proof. apply only_clients_perms, broadcast_only. Qed.
Lemma perms_resync s b t : perms (resync_visibility s b t) = perms s.
Proof. apply only_clients_perms, resync_visibility_only. Qed.
Lemma perms_store_step {A} (err : A) f s : perms (store_step err f s).2 = perms s.
Proof. unfold store_step. destruct (store s) as [d|]; [|done]. by destruct (f d). Qed.
Lemma perms_swap s p : perms (swap_perm_state s p) = p.
Proof. done. Qed.
Lemma perms_strip_overwrites s role : perms (strip_role_overwrites s role).2 = perms s.
Proof. done. Qed.
Lemma perms_strip_live s role : perms (strip_live_role s role).2 = perms s.
Proof. done. Qed.

Lemma channels_send s c m : the_channels (send s c m) = the_channels s.
Proof. apply only_clients_channels, send_only. Qed.
Lemma channels_broadcast s m e : the_channels (broadcast s m e) = the_channels s.
Proof. apply only_clients_channels, broadcast_only. Qed.
Lemma channels_resync s b t : the_channels (resync_visibility s b t) = the_channels s.
Proof. apply only_clients_channels, resync_visibility_only. Qed.
Lemma channels_store_step {A} (err : A) f s : the_channels (store_step err f s).2 = the_channels s.
Proof. unfold store_step. destruct (store s) as [d|]; [|done]. by destruct (f d). Qed.
Lemma channels_swap s p : the_channels (swap_perm_state s p) = the_channels s.
Proof. done. Qed.
Lemma channels_strip_live s role : the_channels (strip_live_role s role).2 = the_channels s.
Proof. done. Qed.

Lemma clients_store_step {A} (err : A) f s : the_clients (store_step err f s).2 = the_clients s.
Proof. unfold store_step. destruct (store s) as [d|]; [|done]. by destruct (f d). Qed.

Lemma clients_swap s p : the_clients (swap_perm_state s p) = the_clients s.
Proof. done. Qed.
Lemma clients_strip_overwrites s role : the_clients (strip_role_overwrites s role).2 = the_clients s.
Proof. done. Qed.

End Untouched.

#[export] Hint Rewrite @perms_send @perms_broadcast @perms_resync @perms_store_step @perms_swap
  @perms_strip_overwrites @perms_strip_live @channels_send @channels_broadcast @channels_resync
  @channels_store_step @channels_swap @channels_strip_live @clients_store_step @clients_swap @clients_strip_overwrites : untouched.

(** One step of a program under [ends]. *)
Ltac ends_step :=
  cbv zeta;
  match goal with
  | |- ends _ (Ret _) _ => apply ends_ret
  | |- ends _ (bind (Ret _) _) _ => cbn [bind]
  | |- ends _ (bind (bind _ _) _) _ => apply ends_assoc
  | |- ends _ (bind (get _) _) _ => apply ends_get
  | |- ends _ (update _) _ => apply ends_update_last
  | |- ends _ (bind (update _) _) _ => apply ends_update
  | |- ends _ (bind (call _) _) _ => apply ends_call
  | |- ends _ (bind (store_exec _) _) _ => apply ends_call
  | |- ends _ (bind (store_query _) _) _ => apply ends_call
  | |- ends _ (bind (announce _) _) _ => apply ends_update
  | |- ends _ (bind (refuse _ _ _ _) _) _ => apply ends_update
  | |- ends _ (refuse _ _ _ _) _ => apply ends_update_last
  | |- ends _ (no_database _ _) _ => apply ends_update_last
  | |- ends _ (ack _ _) _ => apply ends_update_last
  | |- ends _ (if ?b then _ else _) _ => destruct b eqn:?
  | |- ends _ (match ?x with _ => _ end) _ => destruct x eqn:?
  | |- ends _ (bind (if ?b then _ else _) _) _ => destruct b eqn:?
  | |- ends _ (bind (match ?x with _ => _ end) _) _ => destruct x eqn:?
  end.

Section Roles.
Context {C : Crypto} {HO : HashOrder} {L : HashOrderLaws HO} {U : UnicodeTables} {DB : Type} {ST : StoreApi DB}.
Implicit Types s : Shared DB.

(** The actor a role command reads off the state. *)
Definition actor_of s (fp : Fingerprint) : Actor :=
  let roles := default [] (ps_members (perms s) !! fp) in
  mkActor roles (is_owner s fp) (resolve (ps_roles (perms s)) roles fp (is_owner s fp) None).

Lemma ends_actor {B} (Q : B -> Shared DB -> Prop) client nonce fp k s :
  fingerprint_of s client = Some fp ->
  (can_globally s client MANAGE_ROLES = true -> ends Q (k (Some (actor_of s fp))) s) ->
  (can_globally s client MANAGE_ROLES = false ->
   forall detail, ends Q (k None) (send s client (SCommandFailed nonce NotPermitted detail))) ->
  ends Q (bind (actor client nonce) k) s.
Proof.
  intros Hfp Hyes Hno. unfold actor. ends_step. ends_step. ends_step.
  - apply negb_true_iff in Heqb. do 3 ends_step. by apply Hno.
  - apply negb_false_iff in Heqb. do 4 ends_step. rewrite Hfp. cbv zeta. do 3 ends_step. by apply Hyes.
Qed.

(** Every bit of every role was in that role before, or is one of the actor's own. *)
Definition nothing_minted s (base : Permissions) (roles : list Role) : Prop :=
  forall r' i, r' ∈ roles -> 0 <= i -> Z.testbit (role_perms r') i = true ->
    (exists r, r ∈ ps_roles (perms s) /\ role_id r = role_id r' /\ Z.testbit (role_perms r) i = true) \/
    Z.testbit base i = true.

Lemma nothing_minted_refl s base : nothing_minted s base (ps_roles (perms s)).
Proof. intros r i Hr _ Hb. left. eauto. Qed.

Lemma nothing_minted_perm s base l l' : l ≡ₚ l' -> nothing_minted s base l -> nothing_minted s base l'.
Proof. intros E H r i Hr. apply H. by rewrite E. Qed.

Lemma intersect_all_nonneg bits : 0 <= intersect bits ALL.
Proof. unfold intersect. apply Z.land_nonneg. right. by vm_compute. Qed.

Lemma intersect_all_low bits i : 0 <= i -> Z.testbit (intersect bits ALL) i = true -> i < 64.
Proof.
  unfold intersect. intros Hi H. rewrite Z.land_spec in H. apply andb_true_iff in H as [_ H].
  destruct (Z.lt_ge_cases i 64); [done|]. exfalso.
  rewrite Z.bits_above_log2 in H; [done | by vm_compute |].
  assert (E : Z.log2 ALL = 23) by (vm_compute; reflexivity). lia.
Qed.

(** A bit of the new mask is an old one or one that was added. *)
Lemma added_bits new old i :
  0 <= i -> Z.testbit (intersect new ALL) i = true ->
  Z.testbit old i = true \/ Z.testbit (without (intersect new ALL) old) i = true.
Proof.
  intros Hi H. pose proof (intersect_all_low new i Hi H) as Hlt.
  destruct (Z.testbit old i) eqn:E; [by left | right].
  unfold without, not64. rewrite Z.land_spec, H, Z.lxor_spec, E, Z.ones_spec_low by lia. done.
Qed.

Lemma may_grant_bits a bits i :
  a_owner a = false -> contains (a_base a) ADMINISTRATOR = false -> 0 <= bits ->
  may_grant a bits = true -> 0 <= i -> Z.testbit bits i = true -> Z.testbit (a_base a) i = true.
Proof.
  unfold may_grant. intros -> -> Hb H Hi Hbit. simpl in H. by apply (proj1 (contains_bits _ _ Hb) H).
Qed.

Lemma elem_of_reposition positions roles r :
  r ∈ reposition positions roles -> exists q, q ∈ roles /\ role_id r = role_id q /\ role_perms r = role_perms q.
Proof.
  intros Hr. apply list_elem_of_fmap in Hr as (q & -> & Hq). exists q.
  by destruct (position_of positions (role_id q)).
Qed.

Lemma update_role_fields_bits_from existing a name color bits updated i :
  update_role_fields existing a name color bits = inr updated ->
  a_owner a = false -> contains (a_base a) ADMINISTRATOR = false -> 0 <= i ->
  Z.testbit (role_perms updated) i = true ->
  Z.testbit (role_perms existing) i = true \/ Z.testbit (a_base a) i = true.
Proof.
  intros Hu Ho Ha Hi Hb. unfold update_role_fields in Hu. destruct bits as [bits|].
  - assert (E : role_perms updated = intersect bits ALL /\
              may_grant a (without (intersect bits ALL) (role_perms existing)) = true).
    { case_match_all; simplify_eq/=; bool_props; done. }
    destruct E as [E Hg]. rewrite E in Hb. destruct (added_bits bits (role_perms existing) i Hi Hb) as [H | H]; [by left|].
    right. eapply (may_grant_bits a); [done | done | | exact Hg | done | exact H].
    unfold without. apply Z.land_nonneg. left. apply intersect_all_nonneg.
  - left. case_match_all; simplify_eq/=; done.
Qed.

(** The commands that write a role's permissions. *)
Definition writes_role (m : ClientControl) : Prop :=
  match m with CCreateRole _ _ _ | CUpdateRole _ _ _ _ _ => True | _ => False end.

(** C8: nobody mints permissions: whatever an actor who is neither the owner nor an
    administrator asks for, after a role is created or edited every bit of every role was a bit of
    that role before, or is one the actor holds itself. *)
Theorem no_permission_is_minted s client m fp :
  writes_role m -> fingerprint_of s client = Some fp -> is_owner s fp = false ->
  contains (a_base (actor_of s fp)) ADMINISTRATOR = false ->
  ends (fun _ s' => nothing_minted s (a_base (actor_of s fp)) (ps_roles (perms s'))) (handle_control client m) s.
Proof.
  intros Hm Hfp Hown Hadm. set (base := a_base (actor_of s fp)) in *.
  assert (Hsame : forall s', perms s' = perms s -> nothing_minted s base (ps_roles (perms s')))
    by (intros s' ->; apply nothing_minted_refl).
  assert (Hgrant : forall bits i, 0 <= bits -> negb (may_grant (actor_of s fp) bits) = false -> 0 <= i ->
            Z.testbit bits i = true -> Z.testbit base i = true).
  { intros bits i Hb Hg%negb_false_iff. by apply may_grant_bits. }
  destruct m; try done; cbn [handle_control]; unfold create_role, update_role;
    (eapply ends_actor; [exact Hfp | intros _ | intros _ d; apply ends_ret, Hsame; by autorewrite with untouched]);
    repeat ends_step; try (apply Hsame; by autorewrite with untouched); autorewrite with untouched; unfold perm_state in *.
  - eapply nothing_minted_perm; [symmetry; apply sort_by_key_perm|].
    intros r i [Hr | ->%list_elem_of_singleton]%elem_of_app Hi Hbit.
    + apply elem_of_reposition in Hr as (q & Hq & Hid & Hp). rewrite Hp in Hbit. left. eauto.
    + right. eapply Hgrant; [apply intersect_all_nonneg | eassumption | done | done].
  - intros r' i Hr Hi Hbit. apply elem_of_replace_role in Hr as [-> | Hr]; [|left; eauto].
    match goal with Hf : find_role _ _ = Some ?old, Hu : update_role_fields _ _ _ _ _ = inr _ |- _ =>
      apply find_role_some in Hf as [Hin _]; pose proof (update_role_fields_place _ _ _ _ _ _ Hu) as [Hid _];
      destruct (update_role_fields_bits_from _ _ _ _ _ _ i Hu Hown Hadm Hi Hbit) as [Hb | Hb]
    end; [left; eauto | by right].
Qed.

End Roles.

(** bob manages the roles of the sample server, and holds nothing else of note. *)
Definition managed : Shared Database :=
  (update_live_member_roles
     (swap_perm_state Sample.server
        (mkPerms (default_roles ++ [mkRole 3 (lit "manager") None 3 MANAGE_ROLES]) {[ Sample.bob := [3] ]}))
     Sample.bob [3]).2.

Lemma no_permission_is_minted_witness :
  can_globally managed 2 MANAGE_ROLES = true /\
  ends (fun _ s' => nothing_minted managed (a_base (actor_of managed Sample.bob)) (ps_roles (perms s')))
    (handle_control 2 (CCreateRole 7 (lit "deputy") MANAGE_ROLES)) managed.
Proof.
  split; [vm_compute; reflexivity|].
  apply (no_permission_is_minted managed 2 (CCreateRole 7 (lit "deputy") MANAGE_ROLES) Sample.bob).
  - exact I.
  - vm_compute. reflexivity.
  - vm_compute. reflexivity.
  - vm_compute. reflexivity.
Defined.

(** ** Deleting a role *)

Section Cascade.
Context {C : Crypto} {HO : HashOrder} {L : HashOrderLaws HO} {U : UnicodeTables} {DB : Type} {ST : StoreApi DB}.
Implicit Types s : Shared DB.

(** No channel overwrite names the role. *)
Definition overwrites_without (id : RoleId) (chans : gmap ChannelId Channel) : Prop :=
  forall i c o, chans !! i = Some c -> o ∈ ch_overwrites c -> ow_target o <> TRole id.

(** No connected member carries the role. *)
Definition live_without (id : RoleId) (m : gmap ClientId ConnectedClient) : Prop :=
  forall k e, m !! k = Some e -> id ∉ u_roles (cc_info e).

(** What the rest of [delete_role] keeps, once memory has been swept. *)
Definition swept (p : PermState) (id : RoleId) s : Prop :=
  perms s = p /\ keyed (the_clients s) /\ overwrites_without id (the_channels s) /\ live_without id (the_clients s).

Lemma swept_talks p id s s' : swept p id s -> talks s s' -> swept p id s'.
Proof.
  intros (Hp & Hk & Ho & Hl) Ht. pose proof (keyed_talks _ _ Hk Ht) as Hk'. destruct Ht as [Honly Hd].
  split_and!; [by rewrite (only_clients_perms _ _ Honly) | done | by rewrite (only_clients_channels _ _ Honly) |].
  intros k e' He'. destruct (Hd k e' He') as (e & new & He & Hx & _). rewrite (extended_info _ _ _ Hx). by apply (Hl k).
Qed.

Lemma strip_overwrites_without s id : overwrites_without id (the_channels (strip_role_overwrites s id).2).
Proof.
  intros i c o Hc Ho. unfold strip_role_overwrites in Hc. cbn [snd] in Hc.
  change (the_channels (set_channels ?m s)) with m in Hc. rewrite lookup_fmap in Hc.
  destruct (the_channels s !! i) as [c0|] eqn:Hc0; simpl in Hc; [injection Hc as <- | done].
  unfold names_role in *. destruct (any _ (ch_overwrites c0)) eqn:E.
  - apply elem_of_retain in Ho as [_ Ho]. by apply negb_true_iff, bool_decide_eq_false in Ho.
  - pose proof (proj1 (any_false _ _) E o Ho) as H. by apply bool_decide_eq_false in H.
Qed.

Lemma strip_live_without s id : live_without id (the_clients (strip_live_role s id).2).
Proof.
  intros k e He. unfold strip_live_role, modify_where in He. cbn [snd] in He.
  rewrite the_clients_set, lookup_fmap in He.
  destruct (the_clients s !! k) as [e0|]; simpl in He; [injection He as <- | done].
  case_bool_decide as Hin; [|done]. simpl. intros [_ Hr]%elem_of_retain. by rewrite Z.eqb_refl in Hr.
Qed.

Lemma strip_live_keyed s id : keyed (the_clients s) -> keyed (the_clients (strip_live_role s id).2).
Proof.
  intros Hk k e He. unfold strip_live_role, modify_where in He. cbn [snd] in He.
  rewrite the_clients_set, lookup_fmap in He.
  destruct (the_clients s !! k) as [e0|] eqn:He0; simpl in He; [injection He as <- | done].
  pose proof (Hk _ _ He0). by case_bool_decide.
Qed.

Lemma store_step_value {A} (err : A) f s d : store s = Some d -> (store_step err f s).1 = (f d).1.
Proof. intros H. unfold store_step. rewrite H. by destruct (f d). Qed.

(** What follows the sweep only talks. *)
Lemma ends_sweep_tail p id client nonce ordering holders before touched s :
  swept p id s ->
  ends (fun _ => swept p id)
    (announce (SRoleDeleted id);;
     announce (SRolesReordered ordering);;
     for_each holders (fun info => announce (SUserUpdated info));;
     update (fun s => resync_visibility s before touched);;
     ack client nonce)%prog s.
Proof.
  intros H.
  assert (Hb : forall s m, swept p id s -> swept p id (broadcast s m None)).
  { intros s0 m H0. eapply swept_talks; [exact H0 | apply broadcast_to_talks, H0]. }
  apply ends_update, ends_update. apply (ends_bind (fun _ => swept p id)).
  - apply ends_for_each; [|by apply Hb, Hb]. intros u s0 _ H0. apply ends_update_last. by apply Hb.
  - intros _ s0 H0. apply ends_update, ends_update_last.
    assert (H1 : swept p id (resync_visibility s0 before touched)).
    { eapply swept_talks; [exact H0 | apply resync_visibility_talks, H0]. }
    eapply swept_talks; [exact H1 | apply send_talks, H1].
Qed.

(** Deleting a role leaves no trace of it: when the command is allowed and the database
    takes it, the role is gone from the table, from every member's grants, from every channel's
    overwrites and from every connected member; and nothing else is lost, the other roles keeping
    their id, name, colour and permissions, the other grants their holders. *)
Theorem delete_role_leaves_no_trace s client nonce id fp d :
  keyed (the_clients s) ->
  fingerprint_of s client = Some fp -> can_globally s client MANAGE_ROLES = true ->
  id <> EVERYONE_ROLE_ID -> id ∈ role_ids (ps_roles (perms s)) ->
  can_manage_role (ps_roles (perms s)) (a_roles (actor_of s fp)) (a_owner (actor_of s fp)) id = true ->
  store s = Some d -> (db_delete_role id d).1 = true ->
  ends (fun _ s' =>
    (id ∉ role_ids (ps_roles (perms s'))) /\
    (forall f granted, ps_members (perms s') !! f = Some granted -> id ∉ granted) /\
    overwrites_without id (the_channels s') /\ live_without id (the_clients s') /\
    (forall r, r ∈ ps_roles (perms s) -> role_id r <> id -> exists p, set_position p r ∈ ps_roles (perms s')) /\
    (forall f granted i, ps_members (perms s) !! f = Some granted -> i ∈ granted -> i <> id ->
       exists granted', ps_members (perms s') !! f = Some granted' /\ i ∈ granted'))
    (handle_control client (CDeleteRole nonce id)) s.
Proof.
  intros Hk Hfp Hcan Hne Hin Hmanage Hstore Hdb. cbn [handle_control]. unfold delete_role.
  eapply (ends_weaken (fun _ => swept (perms_without_role (perms s) id) id)).
  - eapply ends_actor; [exact Hfp | intros _ |].
    2:{ intros Hc. congruence. }
    rewrite (proj2 (Z.eqb_neq _ _) Hne). apply ends_get. unfold perm_state.
    rewrite (proj2 (any_role_id _ _) Hin), Hmanage. cbn [negb]. apply ends_get. unfold has_store. rewrite Hstore.
    cbn [negb]. apply ends_get, ends_call. rewrite (store_step_value _ _ _ _ Hstore), Hdb. cbn [negb]. cbv zeta.
    apply ends_call, ends_update, ends_call, ends_call. eapply ends_sweep_tail. unfold swept.
    autorewrite with untouched. split_and!; [done | | apply strip_overwrites_without | apply strip_live_without].
    apply strip_live_keyed. intros k e. autorewrite with untouched. apply Hk.
  - intros _ s' (-> & _ & Ho & Hl). split_and!; [| | done | done | |].
    + intros (r & Hr & E)%elem_of_role_ids. apply elem_of_lookup_imap in Hr as (i & q & -> & Hq).
      apply list_elem_of_lookup_2 in Hq. rewrite sort_by_key_perm in Hq.
      apply elem_of_retain in Hq as [_ Hq]. apply negb_true_iff, Z.eqb_neq in Hq. done.
    + intros f granted Hg. simpl in Hg. rewrite lookup_fmap in Hg.
      destruct (ps_members (perms s) !! f) as [old|]; simpl in Hg; [injection Hg as <- | done].
      intros [_ H]%elem_of_retain. by rewrite Z.eqb_refl in H.
    + intros r Hr Hrid. simpl.
      assert (Hs : r ∈ sort_by_key role_position (retain (fun r => negb (role_id r =? id)) (ps_roles (perms s)))).
      { rewrite sort_by_key_perm. apply elem_of_retain. split; [done|]. by apply negb_true_iff, Z.eqb_neq. }
      apply list_elem_of_lookup in Hs as [i Hi]. exists (Z.of_nat i). eapply list_elem_of_lookup_2.
      rewrite list_lookup_imap, Hi. done.
    + intros f granted i Hg Hi Hid. simpl. rewrite lookup_fmap, Hg. simpl. eexists. split; [done|].
      apply elem_of_retain. split; [done|]. by apply negb_true_iff, Z.eqb_neq.
Qed.

End Cascade.

(** alice deletes the moderators' role, which carol holds and the staff room names. *)
Lemma delete_role_leaves_no_trace_witness :
  (exists s', run (handle_control 1 (CDeleteRole 7 1)) Sample.server = Some (tt, s')) /\
  ends (fun _ s' => 1 ∉ role_ids (ps_roles (perms s')))
    (handle_control 1 (CDeleteRole 7 1)) Sample.server.
Proof.
  assert (Hd : exists d, store Sample.server = Some d /\ (db_delete_role 1 d).1 = true)
    by (eexists; split; vm_compute; reflexivity).
  destruct Hd as (d & Hs & Hdb).
  pose proof (delete_role_leaves_no_trace Sample.server 1 7 1 Sample.alice d) as H.
  split.
  - eexists. vm_compute. reflexivity.
  - eapply ends_weaken; [apply H|].
    + apply inv_keyed, sample_inv.
    + vm_compute. reflexivity.
    + vm_compute. reflexivity.
    + discriminate.
    + vm_compute. by right; left.
    + vm_compute. reflexivity.
    + exact Hs.
    + exact Hdb.
    + intros ? ? Hx. exact (proj1 Hx).
Defined.

(** ** A lost update between two administrators

    The administration commands read the permission state, wait for the database, and then swap
    in a whole new state built from what they had read.  Nothing serialises two of them: this
    file runs the two programs under an explicit schedule. *)

(** alice makes carol a moderator while bob, who manages roles, renames that role: bob's command
    reads the state first and swaps last. *)
Definition grant : prog (Shared Database) unit := handle_control 1 (CSetMemberRoles 7 Sample.carol [1]).
Definition rename : prog (Shared Database) unit := handle_control 2 (CUpdateRole 8 1 (Some (lit "warden")) None None).

Definition finished {S} (p : prog S unit) : bool := match p with Ret _ => true | _ => false end.

(** When alice's command runs between bob's read and bob's swap, both commands are acknowledged,
    carol's grant is in the database and in what every client was told, and it is gone from the
    server's memory: carol's next login is without the role, until a restart reads the table. *)
Definition interleaved : list (prog (Shared Database) unit) * Shared Database :=
  schedule (fun _ => true) (repeat 1%nat 6 ++ repeat 0%nat 14 ++ repeat 1%nat 6) ([grant; rename], managed).

Definition lost (c : list (prog (Shared Database) unit) * Shared Database) : bool :=
  forallb finished c.1 && bool_decide (ps_members (perms c.2) !! Sample.carol = None) &&
  bool_decide (u_roles <$> user c.2 3 = Some [1]) &&
  bool_decide ((gr_role_id <$> (default [] (t_members ∘ tables <$> store c.2))) = [1]).

Lemma concurrent_edits_lose_a_grant :
  exists threads s,
    rtc (pstep (fun _ => False)) ([grant; rename], managed) (threads, s) /\
    forallb finished threads = true /\
    ps_members (perms s) !! Sample.carol = None /\
    u_roles <$> user s 3 = Some [1] /\
    (gr_role_id <$> (default [] (t_members ∘ tables <$> store s))) = [1].
Proof.
  assert (H : lost interleaved = true) by (vm_compute; reflexivity).
  assert (Hsteps : rtc (pstep (fun _ => False)) ([grant; rename], managed) interleaved)
    by (unfold interleaved; exact (schedule_run _ _ _ _)).
  revert H Hsteps. generalize interleaved. intros [threads s] H Hsteps. exists threads, s. split; [exact Hsteps|].
  unfold lost in H. cbn [fst snd] in H.
  apply andb_prop in H as [H H4]. apply andb_prop in H as [H H3]. apply andb_prop in H as [H1 H2].
  apply bool_decide_eq_true in H2, H3, H4. by split_and!.
Qed.
