(* ===== verification/Durability.v ===== *)
(** * Memory never runs ahead of the database

    Every administrative change is written to the database before memory: while the
    database refuses writes, no command of any session changes a role, a grant or a
    channel, whatever the interleaving. *)

From S2P Require Export Interleaving.

Create HintDb down.

Section Durability.
Context {C : Crypto} {HO : HashOrder} {L : HashOrderLaws HO} {U : UnicodeTables}.
Context {DB : Type} {ST : StoreApi DB}.
Implicit Types s : Shared DB.

(** [D] is a set of database states in which every write fails, and which no call leaves. *)
Definition fails (D : DB -> Prop) (f : DB -> bool * DB) : Prop := forall d, D d -> (f d).1 = false /\ D (f d).2.
Definition stays {A} (D : DB -> Prop) (f : DB -> A * DB) : Prop := forall d, D d -> D (f d).2.

Record store_down (D : DB -> Prop) : Prop := {
  down_insert_message m : fails D (db_insert_message m);
  down_insert_role r : fails D (db_insert_role r);
  down_update_role r : fails D (db_update_role r);
  down_delete_role r : fails D (db_delete_role r);
  down_set_role_positions ps : fails D (db_set_role_positions ps);
  down_replace_member_roles fp rs : fails D (db_replace_member_roles fp rs);
  down_upsert_overwrite c o : fails D (db_upsert_overwrite c o);
  down_delete_overwrite c t : fails D (db_delete_overwrite c t);
  down_insert_channel c : fails D (db_insert_channel c);
  down_update_channel c : fails D (db_update_channel c);
  down_delete_channel c : fails D (db_delete_channel c);
  down_insert_ban b : fails D (db_insert_ban b);
  down_delete_ban fp : fails D (db_delete_ban fp);
  down_history c b l : stays D (db_history c b l);
  down_list_bans : stays D db_list_bans;
  down_active_ban fp t : stays D (db_active_ban fp t) }.

Context (D : DB -> Prop) (Hdown : store_down D) (p0 : PermState) (ch0 : gmap ChannelId Channel) (attached : bool).

(** The memory is as it was, and the store is down, or not there. *)
Record unchanged s : Prop := {
  un_perms : perms s = p0;
  un_channels : the_channels s = ch0;
  un_attached : has_store s = attached;
  un_store : forall d, store s = Some d -> D d }.

Lemma unchanged_only s s' : unchanged s -> only_clients s s' -> unchanged s'.
Proof.
  intros [Hp Hc Ha Hs] Ho. split.
  - by rewrite (only_clients_perms _ _ Ho).
  - by rewrite (only_clients_channels _ _ Ho).
  - unfold has_store in *. by rewrite (only_clients_store _ _ Ho).
  - by rewrite (only_clients_store _ _ Ho).
Qed.

Lemma un_send s c m : unchanged s -> unchanged (send s c m).
Proof. intros H. eapply unchanged_only; [exact H | apply send_only]. Qed.
Lemma un_broadcast s m e : unchanged s -> unchanged (broadcast s m e).
Proof. intros H. eapply unchanged_only; [exact H | apply broadcast_only]. Qed.
Lemma un_broadcast_filtered s m c e : unchanged s -> unchanged (broadcast_filtered s m c e).
Proof.
  intros H. unfold broadcast_filtered. destruct (the_channels s !! c); [|done].
  eapply unchanged_only; [exact H | apply broadcast_to_only].
Qed.
Lemma un_resync s b t : unchanged s -> unchanged (resync_visibility s b t).
Proof. intros H. eapply unchanged_only; [exact H | apply resync_visibility_only]. Qed.
Lemma un_set_clients s m : unchanged s -> unchanged (set_clients m s).
Proof. by intros [? ? ? ?]. Qed.
Lemma un_remove s c : unchanged s -> unchanged (State.remove s c).2.
Proof. apply un_set_clients. Qed.
Lemma un_eject s v r : unchanged s -> unchanged (eject s v r).2.
Proof. intros H. unfold eject. destruct (the_clients s !! v); [|done]. by apply un_broadcast, un_set_clients. Qed.
Lemma un_close s e c r : unchanged s -> unchanged (close_transport s e c r).
Proof. by intros [? ? ? ?]. Qed.
Lemma un_admit s i n q : unchanged s -> unchanged (admit_client s i n q).2.
Proof. intros [? ? ? ?]. unfold admit_client. by repeat case_match. Qed.
Lemma un_join s c ch : unchanged s -> unchanged (join_channel s c ch).2.
Proof. intros H. unfold join_channel. repeat case_match; try done. by apply un_set_clients. Qed.
Lemma un_leave s c : unchanged s -> unchanged (leave_channel s c).2.
Proof. intros H. unfold leave_channel. case_match; try done. by apply un_set_clients. Qed.
Lemma un_force_move s c to : unchanged s -> unchanged (force_move s c to).2.
Proof. intros H. unfold force_move. repeat case_match; try done; by apply un_set_clients. Qed.
Lemma un_modify_user f s c : unchanged s -> unchanged (modify_user f s c).2.
Proof. intros H. unfold modify_user. case_match; try done. by apply un_set_clients. Qed.
Lemma un_set_voice_state s c m d : unchanged s -> unchanged (set_voice_state s c m d).2.
Proof. apply un_modify_user. Qed.
Lemma un_set_server_muted s c m : unchanged s -> unchanged (set_server_muted s c m).2.
Proof. apply un_modify_user. Qed.
Lemma un_set_nickname s c n : unchanged s -> unchanged (set_nickname s c n).2.
Proof. intros H. unfold set_nickname. case_match; try done. by apply un_modify_user. Qed.
Lemma un_build_message s a c t r : unchanged s -> unchanged (build_message s a c t r).2.
Proof. by intros [? ? ? ?]. Qed.
Lemma un_relay s c p : unchanged s -> unchanged (relay_voice s c p).
Proof. intros H. unfold relay_voice. repeat case_match; try done. by apply un_set_clients. Qed.
Lemma un_take_frame s c : unchanged s -> unchanged (take_frame s c).2.
Proof. intros H. unfold take_frame. repeat case_match; try done. by apply un_set_clients. Qed.
Lemma un_drop_receiver s c : unchanged s -> unchanged (drop_receiver s c).
Proof. intros H. unfold drop_receiver. case_match; try done. by apply un_set_clients. Qed.
Lemma un_clock s t : unchanged s -> unchanged (set_clock t s).
Proof. by intros [? ? ? ?]. Qed.

Lemma un_store_step {A} (err : A) f s : stays D f -> unchanged s -> unchanged (store_step err f s).2.
Proof.
  intros Hf [Hp Hc Ha Hs]. unfold store_step. destruct (store s) as [d|] eqn:E.
  2:{ split; [done | done | done | cbn [snd]; congruence]. }
  pose proof (Hf d (Hs d eq_refl)) as Hd. destruct (f d) as [a d']. unfold has_store in Ha. rewrite E in Ha. simpl. split; [done | done | done|].
  by intros ? [= <-].
Qed.

(** A write through a store that is down, or not there, answers [false]. *)
Lemma safe_write {B} (Q : B -> Prop) f (k : bool -> prog (Shared DB) B) :
  fails D f -> safe (fun _ => True) unchanged Q (k false) ->
  safe (fun _ => True) unchanged Q (bind (store_exec f) k).
Proof.
  intros Hf Hk. apply safe_call. intros s _ Hs. split.
  - apply un_store_step; [|done]. intros d Hd. by apply Hf.
  - unfold store_step. destruct (store s) as [d|] eqn:E; [|exact Hk].
    pose proof (Hf d (un_store _ Hs d E)) as [H _]. destruct (f d) as [a d']. simpl in *. by subst a.
Qed.

Hint Resolve down_insert_message down_insert_role down_update_role down_delete_role down_set_role_positions
  down_replace_member_roles down_upsert_overwrite down_delete_overwrite down_insert_channel down_update_channel
  down_delete_channel down_insert_ban down_delete_ban down_history down_list_bans down_active_ban : down.
Hint Resolve un_send un_broadcast un_broadcast_filtered un_resync un_remove un_eject un_close un_admit un_join
  un_leave un_force_move un_set_voice_state un_set_server_muted un_set_nickname un_build_message un_relay
  un_take_frame un_drop_receiver un_clock un_store_step : down.

Abbreviation inert := (safe (fun _ => True) unchanged (fun _ => True)).

Ltac inert_handler :=
  repeat safe_step ltac:(auto with down) ltac:(apply safe_write; [auto with down | cbn [negb]]).

Lemma inert_eject victim reason : inert (eject_and_close victim reason).
Proof. unfold eject_and_close. inert_handler. Qed.
Lemma inert_authorize client nonce bit target : inert (authorize_against_online client nonce bit target).
Proof. unfold authorize_against_online. inert_handler. Qed.
Lemma inert_actor client nonce : inert (actor client nonce).
Proof. unfold actor. inert_handler. Qed.
Lemma inert_validate client nonce id name parent : inert (validate_channel client nonce id name parent).
Proof. unfold validate_channel. inert_handler. Qed.

Hint Resolve inert_eject inert_authorize inert_actor inert_validate : safe.

Lemma inert_moderation client m :
  match m with
  | CKick _ _ _ | CBan _ _ _ _ | CUnban _ _ | CListBans _ | CSetServerMute _ _ _ | CMoveMember _ _ _ => True
  | _ => False
  end -> inert (handle_control client m).
Proof.
  destruct m; try done; intros _; cbn [handle_control];
    unfold kick, ban, unban, list_bans, set_server_mute, move_member; inert_handler.
Qed.

Lemma inert_roles client m :
  match m with
  | CCreateRole _ _ _ | CUpdateRole _ _ _ _ _ | CDeleteRole _ _ | CReorderRoles _ _ | CSetMemberRoles _ _ _ => True
  | _ => False
  end -> inert (handle_control client m).
Proof.
  destruct m; try done; intros _; cbn [handle_control];
    unfold create_role, update_role, delete_role, reorder_roles, set_member_roles; inert_handler.
Qed.

Lemma inert_channels client m :
  match m with
  | CSetChannelOverwrite _ _ _ _ _ | CDeleteChannelOverwrite _ _ _ | CCreateChannel _ _ _ _ _ _ _
  | CUpdateChannel _ _ _ _ _ _ _ _ | CDeleteChannel _ _ => True
  | _ => False
  end -> inert (handle_control client m).
Proof.
  destruct m; try done; intros _; cbn [handle_control];
    unfold set_channel_overwrite_cmd, delete_channel_overwrite, create_channel, update_channel, delete_channel;
    inert_handler.
Qed.

Lemma inert_chat client m :
  match m with CSendMessage _ _ _ _ | CFetchHistory _ _ _ => True | _ => False end -> inert (handle_control client m).
Proof.
  destruct m; try done; intros _; cbn [handle_control]; unfold send_message, post_message, fetch_history;
    inert_handler.
Qed.

Lemma inert_handle_control client m : inert (handle_control client m).
Proof.
  destruct m;
    try (by apply inert_moderation); try (by apply inert_roles); try (by apply inert_channels);
    try (by apply inert_chat); cbn [handle_control]; unfold Session.join, typing; inert_handler.
Qed.

Lemma inert_server_thread p : server_thread p -> inert p.
Proof.
  intros [peer frames | client datagram | client | client | t]; unfold datagram_received; inert_handler.
  unfold serve. apply safe_assoc. apply (safe_bind _ _ (fun _ => True)).
  - unfold handshake, check_ban, refuse_peer, welcome. inert_handler.
  - intros out _. inert_handler. unfold control_loop. apply safe_then.
    + apply safe_for_each. intros [allowed m] _. inert_handler. apply inert_handle_control.
    + inert_handler.
Qed.

End Durability.

(** C10: memory never runs ahead of the database: while every write fails, whatever the sessions
    send and however their steps interleave, no role, grant, channel or overwrite changes in
    memory. *)
Theorem memory_never_runs_ahead {C : Crypto} {HO : HashOrder} {L : HashOrderLaws HO} {U : UnicodeTables}
    {DB : Type} {ST : StoreApi DB} (D : DB -> Prop) (s0 s : Shared DB) threads :
  store_down D -> (forall d, store s0 = Some d -> D d) ->
  rtc (pstep_within (fun _ => True) server_thread) ([], s0) (threads, s) ->
  perms s = perms s0 /\ the_channels s = the_channels s0.
Proof.
  intros Hdown Hs0 Hrun.
  destruct (psteps_safe (fun _ => True) (unchanged D (perms s0) (the_channels s0) (has_store s0)) server_thread _ _
              (inert_server_thread D Hdown _ _ _) Hrun) as [[Hp Hc _ _] _]; [|done].
  split; [by split | constructor].
Qed.

(** A database that is down for good. *)
Module Down.
#[local] Instance store : StoreApi unit := {|
  db_insert_message _ d := (false, d); db_history _ _ _ d := (None, d);
  db_insert_role _ d := (false, d); db_update_role _ d := (false, d); db_delete_role _ d := (false, d);
  db_set_role_positions _ d := (false, d); db_replace_member_roles _ _ d := (false, d);
  db_upsert_overwrite _ _ d := (false, d); db_delete_overwrite _ _ d := (false, d);
  db_insert_channel _ d := (false, d); db_update_channel _ d := (false, d); db_delete_channel _ d := (false, d);
  db_insert_ban _ d := (false, d); db_delete_ban _ d := (false, d);
  db_list_bans d := (None, d); db_active_ban _ _ d := (None, d) |}.

Lemma store_is_down : store_down (ST := store) (fun _ => True).
Proof. by split. Qed.

Definition server : Shared unit :=
  attach_store (new_shared Sample.config (Sample.ident 0) (replicate 32 9) Sample.channels Sample.perms 1000) tt.

(** A session starts, and its first step is taken. *)
Lemma memory_never_runs_ahead_witness :
  perms (set_clock 2000 server) = perms server /\ the_channels (set_clock 2000 server) = the_channels server.
Proof.
  apply (memory_never_runs_ahead (ST := store) (fun _ => True) server (set_clock 2000 server) [Ret tt]).
  - exact store_is_down.
  - done.
  - eapply rtc_l; [split; [done|]; apply (pstep_spawn _ [] _ (update (set_clock 2000))); constructor|].
    eapply rtc_l; [split; [done|]; by apply (pstep_act _ _ _ 0)|]. apply rtc_refl.
Defined.
End Down.
