(* ===== verification/Chat.v ===== *)
(** * Logging in and talking

    What the handshake lets through, what happens to a message on its way to the others,
    and that a ban keeps its holder out. *)

From S2P Require Export Samples.

(** ** Comparing without an early exit *)

Lemma lor_eq_0 a b : Z.lor a b = 0 <-> a = 0 /\ b = 0.
Proof. apply Z.lor_eq_0_iff. Qed.

Lemma diff_bytes_zero diff a b :
  length a = length b -> diff_bytes diff a b = 0 <-> diff = 0 /\ a = b.
Proof.
  revert diff b; induction a as [|x a IH]; intros diff [|y b] Hl; try done; simpl.
  - tauto.
  - rewrite IH by (simpl in Hl; lia). rewrite lor_eq_0, Z.lxor_eq_0_iff.
    split; [intros ((-> & ->) & ->); done | intros (-> & [= -> ->]); done].
Qed.

Lemma constant_time_eq_spec a b : constant_time_eq a b = true <-> a = b.
Proof.
  unfold constant_time_eq. destruct (Nat.eqb_spec (length a) (length b)) as [Hl|Hl]; simpl.
  - rewrite Z.eqb_eq, diff_bytes_zero by done. tauto.
  - split; [done | by intros ->].
Qed.

Section Login.
Context {C : Crypto} {DB : Type}.
Implicit Types s : Shared DB.

(** A login is accepted exactly when it speaks the protocol's version, brings the
    password's bytes if the server has one, and its signature covers this server's certificate
    and this connection's nonce; otherwise it is told the first of these it fails, a missing
    password being told apart from a wrong one. *)
Theorem verify_auth_spec s auth nonce :
  let version_ok := ca_protocol_version auth = PROTOCOL_VERSION in
  let password_ok := forall expected, cfg_password (config s) = Some expected ->
    exists supplied, ca_password auth = Some supplied /\ as_bytes supplied = as_bytes expected in
  let signature_ok := ed25519_verify (key (ca_identity auth)) (auth_challenge nonce (cert_hash s)) (ca_signature auth) = true in
  match session_verify_auth s auth nonce with
  | inr _ => version_ok /\ password_ok /\ signature_ok
  | inl (ProtocolMismatch v) => ~ version_ok /\ v = PROTOCOL_VERSION
  | inl PasswordRequired => version_ok /\ cfg_password (config s) <> None /\ ca_password auth = None
  | inl BadPassword => version_ok /\ ~ password_ok /\ ca_password auth <> None
  | inl AuthBadSignature => version_ok /\ password_ok /\ ~ signature_ok
  | inl _ => False
  end.
Proof.
  unfold session_verify_auth, verify_signature, verify_auth.
  destruct (Z.eqb_spec (ca_protocol_version auth) PROTOCOL_VERSION) as [Hv|Hv]; simpl; [|done].
  assert (Hsig : forall password_ok : Prop, password_ok ->
    match match (if ed25519_verify (key (ca_identity auth)) (auth_challenge nonce (cert_hash s)) (ca_signature auth)
                 then inr tt else inl BadSignature) with inl _ => inl AuthBadSignature | inr _ => inr tt end : AuthFailure + unit with
    | inr _ => ca_protocol_version auth = PROTOCOL_VERSION /\ password_ok /\
        ed25519_verify (key (ca_identity auth)) (auth_challenge nonce (cert_hash s)) (ca_signature auth) = true
    | inl AuthBadSignature => ca_protocol_version auth = PROTOCOL_VERSION /\ password_ok /\
        ed25519_verify (key (ca_identity auth)) (auth_challenge nonce (cert_hash s)) (ca_signature auth) <> true
    | _ => False
    end).
  { intros P HP. destruct (ed25519_verify _ _ _); split_and!; done. }
  destruct (cfg_password (config s)) as [expected|] eqn:Hp.
  - destruct (ca_password auth) as [supplied|] eqn:Hs; [|done].
    destruct (constant_time_eq (as_bytes expected) (as_bytes supplied)) eqn:Hc; simpl.
    + apply constant_time_eq_spec in Hc.
      specialize (Hsig (forall e, Some expected = Some e -> exists p, Some supplied = Some p /\ as_bytes p = as_bytes e)).
      destruct (ed25519_verify _ _ _); apply Hsig; intros e [= <-]; eauto.
    + split_and!; [done | | done]. intros H. destruct (H expected eq_refl) as (p & [= <-] & E).
      rewrite <- E in Hc. by rewrite (proj2 (constant_time_eq_spec _ _) eq_refl) in Hc.
  - specialize (Hsig (forall e, None = Some e -> exists p, ca_password auth = Some p /\ as_bytes p = as_bytes e)).
    destruct (ed25519_verify _ _ _); by apply Hsig.
Qed.

End Login.

(** ** The handshake *)

Section Handshake.
Context {C : Crypto} {HO : HashOrder} {L : HashOrderLaws HO} {U : UnicodeTables} {DB : Type} {ST : StoreApi DB}.
Implicit Types s : Shared DB.

(** The state the newcomer is welcomed in. *)
Definition admitted s (info : UserInfo) s1 : Prop :=
  config s1 = config s /\ perms s1 = perms s /\ the_channels s1 = the_channels s /\
  u_client_id info = next_client_id (inner s) /\
  the_clients s1 = <[u_client_id info := mkClient info new_queue []]> (the_clients s).

(** What a peer that got in was told, and what was told about it. *)
Definition let_in s (info : UserInfo) (ok : AuthOk) s' : Prop :=
  user s' (u_client_id info) = Some info /\ ok_client_id ok = u_client_id info /\
  (forall c, c ∈ ok_channels ok <-> (exists i, the_channels s !! i = Some c) /\ can_view_channel (perms s) info c = true) /\
  (forall u, u ∈ ok_users ok <-> u = info \/ exists id, user s id = Some u) /\
  ok_roles ok = ps_roles (perms s) /\
  forall id e, the_clients s !! id = Some e ->
    match the_clients s' !! id with
    | Some e' => exists notices, cc_info e' = cc_info e /\ Forall is_notice notices /\
        q_frames (cc_control e') = q_frames (cc_control e)
          ++ (if bool_decide (queue_open e) then [SUserJoined info] else []) ++ notices
    | None => queue_open e /\ queue_full e
    end.

Lemma admitted_keyed s info s1 : keyed (the_clients s) -> admitted s info s1 -> keyed (the_clients s1).
Proof.
  intros Hk (_ & _ & _ & _ & E) id e He. rewrite E in He. apply lookup_insert_Some in He as [[<- <-] | [_ He]]; [done | by apply Hk].
Qed.

Lemma elem_of_users s u : u ∈ users s <-> exists id, user s id = Some u.
Proof.
  unfold users, user. rewrite list_elem_of_fmap. split.
  - intros ([id e] & -> & H%elem_of_hash_iter). exists id. by rewrite H.
  - intros (id & H). destruct (the_clients s !! id) as [e|] eqn:E; [|done]. injection H as <-.
    exists (id, e). split; [done | by apply elem_of_hash_iter].
Qed.

Lemma welcome_lets_in s p info s1 :
  keyed (the_clients s) -> the_clients s !! next_client_id (inner s) = None -> admitted s info s1 ->
  ends (fun r s' => match r with
    | Started i ok => pr_reply_written p = true /\ i = info /\ let_in s info ok s'
    | Refused _ => False
    | Faulted => pr_reply_written p = false /\ the_clients s' = the_clients s
    end) (welcome p info) s1.
Proof.
  intros Hk Hfree Hadm. pose proof (admitted_keyed _ _ _ Hk Hadm) as Hk1.
  destruct Hadm as (Hcfg & Hperms & Hchans & Hid & Hcl). rewrite <- Hid in Hfree.
  unfold welcome. do 5 apply ends_get. cbv zeta. destruct (pr_reply_written p) eqn:Hp.
  - apply ends_update, ends_ret. split_and!; [done | done |].
    set (sel := fun (id : ClientId) (_ : ConnectedClient) => negb (bool_decide (Some id = Some (u_client_id info)))).
    assert (Hlook : forall k, _) by (intros k; exact (broadcast_to_lookup sel s1 (SUserJoined info) k Hk1)).
    change (broadcast_to sel s1 (SUserJoined info)) with (broadcast s1 (SUserJoined info) (Some (u_client_id info))) in Hlook.
    set (s2 := broadcast s1 _ _) in *. unfold let_in. cbn [ok_client_id ok_channels ok_users ok_roles]. split_and!; try done.
    + specialize (Hlook (u_client_id info)). rewrite Hcl, lookup_insert_eq in Hlook. unfold user.
      destruct (the_clients s2 !! u_client_id info) as [e'|].
      * destruct Hlook as (e & new & [= <-] & Hx & _). simpl. f_equal. exact (extended_info _ _ _ Hx).
      * destruct Hlook as [? | (e & _ & Hsel & _)]; [done|]. unfold sel in Hsel.
        by rewrite bool_decide_eq_true_2 in Hsel.
    + intros c. unfold visible_channels, perm_state. rewrite elem_of_retain, elem_of_btree_values, Hchans, Hperms. done.
    + intros u. rewrite elem_of_users. unfold user. rewrite Hcl. split.
      * intros (id & H). destruct (decide (id = u_client_id info)) as [-> | Hne].
        -- rewrite lookup_insert_eq in H. injection H as <-. by left.
        -- rewrite lookup_insert_ne in H by done. eauto.
      * intros [-> | (id & H)]; [exists (u_client_id info); by rewrite lookup_insert_eq|].
        exists id. rewrite lookup_insert_ne; [done|]. intros <-. by rewrite Hfree in H.
    + unfold roles_snapshot. by rewrite Hperms.
    + intros id e He. assert (Hne : id <> u_client_id info) by congruence.
      assert (Hsel : forall e, sel id e = true) by (intros; unfold sel; by rewrite bool_decide_eq_false_2 by congruence).
      specialize (Hlook id). rewrite Hcl, lookup_insert_ne, He in Hlook by done.
      destruct (the_clients s2 !! id) as [e'|].
      * destruct Hlook as (e0 & new & [= <-] & Hx & Hn & _). rewrite Hsel in Hx. simpl in Hx. exists new.
        split_and!; [by eapply extended_info | done | by rewrite (extended_frames _ _ _ Hx)].
      * destruct Hlook as [? | (e0 & [= <-] & _ & ? & ?)]; done.
  - apply ends_call, ends_ret. split; [done|]. unfold State.remove. cbn [snd]. rewrite the_clients_set, Hcl, delete_insert_id; done.
Qed.

(** A handshake lets a peer in only with a login that checks out (version, password,
    signature); it is then a member under the id it was told, was shown exactly the channels it
    may view and everyone who is connected, and everyone else was told it came.  Any other
    outcome, including a reply that cannot be written after admission, leaves the roster as it
    was. *)
Theorem handshake_spec s p :
  keyed (the_clients s) -> the_clients s !! next_client_id (inner s) = None ->
  ends (fun r s' => match r with
    | Started info ok => exists auth, pr_first p = Some (CAuth auth) /\
        session_verify_auth s auth (pr_nonce p) = inr tt /\ u_identity info = ca_identity auth /\
        pr_hello_written p = true /\ pr_reply_written p = true /\ let_in s info ok s'
    | Refused _ | Faulted => the_clients s' = the_clients s
    end) (handshake p) s.
Proof.
  intros Hk Hfree. unfold handshake. destruct (pr_hello_written p) eqn:Hh; cbn [negb]; [|by apply ends_ret].
  destruct (pr_first p) as [[]|] eqn:Hf; try by apply ends_ret.
  assert (Href : forall s' f, the_clients s' = the_clients s -> ends (fun r s' => match r with
    | Started info ok => exists auth, pr_first p = Some (CAuth auth) /\
        session_verify_auth s auth (pr_nonce p) = inr tt /\ u_identity info = ca_identity auth /\
        pr_hello_written p = true /\ pr_reply_written p = true /\ let_in s info ok s'
    | Refused _ | Faulted => the_clients s' = the_clients s end) (refuse_peer p f) s').
  { intros s' f E. unfold refuse_peer. apply ends_ret. by destruct (pr_reply_written p). }
  rewrite Hf, Hh in Href. apply ends_get.
  destruct (session_verify_auth s auth (pr_nonce p)) as [f | []] eqn:Hv; [by apply Href|].
  apply (ends_bind (fun _ s1 => exists o, s1 = set_store o s)).
  { unfold check_ban. apply ends_get. unfold has_store. destruct (store s) as [d|] eqn:Hs.
    - apply ends_get. unfold store_query. apply ends_call. unfold store_step. rewrite Hs.
      destruct (db_active_ban _ _ d) as [a d']. apply ends_ret. by exists (Some d').
    - apply ends_ret. exists None. destruct s. simpl in *. by rewrite Hs. }
  intros [entry|] s1 [o ->]; [by apply Href|]. apply ends_call.
  unfold admit_client. cbv zeta.
  destruct (public_security_level _ <? _); [by apply Href|]. destruct (sanitize_nickname _ _) as [n|]; [|by apply Href].
  destruct (cfg_max_users _ <=? _); [by apply Href|]. cbn [fst snd].
  eapply ends_weaken; [eapply welcome_lets_in; [exact Hk | exact Hfree | by split_and!]|].
  intros [info ok | f |] s' H; [| done | exact (proj2 H)]. destruct H as (Hp & -> & Hin). exists auth. by split_and!.
Qed.

End Handshake.

(** ** Messages *)

Section Messages.
Context {C : Crypto} {HO : HashOrder} {L : HashOrderLaws HO} {U : UnicodeTables} {DB : Type} {ST : StoreApi DB}.
Implicit Types s : Shared DB.

(** What a message has to satisfy beyond its author being connected and its text not blank. *)
Definition postable s (client : ClientId) (chan : ChannelId) (content : rstring) : Prop :=
  str_len content <= max_message_len (limits s) /\
  (exists room, the_channels s !! chan = Some room /\ has_text (ch_kind room) = true) /\
  can s client chan VIEW_CHANNEL = true /\ can s client chan SEND_MESSAGES = true.

(** The message as the server makes it. *)
Definition posted s (author : UserInfo) (chan : ChannelId) (content : rstring) (reply_to : option MessageId) : ChatMessage :=
  mkMessage (next_message_id (inner s)) chan (Some (u_client_id author)) (user_fingerprint author)
    (u_nickname author) (clock s) None content reply_to [] [].

(** Everyone learns of it: the author with the nonce, then whoever may view the channel. *)
Definition publish s (client : ClientId) (m : ChatMessage) (nonce : Z) : Shared DB :=
  broadcast_filtered (send s client (SMessagePosted m (Some nonce))) (SMessagePosted m None) (m_channel m) (Some client).

(** A message is stored before anyone hears of it: from a connected author, a text that is
    not blank, short enough, in a channel with text that the author may view and write in, gets
    the next id, goes to the database, and only when that took it to the author (with its nonce)
    and to the channel's viewers; if the database fails the author alone is told; a text that
    breaks a rule costs at most one error to its author, and blank text costs nothing. *)
Theorem send_message_spec s client chan content reply_to nonce author :
  user s client = Some author ->
  let m := posted s author chan content reply_to in
  let s1 := (fresh_message_id s).2 in
  let outcome := run (send_message client chan content reply_to nonce) s in
  (trim content = [] -> outcome = Some (tt, s)) /\
  (trim content <> [] -> ~ postable s client chan content ->
     exists code detail, outcome = Some (tt, send s client (SError code detail))) /\
  (trim content <> [] -> postable s client chan content ->
     outcome = Some (tt, match store s with
       | None => publish s1 client m nonce
       | Some d =>
           let '(saved, d') := db_insert_message m d in
           let s2 := set_store (Some d') s1 in
           if saved then publish s2 client m nonce
           else send s2 client (SError Internal (lit "the server could not save that message, so it was not sent"))
       end)).
Proof.
  intros Hu m s1 outcome. unfold outcome, send_message. rewrite run_get, Hu. split_and!.
  - intros Ht. by rewrite Ht.
  - intros Ht Hno. apply is_empty_false in Ht. rewrite Ht, run_get. unfold postable in Hno.
    destruct (Z.ltb_spec (max_message_len (limits s)) (str_len content)); [do 2 eexists; reflexivity|].
    rewrite run_get. unfold channel. destruct (the_channels s !! chan) as [room|]; [|do 2 eexists; reflexivity].
    rewrite run_get. destruct (can s client chan VIEW_CHANNEL); simpl negb; cbv iota; [|do 2 eexists; reflexivity].
    destruct (has_text (ch_kind room)) eqn:Ht2; simpl negb; cbv iota; [|do 2 eexists; reflexivity].
    rewrite run_get. destruct (can s client chan SEND_MESSAGES); simpl negb; cbv iota; [|do 2 eexists; reflexivity].
    exfalso. apply Hno. split_and!; eauto.
  - intros Ht (Hlen & (room & Hr & Htext) & Hview & Hsend). apply is_empty_false in Ht. rewrite Ht, run_get.
    destruct (Z.ltb_spec (max_message_len (limits s)) (str_len content)); [lia|].
    rewrite run_get. unfold channel. rewrite Hr, run_get, Hview. simpl negb. cbv iota. rewrite Htext. simpl negb. cbv iota.
    rewrite run_get, Hsend. simpl negb. cbv iota.
    unfold post_message, build_message. rewrite run_call, run_get. cbn [fst snd fresh_message_id].
    fold (posted s author chan content reply_to). unfold has_store.
    change (store (set_inner _ s)) with (store s).
    destruct (store s) as [d|] eqn:Hd.
    + unfold store_exec. rewrite run_call. unfold store_step. cbn [store set_inner]. rewrite Hd.
      unfold m. destruct (db_insert_message _ d) as [[] d']; reflexivity.
    + reflexivity.
Qed.

End Messages.

(** alice writes into the notes. *)
Lemma send_message_spec_witness :
  exists author, user Sample.server 1 = Some author /\
  trim (lit "hello") <> [] /\ postable Sample.server 1 2 (lit "hello") /\
  exists s', run (send_message 1 2 (lit "hello") None 9) Sample.server = Some (tt, s').
Proof.
  assert (Ha : exists author, user Sample.server 1 = Some author) by (eexists; vm_compute; reflexivity).
  assert (Hr : exists room, the_channels Sample.server !! 2 = Some room /\ has_text (ch_kind room) = true)
    by (eexists; split; vm_compute; reflexivity).
  destruct Ha as [author Ha]. exists author. split; [exact Ha|].
  assert (Ht : trim (lit "hello") <> []) by (vm_compute; discriminate).
  assert (Hp : postable Sample.server 1 2 (lit "hello")).
  { split_and!; [| exact Hr | |]; vm_compute; [discriminate | reflexivity | reflexivity]. }
  split; [exact Ht|]. split; [exact Hp|].
  clear Hr. revert Ha Ht Hp. generalize Sample.server (lit "hello"). intros s text Ha Ht Hp.
  destruct (send_message_spec s 1 2 text None 9 author Ha) as (_ & _ & H).
  eexists. exact (H Ht Hp).
Defined.

(** dave knocks, with his key and a nonce. *)
Definition dave : Peer :=
  let nonce := replicate 32 5 in
  mkPeer nonce true
    (Some (CAuth (mkAuth PROTOCOL_VERSION (public (Sample.ident 4)) (lit "dave") None (lit "1.0")
       (sign_auth (Sample.ident 4) nonce (cert_hash Sample.server))))) true.

Lemma handshake_spec_witness :
  (exists info ok s', run (handshake dave) Sample.server = Some (Started info ok, s')) /\
  ends (fun r s' => match r with
    | Started info ok => user s' (u_client_id info) = Some info
    | Refused _ | Faulted => the_clients s' = the_clients Sample.server
    end) (handshake dave) Sample.server.
Proof.
  split; [do 3 eexists; vm_compute; reflexivity|].
  eapply ends_weaken; [apply (handshake_spec Sample.server dave)|].
  - apply inv_keyed, sample_inv.
  - vm_compute. reflexivity.
  - intros [info ok | f |] s' H; [| exact H | exact H]. destruct H as (auth & _ & _ & _ & _ & _ & H). exact (proj1 H).
Defined.
