(* ===== verification/Bans.v ===== *)
(** * Bans, end to end

    What a ban does to the sessions of its subject and to every later attempt to come back, whatever
    else the server's threads do in between, run against the SQL store of [SqlStore.v]. *)

From S2P Require Export Samples.
From S2P Require Import Durability.

(** ** Statements that leave the bans alone *)

Section Statements.
Context {C : Crypto} {O : SqlOrder}.

(** On a database without faults: none appear, and the table of bans stays. *)
Definition no_ban_touched {A} (q : Database -> A * Database) : Prop :=
  forall d, faults d = [] -> faults (q d).2 = [] /\ t_bans (tables (q d).2) = t_bans (tables d).

Lemma nbt_statement {A} (f : Tables -> option (A * Tables)) :
  (forall t a t', f t = Some (a, t') -> t_bans t' = t_bans t) -> no_ban_touched (statement f).
Proof.
  intros H d Hd. unfold statement. rewrite Hd. cbn. destruct (f (tables d)) as [[a t]|] eqn:E; [|done]. split; [done | by apply (H _ a)].
Qed.

Lemma nbt_ret {A} (a : A) : no_ban_touched (sql_ret a).
Proof. done. Qed.

Lemma nbt_decoded {A} (o : option A) : no_ban_touched (decoded o).
Proof. done. Qed.

Lemma nbt_bind {A B} (m : Sql A) (k : A -> Sql B) : no_ban_touched m -> (forall a, no_ban_touched (k a)) -> no_ban_touched (sql_bind m k).
Proof.
  intros Hm Hk d Hd. unfold sql_bind. destruct (Hm d Hd) as [H1 H2]. destruct (m d) as [[a|] d1]; [|done]. cbn in *.
  destruct (Hk a d1 H1) as [H3 H4]. split; [done | congruence].
Qed.

Lemma nbt_exec f : (forall t t', f t = Some t' -> t_bans t' = t_bans t) -> no_ban_touched (exec f).
Proof. intros H. apply nbt_statement. intros t a t' E. destruct (f t) as [x|] eqn:Ef; [|done]. injection E as _ <-. by apply H. Qed.

Lemma nbt_write f : (forall t, t_bans (f t) = t_bans t) -> no_ban_touched (write f).
Proof. intros H. apply nbt_exec. by intros t t' [= <-]. Qed.

Lemma nbt_query {A} (f : Tables -> A) : no_ban_touched (query f).
Proof. apply nbt_statement. by intros t a t' [= _ <-]. Qed.

Lemma nbt_transaction {A} (body : Sql A) : no_ban_touched body -> no_ban_touched (transaction body).
Proof.
  intros Hb d Hd. unfold transaction. set (q := sql_bind _ _). assert (Hq : no_ban_touched q).
  { apply nbt_bind; [apply nbt_query | intros _]. apply nbt_bind; [done | intros a]. apply nbt_bind; [apply nbt_query | intros _; apply nbt_ret]. }
  destruct (Hq d Hd) as [H1 H2]. by destruct (q d) as [[a|] d1].
Qed.

Lemma nbt_each {A} (l : list A) body : (forall x, no_ban_touched (body x)) -> no_ban_touched (sql_each l body).
Proof. intros H. induction l as [|x l IH]; [apply nbt_ret | by apply nbt_bind]. Qed.

Lemma nbt_succeeds q : no_ban_touched q -> no_ban_touched (succeeds q).
Proof. intros H d Hd. specialize (H d Hd). unfold succeeds. by destruct (q d) as [[[]|] d1]. Qed.

End Statements.

Create HintDb bans.
#[export] Hint Resolve nbt_ret nbt_decoded nbt_query : bans.

(** A statement of the store, taken apart. *)
Ltac leave_bans :=
  repeat match goal with
  | |- no_ban_touched (sql_bind _ _) => apply nbt_bind; [|intros ?]
  | |- no_ban_touched (transaction _) => apply nbt_transaction
  | |- no_ban_touched (sql_each _ _) => apply nbt_each; intros ?
  | |- no_ban_touched (succeeds _) => apply nbt_succeeds
  | |- no_ban_touched (write _) => apply nbt_write; intros ?
  | |- no_ban_touched (exec _) => apply nbt_exec; intros ? ? ?
  | |- no_ban_touched (match ?x with _ => _ end) => destruct x
  | |- no_ban_touched _ => solve [auto with bans]
  | |- t_bans (match ?x with _ => _ end) = _ => destruct x
  | H : _ <$> ?x = Some _ |- _ => destruct x; simplify_eq/=
  | |- t_bans _ = t_bans _ => reflexivity
  end.

Section Bans.
Context {C : Crypto} {CL : CryptoLaws C} {HO : HashOrder} {L : HashOrderLaws HO} {U : UnicodeTables} {O : SqlOrder} {OL : SqlOrderLaws O}.
Implicit Types s : Shared Database.

(** ** Ejecting everybody on a list *)

Lemma eject_talks s v reason : keyed (the_clients s) -> talks s (eject s v reason).2.
Proof.
  intros Hk. unfold eject. destruct (the_clients s !! v); [|apply talks_refl].
  assert (Ht : talks s (set_clients (delete v (the_clients s)) s)) by (split; [apply only_clients_set | apply delivers_delete]).
  eapply talks_trans; [exact Ht|]. apply broadcast_to_talks. by eapply keyed_talks.
Qed.

Lemma talks_gone s s' v : talks s s' -> the_clients s !! v = None -> the_clients s' !! v = None.
Proof.
  intros [_ Hd] Hv. destruct (the_clients s' !! v) as [e|] eqn:E; [|done].
  destruct (Hd v e E) as (e0 & _ & He0 & _). congruence.
Qed.

Lemma eject_gone s v reason : keyed (the_clients s) -> the_clients (eject s v reason).2 !! v = None.
Proof.
  intros Hk. unfold eject. destruct (the_clients s !! v) eqn:E; [|done].
  eapply talks_gone; [apply broadcast_to_talks|]; cbn [set_clients]; rewrite ?the_clients_set.
  - intros id e [_ He]%lookup_delete_Some. by apply Hk.
  - apply lookup_delete_eq.
Qed.

(** What ejecting leaves: nobody new, nothing said to the store. *)
Definition thinned s s' : Prop :=
  store s' = store s /\ clock s' = clock s /\ keyed (the_clients s') /\
  delivers (fun _ _ => True) (the_clients s) (the_clients s').

Lemma thinned_talks s s' : keyed (the_clients s) -> talks s s' -> thinned s s'.
Proof.
  intros Hk Ht. pose proof (keyed_talks _ _ Hk Ht) as Hk'. destruct Ht as [Ho Hd].
  split_and!; [by apply only_clients_store | by rewrite Ho | done | done].
Qed.

Lemma thinned_trans s1 s2 s3 : thinned s1 s2 -> thinned s2 s3 -> thinned s1 s3.
Proof.
  intros (E1 & T1 & _ & D1) (E2 & T2 & K2 & D2). split_and!; [congruence | congruence | done | by eapply delivers_trans].
Qed.

Lemma thinned_gone s s' v : thinned s s' -> the_clients s !! v = None -> the_clients s' !! v = None.
Proof.
  intros (_ & _ & _ & Hd) Hv. destruct (the_clients s' !! v) as [e|] eqn:E; [|done].
  destruct (Hd v e E) as (e0 & _ & He0 & _). congruence.
Qed.

Lemma eject_and_close_thins v reason s :
  keyed (the_clients s) ->
  ends (fun _ s' => thinned s s' /\ the_clients s' !! v = None) (eject_and_close v reason) s.
Proof.
  intros Hk. unfold eject_and_close. apply ends_call.
  pose proof (eject_talks s v reason Hk) as Ht. pose proof (eject_gone s v reason Hk) as Hg.
  destruct (eject s v reason) as [[entry|] s1]; cbn [fst snd] in *.
  - destruct (match reason with Banned => _ | _ => _ end) as [code text]. apply ends_update_last.
    split; [by apply (thinned_talks s s1) | done].
  - apply ends_ret. split; [by apply thinned_talks | done].
Qed.

Lemma eject_all victims reason s :
  keyed (the_clients s) ->
  ends (fun _ s' => thinned s s' /\ forall v, v ∈ victims -> the_clients s' !! v = None)
    (for_each victims (fun v => eject_and_close v reason)) s.
Proof.
  revert s; induction victims as [|v victims IH]; intros s Hk; cbn [for_each].
  - apply ends_ret. split; [|by intros v ?%not_elem_of_nil]. split_and!; auto with pickle.
  - eapply ends_bind; [apply eject_and_close_thins, Hk|]. intros _ s1 [H1 Hg].
    eapply ends_weaken; [apply IH; apply H1|]. intros _ s2 [H2 Hall].
    split; [by eapply thinned_trans|]. intros w [-> | Hw]%elem_of_cons; [by eapply thinned_gone | auto].
Qed.


(** ** The ban on file *)

(** The rows of this key are the ban's row, and it is there. *)
Record on_file (b : BanEntry) (d : Database) : Prop := {
  of_faults : faults d = [];
  of_row : ban_row b ∈ t_bans (tables d);
  of_only r : r ∈ t_bans (tables d) -> br_fingerprint r = fp_to_string (ban_fingerprint b) -> r = ban_row b }.

Lemma on_file_upserted b rows d : faults d = [] -> t_bans (tables d) = upsert_row br_fingerprint (ban_row b) rows -> on_file b d.
Proof.
  intros Hf Hr. split; [done | |]; rewrite Hr; unfold upsert_row; destruct (any _ rows) eqn:E.
  - apply any_true in E as (r & Hin & Hk%bool_decide_eq_true). apply list_elem_of_fmap.
    exists r. split; [by rewrite bool_decide_eq_true_2 | done].
  - apply elem_of_app. right. by apply list_elem_of_singleton.
  - intros r (r0 & -> & _)%list_elem_of_fmap. case_bool_decide as Hk; [done|]. intros Hk'. by destruct Hk.
  - intros r [Hin | ->%list_elem_of_singleton]%elem_of_app Hk; [|done]. exfalso.
    pose proof (proj1 (any_false _ _) E r Hin) as Hno. by apply bool_decide_eq_false in Hno.
Qed.

(** The lookup finds it for as long as it has not lapsed. *)
Lemma on_file_found b d now : ban_fits b -> on_file b d -> active_ban (ban_fingerprint b) now d = (Some (lapsing b now), d).
Proof.
  intros Hfits [Hf Hin Honly]. destruct d as [t fs]. simpl in *. subst fs.
  unfold active_ban, sql_bind, query, statement. cbn [faults head tail default tables].
  assert (E : find (fun r => bool_decide (br_fingerprint r = fp_to_string (ban_fingerprint b))) (scan (t_bans t)) = Some (ban_row b)).
  { destruct (find _ _) as [r|] eqn:E.
    - apply find_some in E as [Hr Hk%bool_decide_eq_true]. rewrite (scan_perm _ (t_bans t)) in Hr. f_equal. by apply Honly.
    - assert (Hs : ban_row b ∈ scan (t_bans t)) by by rewrite (scan_perm _ (t_bans t)).
      pose proof (proj1 (find_none _ _) E _ Hs) as Hno. by apply bool_decide_eq_false in Hno. }
  rewrite E. unfold decoded. rewrite ban_roundtrip by done. unfold lapsing.
  by destruct (ban_until b) as [u|]; [destruct (u <=? now)|].
Qed.

Lemma stays_untouched {A} b (q : Database -> A * Database) : no_ban_touched q -> stays (on_file b) q.
Proof.
  intros H d [Hf Hr Ho]. destruct (H d Hf) as [H1 H2]. split; [done | by rewrite H2 |]. intros r. rewrite H2. apply Ho.
Qed.

(** Another ban, or the lifting of another, leaves it there. *)
Lemma stays_other_ban b b' : fp_to_string (ban_fingerprint b') <> fp_to_string (ban_fingerprint b) -> stays (on_file b) (db_insert_ban b').
Proof.
  intros Hne d [Hf Hr Ho]. cbn. unfold succeeds, insert_ban, write, exec, statement. rewrite Hf. cbn.
  assert (Hin : forall r, r ∈ upsert_row br_fingerprint (ban_row b') (t_bans (tables d)) -> r = ban_row b' \/ r ∈ t_bans (tables d)).
  { intros r. unfold upsert_row. destruct (any _ _).
    - intros (r0 & -> & Hr0)%list_elem_of_fmap. case_bool_decide; auto.
    - intros [Hr0 | ->%list_elem_of_singleton]%elem_of_app; auto. }
  split; cbn; [done | |].
  - unfold upsert_row. destruct (any _ _); [|apply elem_of_app; by left]. apply list_elem_of_fmap. exists (ban_row b).
    split; [|done]. rewrite bool_decide_eq_false_2; [done|]. cbn. congruence.
  - intros r [-> | Hr0]%Hin Hk; [by destruct Hne | by apply Ho].
Qed.

Lemma stays_other_unban b fp : fp_to_string fp <> fp_to_string (ban_fingerprint b) -> stays (on_file b) (db_delete_ban fp).
Proof.
  intros Hne d [Hf Hr Ho]. cbn. unfold succeeds, delete_ban, write, exec, statement. rewrite Hf. cbn. split; cbn; [done | |].
  - apply elem_of_retain. split; [done|]. apply negb_true_iff, bool_decide_eq_false. cbn. congruence.
  - intros r [Hr0 _]%elem_of_retain. by apply Ho.
Qed.

(** ** Nobody new *)

(** A step on the roster after which everybody there was there before, under the same key. *)
Definition nobody_new s s' : Prop :=
  store s' = store s /\ keyed (the_clients s') /\
  forall id e', the_clients s' !! id = Some e' ->
    exists e, the_clients s !! id = Some e /\ user_fingerprint (cc_info e') = user_fingerprint (cc_info e).

(** An outcast: the ban is on file and nobody of that fingerprint is on the server. *)
Record outcast (b : BanEntry) s : Prop := {
  oc_keyed : keyed (the_clients s);
  oc_file : exists d, store s = Some d /\ on_file b d;
  oc_gone id e : the_clients s !! id = Some e -> user_fingerprint (cc_info e) <> ban_fingerprint b }.

Lemma outcast_step b s s' : outcast b s -> nobody_new s s' -> outcast b s'.
Proof.
  intros [Hk Hf Hg] (Hs & Hk' & Hc). split; [done | by rewrite Hs |].
  intros id e' He'. destruct (Hc id e' He') as (e & He & ->). by apply (Hg id).
Qed.

Lemma outcast_talks b s s' : talks s s' -> outcast b s -> outcast b s'.
Proof.
  intros Ht Ho. apply (outcast_step b s); [done|]. pose proof (keyed_talks _ _ (oc_keyed _ _ Ho) Ht) as Hk. destruct Ht as [H1 H2].
  split_and!; [by apply only_clients_store | done |]. intros id e' He'. destruct (H2 id e' He') as (e & new & He & Hx & _).
  exists e. by rewrite (extended_info _ _ _ Hx).
Qed.

(** A new roster whose records have the ids and fingerprints of old ones. *)
Lemma outcast_clients b s m :
  outcast b s ->
  (forall id e', m !! id = Some e' -> exists e, the_clients s !! id = Some e /\
     u_client_id (cc_info e') = u_client_id (cc_info e) /\ user_fingerprint (cc_info e') = user_fingerprint (cc_info e)) ->
  outcast b (set_clients m s).
Proof.
  intros Ho H. apply (outcast_step b s); [done|]. split_and!; [done | |]; rewrite the_clients_set; intros id e' He';
    destruct (H id e' He') as (e & He & Hid & Hfp); [|by exists e]. rewrite Hid. by apply (oc_keyed _ _ Ho).
Qed.

Lemma outcast_one b s id e e' :
  outcast b s -> the_clients s !! id = Some e -> u_client_id (cc_info e') = u_client_id (cc_info e) ->
  user_fingerprint (cc_info e') = user_fingerprint (cc_info e) -> outcast b (set_clients (<[id := e']> (the_clients s)) s).
Proof.
  intros Ho He Hid Hfp. apply outcast_clients; [done|]. intros k x [[<- <-] | [_ Hx]]%lookup_insert_Some; [by exists e | by exists x].
Qed.

(** What the roster does not know of. *)
Lemma outcast_same b s s' : the_clients s' = the_clients s -> store s' = store s -> outcast b s -> outcast b s'.
Proof. intros Hc Hs [Hk Hf Hg]. split; rewrite ?Hc, ?Hs; done. Qed.

(** ** Every step of the server's state *)

Lemma oc_send b s c m : outcast b s -> outcast b (send s c m).
Proof. intros H. eapply outcast_talks; [apply send_talks, H | done]. Qed.
Lemma oc_broadcast b s m e : outcast b s -> outcast b (broadcast s m e).
Proof. intros H. eapply outcast_talks; [apply broadcast_to_talks, H | done]. Qed.
Lemma oc_broadcast_filtered b s m c e : outcast b s -> outcast b (broadcast_filtered s m c e).
Proof. intros H. eapply outcast_talks; [apply broadcast_filtered_talks, H | done]. Qed.
Lemma oc_resync b s before t : outcast b s -> outcast b (resync_visibility s before t).
Proof. intros H. eapply outcast_talks; [apply resync_visibility_talks, H | done]. Qed.
Lemma oc_eject b s v r : outcast b s -> outcast b (eject s v r).2.
Proof. intros H. eapply outcast_talks; [apply eject_talks, H | done]. Qed.
Lemma oc_remove b s c : outcast b s -> outcast b (State.remove s c).2.
Proof. intros H. apply outcast_clients; [done|]. intros k x [_ Hx]%lookup_delete_Some. by exists x. Qed.
Lemma oc_close b s e c r : outcast b s -> outcast b (close_transport s e c r).
Proof. by apply outcast_same. Qed.

(** Only a login under the fingerprint itself could bring it back. *)
Lemma oc_admit b s i n q : fingerprint i <> ban_fingerprint b -> outcast b s -> outcast b (admit_client s i n q).2.
Proof.
  intros Hne Ho. unfold admit_client. repeat (case_match; try done). cbn. destruct Ho as [Hk Hf Hg]. split; cbn; [| done |].
  - by intros id e [[<- <-] | [_ He]]%lookup_insert_Some; [|apply Hk].
  - by intros id e [[<- <-] | [_ He]]%lookup_insert_Some; [|apply (Hg id)].
Qed.

Lemma oc_update_client b f s c e :
  (forall u, u_client_id (f u) = u_client_id u /\ user_fingerprint (f u) = user_fingerprint u) ->
  the_clients s !! c = Some e -> outcast b s -> outcast b (update_client f s c e).
Proof. intros Hf He Ho. destruct (Hf (cc_info e)). by apply (outcast_one b s c e). Qed.

Lemma oc_modify_user b f s c :
  (forall u, u_client_id (f u) = u_client_id u /\ user_fingerprint (f u) = user_fingerprint u) ->
  outcast b s -> outcast b (modify_user f s c).2.
Proof. intros Hf Ho. unfold modify_user. destruct (the_clients s !! c) eqn:E; [by apply oc_update_client | done]. Qed.

Lemma oc_modify_where b p f s :
  (forall u, u_client_id (f u) = u_client_id u /\ user_fingerprint (f u) = user_fingerprint u) ->
  outcast b s -> outcast b (modify_where p f s).2.
Proof.
  intros Hf Ho. apply outcast_clients; [done|]. intros id e' He'. apply lookup_fmap_Some in He' as (e & <- & He). exists e.
  split; [done|]. by destruct (p (cc_info e)); [apply Hf|].
Qed.

Lemma oc_join b s c ch : outcast b s -> outcast b (join_channel s c ch).2.
Proof. intros Ho. unfold join_channel. repeat (case_match; try done). by apply oc_update_client. Qed.
Lemma oc_leave b s c : outcast b s -> outcast b (leave_channel s c).2.
Proof. intros Ho. unfold leave_channel. destruct (the_clients s !! c) eqn:E; [by apply oc_update_client | done]. Qed.
Lemma oc_force_move b s c to : outcast b s -> outcast b (force_move s c to).2.
Proof. intros Ho. unfold force_move. repeat (case_match; try done); by apply oc_update_client. Qed.
Lemma oc_set_voice_state b s c m d : outcast b s -> outcast b (set_voice_state s c m d).2.
Proof. by apply oc_modify_user. Qed.
Lemma oc_set_server_muted b s c m : outcast b s -> outcast b (set_server_muted s c m).2.
Proof. by apply oc_modify_user. Qed.
Lemma oc_set_nickname b s c n : outcast b s -> outcast b (set_nickname s c n).2.
Proof. unfold set_nickname. destruct (sanitize_nickname _ _); [by apply oc_modify_user | done]. Qed.
Lemma oc_build_message b s a c t r : outcast b s -> outcast b (build_message s a c t r).2.
Proof. by apply outcast_same. Qed.
Lemma oc_relay b s c p : outcast b s -> outcast b (relay_voice s c p).
Proof.
  intros Ho. unfold relay_voice. repeat (case_match; try done). apply outcast_clients; [done|]. intros id e' He'.
  rewrite map_lookup_imap in He'. destruct (the_clients s !! id) as [e|] eqn:E; [|done]. injection He' as <-. exists e.
  split; [done|]. by case_match.
Qed.
Lemma oc_take_frame b s c : outcast b s -> outcast b (take_frame s c).2.
Proof. intros Ho. unfold take_frame. repeat (case_match; try done). by eapply outcast_one. Qed.
Lemma oc_drop_receiver b s c : outcast b s -> outcast b (drop_receiver s c).
Proof. intros Ho. unfold drop_receiver. case_match; [by eapply outcast_one | done]. Qed.
Lemma oc_clock b s t : outcast b s -> outcast b (set_clock t s).
Proof. by apply outcast_same. Qed.
Lemma oc_swap_perms b s p : outcast b s -> outcast b (swap_perm_state s p).
Proof. by apply outcast_same. Qed.
Lemma oc_set_channels b s m : outcast b s -> outcast b (set_channels m s).
Proof. by apply outcast_same. Qed.
Lemma oc_update_roles b s fp roles : outcast b s -> outcast b (update_live_member_roles s fp roles).2.
Proof. by apply oc_modify_where. Qed.
Lemma oc_strip_role b s role : outcast b s -> outcast b (strip_live_role s role).2.
Proof. by apply oc_modify_where. Qed.
Lemma oc_set_overwrite b s c o : outcast b s -> outcast b (set_channel_overwrite s c o).2.
Proof. intros H. unfold set_channel_overwrite. case_match; [by apply oc_set_channels | done]. Qed.
Lemma oc_remove_overwrite b s c t : outcast b s -> outcast b (remove_channel_overwrite s c t).2.
Proof. intros H. unfold remove_channel_overwrite. case_match; [by apply oc_set_channels | done]. Qed.
Lemma oc_strip_overwrites b s role : outcast b s -> outcast b (strip_role_overwrites s role).2.
Proof. by apply oc_set_channels. Qed.
Lemma oc_insert_channel b s c : outcast b s -> outcast b (insert_channel_mem s c).
Proof. by apply oc_set_channels. Qed.
Lemma oc_update_channel b s c : outcast b s -> outcast b (update_channel_mem s c).2.
Proof. intros H. unfold update_channel_mem. case_match; [by apply oc_set_channels | done]. Qed.
Lemma oc_remove_channel b s c : outcast b s -> outcast b (remove_channel_mem s c).2.
Proof. intros H. unfold remove_channel_mem. case_match; [apply oc_modify_where; [done | by apply oc_set_channels] | done]. Qed.

Lemma oc_store_step {A} b (err : A) f s : stays (on_file b) f -> outcast b s -> outcast b (store_step err f s).2.
Proof.
  intros Hf [Hk (d & Hs & Hd) Hg]. unfold store_step. rewrite Hs. specialize (Hf d Hd). destruct (f d) as [a d']. split; cbn; [done | by exists d' | done].
Qed.

(** ** Every handler, whatever is under way *)

Lemma bans_left_alone {A} b (q : Database -> A * Database) (err : A) s :
  no_ban_touched q -> outcast b s -> outcast b (store_step err q s).2.
Proof. intros H. apply oc_store_step, stays_untouched, H. Qed.

Hint Resolve oc_send oc_broadcast oc_broadcast_filtered oc_resync oc_eject oc_remove oc_close oc_join oc_leave oc_force_move
  oc_set_voice_state oc_set_server_muted oc_set_nickname oc_build_message oc_relay oc_take_frame oc_drop_receiver oc_clock
  oc_swap_perms oc_update_roles oc_strip_role oc_set_overwrite oc_remove_overwrite oc_strip_overwrites oc_insert_channel
  oc_update_channel oc_remove_channel : bans.

(** The commands that neither lift nor replace the ban of [fp]. *)
Definition leaves_ban (fp : Fingerprint) (m : ClientControl) : Prop :=
  match m with
  | CBan _ fp' _ _ | CUnban _ fp' => fp_to_string fp' <> fp_to_string fp
  | _ => True
  end.

Ltac keeps_out := repeat keeps_step ltac:(first [by auto with bans | solve [apply bans_left_alone; [|assumption]; cbn; unfold insert_message, history, store_list_bans, insert_role,
      store_update_role, store_delete_role, set_role_positions, replace_member_roles, upsert_overwrite, delete_overwrite,
      insert_channel, store_update_channel, store_delete_channel, active_ban; leave_bans]
  | apply oc_store_step; [|assumption]; first [by apply stays_other_ban | by apply stays_other_unban]]).

Lemma handle_control_keeps b client m : leaves_ban (ban_fingerprint b) m -> keeps (outcast b) (handle_control client m).
Proof.
  intros Hm. destruct m; cbn [handle_control leaves_ban] in *;
    unfold kick, ban, unban, list_bans, set_server_mute, move_member, create_role, update_role, delete_role, reorder_roles,
      set_member_roles, set_channel_overwrite_cmd, delete_channel_overwrite, create_channel, update_channel, delete_channel,
      send_message, post_message, fetch_history, Session.join, typing, authorize_against_online, actor, validate_channel,
      eject_and_close, no_database, refuse, ack, announce, error_to, empty_page, store_exec, store_query; keeps_out.
Qed.

(** ** Threads *)

(** The rest of a connection, once its login has come to an end. *)
Definition served (frames : list (bool * ClientControl)) (outcome : HandshakeEnd) : prog (Shared Database) Z :=
  match outcome with
  | Started info _ =>
      let client_id := u_client_id info in
      control_loop client_id frames;;
      removed <- call (fun s => State.remove s client_id);;
      (match removed with
       | Some _ => update (fun s => broadcast s (SUserLeft client_id Quit) (Some client_id))
       | None => Ret tt
       end);;
      Ret CLOSE_OK
  | Refused _ => Ret CLOSE_AUTH_FAILED
  | Faulted => Ret CLOSE_PROTOCOL_ERROR
  end%prog.

Definition connection (p : Peer) (frames : list (bool * ClientControl)) : prog (Shared Database) unit :=
  bind (serve p frames) (fun _ => Ret tt).

(** A connection from the moment the server has let its client in. *)
Definition let_in (p : Peer) (info : UserInfo) (frames : list (bool * ClientControl)) : prog (Shared Database) unit :=
  bind (bind (welcome p info) (served frames)) (fun _ => Ret tt).

Definition patient (fp : Fingerprint) (frames : list (bool * ClientControl)) : Prop := Forall (fun e => leaves_ban fp e.2) frames.

(** A login under [fp]. *)
Definition logs_in_as (fp : Fingerprint) (p : Peer) : Prop :=
  exists auth, pr_first p = Some (CAuth auth) /\ fingerprint (ca_identity auth) = fp.

(** A thread that is not a login under [fp]: another's connection, anybody's once it was let in, the
    tasks beside the connections, the clock. *)
Inductive bystander (fp : Fingerprint) : prog (Shared Database) unit -> Prop :=
| by_other p frames : ~ logs_in_as fp p -> patient fp frames -> bystander fp (connection p frames)
| by_let_in p info frames : patient fp frames -> bystander fp (let_in p info frames)
| by_datagram c d : bystander fp (datagram_received c d)
| by_writer c : bystander fp (_frame <- call (fun s => take_frame s c);; Ret tt)%prog
| by_writer_gone c : bystander fp (update (fun s => drop_receiver s c))
| by_clock t : bystander fp (update (set_clock t)).

(** Any thread of the server that starts, logins under [fp] among them. *)
Inductive newcomer (fp : Fingerprint) : prog (Shared Database) unit -> Prop :=
| nc_connection p frames : patient fp frames -> newcomer fp (connection p frames)
| nc_bystander q : bystander fp q -> newcomer fp q.

(** What may be under way when the ban is taken: anything but a login under [fp] that was begun and
    is not through. *)
Definition under_way (fp : Fingerprint) (q : prog (Shared Database) unit) : Prop :=
  newcomer fp q \/ exists p, bystander fp p /\ rest_of p q.

Lemma control_loop_keeps b c frames : patient (ban_fingerprint b) frames -> keeps (outcast b) (control_loop c frames).
Proof.
  intros Hp. unfold control_loop. apply keeps_for_each. intros [allowed m] Hm. pose proof (proj1 (Forall_forall _ _) Hp _ Hm) as Hl.
  unfold error_to. destruct allowed; cbn [negb]; [by apply handle_control_keeps | keeps_out].
Qed.

Lemma served_keeps b frames outcome : patient (ban_fingerprint b) frames -> keeps (outcast b) (served frames outcome).
Proof. intros Hp. unfold served. destruct outcome; try done. apply keeps_bind; [by apply control_loop_keeps | intros []]. keeps_out. Qed.

Lemma welcome_keeps b p info : keeps (outcast b) (welcome p info).
Proof. unfold welcome. keeps_out. Qed.

(** Somebody else's login brings in somebody else. *)
Lemma handshake_keeps b p : ~ logs_in_as (ban_fingerprint b) p -> keeps (outcast b) (handshake p).
Proof.
  intros Hno. unfold handshake. destruct (negb (pr_hello_written p)); [done|]. destruct (pr_first p) as [m|] eqn:E; [|done].
  destruct m as [auth | | | | | | | | | | | | | | | | | | | | | | | | | | | ]; try done.
  assert (Hne : fingerprint (ca_identity auth) <> ban_fingerprint b) by (intros Hfp; apply Hno; by exists auth).
  unfold check_ban, refuse_peer, store_query. apply keeps_bind; [done|]. intros [failure | []]; [done|].
  apply keeps_bind; [keeps_out|]. intros [entry|]; [done|].
  apply keeps_bind; [apply keeps_call; intros s Hs; by apply oc_admit|]. intros [failure | info]; [done | apply welcome_keeps].
Qed.

Lemma bystander_keeps b q : bystander (ban_fingerprint b) q -> keeps (outcast b) q.
Proof.
  intros [p frames Hno Hp | p info frames Hp | c d | c | c | t]; unfold connection, let_in, datagram_received.
  - apply keeps_bind; [|done]. apply (keeps_bind _ (handshake p) (served frames)); [by apply handshake_keeps|].
    intros outcome. by apply served_keeps.
  - apply keeps_bind; [|done]. apply keeps_bind; [apply welcome_keeps | intros outcome; by apply served_keeps].
  - keeps_out.
  - keeps_out.
  - keeps_out.
  - keeps_out.
Qed.

(** ** Coming back *)

(** The ban runs. *)
Definition in_force (until : option Z) (s : Shared Database) : Prop := match until with Some t => clock s < t | None => True end.

(** How a login under the banned fingerprint ends. *)
Definition turned_away (b : BanEntry) (r : HandshakeEnd) : Prop :=
  match r with
  | Faulted => True
  | Refused (AuthBanned reason until) => reason = ban_reason b /\ until = ban_until b
  | Refused (ProtocolMismatch _ | PasswordRequired | BadPassword | AuthBadSignature) => True
  | _ => False
  end.

Lemma verify_refuses s auth nonce failure p b :
  session_verify_auth s auth nonce = inl failure -> turned_away b (if pr_reply_written p then Refused failure else Faulted).
Proof.
  unfold session_verify_auth, verify_signature. intros H. destruct (pr_reply_written p); [|done].
  repeat (case_match; simplify_eq; try done).
Qed.

(** Whatever runs in between, while the ban runs. *)
Lemma banned_login_safe b p :
  ban_fits b -> logs_in_as (ban_fingerprint b) p -> safe (in_force (ban_until b)) (outcast b) (turned_away b) (handshake p).
Proof.
  intros Hfits (auth & Hp & Hfp). unfold handshake. rewrite Hp. destruct (pr_hello_written p); [|done]. cbn [negb].
  apply safe_get. intros s _ _. destruct (session_verify_auth s auth (pr_nonce p)) as [failure | []] eqn:Ev.
  { unfold refuse_peer. simpl. by eapply verify_refuses. }
  unfold check_ban. apply safe_assoc, safe_get. intros s1 _ [_ (d1 & Hs1 & _) _]. unfold has_store. rewrite Hs1.
  apply safe_assoc, safe_get. intros s2 Hnow _. apply safe_assoc, safe_call. intros s3 _ Ho.
  split. { apply oc_store_step; [|done]. apply stays_untouched. cbn. unfold active_ban. leave_bans. }
  destruct Ho as [_ (d3 & Hs3 & Hd3) _]. unfold store_step. rewrite Hs3, Hfp. cbn [db_active_ban sql_store].
  rewrite (on_file_found b d3 _ Hfits Hd3).
  assert (El : lapsing b (now_unix_ms s2) = Some b).
  { unfold lapsing, in_force, now_unix_ms in *. destruct (ban_until b) as [t|]; [|done]. by rewrite (proj2 (Z.leb_gt _ _) Hnow). }
  rewrite El. cbn [fst default bind]. unfold refuse_peer. simpl. by destruct (pr_reply_written p).
Qed.

Lemma logs_in_dec fp p : logs_in_as fp p \/ ~ logs_in_as fp p.
Proof.
  unfold logs_in_as. destruct (pr_first p) as [m|]; [|right; by intros (auth & ? & _)].
  destruct (match m with CAuth auth => bool_decide (fingerprint (ca_identity auth) = fp) | _ => false end) eqn:E.
  - left. destruct m; try done. apply bool_decide_eq_true in E. by eexists.
  - right. intros (auth & [= ->] & Hfp). by apply bool_decide_eq_false in E.
Qed.

Lemma newcomer_safe b q :
  ban_fits b -> newcomer (ban_fingerprint b) q -> safe (in_force (ban_until b)) (outcast b) (fun _ => True) q.
Proof.
  intros Hfits [p frames Hp | q' Hq]; [|apply keeps_safe; [by apply bystander_keeps | done]]. unfold connection.
  destruct (logs_in_dec (ban_fingerprint b) p) as [Hlog | Hno].
  2: { apply keeps_safe; [by apply bystander_keeps, by_other | done]. }
  apply (safe_bind _ _ (fun _ => True)); [|done]. apply (safe_bind _ _ (turned_away b)); [by apply banned_login_safe|]. by intros [].
Qed.

(** The pool, from the ban on. *)
Lemma outcast_stays_out b l s l2 s2 :
  ban_fits b -> outcast b s -> Forall (under_way (ban_fingerprint b)) l ->
  rtc (pstep_within (in_force (ban_until b)) (newcomer (ban_fingerprint b))) (l, s) (l2, s2) -> outcast b s2.
Proof.
  intros Hfits Ho Hl Hrun.
  apply (psteps_safe (in_force (ban_until b)) (outcast b) (newcomer (ban_fingerprint b)) _ _ (fun q => newcomer_safe b q Hfits) Hrun).
  split; [done|]. cbn. eapply Forall_impl; [exact Hl|]. intros q [Hq | (p & Hp & Hr)]; [by apply newcomer_safe|].
  apply keeps_safe; [|done]. eapply keeps_rest; [by apply bystander_keeps | exact Hr].
Qed.

(** A login that runs alone while the ban is in force: refused with the ban's own words (or cut off,
    when not even that can be written), or refused for what else is wrong with it, and the server is
    as it was. *)
Lemma login_while_outcast b s p auth :
  ban_fits b -> outcast b s -> in_force (ban_until b) s -> pr_first p = Some (CAuth auth) -> fingerprint (ca_identity auth) = ban_fingerprint b ->
  ends (fun r s' => s' = s /\
    (r = Faulted \/ r = Refused (match session_verify_auth s auth (pr_nonce p) with
       | inl failure => failure | inr _ => AuthBanned (ban_reason b) (ban_until b) end)))
    (handshake p) s.
Proof.
  intros Hfits [_ (d & Hs & Hd) _] Hnow Hp Hfp. unfold handshake. rewrite Hp.
  destruct (pr_hello_written p); simpl negb; cbv iota; [|apply ends_ret; auto].
  apply ends_get. destruct (session_verify_auth s auth (pr_nonce p)) as [failure | []].
  - unfold refuse_peer. apply ends_ret. destruct (pr_reply_written p); auto.
  - unfold check_ban. apply ends_assoc, ends_get. unfold has_store. rewrite Hs.
    apply ends_assoc, ends_get. apply ends_assoc. unfold store_query. apply ends_call. unfold store_step. rewrite Hs.
    rewrite Hfp. cbn [db_active_ban sql_store]. unfold now_unix_ms. rewrite (on_file_found b) by done.
    assert (El : lapsing b (clock s) = Some b).
    { unfold lapsing, in_force in *. destruct (ban_until b) as [t|]; [|done]. by rewrite (proj2 (Z.leb_gt _ _) Hnow). }
    rewrite El. cbn [fst snd default bind]. assert (Hsame : set_store (Some d) s = s) by (destruct s; simpl in *; by rewrite <- Hs).
    rewrite Hsame. unfold refuse_peer. apply ends_ret. destruct (pr_reply_written p); auto.
Qed.

(** ** The ban itself *)

(** Taking it, alone: the ban is on file and nobody of its fingerprint is left. *)
Lemma ban_casts_out s client me nonce fp reason until d :
  let b := mkBan fp reason until me (clock s) in
  keyed (the_clients s) -> store s = Some d -> faults d = [] ->
  fingerprint_of s client = Some me -> me <> fp ->
  can_globally s client BAN_MEMBERS = true -> actor_outranks s client fp = true ->
  ends (fun _ s' => outcast b s' /\ delivers (fun _ _ => True) (the_clients s) (the_clients s'))
    (handle_control client (CBan nonce fp reason until)) s.
Proof.
  intros b Hk Hs Hf Hme Hne Hcan Hrank. cbn [handle_control]. unfold ban.
  apply ends_get. rewrite Hcan. cbn [negb]. apply ends_get. rewrite Hme.
  rewrite bool_decide_eq_false_2 by congruence. apply ends_get. rewrite Hrank. cbn [negb].
  apply ends_get. unfold has_store. rewrite Hs. cbn [negb]. do 2 apply ends_get.
  rewrite Hme. change (default fp (Some me)) with me. unfold now_unix_ms. fold b. cbv zeta. unfold store_exec. apply ends_call.
  set (d1 := mkDb (set_bans (upsert_row br_fingerprint (ban_row b) (t_bans (tables d))) (tables d)) []).
  assert (E : store_step false (db_insert_ban b) s = (true, set_store (Some d1) s)).
  { unfold store_step. rewrite Hs. cbn [db_insert_ban sql_store]. unfold succeeds, insert_ban, write, exec, statement.
    by rewrite Hf. }
  rewrite E. cbn [fst snd negb]. set (s1 := set_store (Some d1) s).
  apply ends_get. apply (ends_bind (fun _ s' => thinned s1 s' /\
    forall v, v ∈ u_client_id <$> retain (fun u => bool_decide (user_fingerprint u = fp)) (users s1) ->
      the_clients s' !! v = None)); [by apply eject_all|].
  intros _ s2 [H2 Hgone]. apply ends_update_last.
  assert (H3 : thinned s1 (send s2 client (SAck nonce))).
  { eapply thinned_trans; [exact H2|]. apply thinned_talks; [|apply send_talks]; apply H2. }
  assert (Hg3 : forall v, the_clients s2 !! v = None -> the_clients (send s2 client (SAck nonce)) !! v = None).
  { intros v. apply talks_gone, send_talks, H2. }
  set (s3 := send s2 client (SAck nonce)) in *. destruct H3 as (Hst & _ & Hk3 & Hd). split; [|exact Hd]. split.
  - exact Hk3.
  - exists d1. split; [by rewrite Hst|]. by apply (on_file_upserted b (t_bans (tables d))).
  - intros id e He Hx. destruct (Hd id e He) as (e0 & new & He0 & Hext & _).
    rewrite (extended_info _ _ _ Hext) in Hx.
    enough (the_clients s3 !! id = None) by congruence. apply Hg3, Hgone. apply list_elem_of_fmap.
    exists (cc_info e0). split; [by rewrite (Hk id e0 He0)|]. apply elem_of_retain. split; [|by apply bool_decide_eq_true].
    unfold users. apply list_elem_of_fmap. exists (id, e0). split; [done|]. by apply elem_of_hash_iter.
Qed.


End Bans.

Module Sample_ban.

Definition nonce : bytes := replicate 32 5.

(** carol's own key, presented properly. *)
Definition carol_auth : ClientAuth :=
  mkAuth PROTOCOL_VERSION (public (Sample.ident 3)) (lit "carol") None (lit "1.0") (sign_auth (Sample.ident 3) nonce (cert_hash Sample.server)).
Definition carol_peer : Peer := mkPeer nonce true (Some (CAuth carol_auth)) true.

Definition the_ban : ClientControl := CBan 7 Sample.carol (lit "spam") None.

(** What runs when carol is banned, and after: her old session, which still asks for a kick and for
    a channel; her next login; alice, who lifts another's ban. *)
Definition pool : list (prog (Shared Database) unit) :=
  [let_in carol_peer (mkUser 3 (public (Sample.ident 3)) (lit "carol") None VoiceState_default 0 [1] false)
     [(true, CKick 9 2 []); (true, CJoinChannel 1)];
   connection carol_peer [];
   let_in carol_peer (mkUser 1 (public (Sample.ident 1)) (lit "alice") None VoiceState_default 0 [] true) [(true, CUnban 8 Sample.bob)]].

Definition turns : list nat := concat (replicate 20 [0; 1; 2]%nat).
Definition later (s : Shared Database) : Shared Database := (schedule (fun _ => true) turns (pool, s)).2.

Definition names (s : Shared Database) : list rstring := omap (fun id => u_nickname <$> user s id) [1; 2; 3; 4].

(** How carol's login ends, and who is there. *)
Definition outcome (s : Shared Database) : option AuthFailure :=
  match run (handshake carol_peer) s with Some (Refused failure, _) => Some failure | _ => None end.

(** Before she is banned, carol's key does get her in. *)
Example carol_would_get_in :
  match run (handshake carol_peer) Sample.server with Some (Started info _, _) => u_client_id info | _ => 0 end = 4.
Proof. vm_compute. reflexivity. Qed.

Definition banned : Shared Database := match run (handle_control 1 the_ban) Sample.server with Some (_, s) => s | None => Sample.server end.

Example carol_is_banned :
  (names Sample.server, names banned, names (later banned), outcome (later banned))
  = ([lit "alice"; lit "bob"; lit "carol"], [lit "alice"; lit "bob"], [lit "bob"],
     Some (AuthBanned (lit "spam") None)).
Proof. vm_compute. reflexivity. Qed.

(** The ban list is asked and the client admitted in two steps: a login that was looked up just before
    the ban was stored gets in when everybody else has been thrown out, and stays. *)
Lemma a_login_slips_past_the_ban :
  let c := schedule (fun _ => true) (replicate 4 0%nat ++ replicate 40 1%nat ++ replicate 40 0%nat)
             ([bind (handshake carol_peer) (fun _ => Ret tt); handle_control 1 the_ban], Sample.server) in
  (u_nickname <$> user c.2 3, u_nickname <$> user c.2 4, outcome c.2) = (None, Some (lit "carol"), Some (AuthBanned (lit "spam") None)).
Proof. vm_compute. reflexivity. Qed.

End Sample_ban.
Import Sample_ban.

