(* ===== verification/Jitter.v ===== *)
(** * The jitter buffer ([crates/pickle-audio/src/jitter.rs])

    One speaker's backlog between the network and the sound card: packets filed under an
    extended sequence number that does not wrap, a cap on how many are held, and the slot
    that plays next.  Counters and extended numbers are [Z]: [extend_drifts] bounds how far
    the extended numbers can go, which keeps the source's [i64] exact for 2^32 packets. *)

From S2P Require Export Prelude.

Definition DEFAULT_TARGET_FRAMES : nat := 3.
Definition DEFAULT_MAX_FRAMES : nat := 16.

Inductive JitterOutput : Type :=
| Frame (payload : bytes)
| Lost.

Record JitterStats : Type := mkStats {
  received : Z; late : Z; lost : Z; underruns : Z; overflows : Z }.

Definition JitterStats_default : JitterStats := mkStats 0 0 0 0 0.

Record Anchor : Type := mkAnchor { an_seq : Z; an_extended : Z }.

Record JitterBuffer : Type := mkJitter {
  target_frames : nat;
  max_frames : nat;
  packets : gmap Z bytes;
  anchor : option Anchor;
  next_extended : option Z;
  playing : bool;
  jstats : JitterStats }.

Definition set_packets (x : gmap Z bytes) (j : JitterBuffer) : JitterBuffer :=
  mkJitter (target_frames j) (max_frames j) x (anchor j) (next_extended j) (playing j) (jstats j).
Definition set_anchor (x : option Anchor) (j : JitterBuffer) : JitterBuffer :=
  mkJitter (target_frames j) (max_frames j) (packets j) x (next_extended j) (playing j) (jstats j).
Definition set_next (x : option Z) (j : JitterBuffer) : JitterBuffer :=
  mkJitter (target_frames j) (max_frames j) (packets j) (anchor j) x (playing j) (jstats j).
Definition set_playing (x : bool) (j : JitterBuffer) : JitterBuffer :=
  mkJitter (target_frames j) (max_frames j) (packets j) (anchor j) (next_extended j) x (jstats j).
Definition set_stats (f : JitterStats -> JitterStats) (j : JitterBuffer) : JitterBuffer :=
  mkJitter (target_frames j) (max_frames j) (packets j) (anchor j) (next_extended j) (playing j) (f (jstats j)).

Definition count_received (s : JitterStats) := mkStats (received s + 1) (late s) (lost s) (underruns s) (overflows s).
Definition count_late (s : JitterStats) := mkStats (received s) (late s + 1) (lost s) (underruns s) (overflows s).
Definition count_lost (s : JitterStats) := mkStats (received s) (late s) (lost s + 1) (underruns s) (overflows s).
Definition count_underrun (s : JitterStats) := mkStats (received s) (late s) (lost s) (underruns s + 1) (overflows s).
Definition count_overflow (s : JitterStats) := mkStats (received s) (late s) (lost s) (underruns s) (overflows s + 1).

(** [JitterBuffer::new] *)
Definition new_jitter (target max : nat) : JitterBuffer :=
  let target := Nat.max target 1 in
  mkJitter target (Nat.max max target) ∅ None None false JitterStats_default.

Definition JitterBuffer_default : JitterBuffer := new_jitter DEFAULT_TARGET_FRAMES DEFAULT_MAX_FRAMES.

(** Where a wire number lands relative to the last one seen. *)
Definition extended_of (a : option Anchor) (seq : Z) : Z :=
  match a with
  | None => 0
  | Some a => an_extended a + as_signed 32 (seq - an_seq a)
  end.

Definition extend (j : JitterBuffer) (seq : Z) : Z * JitterBuffer :=
  let extended := extended_of (anchor j) seq in
  (extended, set_anchor (Some (mkAnchor seq extended)) j).

Definition buffered (j : JitterBuffer) : nat := size (packets j).
Definition is_playing (j : JitterBuffer) : bool := playing j.

Definition reset (j : JitterBuffer) : JitterBuffer :=
  mkJitter (target_frames j) (max_frames j) ∅ None None false (jstats j).

(** [packets.keys().next()] *)
Definition oldest_key (m : gmap Z bytes) : option Z := head (btree_iter m).*1.

(** The [while] loop of [push]: every turn removes one packet, so as many turns as there are
    packets are enough. *)
Fixpoint drop_oldest (fuel : nat) (j : JitterBuffer) : JitterBuffer :=
  match fuel with
  | O => j
  | S fuel =>
      if (max_frames j <? size (packets j))%nat then
        match oldest_key (packets j) with
        | None => j
        | Some oldest =>
            let j := set_stats count_overflow (set_packets (delete oldest (packets j)) j) in
            drop_oldest fuel
              (match next_extended j with
               | Some next => if next <=? oldest then set_next (Some (oldest + 1)) j else j
               | None => j
               end)
        end
      else j
  end.

Definition push (j : JitterBuffer) (seq : Z) (payload : bytes) : JitterBuffer :=
  let j := set_stats count_received j in
  let '(extended, j) := extend j seq in
  if match next_extended j with Some next => extended <? next | None => false end
  then set_stats count_late j
  else
    let j := set_packets (<[extended := payload]> (packets j)) j in
    drop_oldest (size (packets j)) j.

(** From [let next = self.next_extended?] on. *)
Definition play_next (j : JitterBuffer) : option JitterOutput * JitterBuffer :=
  match next_extended j with
  | None => (None, j)
  | Some next =>
      match packets j !! next with
      | Some payload => (Some (Frame payload), set_next (Some (next + 1)) (set_packets (delete next (packets j)) j))
      | None =>
          if (size (packets j) =? 0)%nat
          then (None, set_next None (set_playing false (set_stats count_underrun j)))
          else (Some Lost, set_next (Some (next + 1)) (set_stats count_lost j))
      end
  end.

Definition pop (j : JitterBuffer) : option JitterOutput * JitterBuffer :=
  if negb (playing j) then
    if (size (packets j) <? target_frames j)%nat then (None, j)
    else play_next (set_next (oldest_key (packets j)) (set_playing true j))
  else play_next j.

(** ** The oldest packet *)

Lemma oldest_key_spec m k :
  oldest_key m = Some k <-> is_Some (m !! k) /\ forall k', is_Some (m !! k') -> k <= k'.
Proof.
  assert (Hfwd : forall k, oldest_key m = Some k -> is_Some (m !! k) /\ forall k', is_Some (m !! k') -> k <= k').
  { clear k. intros k. unfold oldest_key. pose proof (btree_iter_sorted m) as Hs.
    pose proof (elem_of_btree_iter m) as He. destruct (btree_iter m) as [|[k0 v0] l]; [done|]. simpl. intros [= ->]. split.
    - exists v0. apply He. left.
    - intros k' [v' Hv']. apply He in Hv' as [[= -> ->] | Hin]%elem_of_cons; [lia|].
      apply StronglySorted_inv in Hs as [_ Hall]. rewrite Forall_forall in Hall. exact (Hall _ Hin). }
  split; [apply Hfwd|]. intros [Hk Hmin]. destruct (oldest_key m) as [k0|] eqn:E.
  - destruct (Hfwd k0 eq_refl) as [H0 Hmin0]. f_equal. specialize (Hmin k0 H0). specialize (Hmin0 k Hk). lia.
  - exfalso. destruct Hk as [v Hv]. apply elem_of_btree_iter in Hv. unfold oldest_key in E.
    destruct (btree_iter m); [by apply not_elem_of_nil in Hv | done].
Qed.

Lemma oldest_key_none m : oldest_key m = None <-> m = ∅.
Proof.
  split; [|intros ->; reflexivity]. intros E. apply map_eq. intros k. rewrite lookup_empty.
  destruct (m !! k) as [v|] eqn:Hv; [|done]. apply elem_of_btree_iter in Hv. unfold oldest_key in E.
  destruct (btree_iter m); [by apply not_elem_of_nil in Hv | done].
Qed.

(** ** Extended sequence numbers *)

Lemma as_signed_32 z : - 2 ^ 31 <= z < 2 ^ 31 -> as_signed 32 z = z.
Proof.
  intros Hz. unfold as_signed, wrap. change (2 ^ (32 - 1)) with (2 ^ 31).
  destruct (Z.ltb_spec (z mod 2 ^ 32) (2 ^ 31)); Z.div_mod_to_equations; lia.
Qed.

Lemma as_signed_32_range z : - 2 ^ 31 <= as_signed 32 z < 2 ^ 31.
Proof.
  unfold as_signed, wrap. change (2 ^ (32 - 1)) with (2 ^ 31).
  destruct (Z.ltb_spec (z mod 2 ^ 32) (2 ^ 31)); Z.div_mod_to_equations; lia.
Qed.

Lemma as_signed_32_mod z : as_signed 32 (wrap 32 z) = as_signed 32 z.
Proof. unfold as_signed, wrap. by rewrite Zmod_mod. Qed.

(** One packet moves the extended number by less than 2^31. *)
Lemma extend_drifts a seq : Z.abs (extended_of (Some a) seq - an_extended a) <= 2 ^ 31.
Proof. simpl. pose proof (as_signed_32_range (seq - an_seq a)). lia. Qed.

(** Numbering a run of wire numbers, as [extend] does. *)
Fixpoint extended_run (a : option Anchor) (seqs : list Z) : list Z :=
  match seqs with
  | [] => []
  | s :: rest => let e := extended_of a s in e :: extended_run (Some (mkAnchor s e)) rest
  end.

(** Neighbours in arrival order are less than half the sequence space apart. *)
Fixpoint near (i : Z) (l : list Z) : Prop :=
  match l with
  | [] => True
  | i' :: rest => - 2 ^ 31 <= i' - i < 2 ^ 31 /\ near i' rest
  end.

Definition numbered (s0 i : Z) : Z := wrap 32 (s0 + i).

Lemma extended_of_numbered s0 i e i' :
  - 2 ^ 31 <= i' - i < 2 ^ 31 -> extended_of (Some (mkAnchor (numbered s0 i) e)) (numbered s0 i') = e + (i' - i).
Proof.
  intros Hn. simpl. f_equal. transitivity (as_signed 32 (i' - i)); [|by apply as_signed_32].
  rewrite <- as_signed_32_mod, <- (as_signed_32_mod (i' - i)). f_equal. unfold numbered, wrap.
  rewrite <- Zminus_mod. f_equal. lia.
Qed.

Lemma extended_run_numbered s0 i e l :
  near i l -> extended_run (Some (mkAnchor (numbered s0 i) e)) (numbered s0 <$> l) = (fun i' => e + (i' - i)) <$> l.
Proof.
  revert i e; induction l as [|i' l IH]; intros i e Hn; [done|]. destruct Hn as [Hi Hn].
  rewrite fmap_cons. cbn [extended_run]. cbv zeta. rewrite extended_of_numbered by done.
  rewrite IH by done. simpl. f_equal. apply list_fmap_ext. intros _ x _. lia.
Qed.

(** ** The buffer's invariant *)

Record jitter_ok (j : JitterBuffer) : Prop := {
  jo_bounds : (1 <= target_frames j <= max_frames j)%nat;
  jo_size : (size (packets j) <= max_frames j)%nat;
  jo_next : is_Some (next_extended j) <-> playing j = true;
  jo_future : forall n k, next_extended j = Some n -> is_Some (packets j !! k) -> n <= k }.

Lemma new_jitter_ok target max : jitter_ok (new_jitter target max).
Proof.
  split; simpl; [lia | rewrite map_size_empty; lia | split; [by intros [] | done] | done].
Qed.

Lemma reset_ok j : jitter_ok j -> jitter_ok (reset j).
Proof.
  intros [? ? ? ?]. split; simpl; [done | rewrite map_size_empty; lia | split; [by intros [] | done] | done].
Qed.

(** [j'] came from [j] without the buffer being torn down: the parameters stay, playback stays
    on or off, and the next slot only moves forward. *)
Definition moves_on (j j' : JitterBuffer) : Prop :=
  target_frames j' = target_frames j /\ max_frames j' = max_frames j /\ playing j' = playing j /\
  anchor j' = anchor j /\
  match next_extended j, next_extended j' with
  | Some n, Some n' => n <= n'
  | None, None => True
  | _, _ => False
  end.

Lemma moves_on_refl j : moves_on j j.
Proof. split_and!; try done. by destruct (next_extended j). Qed.

Lemma moves_on_trans j1 j2 j3 : moves_on j1 j2 -> moves_on j2 j3 -> moves_on j1 j3.
Proof.
  intros (T1 & M1 & P1 & A1 & H1) (T2 & M2 & P2 & A2 & H2). split_and!; try congruence.
  destruct (next_extended j1), (next_extended j2), (next_extended j3); try done; lia.
Qed.

(** One turn of the loop of [push]. *)
Definition drop_one (oldest : Z) (j : JitterBuffer) : JitterBuffer :=
  let j := set_stats count_overflow (set_packets (delete oldest (packets j)) j) in
  match next_extended j with
  | Some next => if next <=? oldest then set_next (Some (oldest + 1)) j else j
  | None => j
  end.

Lemma drop_one_packets oldest j : packets (drop_one oldest j) = delete oldest (packets j).
Proof. unfold drop_one. simpl. destruct (next_extended j) as [n|]; [destruct (n <=? oldest)|]; done. Qed.

Lemma drop_one_stats oldest j : jstats (drop_one oldest j) = count_overflow (jstats j).
Proof. unfold drop_one. simpl. destruct (next_extended j) as [n|]; [destruct (n <=? oldest)|]; done. Qed.

Lemma drop_one_moves oldest j : moves_on j (drop_one oldest j).
Proof.
  unfold drop_one, moves_on. simpl. destruct (next_extended j) as [n|] eqn:E; simpl; [|by rewrite E].
  destruct (Z.leb_spec n oldest); simpl; rewrite ?E; split_and!; done || lia.
Qed.

(** Holding at most one packet too many, the loop drops at most the oldest. *)
Lemma drop_oldest_once fuel j :
  (size (packets j) <= S (max_frames j))%nat -> (0 < fuel)%nat -> (1 <= max_frames j)%nat ->
  (drop_oldest fuel j = j /\ (size (packets j) <= max_frames j)%nat) \/
  (exists k, oldest_key (packets j) = Some k /\ size (packets j) = S (max_frames j) /\ drop_oldest fuel j = drop_one k j).
Proof.
  intros Hs Hf Hm. destruct fuel as [|fuel]; [lia|]. cbn [drop_oldest].
  destruct (Nat.ltb_spec (max_frames j) (size (packets j))); [|left; split; [done | lia]].
  right. destruct (oldest_key (packets j)) as [k|] eqn:E.
  2:{ apply oldest_key_none in E. rewrite E, map_size_empty in *. lia. }
  exists k. split_and!; [done | lia |]. change (drop_oldest fuel (drop_one k j) = drop_one k j).
  pose proof (drop_one_moves k j) as (_ & Hmax & _). destruct fuel; [done|]. cbn [drop_oldest].
  rewrite drop_one_packets, Hmax. apply oldest_key_spec in E as [[v Hv] _].
  rewrite map_size_delete_Some by eauto. destruct (Nat.ltb_spec (max_frames j) (Nat.pred (size (packets j)))); [lia | done].
Qed.

(** ** Pushing and popping *)

(** The state of [push] once the packet is counted and numbered. *)
Definition arrived (j : JitterBuffer) (seq : Z) : JitterBuffer :=
  (extend (set_stats count_received j) seq).2.

Definition is_late (j : JitterBuffer) (e : Z) : bool :=
  match next_extended j with Some next => e <? next | None => false end.

Lemma push_eq j seq payload :
  push j seq payload =
  if is_late j (extended_of (anchor j) seq) then set_stats count_late (arrived j seq)
  else let kept := set_packets (<[extended_of (anchor j) seq := payload]> (packets j)) (arrived j seq) in
       drop_oldest (size (packets kept)) kept.
Proof. reflexivity. Qed.

(** Every case of [push]: the packet is late and dropped; it is kept; or it is kept and the
    oldest packet makes room. *)
Lemma push_cases j seq payload :
  jitter_ok j ->
  let e := extended_of (anchor j) seq in
  let kept := set_packets (<[e := payload]> (packets j)) (arrived j seq) in
  (is_late j e = true /\ push j seq payload = set_stats count_late (arrived j seq)) \/
  (is_late j e = false /\ push j seq payload = kept /\ (size (packets kept) <= max_frames j)%nat) \/
  (is_late j e = false /\ exists k, oldest_key (packets kept) = Some k /\ size (packets kept) = S (max_frames j) /\
     push j seq payload = drop_one k kept).
Proof.
  intros [Hb Hs _ _] e kept. rewrite push_eq. fold e. destruct (is_late j e) eqn:Hl; [by left|]. right.
  cbv zeta. fold kept.
  assert (Hsize : (0 < size (packets kept) <= S (max_frames j))%nat).
  { unfold kept. cbn [packets set_packets]. destruct (packets j !! e) eqn:E.
    - rewrite map_size_insert_Some by eauto. pose proof (map_size_non_empty_iff (packets j)) as Hne.
      assert (packets j <> ∅) by (intros H0; by rewrite H0 in E). apply Hne in H. lia.
    - rewrite map_size_insert_None by done. lia. }
  destruct (drop_oldest_once (size (packets kept)) kept) as [[E Hle] | (k & Hk & Hsz & E)].
  - exact (proj2 Hsize).
  - exact (proj1 Hsize).
  - exact (Nat.le_trans _ _ _ (proj1 Hb) (proj2 Hb)).
  - left. split_and!; [done | exact E | exact Hle].
  - right. split; [done|]. exists k. split_and!; [exact Hk | exact Hsz | exact E].
Qed.

Lemma arrived_moves j seq : moves_on (set_anchor (anchor (arrived j seq)) j) (arrived j seq).
Proof. unfold moves_on. simpl. split_and!; try done. by destruct (next_extended j). Qed.

Lemma push_moves j seq payload :
  jitter_ok j -> moves_on (set_anchor (Some (mkAnchor seq (extended_of (anchor j) seq))) j) (push j seq payload).
Proof.
  intros Hok. destruct (push_cases j seq payload Hok) as [[_ ->] | [(_ & -> & _) | (_ & k & _ & _ & ->)]].
  - unfold moves_on. simpl. split_and!; try done. by destruct (next_extended j).
  - unfold moves_on. simpl. split_and!; try done. by destruct (next_extended j).
  - eapply moves_on_trans; [|apply drop_one_moves]. unfold moves_on. simpl. split_and!; try done. by destruct (next_extended j).
Qed.

(** What a push leaves in the buffer was there or is the packet. *)
Lemma push_packets j seq payload k p :
  jitter_ok j -> packets (push j seq payload) !! k = Some p ->
  packets j !! k = Some p \/ (k, p) = (extended_of (anchor j) seq, payload).
Proof.
  intros Hok H. destruct (push_cases j seq payload Hok) as [[_ E] | [(_ & E & _) | (_ & k0 & _ & _ & E)]]; rewrite E in H.
  - by left.
  - cbn [packets set_packets] in H. apply lookup_insert_Some in H as [[<- <-] | [_ H]]; auto.
  - rewrite drop_one_packets in H. apply lookup_delete_Some in H as [_ H].
    cbn [packets set_packets] in H. apply lookup_insert_Some in H as [[<- <-] | [_ H]]; auto.
Qed.

Lemma push_ok j seq payload : jitter_ok j -> jitter_ok (push j seq payload).
Proof.
  intros Hok. pose proof (push_moves j seq payload Hok) as (Ht & Hm & Hp & _ & Hn).
  cbn [set_anchor target_frames max_frames playing next_extended] in *.
  pose proof Hok as [Hb Hs Hnext Hfut]. split.
  - by rewrite Ht, Hm.
  - rewrite Hm. destruct (push_cases j seq payload Hok) as [[_ ->] | [(_ & -> & Hle) | (_ & k & Hk & Hsz & ->)]]; try done.
    rewrite drop_one_packets. apply oldest_key_spec in Hk as [[v Hv] _]. rewrite map_size_delete_Some by eauto. lia.
  - rewrite Hp, <- Hnext. by destruct (next_extended j), (next_extended (push j seq payload)).
  - intros n' k Hn' [p Hk].
    destruct (push_cases j seq payload Hok) as [[Hl E] | [(Hl & E & _) | (Hl & k0 & Hk0 & _ & E)]]; rewrite E in Hn', Hk.
    + cbn in Hn', Hk. apply (Hfut n' k); eauto.
    + cbn in Hn', Hk. unfold is_late in Hl. rewrite Hn' in Hl. apply lookup_insert_Some in Hk as [[<- _] | [_ Hk]]; [lia|].
      apply (Hfut n' k); eauto.
    + rewrite drop_one_packets in Hk. apply lookup_delete_Some in Hk as [Hne Hk].
      apply oldest_key_spec in Hk0 as [_ Hmin]. specialize (Hmin k ltac:(eauto)).
      unfold is_late in Hl. unfold drop_one in Hn'. cbn in Hn', Hk.
      destruct (next_extended j) as [n|] eqn:En; [|cbn in Hn'; congruence].
      assert (Hnk : n <= k).
      { apply lookup_insert_Some in Hk as [[<- _] | [_ Hk]]; [lia|]. apply (Hfut n k); eauto. }
      destruct (Z.leb_spec n k0); cbn in Hn'; [injection Hn' as <-; lia|]. rewrite En in Hn'. injection Hn' as <-. lia.
Qed.

(** ** Popping *)

(** Every case of [pop]: still filling; a frame; a gap; or run dry.  The slot that plays is one
    the buffer was at, or the oldest held when playback starts. *)
Definition starts_at (j : JitterBuffer) (n : Z) : Prop :=
  if playing j then next_extended j = Some n
  else (target_frames j <= size (packets j))%nat /\ oldest_key (packets j) = Some n.

Lemma pop_cases j :
  jitter_ok j ->
  (pop j = (None, j) /\ playing j = false) \/
  exists n, starts_at j n /\
    ((exists p, packets j !! n = Some p /\
        pop j = (Some (Frame p), set_next (Some (n + 1)) (set_packets (delete n (packets j)) (set_playing true j)))) \/
     (packets j !! n = None /\ packets j <> ∅ /\ playing j = true /\
        pop j = (Some Lost, set_next (Some (n + 1)) (set_stats count_lost j))) \/
     (packets j = ∅ /\ playing j = true /\
        pop j = (None, set_next None (set_playing false (set_stats count_underrun j))))).
Proof.
  intros [Hb Hs Hnext Hfut]. unfold pop, starts_at, play_next. destruct (playing j) eqn:Hp; simpl negb; cbv iota.
  - destruct (next_extended j) as [n|] eqn:En.
    2:{ destruct Hnext as [_ H]. destruct (H eq_refl). done. }
    right. exists n. split; [done|]. destruct (packets j !! n) as [p|] eqn:E.
    + left. exists p. split; [done|]. unfold set_playing. by rewrite <- Hp.
    + right. destruct (Nat.eqb_spec (size (packets j)) 0) as [H0|H0].
      * right. apply map_size_empty_inv in H0. by split_and!.
      * left. split_and!; try done. intros H. by rewrite H, map_size_empty in H0.
  - destruct (Nat.ltb_spec (size (packets j)) (target_frames j)); [by left|]. right.
    destruct (oldest_key (packets j)) as [n|] eqn:E.
    2:{ apply oldest_key_none in E. rewrite E, map_size_empty in H. lia. }
    exists n. split; [done|]. left. apply oldest_key_spec in E as [[p Hpk] _]. exists p. split; [done|].
    cbn [next_extended set_next set_playing packets]. rewrite Hpk. done.
Qed.

Lemma starts_at_oldest j n k : jitter_ok j -> starts_at j n -> is_Some (packets j !! k) -> n <= k.
Proof.
  intros [_ _ _ Hfut] Hn Hk. unfold starts_at in Hn. destruct (playing j); [by eapply Hfut|].
  destruct Hn as [_ Hn]. apply oldest_key_spec in Hn as [_ Hmin]. by apply Hmin.
Qed.

Lemma pop_ok j : jitter_ok j -> jitter_ok (pop j).2.
Proof.
  intros Hok. pose proof Hok as [Hb Hs Hnext Hfut].
  destruct (pop_cases j Hok) as [[E _] | (n & Hn & [(p & Hp & E) | [(Hp & Hne & Hpl & E) | (He & Hpl & E)]])]; rewrite E; simpl; [done | | |].
  - split; simpl; [done | rewrite map_size_delete; destruct (packets j !! n); simpl; lia | split; eauto |].
    intros n' k [= <-] [p' Hk]. apply lookup_delete_Some in Hk as [Hne Hk].
    pose proof (starts_at_oldest j n k Hok Hn ltac:(eauto)). lia.
  - split; simpl; [done | done | rewrite Hpl; split; eauto |].
    intros n' k [= <-] Hk. pose proof (starts_at_oldest j n k Hok Hn Hk). destruct (decide (n = k)) as [->|]; [|lia].
    rewrite Hp in Hk. by destruct Hk.
  - split; simpl; [done | done | split; [by intros [] | done] | done].
Qed.

(** ** A stretch of arrivals and playback *)

Inductive JitterOp : Type :=
| Push (seq : Z) (payload : bytes)
| Pop.

(** What plays, with the slot each output was for. *)
Fixpoint playout (ops : list JitterOp) (j : JitterBuffer) : list (Z * JitterOutput) * JitterBuffer :=
  match ops with
  | [] => ([], j)
  | Push seq payload :: rest => playout rest (push j seq payload)
  | Pop :: rest =>
      let '(out, j1) := pop j in
      let '(log, j2) := playout rest j1 in
      (match out with Some o => (default 0 (next_extended j1) - 1, o) :: log | None => log end, j2)
  end.

(** The packets that arrive, under their extended numbers. *)
Fixpoint arrivals (a : option Anchor) (ops : list JitterOp) : list (Z * bytes) :=
  match ops with
  | [] => []
  | Push seq payload :: rest =>
      let e := extended_of a seq in (e, payload) :: arrivals (Some (mkAnchor seq e)) rest
  | Pop :: rest => arrivals a rest
  end.

Definition frames_of (log : list (Z * JitterOutput)) : nat :=
  length (retain (fun e => match e.2 with Frame _ => true | Lost => false end) log).

Lemma frames_of_cons k o log :
  frames_of ((k, o) :: log) = ((match o with Frame _ => 1 | Lost => 0 end) + frames_of log)%nat.
Proof. unfold frames_of, retain. rewrite filter_cons. by destruct o. Qed.

(** Packets accounted for: played, late, squeezed out or still held. *)
Definition accounted (log : list (Z * JitterOutput)) (j : JitterBuffer) : Z :=
  Z.of_nat (frames_of log) + late (jstats j) + overflows (jstats j) + Z.of_nat (size (packets j)).

Lemma pop_anchor j : jitter_ok j -> anchor (pop j).2 = anchor j.
Proof.
  intros Hok. destruct (pop_cases j Hok) as [[-> _] | (n & Hn & [(p & Hp & ->) | [(Hp & Hne & Hpl & ->) | (He & Hpl & ->)]])]; done.
Qed.

(** What one arrival adds to the account: the packet itself, unless it replaces one that holds
    the same number. *)
Lemma push_account j seq payload log :
  jitter_ok j ->
  accounted log (push j seq payload) <= accounted log j + 1 /\
  (packets j !! extended_of (anchor j) seq = None -> accounted log (push j seq payload) = accounted log j + 1).
Proof.
  intros Hok. unfold accounted. set (e := extended_of (anchor j) seq).
  destruct (push_cases j seq payload Hok) as [[_ ->] | [(_ & -> & _) | (_ & k & Hk & _ & ->)]].
  - cbn. lia.
  - cbn [packets set_packets jstats arrived extend set_anchor set_stats snd count_received late overflows]. fold e.
    destruct (packets j !! e) eqn:E; [rewrite map_size_insert_Some by eauto | rewrite map_size_insert_None by done];
      split; done || lia.
  - rewrite drop_one_packets, drop_one_stats. fold e in Hk |- *.
    cbn [packets set_packets jstats arrived extend set_anchor set_stats snd count_received count_overflow late overflows] in *.
    apply oldest_key_spec in Hk as [Hk _]. rewrite map_size_delete_Some by done.
    assert (Hpos : (0 < size (<[e := payload]> (packets j)))%nat).
    { destruct (size _) eqn:E0; [|lia]. apply map_size_empty_inv in E0. destruct Hk as [? Hk]. by rewrite E0 in Hk. }
    destruct (packets j !! e) eqn:E; [rewrite map_size_insert_Some in * by eauto | rewrite map_size_insert_None in * by done];
      split; done || lia.
Qed.

Lemma pop_account j log :
  jitter_ok j ->
  accounted (match (pop j).1 with Some o => (default 0 (next_extended (pop j).2) - 1, o) :: log | None => log end) (pop j).2
  = accounted log j.
Proof.
  intros Hok. unfold accounted, frames_of.
  destruct (pop_cases j Hok) as [[-> _] | (n & Hn & [(p & Hp & ->) | [(Hp & Hne & Hpl & ->) | (He & Hpl & ->)]])]; simpl; try done.
  rewrite map_size_delete_Some by eauto. assert (Hpos : (0 < size (packets j))%nat); [|unfold retain; lia].
  destruct (size _) eqn:E0; [|lia]. apply map_size_empty_inv in E0. by rewrite E0 in Hp.
Qed.

Lemma pop_underruns j : jitter_ok j -> underruns (jstats j) <= underruns (jstats (pop j).2).
Proof.
  intros Hok. destruct (pop_cases j Hok) as [[-> _] | (n & Hn & [(p & Hp & ->) | [(Hp & Hne & Hpl & ->) | (He & Hpl & ->)]])]; simpl; lia.
Qed.

Lemma push_underruns j seq payload : jitter_ok j -> underruns (jstats (push j seq payload)) = underruns (jstats j).
Proof.
  intros Hok. destruct (push_cases j seq payload Hok) as [[_ ->] | [(_ & -> & _) | (_ & k & _ & _ & ->)]]; [done | done |].
  by rewrite drop_one_stats.
Qed.

Lemma playout_ok ops j : jitter_ok j -> jitter_ok (playout ops j).2 /\ underruns (jstats j) <= underruns (jstats (playout ops j).2).
Proof.
  revert j; induction ops as [|[seq payload|] ops IH]; intros j Hok; cbn [playout]; [done | |].
  - destruct (IH (push j seq payload) (push_ok _ _ _ Hok)) as [H1 H2]. by rewrite push_underruns in H2.
  - pose proof (pop_ok j Hok) as H1. pose proof (pop_underruns j Hok) as H2. destruct (pop j) as [out j1].
    destruct (IH j1 H1) as [H3 H4]. destruct (playout ops j1) as [log j2]. simpl in *. split; [done | lia].
Qed.

(** Between two underruns slots only move forward. *)
Lemma playout_in_order ops j :
  jitter_ok j -> underruns (jstats (playout ops j).2) = underruns (jstats j) ->
  StronglySorted Z.lt (playout ops j).1.*1 /\
  forall n, next_extended j = Some n -> Forall (fun k => n <= k) (playout ops j).1.*1.
Proof.
  revert j; induction ops as [|[seq payload|] ops IH]; intros j Hok Hu; cbn [playout] in *; [split; constructor | |].
  - rewrite <- (push_underruns j seq payload Hok) in Hu.
    destruct (IH _ (push_ok _ seq payload Hok) Hu) as [Hs Hge]. split; [done|]. intros n Hn.
    pose proof (push_moves j seq payload Hok) as (_ & _ & _ & _ & Hm). cbn [next_extended set_anchor] in Hm. rewrite Hn in Hm.
    destruct (next_extended (push j seq payload)) as [n'|]; [|done]. specialize (Hge n' eq_refl).
    eapply Forall_impl; [exact Hge|]. simpl. lia.
  - pose proof (pop_ok j Hok) as H1. pose proof (pop_underruns j Hok) as H2.
    pose proof (playout_ok ops (pop j).2 H1) as [_ H3]. specialize (IH (pop j).2 H1).
    assert (Hcase : forall o n, starts_at j n -> next_extended (pop j).2 = Some (n + 1) -> (pop j).1 = Some o ->
      let log := (playout ops (pop j).2).1 in
      underruns (jstats (playout ops (pop j).2).2) = underruns (jstats (pop j).2) ->
      StronglySorted Z.lt ((n + 1 - 1, o) :: log).*1 /\
      forall n0, next_extended j = Some n0 -> Forall (fun k => n0 <= k) ((n + 1 - 1, o) :: log).*1).
    { intros o n Hn Hn1 Ho log Hu1. destruct (IH Hu1) as [Hs Hge]. specialize (Hge _ Hn1). rewrite fmap_cons. cbn [fst]. split.
      - constructor; [done|]. eapply Forall_impl; [exact Hge|]. simpl. lia.
      - intros n0 Hn0. assert (n0 = n).
        { unfold starts_at in Hn. destruct (playing j) eqn:Hp; [congruence|].
          destruct Hok as [_ _ Hnext _]. assert (Hi : is_Some (next_extended j)) by eauto. apply Hnext in Hi. congruence. }
        subst n0. constructor; [lia|]. eapply Forall_impl; [exact Hge|]. simpl. lia. }
    destruct (pop_cases j Hok) as [[E Hp] | (n & Hn & [(p & Hp & E) | [(Hp & Hne & Hpl & E) | (He & Hpl & E)]])];
      rewrite E in *; cbn [fst snd] in *.
    + destruct (playout ops j) as [log j2]. cbn [fst snd] in *. split; [apply IH, Hu|]. intros n Hn.
      destruct Hok as [_ _ Hnext _]. assert (Hi : is_Some (next_extended j)) by eauto. apply Hnext in Hi. congruence.
    + specialize (Hcase _ n Hn eq_refl eq_refl). destruct (playout ops _) as [log j2]. cbn [fst snd next_extended set_next default] in *.
      by apply Hcase.
    + specialize (Hcase _ n Hn eq_refl eq_refl). destruct (playout ops _) as [log j2]. cbn [fst snd next_extended set_next default] in *.
      by apply Hcase.
    + exfalso. destruct (playout ops _) as [log j2]. cbn in *. lia.
Qed.

(** A frame that plays in a slot is the packet that arrived for that slot. *)
Lemma playout_genuine ops j k p :
  jitter_ok j -> (k, Frame p) ∈ (playout ops j).1 -> packets j !! k = Some p \/ (k, p) ∈ arrivals (anchor j) ops.
Proof.
  revert j; induction ops as [|[seq payload|] ops IH]; intros j Hok; cbn [playout arrivals].
  - by intros ?%not_elem_of_nil.
  - intros Hin. destruct (IH _ (push_ok _ seq payload Hok) Hin) as [Hk | Hk].
    + apply push_packets in Hk as [Hk | [= -> ->]]; [by left | right; left | done].
    + right. right. pose proof (push_moves j seq payload Hok) as (_ & _ & _ & Ha & _). rewrite Ha in Hk. exact Hk.
  - pose proof (pop_anchor j Hok) as Ha. specialize (IH _ (pop_ok j Hok)). rewrite Ha in IH.
    destruct (pop_cases j Hok) as [[E Hp] | (n & Hn & [(q & Hq & E) | [(Hq & Hne & Hpl & E) | (He & Hpl & E)]])];
      rewrite E in *; cbn [fst snd] in *; destruct (playout ops _) as [log j2]; cbn [fst snd next_extended set_next default] in *;
      intros Hin.
    + by apply IH.
    + apply elem_of_cons in Hin as [[= -> ->] | Hin].
      * left. replace (n + 1 - 1) with n by lia. done.
      * destruct (IH Hin) as [Hk | Hk]; [|by right]. left. cbn in Hk. by apply lookup_delete_Some in Hk as [_ Hk].
    + apply elem_of_cons in Hin as [? | Hin]; [congruence|]. by apply IH.
    + by apply IH.
Qed.

(** No packet is silently lost or played twice. *)
Lemma playout_account ops j :
  jitter_ok j -> NoDup (arrivals (anchor j) ops).*1 ->
  (forall k, is_Some (packets j !! k) -> k ∉ (arrivals (anchor j) ops).*1) ->
  accounted (playout ops j).1 (playout ops j).2 = accounted [] j + Z.of_nat (length (arrivals (anchor j) ops)).
Proof.
  revert j; induction ops as [|[seq payload|] ops IH]; intros j Hok Hnd Hnew; cbn [playout arrivals] in *.
  - simpl. lia.
  - rewrite fmap_cons in Hnd, Hnew. cbn [fst] in Hnd, Hnew. apply NoDup_cons in Hnd as [Hne Hnd].
    pose proof (push_moves j seq payload Hok) as (_ & _ & _ & Ha & _). cbn [anchor set_anchor] in Ha.
    destruct (push_account j seq payload [] Hok) as [_ Hacc]. rewrite IH; rewrite ?Ha; [| by apply push_ok | done |].
    + rewrite Hacc; [simpl length; lia|]. destruct (packets j !! _) eqn:E; [|done]. exfalso. apply (Hnew (extended_of (anchor j) seq)); [eauto | left].
    + intros k [p Hk] Hin. apply push_packets in Hk as [Hk | [= -> ->]]; [| done | done].
      apply (Hnew k); [eauto | by right].
  - pose proof (pop_account j) as Hacc. pose proof (pop_anchor j Hok) as Ha. specialize (IH _ (pop_ok j Hok)). rewrite Ha in IH.
    specialize (IH Hnd).
    assert (Hsub : forall k, is_Some (packets (pop j).2 !! k) -> is_Some (packets j !! k)).
    { intros k. destruct (pop_cases j Hok) as [[-> _] | (n & _ & [(p & _ & ->) | [(_ & _ & _ & ->) | (_ & _ & ->)]])]; try done.
      cbn. intros [q Hq]. apply lookup_delete_Some in Hq as [_ Hq]. eauto. }
    specialize (IH ltac:(intros k Hk; by apply Hnew, Hsub)). specialize (Hacc [] Hok).
    destruct (pop j) as [out j1]. cbn [fst snd] in *. destruct (playout ops j1) as [log j2]. cbn [fst snd] in *.
    rewrite <- Hacc. clear -IH. unfold accounted in *. destruct out as [o|]; rewrite ?frames_of_cons; lia.
Qed.

(** The extended numbers are the sender's true numbering: whatever 32-bit number a stream
    starts at, as long as neighbouring arrivals are less than half the sequence space apart,
    packets are filed by how far they are from the first one, across any number of rollovers
    and however they are reordered. *)
Theorem rollover_does_not_reorder s0 i0 l :
  near i0 l -> extended_run None (numbered s0 <$> i0 :: l) = (fun i => i - i0) <$> i0 :: l.
Proof.
  intros Hn. rewrite fmap_cons. cbn [extended_run extended_of]. cbv zeta. rewrite extended_run_numbered by done.
  rewrite fmap_cons. f_equal. lia.
Qed.

(** C39: over any run of arrivals and playback a buffer holds at most its cap; what plays in a
    slot is exactly the packet that arrived for it; between underruns slots play in strictly
    increasing order, none twice; and when no number arrives twice every packet is accounted
    for: played, late, squeezed out by the cap, or still held. *)
Theorem playout_spec ops j :
  jitter_ok j ->
  let '(log, j') := playout ops j in
  (size (packets j') <= max_frames j')%nat /\
  (forall k p, (k, Frame p) ∈ log -> packets j !! k = Some p \/ (k, p) ∈ arrivals (anchor j) ops) /\
  (underruns (jstats j') = underruns (jstats j) ->
     StronglySorted Z.lt log.*1 /\ forall n, next_extended j = Some n -> Forall (fun k => n <= k) log.*1) /\
  (NoDup (arrivals (anchor j) ops).*1 -> (forall k, is_Some (packets j !! k) -> k ∉ (arrivals (anchor j) ops).*1) ->
     accounted log j' = accounted [] j + Z.of_nat (length (arrivals (anchor j) ops))).
Proof.
  intros Hok. pose proof (playout_ok ops j Hok) as [Hok' _]. pose proof (playout_in_order ops j Hok) as Hord.
  pose proof (playout_genuine ops j) as Hgen. pose proof (playout_account ops j Hok) as Hacc.
  destruct (playout ops j) as [log j']. cbn [fst snd] in *. split_and!; auto. apply Hok'.
Qed.

(** Three packets, the middle one first to be reordered past the rollover, then four pops. *)
Definition sample_ops : list JitterOp :=
  [Push u32_max [1]; Push 1 [3]; Push 0 [2]; Pop; Pop; Pop; Pop].

Lemma rollover_does_not_reorder_witness :
  extended_run None [u32_max; 1; 0; 4] = [0; 2; 1; 5].
Proof.
  apply (rollover_does_not_reorder u32_max 0 [2; 1; 5]). repeat split; lia.
Defined.

Lemma playout_spec_witness :
  (playout sample_ops JitterBuffer_default).1 = [(0, Frame [1]); (1, Frame [2]); (2, Frame [3])] /\
  (size (packets (playout sample_ops JitterBuffer_default).2) <= DEFAULT_MAX_FRAMES)%nat.
Proof.
  split; [vm_compute; reflexivity|].
  pose proof (playout_spec sample_ops JitterBuffer_default (new_jitter_ok _ _)) as H.
  destruct (playout sample_ops JitterBuffer_default) as [log j'] eqn:E. destruct H as [H _].
  assert (Hm : max_frames j' = DEFAULT_MAX_FRAMES).
  { replace j' with (playout sample_ops JitterBuffer_default).2 by (by rewrite E). vm_compute. reflexivity. }
  cbn [snd]. rewrite <- Hm. exact H.
Defined.

(** Running dry forgets where playback was: a packet whose slot has already been concealed or
    played is then taken for a new one, and plays after its successors. *)
Lemma underrun_forgets_the_slot :
  (playout [Push 5 [5]; Pop; Pop; Push 4 [4]; Pop] (new_jitter 1 4)).1 = [(0, Frame [5]); (-1, Frame [4])].
Proof. vm_compute. reflexivity. Qed.
