(* ===== verification/Floats.v ===== *)
(** * IEEE 754 numbers, as the audio code computes with them

    [f32] and [f64] are the Standard Library's [spec_float], the executable specification of
    binary floating point: every operation rounds to nearest even at the type's precision, as
    Rust's does.  Not-a-number carries no payload here.  The casts follow the Rust reference:
    integers and wider floats round, a float saturates into an integer and NaN becomes zero.
    [log10] and [sin], whose precision Rust leaves to the platform, are a parameter. *)

From Stdlib Require Export SpecFloat.
From S2P Require Export Prelude.

Definition f32 : Type := spec_float.
Definition f64 : Type := spec_float.

Class Libm : Type := { f64_log10 : f64 -> f64; f64_sin : f64 -> f64 }.

(** ** Arithmetic *)

Definition f32_add : f32 -> f32 -> f32 := SFadd 24 128.
Definition f32_sub : f32 -> f32 -> f32 := SFsub 24 128.
Definition f32_mul : f32 -> f32 -> f32 := SFmul 24 128.
Definition f32_div : f32 -> f32 -> f32 := SFdiv 24 128.
Definition f64_add : f64 -> f64 -> f64 := SFadd 53 1024.
Definition f64_sub : f64 -> f64 -> f64 := SFsub 53 1024.
Definition f64_mul : f64 -> f64 -> f64 := SFmul 53 1024.
Definition f64_div : f64 -> f64 -> f64 := SFdiv 53 1024.
Definition f64_sqrt : f64 -> f64 := SFsqrt 53 1024.

(** [x as f32] and [x as f64] of an integer. *)
Definition f32_of (z : Z) : f32 := binary_normalize 24 128 z 0 false.
Definition f64_of (z : Z) : f64 := binary_normalize 53 1024 z 0 false.

(** A decimal literal [n / d]: the nearest number, when [n] and [d] are themselves exact. *)
Definition f64_lit (n d : Z) : f64 := f64_div (f64_of n) (f64_of d).

(** [x as f64] of an [f32], and back. *)
Definition widen (x : f32) : f64 :=
  match x with S754_finite s m e => binary_round 53 1024 s m e | _ => x end.
Definition narrow (x : f64) : f32 :=
  match x with S754_finite s m e => binary_round 24 128 s m e | _ => x end.

Definition NEG_INFINITY : spec_float := S754_infinity true.
Definition is_nan (x : spec_float) : bool := match x with S754_nan => true | _ => false end.

(** [a < b], [a <= b]: false when either is NaN.  [a > b] is [b < a]. *)
Definition flt : spec_float -> spec_float -> bool := SFltb.
Definition fle : spec_float -> spec_float -> bool := SFleb.

(** [f32::min] and [f32::max] pass over a NaN.  Between zeros of different signs Rust leaves
    the choice open; these return the first. *)
Definition fmin (a b : spec_float) : spec_float :=
  if is_nan a then b else if is_nan b then a else if flt b a then b else a.
Definition fmax (a b : spec_float) : spec_float :=
  if is_nan a then b else if is_nan b then a else if flt a b then b else a.

(** [f32::clamp] *)
Definition fclamp (lo hi x : spec_float) : spec_float :=
  if flt x lo then lo else if flt hi x then hi else x.

(** [iter().sum()]: from the neutral element, from the left. *)
Definition f32_sum (l : list f32) : f32 := fold_left f32_add l (S754_zero true).
Definition f64_sum (l : list f64) : f64 := fold_left f64_add l (S754_zero true).

(** The magnitude rounded towards zero, and whether a fraction was dropped. *)
Definition whole_part (m : positive) (e : Z) : Z * bool :=
  match e with
  | Zneg n => (Z.shiftr (Zpos m) (Zpos n), negb (Z.land (Zpos m) (Z.ones (Zpos n)) =? 0))
  | _ => (Z.shiftl (Zpos m) e, false)
  end.

(** [x as usize] and the like: truncation, saturating. *)
Definition to_int (lo hi : Z) (x : spec_float) : Z :=
  match x with
  | S754_nan | S754_zero _ => 0
  | S754_infinity s => if s then lo else hi
  | S754_finite s m e =>
      let w := (whole_part m e).1 in
      Z.max lo (Z.min hi (if s then - w else w))
  end.

Definition to_usize : spec_float -> Z := to_int 0 u64_max.
Definition to_i16 : spec_float -> Z := to_int (- 2 ^ 15) (2 ^ 15 - 1).

Definition signed_zero (s : bool) (z : Z) : f64 := binary_normalize 53 1024 z 0 s.

Definition f64_floor (x : f64) : f64 :=
  match x with
  | S754_finite s m (Zneg n) =>
      let '(w, dropped) := whole_part m (Zneg n) in
      signed_zero s (if s then - (w + if dropped then 1 else 0) else w)
  | _ => x
  end.

Definition f64_ceil (x : f64) : f64 :=
  match x with
  | S754_finite s m (Zneg n) =>
      let '(w, dropped) := whole_part m (Zneg n) in
      signed_zero s (if s then - w else w + if dropped then 1 else 0)
  | _ => x
  end.

(** ** The order

    Comparison is lexicographic on the class, the exponent and the mantissa, with signs. *)

Definition rank (x : spec_float) : Z * Z * Z :=
  match x with
  | S754_infinity s => (if s then -2 else 2, 0, 0)
  | S754_zero _ | S754_nan => (0, 0, 0)
  | S754_finite s m e => if s then (-1, - e, Zneg m) else (1, e, Zpos m)
  end.

Lemma compare_rank x y :
  is_nan x = false -> is_nan y = false ->
  exists c, SFcompare x y = Some c /\
    match c with Lt => lex_lt (rank x) (rank y) | Eq => rank x = rank y | Gt => lex_lt (rank y) (rank x) end.
Proof.
  intros Hx Hy. unfold lex_lt. destruct x as [s|s| |s m e]; try done; destruct y as [s'|s'| |s' m' e']; try done;
    destruct s, s'; simpl; eexists; (split; [reflexivity|]); simpl; try lia; try (f_equal; lia);
    change (Pos.compare_cont Eq m m') with (m ?= m')%positive;
    destruct (Z.compare_spec e e'); try lia;
    destruct (Pos.compare_spec m m'); simpl; subst; try done; lia.
Qed.

Lemma compare_nan x y : SFcompare x y = None <-> is_nan x = true \/ is_nan y = true.
Proof.
  split.
  - intros H. destruct (is_nan x) eqn:Hx; [by left|]. destruct (is_nan y) eqn:Hy; [by right|].
    destruct (compare_rank x y Hx Hy) as (c & Hc & _). congruence.
  - by destruct x as [[]|[]| |[]], y as [[]|[]| |[]]; intros [?|?].
Qed.

Lemma flt_spec x y : flt x y = true <-> is_nan x = false /\ is_nan y = false /\ lex_lt (rank x) (rank y).
Proof.
  unfold flt, SFltb. destruct (is_nan x) eqn:Hx; [|destruct (is_nan y) eqn:Hy].
  - rewrite (proj2 (compare_nan x y)) by auto. split; [done|]. intros (? & _); done.
  - rewrite (proj2 (compare_nan x y)) by auto. split; [done|]. intros (_ & ? & _); done.
  - destruct (compare_rank x y Hx Hy) as ([] & -> & Hr); split; try done; intros (_ & _ & H); unfold lex_lt in *;
      [rewrite Hr in H|]; lia.
Qed.

Lemma fle_spec x y : fle x y = true <-> is_nan x = false /\ is_nan y = false /\ (rank x = rank y \/ lex_lt (rank x) (rank y)).
Proof.
  unfold fle, SFleb. destruct (is_nan x) eqn:Hx; [|destruct (is_nan y) eqn:Hy].
  - rewrite (proj2 (compare_nan x y)) by auto. split; [done|]. intros (? & _); done.
  - rewrite (proj2 (compare_nan x y)) by auto. split; [done|]. intros (_ & ? & _); done.
  - destruct (compare_rank x y Hx Hy) as ([] & -> & Hr); split; try done; auto.
    intros (_ & _ & [H | H]); unfold lex_lt in *; [rewrite H in Hr|]; lia.
Qed.

Lemma fle_refl x : is_nan x = false -> fle x x = true.
Proof. intros. apply fle_spec. auto. Qed.

Lemma fle_trans x y z : fle x y = true -> fle y z = true -> fle x z = true.
Proof.
  intros (Hx & _ & H1)%fle_spec (_ & Hz & H2)%fle_spec. apply fle_spec. split; [done|]. split; [done|].
  destruct H1 as [-> | H1]; [done|]. destruct H2 as [<- | H2]; [by right|]. right. by eapply lex_trans.
Qed.

(** Of two numbers, one is at most the other. *)
Lemma flt_false x y : is_nan x = false -> is_nan y = false -> flt x y = false <-> fle y x = true.
Proof.
  intros Hx Hy. split; intros H.
  - apply fle_spec. split; [done|]. split; [done|]. destruct (lex_total (rank x) (rank y)) as [E|[Hl|Hl]]; auto.
    rewrite (proj2 (flt_spec x y)) in H; [done | auto].
  - destruct (flt x y) eqn:E; [|done]. apply flt_spec in E as (_ & _ & E). apply fle_spec in H as (_ & _ & [H|H]);
      unfold lex_lt in *; [rewrite H in E|]; lia.
Qed.

Lemma flt_fle x y : flt x y = true -> fle x y = true.
Proof. intros (? & ? & ?)%flt_spec. apply fle_spec. auto. Qed.

(** What [fmin] bounds: whatever reaches the second argument reaches the smaller one. *)
Lemma fle_fmin a b x : fle b x = true -> fle (fmin a b) x = true.
Proof.
  intros H. assert (is_nan b = false) as Hb by (by apply fle_spec in H as (? & _)). unfold fmin. rewrite Hb. destruct (is_nan a) eqn:Ha; [done|].
  destruct (flt b a) eqn:E; [done|]. apply (flt_false b a Hb Ha) in E. by eapply fle_trans.
Qed.

Lemma fclamp_range lo hi x :
  fle lo hi = true -> is_nan x = false -> fle lo (fclamp lo hi x) = true /\ fle (fclamp lo hi x) hi = true.
Proof.
  intros H Hx. pose proof H as (Hlo & Hhi & _)%fle_spec. unfold fclamp. destruct (flt x lo) eqn:E1.
  { split; [by apply fle_refl | done]. }
  destruct (flt hi x) eqn:E2; [split; [done | by apply fle_refl]|].
  apply flt_false in E1; [|done..]. apply flt_false in E2; [|done..]. done.
Qed.

Lemma fclamp_id lo hi x : fle lo x = true -> fle x hi = true -> fclamp lo hi x = x.
Proof.
  intros H1 H2. pose proof H1 as (Hlo & Hx & _)%fle_spec. pose proof H2 as (_ & Hhi & _)%fle_spec.
  unfold fclamp. rewrite (proj2 (flt_false x lo Hx Hlo) H1), (proj2 (flt_false hi x Hhi Hx) H2). done.
Qed.

Lemma fclamp_nan lo hi x : is_nan (fclamp lo hi x) = true -> is_nan lo = false -> is_nan hi = false -> is_nan x = true.
Proof. unfold fclamp. intros H Hlo Hhi. destruct (flt x lo); [congruence|]. destruct (flt hi x); congruence. Qed.

(** ** Where a NaN can come from

    Rounding keeps a magnitude a magnitude, so an operation on finite numbers makes no NaN. *)

Lemma shr_1_nonneg r : 0 <= shr_m r -> 0 <= shr_m (shr_1 r).
Proof. destruct r as [m ? ?]. destruct m as [|[]|]; simpl; lia. Qed.

Lemma iter_pos_inv {A} (P : A -> Prop) f n x : (forall y, P y -> P (f y)) -> P x -> P (SpecFloat.iter_pos f n x).
Proof. intros Hf. revert x. induction n; simpl; auto. Qed.

Lemma shr_fexp_nonneg prec emax m e l : 0 <= m -> 0 <= shr_m (shr_fexp prec emax m e l).1.
Proof.
  intros H. assert (0 <= shr_m (shr_record_of_loc m l)) as H0 by (destruct l as [|[]]; done).
  unfold shr_fexp, shr. case_match; simpl; try done. apply (iter_pos_inv (fun r => 0 <= shr_m r)); [|done].
  apply shr_1_nonneg.
Qed.

Lemma round_nearest_even_nonneg m l : 0 <= m -> 0 <= round_nearest_even m l.
Proof. unfold round_nearest_even. repeat case_match; lia. Qed.

Lemma binary_round_aux_nan prec emax s m e l : 0 <= m -> is_nan (binary_round_aux prec emax s m e l) = false.
Proof.
  intros H. unfold binary_round_aux. pose proof (shr_fexp_nonneg prec emax m e l H) as H1.
  destruct (shr_fexp prec emax m e l) as [r1 e1]. simpl in H1.
  pose proof (shr_fexp_nonneg prec emax _ e1 loc_Exact (round_nearest_even_nonneg _ (loc_of_shr_record r1) H1)) as H2.
  destruct (shr_fexp prec emax _ e1 loc_Exact) as [r2 e2]. simpl in H2. destruct (shr_m r2); [done| |done]. by case_match.
Qed.

Lemma binary_round_nan prec emax s m e : is_nan (binary_round prec emax s m e) = false.
Proof. unfold binary_round. destruct (shl_align _ _ _). by apply binary_round_aux_nan. Qed.

Lemma binary_normalize_nan prec emax m e s : is_nan (binary_normalize prec emax m e s) = false.
Proof. destruct m; [done|..]; apply binary_round_nan. Qed.

Lemma f32_of_nan z : is_nan (f32_of z) = false.
Proof. apply binary_normalize_nan. Qed.

Definition finite (x : spec_float) : bool := match x with S754_zero _ | S754_finite _ _ _ => true | _ => false end.

Lemma f32_mul_nan x y : finite x = true -> finite y = true -> is_nan (f32_mul x y) = false.
Proof. destruct x, y; try done. intros _ _. by apply binary_round_aux_nan. Qed.

Lemma f32_add_nan x y : is_nan x = false -> finite y = true -> is_nan (f32_add x y) = false.
Proof. destruct x as [[]|[]| |], y as [[]|[]| |]; try done; intros _ _; apply binary_normalize_nan. Qed.
