(* ===== verification/Rounding.v ===== *)
(** * How far a rounded result is from the exact one

    Every operation of [Floats] at double precision on non-negative numbers is the exact result
    within one part in 2^52, and is again a number in its normal form.  Values are rationals. *)

From S2P Require Export Floats.
From Stdlib Require Export QArith Lqa.
From Stdlib Require Import Qpower.
#[global] Open Scope Z_scope.

(** ** Powers of two *)

Definition pw (e : Z) : Q := Qpower 2 e.

Lemma pw_pos e : (0 < pw e)%Q.
Proof. unfold pw. by apply Qpower_0_lt. Qed.

Lemma pw_add a b : (pw (a + b) == pw a * pw b)%Q.
Proof. unfold pw. by apply Qpower_plus. Qed.

Lemma pw_Z n : 0 <= n -> (inject_Z (2 ^ n) == pw n)%Q.
Proof. intros H. unfold pw. by rewrite Zpower_Qpower. Qed.

Lemma pw_le a b : a <= b -> (pw a <= pw b)%Q.
Proof.
  intros H. replace b with (a + (b - a)) by lia. rewrite pw_add. pose proof (pw_pos a).
  assert (1 <= pw (b - a))%Q. { rewrite <- pw_Z by lia. rewrite <- (Zle_Qle 1). apply (Z.pow_le_mono_r 2 0); lia. } nra.
Qed.

(** ** Digits *)

Lemma digits_spec m : 2 ^ (Zpos (digits2_pos m) - 1) <= Zpos m < 2 ^ Zpos (digits2_pos m).
Proof.
  induction m as [m IH | m IH |]; cbn [digits2_pos]; [| | done]; rewrite Pos2Z.inj_succ;
    replace (Z.succ (Zpos (digits2_pos m)) - 1) with (Z.succ (Zpos (digits2_pos m) - 1)) by lia;
    rewrite !Z.pow_succ_r by lia; lia.
Qed.

Lemma digits_unique m d : 0 < d -> 2 ^ (d - 1) <= Zpos m < 2 ^ d -> Zpos (digits2_pos m) = d.
Proof.
  intros Hd H. pose proof (digits_spec m) as Hs. destruct (Z.lt_trichotomy (Zpos (digits2_pos m)) d) as [Hl | [He | Hg]]; [|done|].
  - assert (2 ^ Zpos (digits2_pos m) <= 2 ^ (d - 1)) by (apply Z.pow_le_mono_r; lia). lia.
  - assert (2 ^ d <= 2 ^ (Zpos (digits2_pos m) - 1)) by (apply Z.pow_le_mono_r; lia). lia.
Qed.

Lemma digits_le m d : 0 < d -> Zpos m < 2 ^ d -> Zpos (digits2_pos m) <= d.
Proof.
  intros Hd H. pose proof (digits_spec m) as Hs. destruct (Z.le_gt_cases (Zpos (digits2_pos m)) d) as [|Hg]; [done|].
  assert (2 ^ d <= 2 ^ (Zpos (digits2_pos m) - 1)) by (apply Z.pow_le_mono_r; lia). lia.
Qed.

(** ** Shifting and rounding a mantissa *)

Lemma shr_1_div2 r : 0 <= shr_m r -> shr_m (shr_1 r) = shr_m r / 2.
Proof. destruct r as [[|[p|p|]|p] ? ?]; cbn; intros H; try lia; try done; rewrite <- Z.div2_div; done. Qed.

Lemma iter_shr n r : 0 <= shr_m r -> shr_m (SpecFloat.iter_pos shr_1 n r) = shr_m r / 2 ^ Zpos n.
Proof.
  revert r; induction n as [n IH | n IH |]; intros r Hr; cbn [SpecFloat.iter_pos].
  - assert (H1 : 0 <= shr_m (shr_1 r)) by (rewrite shr_1_div2 by done; apply Z.div_pos; lia).
    assert (H2 : 0 <= shr_m (SpecFloat.iter_pos shr_1 n (shr_1 r))) by (rewrite IH by done; apply Z.div_pos; lia).
    rewrite IH, IH, shr_1_div2 by done. rewrite !Zdiv_Zdiv by lia. f_equal. rewrite (Pos2Z.inj_xI n).
    replace (2 * Zpos n + 1) with (1 + Zpos n + Zpos n) by lia. rewrite !Z.pow_add_r by lia. lia.
  - assert (H2 : 0 <= shr_m (SpecFloat.iter_pos shr_1 n r)) by (rewrite IH by done; apply Z.div_pos; lia).
    rewrite IH, IH by done. rewrite Zdiv_Zdiv by lia. f_equal. rewrite (Pos2Z.inj_xO n).
    replace (2 * Zpos n) with (Zpos n + Zpos n) by lia. by rewrite Z.pow_add_r by lia.
  - by apply shr_1_div2.
Qed.

Lemma shr_div r e n : 0 <= n -> 0 <= shr_m r -> (shr_m (shr r e n).1 = shr_m r / 2 ^ n /\ (shr r e n).2 = e + n)%Z.
Proof.
  intros Hn Hr. destruct n as [|n|n]; [| |lia]; cbn [shr fst snd].
  - rewrite Z.pow_0_r, Z.div_1_r, Z.add_0_r. done.
  - split; [by apply iter_shr | done].
Qed.

Lemma shr_m_of_loc m l : shr_m (shr_record_of_loc m l) = m.
Proof. by destruct l as [|[]]. Qed.

Lemma nearest_is_near m l : round_nearest_even m l = m \/ round_nearest_even m l = m + 1.
Proof. unfold round_nearest_even. repeat case_match; auto. Qed.

(** ** Rounding to a double *)

(** The exponent a number of that magnitude has. *)
Definition fx (e : Z) : Z := Z.max (e - 53) (-1074).
Definition canonical (m : positive) (e : Z) : Prop := fx (Zpos (digits2_pos m) + e) = e.

Definition made (s : bool) (m : positive) (e : Z) : f64 := if e <=? 971 then S754_finite s m e else S754_infinity s.

Lemma canonical_bound m e : canonical m e -> Zpos m < 2 ^ 53 /\ -1074 <= e /\ (e = -1074 \/ 2 ^ 52 <= Zpos m).
Proof.
  unfold canonical, fx. intros H. pose proof (digits_spec m) as [H1 H2].
  assert (2 ^ Zpos (digits2_pos m) <= 2 ^ 53) by (apply Z.pow_le_mono_r; lia). split_and!; [lia | lia |].
  destruct (Z.eq_dec e (-1074)) as [|Hne]; [by left | right].
  replace (Zpos (digits2_pos m) - 1) with 52 in H1 by lia. exact H1.
Qed.

(** The second normalisation only moves a carry. *)
Lemma second_shift k E :
  0 < k <= 2 ^ 53 -> -1074 <= E -> (E = -1074 \/ 2 ^ 52 <= k) ->
  exists m2 e2, canonical m2 e2 /\ (inject_Z (Zpos m2) * pw e2 == inject_Z k * pw E)%Q /\
    (shr_fexp 53 1024 k E loc_Exact).2 = e2 /\ shr_m (shr_fexp 53 1024 k E loc_Exact).1 = Zpos m2.
Proof.
  intros Hk HE Hn. destruct k as [|k|k]; try lia. unfold shr_fexp. cbn [Zdigits2].
  change (fexp 53 1024 (Zpos (digits2_pos k) + E)) with (fx (Zpos (digits2_pos k) + E)).
  destruct (Z.eq_dec (Zpos k) (2 ^ 53)) as [Hc | Hc].
  - assert (Hd : Zpos (digits2_pos k) = 54) by (apply digits_unique; lia).
    exists (2 ^ 52)%positive, (E + 1). rewrite Hd. replace (fx (54 + E) - E) with 1 by (unfold fx; lia).
    split_and!; [| | |].
    + unfold canonical, fx. replace (Zpos (digits2_pos (2 ^ 52))) with 53 by (vm_compute; reflexivity). lia.
    + rewrite pw_add, Hc. change (inject_Z (2 ^ 53)) with (inject_Z (2 ^ 52 * 2)). rewrite inject_Z_mult. change (pw 1) with (inject_Z 2). 
      change (Zpos (2 ^ 52)) with (2 ^ 52). ring.
    + done.
    + cbn. injection Hc as ->. done.
  - exists k, E. assert (Hd : Zpos (digits2_pos k) <= 53) by (apply digits_le; lia).
    assert (Hf : fx (Zpos (digits2_pos k) + E) = E).
    { unfold fx. destruct Hn as [-> | Hn]; [lia|]. rewrite (digits_unique k 53) by lia. lia. }
    rewrite Hf, Z.sub_diag. done.
Qed.

Lemma round_aux_spec s m e l :
  let E := fx (Zpos (digits2_pos m) + e) in
  e <= E ->
  exists k, (k = Zpos m / 2 ^ (E - e) \/ k = Zpos m / 2 ^ (E - e) + 1) /\ (E = e -> l = loc_Exact -> k = Zpos m) /\ 0 <= k /\
    ((k = 0 /\ binary_round_aux 53 1024 s (Zpos m) e l = S754_zero s) \/
     (exists m2 e2, canonical m2 e2 /\ (inject_Z (Zpos m2) * pw e2 == inject_Z k * pw E)%Q /\
        binary_round_aux 53 1024 s (Zpos m) e l = made s m2 e2)).
Proof.
  intros E HE. unfold binary_round_aux. destruct (shr_fexp 53 1024 (Zpos m) e l) as [r1 e1] eqn:E1.
  unfold shr_fexp in E1. cbn [Zdigits2] in E1. change (fexp 53 1024 (Zpos (digits2_pos m) + e)) with E in E1.
  destruct (shr_div (shr_record_of_loc (Zpos m) l) e (E - e)) as [Hm He]; [lia | by rewrite shr_m_of_loc|].
  rewrite E1, shr_m_of_loc in Hm. rewrite E1 in He. cbn [fst snd] in Hm, He. replace e1 with E in * by lia. clear He.
  set (k := round_nearest_even (shr_m r1) (loc_of_shr_record r1)).
  assert (Hk : k = Zpos m / 2 ^ (E - e) \/ k = Zpos m / 2 ^ (E - e) + 1) by (rewrite <- Hm; apply nearest_is_near).
  assert (Hq : 0 <= Zpos m / 2 ^ (E - e)) by (apply Z.div_pos; lia).
  pose proof (digits_spec m) as [Hd1 Hd2]. set (d := Zpos (digits2_pos m)) in *.
  assert (Hup : Zpos m / 2 ^ (E - e) + 1 <= 2 ^ 53).
  { assert (Zpos m / 2 ^ (E - e) < 2 ^ 53); [|lia]. apply Z.div_lt_upper_bound; [lia|]. rewrite <- Z.pow_add_r by lia.
    eapply Z.lt_le_trans; [exact Hd2|]. apply Z.pow_le_mono_r; unfold E, fx; lia. }
  assert (Hlow : E = -1074 \/ 2 ^ 52 <= k).
  { destruct (Z.eq_dec E (-1074)) as [|Hne]; [by left | right]. assert (2 ^ 52 <= Zpos m / 2 ^ (E - e)); [|lia].
    apply Z.div_le_lower_bound; [lia|]. rewrite <- Z.pow_add_r by lia. etrans; [|exact Hd1]. apply Z.pow_le_mono_r; unfold E, fx in *; lia. }
  exists k. split; [exact Hk|]. split.
  { intros HEe Hl. unfold k. rewrite HEe, Z.sub_diag, Hl in E1. cbn in E1. injection E1 as <-. done. }
  split; [lia|]. destruct (Z.eq_dec k 0) as [Hz | Hnz].
  - left. split; [exact Hz|]. rewrite Hz. unfold shr_fexp. cbn [Zdigits2]. 
    destruct (shr _ E _) as [r2 e2] eqn:E2. pose proof (shr_div (shr_record_of_loc 0 loc_Exact) E (fexp 53 1024 (0 + E) - E)) as Hs.
    destruct (Z.le_gt_cases 0 (fexp 53 1024 (0 + E) - E)) as [Hle | Hgt].
    + destruct Hs as [Hs _]; [lia | done |]. rewrite E2 in Hs. cbn [fst] in Hs. rewrite Hs. cbn [shr_m shr_record_of_loc]. by rewrite Z.div_0_l by lia.
    + destruct (fexp 53 1024 (0 + E) - E); try lia. cbn in E2. by injection E2 as <- <-.
  - right. destruct (second_shift k E) as (m2 & e2 & Hc & Hv & He2 & Hm2); [lia | unfold E, fx; lia | exact Hlow |].
    exists m2, e2. split_and!; [done | done |]. destruct (shr_fexp 53 1024 k E loc_Exact) as [r2 e2']. cbn in He2, Hm2. subst e2'.
    by rewrite Hm2.
Qed.

(** ** What a result is worth *)

Definition ulp : Q := pw (-52).
Definition tiny : Q := pw (-1074).

Definition val (x : f64) : Q :=
  match x with S754_finite s m e => (inject_Z (if s then Zneg m else Zpos m) * pw e)%Q | _ => 0%Q end.

(** The non-negative finite numbers, each in its one representation. *)
Definition number (x : f64) : Prop :=
  match x with
  | S754_zero _ => True
  | S754_finite s m e => s = false /\ canonical m e /\ e <= 971
  | _ => False
  end.

Definition close (X : Q) (v : Q) : Prop := (X - X * ulp - tiny <= v /\ v <= X + X * ulp + tiny)%Q.

(** [x] is the exact [X] rounded: close to it, or infinite where [X] is out of range. *)
Definition rounded (X : Q) (x : f64) : Prop :=
  (number x /\ close X (val x)) \/ (x = S754_infinity false /\ (pw 1000 <= X)%Q).

Lemma rounded_small X x : rounded X x -> (X < pw 1000)%Q -> number x /\ close X (val x).
Proof. intros [? | [_ H]] Hs; [done | lra]. Qed.

#[global] Instance rounded_proper : Proper (Qeq ==> eq ==> iff) rounded.
Proof. intros X X' HX x ? <-. unfold rounded, close. by rewrite HX. Qed.

Lemma val_nonneg x : number x -> (0 <= val x)%Q.
Proof.
  destruct x as [| | |s m e]; cbn; try lra. intros (-> & _). pose proof (pw_pos e).
  assert (0 <= inject_Z (Zpos m))%Q by (rewrite <- (Zle_Qle 0); lia). nra.
Qed.

Lemma pw_numerals : (1 <= pw 1000)%Q /\ (4 * pw 1000 <= pw 1024)%Q /\ (ulp <= 1)%Q /\ (0 < ulp)%Q /\ (0 < tiny)%Q /\ (tiny <= 1)%Q.
Proof.
  split_and!; [apply (pw_le 0); lia | | apply (pw_le _ 0); lia | apply pw_pos | apply pw_pos | apply (pw_le _ 0); lia].
  change 4%Q with (pw 2). rewrite <- pw_add. apply pw_le. lia.
Qed.

Lemma pw_shift a b : a <= b -> (pw b == inject_Z (2 ^ (b - a)) * pw a)%Q.
Proof. intros H. rewrite pw_Z by lia. rewrite <- pw_add. by replace (b - a + a) with b by lia. Qed.

Lemma inject_le a b : a <= b -> (inject_Z a <= inject_Z b)%Q.
Proof. by rewrite Zle_Qle. Qed.

Lemma round_aux_rounded m e l X :
  e <= fx (Zpos (digits2_pos m) + e) ->
  (inject_Z (Zpos m) * pw e <= X)%Q -> (X <= inject_Z (Zpos m + 1) * pw e)%Q ->
  rounded X (binary_round_aux 53 1024 false (Zpos m) e l).
Proof.
  intros HE Hlo Hhi. destruct (round_aux_spec false m e l HE) as (k & Hk & _ & Hk0 & Hres).
  set (E := fx (Zpos (digits2_pos m) + e)) in *. set (q := Zpos m / 2 ^ (E - e)) in *.
  pose proof (pw_pos e) as He. pose proof (pw_pos E) as HpE. destruct pw_numerals as (N1 & N2 & N3 & N4 & N5 & N6).
  assert (Hq1 : (inject_Z q * pw E <= X)%Q).
  { rewrite (pw_shift e E HE), Qmult_assoc, <- inject_Z_mult.
    assert (inject_Z (q * 2 ^ (E - e)) <= inject_Z (Zpos m))%Q; [|nra]. apply inject_le.
    rewrite Z.mul_comm. apply Z.mul_div_le. lia. }
  assert (Hq2 : (X <= inject_Z (q + 1) * pw E)%Q).
  { rewrite (pw_shift e E HE), Qmult_assoc, <- inject_Z_mult.
    assert (inject_Z (Zpos m + 1) <= inject_Z ((q + 1) * 2 ^ (E - e)))%Q; [|nra]. apply inject_le.
    pose proof (Z.mul_succ_div_gt (Zpos m) (2 ^ (E - e)) ltac:(lia)). fold q in H. lia. }
  rewrite inject_Z_plus in Hq2. change (inject_Z 1) with 1%Q in Hq2.
  assert (HX : (0 <= X)%Q).
  { assert (0 <= inject_Z (Zpos m))%Q by (apply (inject_le 0); lia). nra. }
  assert (Hulp : (pw E <= X * ulp + tiny)%Q).
  { destruct (Z.eq_dec E (-1074)) as [Ht | Ht]; [rewrite Ht; fold tiny; nra|].
    assert (pw E <= X * ulp)%Q; [|lra]. assert (HE' : E = Zpos (digits2_pos m) - 1 + e + -52) by (unfold E, fx in *; lia).
    rewrite HE', !pw_add. fold ulp. assert (pw (Zpos (digits2_pos m) - 1) <= inject_Z (Zpos m))%Q.
    { rewrite <- pw_Z by lia. apply inject_le, digits_spec. }
    assert (pw (Zpos (digits2_pos m) - 1) * pw e <= X)%Q; nra. }
  assert (Hc : close X (inject_Z k * pw E)).
  { unfold close. destruct Hk as [-> | ->]; rewrite ?inject_Z_plus; change (inject_Z 1) with 1%Q; split; lra. }
  destruct Hres as [[Hz ->] | (m2 & e2 & Hcan & Hv & ->)].
  - left. split; [done|]. cbn [val]. rewrite Hz in Hc. unfold close in *. change (inject_Z 0) with 0%Q in Hc. lra.
  - unfold made. destruct (Z.leb_spec e2 971) as [Hle | Hgt]; [left | right].
    + split; [done|]. cbn [val]. unfold close in *. lra.
    + split; [done|]. destruct (canonical_bound _ _ Hcan) as (_ & _ & [Hb | Hb]); [lia|].
      assert (pw 1024 <= inject_Z (Zpos m2) * pw e2)%Q.
      { change 1024 with (52 + 972). rewrite pw_add, <- (pw_Z 52) by lia. pose proof (pw_le 972 e2 ltac:(lia)).
        pose proof (inject_le _ _ Hb). pose proof (pw_pos 972). assert (0 <= inject_Z (2 ^ 52))%Q by (apply (inject_le 0); lia). nra. }
      unfold close in Hc. assert (X * ulp <= X)%Q by nra. lra.
Qed.

(** ** The operations *)

Lemma digits_shift d m : Zpos (digits2_pos (shift_pos d m)) = Zpos (digits2_pos m) + Zpos d.
Proof.
  unfold shift_pos. induction d as [|d IH] using Pos.peano_ind; [cbn; lia|].
  rewrite Pos.iter_succ. cbn [digits2_pos]. rewrite Pos2Z.inj_succ, IH. lia.
Qed.

Lemma shift_pos_Z d m : Zpos (shift_pos d m) = 2 ^ Zpos d * Zpos m.
Proof.
  unfold shift_pos. induction d as [|d IH] using Pos.peano_ind; [cbn; lia|].
  rewrite Pos.iter_succ, Pos2Z.inj_succ, Z.pow_succ_r, <- Z.mul_assoc, <- IH by lia. reflexivity.
Qed.

Lemma shl_align_spec m e e0 :
  exists m', shl_align m e e0 = (m', Z.min e e0) /\ Zpos m' = 2 ^ (e - Z.min e e0) * Zpos m /\
    Zpos (digits2_pos m') = Zpos (digits2_pos m) + (e - Z.min e e0).
Proof.
  unfold shl_align. destruct (e0 - e) as [|p|p] eqn:Hd.
  - exists m. replace (Z.min e e0) with e by lia. rewrite Z.sub_diag. split_and!; [done | lia | lia].
  - exists m. replace (Z.min e e0) with e by lia. rewrite Z.sub_diag. split_and!; [done | lia | lia].
  - exists (shift_pos p m). replace (Z.min e e0) with e0 by lia. rewrite digits_shift, shift_pos_Z.
    replace (e - e0) with (Zpos p) by lia. done.
Qed.

Lemma aligned_value m m' e a : a <= e -> Zpos m' = 2 ^ (e - a) * Zpos m -> (inject_Z (Zpos m') * pw a == inject_Z (Zpos m) * pw e)%Q.
Proof. intros Ha ->. rewrite (pw_shift a e Ha), inject_Z_mult. ring. Qed.

Lemma round_rounded m e X : (X == inject_Z (Zpos m) * pw e)%Q -> rounded X (binary_round 53 1024 false m e).
Proof.
  intros HX. unfold binary_round.
  change (fexp 53 1024 (Zpos (digits2_pos m) + e)) with (fx (Zpos (digits2_pos m) + e)).
  destruct (shl_align_spec m e (fx (Zpos (digits2_pos m) + e))) as (m' & -> & Hm & Hd).
  pose proof (aligned_value _ _ _ _ (Z.le_min_l _ _) Hm) as Hv. set (a := Z.min e _) in *.
  pose proof (pw_pos a). apply round_aux_rounded.
  - rewrite Hd. replace (Zpos (digits2_pos m) + (e - a) + a) with (Zpos (digits2_pos m) + e) by lia. lia.
  - lra.
  - rewrite inject_Z_plus. change (inject_Z 1) with 1%Q. lra.
Qed.

Lemma normalize_rounded z e X :
  0 <= z -> (X == inject_Z z * pw e)%Q -> rounded X (binary_normalize 53 1024 z e false).
Proof.
  intros Hz HX. destruct z as [|m|m]; [| by apply round_rounded | lia]. left. split; [done|].
  destruct pw_numerals as (_ & _ & _ & _ & N5 & _). change (inject_Z 0) with 0%Q in HX. unfold close. cbn [val binary_normalize]. 
  assert (X == 0)%Q by lra. nra.
Qed.

Lemma of_rounded z : 0 <= z -> rounded (inject_Z z) (f64_of z).
Proof. intros H. apply normalize_rounded; [done|]. change (pw 0) with 1%Q. ring. Qed.

Lemma mul_digits a b : Zpos (digits2_pos a) + Zpos (digits2_pos b) - 1 <= Zpos (digits2_pos (a * b)).
Proof.
  pose proof (digits_spec a) as [Ha _]. pose proof (digits_spec b) as [Hb _]. pose proof (digits_spec (a * b)) as [_ Hc].
  destruct (Z.le_gt_cases (Zpos (digits2_pos a) + Zpos (digits2_pos b) - 1) (Zpos (digits2_pos (a * b)))) as [|Hg]; [done|].
  assert (2 ^ Zpos (digits2_pos (a * b)) <= 2 ^ ((Zpos (digits2_pos a) - 1) + (Zpos (digits2_pos b) - 1))) as Hp
    by (apply Z.pow_le_mono_r; lia).
  rewrite Z.pow_add_r in Hp by lia. rewrite Pos2Z.inj_mul in Hc. nia.
Qed.

Lemma canonical_digits m e : canonical m e -> e <= 971 -> Zpos (digits2_pos m) = 53 \/ e = -1074.
Proof. unfold canonical, fx. lia. Qed.

Lemma mul_rounded x y : number x -> number y -> rounded (val x * val y) (f64_mul x y).
Proof.
  intros Hx Hy. destruct pw_numerals as (_ & _ & _ & _ & N5 & _).
  assert (Hzero : forall v, (v == 0)%Q -> forall s, rounded v (S754_zero s)).
  { intros v Hv s. left. split; [done|]. unfold close. cbn [val]. nra. }
  destruct x as [sx| | |sx mx ex]; try done; destruct y as [sy| | |sy my ey]; try done; unfold f64_mul; cbn [SFmul val].
  1-3: apply Hzero; cbn; lra.
  destruct Hx as (-> & Hcx & Hlx), Hy as (-> & Hcy & Hly). cbn [xorb].
  assert (Hv : (inject_Z (Zpos mx) * pw ex * (inject_Z (Zpos my) * pw ey) == inject_Z (Zpos (mx * my)) * pw (ex + ey))%Q).
  { rewrite pw_add, Pos2Z.inj_mul, inject_Z_mult. ring. }
  pose proof (pw_pos (ex + ey)). apply round_aux_rounded.
  - pose proof (mul_digits mx my). pose proof (canonical_digits _ _ Hcx Hlx). pose proof (canonical_digits _ _ Hcy Hly).
    unfold canonical, fx in *. lia.
  - lra.
  - rewrite inject_Z_plus. change (inject_Z 1) with 1%Q. lra.
Qed.

Lemma close_self X : (0 <= X)%Q -> close X X.
Proof. destruct pw_numerals as (_ & _ & _ & _ & N5 & _). pose proof (pw_pos (-52)). fold ulp in *. unfold close. split; nra. Qed.

Lemma rounded_self x X : number x -> (X == val x)%Q -> rounded X x.
Proof.
  intros Hx HX. left. split; [done|]. pose proof (val_nonneg x Hx) as Hn. destruct (close_self _ Hn). unfold close in *.
  destruct pw_numerals as (_ & _ & _ & N4 & _). split; nra.
Qed.

Lemma aligned_fst m e e0 : e0 <= e -> (inject_Z (Zpos (shl_align m e e0).1) * pw e0 == inject_Z (Zpos m) * pw e)%Q.
Proof.
  intros H. destruct (shl_align_spec m e e0) as (m' & -> & Hm & _). replace (Z.min e e0) with e0 in * by lia.
  cbn [fst]. by apply aligned_value.
Qed.

Lemma add_rounded x y : number x -> number y -> rounded (val x + val y) (f64_add x y).
Proof.
  intros Hx Hy. destruct x as [sx| | |sx mx ex]; try done; destruct y as [sy| | |sy my ey]; try done; unfold f64_add; cbn [SFadd].
  - destruct sx, sy; (apply rounded_self; [done | cbn; lra]).
  - apply rounded_self; [exact Hy | cbn; lra].
  - apply rounded_self; [exact Hx | cbn; lra].
  - destruct Hx as (-> & _), Hy as (-> & _). cbn [cond_Zopp val]. apply normalize_rounded; [lia|].
    rewrite inject_Z_plus, Qmult_plus_distr_l, !aligned_fst by lia. reflexivity.
Qed.

Lemma sub_rounded x y : number x -> number y -> (val y <= val x)%Q -> rounded (val x - val y) (f64_sub x y).
Proof.
  intros Hx Hy Hle. destruct x as [sx| | |sx mx ex]; try done; destruct y as [sy| | |sy my ey]; try done; unfold f64_sub; cbn [SFsub].
  - destruct sx, sy; (apply rounded_self; [done | cbn; lra]).
  - exfalso. destruct Hy as (-> & _). cbn [val] in Hle. pose proof (pw_pos ey).
    assert (1 <= inject_Z (Zpos my))%Q by (apply (inject_le 1); lia). nra.
  - apply rounded_self; [exact Hx | cbn; lra].
  - destruct Hx as (-> & _), Hy as (-> & _). cbn [cond_Zopp val] in *.
    pose proof (aligned_fst mx ex (Z.min ex ey) (Z.le_min_l _ _)) as Ax. pose proof (aligned_fst my ey (Z.min ex ey) (Z.le_min_r _ _)) as Ay.
    set (a := (shl_align mx ex _).1) in *. set (b := (shl_align my ey _).1) in *. pose proof (pw_pos (Z.min ex ey)) as Hp.
    apply normalize_rounded.
    + assert (inject_Z (Zpos b) <= inject_Z (Zpos a))%Q as H by nra. rewrite <- Zle_Qle in H. lia.
    + unfold Z.sub. rewrite inject_Z_plus, inject_Z_opp, <- Ax, <- Ay. ring.
Qed.

(** The quotient of two numbers, well above the smallest one. *)
Lemma div_rounded x y X :
  number x -> number y -> (0 < val y)%Q -> (X * val y == val x)%Q -> (pw (-1000) <= X)%Q -> rounded X (f64_div x y).
Proof.
  intros Hx Hy Hpos HX Hmin. pose proof (pw_pos (-1000)) as HP.
  destruct y as [sy| | |sy m2 e2]; try done; [].
  destruct x as [sx| | |sx m1 e1]; try done; [cbn [val] in *; nra|].
  destruct Hx as (-> & Hc1 & Hl1), Hy as (-> & Hc2 & Hl2). unfold f64_div. cbn [SFdiv val xorb] in *. unfold SFdiv_core_binary. cbn [Zdigits2].
  set (D := Zpos (digits2_pos m1) + e1 - (Zpos (digits2_pos m2) + e2)).
  change (fexp 53 1024 D) with (fx D). set (e' := Z.min (fx D) (e1 - e2)).
  pose proof (digits_spec m1) as [Hm1 Hm1']. pose proof (digits_spec m2) as [Hm2 Hm2'].
  assert (HD : -1001 <= D).
  { destruct (Z.le_gt_cases (-1001) D) as [|Hlt]; [done|exfalso].
    assert (inject_Z (Zpos m1) * pw e1 <= pw (Zpos (digits2_pos m1) + e1))%Q as U.
    { rewrite pw_add, <- (pw_Z (Zpos _)) by lia. pose proof (pw_pos e1). pose proof (inject_le _ _ (Z.lt_le_incl _ _ Hm1')). nra. }
    assert (pw (Zpos (digits2_pos m2) - 1 + e2) <= inject_Z (Zpos m2) * pw e2)%Q as L.
    { rewrite pw_add, <- (pw_Z (Zpos _ - 1)) by lia. pose proof (pw_pos e2). pose proof (inject_le _ _ Hm2). nra. }
    assert (pw (Zpos (digits2_pos m1) + e1) < pw (-1000) * pw (Zpos (digits2_pos m2) - 1 + e2))%Q as C; [|nra].
    rewrite <- pw_add. pose proof (pw_le (Zpos (digits2_pos m1) + e1 + 1) (-1000 + (Zpos (digits2_pos m2) - 1 + e2)) ltac:(unfold D in *; lia)) as M.
    rewrite (pw_add (_ + e1) 1) in M. change (pw 1) with 2%Q in M. pose proof (pw_pos (Zpos (digits2_pos m1) + e1)). lra. }
  assert (Hs : exists m', (match e1 - e2 - e' with Z0 => Zpos m1 | Zpos _ => Z.shiftl (Zpos m1) (e1 - e2 - e') | Zneg _ => 0 end) = m' /\
                 m' = Zpos m1 * 2 ^ (e1 - e2 - e')).
  { eexists; split; [reflexivity|]. destruct (e1 - e2 - e') eqn:E; [lia | by rewrite Z.shiftl_mul_pow2 by lia | lia]. }
  destruct Hs as (m' & -> & Hm'). set (s := e1 - e2 - e') in *. assert (Hs0 : 0 <= s) by lia.
  destruct (Z.div_eucl m' (Zpos m2)) as [q r] eqn:Hq.
  pose proof (Z_div_mod m' (Zpos m2) ltac:(lia)) as Hqr. rewrite Hq in Hqr. destruct Hqr as [Hqr Hr].
  set (w := Zpos (digits2_pos m1) - 1 + s - Zpos (digits2_pos m2)). assert (Hw : 0 <= w) by (unfold w, s, e', fx, D in *; lia).
  assert (Hql : 2 ^ w <= q).
  { assert (2 ^ w * Zpos m2 <= m').
    { rewrite Hm'. assert (2 ^ w * Zpos m2 <= 2 ^ w * 2 ^ Zpos (digits2_pos m2)) by (apply Z.mul_le_mono_nonneg_l; lia).
      rewrite <- Z.pow_add_r in H by lia. replace (w + Zpos (digits2_pos m2)) with (Zpos (digits2_pos m1) - 1 + s) in H by (unfold w; lia).
      rewrite Z.pow_add_r in H by lia. assert (0 < 2 ^ s) by lia. nia. }
    assert (2 ^ w < q + 1) by nia. lia. }
  assert (Hv : (inject_Z m' * pw e' == X * inject_Z (Zpos m2))%Q).
  { assert (inject_Z m' * pw e' * pw e2 == X * inject_Z (Zpos m2) * pw e2)%Q as E.
    { rewrite <- (Qmult_assoc X), HX, Hm', inject_Z_mult, (pw_Z s Hs0). replace e1 with (s + e' + e2) by (unfold s; lia). rewrite !pw_add. ring. }
    pose proof (pw_pos e2). apply (Qmult_inj_r _ _ (pw e2)); [|exact E]. intros C. rewrite C in *. lra. }
  destruct q as [|q|q]; [lia | | lia]. pose proof (pw_pos e') as He'.
  assert (H2 : (0 < inject_Z (Zpos m2))%Q) by done.
  apply round_aux_rounded.
  - pose proof (digits_spec q) as [_ Hd]. assert (w < Zpos (digits2_pos q)) by (apply (Z.pow_lt_mono_r_iff 2); lia).
    unfold e', fx, w, s, D in *. lia.
  - assert (inject_Z (Zpos q) * inject_Z (Zpos m2) <= inject_Z m')%Q as H by (rewrite <- inject_Z_mult; apply inject_le; lia).
    apply (Qmult_le_r _ _ (inject_Z (Zpos m2)) H2). rewrite <- Hv. nra.
  - assert (inject_Z m' <= inject_Z (Zpos q + 1) * inject_Z (Zpos m2))%Q as H by (rewrite <- inject_Z_mult; apply inject_le; lia).
    apply (Qmult_le_r _ _ (inject_Z (Zpos m2)) H2). rewrite <- Hv. nra.
Qed.

(** A small integer is a number exactly. *)
Lemma of_exact z : 0 <= z < 2 ^ 53 -> number (f64_of z) /\ (val (f64_of z) == inject_Z z)%Q.
Proof.
  intros Hz. destruct z as [|m|m]; [by split| |lia]. unfold f64_of, binary_normalize, binary_round.
  change (fexp 53 1024 (Zpos (digits2_pos m) + 0)) with (fx (Zpos (digits2_pos m) + 0)).
  pose proof (digits_le m 53 ltac:(lia) ltac:(lia)) as Hd.
  destruct (shl_align_spec m 0 (fx (Zpos (digits2_pos m) + 0))) as (m' & -> & Hm & Hdm).
  pose proof (aligned_value _ _ _ _ (Z.le_min_l _ _) Hm) as Hv. set (a := Z.min 0 _) in *.
  assert (Ha : a = Zpos (digits2_pos m) - 53) by (unfold a, fx; lia). clearbody a.
  change (pw 0) with 1%Q in Hv.
  destruct (round_aux_spec false m' a loc_Exact) as (k & _ & Hk & _ & Hres); [unfold fx; lia|].
  rewrite (Hk ltac:(unfold fx; lia) eq_refl) in Hres.
  replace (fx (Zpos (digits2_pos m') + a)) with a in Hres by (unfold fx; lia).
  destruct Hres as [[Hres _] | (m2 & e2 & Hc & Hm2 & ->)]; [lia|]. unfold made.
  destruct (Z.leb_spec e2 971) as [Hle | Hgt]; [split; [done | cbn [val]; lra]|]. exfalso.
  assert (inject_Z (Zpos m) <= pw 53)%Q as U by (rewrite <- (pw_Z 53) by lia; apply inject_le; lia).
  pose proof (pw_le 53 972 ltac:(lia)). pose proof (pw_le 972 e2 ltac:(lia)). pose proof (pw_pos e2).
  assert (pw 53 < pw 972)%Q.
  { pose proof (pw_le 54 972 ltac:(lia)) as M. change 54 with (53 + 1) in M. rewrite pw_add in M. change (pw 1) with 2%Q in M. pose proof (pw_pos 53). lra. }
  assert (1 <= inject_Z (Zpos m2))%Q by (apply (inject_le 1); lia). nra.
Qed.

(** ** The order *)

Lemma finite_order m e m' e' :
  canonical m e -> canonical m' e' -> e < e' \/ (e = e' /\ (m < m')%positive) ->
  (inject_Z (Zpos m) * pw e < inject_Z (Zpos m') * pw e')%Q.
Proof.
  intros Hc Hc' Ho. pose proof (pw_pos e) as He. destruct Ho as [Hlt | [<- Hm]].
  - destruct (canonical_bound _ _ Hc) as (Hb & Hb2 & _). destruct (canonical_bound _ _ Hc') as (_ & _ & [Hb' | Hb']); [lia|].
    assert (pw (53 + e) <= inject_Z (Zpos m') * pw e')%Q.
    { replace (53 + e) with (52 + (1 + e)) by lia. rewrite pw_add, <- (pw_Z 52) by lia. pose proof (pw_le (1 + e) e' ltac:(lia)).
      pose proof (inject_le _ _ Hb'). pose proof (pw_pos (1 + e)). assert (0 <= inject_Z (2 ^ 52))%Q by done. nra. }
    assert (inject_Z (Zpos m) + 1 <= pw 53)%Q. { rewrite <- (pw_Z 53) by lia. change 1%Q with (inject_Z 1). rewrite <- inject_Z_plus. apply inject_le. lia. }
    rewrite pw_add in *. nra.
  - assert (inject_Z (Zpos m) + 1 <= inject_Z (Zpos m'))%Q. { change 1%Q with (inject_Z 1). rewrite <- inject_Z_plus. apply inject_le. lia. } nra.
Qed.

Lemma flt_numbers x y : number x -> number y -> flt x y = true <-> (val x < val y)%Q.
Proof.
  intros Hx Hy. rewrite flt_spec. destruct x as [sx| | |sx m e]; try done; destruct y as [sy| | |sy m' e']; try done; cbn [is_nan rank val lex_lt].
  - split; [intros (_ & _ & L) | intros L; exfalso; lra]. unfold lex_lt in L; cbn in L; lia.
  - destruct Hy as (-> & _ & _). pose proof (pw_pos e'). assert (1 <= inject_Z (Zpos m'))%Q by (apply (inject_le 1); lia).
    split; [intros _; nra | intros _; split_and!; [done | done |]]. unfold lex_lt; cbn; lia.
  - destruct Hx as (-> & _ & _). pose proof (pw_pos e). assert (1 <= inject_Z (Zpos m))%Q by (apply (inject_le 1); lia).
    split; [intros (_ & _ & L); unfold lex_lt in L; cbn in L; lia | intros L; exfalso; nra].
  - destruct Hx as (-> & Hc & _), Hy as (-> & Hc' & _). unfold lex_lt. cbn [fst snd]. split.
    + intros (_ & _ & H). apply finite_order; [done | done | lia].
    + intros H. split_and!; [done | done |]. destruct (Z.lt_trichotomy e e') as [Hl | [-> | Hg]]; [lia | |].
      * destruct (Pos.lt_total m m') as [Hm | [-> | Hm]]; [lia | lra |]. 
        pose proof (finite_order m' e' m e' Hc' Hc ltac:(right; done)). lra.
      * pose proof (finite_order m' e' m e Hc' Hc ltac:(by left)). lra.
Qed.

Lemma fle_numbers x y : number x -> number y -> fle x y = true <-> (val x <= val y)%Q.
Proof.
  intros Hx Hy. assert (fle x y = negb (flt y x)) as ->.
  { apply eq_bool_prop_intro. rewrite negb_True, !Is_true_true, fle_spec, flt_spec.
    assert (is_nan x = false) by (by destruct x). assert (is_nan y = false) by (by destruct y).
    destruct (rank x) as [[a b] c], (rank y) as [[a' b'] c']. unfold lex_lt; cbn [fst snd]. split.
    - intros (_ & _ & [Eq | L]) (_ & _ & G); [injection Eq as -> -> ->|]; lia.
    - intros N. split_and!; [done | done |].
      destruct (decide ((a, b, c) = (a', b', c'))) as [|Ne]; [by left | right]. destruct (Z.eq_dec a a'), (Z.eq_dec b b'), (Z.eq_dec c c'); subst; try done;
        (apply dec_stable; intros G; apply N; split_and!; [done | done | lia]). }
  rewrite negb_true_iff, <- not_true_iff_false, (flt_numbers y x Hy Hx). split; lra.
Qed.

Lemma fmin_numbers x y :
  number x -> number y -> number (fmin x y) /\ (val (fmin x y) <= val x)%Q /\ (val (fmin x y) <= val y)%Q /\ (fmin x y = x \/ fmin x y = y).
Proof.
  intros Hx Hy. assert (is_nan x = false) as Nx by (by destruct x). assert (is_nan y = false) as Ny by (by destruct y).
  unfold fmin. rewrite Nx, Ny. destruct (flt y x) eqn:E.
  - apply flt_numbers in E; [|done..]. split_and!; [done | lra | lra | by right].
  - apply not_true_iff_false in E. rewrite (flt_numbers y x Hy Hx) in E. split_and!; [done | lra | lra | by left].
Qed.
