(* ===== verification/Limiter.v ===== *)
(** * The rate limiter of a control stream

    [RateLimiter] of [crates/pickle-server/src/session.rs], in the double-precision arithmetic
    the source uses, and the stream of control frames it lets through.  Instants are counted in
    nanoseconds. *)

From S2P Require Export Rounding Session.

Record RateLimiter : Type := mkLimiter { capacity : f64; tokens : f64; per_second : f64; last_instant : Z }.

Definition limiter_new (now : Z) (rate : Z) : RateLimiter :=
  mkLimiter (f64_of rate) (f64_of rate) (f64_of rate) now.

(** [Instant::duration_since] saturates at zero; a duration is its whole seconds and the
    nanoseconds below one, [as_secs_f64] their sum in seconds. *)
Definition duration_since (now earlier : Z) : Z := Z.max 0 (now - earlier).
Definition as_secs_f64 (d : Z) : f64 :=
  f64_add (f64_of (d / 10 ^ 9)) (f64_div (f64_of (d mod 10 ^ 9)) (f64_of (10 ^ 9))).

Definition limiter_allow (now : Z) (l : RateLimiter) : bool * RateLimiter :=
  let elapsed := as_secs_f64 (duration_since now (last_instant l)) in
  let filled := fmin (f64_add (tokens l) (f64_mul elapsed (per_second l))) (capacity l) in
  if fle (f64_of 1) filled
  then (true, mkLimiter (capacity l) (f64_sub filled (f64_of 1)) (per_second l) now)
  else (false, mkLimiter (capacity l) filled (per_second l) now).

(** The frames of a stream as [control_loop] sees them, each with the instant it is read at. *)
Fixpoint limited {A} (l : RateLimiter) (arrivals : list (Z * A)) : list (bool * A) :=
  match arrivals with
  | [] => []
  | (now, m) :: rest => let '(ok, l') := limiter_allow now l in (ok, m) :: limited l' rest
  end.

Definition rate_limited (started : Z) (arrivals : list (Z * ClientControl)) : list (bool * ClientControl) :=
  limited (limiter_new started CONTROL_RATE_LIMIT) arrivals.

Definition admitted {A} (answers : list (bool * A)) : Z := Z.of_nat (length (filter (fun a => a.1 = true) answers)).

(** Seconds, exactly. *)
Definition seconds (d : Z) : Q := (inject_Z d / inject_Z (10 ^ 9))%Q.

(** ** The arithmetic *)

Lemma seconds_nonneg d : 0 <= d -> (0 <= seconds d)%Q.
Proof. intros H. apply Qle_shift_div_l; [done|]. rewrite Qmult_0_l. by apply (inject_le 0). Qed.

Lemma seconds_spec d : (seconds d * inject_Z (10 ^ 9) == inject_Z d)%Q.
Proof. unfold seconds. field. done. Qed.

Lemma below_huge X n : n < 1000 -> (X <= pw n)%Q -> (X < pw 1000)%Q.
Proof.
  intros Hn H. pose proof (pw_le n 999 ltac:(lia)). pose proof (pw_pos 999).
  assert (pw 1000 == 2 * pw 999)%Q as -> by (change 1000 with (1 + 999); by rewrite pw_add). lra.
Qed.

Lemma dust : (pw 64 * tiny <= pw (-20) * ulp)%Q /\ (ulp <= pw (-52))%Q.
Proof. unfold tiny, ulp. rewrite <- !pw_add. split; apply pw_le; lia. Qed.

Lemma tiny_ulp : (tiny <= ulp * (1 # 1048576))%Q.
Proof.
  destruct dust as [D _]. assert (pw (-20) == 1 # 1048576)%Q as P by (by vm_compute). assert (1 <= pw 64)%Q by (by vm_compute).
  destruct pw_numerals as (_ & _ & _ & _ & N5 & _). rewrite P in D. nra.
Qed.

Lemma small_ulp : (ulp == 1 # 4503599627370496)%Q.
Proof. by vm_compute. Qed.

Lemma nanos_rounded n : 0 <= n < 10 ^ 9 -> rounded (seconds n) (f64_div (f64_of n) (f64_of (10 ^ 9))).
Proof.
  intros Hn. destruct (of_exact n ltac:(lia)) as [Nn Vn]. destruct (of_exact (10 ^ 9) ltac:(lia)) as [Nd Vd].
  destruct (Z.eq_dec n 0) as [-> | Hne]; [apply rounded_self; [done | by vm_compute]|].
  apply div_rounded; [done | done | | |].
  - rewrite Vd. done.
  - rewrite Vd, Vn. apply seconds_spec.
  - apply (Qle_trans _ (pw (-30))); [apply pw_le; lia|]. apply Qle_shift_div_l; [done|].
    apply (Qle_trans _ (inject_Z 1)); [by vm_compute | apply inject_le; lia].
Qed.

Lemma as_secs_close d :
  0 <= d < 2 ^ 64 * 10 ^ 9 ->
  number (as_secs_f64 d) /\
  (seconds d - (3 * seconds d * ulp + 5 * tiny) <= val (as_secs_f64 d) <= seconds d + (3 * seconds d * ulp + 5 * tiny))%Q.
Proof.
  intros Hd. destruct pw_numerals as (_ & _ & N3 & N4 & N5 & N6). unfold as_secs_f64.
  assert (Hs : 0 <= d / 10 ^ 9 < 2 ^ 64) by (split; [apply Z.div_pos | apply Z.div_lt_upper_bound]; lia).
  assert (Hn : 0 <= d mod 10 ^ 9 < 10 ^ 9) by (apply Z.mod_pos_bound; lia).
  assert (Hsplit : (seconds d == inject_Z (d / 10 ^ 9) + seconds (d mod 10 ^ 9))%Q).
  { apply (Qmult_inj_r _ _ (inject_Z (10 ^ 9))); [done|]. rewrite Qmult_plus_distr_l, !seconds_spec, <- inject_Z_mult, <- inject_Z_plus.
    rewrite (Z.div_mod d (10 ^ 9)) at 1 by lia. by rewrite (Z.mul_comm (10 ^ 9)). }
  pose proof (inject_le 0 _ (proj1 Hs)) as S0. change (inject_Z 0) with 0%Q in S0.
  pose proof (seconds_nonneg _ (proj1 Hn)) as F0.
  assert (S1 : (inject_Z (d / 10 ^ 9) <= pw 64)%Q) by (rewrite <- pw_Z by lia; apply inject_le; lia).
  assert (F1 : (seconds (d mod 10 ^ 9) <= pw 0)%Q).
  { apply Qle_shift_div_r; [done|]. change (pw 0) with 1%Q. rewrite Qmult_1_l. apply inject_le. lia. }
  destruct (rounded_small _ _ (of_rounded _ (proj1 Hs))) as [Ns Cs]; [by apply (below_huge _ 64)|].
  destruct (rounded_small _ _ (nanos_rounded _ Hn)) as [Nf Cf]; [by apply (below_huge _ 0)|].
  pose proof (val_nonneg _ Ns) as Vs0. pose proof (val_nonneg _ Nf) as Vf0.
  set (S := inject_Z (d / 10 ^ 9)) in *. set (F := seconds (d mod 10 ^ 9)) in *.
  set (s := val (f64_of (d / 10 ^ 9))) in *. set (f := val (f64_div (f64_of (d mod 10 ^ 9)) (f64_of (10 ^ 9)))) in *. unfold close in Cs, Cf.
  pose proof small_ulp as U. assert (2 * pw 64 <= pw 65)%Q by (by vm_compute). change (pw 0) with 1%Q in F1. assert (1 <= pw 64)%Q by (by vm_compute).
  destruct (rounded_small _ _ (add_rounded _ _ Ns Nf)) as [Na Ca].
  - fold s f. apply (below_huge _ 70); [lia|]. assert (pw 70 == 32 * pw 65)%Q as -> by (by vm_compute). rewrite U in *. lra.
  - split; [done|]. unfold close in Ca. fold s f in Ca. set (a := val (f64_add (f64_of (d / 10 ^ 9)) _)) in *. rewrite Hsplit, U in *. split; lra.
Qed.

(** ** One message *)

Section Limiter.
Context (rate : Z) (Hrate : 1 <= rate < 2 ^ 32).

Lemma rate_bounds : (1 <= inject_Z rate)%Q /\ (inject_Z rate <= pw 32)%Q.
Proof. split; [apply (inject_le 1); lia|]. rewrite <- (pw_Z 32) by lia. apply inject_le. lia. Qed.

(** What every limiter of that rate looks like, whatever it has been through. *)
Record limiter_ok (l : RateLimiter) : Prop := {
  ok_capacity : capacity l = f64_of rate;
  ok_rate : per_second l = f64_of rate;
  ok_tokens : number (tokens l);
  ok_full : (val (tokens l) <= inject_Z rate)%Q
}.

Lemma limiter_new_ok now : limiter_ok (limiter_new now rate).
Proof.
  destruct (of_exact rate ltac:(lia)) as [Nr Vr]. split; cbn; [done | done | done |]. rewrite Vr. lra.
Qed.

(** The tokens the wait earns, before and after they are added to those left. *)
Definition earned (wait : Z) (l : RateLimiter) : f64 := f64_mul (as_secs_f64 wait) (per_second l).

Lemma earned_close wait l :
  limiter_ok l -> 0 <= wait < 2 ^ 64 * 10 ^ 9 ->
  let X := (inject_Z rate * seconds wait)%Q in
  number (earned wait l) /\ (X - (5 * X * ulp + ulp * (1 # 16)) <= val (earned wait l) <= X + (5 * X * ulp + ulp * (1 # 16)))%Q /\ (X <= pw 96)%Q.
Proof.
  intros Hl Hw X. destruct (as_secs_close wait Hw) as [Ne Ce]. destruct (of_exact rate ltac:(lia)) as [Nr Vr].
  destruct pw_numerals as (_ & _ & N3 & N4 & N5 & N6). pose proof (seconds_nonneg wait ltac:(lia)) as S0.
  pose proof small_ulp as U. destruct dust as [Dust _].
  assert (S1 : (seconds wait <= pw 64)%Q).
  { apply Qle_shift_div_r; [done|]. rewrite <- (pw_Z 64), <- inject_Z_mult by lia. apply inject_le. lia. }
  destruct rate_bounds as [R0 R1].
  assert (X1 : (X <= pw 96)%Q). { change 96 with (32 + 64). rewrite pw_add. unfold X. apply Qmult_le_compat_nonneg; lra. }
  assert (X0 : (0 <= X)%Q) by (unfold X; nra). pose proof (val_nonneg _ Ne) as V0.
  set (v := val (as_secs_f64 wait)) in *.
  assert (D1 : (5 * tiny * inject_Z rate <= ulp * (1 # 1024))%Q).
  { assert (tiny * inject_Z rate <= pw (-20) * ulp)%Q; [|assert (pw (-20) == 1 # 1048576)%Q as P by (by vm_compute); rewrite P, U in *; lra].
    eapply Qle_trans; [|exact Dust]. rewrite Qmult_comm. apply Qmult_le_compat_r; [|lra]. eapply Qle_trans; [exact R1|]. apply pw_le. lia. }
  assert (B1 : (v * inject_Z rate <= X + (3 * X * ulp + ulp * (1 # 1024)))%Q) by (unfold X; nra).
  assert (B2 : (X - (3 * X * ulp + ulp * (1 # 1024)) <= v * inject_Z rate)%Q) by (unfold X; nra).
  assert (Hm : rounded (v * inject_Z rate) (earned wait l)).
  { unfold earned. rewrite (ok_rate l Hl). pose proof (mul_rounded _ _ Ne Nr) as M. fold v in M. 
    unfold rounded, close in *. by rewrite Vr in M. }
  destruct (rounded_small _ _ Hm) as [Nm Cm].
  { apply (below_huge _ 98); [lia|]. assert (pw 98 == 4 * pw 96)%Q as -> by (by vm_compute). assert (1 <= pw 96)%Q by (by vm_compute). rewrite U in *. lra. }
  split; [done|]. split; [|done]. unfold close in Cm. 
  pose proof tiny_ulp as T.
  set (w := val (earned wait l)) in *. rewrite U in *. split; lra.
Qed.

Definition filled (wait : Z) (l : RateLimiter) : f64 := fmin (f64_add (tokens l) (earned wait l)) (capacity l).

Lemma filled_close wait l :
  limiter_ok l -> 0 <= wait < 2 ^ 64 * 10 ^ 9 ->
  let X := (inject_Z rate * seconds wait)%Q in
  number (filled wait l) /\ (val (filled wait l) <= inject_Z rate)%Q /\
  (val (filled wait l) <= val (tokens l) + X + (15 * X * ulp + 2 * inject_Z rate * ulp))%Q /\
  ((2 <= X)%Q -> (1 <= val (filled wait l))%Q).
Proof.
  intros Hl Hw X. destruct (earned_close wait l Hl Hw) as (Ne & [El Eh] & EX). fold X in El, Eh, EX.
  destruct (of_exact rate ltac:(lia)) as [Nr Vr]. pose proof (ok_tokens l Hl) as Nt. pose proof (ok_full l Hl) as Ht.
  destruct pw_numerals as (_ & _ & N3 & N4 & N5 & N6). pose proof small_ulp as U. destruct dust as [Dust _].
  pose proof tiny_ulp as T.
  destruct rate_bounds as [R0 R1].
  pose proof (val_nonneg _ Nt) as T0. pose proof (val_nonneg _ Ne) as E0.
  assert (X0 : (0 <= X)%Q) by (unfold X; pose proof (seconds_nonneg wait ltac:(lia)); nra).
  destruct (rounded_small _ _ (add_rounded _ _ Nt Ne)) as [Na Ca].
  { apply (below_huge _ 98); [lia|]. assert (pw 98 == 4 * pw 96)%Q as -> by (by vm_compute). assert (1 <= pw 96)%Q by (by vm_compute).
    assert (pw 32 <= pw 96)%Q by (apply pw_le; lia). rewrite U in *. lra. }
  unfold filled. rewrite (ok_capacity l Hl). destruct (fmin_numbers _ _ Na Nr) as (Nm & M1 & M2 & M3). rewrite Vr in M2.
  unfold close in Ca. set (a := f64_add (tokens l) (earned wait l)) in *. set (e := val (earned wait l)) in *. set (t := val (tokens l)) in *.
  split; [done|]. split; [done|]. split.
  - eapply Qle_trans; [exact M1|]. rewrite U in *. lra.
  - intros H2. destruct M3 as [-> | ->]; [|by rewrite Vr]. rewrite U in *. lra.
Qed.

Lemma limiter_allow_spec now l :
  limiter_ok l -> 0 <= now - last_instant l < 2 ^ 64 * 10 ^ 9 ->
  let X := (inject_Z rate * seconds (now - last_instant l))%Q in
  let '(ok, l') := limiter_allow now l in
  limiter_ok l' /\ last_instant l' = now /\
  ((if ok then 1 else 0) + val (tokens l') <= val (tokens l) + X + (X * (16 * ulp) + inject_Z rate * (4 * ulp)))%Q /\
  ((2 <= X)%Q -> ok = true).
Proof.
  intros Hl Hw X. unfold limiter_allow, duration_since. replace (Z.max 0 (now - last_instant l)) with (now - last_instant l) by lia.
  destruct (filled_close _ l Hl Hw) as (Nf & F1 & F2 & F3). fold X in F2, F3. 
  change (fmin _ (capacity l)) with (filled (now - last_instant l) l). set (f := filled _ l) in *.
  destruct (of_exact 1 ltac:(lia)) as [N1 V1]. pose proof (fle_numbers _ _ N1 Nf) as Hle. rewrite V1 in Hle. change (inject_Z 1) with 1%Q in Hle.
  destruct pw_numerals as (_ & _ & M3 & M4 & M5 & M6). pose proof small_ulp as U. destruct dust as [Dust _].
  pose proof tiny_ulp as T.
  destruct rate_bounds as [R0 R1].
  assert (X0 : (0 <= X)%Q) by (unfold X; pose proof (seconds_nonneg (now - last_instant l) ltac:(lia)); nra).
  destruct (fle (f64_of 1) f) eqn:E.
  - pose proof (proj1 Hle eq_refl) as G. destruct (rounded_small _ _ (sub_rounded f (f64_of 1) Nf N1 ltac:(rewrite V1; exact G))) as [Ns Cs].
    { apply (below_huge _ 32); [lia|]. rewrite V1. change (inject_Z 1) with 1%Q. lra. }
    unfold close in Cs. rewrite V1 in Cs. change (inject_Z 1) with 1%Q in Cs.
    set (v := val (f64_sub f (f64_of 1))) in *. split; [split; cbn [capacity per_second tokens last_instant]; try apply Hl; [done|]|].
    + fold v. rewrite U in *. destruct Cs as [_ Cs].
      assert (inject_Z rate <= 4294967296)%Q by (assert (pw 32 == 4294967296)%Q as P by (by vm_compute); lra). lra.
    + split; [done|]. split; [|done]. cbn [tokens]. fold v. rewrite U in *. lra.
  - split; [split; cbn [capacity per_second tokens last_instant]; try apply Hl; done|]. split; [done|]. cbn [tokens]. split; [rewrite U in *; lra|].
    intros H2. exfalso. specialize (F3 H2). by apply Hle in F3.
Qed.

(** ** A stream *)

Context {A : Type}.

Fixpoint in_order (t : Z) (arrivals : list (Z * A)) : Prop :=
  match arrivals with
  | [] => True
  | (now, _) :: rest => 0 <= now - t < 2 ^ 64 * 10 ^ 9 /\ in_order now rest
  end.

Fixpoint last_arrival (t : Z) (arrivals : list (Z * A)) : Z :=
  match arrivals with [] => t | (now, _) :: rest => last_arrival now rest end.

Lemma limited_messages l (arrivals : list (Z * A)) : (limited l arrivals).*2 = arrivals.*2.
Proof. revert l; induction arrivals as [|[now m] rest IH]; intros l; [done|]. cbn. destruct (limiter_allow now l). cbn. by rewrite IH. Qed.

Lemma admitted_cons ok (m : A) answers : admitted ((ok, m) :: answers) = (if ok : bool then 1 else 0) + admitted answers.
Proof. unfold admitted. destruct ok; [by rewrite filter_cons_True, length_cons by done; lia | by rewrite filter_cons_False by done]. Qed.

Lemma seconds_plus a b : (seconds (a + b) == seconds a + seconds b)%Q.
Proof. unfold seconds. rewrite inject_Z_plus. field. done. Qed.

(** Over a stream: the tokens held, what the time brings, and a rounding error per message. *)
Lemma limited_bound l (arrivals : list (Z * A)) :
  limiter_ok l -> in_order (last_instant l) arrivals ->
  let span := last_arrival (last_instant l) arrivals - last_instant l in
  let X := (inject_Z rate * seconds span)%Q in
  (inject_Z (admitted (limited l arrivals)) <=
     val (tokens l) + X + (X * (16 * ulp) + inject_Z (Z.of_nat (length arrivals)) * (inject_Z rate * (4 * ulp))))%Q.
Proof.
  revert l; induction arrivals as [|[now m] rest IH]; intros l Hl Ho.
  - cbn [last_arrival limited length]. rewrite Z.sub_diag. pose proof (val_nonneg _ (ok_tokens l Hl)).
    change (inject_Z (admitted [])) with 0%Q. change (inject_Z (Z.of_nat 0)) with 0%Q. assert (seconds 0 == 0)%Q as -> by (by vm_compute). lra.
  - cbn [in_order last_arrival limited] in *. destruct Ho as [Hw Ho]. pose proof (limiter_allow_spec now l Hl Hw) as Hs.
    destruct (limiter_allow now l) as [ok l']. destruct Hs as (Hl' & Ht & Hb & _). subst now.
    specialize (IH l' Hl' Ho). cbv zeta in IH |- *. rewrite admitted_cons, length_cons, Nat2Z.inj_succ, <- Z.add_1_l, !inject_Z_plus.
    replace (last_arrival (last_instant l') rest - last_instant l)
      with ((last_instant l' - last_instant l) + (last_arrival (last_instant l') rest - last_instant l')) by lia.
    rewrite seconds_plus. assert (inject_Z (if ok then 1 else 0) == if ok then 1 else 0)%Q as -> by (by destruct ok).
    set (a := seconds (last_instant l' - _)) in *. set (b := seconds _) in *. change (inject_Z 1) with 1%Q.
    pose proof small_ulp as U. set (n := inject_Z (Z.of_nat _)) in *. set (c := inject_Z (admitted _)) in *. set (r := inject_Z rate) in *. set (o := (if ok then 1 else 0)%Q) in *.
    rewrite U in *. lra.
Qed.

(** One message after a pause. *)
Lemma limited_pause l before now (m : A) after :
  limiter_ok l -> in_order (last_instant l) (before ++ (now, m) :: after) ->
  (2 <= inject_Z rate * seconds (now - last_arrival (last_instant l) before))%Q ->
  limited l (before ++ (now, m) :: after) !! length before = Some (true, m).
Proof.
  revert l; induction before as [|[t a] before IH]; intros l Hl Ho Hp; cbn [app in_order last_arrival limited length] in *; destruct Ho as [Hw Ho].
  - pose proof (limiter_allow_spec now l Hl Hw) as Hs. destruct (limiter_allow now l) as [ok l']. destruct Hs as (_ & _ & _ & Hs).
    by rewrite (Hs Hp).
  - pose proof (limiter_allow_spec t l Hl Hw) as Hs. destruct (limiter_allow t l) as [ok l']. destruct Hs as (Hl' & Ht & _). subst t.
    cbn [lookup list_lookup]. by apply IH.
Qed.
End Limiter.

(** C15: A client's control stream is held to its rate and heard within it, in the floating point
    the source computes with.  Of the messages of a stream, arriving whenever they do, those
    let through to a handler are at most the burst of 30, plus 30 for each second the stream
    lasts, up to a rounding error of one part in 2^48 and a 2^-45 part of a message each.  A
    message that follows a pause of a fifteenth of a second is let through, whatever came
    before, and every message gets an answer, in order. *)
Theorem a_stream_is_held_to_its_rate started (arrivals : list (Z * ClientControl)) :
  in_order started arrivals ->
  let span := last_arrival started arrivals - started in
  let answers := rate_limited started arrivals in
  (inject_Z (admitted answers) <= 30 + 30 * seconds span * (1 + pw (-48)) + inject_Z (Z.of_nat (length arrivals)) * pw (-45))%Q /\
  answers.*2 = arrivals.*2 /\
  (forall before now m after, arrivals = before ++ (now, m) :: after ->
     10 ^ 9 <= 15 * (now - last_arrival started before) -> answers !! length before = Some (true, m)).
Proof.
  intros Ho span answers. assert (Hr : 1 <= CONTROL_RATE_LIMIT < 2 ^ 32) by (unfold CONTROL_RATE_LIMIT; lia).
  pose proof (limiter_new_ok CONTROL_RATE_LIMIT Hr started) as Hl. split_and!; [| apply limited_messages |].
  - pose proof (limited_bound _ Hr _ arrivals Hl Ho) as Hb. cbn [last_instant limiter_new] in Hb. fold span in Hb.
    change (limited _ arrivals) with answers in Hb. pose proof (ok_full _ _ Hl) as Hf.
    change (inject_Z CONTROL_RATE_LIMIT) with 30%Q in *. pose proof small_ulp as U.
    assert (pw (-48) == 1 # 281474976710656)%Q as -> by (by vm_compute). assert (pw (-45) == 1 # 35184372088832)%Q as -> by (by vm_compute).
    assert (0 <= inject_Z (Z.of_nat (length arrivals)))%Q by (apply (inject_le 0); lia). rewrite U in *. lra.
  - intros before now m after -> Hp. apply (limited_pause CONTROL_RATE_LIMIT Hr); [done | done |]. cbn [last_instant limiter_new].
    apply (Qmult_le_r _ _ (inject_Z (10 ^ 9))); [done|]. rewrite <- Qmult_assoc, seconds_spec. rewrite <- (inject_Z_mult 2), <- inject_Z_mult.
    apply inject_le. unfold CONTROL_RATE_LIMIT. lia.
Qed.

(** Thirty-one messages at once, and one a fifteenth of a second later. *)
Definition burst : list (Z * ClientControl) := replicate 31 (10, CPing 0) ++ [(10 + 66666667, CPing 1)].

Lemma a_stream_is_held_to_its_rate_witness :
  in_order 0 burst /\ (rate_limited 0 burst).*1 = replicate 30 true ++ [false; true] /\
  rate_limited 0 burst !! 31%nat = Some (true, CPing 1).
Proof.
  assert (H : in_order 0 burst) by (cbn; repeat split; lia).
  split; [exact H|]. split; [vm_compute; reflexivity|]. destruct (a_stream_is_held_to_its_rate 0 burst H) as (_ & _ & Hp).
  apply (Hp (replicate 31 (10, CPing 0)) (10 + 66666667) (CPing 1) []); [reflexivity | vm_compute; intuition congruence].
Defined.
