(* ===== verification/Vad.v ===== *)
(** * The voice gate ([crates/pickle-audio/src/vad.rs])

    A level gate with hysteresis and hangover, one [Activity] per 20 ms frame.  What it
    promises its listeners is a grammar of bursts ([bursts]), and what it promises the speaker
    is that a steady level never makes it chatter ([answer_to]). *)

From S2P Require Export Floats Voice.

Definition DEFAULT_OPEN_DBFS : f32 := f32_of (-40).
Definition DEFAULT_CLOSE_DBFS : f32 := f32_of (-50).
Definition DEFAULT_HANGOVER_MS : Z := 300.

Inductive Activity : Type := Silent | BurstStart | Speaking | BurstEnd.

#[global] Instance Activity_eq_dec : EqDecision Activity.
Proof. solve_decision. Defined.

Definition should_transmit (a : Activity) : bool := match a with Silent => false | _ => true end.

Definition activity_flags (a : Activity) : Z :=
  match a with BurstStart => FLAG_BURST_START | BurstEnd => FLAG_BURST_END | _ => 0 end.

Inductive GateMode : Type := VoiceActivity | PushToTalk | Continuous.

#[global] Instance GateMode_eq_dec : EqDecision GateMode.
Proof. solve_decision. Defined.

Definition div_ceil (a b : Z) : Z := (a + b - 1) / b.

Section VoiceGate.
Context {M : Libm}.

(** The level of a frame, 0 dB at full scale. *)
Definition rms_dbfs (pcm : list f32) : f32 :=
  match pcm with
  | [] => NEG_INFINITY
  | _ =>
      let sum_squares := f64_sum (map (fun s => f64_mul (widen s) (widen s)) pcm) in
      let rms := f64_sqrt (f64_div sum_squares (f64_of (Z.of_nat (length pcm)))) in
      if fle rms (f64_of 0) then NEG_INFINITY else f32_mul (f32_of 20) (narrow (f64_log10 rms))
  end.

Record VoiceGate : Type := mkGate {
  mode : GateMode;
  open_threshold : f32;
  close_threshold : f32;
  hangover_frames : Z;
  hangover_remaining : Z;
  open : bool;
  last_dbfs : f32 }.

Definition new_gate (mode : GateMode) (open_dbfs close_dbfs : f32) (hangover_ms : Z) : VoiceGate :=
  mkGate mode open_dbfs (fmin close_dbfs open_dbfs) (div_ceil hangover_ms FRAME_MS) 0 false NEG_INFINITY.

Definition VoiceGate_default : VoiceGate :=
  new_gate VoiceActivity DEFAULT_OPEN_DBFS DEFAULT_CLOSE_DBFS DEFAULT_HANGOVER_MS.

Definition set_mode (m : GateMode) (g : VoiceGate) : VoiceGate :=
  mkGate m (open_threshold g) (close_threshold g) (hangover_frames g) (hangover_remaining g) (open g) (last_dbfs g).

Definition set_thresholds (open_dbfs close_dbfs : f32) (g : VoiceGate) : VoiceGate :=
  mkGate (mode g) open_dbfs (fmin close_dbfs open_dbfs) (hangover_frames g) (hangover_remaining g) (open g) (last_dbfs g).

Definition set_hangover_ms (hangover_ms : Z) (g : VoiceGate) : VoiceGate :=
  mkGate (mode g) (open_threshold g) (close_threshold g) (div_ceil hangover_ms FRAME_MS) (hangover_remaining g)
    (open g) (last_dbfs g).

Definition set_level (l : f32) (g : VoiceGate) : VoiceGate :=
  mkGate (mode g) (open_threshold g) (close_threshold g) (hangover_frames g) (hangover_remaining g) (open g) l.

Definition set_open (o : bool) (remaining : Z) (g : VoiceGate) : VoiceGate :=
  mkGate (mode g) (open_threshold g) (close_threshold g) (hangover_frames g) remaining o (last_dbfs g).

Definition want_open (key_held : bool) (g : VoiceGate) : bool :=
  match mode g with
  | Continuous => true
  | PushToTalk => key_held
  | VoiceActivity => if open g then fle (close_threshold g) (last_dbfs g) else fle (open_threshold g) (last_dbfs g)
  end.

Definition gate_update (pcm : list f32) (key_held : bool) (g : VoiceGate) : Activity * VoiceGate :=
  let g := set_level (rms_dbfs pcm) g in
  if want_open key_held g then
    (if open g then Speaking else BurstStart, set_open true (hangover_frames g) g)
  else if open g then
    if 0 <? hangover_remaining g then
      let remaining := hangover_remaining g - 1 in
      if remaining =? 0 then (BurstEnd, set_open false remaining g)
      else (Speaking, set_open true remaining g)
    else (BurstEnd, set_open false (hangover_remaining g) g)
  else (Silent, g).

Definition gate_close (g : VoiceGate) : Activity * VoiceGate :=
  if open g then (BurstEnd, set_open false 0 g) else (Silent, g).

Definition level_dbfs (g : VoiceGate) : f32 := last_dbfs g.
Definition is_open (g : VoiceGate) : bool := open g.

(** ** Runs *)

(** What can happen to a gate; the mode is a public field. *)
Inductive GateOp : Type :=
| OpUpdate (pcm : list f32) (key_held : bool)
| OpClose
| OpMode (m : GateMode)
| OpThresholds (open_dbfs close_dbfs : f32)
| OpHangover (ms : Z).

Definition gate_step (op : GateOp) (g : VoiceGate) : list Activity * VoiceGate :=
  match op with
  | OpUpdate pcm held => let '(a, g) := gate_update pcm held g in ([a], g)
  | OpClose => let '(a, g) := gate_close g in ([a], g)
  | OpMode m => ([], set_mode m g)
  | OpThresholds o c => ([], set_thresholds o c g)
  | OpHangover ms => ([], set_hangover_ms ms g)
  end.

Fixpoint gate_run (ops : list GateOp) (g : VoiceGate) : list Activity * VoiceGate :=
  match ops with
  | [] => ([], g)
  | op :: ops =>
      let '(a, g) := gate_step op g in
      let '(l, g) := gate_run ops g in
      (a ++ l, g)
  end.

(** ** Bursts

    What a listener is promised: a burst begins with [BurstStart], goes on with [Speaking],
    ends with [BurstEnd], and the next one begins only then. *)
Inductive bursts : bool -> list Activity -> bool -> Prop :=
| bursts_nil b : bursts b [] b
| bursts_silent l b : bursts false l b -> bursts false (Silent :: l) b
| bursts_start l b : bursts true l b -> bursts false (BurstStart :: l) b
| bursts_speaking l b : bursts true l b -> bursts true (Speaking :: l) b
| bursts_end l b : bursts false l b -> bursts true (BurstEnd :: l) b.

Lemma bursts_app b1 l1 b2 l2 b3 : bursts b1 l1 b2 -> bursts b2 l2 b3 -> bursts b1 (l1 ++ l2) b3.
Proof. induction 1; simpl; try constructor; auto. Qed.

Lemma gate_update_bursts pcm held g : bursts (open g) [(gate_update pcm held g).1] (open (gate_update pcm held g).2).
Proof.
  unfold gate_update. destruct (want_open held _); simpl; destruct (open g) eqn:E; simpl; rewrite ?E;
    repeat case_match; simpl; rewrite ?E; repeat constructor.
Qed.

Lemma gate_close_bursts g : bursts (open g) [(gate_close g).1] (open (gate_close g).2).
Proof. unfold gate_close. destruct (open g) eqn:E; simpl; rewrite ?E; repeat constructor. Qed.

Lemma gate_step_bursts op g : bursts (open g) (gate_step op g).1 (open (gate_step op g).2).
Proof.
  destruct op as [pcm held| | | |]; simpl; try constructor.
  - pose proof (gate_update_bursts pcm held g). by destruct (gate_update pcm held g).
  - pose proof (gate_close_bursts g). by destruct (gate_close g).
Qed.

Lemma gate_run_bursts ops g : bursts (open g) (gate_run ops g).1 (open (gate_run ops g).2).
Proof.
  revert g. induction ops as [|op ops IH]; intros g; simpl; [constructor|]. pose proof (gate_step_bursts op g) as Hs.
  destruct (gate_step op g) as [a g1]. specialize (IH g1). destruct (gate_run ops g1) as [l g2]. by eapply bursts_app.
Qed.

(** ** Hysteresis *)

(** A level that opens the gate also keeps it open. *)
Definition hysteresis (g : VoiceGate) : Prop :=
  (forall x, fle (open_threshold g) x = true -> fle (close_threshold g) x = true) /\ 0 <= hangover_remaining g.

Lemma div_ceil_nonneg a b : 0 <= a -> 0 < b -> 0 <= div_ceil a b.
Proof. intros. unfold div_ceil. apply Z.div_pos; lia. Qed.

Lemma new_gate_hysteresis m o c h : hysteresis (new_gate m o c h).
Proof. split; [|done]. intros x. apply fle_fmin. Qed.

(** The settings reaching the gate are unsigned. *)
Definition op_ok (op : GateOp) : Prop := match op with OpHangover ms => 0 <= ms | _ => True end.

Definition gate_ok (g : VoiceGate) : Prop := hysteresis g /\ 0 <= hangover_frames g.

Lemma gate_update_ok pcm held g : gate_ok g -> gate_ok (gate_update pcm held g).2.
Proof.
  intros [[H1 H2] H3]. unfold gate_update, gate_ok, hysteresis. simpl.
  repeat case_match; simpl; bool_props; (split; [split|]); try done; lia.
Qed.

Lemma gate_close_ok g : gate_ok g -> gate_ok (gate_close g).2.
Proof. intros [[H1 H2] H3]. unfold gate_close. destruct (open g); done. Qed.

Lemma gate_step_ok op g : op_ok op -> gate_ok g -> gate_ok (gate_step op g).2.
Proof.
  intros Hop Hg. destruct op as [pcm held| |m|o c|ms]; simpl.
  - pose proof (gate_update_ok pcm held g Hg). by destruct (gate_update pcm held g).
  - pose proof (gate_close_ok g Hg). by destruct (gate_close g).
  - done.
  - destruct Hg as [[_ ?] ?]. split; [|done]. split; [|done]. intros x. apply fle_fmin.
  - destruct Hg as [? _]. split; [done|]. by apply div_ceil_nonneg.
Qed.

Lemma gate_run_ok ops g : Forall op_ok ops -> gate_ok g -> gate_ok (gate_run ops g).2.
Proof.
  intros Hops. revert g. induction Hops as [|op ops Hop _ IH]; intros g Hg; simpl; [done|].
  pose proof (gate_step_ok op g Hop Hg) as H1. destruct (gate_step op g) as [a g1]. specialize (IH g1 H1).
  by destruct (gate_run ops g1).
Qed.

Lemma new_gate_ok m o c h : 0 <= h -> gate_ok (new_gate m o c h).
Proof. intros. split; [apply new_gate_hysteresis|]. by apply div_ceil_nonneg. Qed.

(** ** A steady level *)

(** The frames of a hangover: [n] more frames are sent, the last of them marked. *)
Definition release (n k : nat) : list Activity := take k (replicate (n - 1) Speaking ++ [BurstEnd] ++ replicate k Silent).

(** What [k] frames at level [x] are answered with. *)
Definition answer_to (g : VoiceGate) (x : f32) (k : nat) : list Activity :=
  if open g then
    if fle (close_threshold g) x then replicate k Speaking else release (Z.to_nat (hangover_remaining g)) k
  else if fle (open_threshold g) x then take k (BurstStart :: replicate k Speaking)
  else replicate k Silent.

Definition answers (frames : list (list f32)) (g : VoiceGate) : list Activity :=
  (gate_run (map (fun pcm => OpUpdate pcm false) frames) g).1.

Lemma answers_cons pcm frames g :
  answers (pcm :: frames) g = (gate_update pcm false g).1 :: answers frames (gate_update pcm false g).2.
Proof. unfold answers. simpl. destruct (gate_update pcm false g) as [a g']. simpl. by destruct (gate_run _ g'). Qed.

Lemma release_S n k : release n (S k) = if (2 <=? n)%nat then Speaking :: release (n - 1) k else BurstEnd :: replicate k Silent.
Proof.
  assert (forall j, take j (replicate (S k) Silent) = replicate (j `min` S k) Silent) as Ht by (intros; apply take_replicate).
  unfold release. destruct n as [|[|n]]; cbn -[replicate Nat.sub]; simpl (replicate (_ - _) Speaking); cbn -[replicate].
  1, 2: rewrite Ht; do 2 f_equal; lia.
  rewrite Nat.sub_0_r. f_equal. rewrite !take_app, !length_replicate. f_equal. destruct (k - n)%nat as [|j] eqn:E; [done|].
  cbn -[replicate]. f_equal. rewrite Ht, take_replicate. f_equal. lia.
Qed.

Lemma steady_answer frames g x :
  gate_ok g -> mode g = VoiceActivity -> Forall (fun pcm => rms_dbfs pcm = x) frames ->
  answers frames g = answer_to g x (length frames).
Proof.
  intros Hg Hm Hf. revert g Hg Hm. induction Hf as [|pcm frames Hx _ IH]; intros g Hg Hm.
  { unfold answer_to, release. simpl. repeat case_match; reflexivity. }
  rewrite answers_cons. pose proof (gate_update_ok pcm false g Hg) as Hg'. destruct Hg as [[Hh Hr] Hf].
  specialize (IH _ Hg'). unfold gate_update, want_open in *. simpl in *. rewrite Hm, Hx in *. unfold answer_to at 1.
  destruct (open g) eqn:Ho.
  - destruct (fle (close_threshold g) x) eqn:Hc.
    { simpl in *. rewrite IH by done. unfold answer_to. simpl. by rewrite Hc. }
    assert (fle (open_threshold g) x = false) as Hshut.
    { destruct (fle (open_threshold g) x) eqn:E; [|done]. apply Hh in E. congruence. }
    rewrite release_S. destruct (Nat.leb_spec 2 (Z.to_nat (hangover_remaining g))) as [Hl|Hl].
    + rewrite (proj2 (Z.ltb_lt 0 _)), (proj2 (Z.eqb_neq _ 0)) in * by lia. simpl in *. rewrite IH by done.
      unfold answer_to. simpl. rewrite Hc. do 2 f_equal. lia.
    + destruct (Z.ltb_spec 0 (hangover_remaining g)); [rewrite (proj2 (Z.eqb_eq _ 0)) in * by lia|]; simpl in *;
        rewrite IH by done; unfold answer_to; simpl; by rewrite Hshut.
  - destruct (fle (open_threshold g) x) eqn:Hopen; simpl in *; rewrite IH by done; unfold answer_to; simpl.
    + rewrite (Hh _ Hopen). do 2 f_equal. change (Speaking :: replicate (length frames) Speaking) with (replicate (S (length frames)) Speaking).
      rewrite take_replicate. f_equal. lia.
    + by rewrite Ho, Hopen.
Qed.
End VoiceGate.

(** ** What the gate promises *)

(** Whatever a gate is given (frames, a change of mode, thresholds or hangover, being forced shut), what it answers is a sequence of whole bursts: a [BurstStart] only when no burst is in progress, [Speaking] and [BurstEnd] only inside one, silence only outside one; and a burst is in progress at the end exactly when the gate says it is open. *)
Theorem talk_comes_in_bursts {M : Libm} ops mode open_dbfs close_dbfs hangover_ms :
  let '(answers, g) := gate_run ops (new_gate mode open_dbfs close_dbfs hangover_ms) in
  bursts false answers (is_open g).
Proof.
  pose proof (gate_run_bursts ops (new_gate mode open_dbfs close_dbfs hangover_ms)) as H.
  destruct (gate_run ops _) as [l g]. exact H.
Qed.

(** In voice activity mode a gate never chatters, whatever its history and its settings, closing thresholds above opening ones and NaN included: while the level stays the same, an open gate either speaks all along or serves out what is left of its hangover, ends the burst once and stays silent; a closed gate either stays silent or starts one burst and keeps speaking.  A hangover of [n] frames is [n] frames, the last of them marked as the end. *)
Theorem a_steady_level_never_chatters {M : Libm} ops mode0 open_dbfs close_dbfs hangover_ms frames level :
  0 <= hangover_ms -> Forall op_ok ops ->
  let g := (gate_run ops (new_gate mode0 open_dbfs close_dbfs hangover_ms)).2 in
  mode g = VoiceActivity -> Forall (fun pcm => rms_dbfs pcm = level) frames ->
  answers frames g = answer_to g level (length frames).
Proof. intros Hh Hops g. apply steady_answer. by apply gate_run_ok, new_gate_ok. Qed.

(** ** A concrete gate *)

Module Sample_gate.
(** A logarithm good to the nearest power of two. *)
#[export] Instance libm : Libm := {|
  f64_log10 x := match x with S754_finite false m e => f64_lit ((Zpos (digits2_pos m) + e - 1) * 3) 10 | _ => S754_nan end;
  f64_sin x := x |}.

Definition frame_at (amplitude : f32) : list f32 := [amplitude; SFopp amplitude; amplitude; SFopp amplitude].
Definition loud : list f32 := frame_at (narrow (f64_lit 1 4)).
Definition faint : list f32 := frame_at (narrow (f64_lit 1 4096)).

(** Thresholds the wrong way round, then a talker who has just stopped. *)
Definition history : list GateOp := [OpThresholds (f32_of (-50)) (f32_of (-40)); OpHangover 60; OpUpdate loud false].

Lemma a_steady_level_never_chatters_witness :
  let g := (gate_run history (new_gate VoiceActivity DEFAULT_OPEN_DBFS DEFAULT_CLOSE_DBFS DEFAULT_HANGOVER_MS)).2 in
  answer_to g (rms_dbfs faint) 5 = [Speaking; Speaking; BurstEnd; Silent; Silent] /\
  answers (replicate 5 faint) g = answer_to g (rms_dbfs faint) 5.
Proof.
  intros g. split; [vm_compute; reflexivity|].
  apply (a_steady_level_never_chatters history VoiceActivity DEFAULT_OPEN_DBFS DEFAULT_CLOSE_DBFS DEFAULT_HANGOVER_MS
    (replicate 5 faint) (rms_dbfs faint)).
  - unfold DEFAULT_HANGOVER_MS. lia.
  - repeat constructor; simpl; lia.
  - vm_compute. reflexivity.
  - repeat constructor.
Defined.
End Sample_gate.
