(* ===== verification/VoiceCodec.v ===== *)
(** * Encoding and decoding one frame ([crates/pickle-audio/src/codec.rs])

    The Opus codec itself is a library: [Opus] is what the source asks of it, a coder with
    settings and a state of its own.  What the source adds is the frame geometry, the buffers
    and the sequence numbers. *)

From S2P Require Export Floats Voice RustStr.

Definition DEFAULT_BITRATE : Z := 32000.
Definition ASSUMED_PACKET_LOSS_PERCENT : Z := 10.
Definition USE_INBAND_FEC : bool := false.
Definition CHANNELS : Z := 1.

(** The fields of [OpusEncoder] the source sets; the application and the signal type are
    always [Voip] and [Voice]. *)
Record OpusSettings : Type := mkOpus {
  bitrate_bps : Z;
  use_inband_fec : bool;
  packet_loss_perc : Z }.

(** A coder writes into the caller's buffer and says how much it wrote. *)
Class Opus : Type := {
  OpusEncoder : Type;
  OpusDecoder : Type;
  opus_encoder_new : Z -> Z -> rstring + OpusEncoder;
  opus_encode : OpusSettings -> OpusEncoder -> list f32 -> Z -> bytes -> (rstring + nat) * bytes * OpusEncoder;
  opus_decoder_new : Z -> Z -> rstring + OpusDecoder;
  opus_decode : OpusDecoder -> bytes -> Z -> list f32 -> (rstring + nat) * list f32 * OpusDecoder }.

(** It stays within the buffer it is given. *)
Class OpusLaws (O : Opus) : Prop := {
  opus_encode_fits settings e pcm n buffer :
    let '(written, buffer', _) := opus_encode settings e pcm n buffer in
    length buffer' = length buffer /\ forall k, written = inr k -> (k <= length buffer)%nat;
  opus_decode_fits d packet n buffer :
    let '(written, buffer', _) := opus_decode d packet n buffer in
    length buffer' = length buffer /\ forall k, written = inr k -> (k <= length buffer)%nat }.

Inductive VoiceCodecError : Type := OpusError (message : rstring) | WrongFrameSize (got : nat).

Section VoiceCodec.
Context {O : Opus}.

Record VoiceEncoder : Type := mkEncoder {
  encoder : OpusEncoder; settings : OpusSettings; scratch : bytes; enc_seq : Z }.

Definition new_encoder (bitrate : Z) : VoiceCodecError + VoiceEncoder :=
  match opus_encoder_new SAMPLE_RATE CHANNELS with
  | inl message => inl (OpusError message)
  | inr e =>
      inr (mkEncoder e (mkOpus (as_signed 32 bitrate) USE_INBAND_FEC ASSUMED_PACKET_LOSS_PERCENT)
        (replicate MAX_OPUS_PACKET 0) 0)
  end.

Definition set_bitrate (bitrate : Z) (e : VoiceEncoder) : VoiceEncoder :=
  mkEncoder (encoder e)
    (mkOpus (as_signed 32 bitrate) (use_inband_fec (settings e)) (packet_loss_perc (settings e))) (scratch e) (enc_seq e).

Definition voice_encode (pcm : list f32) (e : VoiceEncoder) : (VoiceCodecError + bytes) * VoiceEncoder :=
  if negb (Z.of_nat (length pcm) =? SAMPLES_PER_FRAME) then (inl (WrongFrameSize (length pcm)), e)
  else
    let '(written, buffer, coder) := opus_encode (settings e) (encoder e) pcm SAMPLES_PER_FRAME (scratch e) in
    let e := mkEncoder coder (settings e) buffer (enc_seq e) in
    match written with
    | inl message => (inl (OpusError message), e)
    | inr written => (inr (take written (scratch e)), e)
    end.

Definition next_seq (e : VoiceEncoder) : Z * VoiceEncoder :=
  (enc_seq e, mkEncoder (encoder e) (settings e) (scratch e) (wrap 32 (enc_seq e + 1))).

Definition reset_seq (e : VoiceEncoder) : VoiceEncoder := mkEncoder (encoder e) (settings e) (scratch e) 0.

Record VoiceDecoder : Type := mkDecoder { decoder : OpusDecoder; pcm : list f32 }.

Definition new_decoder : VoiceCodecError + VoiceDecoder :=
  match opus_decoder_new SAMPLE_RATE CHANNELS with
  | inl message => inl (OpusError message)
  | inr d => inr (mkDecoder d (replicate (Z.to_nat SAMPLES_PER_FRAME) (S754_zero false)))
  end.

Definition voice_decode (packet : bytes) (d : VoiceDecoder) : (VoiceCodecError + list f32) * VoiceDecoder :=
  let '(written, buffer, coder) := opus_decode (decoder d) packet SAMPLES_PER_FRAME (pcm d) in
  let d := mkDecoder coder buffer in
  match written with
  | inl message => (inl (OpusError message), d)
  | inr written => (inr (take written (pcm d)), d)
  end.

(** An empty packet asks for a frame that was lost. *)
Definition conceal (d : VoiceDecoder) : (VoiceCodecError + list f32) * VoiceDecoder := voice_decode [] d.

(** ** Buffers and numbers *)

Definition encoder_ok (e : VoiceEncoder) : Prop := length (scratch e) = MAX_OPUS_PACKET /\ fits 32 (enc_seq e).
Definition decoder_ok (d : VoiceDecoder) : Prop := Z.of_nat (length (pcm d)) = SAMPLES_PER_FRAME.

Lemma new_encoder_ok bitrate e : new_encoder bitrate = inr e -> encoder_ok e.
Proof. unfold new_encoder. destruct (opus_encoder_new _ _); intros [= <-]. by split. Qed.

Lemma new_decoder_ok d : new_decoder = inr d -> decoder_ok d.
Proof.
  unfold new_decoder. destruct (opus_decoder_new _ _); intros [= <-]. by vm_compute.
Qed.

Lemma next_seq_ok e : encoder_ok e -> encoder_ok (next_seq e).2.
Proof. intros [? ?]. split; [done|]. simpl. by apply wrap_fits. Qed.

Lemma reset_seq_ok e : encoder_ok e -> encoder_ok (reset_seq e).
Proof. by intros [? _]. Qed.

Lemma encode_seq pcm e : enc_seq (voice_encode pcm e).2 = enc_seq e.
Proof. unfold voice_encode. destruct (negb _); [done|]. destruct (opus_encode _ _ _ _ _) as [[[|] ?] ?]; done. Qed.

Context {L : OpusLaws O}.

Lemma encode_ok pcm e : encoder_ok e -> encoder_ok (voice_encode pcm e).2.
Proof.
  intros [H1 H2]. unfold voice_encode. destruct (negb _); [done|].
  pose proof (opus_encode_fits (settings e) (encoder e) pcm SAMPLES_PER_FRAME (scratch e)) as H.
  destruct (opus_encode _ _ _ _ _) as [[[|] ?] ?]; split; simpl; destruct H; congruence || done.
Qed.

(** A packet is never longer than a datagram can carry. *)
Lemma encode_length pcm e payload :
  encoder_ok e -> (voice_encode pcm e).1 = inr payload -> (length payload <= MAX_OPUS_PACKET)%nat.
Proof.
  intros [H1 H2]. unfold voice_encode. destruct (negb _); [done|].
  pose proof (opus_encode_fits (settings e) (encoder e) pcm SAMPLES_PER_FRAME (scratch e)) as H.
  destruct (opus_encode _ _ _ _ _) as [[[|n] buffer] ?]; [done|]. simpl. intros [= <-]. rewrite length_take.
  destruct H as [-> _]. lia.
Qed.

Lemma decode_ok packet d : decoder_ok d -> decoder_ok (voice_decode packet d).2.
Proof.
  unfold decoder_ok. intros H. unfold voice_decode.
  pose proof (opus_decode_fits (decoder d) packet SAMPLES_PER_FRAME (pcm d)) as Hf.
  destruct (opus_decode _ _ _ _) as [[[|] ?] ?]; simpl; destruct Hf as [-> _]; done.
Qed.

Lemma decode_length packet d frame :
  decoder_ok d -> (voice_decode packet d).1 = inr frame -> Z.of_nat (length frame) <= SAMPLES_PER_FRAME.
Proof.
  intros H. unfold voice_decode, decoder_ok in *.
  pose proof (opus_decode_fits (decoder d) packet SAMPLES_PER_FRAME (pcm d)) as Hf.
  destruct (opus_decode _ _ _ _) as [[[|n] buffer] ?]; [done|]. simpl. intros [= <-]. rewrite length_take.
  destruct Hf as [-> _]. lia.
Qed.
End VoiceCodec.

(** ** A concrete codec

    One byte per frame, the level of its first sample; a lost frame repeats the last one. *)
Module Toy_codec.
Definition levels : Z := 100.

Definition level_byte (pcm : list f32) : Z :=
  match pcm with x :: _ => to_int 0 255 (f32_mul x (f32_of levels)) | [] => 0 end.

Definition level_frame (n : Z) (buffer : list f32) : list f32 := map (fun _ => f32_div (f32_of n) (f32_of levels)) buffer.

#[export] Instance opus : Opus := {|
  OpusEncoder := unit;
  OpusDecoder := Z;
  opus_encoder_new _ _ := inr tt;
  opus_encode _ e pcm _ buffer :=
    match buffer with [] => (inr 0%nat, [], e) | _ :: rest => (inr 1%nat, level_byte pcm :: rest, e) end;
  opus_decoder_new _ _ := inr 0;
  opus_decode d packet _ buffer :=
    let n := match packet with b :: _ => b | [] => d end in (inr (length buffer), level_frame n buffer, n) |}.

#[export] Instance opus_laws : OpusLaws opus.
Proof.
  split.
  - intros s e pcm n [|b buffer]; simpl; (split; [done|]); intros k [= <-]; lia.
  - intros d packet n buffer. simpl. split; [apply length_map|]. intros k [= <-]. done.
Qed.
End Toy_codec.
