(* ===== verification/Fuzz.v ===== *)
(** * The fuzz targets ([fuzz/src/lib.rs])

    What the harness feeds arbitrary bytes to and what it asserts of the answers.  A target is
    [None] when one of its assertions fails; the theorems say for which inputs that is, which
    is none. *)

From S2P Require Export VoiceCodec.

Definition MAX_PACKETS_PER_INPUT : nat := 64.
Definition RELAY_SENDER : Z := 3735928559.

(** [assert!] *)
Definition assert (b : bool) : option unit := if b then Some tt else None.

Definition passes (p : option unit) : Prop := p = Some tt.

#[global] Instance VoiceDownstream_eq_dec : EqDecision VoiceDownstream.
Proof. solve_decision. Defined.

Definition check_frame (frame : list f32) : option unit :=
  _ ← assert (Z.of_nat (length frame) <=? SAMPLES_PER_FRAME); assert (forallb finite frame).

Definition upstream_part (data : bytes) : option unit :=
  match decode_up data with
  | inl _ => Some tt
  | inr upstream =>
      _ ← assert (length (up_payload upstream) <=? MAX_OPUS_PACKET)%nat;
      _ ← assert (bool_decide (encode_up upstream = data));
      let downstream := into_downstream upstream RELAY_SENDER in
      match decode_down (encode_down downstream) with
      | inl _ => None
      | inr parsed => assert (bool_decide (parsed = downstream))
      end
  end.

Definition downstream_part (data : bytes) : option unit :=
  match decode_down data with
  | inl _ => Some tt
  | inr downstream =>
      _ ← assert (length (down_payload downstream) <=? MAX_OPUS_PACKET)%nat;
      assert (bool_decide (encode_down downstream = data))
  end.

Definition voice_datagram (data : bytes) : option unit := _ ← upstream_part data; downstream_part data.

Section Fuzz.
Context {OP : Opus}.

(** [if let Ok(pcm) = decoded { check_frame(pcm) }] *)
Definition check_decoded (decoded : VoiceCodecError + list f32) : option unit :=
  match decoded with inl _ => Some tt | inr frame => check_frame frame end.

Definition voice_decode_target (data : bytes) : option unit :=
  if (MAX_OPUS_PACKET <? length data)%nat then Some tt
  else match new_decoder with inl _ => None | inr d => check_decoded (voice_decode data d).1 end.

(** One length-prefixed packet, and what follows it; [None] when there is no length to read. *)
Definition split_packet (rest : bytes) : option (bytes * bytes) :=
  if (length rest <? 2)%nat then None
  else
    let tail := drop 2 rest in
    let len := Nat.min (Z.to_nat (of_le (take 2 rest)) mod (MAX_OPUS_PACKET + 1)) (length tail) in
    Some (take len tail, drop len tail).

(** An empty packet is concealment. *)
Definition decode_or_conceal (packet : bytes) (d : VoiceDecoder) : (VoiceCodecError + list f32) * VoiceDecoder :=
  if is_empty packet then conceal d else voice_decode packet d.

Fixpoint decode_stream (packets : nat) (rest : bytes) (d : VoiceDecoder) : option unit :=
  match packets with
  | O => Some tt
  | S packets =>
      match split_packet rest with
      | None => Some tt
      | Some (packet, rest) =>
          let '(decoded, d) := decode_or_conceal packet d in
          _ ← check_decoded decoded;
          if is_empty rest then Some tt else decode_stream packets rest d
      end
  end.

Definition voice_decode_stream (data : bytes) : option unit :=
  match new_decoder with inl _ => None | inr d => decode_stream MAX_PACKETS_PER_INPUT data d end.

(** ** The packets of a stream *)

(** What a transport could carry, whatever the length prefix says, and the input is used up. *)
Lemma split_packet_spec rest packet tail :
  split_packet rest = Some (packet, tail) ->
  (length packet <= MAX_OPUS_PACKET)%nat /\ (length packet + length tail + 2 = length rest)%nat /\
  drop 2 rest = packet ++ tail.
Proof.
  assert (Hm : (Z.to_nat (of_le (take 2 rest)) mod (MAX_OPUS_PACKET + 1) < MAX_OPUS_PACKET + 1)%nat) by (apply Nat.mod_upper_bound; lia).
  unfold split_packet. destruct (Nat.ltb_spec (length rest) 2) as [|Hl]; [done|]. cbv zeta.
  generalize dependent (Z.to_nat (of_le (take 2 rest)) mod (MAX_OPUS_PACKET + 1))%nat. intros r Hr [= <- <-].
  rewrite take_drop, length_take, !length_drop. split_and!; [lia | lia | done].
Qed.

(** The library keeps to the buffer it is given, its decoder can be made, and what it writes is
    a number. *)
Context {L : OpusLaws OP}.
Hypothesis made : exists d, opus_decoder_new SAMPLE_RATE CHANNELS = inr d.
Hypothesis numbers : forall d packet n buffer k,
  (opus_decode d packet n buffer).1.1 = inr k -> Forall (fun x => finite x = true) (take k (opus_decode d packet n buffer).1.2).

Lemma decoder_made : exists d, new_decoder = inr d.
Proof. destruct made as [d Hd]. unfold new_decoder. rewrite Hd. by eexists. Qed.

Lemma decoded_passes packet d : decoder_ok d -> passes (check_decoded (voice_decode packet d).1) /\ decoder_ok (voice_decode packet d).2.
Proof.
  intros Hd. split; [|by apply decode_ok]. unfold check_decoded. destruct (voice_decode packet d).1 as [e | frame] eqn:E; [done|].
  pose proof (decode_length _ _ _ Hd E) as Hl. unfold check_frame, assert. rewrite (proj2 (Z.leb_le _ _) Hl). cbn.
  unfold voice_decode in E. pose proof (numbers (decoder d) packet SAMPLES_PER_FRAME (pcm d)) as Hn.
  destruct (opus_decode _ _ _ _) as [[[|k] buffer] coder]; [done|]. injection E as <-. cbn in *.
  assert (forallb finite (take k buffer) = true) as ->; [|done].
  apply forallb_forall. intros x Hx. specialize (Hn k eq_refl). rewrite Forall_forall in Hn. by apply Hn, list_elem_of_In.
Qed.

Lemma decode_stream_passes packets rest d : decoder_ok d -> passes (decode_stream packets rest d).
Proof.
  revert rest d; induction packets as [|packets IH]; intros rest d Hd; [done|]. cbn [decode_stream].
  destruct (split_packet rest) as [[packet tail]|]; [|done].
  assert (H : passes (check_decoded (decode_or_conceal packet d).1) /\ decoder_ok (decode_or_conceal packet d).2)
    by (unfold decode_or_conceal, conceal; destruct (is_empty packet); by apply decoded_passes).
  destruct (decode_or_conceal packet d) as [decoded d']. destruct H as [H Hd']. cbn [fst snd] in *. rewrite H. cbn.
  destruct (is_empty tail); [done|]. by apply IH.
Qed.

(** No input fails the two decoding targets. *)
Theorem decoding_targets_pass data : passes (voice_decode_target data) /\ passes (voice_decode_stream data).
Proof.
  destruct decoder_made as [d Hd]. pose proof (new_decoder_ok _ Hd). unfold voice_decode_target, voice_decode_stream. rewrite Hd.
  split; [|by apply decode_stream_passes]. destruct (MAX_OPUS_PACKET <? length data)%nat; [done|]. by apply decoded_passes.
Qed.
End Fuzz.

Lemma upstream_part_passes data : Forall is_byte data -> passes (upstream_part data).
Proof.
  intros Hd. unfold upstream_part. destruct (decode_up data) as [e | p] eqn:E; [done|]. apply decode_up_inv in E as [Hp ->]; [|done].
  unfold assert. rewrite (proj2 (Nat.leb_le _ _) (up_ok_len _ Hp)). cbn [mbind option_bind]. rewrite bool_decide_true by done. cbn [mbind option_bind].
  rewrite decode_encode_down by (apply into_downstream_ok; [done | unfold fits, RELAY_SENDER; lia]). by rewrite bool_decide_true.
Qed.

Lemma downstream_part_passes data : Forall is_byte data -> passes (downstream_part data).
Proof.
  intros Hd. unfold downstream_part. destruct (decode_down data) as [e | p] eqn:E; [done|]. apply decode_down_inv in E as [Hp ->]; [|done].
  unfold assert. rewrite (proj2 (Nat.leb_le _ _) (down_ok_len _ Hp)). cbn [mbind option_bind]. by rewrite bool_decide_true.
Qed.

(** No datagram fails the fuzz target of the voice parsers: whatever the bytes, what parses
    in either direction carries at most one Opus packet, re-encodes to exactly those bytes,
    and, relayed by the server to a listener, parses back to the relayed frame.  And nothing
    parses both ways, so of the two halves of the target at most one is ever exercised. *)
Theorem no_datagram_fails_the_fuzz_target data :
  Forall is_byte data ->
  voice_datagram data = Some tt /\
  ~ (exists up down, decode_up data = inr up /\ decode_down data = inr down).
Proof.
  intros Hd. split.
  - unfold voice_datagram. rewrite (upstream_part_passes data Hd). by apply downstream_part_passes.
  - intros (up & down & Hu & Hw). apply decode_down_inv in Hw as [_ ->]; [|done]. by rewrite (proj1 (directions_disjoint up down)) in Hu.
Qed.

Lemma no_datagram_fails_the_fuzz_target_witness :
  (exists up, decode_up [1; 2; 1; 0; 0; 3; 9] = inr up) /\ voice_datagram [1; 2; 1; 0; 0; 3; 9] = Some tt.
Proof.
  split; [eexists; vm_compute; reflexivity|].
  apply (no_datagram_fails_the_fuzz_target [1; 2; 1; 0; 0; 3; 9]).
  rewrite !Forall_cons; unfold is_byte; repeat split; try lia; apply Forall_nil_2.
Defined.

(** A library for which the decoding targets hold: every frame is silent. *)
Module Silent_codec.
#[local] Instance opus : Opus := {|
  OpusEncoder := unit;
  OpusDecoder := unit;
  opus_encoder_new _ _ := inr tt;
  opus_encode _ e _ _ buffer := (inr 0%nat, buffer, e);
  opus_decoder_new _ _ := inr tt;
  opus_decode d _ _ buffer := (inr (length buffer), replicate (length buffer) (S754_zero false), d) |}.

#[local] Instance opus_laws : OpusLaws opus.
Proof.
  split.
  - intros s e pcm n buffer. simpl. split; [done|]. intros k [= <-]. lia.
  - intros d packet n buffer. simpl. split; [apply length_replicate|]. by intros k [= <-].
Qed.

(** Two packets, a lost frame, and a length longer than what follows it. *)
Lemma a_stream_passes : passes (voice_decode_stream [1; 0; 77; 0; 0; 255; 255; 1; 2]).
Proof.
  apply decoding_targets_pass.
  - by exists tt.
  - intros d packet n buffer k _. apply Forall_take, Forall_forall. intros x Hx. by apply elem_of_replicate_inv in Hx as ->.
Qed.
End Silent_codec.
