(* ===== verification/Mixer.v ===== *)
(** * Mixing the speakers ([crates/pickle-audio/src/mixer.rs])

    One jitter buffer, one decoder and one volume per speaker, and the sum of them all.  The
    contract is that the speakers do not affect each other: a mixer is the product of one
    small machine per speaker ([solo_step]), in whatever order the hash map visits them. *)

From S2P Require Export VoiceCodec Jitter.

Definition IDLE_FRAMES_BEFORE_RELEASE : Z := 100.

Section VoiceMixer.
Context {O : Opus} {HO : HashOrder}.

Record SenderStream : Type := mkStream {
  jitter : JitterBuffer;
  sdecoder : VoiceDecoder;
  gain : f32;
  smuted : bool;
  sspeaking : bool;
  idle_frames : Z }.

Record VoiceMixer : Type := mkMixer {
  streams : gmap ClientId SenderStream;
  master_gain : f32;
  deafened : bool }.

Definition new_mixer : VoiceMixer := mkMixer ∅ (f32_of 1) false.

Definition set_streams (x : gmap ClientId SenderStream) (m : VoiceMixer) : VoiceMixer :=
  mkMixer x (master_gain m) (deafened m).

(** The stream of a speaker heard for the first time. *)
Definition new_stream (d : VoiceDecoder) : SenderStream := mkStream JitterBuffer_default d (f32_of 1) false false 0.

(** From [if packet.starts_burst()] on. *)
Definition take_packet (packet : VoiceDownstream) (s : SenderStream) : SenderStream :=
  let j := if starts_burst packet then reset (jitter s) else jitter s in
  mkStream (push j (down_seq packet) (down_payload packet)) (sdecoder s) (gain s) (smuted s) (sspeaking s) 0.

Definition accept (packet : VoiceDownstream) (m : VoiceMixer) : (VoiceCodecError + unit) * VoiceMixer :=
  match
    match streams m !! down_sender packet with
    | Some s => inr s
    | None => match new_decoder with inl e => inl e | inr d => inr (new_stream d) end
    end
  with
  | inl e => (inl e, m)
  | inr s => (inr tt, set_streams (<[down_sender packet := take_packet packet s]> (streams m)) m)
  end.

(** One turn of [render]'s loop, up to the test of [muted]: what the stream plays now. *)
Definition play_stream (s : SenderStream) : option (list f32) * SenderStream :=
  let '(frame, j) := pop (jitter s) in
  let '(decoded, d) :=
    match frame with
    | Some (Frame payload) => let '(r, d) := voice_decode payload (sdecoder s) in (match r with inr pcm => Some pcm | inl _ => None end, d)
    | Some Lost => let '(r, d) := conceal (sdecoder s) in (match r with inr pcm => Some pcm | inl _ => None end, d)
    | None => (None, sdecoder s)
    end in
  match decoded with
  | None => (None, mkStream j d (gain s) (smuted s) false (Z.min u32_max (idle_frames s + 1)))
  | Some pcm => (Some pcm, mkStream j d (gain s) (smuted s) true 0)
  end.

(** [for (slot, &sample) in out.iter_mut().zip(pcm.iter()) { *slot += sample * gain }] *)
Fixpoint mix_in (out pcm : list f32) (g : f32) : list f32 :=
  match out, pcm with
  | slot :: out, sample :: pcm => f32_add slot (f32_mul sample g) :: mix_in out pcm g
  | _, _ => out
  end.

(** What the loop carries: the map being updated, the samples, the count, and who is done. *)
Record Rendering : Type := mkRendering {
  r_streams : gmap ClientId SenderStream;
  r_out : list f32;
  r_contributors : nat;
  r_finished : list ClientId }.

Definition render_stream (master : f32) (deaf : bool) (r : Rendering) (entry : ClientId * SenderStream) : Rendering :=
  let '(client, s) := entry in
  let '(decoded, s') := play_stream s in
  let after := <[client := s']> (r_streams r) in
  match decoded with
  | None =>
      mkRendering after (r_out r) (r_contributors r)
        (if IDLE_FRAMES_BEFORE_RELEASE <? idle_frames s' then r_finished r ++ [client] else r_finished r)
  | Some pcm =>
      if smuted s' || deaf then mkRendering after (r_out r) (r_contributors r) (r_finished r)
      else
        mkRendering after (mix_in (r_out r) pcm (f32_mul (gain s') master)) (S (r_contributors r)) (r_finished r)
  end.

Definition clip (sample : f32) : f32 := fclamp (f32_of (-1)) (f32_of 1) sample.

Definition render (out : list f32) (m : VoiceMixer) : nat * list f32 * VoiceMixer :=
  let out := map (fun _ => S754_zero false) out in
  if negb (Z.of_nat (length out) =? SAMPLES_PER_FRAME) then (0%nat, out, m)
  else
    let r := fold_left (render_stream (master_gain m) (deafened m)) (hash_iter (streams m)) (mkRendering (streams m) out 0 []) in
    (r_contributors r, map clip (r_out r),
     set_streams (fold_left (fun x client => delete client x) (r_finished r) (r_streams r)) m).

Definition with_stream (client : ClientId) (f : SenderStream -> SenderStream) (m : VoiceMixer) : VoiceMixer :=
  match streams m !! client with
  | Some s => set_streams (<[client := f s]> (streams m)) m
  | None => m
  end.

Definition set_gain (client : ClientId) (g : f32) : VoiceMixer -> VoiceMixer :=
  with_stream client (fun s => mkStream (jitter s) (sdecoder s) (fmax g (f32_of 0)) (smuted s) (sspeaking s) (idle_frames s)).

Definition set_stream_muted (client : ClientId) (muted : bool) : VoiceMixer -> VoiceMixer :=
  with_stream client (fun s => mkStream (jitter s) (sdecoder s) (gain s) muted (sspeaking s) (idle_frames s)).

Definition set_master_gain (g : f32) (m : VoiceMixer) : VoiceMixer :=
  mkMixer (streams m) (fmax g (f32_of 0)) (deafened m).

Definition clear_speakers (m : VoiceMixer) : VoiceMixer := set_streams ∅ m.
Definition set_deafened (b : bool) (m : VoiceMixer) : VoiceMixer := mkMixer (streams m) (master_gain m) b.
Definition is_deafened (m : VoiceMixer) : bool := deafened m.
Definition remove_stream (client : ClientId) (m : VoiceMixer) : VoiceMixer := set_streams (delete client (streams m)) m.
Definition clear (m : VoiceMixer) : VoiceMixer := set_streams ∅ m.

Definition speaking (m : VoiceMixer) : list ClientId :=
  (retain (fun e => sspeaking e.2) (hash_iter (streams m))).*1.

Definition stats (client : ClientId) (m : VoiceMixer) : option JitterStats :=
  match streams m !! client with Some s => Some (jstats (jitter s)) | None => None end.

Definition active_streams (m : VoiceMixer) : nat := size (streams m).

(** ** One speaker at a time *)

(** What one [render] does to one stream. *)
Definition released (s : SenderStream) : bool :=
  match play_stream s with (None, s') => IDLE_FRAMES_BEFORE_RELEASE <? idle_frames s' | _ => false end.

Definition advance (s : SenderStream) : option SenderStream := if released s then None else Some (play_stream s).2.

Definition audible (s : SenderStream) : bool :=
  match (play_stream s).1 with Some _ => negb (smuted s) | None => false end.

Inductive MixerOp : Type :=
| MAccept (packet : VoiceDownstream)
| MRender (out : list f32)
| MGain (client : ClientId) (g : f32)
| MMuted (client : ClientId) (muted : bool)
| MMaster (g : f32)
| MDeafened (b : bool)
| MRemove (client : ClientId)
| MClear.

Definition mixer_step (op : MixerOp) (m : VoiceMixer) : VoiceMixer :=
  match op with
  | MAccept packet => (accept packet m).2
  | MRender out => (render out m).2
  | MGain client g => set_gain client g m
  | MMuted client muted => set_stream_muted client muted m
  | MMaster g => set_master_gain g m
  | MDeafened b => set_deafened b m
  | MRemove client => remove_stream client m
  | MClear => clear m
  end.

(** The same operation, seen by the stream of [c] alone: everyone else's packets, volumes and
    departures, the master volume and being deafened are nothing to it. *)
Definition solo_step (c : ClientId) (op : MixerOp) (o : option SenderStream) : option SenderStream :=
  match op with
  | MAccept packet =>
      if down_sender packet =? c then
        match o with
        | Some s => Some (take_packet packet s)
        | None => match new_decoder with inl _ => None | inr d => Some (take_packet packet (new_stream d)) end
        end
      else o
  | MRender out => if Z.of_nat (length out) =? SAMPLES_PER_FRAME then o ≫= advance else o
  | MGain client g =>
      if client =? c then
        (fun s => mkStream (jitter s) (sdecoder s) (fmax g (f32_of 0)) (smuted s) (sspeaking s) (idle_frames s)) <$> o
      else o
  | MMuted client muted =>
      if client =? c then (fun s => mkStream (jitter s) (sdecoder s) (gain s) muted (sspeaking s) (idle_frames s)) <$> o
      else o
  | MMaster _ | MDeafened _ => o
  | MRemove client => if client =? c then None else o
  | MClear => None
  end.

(** ** [render] *)

Lemma length_mix_in out pcm g : length (mix_in out pcm g) = length out.
Proof. revert pcm. induction out as [|x out IH]; intros [|y pcm]; simpl; auto. Qed.

(** The loop, entry by entry. *)
Lemma render_stream_eq master deaf r c s :
  render_stream master deaf r (c, s) =
  mkRendering (<[c := (play_stream s).2]> (r_streams r))
    (match (play_stream s).1 with
     | Some pcm => if smuted s || deaf then r_out r else mix_in (r_out r) pcm (f32_mul (gain s) master)
     | None => r_out r
     end)
    (r_contributors r + (if audible s && negb deaf then 1 else 0))
    (r_finished r ++ (if released s then [c] else [])).
Proof.
  assert (smuted (play_stream s).2 = smuted s /\ gain (play_stream s).2 = gain s) as [Hm Hg].
  { unfold play_stream. by repeat case_match. }
  unfold render_stream, audible, released. destruct (play_stream s) as [[pcm|] s']; cbn [fst snd] in *.
  - rewrite Hm, Hg, app_nil_r. destruct (smuted s), deaf; cbn; f_equal; lia.
  - rewrite Nat.add_0_r. case_match; [done|]. by rewrite app_nil_r.
Qed.

Lemma render_loop_streams master deaf l r c :
  NoDup l.*1 ->
  r_streams (fold_left (render_stream master deaf) l r) !! c =
  match find (fun e => e.1 =? c) l with Some e => Some (play_stream e.2).2 | None => r_streams r !! c end.
Proof.
  revert r. induction l as [|[c' s'] l IH]; intros r Hnd; [done|]. rewrite fmap_cons in Hnd. apply NoDup_cons in Hnd as [Hnot Hnd].
  change (fold_left (render_stream master deaf) ((c', s') :: l) r)
    with (fold_left (render_stream master deaf) l (render_stream master deaf r (c', s'))).
  rewrite IH by done. rewrite render_stream_eq. cbn [r_streams find fst]. destruct (Z.eqb_spec c' c) as [->|Hne].
  - assert (find (fun e => e.1 =? c) l = None) as ->.
    { apply find_none. intros [k s] Hin. apply Z.eqb_neq. intros E. simpl in E. subst k. apply Hnot.
      by apply (list_elem_of_fmap_2 fst) in Hin. }
    by rewrite lookup_insert_eq.
  - by rewrite lookup_insert_ne.
Qed.

Lemma render_loop_finished master deaf l r :
  r_finished (fold_left (render_stream master deaf) l r) = r_finished r ++ (retain (fun e => released e.2) l).*1.
Proof.
  revert r. induction l as [|[c s] l IH]; intros r; cbn [fold_left]; [by rewrite app_nil_r|].
  rewrite IH, render_stream_eq. cbn [r_finished]. rewrite retain_cons. cbn [snd]. rewrite <- app_assoc. by destruct (released s).
Qed.

Lemma render_loop_contributors master deaf l r :
  r_contributors (fold_left (render_stream master deaf) l r) =
  (r_contributors r + if deaf then 0 else length (retain (fun e => audible e.2) l))%nat.
Proof.
  revert r. induction l as [|[c s] l IH]; intros r; cbn [fold_left]; [destruct deaf; simpl; lia|].
  rewrite IH, render_stream_eq. cbn [r_contributors]. rewrite retain_cons. cbn [snd].
  destruct (audible s), deaf; cbn [length andb negb]; lia.
Qed.

Lemma delete_all_lookup (l : list ClientId) (x : gmap ClientId SenderStream) c :
  fold_left (fun x client => delete client x) l x !! c = if bool_decide (c ∈ l) then None else x !! c.
Proof.
  revert x. induction l as [|c' l IH]; intros x; cbn [fold_left]; [by rewrite bool_decide_eq_false_2 by apply not_elem_of_nil|].
  rewrite IH. destruct (decide (c = c')) as [->|Hne].
  - rewrite lookup_delete_eq, (bool_decide_eq_true_2 (c' ∈ c' :: l)) by left. by case_match.
  - rewrite lookup_delete_ne by done. rewrite (bool_decide_ext (c ∈ c' :: l) (c ∈ l)); [done|].
    rewrite elem_of_cons. split; [by intros [->|] | by right].
Qed.

Context {L : HashOrderLaws HO}.

Lemma find_hash_iter (m : gmap ClientId SenderStream) c :
  find (fun e => e.1 =? c) (hash_iter m) = (fun s => (c, s)) <$> m !! c.
Proof.
  destruct (find _ _) as [[k s]|] eqn:E.
  - apply find_some in E as [Hin Hk]. simpl in Hk. apply Z.eqb_eq in Hk as ->. apply elem_of_hash_iter in Hin. by rewrite Hin.
  - destruct (m !! c) as [s|] eqn:Hs; [|done]. apply elem_of_hash_iter in Hs.
    pose proof (proj1 (find_none _ _) E _ Hs) as H. simpl in H. by rewrite Z.eqb_refl in H.
Qed.

Lemma render_streams out m c :
  Z.of_nat (length out) = SAMPLES_PER_FRAME -> streams (render out m).2 !! c = streams m !! c ≫= advance.
Proof.
  intros Hlen. unfold render. rewrite length_map, (proj2 (Z.eqb_eq _ _) Hlen). cbn [negb snd streams set_streams].
  rewrite delete_all_lookup, render_loop_finished, render_loop_streams, find_hash_iter by apply NoDup_hash_iter.
  cbn [r_finished r_streams app]. destruct (streams m !! c) as [s|] eqn:Hs; cbn [fmap option_fmap option_map mbind option_bind snd].
  - unfold advance. assert (c ∈ (retain (fun e => released e.2) (hash_iter (streams m))).*1 <-> released s = true) as Hiff.
    { split.
      - intros ([k s'] & Hk & Hin)%list_elem_of_fmap. simpl in Hk. subst k. apply elem_of_retain in Hin as [Hin Hr].
        apply elem_of_hash_iter in Hin. simpl in Hr. congruence.
      - intros Hr. apply (list_elem_of_fmap_2 fst _ (c, s)). apply elem_of_retain. by rewrite elem_of_hash_iter. }
    destruct (released s); [by rewrite bool_decide_eq_true_2 by (by apply Hiff)|].
    rewrite bool_decide_eq_false_2; [done|]. rewrite Hiff. done.
  - by case_match.
Qed.

(** How many contributed does not depend on the order either. *)
Lemma render_contributors out m :
  Z.of_nat (length out) = SAMPLES_PER_FRAME ->
  (render out m).1.1 = if deafened m then 0%nat else length (retain (fun e => audible e.2) (map_to_list (streams m))).
Proof.
  intros Hlen. unfold render. rewrite length_map, (proj2 (Z.eqb_eq _ _) Hlen). cbn [negb fst].
  rewrite render_loop_contributors. cbn [r_contributors]. destruct (deafened m); [done|]. apply Permutation_length.
  unfold retain. apply filter_Permutation, hash_iter_perm.
Qed.

Lemma with_stream_lookup client f m c :
  streams (with_stream client f m) !! c = if client =? c then f <$> streams m !! c else streams m !! c.
Proof.
  unfold with_stream. destruct (Z.eqb_spec client c) as [->|Hne].
  - destruct (streams m !! c) as [s|] eqn:E; cbn [streams set_streams]; [by rewrite lookup_insert_eq | by rewrite E].
  - destruct (streams m !! client); cbn [streams set_streams]; [by rewrite lookup_insert_ne | done].
Qed.

Lemma mixer_step_solo op m c : streams (mixer_step op m) !! c = solo_step c op (streams m !! c).
Proof.
  destruct op as [packet|out|client g|client muted|g|b|client|]; cbn [mixer_step solo_step].
  - unfold accept. destruct (Z.eqb_spec (down_sender packet) c) as [E|Hne].
    + rewrite E. destruct (streams m !! c) as [s|] eqn:Hs; [cbn; by rewrite lookup_insert_eq|].
      destruct new_decoder; cbn [snd streams set_streams]; [done | by rewrite lookup_insert_eq].
    + destruct (streams m !! down_sender packet); [cbn; by rewrite lookup_insert_ne|].
      destruct new_decoder; cbn [snd streams set_streams]; [done | by rewrite lookup_insert_ne].
  - destruct (Z.eqb_spec (Z.of_nat (length out)) SAMPLES_PER_FRAME) as [E|E]; [by apply render_streams|].
    unfold render. by rewrite length_map, (proj2 (Z.eqb_neq _ _) E).
  - apply with_stream_lookup.
  - apply with_stream_lookup.
  - done.
  - done.
  - cbn. destruct (Z.eqb_spec client c) as [->|]; [by rewrite lookup_delete_eq | by rewrite lookup_delete_ne].
  - done.
Qed.

Lemma mixer_run_solo ops m c :
  streams (fold_left (fun m op => mixer_step op m) ops m) !! c =
  fold_left (fun o op => solo_step c op o) ops (streams m !! c).
Proof. revert m. induction ops as [|op ops IH]; intros m; cbn [fold_left]; [done|]. by rewrite IH, mixer_step_solo. Qed.

(** ** The samples *)

Definition in_range (x : f32) : Prop := fle (f32_of (-1)) x = true /\ fle x (f32_of 1) = true.

(** Every product of a decoded sample and a volume is a number. *)
Definition sane (m : VoiceMixer) : Prop :=
  forall c s pcm, streams m !! c = Some s -> (play_stream s).1 = Some pcm ->
    Forall (fun x => finite (f32_mul x (f32_mul (gain s) (master_gain m))) = true) pcm.

Lemma mix_in_numbers out pcm g :
  Forall (fun x => is_nan x = false) out -> Forall (fun x => finite (f32_mul x g) = true) pcm ->
  Forall (fun x => is_nan x = false) (mix_in out pcm g).
Proof.
  intros Hout. revert pcm. induction Hout as [|x out Hx Hout IH]; intros [|y pcm] Hpcm; simpl; auto.
  apply Forall_cons in Hpcm as [Hy Hpcm]. constructor; [by apply f32_add_nan | by apply IH].
Qed.

Lemma render_loop_length master deaf l r : length (r_out (fold_left (render_stream master deaf) l r)) = length (r_out r).
Proof.
  revert r. induction l as [|[c s] l IH]; intros r; cbn [fold_left]; [done|]. rewrite IH, render_stream_eq. cbn [r_out].
  repeat case_match; rewrite ?length_mix_in; done.
Qed.

Lemma render_loop_numbers master deaf l r :
  (forall c s pcm, (c, s) ∈ l -> (play_stream s).1 = Some pcm ->
    Forall (fun x => finite (f32_mul x (f32_mul (gain s) master)) = true) pcm) ->
  Forall (fun x => is_nan x = false) (r_out r) ->
  Forall (fun x => is_nan x = false) (r_out (fold_left (render_stream master deaf) l r)).
Proof.
  revert r. induction l as [|[c s] l IH]; intros r Hl Hr; cbn [fold_left]; [done|]. apply IH.
  - intros c' s' pcm Hin. apply (Hl c'). by right.
  - rewrite render_stream_eq. cbn [r_out]. destruct (play_stream s).1 as [pcm|] eqn:E; [|done]. case_match; [done|].
    apply mix_in_numbers; [done|]. apply (Hl c s pcm); [by left | done].
Qed.

Lemma clip_in_range x : is_nan x = false -> in_range (clip x).
Proof. by apply fclamp_range. Qed.

(** A loop that mixes nothing in leaves the silence it was given. *)
Lemma render_loop_silent master deaf l r :
  r_contributors (fold_left (render_stream master deaf) l r) = r_contributors r ->
  r_out (fold_left (render_stream master deaf) l r) = r_out r.
Proof.
  intros H. rewrite render_loop_contributors in H.
  assert (Forall (fun e => audible e.2 && negb deaf = false) l) as Hl.
  { destruct deaf; [apply Forall_true; intros; apply andb_false_r|]. apply Forall_forall. intros e He. rewrite andb_true_r.
    destruct (audible e.2) eqn:E; [|done]. assert (e ∈ retain (fun e => audible e.2) l) as Hin by (by apply elem_of_retain).
    destruct (retain _ l); [by apply not_elem_of_nil in Hin | simpl in H; lia]. }
  clear H. revert r. induction Hl as [|[c s] l Hs _ IH]; intros r; cbn [fold_left]; [done|]. rewrite IH, render_stream_eq.
  cbn [r_out]. unfold audible in Hs. cbn [snd] in Hs. destruct (play_stream s).1; [|done]. by destruct (smuted s), deaf.
Qed.
End VoiceMixer.
