(* ===== verification/Speakers.v ===== *)
(** * What a listener hears

    The properties of [Mixer]: speakers do not affect each other, the sound card always gets a
    whole frame in range, and a speaker who stops is forgotten. *)

From S2P Require Export Mixer.

(** ** A buffer nobody feeds *)

(** Too few packets to start playing. *)
Definition dry (j : JitterBuffer) : Prop := playing j = false /\ (size (packets j) < target_frames j)%nat.

Lemma pop_dry j : dry j -> pop j = (None, j).
Proof. intros [Hp Hs]. unfold pop. rewrite Hp. cbn [negb]. by rewrite (proj2 (Nat.ltb_lt _ _) Hs). Qed.

(** All that is held comes before [b]. *)
Definition held_below (j : JitterBuffer) (b : Z) : Prop := forall k, is_Some (packets j !! k) -> k < b.

Lemma starts_at_unique j n n' : starts_at j n -> starts_at j n' -> n = n'.
Proof. unfold starts_at. destruct (playing j); [congruence|]. intros [_ ?] [_ ?]. congruence. Qed.

Lemma dry_or_starts j : jitter_ok j -> dry j \/ exists n, starts_at j n.
Proof.
  intros [Hb _ Hnext _]. unfold dry, starts_at. destruct (playing j) eqn:Hp.
  - right. destruct (next_extended j) as [n|]; [by exists n|]. by destruct Hnext as [_ []].
  - destruct (Nat.lt_ge_cases (size (packets j)) (target_frames j)) as [|Hsz]; [by left|]. right.
    destruct (oldest_key (packets j)) as [n|] eqn:E; [by exists n|]. apply oldest_key_none in E. rewrite E, map_size_empty in Hsz. lia.
Qed.

(** A buffer that is playing, or may start, does so from [n]: a packet, a gap, or an underrun. *)
Lemma pop_from j n :
  jitter_ok j -> starts_at j n ->
  ((exists p, packets j !! n = Some p /\
      pop j = (Some (Frame p), set_next (Some (n + 1)) (set_packets (delete n (packets j)) (set_playing true j)))) \/
   (packets j !! n = None /\ packets j <> ∅ /\ playing j = true /\
      pop j = (Some Lost, set_next (Some (n + 1)) (set_stats count_lost j))) \/
   (packets j = ∅ /\ playing j = true /\
      pop j = (None, set_next None (set_playing false (set_stats count_underrun j))))).
Proof.
  intros Hok Hn. destruct (pop_cases j Hok) as [[E Hp] | (n' & Hn' & H)].
  - exfalso. unfold starts_at in Hn. rewrite Hp in Hn. destruct Hn as [Hsz Ho]. revert E. unfold pop. rewrite Hp. cbn [negb].
    rewrite (proj2 (Nat.ltb_ge _ _) Hsz). unfold play_next. cbn [next_extended set_next set_playing packets]. rewrite Ho.
    apply oldest_key_spec in Ho as [[p ->] _]. done.
  - by rewrite (starts_at_unique j n n' Hn Hn').
Qed.

Lemma pop_progress j n b :
  jitter_ok j -> starts_at j n -> held_below j b ->
  dry (pop j).2 \/ (starts_at (pop j).2 (n + 1) /\ held_below (pop j).2 b /\ n < b).
Proof.
  intros Hok Hn Hb. pose proof (jo_bounds j Hok) as [Ht _].
  destruct (pop_from j n Hok Hn) as [(p & Hpk & ->) | [(Hnone & Hne & Hp & ->) | (He & Hp & ->)]]; cbn [snd].
  - right. split; [done|]. split; [|by apply Hb].
    intros k [q Hk]. cbn [packets set_next set_packets] in Hk. apply lookup_delete_Some in Hk as [_ Hk]. by apply Hb.
  - right. split; [unfold starts_at; cbn; by rewrite Hp|]. split; [exact Hb|].
    apply map_choose in Hne as (k & q & Hk). specialize (Hb k (mk_is_Some _ _ Hk)).
    pose proof (starts_at_oldest j n k Hok Hn (mk_is_Some _ _ Hk)). lia.
  - left. split; [done|]. cbn. rewrite He, map_size_empty. lia.
Qed.

Section Speakers.
Context {O : Opus}.

Definition stream_ok (s : SenderStream) : Prop := jitter_ok (jitter s) /\ 0 <= idle_frames s.

Lemma play_stream_jitter s : jitter (play_stream s).2 = (pop (jitter s)).2.
Proof. unfold play_stream. by repeat case_match. Qed.

Lemma play_stream_ok s : stream_ok s -> stream_ok (play_stream s).2.
Proof.
  intros [Hj Hi]. split; [rewrite play_stream_jitter; by apply pop_ok|]. unfold play_stream, u32_max. repeat case_match; cbn [snd idle_frames]; lia.
Qed.

(** One [render] after another, with no packet in between. *)
Fixpoint left_alone (n : nat) (o : option SenderStream) : option SenderStream :=
  match n with 0%nat => o | S n => left_alone n (o ≫= advance) end.

Lemma left_alone_none n : left_alone n None = None.
Proof. induction n; simpl; auto. Qed.

Lemma left_alone_S n s : left_alone (S n) (Some s) = if released s then None else left_alone n (Some (play_stream s).2).
Proof. simpl. unfold advance. destruct (released s); [apply left_alone_none | done]. Qed.

Lemma dry_play s : dry (jitter s) -> play_stream s =
  (None, mkStream (jitter s) (sdecoder s) (gain s) (smuted s) false (Z.min u32_max (idle_frames s + 1))).
Proof. intros H. unfold play_stream. by rewrite pop_dry. Qed.

Lemma dry_released k s :
  dry (jitter s) -> 0 <= idle_frames s -> IDLE_FRAMES_BEFORE_RELEASE < idle_frames s + Z.of_nat k -> (0 < k)%nat ->
  left_alone k (Some s) = None.
Proof.
  revert s. induction k as [|k IH]; intros s Hd Hi Hk Hpos; [lia|]. rewrite left_alone_S. unfold released.
  rewrite dry_play by done. cbn [snd idle_frames]. destruct (Z.ltb_spec IDLE_FRAMES_BEFORE_RELEASE (Z.min u32_max (idle_frames s + 1)));
    [done|]. unfold IDLE_FRAMES_BEFORE_RELEASE, u32_max in *. apply IH; cbn [jitter idle_frames]; [done | lia..].
Qed.

Lemma silent_speaker_leaves k s n b :
  stream_ok s -> starts_at (jitter s) n -> held_below (jitter s) b -> b - n <= Z.of_nat k ->
  left_alone (S k + 101) (Some s) = None.
Proof.
  revert s n. induction k as [|k IH]; intros s n Hs Hn Hb Hk; pose proof (play_stream_ok s Hs) as Hs';
    change (S ?k + 101)%nat with (S (k + 101)); rewrite left_alone_S; destruct (released s); try done;
    destruct (pop_progress (jitter s) n b (proj1 Hs) Hn Hb) as [Hd | (Hn' & Hb' & Hlt)];
    rewrite <- play_stream_jitter in *.
  1, 3: destruct Hs'; apply dry_released; unfold IDLE_FRAMES_BEFORE_RELEASE; done || lia.
  - lia.
  - apply (IH _ (n + 1)); done || lia.
Qed.

(** ** Every stream is well formed *)

Definition mixer_ok (m : VoiceMixer) : Prop := map_Forall (fun _ s => stream_ok s) (streams m).

Lemma take_packet_ok packet s : stream_ok s -> stream_ok (take_packet packet s).
Proof.
  intros [Hj Hi]. split; [|done]. unfold take_packet. cbn [jitter]. apply push_ok. by case_match; [apply reset_ok|].
Qed.

Lemma new_stream_ok d : stream_ok (new_stream d).
Proof. split; [apply new_jitter_ok | done]. Qed.

Lemma advance_ok s s' : stream_ok s -> advance s = Some s' -> stream_ok s'.
Proof. unfold advance. intros Hs. destruct (released s); [done|]. intros [= <-]. by apply play_stream_ok. Qed.

Lemma solo_step_ok c op o s :
  (forall s, o = Some s -> stream_ok s) -> solo_step c op o = Some s -> stream_ok s.
Proof.
  intros Ho. destruct op as [packet|out|client g|client muted|g|b|client|]; cbn [solo_step]; try by apply Ho.
  - case_match; [|apply Ho]. destruct o as [s0|]; [intros [= <-]; apply take_packet_ok; by apply Ho|].
    destruct new_decoder as [|d]; intros [= <-]. apply take_packet_ok, new_stream_ok.
  - case_match; [|apply Ho]. destruct o as [s0|]; [|done]. cbn. apply advance_ok. by apply Ho.
  - case_match; [|apply Ho]. destruct o as [s0|]; intros [= <-]. exact (Ho s0 eq_refl).
  - case_match; [|apply Ho]. destruct o as [s0|]; intros [= <-]. exact (Ho s0 eq_refl).
  - case_match; [done | apply Ho].
  - done.
Qed.

Context {HO : HashOrder} {L : HashOrderLaws HO}.

Definition mixer_run (ops : list MixerOp) (m : VoiceMixer) : VoiceMixer := fold_left (fun m op => mixer_step op m) ops m.

Lemma mixer_run_ok ops m : mixer_ok m -> mixer_ok (mixer_run ops m).
Proof.
  unfold mixer_run. revert m. induction ops as [|op ops IH]; intros m Hm; [done|]. apply IH. intros c s Hs.
  rewrite mixer_step_solo in Hs. eapply solo_step_ok; [|exact Hs]. apply Hm.
Qed.

(** What a buffer keeps through packets and pops, every stream's buffer has. *)
Lemma mixer_run_buffers (P : JitterBuffer -> Prop) ops :
  P JitterBuffer_default -> (forall j, P j -> P (reset j)) -> (forall j seq p, P j -> P (push j seq p)) ->
  (forall j, P j -> P (pop j).2) ->
  forall m, map_Forall (fun _ s => P (jitter s)) (streams m) -> map_Forall (fun _ s => P (jitter s)) (streams (mixer_run ops m)).
Proof.
  intros Hnew Hreset Hpush Hpop. unfold mixer_run. induction ops as [|op ops IH]; intros m Hm; [done|]. apply IH. intros c s Hs.
  rewrite mixer_step_solo in Hs. pose proof (Hm c) as Hc. cbv beta in Hc. clear Hm IH. set (o := streams m !! c) in *. clearbody o.
  assert (forall packet s, P (jitter s) -> P (jitter (take_packet packet s))) as Htake.
  { intros packet s0 H0. unfold take_packet. cbn [jitter]. apply Hpush. case_match; auto. }
  destruct op as [packet|out|client g|client mute|g|b|client|]; cbn [solo_step] in Hs; try done; try (by apply Hc).
  - case_match; [|by apply Hc]. destruct o as [s0|]; [injection Hs as <-; by apply Htake, Hc|].
    destruct new_decoder; [done|]. injection Hs as <-. by apply Htake.
  - case_match; [|by apply Hc]. destruct o as [s0|]; [|done]. cbn in Hs. unfold advance in Hs.
    destruct (released s0); [done|]. injection Hs as <-. rewrite play_stream_jitter. by apply Hpop, Hc.
  - case_match; [|by apply Hc]. destruct o as [s0|]; [|done]. injection Hs as <-. exact (Hc s0 eq_refl).
  - case_match; [|by apply Hc]. destruct o as [s0|]; [|done]. injection Hs as <-. exact (Hc s0 eq_refl).
  - case_match; [done | by apply Hc].
Qed.

Lemma new_mixer_ok : mixer_ok new_mixer.
Proof. apply map_Forall_empty. Qed.

Lemma left_alone_renders k m c out :
  Z.of_nat (length out) = SAMPLES_PER_FRAME ->
  streams (mixer_run (replicate k (MRender out)) m) !! c = left_alone k (streams m !! c).
Proof.
  intros Hlen. unfold mixer_run. revert m. induction k as [|k IH]; intros m; [done|]. cbn [replicate fold_left left_alone].
  rewrite IH, mixer_step_solo. cbn [solo_step]. by rewrite (proj2 (Z.eqb_eq _ _) Hlen).
Qed.
End Speakers.

(** ** How long a speaker lingers *)

(** The slot playback is at, or would start from. *)
Definition first_slot (j : JitterBuffer) : option Z :=
  if playing j then next_extended j
  else if (target_frames j <=? size (packets j))%nat then oldest_key (packets j) else None.

(** How many slots there are up to the last packet held, gaps included. *)
Definition backlog (j : JitterBuffer) : nat :=
  match first_slot j with
  | None => 0
  | Some n => Z.to_nat (foldr Z.max n (btree_iter (packets j)).*1 + 1 - n)
  end.

Lemma first_slot_starts j n : first_slot j = Some n <-> starts_at j n.
Proof.
  unfold first_slot, starts_at. destruct (playing j); [done|]. destruct (Nat.leb_spec (target_frames j) (size (packets j))); [tauto|].
  split; [done|]. lia.
Qed.

Lemma left_alone_leaves {O : Opus} s : stream_ok s -> left_alone (backlog (jitter s) + 102) (Some s) = None.
Proof.
  intros Hs. unfold backlog. destruct (first_slot (jitter s)) as [n|] eqn:Hn.
  - apply first_slot_starts in Hn. set (top := foldr Z.max n (btree_iter (packets (jitter s))).*1).
    replace (Z.to_nat (top + 1 - n) + 102)%nat with (S (Z.to_nat (top + 1 - n)) + 101)%nat by lia.
    apply (silent_speaker_leaves _ s n (top + 1)); [done | done | | lia].
    intros k [p Hp]. apply elem_of_btree_iter in Hp. apply (list_elem_of_fmap_2 fst) in Hp.
    assert (k <= top) by (apply foldr_max_ge; exact Hp). lia.
  - destruct (dry_or_starts (jitter s) (proj1 Hs)) as [Hd | [n H]]; [|apply first_slot_starts in H; congruence].
    apply dry_released; [done | apply Hs | | lia]. unfold IDLE_FRAMES_BEFORE_RELEASE. destruct Hs. lia.
Qed.

(** One packet numbered far ahead is waited for slot by slot. *)
Fixpoint pops (k : nat) (j : JitterBuffer) : list (option JitterOutput) :=
  match k with 0%nat => [] | S k => (pop j).1 :: pops k (pop j).2 end.

Lemma a_gap_is_concealed_slot_by_slot gap j n p :
  playing j = true -> next_extended j = Some n -> packets j = {[n + Z.of_nat gap := p]} ->
  pops gap j = replicate gap (Some Lost).
Proof.
  revert j n. induction gap as [|gap IH]; intros j n Hp Hn Hm; [done|].
  assert (pop j = (Some Lost, set_next (Some (n + 1)) (set_stats count_lost j))) as E.
  { unfold pop, play_next. rewrite Hp. cbn [negb]. rewrite Hn, Hm, lookup_singleton_ne by lia. by rewrite map_size_singleton. }
  cbn [pops replicate]. rewrite E. cbn [fst snd]. f_equal. apply (IH _ (n + 1)); [done..|]. cbn [packets set_next set_stats].
  rewrite Hm. by replace (n + 1 + Z.of_nat gap) with (n + Z.of_nat (S gap)) by lia.
Qed.

(** ** The properties *)

(** C36: Speakers do not affect each other, whatever order the hash map visits them in: after any packets, renders, volume changes and departures the stream of one speaker is what that speaker's own packets, volumes and departures and the renders alone make of it; nobody else's jitter, loss or decoding errors, nor the master volume, nor being deafened changes it. *)
Theorem speakers_are_independent {O : Opus} {HO : HashOrder} {L : HashOrderLaws HO} ops m c :
  streams (mixer_run ops m) !! c = fold_left (fun o op => solo_step c op o) ops (streams m !! c).
Proof. apply mixer_run_solo. Qed.

(** C37: Rendering always fills the whole buffer it is given, and never with what was there: a buffer of the wrong size is pure silence, counts nobody and plays nothing of any stream; a frame to which nobody contributes is pure silence, deafened always; and as long as every single decoded sample times its volume is a number, every sample of the mix is a number within full scale, however many speakers there are and even where their sum overflows. *)
Theorem the_sound_card_always_gets_a_frame {O : Opus} {HO : HashOrder} {L : HashOrderLaws HO} out m :
  let '(contributors, out', m') := render out m in
  length out' = length out /\
  (Z.of_nat (length out) <> SAMPLES_PER_FRAME ->
    contributors = 0%nat /\ m' = m /\ out' = replicate (length out) (S754_zero false)) /\
  (contributors = 0%nat -> out' = replicate (length out) (S754_zero false)) /\
  (deafened m = true -> contributors = 0%nat) /\
  (sane m -> Forall in_range out').
Proof.
  assert (map (fun _ => S754_zero false) out = replicate (length out) (S754_zero false)) as E.
  { induction out; simpl; congruence. }
  assert (forall n, map clip (replicate n (S754_zero false)) = replicate n (S754_zero false)) as Hclip.
  { assert (clip (S754_zero false) = S754_zero false) as Hz by (vm_compute; reflexivity).
    induction n as [|n IH]; [done|]. cbn [replicate map]. by rewrite Hz, IH. }
  unfold render. rewrite E, length_replicate. destruct (Z.eqb_spec (Z.of_nat (length out)) SAMPLES_PER_FRAME) as [Hl|Hl]; cbn [negb].
  2:{ rewrite length_replicate. split_and!; try done. intros _. apply Forall_replicate. by split. }
  split_and!.
  - rewrite length_map, render_loop_length. apply length_replicate.
  - by intros [].
  - intros H. rewrite render_loop_silent by exact H. apply Hclip.
  - intros Hd. rewrite render_loop_contributors, Hd. done.
  - intros Hsane. apply Forall_map. eapply Forall_impl; [|apply clip_in_range]. apply render_loop_numbers.
    + intros c s pcm Hin. exact (Hsane c s pcm (proj1 (elem_of_hash_iter _ _ _) Hin)).
    + by apply Forall_replicate.
Qed.

(** C38: A speaker who stops is forgotten, whatever was received before and however the packets were numbered: from any state of a mixer, once no more packets come, the stream is gone after the slots up to the last packet it holds, and the 102 frames that let it run dry and count two seconds of silence. *)
Theorem a_speaker_who_stops_is_forgotten {O : Opus} {HO : HashOrder} {L : HashOrderLaws HO} ops c s out :
  Z.of_nat (length out) = SAMPLES_PER_FRAME ->
  let m := mixer_run ops new_mixer in
  streams m !! c = Some s ->
  streams (mixer_run (replicate (backlog (jitter s) + 102) (MRender out)) m) !! c = None.
Proof.
  intros Hlen m Hs. rewrite left_alone_renders, Hs by done. apply left_alone_leaves.
  exact (mixer_run_ok ops new_mixer new_mixer_ok c s Hs).
Qed.

(** ** A concrete channel *)

Module Sample_mixer.
Import Toy_codec MapOrder.

Definition blank : list f32 := replicate (Z.to_nat SAMPLES_PER_FRAME) S754_nan.
Definition packet (c seq flags level : Z) : MixerOp := MAccept (mkDown c seq flags [level]).

(** Two people talking over each other, one of them on a link that reorders, one turned down. *)
Definition conversation : list MixerOp :=
  [packet 1 0 FLAG_BURST_START 90; packet 2 0 FLAG_BURST_START 80; packet 2 2 0 82; packet 1 1 0 91; packet 2 1 0 81;
   packet 1 2 0 92; MGain 2 (f32_of (-3)); MRender blank; MRender blank; MMuted 1 true].

Definition gains_of (m : VoiceMixer) : list (ClientId * f32) := map (fun e => (e.1, gain e.2)) (map_to_list (streams m)).

Lemma speakers_are_independent_witness :
  (jstats ∘ jitter <$> streams (mixer_run conversation new_mixer) !! 2) =
  (jstats ∘ jitter <$> fold_left (fun o op => solo_step 2 op o) conversation (streams new_mixer !! 2)).
Proof. exact (f_equal (fmap (jstats ∘ jitter)) (speakers_are_independent conversation new_mixer 2)). Defined.

Definition overlapping : VoiceMixer := mixer_run (take 6 conversation) new_mixer.

Definition saneb (m : VoiceMixer) : bool :=
  all_entries (fun _ s => match (play_stream s).1 with
    | Some pcm => forallb (fun x => finite (f32_mul x (f32_mul (gain s) (master_gain m)))) pcm
    | None => true
    end) (streams m).

Lemma saneb_spec m : saneb m = true -> sane m.
Proof.
  intros H c s pcm Hs Hp. pose proof (all_entries_spec _ _ H c s Hs) as Hc. cbv beta in Hc. rewrite Hp in Hc.
  apply Forall_forall. intros x Hx. apply list_elem_of_In in Hx. exact (proj1 (forallb_forall _ _) Hc x Hx).
Qed.

(** Two speakers whose sum is beyond full scale; and a buffer that is one sample short, with both
    of them waiting to be played. *)
Lemma the_sound_card_always_gets_a_frame_witness :
  Forall in_range (render blank overlapping).1.2 /\ head (render blank overlapping).1.2 = Some (f32_of 1) /\
  render (tail blank) overlapping = (0%nat, replicate (length (tail blank)) (S754_zero false), overlapping).
Proof.
  split_and!; [|vm_compute; reflexivity|].
  - pose proof (the_sound_card_always_gets_a_frame blank overlapping) as H.
    destruct (render blank overlapping) as [[n out'] m']. destruct H as (_ & _ & _ & _ & H). apply H, saneb_spec. vm_compute. reflexivity.
  - pose proof (the_sound_card_always_gets_a_frame (tail blank) overlapping) as H.
    destruct (render (tail blank) overlapping) as [[n out'] m']. destruct H as (_ & H & _).
    destruct H as (-> & -> & ->); [|done]. assert (Hl : length (tail blank) = 959%nat) by (vm_compute; reflexivity). by rewrite Hl.
Defined.

Lemma a_speaker_who_stops_is_forgotten_witness :
  streams (mixer_run (replicate (backlog JitterBuffer_default + 3 + 102) (MRender blank))
    (mixer_run (take 6 conversation) new_mixer)) !! 2 = None.
Proof.
  assert (exists s, streams (mixer_run (take 6 conversation) new_mixer) !! 2 = Some s /\
    backlog (jitter s) = (backlog JitterBuffer_default + 3)%nat) as (s & Hs & Hb).
  { destruct (streams (mixer_run (take 6 conversation) new_mixer) !! 2) as [s|] eqn:E.
    - exists s. split; [done|]. assert (backlog ∘ jitter <$> Some s = Some 3%nat) as [= H]; [|exact H].
      rewrite <- E. vm_compute. reflexivity.
    - exfalso. assert (backlog ∘ jitter <$> (None : option SenderStream) = Some 3%nat) as H; [|done].
      rewrite <- E. vm_compute. reflexivity. }
  rewrite <- Hb. apply (a_speaker_who_stops_is_forgotten (take 6 conversation) 2 s blank); [vm_compute; reflexivity | exact Hs].
Defined.

(** A packet numbered far ahead, after three ordinary ones: the stream goes on concealing for
    as many frames as there are numbers in between. *)
Lemma one_packet_far_ahead_lingers :
  (fun s => (backlog (jitter s), sspeaking s)) <$>
    streams (mixer_run [packet 1 0 FLAG_BURST_START 90; packet 1 1 0 91; packet 1 2 0 92; packet 1 1000 0 1;
                        MRender blank; MRender blank; MRender blank; MRender blank] new_mixer) !! 1 =
  Some (997%nat, true).
Proof. vm_compute. reflexivity. Qed.

(** A burst of fewer frames than the buffer waits for is never heard: its end is not looked at. *)
Lemma a_short_burst_is_not_heard :
  (fun s => pops 110 (jitter s)) <$>
    streams (mixer_run [packet 1 0 FLAG_BURST_START 90; packet 1 1 FLAG_BURST_END 91] new_mixer) !! 1 =
  Some (replicate 110 None).
Proof. vm_compute. reflexivity. Qed.
End Sample_mixer.
