(* ===== verification/Resample.v ===== *)
(** * Sample rate conversion ([crates/pickle-audio/src/resample.rs])

    A Kaiser-windowed sinc, streamed: [feed] appends input to a buffer of fixed length, [pull]
    convolves it with the kernel as far as it reaches, [compact] drops what is behind.  An index
    out of range or a subtraction below zero is a panic, which is [None] here.  Then what holds of
    the buffer: the position, rounded at every step, never leaves the room that was made for it. *)

From S2P Require Export Floats.

Definition HALF_ZEROS : Z := 32.
Definition DENSITY : Z := 512.
Definition BETA : f64 := f64_of 9.
Definition CUTOFF : f64 := f64_lit 9 10.

(** [std::f64::consts::PI] *)
Definition PI : f64 := S754_finite false 7074237752028440 (-51).

Definition fabs (x : spec_float) : spec_float := SFabs x.

Section Kernel.
Context {M : Libm}.

Definition sinc (x : f64) : f64 :=
  if flt (fabs x) (f64_lit 1 (10 ^ 12)) then f64_of 1
  else let pi_x := f64_mul PI x in f64_div (f64_sin pi_x) pi_x.

(** The turns [for k in 1..64], from [k] on; [turns] of them are left. *)
Fixpoint bessel_loop (turns : nat) (k : Z) (half_x_squared term sum : f64) : f64 :=
  match turns with
  | O => sum
  | S turns =>
      let term := f64_mul term (f64_div half_x_squared (f64_of (k * k))) in
      let sum := f64_add sum term in
      if flt term (f64_mul sum (f64_lit 1 (10 ^ 17))) then sum
      else bessel_loop turns (k + 1) half_x_squared term sum
  end.

Definition bessel_i0 (x : f64) : f64 :=
  let half := f64_div x (f64_of 2) in
  bessel_loop 63 1 (f64_mul half half) (f64_of 1) (f64_of 1).

Definition kernel_entry (denominator : f64) (i : Z) : f32 :=
  let u := f64_div (f64_of i) (f64_of DENSITY) in
  let edge := f64_div u (f64_of HALF_ZEROS) in
  if fle (f64_of 1) edge then S754_zero false
  else
    let window :=
      f64_div (bessel_i0 (f64_mul BETA (f64_sqrt (f64_sub (f64_of 1) (f64_mul edge edge))))) denominator in
    narrow (f64_mul (sinc u) window).

Definition kernel_len : Z := HALF_ZEROS * DENSITY + 2.

(** The shared table. *)
Definition kernel_table : list f32 :=
  let denominator := bessel_i0 BETA in
  map (fun i => kernel_entry denominator (Z.of_nat i)) (seq 0 (Z.to_nat kernel_len)).
End Kernel.

Record Resampler : Type := mkResampler {
  kernel : list f32;
  fc : f64;
  half_width : f64;
  rstep : f64;
  buf : list f32;
  len : nat;
  pos : f64 }.

Definition set_window (b : list f32) (n : nat) (p : f64) (r : Resampler) : Resampler :=
  mkResampler (kernel r) (fc r) (half_width r) (rstep r) b n p.

Definition new_resampler {M : Libm} (in_rate out_rate : Z) (max_feed : nat) : option Resampler :=
  if (in_rate =? 0) || (out_rate =? 0) || (max_feed =? 0)%nat then None
  else
    let step := f64_div (f64_of in_rate) (f64_of out_rate) in
    let fc := f64_mul CUTOFF (fmin (f64_of 1) (f64_div (f64_of 1) step)) in
    let half_width := f64_div (f64_of HALF_ZEROS) fc in
    let capacity := Z.of_nat max_feed + 2 * to_usize (f64_ceil half_width) + to_usize (f64_ceil step) + 8 in
    Some (mkResampler kernel_table fc half_width step (replicate (Z.to_nat capacity) (S754_zero false)) 0 (S754_zero false)).

Definition latency_samples (r : Resampler) : f64 := half_width r.

Definition max_output_for (input_len : nat) (r : Resampler) : nat :=
  (Z.to_nat (to_usize (f64_ceil (f64_div (f64_of (Z.of_nat input_len)) (rstep r)))) + 2)%nat.

(** [buf.copy_within(drop..len, 0)]: the live samples move to the front, the rest stays. *)
Definition copy_within (from to : nat) (b : list f32) : list f32 := slice from to b ++ drop (to - from) b.

Definition compact (r : Resampler) : Resampler :=
  let stale := f64_sub (pos r) (half_width r) in
  if flt stale (f64_of 1) then r
  else
    let dropped := Nat.min (Z.to_nat (to_usize stale)) (len r) in
    set_window (copy_within dropped (len r) (buf r)) (len r - dropped) (f64_sub (pos r) (f64_of (Z.of_nat dropped))) r.

Definition space (r : Resampler) : nat * Resampler :=
  let r := compact r in ((length (buf r) - len r)%nat, r).

Definition feed (input : list f32) (r : Resampler) : nat * Resampler :=
  let r := compact r in
  let taken := Nat.min (length input) (length (buf r) - len r) in
  (taken, set_window (take (len r) (buf r) ++ take taken input ++ drop (len r + taken) (buf r)) (len r + taken) (pos r) r).

(** [kernel[whole]] and its neighbour are read only below the table's end. *)
Definition tap (tau : f64) (r : Resampler) : option f32 :=
  let index := f64_mul (f64_mul tau (fc r)) (f64_of DENSITY) in
  let whole := to_usize index in
  if Z.of_nat (length (kernel r)) <=? whole + 1 then Some (S754_zero false)
  else
    let fraction := narrow (f64_sub index (f64_of whole)) in
    match kernel r !! Z.to_nat whole, kernel r !! Z.to_nat (whole + 1) with
    | Some low, Some high => Some (f32_add low (f32_mul (f32_sub high low) fraction))
    | _, _ => None
    end.

(** [for n in first..=last]: [count] samples from [n] on. *)
Fixpoint convolve (count : nat) (n : Z) (t : f64) (acc : f32) (r : Resampler) : option f32 :=
  match count with
  | O => Some acc
  | S count =>
      match buf r !! Z.to_nat n, tap (fabs (f64_sub t (f64_of n))) r with
      | Some x, Some y => convolve count (n + 1) t (f32_add acc (f32_mul x y)) r
      | _, _ => None
      end
  end.

Definition sample_at (t : f64) (r : Resampler) : option f32 :=
  let first := f64_ceil (f64_sub t (half_width r)) in
  let first := if flt first (f64_of 0) then 0 else to_usize first in
  match len r with
  | O => None
  | S before_last =>
      let last := Z.min (to_usize (f64_floor (f64_add t (half_width r)))) (Z.of_nat before_last) in
      match convolve (Z.to_nat (last + 1 - first)) first t (f32_of 0) r with
      | Some acc => Some (f32_mul acc (narrow (fc r)))
      | None => None
      end
  end.

(** Whether the rightmost tap is still to come. *)
Definition starved (r : Resampler) : bool := fle (f64_of (Z.of_nat (len r))) (f64_add (pos r) (half_width r)).

(** At most [room] samples, what [out] has left. *)
Fixpoint pull (room : nat) (r : Resampler) : option (list f32 * Resampler) :=
  match room with
  | O => Some ([], r)
  | S room =>
      if starved r then Some ([], r)
      else
        match sample_at (pos r) r with
        | None => None
        | Some x =>
            match pull room (set_window (buf r) (len r) (f64_add (pos r) (rstep r)) r) with
            | Some (out, r) => Some (x :: out, r)
            | None => None
            end
        end
  end.

Definition reset_resampler (r : Resampler) : Resampler :=
  set_window (map (fun _ => S754_zero false) (buf r)) 0 (S754_zero false) r.

(** ** The window *)

Definition live (r : Resampler) : list f32 := take (len r) (buf r).

Definition window_ok (r : Resampler) : Prop := (len r <= length (buf r))%nat.

Lemma length_copy_within from to (b : list f32) :
  (from <= to <= length b)%nat -> length (copy_within from to b) = length b.
Proof. intros H. unfold copy_within, slice. rewrite length_app, length_take, !length_drop. lia. Qed.

(** Compacting forgets a prefix and nothing else, and allocates nothing. *)
Lemma compact_spec r :
  window_ok r ->
  window_ok (compact r) /\ length (buf (compact r)) = length (buf r) /\
  exists dropped, (dropped <= len r)%nat /\ live (compact r) = drop dropped (live r).
Proof.
  unfold window_ok, live. intros H. unfold compact. destruct (flt _ _).
  { split; [done|]. split; [done|]. exists 0%nat. split; [lia|]. by rewrite drop_0. }
  set (d := Nat.min _ (len r)). assert (d <= len r)%nat by lia. cbn [len buf set_window].
  rewrite length_copy_within by lia. split; [lia|]. split; [done|]. exists d. split; [done|].
  unfold copy_within, slice. rewrite take_app_length'.
  - by rewrite take_drop_commute, Nat.add_comm, Nat.sub_add by lia.
  - rewrite length_take, length_drop. lia.
Qed.

(** What [feed] takes is appended; what it takes is what there is room for. *)
Lemma feed_spec input r :
  window_ok r ->
  let '(taken, r') := feed input r in
  window_ok r' /\ length (buf r') = length (buf r) /\ (taken <= length input)%nat /\
  exists dropped, live r' = drop dropped (live r) ++ take taken input.
Proof.
  intros H. destruct (compact_spec r H) as (Hc & Hl & d & Hd & Hlive). unfold feed.
  set (k := Nat.min _ _). assert (k <= length input /\ len (compact r) + k <= length (buf (compact r)))%nat as [H1 H2].
  { unfold k, window_ok in *. lia. }
  unfold window_ok, live in *. cbn [len buf set_window]. rewrite !length_app, !length_take, length_drop. split_and!; try lia.
  exists d. rewrite <- Hlive, app_assoc. rewrite take_app_length'; [done|]. rewrite length_app, !length_take. lia.
Qed.

Lemma tap_total tau r : is_Some (tap tau r).
Proof.
  unfold tap. destruct (Z.leb_spec (Z.of_nat (length (kernel r))) (to_usize (f64_mul (f64_mul tau (fc r)) (f64_of DENSITY)) + 1)); [by eexists|].
  assert (0 <= to_usize (f64_mul (f64_mul tau (fc r)) (f64_of DENSITY))) as H0.
  { unfold to_usize, to_int. case_match; [lia | case_match; unfold u64_max; lia | lia | lia]. }
  destruct (kernel r !! Z.to_nat (to_usize _)) as [low|] eqn:E1; [|apply lookup_ge_None in E1; lia].
  destruct (kernel r !! Z.to_nat (to_usize _ + 1)) as [high|] eqn:E2; [by eexists | apply lookup_ge_None in E2; lia].
Qed.

Lemma convolve_total count n t acc r :
  0 <= n -> n + Z.of_nat count <= Z.of_nat (length (buf r)) -> is_Some (convolve count n t acc r).
Proof.
  revert n acc. induction count as [|count IH]; intros n acc Hn Hc; cbn [convolve]; [by eexists|].
  destruct (buf r !! Z.to_nat n) as [x|] eqn:E; [|apply lookup_ge_None in E; lia].
  destruct (tap_total (fabs (f64_sub t (f64_of n))) r) as [y ->]. apply IH; lia.
Qed.

Lemma to_usize_nonneg x : 0 <= to_usize x.
Proof. unfold to_usize, to_int, u64_max. repeat case_match; lia. Qed.

(** Reading a window that is not empty stays inside it. *)
Lemma sample_at_total t r : window_ok r -> (0 < len r)%nat -> is_Some (sample_at t r).
Proof.
  intros Hw Hl. unfold sample_at. set (first := if flt _ _ then 0 else _). destruct (len r) as [|k] eqn:E; [lia|].
  assert (0 <= first) as Hf by (unfold first; case_match; [lia | apply to_usize_nonneg]).
  set (last := Z.min _ _). assert (last <= Z.of_nat k) by lia. unfold window_ok in Hw.
  destruct (Z.lt_ge_cases (last + 1) first) as [H1|H1].
  - rewrite Z2Nat.nonpos by lia. cbn [convolve]. by eexists.
  - destruct (convolve_total (Z.to_nat (last + 1 - first)) first t (f32_of 0) r) as [acc ->]; [done | lia | by eexists].
Qed.

(** ** What it keeps room for

    The positions are doubles: they are followed as numbers, with the rounding of every
    operation on them. *)

From S2P Require Import Rounding.

Lemma ulp_tiny : (ulp == 1 # 4503599627370496)%Q /\ (0 <= tiny)%Q /\ (tiny <= 1 # 1048576)%Q.
Proof.
  destruct pw_numerals as (_ & _ & _ & _ & N5 & _). split_and!; [by vm_compute | lra |].
  apply (Qle_trans _ (pw (-20))); [apply pw_le; lia | by vm_compute].
Qed.

Lemma below_infinity X : (X <= 2 ^ 64)%Q -> (X < pw 1000)%Q.
Proof.
  intros H. assert (2 ^ 64 < pw 65)%Q by (by vm_compute). pose proof (pw_le 65 1000 ltac:(lia)). lra.
Qed.

(** [as usize] of a number is its floor. *)
Lemma to_usize_floor x :
  number x -> (val x <= 2 ^ 63)%Q -> (inject_Z (to_usize x) <= val x)%Q /\ (val x < inject_Z (to_usize x) + 1)%Q.
Proof.
  intros Hx Hb. destruct x as [s| | |s m e]; try done. destruct Hx as (-> & _). unfold to_usize, to_int. cbn [val] in *.
  assert (Hw : (inject_Z (whole_part m e).1 <= inject_Z (Zpos m) * pw e)%Q /\ (inject_Z (Zpos m) * pw e < inject_Z (whole_part m e).1 + 1)%Q /\
               0 <= (whole_part m e).1).
  { destruct e as [|n|n]; cbn [whole_part fst].
    - rewrite Z.shiftl_0_r. change (pw 0) with 1%Q. split_and!; [lra | lra | lia].
    - rewrite Z.shiftl_mul_pow2 by lia. rewrite inject_Z_mult, pw_Z by lia. split_and!; [lra | lra | lia].
    - rewrite Z.shiftr_div_pow2 by lia. pose proof (pw_pos (Zneg n)) as Hp.
      assert (Hinv : (inject_Z (2 ^ Zpos n) * pw (Zneg n) == 1)%Q).
      { rewrite pw_Z by lia. rewrite <- pw_add. by replace (Zpos n + Zneg n) with 0 by lia. }
      pose proof (Z.mul_div_le (Zpos m) (2 ^ Zpos n) ltac:(lia)) as H1.
      pose proof (Z.mul_succ_div_gt (Zpos m) (2 ^ Zpos n) ltac:(lia)) as H2. set (q := Zpos m / 2 ^ Zpos n) in *.
      apply inject_le in H1. rewrite inject_Z_mult in H1. rewrite Zlt_Qlt, inject_Z_mult in H2. unfold Z.succ in H2. rewrite inject_Z_plus in H2.
      change (inject_Z 1) with 1%Q in H2. split_and!; [nra | nra | apply Z.div_pos; lia]. }
  destruct Hw as (H1 & H2 & H3). set (w := (whole_part m e).1) in *.
  assert (w <= u64_max); [|replace (Z.max 0 (Z.min u64_max w)) with w by lia; done].
  rewrite Zle_Qle. apply (Qle_trans _ (2 ^ 63)); [lra | by vm_compute].
Qed.

Lemma ceil_bounds x :
  number x -> (val x <= 2 ^ 60)%Q -> number (f64_ceil x) /\ (val x <= val (f64_ceil x) <= val x + 1)%Q.
Proof.
  intros Hx Hb. destruct x as [s| | |s m e]; try done.
  destruct e as [|n|n]; cbn [f64_ceil]; try (split; [done | lra]).
  destruct (to_usize_floor _ Hx) as [H1 H2]; [apply (Qle_trans _ (2 ^ 60)); [done | by vm_compute]|].
  destruct Hx as (-> & Hc & Hl). cbn [whole_part]. unfold signed_zero. fold (f64_of (Z.shiftr (Zpos m) (Zpos n) + 1)).
  pose proof (canonical_bound _ _ Hc) as (Hm & _).
  assert (Hw : 0 <= Z.shiftr (Zpos m) (Zpos n) < 2 ^ 52).
  { rewrite Z.shiftr_div_pow2 by lia. split; [apply Z.div_pos; lia|]. apply Z.div_lt_upper_bound; [lia|].
    assert (2 ^ 1 <= 2 ^ Zpos n) by (apply Z.pow_le_mono_r; lia). lia. }
  assert (Hu : to_usize (S754_finite false m (Zneg n)) = Z.shiftr (Zpos m) (Zpos n)).
  { unfold to_usize, to_int. cbn [whole_part fst]. unfold u64_max. lia. }
  rewrite Hu in H1, H2. set (w := Z.shiftr (Zpos m) (Zpos n)) in *.
  destruct (negb _) eqn:Hd.
  - destruct (of_exact (w + 1) ltac:(lia)) as [Hn Hv]. unfold f64_of in *. rewrite Hv, inject_Z_plus. change (inject_Z 1) with 1%Q. split; [done|]. split; lra.
  - rewrite Z.add_0_r. destruct (of_exact w ltac:(lia)) as [Hn Hv]. unfold f64_of in *. rewrite Hv. split; [done|]. split; [|lra].
    apply negb_false_iff, Z.eqb_eq in Hd. rewrite Z.land_ones in Hd by lia.
    assert (Hm' : Zpos m = w * 2 ^ Zpos n).
    { unfold w. rewrite Z.shiftr_div_pow2 by lia. pose proof (Z.div_mod (Zpos m) (2 ^ Zpos n) ltac:(lia)). lia. }
    cbn [val]. rewrite Hm', inject_Z_mult, pw_Z by lia. rewrite <- Qmult_assoc, <- pw_add. replace (Zpos n + Zneg n) with 0 by lia.
    change (pw 0) with 1%Q. lra.
Qed.

(** Below zero, a difference is below one. *)
Lemma sub_below x y : number x -> number y -> (val x < val y)%Q -> flt (f64_sub x y) (f64_of 1) = true.
Proof.
  intros Hx Hy Hlt.
  assert (Hneg : forall m e, flt (binary_round 53 1024 true m e) (f64_of 1) = true).
  { intros m e. unfold binary_round. change (fexp 53 1024 (Zpos (digits2_pos m) + e)) with (fx (Zpos (digits2_pos m) + e)).
    destruct (shl_align_spec m e (fx (Zpos (digits2_pos m) + e))) as (m' & -> & Hm & Hd). set (a := Z.min e _) in *.
    destruct (round_aux_spec true m' a loc_Exact) as (k & _ & _ & _ & Hres).
    { rewrite Hd. replace (Zpos (digits2_pos m) + (e - a) + a) with (Zpos (digits2_pos m) + e) by lia. lia. }
    destruct Hres as [[_ ->] | (m2 & e2 & _ & _ & ->)]; [done|]. unfold made. by destruct (e2 <=? 971). }
  destruct x as [sx| | |sx mx ex]; try done; destruct y as [sy| | |sy my ey]; try done; unfold f64_sub; cbn [SFsub].
  - destruct Hy as (-> & _). done.
  - exfalso. pose proof (val_nonneg _ Hx). change (val (S754_zero sy)) with 0%Q in Hlt. lra.
  - destruct Hx as (-> & _), Hy as (-> & _). cbn [cond_Zopp val] in *.
    pose proof (aligned_fst mx ex (Z.min ex ey) (Z.le_min_l _ _)) as Ax. pose proof (aligned_fst my ey (Z.min ex ey) (Z.le_min_r _ _)) as Ay.
    set (a := (shl_align mx ex _).1) in *. set (b := (shl_align my ey _).1) in *. pose proof (pw_pos (Z.min ex ey)) as Hp.
    assert (inject_Z (Zpos a) < inject_Z (Zpos b))%Q as H by nra. rewrite <- Zlt_Qlt in H.
    destruct (Zpos a - Zpos b) as [|p|p] eqn:E; [lia | lia |]. apply Hneg.
Qed.

Lemma div_range (x y X a b : Q) : (0 < y)%Q -> (X * y == x)%Q -> (a * y <= x)%Q -> (x <= b * y)%Q -> (a <= X <= b)%Q.
Proof. intros Hy HX Ha Hb. split; apply (Qmult_le_r _ _ y Hy); rewrite HX; done. Qed.

Lemma doubled : (2 ^ 41 * 2 <= 2 ^ 42)%Q.
Proof. by vm_compute. Qed.

(** The kernel's reach, by the step. *)
Lemma reach_bound (c s q X : Q) :
  (0 < c)%Q -> (0 <= s)%Q -> (X * c == 32)%Q -> (q <= 4 * c)%Q -> (1 <= q * (1 + 2 * s))%Q -> (X * 2 <= 256 + 512 * s)%Q.
Proof.
  intros Hc H0 HX Hq Hs.
  assert (1 <= 4 * c * (1 + 2 * s))%Q by nra. assert (X <= 128 * (1 + 2 * s))%Q; [|lra].
  apply (Qmult_le_r _ _ c Hc). rewrite HX. nra.
Qed.

(** Rounding at most halves or doubles. *)
Lemma rounded_half X x : rounded X x -> (pw (-50) <= X)%Q -> (X <= 2 ^ 60)%Q -> number x /\ (X * (1 # 2) <= val x <= X * 2)%Q.
Proof.
  intros H Hlo Hhi. destruct (rounded_small _ _ H) as [Hn [H1 H2]]; [apply below_infinity; apply (Qle_trans _ (2 ^ 60)); [done | by vm_compute]|].
  destruct ulp_tiny as (U & T0 & _). assert (T : (tiny <= pw (-52))%Q) by (apply pw_le; lia).
  assert (P : (pw (-50) == 4 * pw (-52))%Q) by (by vm_compute). rewrite U in *. split; [done|]. split; lra.
Qed.

Lemma CUTOFF_range : number CUTOFF /\ (1 # 2 <= val CUTOFF <= 1)%Q.
Proof. split; [vm_compute; split_and!; done|]. split; by vm_compute. Qed.

(** What is true of a converter made for feeds of [max] samples, at any moment. *)
Record keeps_room (max : nat) (r : Resampler) : Prop := {
  kr_half : number (half_width r) /\ (1 <= val (half_width r) <= 2 ^ 42)%Q;
  kr_step : number (rstep r) /\ (val (rstep r) <= 2 ^ 33)%Q;
  kr_room : (inject_Z (Z.of_nat max) + 2 * val (half_width r) + 6 <= inject_Z (Z.of_nat (length (buf r))))%Q;
  kr_small : Z.of_nat (length (buf r)) <= 2 ^ 46;
  kr_window : window_ok r;
  kr_pos : number (pos r) /\ (val (pos r) <= inject_Z (Z.of_nat (length (buf r))) + 2 * val (rstep r) + 2)%Q }.

(** A step is not lost in the rounding of the position. *)
Definition advances (r : Resampler) : Prop :=
  (pw (-33) <= val (rstep r) /\ inject_Z (Z.of_nat (length (buf r))) + 2 * val (rstep r) + 2 <= 2 ^ 48 * val (rstep r))%Q.

Section Room.
Context {M : Libm}.

Lemma new_keeps_room in_rate out_rate max r :
  1 <= in_rate < 2 ^ 32 -> 1 <= out_rate < 2 ^ 32 -> Z.of_nat max <= 2 ^ 40 ->
  new_resampler in_rate out_rate max = Some r ->
  keeps_room max r /\ (Z.of_nat max <= 2 ^ 13 -> advances r) /\ starved r = true.
Proof.
  intros Hi Ho Hm. unfold new_resampler. destruct (_ || _); [done|]. cbv zeta.
  destruct (of_exact in_rate ltac:(lia)) as [Ni Vi]. destruct (of_exact out_rate ltac:(lia)) as [No Vo].
  destruct (of_exact 1 ltac:(lia)) as [N1 V1]. destruct (of_exact HALF_ZEROS ltac:(unfold HALF_ZEROS; lia)) as [Nz Vz].
  assert (Hi1 : (1 <= inject_Z in_rate <= 4294967296)%Q) by (split; [apply (inject_le 1); lia | apply (inject_le _ (2 ^ 32)); lia]).
  assert (Ho1 : (1 <= inject_Z out_rate <= 4294967296)%Q) by (split; [apply (inject_le 1); lia | apply (inject_le _ (2 ^ 32)); lia]).
  destruct Hi1 as [I1 I2], Ho1 as [O1 O2].
  assert (P : (pw (-32) * 4294967296 == 1)%Q /\ (pw (-50) <= pw (-36))%Q /\ (pw (-1000) <= pw (-50))%Q) by (split_and!; [by vm_compute | apply pw_le; lia | apply pw_le; lia]).
  destruct P as (P1 & P2 & P3). pose proof (pw_pos (-32)) as Hp32. set (step := f64_div (f64_of in_rate) (f64_of out_rate)).
  assert (Hstep : number step /\ (pw (-33) <= val step <= 2 ^ 33)%Q).
  { set (X := (inject_Z in_rate / inject_Z out_rate)%Q). assert (HX : (X * inject_Z out_rate == inject_Z in_rate)%Q) by (unfold X; field; lra).
    destruct (div_range (inject_Z in_rate) (inject_Z out_rate) X (pw (-32)) 4294967296 ltac:(lra) HX) as [X1 X2]; [nra | nra |].
    assert (H2 : (pw (-36) <= pw (-32))%Q) by (apply pw_le; lia).
    destruct (rounded_half X step) as [Hn [Hl Hh]]; [| lra | apply (Qle_trans _ 4294967296); [done | by vm_compute] |].
    - apply div_rounded; [done | done | rewrite Vo; lra | by rewrite Vo, Vi | lra].
    - split; [done|]. assert (pw (-32) == 2 * pw (-33))%Q as E by (by vm_compute). split; [lra|]. apply (Qle_trans _ (4294967296 * 2)); [lra | by vm_compute]. }
  destruct Hstep as (Ns & S1 & S2). set (inv := f64_div (f64_of 1) step). pose proof (pw_pos (-33)) as Hp33.
  assert (Hinv : number inv /\ (pw (-34) <= val inv)%Q /\ (1 <= 2 * (val inv * val step))%Q).
  { set (X := (1 / val step)%Q). assert (HX : (X * val step == 1)%Q) by (unfold X; field; lra).
    assert (P4 : (pw (-33) * 2 ^ 33 == 1)%Q) by (by vm_compute).
    destruct (div_range 1 (val step) X (pw (-33)) (2 ^ 33) ltac:(lra) HX) as [X1 X2]; [nra | nra |].
    assert (H2 : (pw (-36) <= pw (-33))%Q) by (apply pw_le; lia).
    destruct (rounded_half X inv) as [Hn [Hl Hh]]; [| lra | apply (Qle_trans _ (2 ^ 33)); [done | by vm_compute] |].
    - apply div_rounded; [done | done | lra | by rewrite V1, HX | lra].
    - split; [done|]. assert (pw (-33) == 2 * pw (-34))%Q as E by (by vm_compute). split; [lra|]. nra. }
  destruct Hinv as (Nv & V2 & V3). destruct (fmin_numbers _ _ N1 Nv) as (Nq & Q1 & _ & Q2). set (q := fmin (f64_of 1) inv) in *.
  change (inject_Z 1) with 1%Q in V1.
  assert (Hq : (pw (-34) <= val q <= 1)%Q).
  { rewrite V1 in Q1. split; [|done]. destruct Q2 as [-> | ->]; [|done]. rewrite V1. by vm_compute. }
  assert (Hqs : (1 <= val q * (1 + 2 * val step))%Q).
  { destruct Q2 as [-> | ->]; [rewrite V1; lra | pose proof (val_nonneg _ Nv); nra]. }
  destruct CUTOFF_range as (Nc & C1 & C2). set (c := f64_mul CUTOFF q).
  assert (Hc : number c /\ (pw (-36) <= val c <= 2)%Q /\ (val q <= 4 * val c)%Q).
  { assert (E : (pw (-34) == 4 * pw (-36))%Q) by (by vm_compute). pose proof (pw_pos (-36)).
    destruct (rounded_half (val CUTOFF * val q) c) as [Hn [Hl Hh]]; [by apply mul_rounded | nra | apply (Qle_trans _ 1); [nra | by vm_compute] |].
    split; [done|]. split; [split; nra | nra]. }
  destruct Hc as (Ncc & [C3 C4] & C5). set (hw := f64_div (f64_of HALF_ZEROS) c). pose proof (pw_pos (-36)) as Hp36.
  assert (Hh : number hw /\ (1 <= val hw <= 2 ^ 42)%Q /\ (val hw <= 256 + 512 * val step)%Q).
  { set (X := (32 / val c)%Q). assert (HX : (X * val c == 32)%Q) by (unfold X; field; lra).
    assert (Hc0 : (0 < val c)%Q) by lra. assert (E : (pw (-36) * 2 ^ 41 == 32)%Q) by (by vm_compute).
    destruct (div_range 32 (val c) X 16 (2 ^ 41) ltac:(lra) HX) as [X1 X2]; [lra | nra |].
    assert (pw (-50) <= 1)%Q by (by vm_compute).
    destruct (rounded_half X hw) as [Hn [Hl Hh]]; [| lra | apply (Qle_trans _ (2 ^ 41)); [done | by vm_compute] |].
    - apply div_rounded; [done | done | lra | rewrite Vz, HX; done | lra].
    - split; [done|]. split; [split|].
      1: clear E X2; lra.
      2: { apply (Qle_trans _ (X * 2)); [exact Hh|]. exact (reach_bound (val c) (val step) (val q) X Hc0 (val_nonneg _ Ns) HX C5 Hqs). }
      apply (Qle_trans _ (X * 2)); [exact Hh|]. refine (Qle_trans _ _ _ (Qmult_le_compat_r X _ 2 X2 _) doubled). discriminate. }
  destruct Hh as (Nh & [H1 H2] & H3). clearbody hw step. clear - Hm Ns S1 S2 Nh H1 H2 H3. intros [= <-].
  destruct (ceil_bounds hw Nh) as [Nch [CH1 CH2]]; [apply (Qle_trans _ (2 ^ 42)); [done | by vm_compute]|].
  destruct (ceil_bounds step Ns) as [Ncs [CS1 CS2]]; [apply (Qle_trans _ (2 ^ 33)); [done | by vm_compute]|].
  assert (B : (2 ^ 42 + 1 <= 2 ^ 63)%Q /\ (2 ^ 33 + 1 <= 2 ^ 63)%Q) by (split; by vm_compute). destruct B as [B1 B2].
  destruct (to_usize_floor _ Nch) as [F1 F2]; [lra|]. destruct (to_usize_floor _ Ncs) as [F3 F4]; [lra|].
  pose proof (to_usize_nonneg (f64_ceil hw)) as P1. pose proof (to_usize_nonneg (f64_ceil step)) as P2.
  set (h := to_usize (f64_ceil hw)) in *. set (t := to_usize (f64_ceil step)) in *.
  assert (h <= 2 ^ 42 + 1) by (rewrite Zle_Qle; change (inject_Z (2 ^ 42 + 1)) with (2 ^ 42 + 1)%Q; lra).
  assert (t <= 2 ^ 33 + 1) by (rewrite Zle_Qle; change (inject_Z (2 ^ 33 + 1)) with (2 ^ 33 + 1)%Q; lra).
  set (cap := Z.of_nat max + 2 * h + t + 8) in *.
  assert (Hcap : (inject_Z (Z.of_nat max) + 2 * inject_Z h + inject_Z t + 8 == inject_Z cap)%Q).
  { unfold cap. rewrite !inject_Z_plus, inject_Z_mult. reflexivity. }
  pose proof (inject_le _ _ P2) as P3. change (inject_Z 0) with 0%Q in P3. assert (Hcap0 : 0 <= cap) by (unfold cap; lia). split; [|split].
  - split; cbn [half_width rstep buf len pos]; rewrite ?length_replicate, ?(Z2Nat.id cap Hcap0).
    + done.
    + done.
    + lra.
    + lia.
    + unfold window_ok. cbn. lia.
    + split; [done|]. cbn [val]. assert (0 <= inject_Z cap)%Q by (apply (inject_le 0); lia). pose proof (val_nonneg _ Ns). lra.
  - intros Hs. unfold advances. cbn [rstep buf]. rewrite length_replicate, (Z2Nat.id cap Hcap0). split; [done|].
    apply inject_le in Hs. change (inject_Z (2 ^ 13)) with 8192%Q in Hs.
    assert (P : (2 ^ 48 == 281474976710656)%Q /\ (pw (-33) == 1 # 8589934592)%Q) by (split; by vm_compute). destruct P as [P4 P5].
    clear B1 B2. rewrite P4, P5 in *. lra.
  - unfold starved. cbn [len pos half_width]. apply fle_numbers; [done | |].
    + change (f64_add (S754_zero false) hw) with (SFadd 53 1024 (S754_zero false) hw). by destruct hw as [[]| | |].
    + assert (val (f64_add (S754_zero false) hw) == val hw)%Q as -> by (by destruct hw as [[]| | |]). change (val (f64_of (Z.of_nat 0))) with 0%Q. lra.
Qed.
End Room.

(** ** Every operation keeps it *)

Lemma pos_small max r : keeps_room max r -> (val (pos r) <= 2 ^ 49)%Q.
Proof.
  intros H. destruct (kr_pos _ _ H) as [_ Hp]. destruct (kr_step _ _ H) as [_ Hs]. pose proof (inject_le _ _ (kr_small _ _ H)) as Hc.
  change (inject_Z (2 ^ 46)) with 70368744177664%Q in Hc.
  assert (P : (2 ^ 33 == 8589934592)%Q /\ (2 ^ 49 == 562949953421312)%Q) by (split; by vm_compute). destruct P as [P1 P2]. rewrite P1, P2 in *. lra.
Qed.

Lemma room_exact max r (n : nat) : keeps_room max r -> (n <= length (buf r))%nat ->
  number (f64_of (Z.of_nat n)) /\ (val (f64_of (Z.of_nat n)) == inject_Z (Z.of_nat n))%Q /\ (0 <= inject_Z (Z.of_nat n) <= 2 ^ 46)%Q.
Proof.
  intros H Hn. pose proof (kr_small _ _ H). destruct (of_exact (Z.of_nat n) ltac:(lia)) as [? ?]. split_and!; [done | done | |].
  - apply (inject_le 0). lia.
  - apply (inject_le _ (2 ^ 46)). lia.
Qed.

(** A rounded sum or difference of what the converter handles. *)
Lemma near X x : rounded X x -> (0 <= X <= 2 ^ 50)%Q -> number x /\ (X - (1 # 2) <= val x <= X + (1 # 2))%Q.
Proof.
  intros H [H0 H1]. destruct (rounded_small _ _ H) as [Hn [Hl Hh]]; [apply below_infinity; apply (Qle_trans _ (2 ^ 50)); [done | by vm_compute]|].
  destruct ulp_tiny as (U & T0 & T1). assert (P : (2 ^ 50 == 1125899906842624)%Q) by (by vm_compute).
  rewrite U, P in *. split; [done|]. split; lra.
Qed.

Lemma powers : (2 ^ 33 == 8589934592)%Q /\ (2 ^ 42 == 4398046511104)%Q /\ (2 ^ 46 == 70368744177664)%Q /\ (2 ^ 49 == 562949953421312)%Q /\
  (2 ^ 50 == 1125899906842624)%Q.
Proof. split_and!; by vm_compute. Qed.

(** What compacting leaves: a position that has not grown, and, when nothing more can be pulled,
    a window of two half kernels. *)
Lemma compact_keeps_room max r :
  keeps_room max r ->
  keeps_room max (compact r) /\
  (starved r = true -> (inject_Z (Z.of_nat (len (compact r))) <= 2 * val (half_width r) + 4)%Q).
Proof.
  intros H. pose proof H as [[Nh [H1 H2]] _ Hroom Hsmall Hw [Np Hpos]]. destruct powers as (P33 & P42 & P46 & P49 & P50).
  pose proof (pos_small _ _ H) as Hp.
  pose proof (val_nonneg _ Np) as Hp0. destruct (room_exact max r (len r) H Hw) as (Nl & Vl & L0 & L1).
  destruct (near _ _ (add_rounded _ _ Np Nh)) as [Na [A1 A2]]; [rewrite P42, P49, P50 in *; split; lra|].
  assert (Hst : starved r = true -> (inject_Z (Z.of_nat (len r)) <= val (pos r) + val (half_width r) + (1 # 2))%Q).
  { unfold starved. intros E. apply fle_numbers in E; [|done..]. rewrite Vl in E. lra. }
  destruct (compact_spec r Hw) as (Hcw & Hcl & _). destruct (of_exact 1 ltac:(lia)) as [N1 V1]. change (inject_Z 1) with 1%Q in V1.
  unfold compact in *. destruct (flt (f64_sub (pos r) (half_width r)) (f64_of 1)) eqn:Ef.
  - split; [done|]. intros Hs. specialize (Hst Hs). destruct (Qlt_le_dec (val (pos r)) (val (half_width r))) as [Hlt | Hge]; [lra|].
    destruct (near _ _ (sub_rounded _ _ Np Nh Hge)) as [Ns [S1 S2]]; [rewrite P42, P49, P50 in *; split; lra|].
    apply flt_numbers in Ef; [|done..]. rewrite V1 in Ef. lra.
  - assert (Hge : (val (half_width r) <= val (pos r))%Q).
    { apply Qnot_lt_le. intros Hlt. by rewrite sub_below in Ef. }
    destruct (near _ _ (sub_rounded _ _ Np Nh Hge)) as [Ns [S1 S2]]; [rewrite P42, P49, P50 in *; split; lra|].
    assert (S0 : (1 <= val (f64_sub (pos r) (half_width r)))%Q).
    { apply Qnot_lt_le. intros Hlt. rewrite <- V1 in Hlt. apply flt_numbers in Hlt; [congruence | done..]. }
    destruct (to_usize_floor _ Ns) as [F1 F2].
    { assert (2 ^ 50 <= 2 ^ 63)%Q by (by vm_compute). rewrite P42, P49, P50 in *. lra. }
    set (stale := to_usize (f64_sub (pos r) (half_width r))) in *. pose proof (to_usize_nonneg (f64_sub (pos r) (half_width r))) as T0. fold stale in T0.
    set (d := Nat.min (Z.to_nat stale) (len r)) in *. cbn [half_width rstep buf len pos set_window] in *.
    destruct (room_exact max r d H ltac:(unfold window_ok in Hw; lia)) as (Nd & Vd & D0 & D1).
    assert (Hd : (inject_Z (Z.of_nat d) <= val (f64_sub (pos r) (half_width r)))%Q).
    { apply (Qle_trans _ (inject_Z stale)); [apply inject_le; lia | done]. }
    split.
    + split; cbn [half_width rstep buf len pos set_window]; rewrite ?Hcl; try done; [apply H|].
      destruct (Nat.eq_dec d 0) as [Hz | Hnz].
      { rewrite Hz. change (f64_of (Z.of_nat 0)) with (S754_zero false). destruct (pos r) as [[]| | |]; try done; by split. }
      assert (Hd1 : (1 <= inject_Z (Z.of_nat d))%Q) by (apply (inject_le 1); lia).
      destruct (near (val (pos r) - inject_Z (Z.of_nat d)) (f64_sub (pos r) (f64_of (Z.of_nat d)))) as [Nn [B1 B2]].
      * rewrite <- Vd. apply sub_rounded; [done | done |]. rewrite Vd. lra.
      * rewrite P42, P49, P50 in *. split; lra.
      * split; [done|]. lra.
    + intros Hs. specialize (Hst Hs). destruct (Nat.le_gt_cases (len r) (Z.to_nat stale)) as [Hle | Hgt].
      * replace (len r - d)%nat with 0%nat by lia. change (inject_Z (Z.of_nat 0)) with 0%Q. lra.
      * assert (inject_Z (Z.of_nat (len r - d)) == inject_Z (Z.of_nat (len r)) - inject_Z stale)%Q as ->; [|lra].
        replace (Z.of_nat (len r - d)) with (Z.of_nat (len r) + - stale) by lia. rewrite inject_Z_plus, inject_Z_opp. lra.
Qed.

Lemma feed_keeps_room max input r : keeps_room max r -> keeps_room max (feed input r).2.
Proof.
  intros H. destruct (compact_keeps_room max r H) as [[Hh Hs Hr Hm Hw Hp] _]. pose proof (kr_window _ _ H) as Hw0.
  pose proof (feed_spec input r Hw0) as Hf. destruct (compact_spec r Hw0) as (_ & Hl & _).
  destruct (feed input r) as [taken r'] eqn:E. destruct Hf as (Hf1 & Hf2 & _). rewrite Hl in *.
  unfold feed in E. injection E as _ <-. split; cbn [half_width rstep pos snd set_window]; try done; cbn [buf set_window] in Hf2 |- *; by rewrite Hf2.
Qed.

Lemma pull_keeps_room max room r :
  keeps_room max r -> exists out r', pull room r = Some (out, r') /\ keeps_room max r' /\ (length out <= room)%nat.
Proof.
  revert r; induction room as [|room IH]; intros r H; cbn [pull]; [by exists [], r|].
  destruct (starved r) eqn:Es; [exists [], r; split_and!; [done | done | cbn; lia]|].
  pose proof H as [[Nh [H1 H2]] [Nst Hst] Hroom Hsmall Hw [Np Hpos]]. pose proof (pos_small _ _ H) as Hp. destruct powers as (P33 & P42 & P46 & P49 & P50).
  pose proof (val_nonneg _ Np) as Hp0. pose proof (val_nonneg _ Nst) as Hst0. destruct (room_exact max r (len r) H Hw) as (Nl & Vl & L0 & L1).
  destruct (near _ _ (add_rounded _ _ Np Nh)) as [Na [A1 A2]]; [rewrite P42, P49, P50 in *; split; lra|].
  assert (Hl : (0 < len r)%nat).
  { destruct (Nat.eq_dec (len r) 0) as [Hz |]; [|lia]. exfalso. unfold starved in Es. apply not_true_iff_false in Es. apply Es, fle_numbers; [done..|].
    rewrite Vl, Hz. change (inject_Z (Z.of_nat 0)) with 0%Q. lra. }
  assert (Hlt : (val (f64_add (pos r) (half_width r)) <= inject_Z (Z.of_nat (len r)))%Q).
  { apply Qnot_lt_le. intros Hlt. unfold starved in Es. apply not_true_iff_false in Es. apply Es, fle_numbers; [done..|]. rewrite Vl. lra. }
  destruct (sample_at_total (pos r) r Hw Hl) as [x ->].
  destruct (near _ _ (add_rounded _ _ Np Nst)) as [Nn [B1 B2]]; [rewrite P33, P46, P49, P50 in *; split; lra|].
  destruct (IH (set_window (buf r) (len r) (f64_add (pos r) (rstep r)) r)) as (out & r' & -> & Hr' & Ho).
  { split; cbn [half_width rstep buf len pos set_window]; try done. split; [done|].
    assert (inject_Z (Z.of_nat (len r)) <= inject_Z (Z.of_nat (length (buf r))))%Q by (apply inject_le; unfold window_ok in Hw; lia). lra. }
  exists (x :: out), r'. split_and!; [done | done | cbn; lia].
Qed.

Lemma reset_keeps_room max r : keeps_room max r -> keeps_room max (reset_resampler r).
Proof.
  intros [Hh Hs Hr Hm Hw Hp]. unfold reset_resampler. split; cbn [half_width rstep buf len pos set_window]; rewrite ?length_map; try done.
  - unfold window_ok. cbn. lia.
  - split; [done|]. cbn [val]. pose proof (val_nonneg _ (proj1 Hs)). pose proof (inject_le 0 (Z.of_nat (length (buf r))) ltac:(lia)) as H0.
    change (inject_Z 0) with 0%Q in H0. lra.
Qed.

(** A drained converter takes what it was made for. *)
Lemma drained_feed max input r :
  keeps_room max r -> starved r = true -> (length input <= max)%nat ->
  (feed input r).1 = length input /\ exists kept, live (feed input r).2 = kept ++ input.
Proof.
  intros H Hs Hin. destruct (compact_keeps_room _ _ H) as [Hc Hroom]. specialize (Hroom Hs).
  destruct (compact_spec r (kr_window _ _ H)) as (_ & Hl & _). pose proof (kr_room _ _ H) as Hcap.
  pose proof (feed_spec input r (kr_window _ _ H)) as Hf. unfold feed in *. cbv zeta in *. cbn [fst snd]. rewrite Hl in *.
  assert (Hfit : (max <= length (buf r) - len (compact r))%nat).
  { assert (inject_Z (Z.of_nat max + Z.of_nat (len (compact r))) <= inject_Z (Z.of_nat (length (buf r))))%Q as Hq by (rewrite inject_Z_plus; lra).
    rewrite <- Zle_Qle in Hq. lia. }
  replace (Nat.min (length input) _) with (length input) in * by lia. split; [done|].
  destruct Hf as (_ & _ & _ & d & ->). rewrite take_ge by lia. eauto.
Qed.

(** The shape of a converter: what no operation changes. *)
Definition same_shape (r r' : Resampler) : Prop :=
  length (buf r') = length (buf r) /\ rstep r' = rstep r.

Lemma same_shape_trans r1 r2 r3 : same_shape r1 r2 -> same_shape r2 r3 -> same_shape r1 r3.
Proof. intros [? ?] [? ?]. split; congruence. Qed.

Lemma advances_shape r r' : same_shape r r' -> advances r -> advances r'.
Proof. intros [E1 E2]. unfold advances. by rewrite E1, E2. Qed.

Lemma compact_shape r : window_ok r -> same_shape r (compact r).
Proof. intros H. split; [by destruct (compact_spec r H) as (_ & ? & _)|]. unfold compact. by destruct (flt _ _). Qed.

Lemma feed_shape input r : window_ok r -> same_shape r (feed input r).2.
Proof.
  intros H. pose proof (feed_spec input r H) as Hf. pose proof (compact_shape r H) as [_ Hs]. destruct (feed input r) as [taken r'] eqn:E.
  split; [apply Hf|]. unfold feed in E. injection E as _ <-. exact Hs.
Qed.

Lemma pull_shape room r out r' : pull room r = Some (out, r') -> same_shape r r'.
Proof.
  revert r out r'; induction room as [|room IH]; intros r out r'; cbn [pull]; [by intros [= _ <-]|].
  destruct (starved r); [by intros [= _ <-]|]. destruct (sample_at (pos r) r); [|done].
  destruct (pull room _) as [[out1 r1]|] eqn:E; [|done]. intros [= _ <-]. by apply IH in E.
Qed.

(** Half a step at least, for each sample made. *)
Lemma pull_moves max room r out r' :
  keeps_room max r -> advances r -> pull room r = Some (out, r') ->
  (val (pos r) + inject_Z (Z.of_nat (length out)) * (val (rstep r) * (1 # 2)) <= val (pos r'))%Q.
Proof.
  revert r out r'; induction room as [|room IH]; intros r out r' H Ha; cbn [pull].
  { intros [= <- <-]. change (inject_Z (Z.of_nat (length []))) with 0%Q. lra. }
  destruct (starved r) eqn:Es; [intros [= <- <-]; change (inject_Z (Z.of_nat (length []))) with 0%Q; lra|].
  destruct (sample_at (pos r) r) as [x|]; [|done]. destruct (pull room _) as [[out1 r1]|] eqn:E; [|done]. intros [= <- <-].
  pose proof (pull_keeps_room max 1 r H) as (o1 & rk & E1 & Hk & _). cbn [pull] in E1. rewrite Es in E1. destruct (sample_at (pos r) r); [|done].
  injection E1 as _ <-. specialize (IH _ _ _ Hk Ha E). cbn [pos rstep set_window] in IH. cbn [length]. rewrite Nat2Z.inj_succ, <- Z.add_1_l, inject_Z_plus.
  change (inject_Z 1) with 1%Q. destruct (kr_pos _ _ H) as [Np Hp]. destruct (kr_step _ _ H) as [Ns Hs]. destruct Ha as [Ha1 Ha2].
  pose proof (val_nonneg _ Np) as Hp0. pose proof (pos_small _ _ H) as Hp49. destruct powers as (P33 & P42 & P46 & P49 & P50).
  destruct (rounded_small _ _ (add_rounded _ _ Np Ns)) as [_ [B1 _]].
  { apply below_infinity. apply (Qle_trans _ (2 ^ 50)); [|by vm_compute]. rewrite P33, P49, P50 in *. lra. }
  assert (T : (tiny <= pw (-33) * (1 # 8))%Q) by (apply (Qle_trans _ (pw (-36))); [apply pw_le; lia | by vm_compute]).
  assert (Hpu : (val (pos r) * ulp <= val (rstep r) * (1 # 16))%Q).
  { destruct ulp_tiny as (U & _). rewrite U. assert (Q48 : (2 ^ 48 == 281474976710656)%Q) by (by vm_compute). rewrite Q48 in Ha2. lra. }
  assert (Hsu : (val (rstep r) * ulp <= val (rstep r) * (1 # 16))%Q).
  { destruct ulp_tiny as (U & _). rewrite U. pose proof (val_nonneg _ Ns). lra. }
  lra.
Qed.

Lemma starved_far max r : keeps_room max r -> (inject_Z (Z.of_nat (length (buf r))) + 1 <= val (pos r))%Q -> starved r = true.
Proof.
  intros H Hfar. pose proof H as [[Nh [H1 H2]] _ _ _ Hw [Np _]]. pose proof (pos_small _ _ H) as Hp. destruct powers as (P33 & P42 & P46 & P49 & P50).
  destruct (room_exact max r (len r) H Hw) as (Nl & Vl & L0 & L1). pose proof (val_nonneg _ Np) as Hp0.
  destruct (near _ _ (add_rounded _ _ Np Nh)) as [Na [A1 A2]]; [rewrite P42, P49, P50 in *; split; lra|].
  apply fle_numbers; [done..|]. rewrite Vl. pose proof (inject_le _ _ (inj_le _ _ Hw)). lra.
Qed.

Lemma pull_starved room r : starved r = true -> pull room r = Some ([], r).
Proof. intros H. destruct room as [|room]; cbn [pull]; [done | by rewrite H]. Qed.

Lemma pull_dry room r r' : pull (S room) r = Some ([], r') -> starved r' = true /\ r' = r.
Proof.
  cbn [pull]. destruct (starved r) eqn:E; [intros [= <-]; done|]. destruct (sample_at _ _); [|done]. by destruct (pull room _) as [[]|].
Qed.

(** What the engine does with a converter. *)
Inductive ResampleOp : Type := FeedOp (input : list f32) | PullOp (room : nat) | SpaceOp | ResetOp.

Definition resample_step (op : ResampleOp) (r : Resampler) : option Resampler :=
  match op with
  | FeedOp input => Some (feed input r).2
  | PullOp room => match pull room r with Some (_, r) => Some r | None => None end
  | SpaceOp => Some (space r).2
  | ResetOp => Some (reset_resampler r)
  end.

Fixpoint resample_run (ops : list ResampleOp) (r : Resampler) : option Resampler :=
  match ops with
  | [] => Some r
  | op :: ops => match resample_step op r with Some r => resample_run ops r | None => None end
  end.

Lemma resample_run_keeps_room max ops r : keeps_room max r -> exists r', resample_run ops r = Some r' /\ keeps_room max r'.
Proof.
  revert r; induction ops as [|op ops IH]; intros r H; cbn [resample_run]; [by exists r|].
  destruct op as [input | room | |]; cbn [resample_step].
  - by apply IH, feed_keeps_room.
  - destruct (pull_keeps_room max room r H) as (out & r' & -> & H' & _). by apply IH.
  - apply IH. unfold space. cbn. by apply compact_keeps_room.
  - by apply IH, reset_keeps_room.
Qed.

(** A rate converter never panics, and one that has given what it can takes a whole feed.  For
    any two rates, whatever has been fed, pulled and reset, in whatever order and amounts: no
    index is out of range; a pull ends and gives no more than it was asked for; and when a pull
    has stopped for want of input, the next feed of as many samples as the converter was made
    for is taken whole.  The buffer is never enlarged, however the position's rounding
    accumulates over the stream. *)
Theorem a_drained_converter_takes_a_whole_feed {M : Libm} in_rate out_rate max_feed r0 ops :
  1 <= in_rate < 2 ^ 32 -> 1 <= out_rate < 2 ^ 32 -> Z.of_nat max_feed <= 2 ^ 40 ->
  new_resampler in_rate out_rate max_feed = Some r0 ->
  exists r, resample_run ops r0 = Some r /\ length (buf r) = length (buf r0) /\
    (forall room, exists out r', pull room r = Some (out, r') /\ (length out <= room)%nat) /\
    (starved r = true -> forall input, (length input <= max_feed)%nat ->
       let '(taken, r') := feed input r in
       taken = length input /\ exists kept, live r' = kept ++ input).
Proof.
  intros Hi Ho Hm H0. destruct (new_keeps_room _ _ _ _ Hi Ho Hm H0) as [Hk _].
  assert (Hlen : forall ops r r', keeps_room max_feed r -> resample_run ops r = Some r' -> length (buf r') = length (buf r)).
  { clear. intros ops. induction ops as [|op ops IH]; intros r r' H; cbn [resample_run]; [by intros [= <-]|].
    destruct op as [input | room | |]; cbn [resample_step].
    - intros Hr. rewrite (IH _ _ (feed_keeps_room _ input _ H) Hr). pose proof (feed_spec input r (kr_window _ _ H)) as Hf.
      destruct (feed input r) as [taken r1]. apply Hf.
    - destruct (pull_keeps_room max_feed room r H) as (out & r1 & E & H1 & _). rewrite E. intros Hr. rewrite (IH _ _ H1 Hr).
      by apply pull_shape in E as [? _].
    - intros Hr. unfold space in Hr. cbn in Hr. destruct (compact_keeps_room _ _ H) as [H1 _]. rewrite (IH _ _ H1 Hr).
      by destruct (compact_spec r (kr_window _ _ H)) as (_ & ? & _).
    - intros Hr. rewrite (IH _ _ (reset_keeps_room _ _ H) Hr). cbn. by rewrite length_map. }
  destruct (resample_run_keeps_room max_feed ops r0 Hk) as (r & Hr & H). exists r. split; [done|]. split; [by eapply Hlen|]. split.
  { intros room. destruct (pull_keeps_room max_feed room r H) as (out & r' & E & _ & Hl). eauto. }
  intros Hs input Hin. pose proof (drained_feed max_feed input r H Hs Hin) as Hf. by destruct (feed input r).
Qed.

(** From a sound card at 44.1 kHz to the codec's rate, in blocks of 480. *)
Module Sample_converter.
#[local] Instance libm : Libm := {| f64_log10 x := x; f64_sin x := x |}.

Definition block : list f32 := replicate 480 (f32_of 1).
Definition stream : list ResampleOp := [FeedOp block; PullOp 600; FeedOp block; SpaceOp; ResetOp; FeedOp block; PullOp 600].

Lemma a_drained_converter_takes_a_whole_feed_witness :
  exists r0, new_resampler 44100 48000 480 = Some r0 /\
  exists r, resample_run stream r0 = Some r /\ length (buf r) = length (buf r0) /\
    (forall room, exists out r', pull room r = Some (out, r') /\ (length out <= room)%nat) /\
    (starved r = true -> forall input, (length input <= 480)%nat ->
       let '(taken, r') := feed input r in
       taken = length input /\ exists kept, live r' = kept ++ input).
Proof.
  eexists. split; [reflexivity|].
  apply (a_drained_converter_takes_a_whole_feed 44100 48000 480 _ stream); [lia | lia | lia | reflexivity].
Defined.
End Sample_converter.
