(* ===== verification/Devices.v ===== *)
(** * Choosing a sound device ([crates/pickle-audio/src/devices.rs])

    The host's devices, by kind, with what each can be opened at, are the class [AudioHost]:
    the source asks the sound library and this file decides.  A clamp to an empty range is a
    panic, [None] in [choose_config]. *)

From S2P Require Export RustStr Voice.

Inductive DeviceKind : Type := Input | Output.

Inductive SampleFormat : Type := F32 | I16 | OtherFormat.

(** [cpal::SupportedStreamConfigRange] *)
Record ConfigRange : Type := mkRange {
  range_channels : Z; min_sample_rate : Z; max_sample_rate : Z; sample_format : SampleFormat }.

Record DeviceInfo : Type := mkDeviceInfo {
  di_name : rstring; di_kind : DeviceKind; di_default : bool; di_usable : bool; di_rate : option Z }.

Definition needs_resampling (d : DeviceInfo) : bool :=
  match di_rate d with Some rate => negb (rate =? SAMPLE_RATE) | None => false end.

Inductive DeviceError : Type :=
| NoDevice (kind : rstring)
| DeviceNotFound (kind name : rstring)
| UnsupportedFormat (name : rstring)
| Enumeration (message : rstring).

Definition kind_label (kind : DeviceKind) : rstring := match kind with Input => lit "input" | Output => lit "output" end.

Class AudioHost : Type := {
  Device : Type;
  default_device : DeviceKind -> option Device;
  host_devices : DeviceKind -> rstring + list Device;
  device_name : Device -> option rstring;
  device_configs : Device -> DeviceKind -> rstring + list ConfigRange }.

(** ** Choosing a configuration *)

Definition readable (c : ConfigRange) : bool := match sample_format c with F32 | I16 => true | OtherFormat => false end.

(** [u32::clamp] panics on an empty range. *)
Definition clamped_rate (c : ConfigRange) : option Z :=
  if max_sample_rate c <? min_sample_rate c then None
  else Some (Z.min (Z.max SAMPLE_RATE (min_sample_rate c)) (max_sample_rate c)).

(** The key of [min_by_key]: distance from 48 kHz, then the higher rate, then fewer channels. *)
Definition config_key (e : ConfigRange * Z) : Z * Z * Z := (Z.abs (e.2 - SAMPLE_RATE), - e.2, range_channels e.1).

(** The first of the least. *)
Fixpoint min_by_key {A} (key : A -> Z * Z * Z) (l : list A) : option A :=
  match l with
  | [] => None
  | x :: l =>
      match min_by_key key l with
      | Some y => if lex_ltb (key y) (key x) then Some y else Some x
      | None => Some x
      end
  end.

Fixpoint with_rates (l : list ConfigRange) : option (list (ConfigRange * Z)) :=
  match l with
  | [] => Some []
  | c :: l => rate ← clamped_rate c; rest ← with_rates l; Some ((c, rate) :: rest)
  end.

Definition choose_config (configs : list ConfigRange) : option (option (ConfigRange * Z)) :=
  rated ← with_rates (retain readable configs); Some (min_by_key config_key rated).

Section Devices.
Context {H : AudioHost}.

Definition supported_configs (d : Device) (kind : DeviceKind) : DeviceError + list ConfigRange :=
  match device_configs d kind with inl message => inl (Enumeration message) | inr l => inr l end.

(** What is listed of a device, nothing when it went away meanwhile. *)
Definition device_info (default_name : option rstring) (kind : DeviceKind) (d : Device) : option (option DeviceInfo) :=
  match device_name d with
  | None => Some None
  | Some name =>
      '(usable, rate) ←
        match supported_configs d kind with
        | inr configs =>
            chosen ← choose_config configs;
            Some (match chosen with Some (_, rate) => (true, Some rate) | None => (false, None) end)
        | inl _ => Some (true, None)
        end;
      Some (Some (mkDeviceInfo name kind (bool_decide (Some name = default_name)) usable rate))
  end.

Fixpoint collect_infos (default_name : option rstring) (kind : DeviceKind) (l : list Device) : option (list DeviceInfo) :=
  match l with
  | [] => Some []
  | d :: l =>
      info ← device_info default_name kind d;
      rest ← collect_infos default_name kind l;
      Some (match info with Some i => i :: rest | None => rest end)
  end.

Definition list_devices (kind : DeviceKind) : option (DeviceError + list DeviceInfo) :=
  let default_name := default_device kind ≫= device_name in
  match host_devices kind with
  | inl message => Some (inl (Enumeration message))
  | inr devices => infos ← collect_infos default_name kind devices; Some (inr infos)
  end.

Definition open_device (kind : DeviceKind) (name : option rstring) : DeviceError + Device :=
  match name with
  | None => match default_device kind with Some d => inr d | None => inl (NoDevice (kind_label kind)) end
  | Some wanted =>
      match host_devices kind with
      | inl message => inl (Enumeration message)
      | inr devices =>
          match find (fun d => bool_decide (device_name d = Some wanted)) devices with
          | Some d => inr d
          | None => inl (DeviceNotFound (kind_label kind) wanted)
          end
      end
  end.

Definition pick_config (d : Device) (kind : DeviceKind) : option (DeviceError + ConfigRange * Z) :=
  match supported_configs d kind with
  | inl e => Some (inl e)
  | inr configs =>
      chosen ← choose_config configs;
      Some (match chosen with
            | Some c => inr c
            | None => inl (UnsupportedFormat (default (lit "unknown") (device_name d)))
            end)
  end.
End Devices.

(** ** The choice *)

Lemma min_by_key_spec {A} (key : A -> Z * Z * Z) l x :
  min_by_key key l = Some x -> x ∈ l /\ forall y, y ∈ l -> ~ lex_lt (key y) (key x).
Proof.
  revert x. induction l as [|z l IH]; intros x; cbn [min_by_key]; [done|]. destruct (min_by_key key l) as [m|] eqn:Em.
  - destruct (IH m eq_refl) as [Hin Hmin]. destruct (lex_ltb (key m) (key z)) eqn:E; intros [= <-].
    + apply lex_ltb_lt in E. split; [by right|]. intros y [-> | Hy]%elem_of_cons; [|by apply Hmin].
      intros H. pose proof (lex_trans _ _ _ E H). unfold lex_lt in *. lia.
    + split; [by left|]. intros y [-> | Hy]%elem_of_cons; [unfold lex_lt; lia|]. intros H. specialize (Hmin y Hy).
      assert (~ lex_lt (key m) (key z)) as Hz by (rewrite <- lex_ltb_lt, E; done).
      destruct (lex_total (key m) (key z)) as [Eq | [Hlt | Hgt]]; [rewrite Eq in Hmin; tauto | tauto|].
      apply Hmin. by eapply lex_trans.
  - intros [= <-]. split; [by left|]. intros y [-> | Hy]%elem_of_cons; [unfold lex_lt; lia|].
    destruct l as [|w l]; [by apply not_elem_of_nil in Hy|]. cbn [min_by_key] in Em. by repeat case_match.
Qed.

Lemma min_by_key_none {A} (key : A -> Z * Z * Z) l : min_by_key key l = None <-> l = [].
Proof. split; [|by intros ->]. destruct l as [|x l]; [done|]. cbn [min_by_key]. by repeat case_match. Qed.

Lemma clamped_rate_spec c rate :
  clamped_rate c = Some rate ->
  min_sample_rate c <= rate <= max_sample_rate c /\
  forall r, min_sample_rate c <= r <= max_sample_rate c -> Z.abs (rate - SAMPLE_RATE) <= Z.abs (r - SAMPLE_RATE).
Proof. unfold clamped_rate. destruct (Z.ltb_spec (max_sample_rate c) (min_sample_rate c)); intros [= <-]. split; lia. Qed.

Lemma with_rates_spec l rated :
  with_rates l = Some rated -> forall c rate, (c, rate) ∈ rated <-> c ∈ l /\ clamped_rate c = Some rate.
Proof.
  revert rated. induction l as [|c l IH]; intros rated; cbn [with_rates].
  - intros [= <-] c rate. split; [by intros ?%not_elem_of_nil | by intros [?%not_elem_of_nil _]].
  - destruct (clamped_rate c) as [r|] eqn:Er; [|done]. cbn [mbind option_bind]. destruct (with_rates l) as [rest|]; [|done].
    intros [= <-] c' rate. rewrite !elem_of_cons, (IH rest eq_refl). split.
    + intros [[= -> ->] | [? ?]]; auto.
    + intros [[-> | Hin] Hr]; [left; congruence | by right].
Qed.

(** Every range the driver reports has a rate in it. *)
Definition proper (c : ConfigRange) : Prop := min_sample_rate c <= max_sample_rate c.

Lemma with_rates_total l : Forall proper l -> is_Some (with_rates l).
Proof.
  induction 1 as [|c l Hc _ [rest IH]]; cbn [with_rates]; [by eexists|]. unfold clamped_rate.
  rewrite (proj2 (Z.ltb_ge _ _) Hc), IH. by eexists.
Qed.

Lemma choose_config_total configs : Forall proper configs -> is_Some (choose_config configs).
Proof.
  intros H. unfold choose_config. destruct (with_rates_total (retain readable configs)) as [rated ->]; [|by eexists].
  apply Forall_forall. intros c [Hin _]%elem_of_retain. by apply (proj1 (Forall_forall _ _) H).
Qed.

(** What a chosen configuration is. *)
Definition best_config (configs : list ConfigRange) (c : ConfigRange) (rate : Z) : Prop :=
  c ∈ configs /\ readable c = true /\ min_sample_rate c <= rate <= max_sample_rate c /\
  forall c' r, c' ∈ configs -> readable c' = true -> min_sample_rate c' <= r <= max_sample_rate c' ->
    Z.abs (rate - SAMPLE_RATE) <= Z.abs (r - SAMPLE_RATE) /\
    (Z.abs (rate - SAMPLE_RATE) = Z.abs (r - SAMPLE_RATE) ->
      r <= rate /\ (r = rate -> clamped_rate c' = Some r -> range_channels c <= range_channels c')).

Lemma choose_config_best configs chosen :
  choose_config configs = Some chosen ->
  match chosen with
  | Some (c, rate) => best_config configs c rate
  | None => forall c, c ∈ configs -> readable c = false
  end.
Proof.
  unfold choose_config. destruct (with_rates _) as [rated|] eqn:Er; [|done]. pose proof (with_rates_spec _ _ Er) as Hr.
  intros [= <-]. destruct (min_by_key config_key rated) as [[c rate]|] eqn:E.
  - apply min_by_key_spec in E as [Hin Hmin]. apply Hr in Hin as [Hin Hc]. apply elem_of_retain in Hin as [Hin Hread].
    destruct (clamped_rate_spec c rate Hc) as [Hrange _]. split_and!; [done | done | lia | lia|].
    intros c' r Hin' Hread' Hr'. destruct (clamped_rate c') as [rate'|] eqn:Hc'.
    2:{ unfold clamped_rate in Hc'. destruct (Z.ltb_spec (max_sample_rate c') (min_sample_rate c')); [lia | done]. }
    assert ((c', rate') ∈ rated) as Hrated by (apply Hr; split; [by apply elem_of_retain | done]).
    specialize (Hmin _ Hrated). destruct (clamped_rate_spec c' rate' Hc') as [Hrange' Hnear].
    specialize (Hnear r Hr'). unfold lex_lt, config_key in Hmin. cbn [fst snd] in Hmin. split; [lia|]. intros Heq.
    assert (Z.abs (rate - SAMPLE_RATE) = Z.abs (rate' - SAMPLE_RATE)) by lia. split; [|intros -> [= <-]; lia].
    unfold clamped_rate in Hc'. destruct (Z.ltb_spec (max_sample_rate c') (min_sample_rate c')); [done|]. injection Hc' as <-. lia.
  - apply min_by_key_none in E. intros c Hin. destruct (readable c) eqn:Hread; [|done]. exfalso. subst rated.
    destruct (with_rates (retain readable configs)) as [rated|] eqn:E2; [|done]. injection Er as ->.
    assert (exists rate, clamped_rate c = Some rate) as [rate Hc].
    { clear -E2 Hin Hread. assert (c ∈ retain readable configs) as Hc by (by apply elem_of_retain). revert Hc E2.
      generalize (retain readable configs) as l. induction l as [|c0 l IH]; intros Hc E2; [by apply not_elem_of_nil in Hc|].
      cbn [with_rates] in E2. by destruct (clamped_rate c0), (with_rates l). }
    assert ((c, rate) ∈ []) as Hn by (apply Hr; split; [by apply elem_of_retain | done]). by apply not_elem_of_nil in Hn.
Qed.

(** ** What is listed and what is opened *)

Section Listing.
Context {H : AudioHost}.

(** Listing does not panic while every range has a rate in it. *)
Lemma collect_infos_total default_name kind l :
  (forall d l, device_configs d kind = inr l -> Forall proper l) -> is_Some (collect_infos default_name kind l).
Proof.
  intros Hp. induction l as [|d l [rest IH]]; cbn [collect_infos]; [by eexists|]. rewrite IH. unfold device_info, supported_configs.
  destruct (device_name d); [|by eexists]. destruct (device_configs d kind) as [e | configs] eqn:E; [by eexists|].
  by destruct (choose_config_total configs (Hp d configs E)) as [[[c rate]|] ->]; eexists.
Qed.

Lemma list_devices_total kind :
  (forall d kind l, device_configs d kind = inr l -> Forall proper l) -> is_Some (list_devices kind).
Proof.
  intros Hp. unfold list_devices. destruct (host_devices kind) as [e | devices]; [by eexists|].
  destruct (collect_infos_total (default_device kind ≫= device_name) kind devices) as [infos ->]; [|by eexists]. intros d l. apply Hp.
Qed.

Lemma collect_infos_elem default_name kind l infos info :
  collect_infos default_name kind l = Some infos -> info ∈ infos ->
  exists d, d ∈ l /\ device_info default_name kind d = Some (Some info).
Proof.
  revert infos. induction l as [|d l IH]; intros infos; cbn [collect_infos].
  - intros [= <-]. by intros ?%not_elem_of_nil.
  - destruct (device_info default_name kind d) as [i|] eqn:Ei; [|done]. cbn [mbind option_bind].
    destruct (collect_infos default_name kind l) as [rest|]; [|done]. intros [= <-] Hin.
    assert (Some info = i \/ info ∈ rest) as [<- | Hrest].
    { destruct i as [i|]; [apply elem_of_cons in Hin as [-> | ?]; auto | auto]. }
    + exists d. split; [by left | done].
    + destruct (IH rest eq_refl Hrest) as (d' & ? & ?). exists d'. split; [by right | done].
Qed.

Definition distinctly_named (devices : list Device) : Prop :=
  forall d d' name, d ∈ devices -> d' ∈ devices -> device_name d = Some name -> device_name d' = Some name -> d = d'.

Lemma find_named devices d name :
  distinctly_named devices -> d ∈ devices -> device_name d = Some name ->
  find (fun d => bool_decide (device_name d = Some name)) devices = Some d.
Proof.
  intros Hn Hin Hd. destruct (find _ devices) as [d'|] eqn:E.
  - apply find_some in E as [Hin' Hd']. apply bool_decide_eq_true in Hd'. f_equal. by eapply Hn.
  - pose proof (proj1 (find_none _ _) E d Hin) as Hno. cbv beta in Hno. apply bool_decide_eq_false in Hno. done.
Qed.
End Listing.

(** The device list tells the truth about what would be opened: as long as no two devices of a kind share a name, every listed device opens under its name; when a rate is shown, opening it picks a configuration at that rate which the device offers and the engine can read, no offered rate being closer to 48 kHz and no equally close one higher; when it is shown as unusable, nothing it offers can be read and opening it says so. *)
Theorem a_listed_rate_is_the_rate_opened {H : AudioHost} kind devices infos info :
  host_devices kind = inr devices -> distinctly_named devices ->
  list_devices kind = Some (inr infos) -> info ∈ infos ->
  exists d, open_device kind (Some (di_name info)) = inr d /\
    match di_rate info with
    | Some rate => di_usable info = true /\
        exists configs c, device_configs d kind = inr configs /\ pick_config d kind = Some (inr (c, rate)) /\ best_config configs c rate
    | None => di_usable info = false ->
        pick_config d kind = Some (inl (UnsupportedFormat (di_name info))) /\
        exists configs, device_configs d kind = inr configs /\ forall c, c ∈ configs -> readable c = false
    end.
Proof.
  intros Hdev Hn Hl Hin. unfold list_devices in Hl. rewrite Hdev in Hl.
  destruct (collect_infos _ kind devices) as [l|] eqn:E; [|done]. injection Hl as ->.
  destruct (collect_infos_elem _ _ _ _ _ E Hin) as (d & Hd & Hinfo). clear E Hin. unfold device_info in Hinfo.
  destruct (device_name d) as [name|] eqn:Ename; [|done].
  exists d. split.
  { unfold open_device. rewrite Hdev. assert (di_name info = name) as ->.
    { destruct (supported_configs d kind) as [|cs]; [|destruct (choose_config cs) as [[[? ?]|]|]; [..|done]]; cbn in Hinfo; by injection Hinfo as <-. }
    by rewrite (find_named devices d name Hn Hd Ename). }
  unfold pick_config. unfold supported_configs in *. destruct (device_configs d kind) as [message|configs].
  { cbn in Hinfo. injection Hinfo as <-. by cbn. }
  destruct (choose_config configs) as [chosen|] eqn:Ec; [|done]. cbn [mbind option_bind] in *.
  apply choose_config_best in Ec. destruct chosen as [[c rate]|]; cbn in Hinfo; injection Hinfo as <-; cbn.
  - split; [done|]. by exists configs, c.
  - intros _. rewrite Ename. split; [done|]. by exists configs.
Qed.

(** ** A concrete machine *)

Module Sample_devices.
(** A 44.1 kHz headset that goes up to 96, and a recorder nobody can read. *)
Definition headset : list ConfigRange := [mkRange 2 44100 44100 I16; mkRange 1 88200 96000 F32; mkRange 1 48000 48000 OtherFormat].

Definition machine (second : rstring) : AudioHost := {|
  Device := Z;
  default_device _ := Some 1;
  host_devices _ := inr [1; 2];
  device_name d := Some (if d =? 1 then lit "headset" else second);
  device_configs d _ := inr (if d =? 1 then headset else [mkRange 2 8000 8000 F32]) |}.

Lemma a_listed_rate_is_the_rate_opened_witness :
  exists infos, @list_devices (machine (lit "webcam")) Input = Some (inr infos) /\
    map di_rate infos = [Some 44100; Some 8000] /\
    exists d, @open_device (machine (lit "webcam")) Input (Some (lit "webcam")) = inr d /\
      exists configs c, @pick_config (machine (lit "webcam")) d Input = Some (inr (c, 8000)) /\ best_config configs c 8000.
Proof.
  eexists. split; [vm_compute; reflexivity|]. split; [reflexivity|].
  destruct (@a_listed_rate_is_the_rate_opened (machine (lit "webcam")) Input [1; 2]
    [mkDeviceInfo (lit "headset") Input true true (Some 44100); mkDeviceInfo (lit "webcam") Input false true (Some 8000)]
    (mkDeviceInfo (lit "webcam") Input false true (Some 8000))) as (d & Hopen & _ & configs & c & _ & Hp & Hb).
  - reflexivity.
  - intros d d' name Hd Hd' <- Hn. cbn in *. apply elem_of_cons in Hd as [-> | ->%list_elem_of_singleton];
      apply elem_of_cons in Hd' as [-> | ->%list_elem_of_singleton]; [done | vm_compute in Hn; done | vm_compute in Hn; done | done].
  - vm_compute. reflexivity.
  - right. left.
  - exists d. split; [exact Hopen|]. exists configs, c. split; [exact Hp | exact Hb].
Defined.

(** Two devices of one name: both are shown as the default, and the second cannot be opened. *)
Lemma devices_that_share_a_name :
  option_map (fun r => match r with inr infos => map (fun i => (di_default i, di_rate i)) infos | inl _ => [] end)
    (@list_devices (machine (lit "headset")) Input) = Some [(true, Some 44100); (true, Some 8000)] /\
  @open_device (machine (lit "headset")) Input (Some (lit "headset")) = inr (1 : @Device (machine (lit "headset"))).
Proof. split; vm_compute; reflexivity. Qed.
End Sample_devices.
