(* ===== verification/Engine.v ===== *)
(** * The audio engine ([crates/pickle-audio/src/engine.rs])

    Microphone to wire ([Capture], behind [CaptureStage] for the device's rate) and mixer to
    sound card ([Playback]).  The sound devices are outside: a callback is a call of
    [stage_push] or [fill_f32].  The controls are atomics read once per frame each, so a run is
    a list of frames with the values that were read for each. *)

From S2P Require Export Vad Mixer Resample.

(** ** Controls *)

Record CaptureControls : Type := mkControls {
  muted : bool;
  push_to_talk_held : bool;
  gate_mode_bits : Z;
  level_bits : f32;
  transmitting_flag : bool }.

Definition decode_mode (bits : Z) : GateMode :=
  if bits =? 1 then PushToTalk else if bits =? 2 then Continuous else VoiceActivity.

Definition encode_mode (mode : GateMode) : Z :=
  match mode with VoiceActivity => 0 | PushToTalk => 1 | Continuous => 2 end.

Definition controls_gate_mode (k : CaptureControls) : GateMode := decode_mode (gate_mode_bits k).

Definition controls_set_gate_mode (mode : GateMode) (k : CaptureControls) : CaptureControls :=
  mkControls (muted k) (push_to_talk_held k) (encode_mode mode) (level_bits k) (transmitting_flag k).

Definition controls_set_muted (b : bool) (k : CaptureControls) : CaptureControls :=
  mkControls b (push_to_talk_held k) (gate_mode_bits k) (level_bits k) (transmitting_flag k).

Definition controls_set_held (b : bool) (k : CaptureControls) : CaptureControls :=
  mkControls (muted k) b (gate_mode_bits k) (level_bits k) (transmitting_flag k).

Definition publish (level : f32) (sending : bool) (k : CaptureControls) : CaptureControls :=
  mkControls (muted k) (push_to_talk_held k) (gate_mode_bits k) level sending.

Definition new_controls (mode : GateMode) : CaptureControls :=
  controls_set_gate_mode mode (mkControls false false 0 NEG_INFINITY false).

Record CapturedFrame : Type := mkFrame { cf_seq : Z; cf_flags : Z; cf_payload : bytes }.

(** [slice.chunks(n)]; a chunk takes at least one element, so as many turns as elements. *)
Fixpoint chunks_loop {A} (fuel n : nat) (l : list A) : list (list A) :=
  match fuel, l with
  | S fuel, _ :: _ => take n l :: chunks_loop fuel n (drop n l)
  | _, _ => []
  end.

Definition chunks {A} (n : nat) (l : list A) : list (list A) := chunks_loop (length l) n l.

Definition frame_len : nat := Z.to_nat SAMPLES_PER_FRAME.
Definition CAPTURE_CHUNK : nat := 256.
Definition MAX_REFILL_ROUNDS : nat := 8.

Section Engine.
Context {M : Libm} {O : Opus} {HO : HashOrder}.

(** ** Capture *)

Record Capture : Type := mkCapture {
  pending : list f32;
  cgate : VoiceGate;
  cencoder : VoiceEncoder;
  transmitting : bool }.

Definition new_capture (bitrate : Z) : VoiceCodecError + Capture :=
  match new_encoder bitrate with
  | inl e => inl e
  | inr e => inr (mkCapture [] VoiceGate_default e false)
  end.

(** One frame: what is sent, if anything, and what is published. *)
Definition process (frame : list f32) (c : Capture) (k : CaptureControls) : option CapturedFrame * Capture * CaptureControls :=
  let g := set_mode (controls_gate_mode k) (cgate c) in
  let '(activity, g) :=
    if muted k then (if transmitting c then gate_close g else (Silent, g))
    else gate_update frame (push_to_talk_held k) g in
  let k := publish (level_dbfs g) (should_transmit activity) k in
  if negb (should_transmit activity) then (None, mkCapture (pending c) g (cencoder c) false, k)
  else
    let e := match activity with BurstStart => reset_seq (cencoder c) | _ => cencoder c end in
    let sending := match activity with BurstEnd => false | _ => true end in
    match voice_encode frame e with
    | (inr payload, e) =>
        let '(seq, e) := next_seq e in
        (Some (mkFrame seq (activity_flags activity) payload), mkCapture (pending c) g e sending, k)
    | (inl _, e) => (None, mkCapture (pending c) g e sending, k)
    end.

(** The loop of [push], a whole frame per turn. *)
Fixpoint push_loop (fuel : nat) (c : Capture) (k : CaptureControls) : list CapturedFrame * Capture * CaptureControls :=
  match fuel with
  | 0%nat => ([], c, k)
  | S fuel =>
      if (frame_len <=? length (pending c))%nat then
        let frame := take frame_len (pending c) in
        let c := mkCapture (drop frame_len (pending c)) (cgate c) (cencoder c) (transmitting c) in
        let '(sent, c, k) := process frame c k in
        let '(rest, c, k) := push_loop fuel c k in
        (match sent with Some f => f :: rest | None => rest end, c, k)
      else ([], c, k)
  end.

(** The debug assertion on the buffer's capacity is left out: the buffer grows here. *)
Definition capture_push (samples : list f32) (c : Capture) (k : CaptureControls) : list CapturedFrame * Capture * CaptureControls :=
  let c := mkCapture (pending c ++ samples) (cgate c) (cencoder c) (transmitting c) in
  push_loop (length (pending c)) c k.

(** ** The device side of capture *)

Record CaptureStage : Type := mkStage {
  st_capture : Capture;
  st_resampler : option Resampler;
  st_converted : nat }.

Definition new_stage (device_rate bitrate : Z) : VoiceCodecError + CaptureStage :=
  let resampler := if negb (device_rate =? SAMPLE_RATE) then new_resampler device_rate SAMPLE_RATE CAPTURE_CHUNK else None in
  let converted := match resampler with Some r => max_output_for CAPTURE_CHUNK r | None => 0%nat end in
  match new_capture bitrate with
  | inl e => inl e
  | inr c => inr (mkStage c resampler converted)
  end.

Definition downmix {T} (to_f32 : T -> f32) (frame : list T) : f32 :=
  f32_div (f32_sum (map to_f32 frame)) (f32_of (Z.of_nat (length frame))).

(** [loop { pull; push }], until nothing comes out.  [None] is a panic, or out of fuel. *)
Fixpoint drain (fuel room : nat) (r : Resampler) (c : Capture) (k : CaptureControls) :
    option (list CapturedFrame * Resampler * Capture * CaptureControls) :=
  match fuel with
  | 0%nat => None
  | S fuel =>
      match pull room r with
      | None => None
      | Some ([], r) => Some ([], r, c, k)
      | Some (made, r) =>
          let '(sent, c, k) := capture_push made c k in
          match drain fuel room r c k with
          | Some (rest, r, c, k) => Some (sent ++ rest, r, c, k)
          | None => None
          end
      end
  end.

(** [while fed < filled]: a turn feeds at least one sample, so as many turns as samples. *)
Fixpoint convert (turns fuel room : nat) (input : list f32) (r : Resampler) (c : Capture) (k : CaptureControls) :
    option (list CapturedFrame * Resampler * Capture * CaptureControls) :=
  match turns, input with
  | S turns, _ :: _ =>
      let '(taken, r) := feed input r in
      if (taken =? 0)%nat then Some ([], r, c, k)
      else
        match drain fuel room r c k with
        | None => None
        | Some (sent, r, c, k) =>
            match convert turns fuel room (drop taken input) r c k with
            | Some (rest, r, c, k) => Some (sent ++ rest, r, c, k)
            | None => None
            end
        end
  | _, _ => Some ([], r, c, k)
  end.

(** One block of at most [CAPTURE_CHUNK] device frames. *)
Definition stage_block (fuel : nat) (mono : list f32) (s : CaptureStage) (k : CaptureControls) :
    option (list CapturedFrame * CaptureStage * CaptureControls) :=
  match st_resampler s with
  | None =>
      let '(sent, c, k) := capture_push mono (st_capture s) k in
      Some (sent, mkStage c None (st_converted s), k)
  | Some r =>
      match convert (length mono) fuel (st_converted s) mono r (st_capture s) k with
      | Some (sent, r, c, k) => Some (sent, mkStage c (Some r) (st_converted s), k)
      | None => None
      end
  end.

Fixpoint stage_blocks (fuel : nat) (blocks : list (list f32)) (s : CaptureStage) (k : CaptureControls) :
    option (list CapturedFrame * CaptureStage * CaptureControls) :=
  match blocks with
  | [] => Some ([], s, k)
  | mono :: blocks =>
      match stage_block fuel mono s k with
      | None => None
      | Some (sent, s, k) =>
          match stage_blocks fuel blocks s k with
          | Some (rest, s, k) => Some (sent ++ rest, s, k)
          | None => None
          end
      end
  end.

Definition stage_push {T} (fuel : nat) (data : list T) (channels : nat) (to_f32 : T -> f32) (s : CaptureStage)
    (k : CaptureControls) : option (list CapturedFrame * CaptureStage * CaptureControls) :=
  if (channels =? 0)%nat then Some ([], s, k)
  else
    stage_blocks fuel (map (fun block => map (downmix to_f32) (chunks channels block)) (chunks (CAPTURE_CHUNK * channels) data)) s k.

(** The two formats [build_input] takes. *)
Definition from_f32 (sample : f32) : f32 := sample.
Definition from_i16 (sample : Z) : f32 := f32_div (f32_of sample) (SFopp (f32_of (- 2 ^ 15))).

(** ** Playback *)

Record Playback : Type := mkPlayback {
  pb_frame : list f32;
  pb_resampler : option Resampler;
  ready : list f32;
  filled : nat;
  position : nat }.

Definition new_playback (device_rate : Z) : Playback :=
  let resampler := if negb (device_rate =? SAMPLE_RATE) then new_resampler SAMPLE_RATE device_rate frame_len else None in
  let ready := match resampler with
    | Some r => replicate (max_output_for frame_len r) (S754_zero false)
    | None => replicate frame_len (S754_zero false)
    end in
  mkPlayback (replicate frame_len (S754_zero false)) resampler ready 0 0.

(** [while fed < self.frame.len()] *)
Fixpoint feed_all (turns : nat) (input : list f32) (r : Resampler) : Resampler :=
  match turns, input with
  | S turns, _ :: _ =>
      let '(taken, r) := feed input r in
      if (taken =? 0)%nat then r else feed_all turns (drop taken input) r
  | _, _ => r
  end.

(** What [pull(&mut self.ready)] leaves in the buffer. *)
Definition overwrite (made buffer : list f32) : list f32 := made ++ drop (length made) buffer.

Fixpoint refill_rounds (rounds : nat) (r : Resampler) (p : Playback) (m : VoiceMixer) : option (Playback * VoiceMixer) :=
  match rounds with
  | 0%nat =>
      Some (mkPlayback (pb_frame p) (Some r) (map (fun _ => S754_zero false) (ready p)) (length (ready p)) (position p), m)
  | S rounds =>
      match pull (length (ready p)) r with
      | None => None
      | Some (_ :: _ as made, r) =>
          Some (mkPlayback (pb_frame p) (Some r) (overwrite made (ready p)) (length made) (position p), m)
      | Some ([], r) =>
          let '(_, frame, m) := render (pb_frame p) m in
          let p := mkPlayback frame (Some r) (ready p) (filled p) (position p) in
          refill_rounds rounds (feed_all (length frame) frame r) p m
      end
  end.

Definition refill (p : Playback) (m : VoiceMixer) : option (Playback * VoiceMixer) :=
  match pb_resampler p with
  | None =>
      let '(_, out, m) := render (ready p) m in
      Some (mkPlayback (pb_frame p) None out (length out) (position p), m)
  | Some r => refill_rounds MAX_REFILL_ROUNDS r p m
  end.

Definition at_position (n : nat) (p : Playback) : Playback := mkPlayback (pb_frame p) (pb_resampler p) (ready p) (filled p) n.

Definition next_sample (p : Playback) (m : VoiceMixer) : option (f32 * Playback * VoiceMixer) :=
  match
    if (filled p <=? position p)%nat then
      match refill p m with Some (p, m) => Some (at_position 0 p, m) | None => None end
    else Some (p, m)
  with
  | None => None
  | Some (p, m) =>
      match ready p !! position p with
      | Some sample => Some (sample, at_position (S (position p)) p, m)
      | None => Some (S754_zero false, p, m)
      end
  end.

(** The output callback: one sample to every channel of each device frame. *)
Fixpoint fill {T} (convert : f32 -> T) (channels frames : nat) (p : Playback) (m : VoiceMixer) :
    option (list T * Playback * VoiceMixer) :=
  match frames with
  | 0%nat => Some ([], p, m)
  | S frames =>
      match next_sample p m with
      | None => None
      | Some (sample, p, m) =>
          match fill convert channels frames p m with
          | Some (rest, p, m) => Some (replicate channels (convert sample) ++ rest, p, m)
          | None => None
          end
      end
  end.

Definition to_sample_i16 (sample : f32) : Z := to_i16 (f32_mul (fclamp (f32_of (-1)) (f32_of 1) sample) (f32_of (2 ^ 15 - 1))).

Definition fill_f32 : nat -> nat -> Playback -> VoiceMixer -> option (list f32 * Playback * VoiceMixer) := fill (fun x => x).
Definition fill_i16 : nat -> nat -> Playback -> VoiceMixer -> option (list Z * Playback * VoiceMixer) := fill to_sample_i16.

(** ** The handle *)

Record EngineConfig : Type := mkConfig {
  input_device : option rstring;
  output_device : option rstring;
  bitrate : Z;
  gate_mode : GateMode }.

Definition EngineConfig_default : EngineConfig := mkConfig None None DEFAULT_BITRATE VoiceActivity.

Inductive AudioError : Type :=
| DeviceFailed (message : rstring)
| CodecFailed (e : VoiceCodecError)
| BuildStream (message : rstring)
| PlayStream (message : rstring)
| ThreadLost.

(** The engine, with what is queued for whoever holds the frame receiver. *)
Record AudioEngine : Type := mkEngine {
  has_receiver : bool;
  queue : list CapturedFrame;
  mixer : VoiceMixer;
  controls : CaptureControls }.

(** [AudioEngine::start]: [ready] is what the audio thread reported, nothing when it died. *)
Definition engine_start (config : EngineConfig) (ready : option (AudioError + unit)) : AudioError + AudioEngine :=
  match ready with
  | Some (inr tt) => inr (mkEngine true [] new_mixer (new_controls (gate_mode config)))
  | Some (inl e) => inl e
  | None => inl ThreadLost
  end.

Definition set_mixer (m : VoiceMixer) (e : AudioEngine) : AudioEngine := mkEngine (has_receiver e) (queue e) m (controls e).
Definition set_controls (k : CaptureControls) (e : AudioEngine) : AudioEngine := mkEngine (has_receiver e) (queue e) (mixer e) k.

Definition next_frame (e : AudioEngine) : option CapturedFrame * AudioEngine :=
  match has_receiver e, queue e with
  | true, f :: rest => (Some f, mkEngine true rest (mixer e) (controls e))
  | _, _ => (None, e)
  end.

Definition drain_frames (e : AudioEngine) : list CapturedFrame * AudioEngine :=
  if has_receiver e then (queue e, mkEngine true [] (mixer e) (controls e)) else ([], e).

(** Whoever takes the receiver holds the queue from then on. *)
Definition take_frames (e : AudioEngine) : option (list CapturedFrame) * AudioEngine :=
  if has_receiver e then (Some (queue e), mkEngine false [] (mixer e) (controls e)) else (None, e).

Definition engine_accept (packet : VoiceDownstream) (e : AudioEngine) : AudioEngine := set_mixer (accept packet (mixer e)).2 e.
Definition engine_set_muted (b : bool) (e : AudioEngine) : AudioEngine := set_controls (controls_set_muted b (controls e)) e.
Definition is_muted (e : AudioEngine) : bool := muted (controls e).
Definition engine_set_deafened (b : bool) (e : AudioEngine) : AudioEngine := set_mixer (set_deafened b (mixer e)) e.
Definition engine_is_deafened (e : AudioEngine) : bool := is_deafened (mixer e).
Definition engine_set_gate_mode (mode : GateMode) (e : AudioEngine) : AudioEngine :=
  set_controls (controls_set_gate_mode mode (controls e)) e.
Definition set_push_to_talk_held (held : bool) (e : AudioEngine) : AudioEngine :=
  set_controls (controls_set_held held (controls e)) e.
Definition input_level_dbfs (e : AudioEngine) : f32 := level_bits (controls e).
Definition is_transmitting (e : AudioEngine) : bool := transmitting_flag (controls e).
Definition set_speaker_gain (client : ClientId) (g : f32) (e : AudioEngine) : AudioEngine := set_mixer (set_gain client g (mixer e)) e.
Definition set_speaker_muted (client : ClientId) (b : bool) (e : AudioEngine) : AudioEngine :=
  set_mixer (set_stream_muted client b (mixer e)) e.
Definition engine_set_master_gain (g : f32) (e : AudioEngine) : AudioEngine := set_mixer (set_master_gain g (mixer e)) e.
Definition engine_clear_speakers (e : AudioEngine) : AudioEngine := set_mixer (clear_speakers (mixer e)) e.
Definition remove_speaker (client : ClientId) (e : AudioEngine) : AudioEngine := set_mixer (remove_stream client (mixer e)) e.
Definition engine_speaking (e : AudioEngine) : list ClientId := speaking (mixer e).

Lemma mode_roundtrip mode : decode_mode (encode_mode mode) = mode.
Proof. by destruct mode. Qed.
End Engine.
