(* ===== verification/Talking.v ===== *)
(** * From the microphone to the wire

    The properties of [Capture]: every sample is framed once and in order whatever the size of
    the driver's buffers, what is sent is a sequence of bursts numbered from zero, and a muted
    microphone sends at most the end of the burst it cut short.  And the sound card's side:
    capture and playback through the converter never panic, end, and drop nothing. *)

From S2P Require Export Engine.

Lemma frame_len_pos : (0 < frame_len)%nat.
Proof. vm_compute. lia. Qed.

Lemma frame_len_samples (frame : list f32) : length frame = frame_len -> Z.of_nat (length frame) = SAMPLES_PER_FRAME.
Proof. intros ->. reflexivity. Qed.

#[global] Opaque frame_len.

(** ** Cutting audio into frames *)

Fixpoint whole_frames (fuel : nat) (l : list f32) : list (list f32) :=
  match fuel with
  | 0%nat => []
  | S fuel => if (frame_len <=? length l)%nat then take frame_len l :: whole_frames fuel (drop frame_len l) else []
  end.

(** The frames of some audio, and what is left of it. *)
Definition framed (l : list f32) : list (list f32) := whole_frames (length l) l.
Definition leftover (l : list f32) : list f32 := drop (frame_len * length (framed l)) l.

Lemma whole_frames_enough fuel l : (length l <= fuel)%nat -> whole_frames fuel l = framed l.
Proof.
  unfold framed. pose proof frame_len_pos as Hpos. generalize (Nat.le_refl (length l)). generalize (length l) at 2 4 as n.
  intros n Hn Hf. revert fuel l Hn Hf. induction n as [|n IH]; intros fuel l Hn Hf.
  - destruct fuel; simpl; [done|]. by rewrite (proj2 (Nat.leb_gt _ _)) by lia.
  - destruct fuel as [|fuel]; simpl.
    + destruct (Nat.leb_spec frame_len (length l)); [lia | done].
    + destruct (Nat.leb_spec frame_len (length l)); [|done]. f_equal. rewrite (IH fuel); [done | rewrite length_drop; lia..].
Qed.

Lemma framed_step l : framed l = if (frame_len <=? length l)%nat then take frame_len l :: framed (drop frame_len l) else [].
Proof.
  pose proof frame_len_pos. unfold framed at 1. destruct (length l) as [|n] eqn:E; cbn [whole_frames].
  - by rewrite (proj2 (Nat.leb_gt _ _)) by lia.
  - rewrite E. destruct (frame_len <=? S n)%nat; [|done]. f_equal. apply whole_frames_enough. rewrite length_drop. lia.
Qed.

(** By as many frames as there are. *)
Lemma framed_ind (P : list f32 -> Prop) :
  (forall l, (length l < frame_len)%nat -> P l) ->
  (forall l, (frame_len <= length l)%nat -> P (drop frame_len l) -> P l) -> forall l, P l.
Proof.
  intros H0 H1 l. remember (length l) as n eqn:E. revert l E. induction n as [n IH] using lt_wf_ind. intros l ->.
  pose proof frame_len_pos. destruct (Nat.lt_ge_cases (length l) frame_len) as [|Hl]; [by apply H0|]. apply H1; [done|].
  eapply IH; [|reflexivity]. rewrite length_drop. lia.
Qed.

Lemma leftover_step l : leftover l = if (frame_len <=? length l)%nat then leftover (drop frame_len l) else l.
Proof.
  unfold leftover. rewrite (framed_step l). destruct (frame_len <=? length l)%nat; cbn [length].
  - rewrite drop_drop. f_equal. lia.
  - by rewrite Nat.mul_0_r, drop_0.
Qed.

(** Nothing is lost, repeated or reordered, every frame is whole and less than one is left. *)
Lemma framed_spec l :
  concat (framed l) ++ leftover l = l /\ Forall (fun f => length f = frame_len) (framed l) /\ (length (leftover l) < frame_len)%nat.
Proof.
  induction l as [l Hl | l Hl IH] using framed_ind; rewrite framed_step, leftover_step.
  - by rewrite (proj2 (Nat.leb_gt _ _) Hl).
  - rewrite (proj2 (Nat.leb_le _ _) Hl). destruct IH as (IH1 & IH2 & IH3). cbn [concat]. split_and!; [|constructor|]; try done.
    + by rewrite <- app_assoc, IH1, take_drop.
    + rewrite length_take. lia.
Qed.

Lemma framed_app a b : framed (a ++ b) = framed a ++ framed (leftover a ++ b) /\ leftover (a ++ b) = leftover (leftover a ++ b).
Proof.
  induction a as [a Ha | a Ha IH] using framed_ind.
  - rewrite (framed_step a), (leftover_step a), (proj2 (Nat.leb_gt _ _) Ha). done.
  - rewrite (framed_step a), (leftover_step a), (framed_step (a ++ b)), (leftover_step (a ++ b)), length_app.
    rewrite (proj2 (Nat.leb_le _ _) Ha), (proj2 (Nat.leb_le _ (_ + _))) by lia.
    rewrite take_app_le, drop_app_le by lia. destruct IH as [-> ->]. done.
Qed.

Section Talking.
Context {M : Libm} {O : Opus}.

(** ** [push] *)

(** [push] leaves at most an incomplete frame behind. *)
Definition capture_ok (c : Capture) : Prop := (length (pending c) < frame_len)%nat.

Definition with_pending (l : list f32) (c : Capture) : Capture := mkCapture l (cgate c) (cencoder c) (transmitting c).

Definition optional {A} (x : option A) : list A := match x with Some a => [a] | None => [] end.

(** Frame after frame. *)
Fixpoint process_all (frames : list (list f32)) (c : Capture) (k : CaptureControls) : list CapturedFrame * Capture * CaptureControls :=
  match frames with
  | [] => ([], c, k)
  | frame :: frames =>
      let '(sent, c, k) := process frame c k in
      let '(rest, c, k) := process_all frames c k in
      (optional sent ++ rest, c, k)
  end.

Lemma process_with_pending l frame c k :
  process frame (with_pending l c) k = let '(sent, c, k) := process frame c k in (sent, with_pending l c, k).
Proof.
  unfold process. cbn [cgate cencoder transmitting pending with_pending].
  destruct (if muted k then _ else _) as [a g]. destruct (negb (should_transmit a)); [done|].
  destruct (voice_encode frame _) as [[?|payload] e]; done.
Qed.

Lemma process_all_with_pending l frames c k :
  process_all frames (with_pending l c) k = let '(sent, c, k) := process_all frames c k in (sent, with_pending l c, k).
Proof.
  revert c k. induction frames as [|frame frames IH]; intros c k; cbn [process_all]; [done|].
  rewrite process_with_pending. destruct (process frame c k) as [[sent c1] k1]. rewrite IH.
  by destruct (process_all frames c1 k1) as [[rest c2] k2].
Qed.

Lemma process_all_app a b c k :
  process_all (a ++ b) c k =
  let '(sent, c, k) := process_all a c k in
  let '(rest, c, k) := process_all b c k in (sent ++ rest, c, k).
Proof.
  revert c k. induction a as [|frame a IH]; intros c k; cbn [process_all app].
  - by destruct (process_all b c k) as [[rest c1] k1].
  - destruct (process frame c k) as [[sent c1] k1]. rewrite IH. destruct (process_all a c1 k1) as [[s1 c2] k2].
    destruct (process_all b c2 k2) as [[s2 c3] k3]. by rewrite app_assoc.
Qed.

Lemma push_loop_eq fuel c k :
  (length (pending c) <= fuel)%nat ->
  push_loop fuel c k =
  let '(sent, c', k') := process_all (framed (pending c)) c k in (sent, with_pending (leftover (pending c)) c', k').
Proof.
  revert c k. pose proof frame_len_pos. induction fuel as [|fuel IH]; intros c k Hf; rewrite framed_step, leftover_step; cbn [push_loop];
    destruct (Nat.leb_spec frame_len (length (pending c))) as [Hl|Hl]; try lia; cbn [process_all];
    [by destruct c | | by destruct c].
  fold (with_pending (drop frame_len (pending c)) c). rewrite process_with_pending.
  destruct (process (take frame_len (pending c)) c k) as [[sent c1] k1].
  rewrite IH by (cbn [pending with_pending]; rewrite length_drop; lia). cbn [pending with_pending].
  rewrite process_all_with_pending. destruct (process_all _ c1 k1) as [[rest c2] k2]. by destruct sent.
Qed.

Lemma capture_push_eq samples c k :
  capture_push samples c k =
  let '(sent, c', k') := process_all (framed (pending c ++ samples)) c k in
  (sent, with_pending (leftover (pending c ++ samples)) c', k').
Proof.
  unfold capture_push. fold (with_pending (pending c ++ samples) c). rewrite push_loop_eq by done. cbn [pending with_pending].
  rewrite process_all_with_pending. by destruct (process_all _ c k) as [[sent c1] k1].
Qed.

Lemma capture_push_app a b c k :
  capture_push (a ++ b) c k =
  let '(sent, c1, k1) := capture_push a c k in
  let '(rest, c2, k2) := capture_push b c1 k1 in (sent ++ rest, c2, k2).
Proof.
  rewrite (capture_push_eq (a ++ b)), (capture_push_eq a), app_assoc. destruct (framed_app (pending c ++ a) b) as [-> ->].
  rewrite process_all_app. destruct (process_all (framed (pending c ++ a)) c k) as [[sent c1] k1].
  rewrite capture_push_eq. cbn [pending with_pending]. rewrite process_all_with_pending.
  by destruct (process_all (framed (leftover (pending c ++ a) ++ b)) c1 k1) as [[rest c2] k2].
Qed.

(** Callback after callback. *)
Fixpoint pushes (buffers : list (list f32)) (c : Capture) (k : CaptureControls) : list CapturedFrame * Capture * CaptureControls :=
  match buffers with
  | [] => ([], c, k)
  | samples :: buffers =>
      let '(sent, c, k) := capture_push samples c k in
      let '(rest, c, k) := pushes buffers c k in
      (sent ++ rest, c, k)
  end.

Lemma capture_push_nil c k : capture_ok c -> capture_push [] c k = ([], c, k).
Proof.
  intros Hc. rewrite capture_push_eq, app_nil_r, framed_step, leftover_step, (proj2 (Nat.leb_gt _ _) Hc). by destruct c.
Qed.

Lemma capture_push_ok samples c k : capture_ok (capture_push samples c k).1.2.
Proof.
  rewrite capture_push_eq. destruct (process_all _ c k) as [[sent c1] k1]. apply framed_spec.
Qed.

Lemma pushes_eq buffers c k : capture_ok c -> pushes buffers c k = capture_push (concat buffers) c k.
Proof.
  revert c k. induction buffers as [|samples buffers IH]; intros c k Hc; cbn [pushes concat].
  - by rewrite capture_push_nil.
  - rewrite capture_push_app. pose proof (capture_push_ok samples c k) as Hc1.
    destruct (capture_push samples c k) as [[sent c1] k1]. by rewrite IH.
Qed.

(** ** Bursts on the wire *)

(** The frames that were meant to be sent, one after another, [None] for each that the codec
    refused: the state is [None] between bursts and [Some n] inside one whose next number is [n].
    A refused frame takes no number, and its flag is not sent. *)
Inductive on_wire : option Z -> list (option CapturedFrame) -> option Z -> Prop :=
| wire_nil s : on_wire s [] s
| wire_start p l s : on_wire (Some 1) l s -> on_wire None (Some (mkFrame 0 FLAG_BURST_START p) :: l) s
| wire_start_refused l s : on_wire (Some 0) l s -> on_wire None (None :: l) s
| wire_more n p l s : on_wire (Some (wrap 32 (n + 1))) l s -> on_wire (Some n) (Some (mkFrame n 0 p) :: l) s
| wire_more_refused n l s : on_wire (Some n) l s -> on_wire (Some n) (None :: l) s
| wire_end n p l s : on_wire None l s -> on_wire (Some n) (Some (mkFrame n FLAG_BURST_END p) :: l) s
| wire_end_refused n l s : on_wire None l s -> on_wire (Some n) (None :: l) s.

Lemma on_wire_app s1 l1 s2 l2 s3 : on_wire s1 l1 s2 -> on_wire s2 l2 s3 -> on_wire s1 (l1 ++ l2) s3.
Proof. induction 1; simpl; [done | constructor; solve [auto] ..]. Qed.

(** The frames of a run, each with the controls as they were read for it. *)
Fixpoint talk (input : list (CaptureControls * list f32)) (c : Capture) : list CapturedFrame * Capture :=
  match input with
  | [] => ([], c)
  | (k, frame) :: input =>
      let '(sent, c, _) := process frame c k in
      let '(rest, c) := talk input c in
      (optional sent ++ rest, c)
  end.

(** The frames of a run that were published as being transmitted, each with what was sent for it. *)
Fixpoint attempts (input : list (CaptureControls * list f32)) (c : Capture) : list (option CapturedFrame) :=
  match input with
  | [] => []
  | (k, frame) :: input =>
      let '(sent, c, k) := process frame c k in
      (if transmitting_flag k then [sent] else []) ++ attempts input c
  end.

(** How many of them the codec refused. *)
Definition refuses (frame : list f32) (c : Capture) : bool :=
  match (voice_encode frame (cencoder c)).1 with inl _ => true | inr _ => false end.

Fixpoint refusals (input : list (CaptureControls * list f32)) (c : Capture) : nat :=
  match input with
  | [] => 0
  | (k, frame) :: input =>
      let '(sent, c', k) := process frame c k in
      ((if transmitting_flag k && refuses frame c then 1 else 0) + refusals input c')%nat
  end.

Definition is_refused (x : option CapturedFrame) : bool := match x with None => true | Some _ => false end.

(** A capture knows whether it is in a burst exactly when its gate does. *)
Definition in_step (c : Capture) : Prop := transmitting c = open (cgate c).

Definition burst_state (c : Capture) : option Z := if transmitting c then Some (enc_seq (cencoder c)) else None.

Lemma new_capture_in_step bitrate c : new_capture bitrate = inr c -> in_step c /\ burst_state c = None.
Proof. unfold new_capture. destruct (new_encoder bitrate); intros [= <-]. done. Qed.

(** The gate's decision for a frame, muted or not. *)
Definition decision (frame : list f32) (c : Capture) (k : CaptureControls) : Activity * VoiceGate :=
  let g := set_mode (controls_gate_mode k) (cgate c) in
  if muted k then (if transmitting c then gate_close g else (Silent, g)) else gate_update frame (push_to_talk_held k) g.

Lemma decision_bursts frame c k :
  in_step c -> bursts (transmitting c) [(decision frame c k).1] (open (decision frame c k).2).
Proof.
  unfold in_step, decision. intros Ht. set (g := set_mode _ _). assert (transmitting c = open g) as Hg by exact Ht.
  rewrite Hg. destruct (muted k); [|apply gate_update_bursts]. destruct (open g) eqn:E; [rewrite <- E; apply gate_close_bursts|].
  cbn [snd fst]. rewrite E. repeat constructor.
Qed.

Lemma process_eq frame c k :
  process frame c k =
  let '(a, g) := decision frame c k in
  let k := publish (level_dbfs g) (should_transmit a) k in
  if negb (should_transmit a) then (None, mkCapture (pending c) g (cencoder c) false, k)
  else
    let e := match a with BurstStart => reset_seq (cencoder c) | _ => cencoder c end in
    let sending := match a with BurstEnd => false | _ => true end in
    match voice_encode frame e with
    | (inr payload, e) => (Some (mkFrame (enc_seq e) (activity_flags a) payload), mkCapture (pending c) g (next_seq e).2 sending, k)
    | (inl _, e) => (None, mkCapture (pending c) g e sending, k)
    end.
Proof. reflexivity. Qed.

Lemma process_in_step frame c k : in_step c -> in_step (process frame c k).1.2.
Proof.
  intros Hc. pose proof (decision_bursts frame c k Hc) as Hb. rewrite process_eq. destruct (decision frame c k) as [a g].
  cbn [fst snd] in Hb. unfold in_step. inversion Hb as [|? ? Ht|? ? Ht|? ? Ht|? ? Ht]; subst; inversion Ht; subst;
    cbn [should_transmit negb]; [cbn; congruence|..];
    destruct (voice_encode frame _) as [[?|payload] e]; cbn; congruence.
Qed.

(** The number has no part in what the codec makes of a frame. *)
Lemma encode_reset frame e : (voice_encode frame (reset_seq e)).1 = (voice_encode frame e).1.
Proof.
  unfold voice_encode. destruct (negb _); [done|]. cbn [settings encoder scratch reset_seq].
  by destruct (opus_encode _ _ _ _ _) as [[[|] ?] ?].
Qed.

Lemma process_on_wire frame c k :
  in_step c ->
  let '(sent, c', k') := process frame c k in
  let tried := if transmitting_flag k' then [sent] else [] in
  on_wire (burst_state c) tried (burst_state c') /\ optional sent = omap id tried /\
  length (retain is_refused tried) = (if transmitting_flag k' && refuses frame c then 1 else 0)%nat.
Proof.
  intros Hc. pose proof (decision_bursts frame c k Hc) as Hb. rewrite process_eq. unfold burst_state, refuses.
  destruct (decision frame c k) as [a g]. cbn [fst snd] in Hb.
  destruct a; cbn [should_transmit negb].
  { cbn [transmitting_flag publish]. inversion Hb; subst. split_and!; [constructor | done..]. }
  all: match goal with |- context [voice_encode ?f (cencoder ?c0)] =>
         lazymatch goal with |- context [voice_encode f (reset_seq ?e0)] => rewrite <- (encode_reset f e0) | _ => idtac end end;
    match goal with |- context [voice_encode ?f ?e0] =>
      pose proof (encode_seq f e0) as Hseq; destruct (voice_encode f e0) as [[message|payload] e] end;
    cbn [snd reset_seq enc_seq] in Hseq; inversion Hb; subst;
    cbn [optional burst_state transmitting cencoder next_seq snd fst enc_seq activity_flags transmitting_flag publish andb];
    rewrite ?Hseq; (split_and!; [constructor; solve [apply wire_nil] | done | done]).
Qed.

Lemma talk_on_wire input c :
  in_step c ->
  let '(sent, c') := talk input c in
  on_wire (burst_state c) (attempts input c) (burst_state c') /\ sent = omap id (attempts input c) /\
  length (retain is_refused (attempts input c)) = refusals input c.
Proof.
  revert c. induction input as [|[k frame] input IH]; intros c Hc; cbn [talk attempts refusals]; [split_and!; [constructor | done..]|].
  pose proof (process_on_wire frame c k Hc) as H. pose proof (process_in_step frame c k Hc) as Hc1.
  destruct (process frame c k) as [[sent c1] k1]. cbn [fst snd] in Hc1. specialize (IH c1 Hc1).
  destruct (talk input c1) as [rest c2]. destruct H as (H1 & H2 & H3), IH as (I1 & I2 & I3). split_and!.
  - by eapply on_wire_app.
  - by rewrite omap_app, H2, I2.
  - unfold retain in *. by rewrite filter_app, length_app, H3, I3.
Qed.

(** Nothing refused: what is sent is what was meant to be sent. *)
Lemma nothing_refused tried : length (retain is_refused tried) = 0%nat -> tried = map Some (omap id tried).
Proof.
  induction tried as [|[f|] tried IH]; rewrite ?retain_cons; cbn [is_refused length omap list_omap id]; intros H; [done | | done].
  change (omap id (Some f :: tried)) with (f :: omap id tried). cbn [map]. by rewrite <- IH.
Qed.

(** ** Muted *)

Lemma process_muted frame c k :
  muted k = true ->
  let '(sent, c', k') := process frame c k in
  muted k' = true /\ transmitting c' = false /\
  (transmitting c = false -> sent = None) /\ forall f, sent = Some f -> cf_flags f = FLAG_BURST_END.
Proof.
  intros Hm. rewrite process_eq. unfold decision. rewrite Hm. destruct (transmitting c) eqn:Ht; [|done].
  unfold gate_close. destruct (open _); cbn [should_transmit negb]; [|done].
  destruct (voice_encode frame (cencoder c)) as [[?|payload] e]; cbn; split_and!; try done. by intros f [= <-].
Qed.

Lemma process_all_muted frames c k :
  muted k = true ->
  let '(sent, c', _) := process_all frames c k in
  (transmitting c = false -> sent = []) /\ (length sent <= 1)%nat /\ Forall (fun f => cf_flags f = FLAG_BURST_END) sent /\
  (frames <> [] -> transmitting c' = false).
Proof.
  revert c k. induction frames as [|frame frames IH]; intros c k Hm; cbn [process_all]; [split_and!; cbn [length]; [done | lia | done | done]|].
  pose proof (process_muted frame c k Hm) as H. destruct (process frame c k) as [[sent c1] k1].
  destruct H as (Hm1 & Ht1 & Hnone & Hend). specialize (IH c1 k1 Hm1). destruct (process_all frames c1 k1) as [[rest c2] k2] eqn:E.
  destruct IH as (Hrest & _ & _ & Ht2). rewrite (Hrest Ht1), app_nil_r. split_and!.
  - intros H. by rewrite (Hnone H).
  - destruct sent; simpl; lia.
  - destruct sent as [f|]; constructor; auto.
  - intros _. destruct frames; [|by apply Ht2]. cbn [process_all] in E. by simplify_eq.
Qed.

(** ** A device at 48 kHz *)

(** Blocks and driver's buffers make no difference without a converter. *)
Lemma stage_blocks_pushes fuel blocks s k :
  st_resampler s = None ->
  stage_blocks fuel blocks s k =
  let '(sent, c, k) := pushes blocks (st_capture s) k in Some (sent, mkStage c None (st_converted s), k).
Proof.
  revert s k. induction blocks as [|mono blocks IH]; intros s k Hs; cbn [stage_blocks pushes].
  - by destruct s as [c r n]; cbn in *; subst.
  - unfold stage_block. rewrite Hs. destruct (capture_push mono (st_capture s) k) as [[sent c1] k1].
    rewrite IH by done. cbn [st_capture st_converted]. by destruct (pushes blocks c1 k1) as [[rest c2] k2].
Qed.

Lemma chunks_loop_enough {A} n fuel (l : list A) : (0 < n)%nat -> (length l <= fuel)%nat -> chunks_loop fuel n l = chunks n l.
Proof.
  intros Hn. unfold chunks. generalize (Nat.le_refl (length l)). generalize (length l) at 2 4 as j. intros j Hj Hf.
  revert j l Hj Hf. induction fuel as [|fuel IH]; intros j l Hj Hf.
  - destruct l; [|simpl in Hf; lia]. by destruct j.
  - destruct l as [|x l]; [by destruct j|]. destruct j as [|j]; [simpl in Hj; lia|]. cbn [chunks_loop]. f_equal.
    apply IH; rewrite length_drop; simpl in *; lia.
Qed.

Lemma chunks_step {A} n (l : list A) :
  (0 < n)%nat -> chunks n l = match l with [] => [] | _ => take n l :: chunks n (drop n l) end.
Proof.
  intros Hn. unfold chunks at 1. destruct l as [|x l]; [done|]. cbn [length chunks_loop]. f_equal.
  apply chunks_loop_enough; [done|]. rewrite length_drop. simpl. lia.
Qed.

Lemma chunks_app {A} n m (a b : list A) :
  (0 < n)%nat -> length a = (m * n)%nat -> chunks n (a ++ b) = chunks n a ++ chunks n b.
Proof.
  intros Hn. revert a. induction m as [|m IH]; intros a Ha.
  - by destruct a.
  - rewrite (chunks_step n a), (chunks_step n (a ++ b)) by done. destruct a as [|x a]; [simpl in Ha; lia|]. cbn [app].
    change (x :: a ++ b) with ((x :: a) ++ b). rewrite take_app_le, drop_app_le by lia. f_equal. apply IH.
    rewrite length_drop. lia.
Qed.

Lemma chunks_chunks {A} n m (l : list A) : (0 < n)%nat -> (0 < m)%nat -> concat (map (chunks n) (chunks (m * n) l)) = chunks n l.
Proof.
  intros Hn Hm. remember (length l) as j eqn:E. revert l E. induction j as [j IH] using lt_wf_ind. intros l ->.
  assert (0 < m * n)%nat by lia. rewrite (chunks_step (m * n) l) by done. destruct l as [|x l]; [done|]. set (l' := x :: l) in *.
  assert (0 < length l')%nat by (simpl; lia). cbn [map concat]. rewrite (IH (length (drop (m * n) l'))) by (rewrite ?length_drop; lia || done).
  destruct (Nat.lt_ge_cases (length l') (m * n)) as [Hlt|Hge].
  - rewrite drop_ge, take_ge by lia. by rewrite app_nil_r.
  - rewrite <- (chunks_app n m) by (rewrite ?length_take; lia). by rewrite take_drop.
Qed.

Lemma stage_push_48k {T} fuel (data : list T) channels to_f32 s k :
  st_resampler s = None -> capture_ok (st_capture s) -> (0 < channels)%nat ->
  stage_push fuel data channels to_f32 s k =
  let '(sent, c, k) := capture_push (map (downmix to_f32) (chunks channels data)) (st_capture s) k in
  Some (sent, mkStage c None (st_converted s), k).
Proof.
  intros Hs Hc Hn. unfold stage_push. rewrite (proj2 (Nat.eqb_neq _ 0)), stage_blocks_pushes, pushes_eq by (done || lia).
  rewrite <- (map_map (chunks channels) (map (downmix to_f32))), <- concat_map, chunks_chunks by (done || (unfold CAPTURE_CHUNK; lia)).
  done.
Qed.

(** A callback that holds whole device frames. *)
Definition whole_callback {T} (channels : nat) (data : list T) : Prop := exists n, length data = (n * channels)%nat.

Fixpoint callbacks {T} (fuel : nat) (datas : list (list T)) (channels : nat) (to_f32 : T -> f32) (s : CaptureStage)
    (k : CaptureControls) : option (list CapturedFrame * CaptureStage * CaptureControls) :=
  match datas with
  | [] => Some ([], s, k)
  | data :: datas =>
      match stage_push fuel data channels to_f32 s k with
      | None => None
      | Some (sent, s, k) =>
          match callbacks fuel datas channels to_f32 s k with
          | Some (rest, s, k) => Some (sent ++ rest, s, k)
          | None => None
          end
      end
  end.

Lemma chunks_concat {T} channels (datas : list (list T)) :
  (0 < channels)%nat -> Forall (whole_callback channels) datas ->
  concat (map (chunks channels) datas) = chunks channels (concat datas).
Proof.
  intros Hn. induction 1 as [|data datas [m Hm] _ IH]; [done|]. cbn [map concat]. by rewrite (chunks_app channels m), IH.
Qed.

Lemma callbacks_48k {T} fuel (datas : list (list T)) channels to_f32 s k :
  st_resampler s = None -> capture_ok (st_capture s) -> (0 < channels)%nat -> Forall (whole_callback channels) datas ->
  callbacks fuel datas channels to_f32 s k =
  let '(sent, c, k) := capture_push (map (downmix to_f32) (chunks channels (concat datas))) (st_capture s) k in
  Some (sent, mkStage c None (st_converted s), k).
Proof.
  intros Hs Hc Hn Hd. rewrite <- chunks_concat by done.  revert s k Hs Hc.
  induction Hd as [|data datas _ _ IH]; intros s k Hs Hc; cbn [callbacks map concat].
  - rewrite capture_push_nil by done. by destruct s as [c r n]; cbn in *; subst.
  - rewrite stage_push_48k, map_app, capture_push_app by done. pose proof (capture_push_ok (map (downmix to_f32) (chunks channels data)) (st_capture s) k) as Hc1.
    destruct (capture_push _ (st_capture s) k) as [[sent c1] k1]. rewrite IH by done. cbn [st_capture st_converted].
    by destruct (capture_push _ c1 k1) as [[rest c2] k2].
Qed.
End Talking.

(** ** The properties *)

(** C35: On a 48 kHz device whose callbacks deliver whole device frames, neither the sizes of the callbacks nor the blocks they are processed in matter: the samples of any run of callbacks, averaged over the channels of each device frame, are cut into whole 20 ms frames in order, with nothing lost, repeated or out of place and less than a frame held back, and what is sent is what processing those frames one by one sends. *)
Theorem no_sample_is_lost_in_capture {M : Libm} {O : Opus} {T} fuel (datas : list (list T)) channels to_f32 s k :
  st_resampler s = None -> capture_ok (st_capture s) -> (0 < channels)%nat -> Forall (whole_callback channels) datas ->
  let average frame := f32_div (f32_sum (map to_f32 frame)) (f32_of (Z.of_nat (length frame))) in
  let mono := map average (chunks channels (concat datas)) in
  exists frames sent c' k',
    callbacks fuel datas channels to_f32 s k = Some (sent, mkStage c' None (st_converted s), k') /\
    concat frames ++ pending c' = pending (st_capture s) ++ mono /\
    Forall (fun frame => length frame = frame_len) frames /\ (length (pending c') < frame_len)%nat /\
    (sent, with_pending [] c', k') =
      (let '(sent, c, k) := process_all frames (st_capture s) k in (sent, with_pending [] c, k)).
Proof.
  intros Hs Hc Hn Hd average mono. rewrite (callbacks_48k fuel datas channels to_f32 s k Hs Hc Hn Hd).
  change (map (downmix to_f32) (chunks channels (concat datas))) with mono.
  rewrite capture_push_eq. destruct (framed_spec (pending (st_capture s) ++ mono)) as (H1 & H2 & H3).
  exists (framed (pending (st_capture s) ++ mono)).
  destruct (process_all _ (st_capture s) k) as [[sent c] k']. by exists sent, (with_pending (leftover (pending (st_capture s) ++ mono)) c), k'.
Qed.

(** C33: Everything a microphone ever sends, through any sequence of mute, push-to-talk and gate mode changes at any moment between frames, is what is left of a sequence of bursts when the frames the codec refused are taken out: a burst starts with a frame that has the start flag, continues with frames that have none and ends, if it has ended, with one that has the end flag, and the next begins only after that; the frames that are sent of a burst are numbered from 0 by one modulo 2^32. A refused frame takes no number and its flag is lost with it; there are exactly as many of them as frames the codec answered with an error, so that a run without such an answer sends whole bursts. *)
Theorem what_is_sent_is_numbered_bursts {M : Libm} {O : Opus} bitrate c input :
  new_capture bitrate = inr c ->
  let '(sent, c') := talk input c in
  on_wire None (attempts input c) (burst_state c') /\ sent = omap id (attempts input c) /\
  length (retain is_refused (attempts input c)) = refusals input c.
Proof.
  intros Hc. destruct (new_capture_in_step bitrate c Hc) as [Hstep <-]. by apply talk_on_wire.
Qed.

(** However much audio is captured while the microphone is muted, at most one frame of it is sent: the one that marks the end of the burst that muting cut short, and nothing at all if no burst was in progress; and once a frame has been captured no burst is in progress, so nothing more will be sent until the microphone is unmuted. *)
Theorem a_muted_microphone_only_ends_its_burst {M : Libm} {O : Opus} samples c k :
  muted k = true ->
  let '(sent, c', _) := capture_push samples c k in
  (length sent <= 1)%nat /\ Forall (fun f => cf_flags f = FLAG_BURST_END) sent /\
  (transmitting c = false -> sent = []) /\
  ((frame_len <= length samples)%nat -> transmitting c' = false).
Proof.
  intros Hm. rewrite capture_push_eq. pose proof (process_all_muted (framed (pending c ++ samples)) c k Hm) as H.
  destruct (process_all _ c k) as [[sent c1] k1]. destruct H as (H1 & H2 & H3 & H4). split_and!; try done.
  intros Hl. cbn [transmitting with_pending]. apply H4. rewrite framed_step, length_app, (proj2 (Nat.leb_le _ _)) by lia. done.
Qed.

(** ** At any other rate

    The converter is drained after every block, so that the next block fits it whole. *)

From Stdlib Require Import Qround.
From S2P Require Import Rounding.

Section Converted.
Context {M : Libm} {O : Opus}.

(** Turns of the loop that drains it, at most. *)
Definition turns (r : Resampler) : nat :=
  Z.to_nat (Qceiling ((inject_Z (Z.of_nat (length (buf r))) + 1) * 2 / val (rstep r))).

Lemma turns_enough r : advances r -> (inject_Z (Z.of_nat (length (buf r))) + 1 <= inject_Z (Z.of_nat (turns r)) * (val (rstep r) * (1 # 2)))%Q.
Proof.
  intros [Ha _]. pose proof (pw_pos (-33)) as Hp. assert (Hs : (0 < val (rstep r))%Q) by lra.
  unfold turns. set (N := ((inject_Z (Z.of_nat (length (buf r))) + 1) * 2 / val (rstep r))%Q).
  pose proof (Qle_ceiling N) as Hc. assert (HN : (N * val (rstep r) == (inject_Z (Z.of_nat (length (buf r))) + 1) * 2)%Q) by (unfold N; field; lra).
  assert (H0 : (N <= inject_Z (Z.of_nat (Z.to_nat (Qceiling N))))%Q) by (eapply Qle_trans; [exact Hc | apply inject_le; lia]).
  nra.
Qed.

Lemma turns_shape r r' : same_shape r r' -> turns r' = turns r.
Proof. intros [E1 E2]. unfold turns. by rewrite E1, E2. Qed.

Lemma drain_ends max n room r c k fuel :
  keeps_room max r -> advances r -> (n < fuel)%nat ->
  (inject_Z (Z.of_nat (length (buf r))) + 1 <= val (pos r) + inject_Z (Z.of_nat n) * (val (rstep r) * (1 # 2)))%Q ->
  exists sent r' c' k', drain fuel (S room) r c k = Some (sent, r', c', k') /\ keeps_room max r' /\ same_shape r r' /\ starved r' = true.
Proof.
  revert r c k fuel. induction n as [|n IH]; intros r c k [|fuel] H Ha Hf Hfar; try lia; cbn [drain];
    destruct (pull_keeps_room max (S room) r H) as (made & r1 & E & H1 & _); rewrite E;
    pose proof (pull_shape _ _ _ _ E) as Hsh; pose proof (pull_moves max _ _ _ _ H Ha E) as Hm;
    (destruct made as [|x made]; [destruct (pull_dry _ _ _ E) as [Hd ->]; by exists [], r, c, k|]).
  - exfalso. change (inject_Z (Z.of_nat 0)) with 0%Q in Hfar. assert (Hs : starved r = true) by (apply (starved_far max); [done | lra]).
    by rewrite pull_starved in E.
  - destruct (capture_push (x :: made) c k) as [[sent c1] k1].
    destruct (IH r1 c1 k1 fuel H1 (advances_shape _ _ Hsh Ha) ltac:(lia)) as (rest & r' & c' & k' & -> & H' & Hsh' & Hd').
    { destruct Hsh as [-> ->]. rewrite Nat2Z.inj_succ, <- Z.add_1_l, inject_Z_plus in Hfar. change (inject_Z 1) with 1%Q in Hfar.
      cbn [length] in Hm. rewrite Nat2Z.inj_succ, <- Z.add_1_l, inject_Z_plus in Hm. change (inject_Z 1) with 1%Q in Hm.
      assert (0 <= inject_Z (Z.of_nat (length made)))%Q by (apply (inject_le 0); lia).
      assert (0 <= val (rstep r))%Q by apply val_nonneg, (kr_step _ _ H). nra. }
    exists (sent ++ rest), r', c', k'. split_and!; [done | done | by eapply same_shape_trans | done].
Qed.

(** What every block finds. *)
Definition stage_ready (s : CaptureStage) : Prop :=
  match st_resampler s with
  | None => True
  | Some r => keeps_room CAPTURE_CHUNK r /\ advances r /\ starved r = true /\ (0 < st_converted s)%nat
  end.

Definition stage_turns (s : CaptureStage) : nat := match st_resampler s with None => 0%nat | Some r => S (turns r) end.

(** The block went in whole. *)
Definition taken_whole (mono : list f32) (s : CaptureStage) : Prop :=
  match st_resampler s with None => True | Some r => (feed mono r).1 = length mono end.

Lemma stage_block_whole fuel mono s k :
  stage_ready s -> (length mono <= CAPTURE_CHUNK)%nat -> (stage_turns s <= fuel)%nat ->
  taken_whole mono s /\
  exists sent s' k', stage_block fuel mono s k = Some (sent, s', k') /\ stage_ready s' /\ stage_turns s' = stage_turns s.
Proof.
  unfold stage_ready, stage_turns, stage_block, taken_whole. intros Hr Hl Hf. destruct (st_resampler s) as [r|] eqn:Es.
  2:{ split; [done|]. destruct (capture_push mono (st_capture s) k) as [[sent c] k1]. exists sent. eexists. exists k1. by cbn. }
  destruct Hr as (H & Ha & Hs & Hc). destruct (drained_feed _ mono r H Hs Hl) as [Hwhole _]. split; [exact Hwhole|].
  destruct mono as [|x mono]; cbn [length convert].
  { exists []. eexists. exists k. cbn. split_and!; done. }
  pose proof (feed_keeps_room _ (x :: mono) _ H) as H1. pose proof (feed_shape (x :: mono) r (kr_window _ _ H)) as Hsh.
  destruct (feed (x :: mono) r) as [taken r1]. cbn [fst snd] in *. subst taken. cbn [Nat.eqb length].
  destruct (st_converted s) as [|room] eqn:Ec; [lia|]. pose proof (advances_shape _ _ Hsh Ha) as Ha1.
  destruct (drain_ends CAPTURE_CHUNK (turns r1) room r1 (st_capture s) k fuel H1 Ha1) as (sent & r2 & c2 & k2 & -> & H2 & Hsh2 & Hd2).
  { rewrite (turns_shape _ _ Hsh). lia. }
  { pose proof (turns_enough _ Ha1). pose proof (val_nonneg _ (proj1 (kr_pos _ _ H1))). lra. }
  rewrite drop_ge by (cbn; lia). assert (Hnil : convert (length mono) fuel (S room) [] r2 c2 k2 = Some ([], r2, c2, k2)) by (by destruct (length mono)).
  rewrite Hnil. exists (sent ++ []). eexists. exists k2. split; [done|]. cbn [st_resampler st_converted].
  rewrite (turns_shape r1 r2 Hsh2), (turns_shape r r1 Hsh). split_and!; try done; try lia.
  eapply advances_shape; [exact Hsh2 | exact Ha1].
Qed.

(** Each block in turn, and what it finds. *)
Fixpoint all_taken (fuel : nat) (blocks : list (list f32)) (s : CaptureStage) (k : CaptureControls) : Prop :=
  match blocks with
  | [] => True
  | mono :: blocks =>
      taken_whole mono s /\ match stage_block fuel mono s k with Some (_, s, k) => all_taken fuel blocks s k | None => False end
  end.

Lemma stage_blocks_whole fuel blocks s k :
  stage_ready s -> Forall (fun mono => (length mono <= CAPTURE_CHUNK)%nat) blocks -> (stage_turns s <= fuel)%nat ->
  all_taken fuel blocks s k /\
  exists sent s' k', stage_blocks fuel blocks s k = Some (sent, s', k') /\ stage_ready s' /\ stage_turns s' = stage_turns s.
Proof.
  intros Hr Hb. revert s k Hr. induction Hb as [|mono blocks Hl _ IH]; intros s k Hr Hf; cbn [all_taken stage_blocks].
  - split; [done|]. by exists [], s, k.
  - destruct (stage_block_whole fuel mono s k Hr Hl Hf) as (Ht & sent & s1 & k1 & -> & Hr1 & E1).
    destruct (IH s1 k1 Hr1 ltac:(lia)) as (Hall & rest & s2 & k2 & -> & Hr2 & E2). split; [done|].
    exists (sent ++ rest), s2, k2. split_and!; [done | done | lia].
Qed.

(** The blocks of a callback. *)
Definition blocks_of {T} (channels : nat) (to_f32 : T -> f32) (data : list T) : list (list f32) :=
  map (fun block => map (downmix to_f32) (chunks channels block)) (chunks (CAPTURE_CHUNK * channels) data).

Lemma chunks_short {A} n m (l : list A) : (0 < n)%nat -> (length l <= m * n)%nat -> (length (chunks n l) <= m)%nat.
Proof.
  intros Hn. revert l. induction m as [|m IH]; intros l Hl; rewrite chunks_step by done; destruct l as [|x l]; cbn [length] in *; try lia.
  apply le_n_S, IH. rewrite length_drop. cbn [length]. lia.
Qed.

Lemma chunks_pieces {A} n (l : list A) : (0 < n)%nat -> Forall (fun p => (length p <= n)%nat) (chunks n l).
Proof.
  intros Hn. remember (length l) as j eqn:E. revert l E. induction j as [j IH] using lt_wf_ind. intros l ->. rewrite chunks_step by done.
  destruct l as [|x l]; constructor; [rewrite length_take; lia|]. apply (IH (length (drop n (x :: l)))); [rewrite length_drop; cbn; lia | done].
Qed.

Lemma blocks_fit {T} channels (to_f32 : T -> f32) data :
  (0 < channels)%nat -> Forall (fun mono => (length mono <= CAPTURE_CHUNK)%nat) (blocks_of channels to_f32 data).
Proof.
  intros Hn. unfold blocks_of. apply Forall_map. eapply Forall_impl; [apply chunks_pieces; unfold CAPTURE_CHUNK; lia|].
  intros block Hb. cbn. rewrite length_map. by apply chunks_short.
Qed.

Lemma new_stage_ready device_rate bitrate s :
  0 <= device_rate < 2 ^ 32 -> new_stage device_rate bitrate = inr s -> stage_ready s.
Proof.
  intros Hd. unfold new_stage, stage_ready. destruct (new_capture bitrate) as [|c]; [done|]. intros [= <-]. cbn [st_resampler st_converted].
  destruct (device_rate =? SAMPLE_RATE); cbn [negb]; [done|].
  destruct (new_resampler device_rate SAMPLE_RATE CAPTURE_CHUNK) as [r|] eqn:E; [|done].
  destruct (Z.eq_dec device_rate 0) as [-> | Hne]; [done|].
  destruct (new_keeps_room device_rate SAMPLE_RATE CAPTURE_CHUNK r ltac:(lia) ltac:(unfold SAMPLE_RATE; lia) ltac:(unfold CAPTURE_CHUNK; lia) E) as (H & Ha & Hs).
  split_and!; [done | apply Ha; unfold CAPTURE_CHUNK; lia | done |]. unfold max_output_for. lia.
Qed.
End Converted.

(** C34: Capture keeps up with a sound card of any rate.  Whatever 32-bit rate the device has, one
    bound on the loop that drains the converter is enough for the whole life of the stream:
    through any callbacks, of any sizes and formats, no index is out of range, every loop ends,
    and each block goes into the converter in a single feed, so that the retry around it never
    drops a sample. *)
Theorem capture_keeps_up_at_any_rate {M : Libm} {O : Opus} device_rate bitrate s0 :
  0 <= device_rate < 2 ^ 32 -> new_stage device_rate bitrate = inr s0 ->
  exists enough, forall fuel (T : Type) (datas : list (list T)) channels to_f32 k,
    (enough <= fuel)%nat -> (0 < channels)%nat ->
    (exists sent s k', callbacks fuel datas channels to_f32 s0 k = Some (sent, s, k')) /\
    all_taken fuel (concat (map (blocks_of channels to_f32) datas)) s0 k.
Proof.
  intros Hd H0. pose proof (new_stage_ready _ _ _ Hd H0) as Hr. clear H0. exists (stage_turns s0). intros fuel T datas channels to_f32 k Hf Hn.
  split.
  - revert s0 k Hr Hf. induction datas as [|data datas IH]; intros s k Hr Hf; cbn [callbacks]; [by exists [], s, k|].
    unfold stage_push. rewrite (proj2 (Nat.eqb_neq _ _)) by lia.
    destruct (stage_blocks_whole fuel _ s k Hr (blocks_fit channels to_f32 data Hn) Hf) as (_ & sent & s1 & k1 & E & Hr1 & E1).
    unfold blocks_of in E. rewrite E. destruct (IH s1 k1 Hr1 ltac:(lia)) as (rest & s2 & k2 & ->). by exists (sent ++ rest), s2, k2.
  - apply stage_blocks_whole; [done | | done]. apply Forall_concat, Forall_map, Forall_true. intros data. by apply blocks_fit.
Qed.

(** Nor does playing back at any rate ever panic. *)
Definition playback_ready (p : Playback) : Prop :=
  match pb_resampler p with None => True | Some r => keeps_room frame_len r end.

Lemma feed_all_keeps_room max turns input r : keeps_room max r -> keeps_room max (feed_all turns input r).
Proof.
  revert input r; induction turns as [|turns IH]; intros [|x input] r H; cbn [feed_all]; try done.
  pose proof (feed_keeps_room _ (x :: input) _ H) as H1. destruct (feed (x :: input) r) as [taken r1]. cbn [snd] in H1.
  destruct (taken =? 0)%nat; [done|]. by apply IH.
Qed.

Section Played.
Context {M : Libm} {O : Opus} {HO : HashOrder}.

Lemma refill_rounds_total rounds r p m :
  keeps_room frame_len r -> exists p' m', refill_rounds rounds r p m = Some (p', m') /\ playback_ready p'.
Proof.
  revert r p m; induction rounds as [|rounds IH]; intros r p m H; cbn [refill_rounds]; [by eexists _, _|].
  destruct (pull_keeps_room frame_len (length (ready p)) r H) as (made & r1 & -> & H1 & _). destruct made as [|x made]; [|by eexists _, _].
  destruct (render (pb_frame p) m) as [[n frame] m1]. apply IH. by apply feed_all_keeps_room.
Qed.

Lemma next_sample_total p m : playback_ready p -> exists x p' m', next_sample p m = Some (x, p', m') /\ playback_ready p'.
Proof.
  intros H. unfold next_sample. destruct (filled p <=? position p)%nat.
  - unfold refill. destruct (pb_resampler p) as [r|] eqn:E.
    + unfold playback_ready in H. rewrite E in H. destruct (refill_rounds_total MAX_REFILL_ROUNDS r p m H) as (p1 & m1 & -> & H1).
      destruct (ready (at_position 0 p1) !! _); eexists _, _, _; split; done.
    + destruct (render (ready p) m) as [[n out] m1]. destruct (ready (at_position 0 _) !! _); eexists _, _, _; split; done.
  - destruct (ready p !! _); eexists _, _, _; split; done.
Qed.

(** A run of output callbacks, each with its channels and device frames. *)
Fixpoint output_callbacks {T} (to_sample : f32 -> T) (calls : list (nat * nat)) (p : Playback) (m : VoiceMixer) :
    option (list (list T) * Playback * VoiceMixer) :=
  match calls with
  | [] => Some ([], p, m)
  | (channels, frames) :: calls =>
      match fill to_sample channels frames p m with
      | Some (out, p, m) =>
          match output_callbacks to_sample calls p m with Some (outs, p, m) => Some (out :: outs, p, m) | None => None end
      | None => None
      end
  end.

Theorem playback_never_panics {T} device_rate (to_sample : f32 -> T) calls m :
  0 <= device_rate < 2 ^ 32 ->
  exists outs p' m', output_callbacks to_sample calls (new_playback device_rate) m = Some (outs, p', m').
Proof.
  intros Hd. assert (H : playback_ready (new_playback device_rate)).
  { unfold new_playback, playback_ready. cbn [pb_resampler]. destruct (device_rate =? SAMPLE_RATE); cbn [negb]; [done|].
    destruct (new_resampler SAMPLE_RATE device_rate frame_len) as [r|] eqn:E; [|done].
    destruct (Z.eq_dec device_rate 0) as [-> | Hne]; [done|].
    assert (Hl : Z.of_nat frame_len = SAMPLES_PER_FRAME) by (rewrite <- (frame_len_samples (replicate frame_len (S754_zero false))); by rewrite length_replicate).
    destruct (new_keeps_room SAMPLE_RATE device_rate frame_len r ltac:(unfold SAMPLE_RATE; lia) ltac:(lia) ltac:(rewrite Hl; done) E) as (H & _). exact H. }
  generalize dependent (new_playback device_rate). revert m. induction calls as [|[channels frames] l IH]; intros m p H; cbn [output_callbacks]; [by eexists _, _, _|].
  assert (Hf : exists out p1 m1, fill to_sample channels frames p m = Some (out, p1, m1) /\ playback_ready p1).
  { clear IH. revert p m H. induction frames as [|frames IH]; intros p m H; cbn [fill]; [by eexists _, _, _|].
    destruct (next_sample_total p m H) as (x & p1 & m1 & -> & H1). destruct (IH p1 m1 H1) as (out & p2 & m2 & -> & H2). by eexists _, _, _. }
  destruct Hf as (out & p1 & m1 & -> & H1). destruct (IH m1 p1 H1) as (outs & p2 & m2 & ->). by eexists _, _, _.
Qed.
End Played.

(** ** A concrete microphone *)

Module Sample_microphone.
Import Sample_gate Toy_codec.

Definition steady (amplitude : f32) : list f32 := replicate frame_len amplitude.
Definition quarter : f32 := narrow (f64_lit 1 4).

Definition microphone : Capture :=
  mkCapture [] VoiceGate_default
    (mkEncoder tt (mkOpus 32000 USE_INBAND_FEC ASSUMED_PACKET_LOSS_PERCENT) (replicate MAX_OPUS_PACKET 0) 0) false.

Definition live_controls : CaptureControls := new_controls Continuous.
Definition muted_controls : CaptureControls := controls_set_muted true live_controls.

(** Two frames, muting, two more, and unmuting. *)
Definition session : list (CaptureControls * list f32) :=
  [(live_controls, steady quarter); (live_controls, steady quarter); (muted_controls, steady quarter);
   (muted_controls, steady quarter); (live_controls, steady quarter)].

Lemma what_is_sent_is_numbered_bursts_witness :
  (talk session microphone).1 =
    [mkFrame 0 FLAG_BURST_START [25]; mkFrame 1 0 [25]; mkFrame 2 FLAG_BURST_END [25]; mkFrame 0 FLAG_BURST_START [25]] /\
  on_wire None (map Some (talk session microphone).1) (burst_state (talk session microphone).2).
Proof.
  split; [vm_compute; reflexivity|].
  pose proof (what_is_sent_is_numbered_bursts 32000 microphone session eq_refl) as H.
  assert (Hr : refusals session microphone = 0%nat) by (vm_compute; reflexivity).
  destruct (talk session microphone) as [sent c']. destruct H as (H1 & -> & H2). rewrite Hr in H2. cbn [fst snd].
  rewrite <- nothing_refused by exact H2. exact H1.
Defined.

(** Muted in the middle of a frame, three callbacks long. *)
Lemma a_muted_microphone_only_ends_its_burst_witness :
  (length (capture_push (steady quarter ++ steady quarter) (talk (take 2 session) microphone).2 muted_controls).1.1 <= 1)%nat.
Proof.
  pose proof (a_muted_microphone_only_ends_its_burst (steady quarter ++ steady quarter) (talk (take 2 session) microphone).2
    muted_controls eq_refl) as H.
  destruct (capture_push _ _ _) as [[sent c'] k']. exact (proj1 H).
Defined.

(** A stereo device at 48 kHz whose callbacks do not fit frames or blocks. *)
Definition stereo (n : nat) : list Z := concat (replicate n [16384; 0]).

Lemma no_sample_is_lost_in_capture_witness :
  exists frames sent c' k',
    callbacks 1 [stereo 700; stereo 300; stereo 1000] 2 from_i16 (mkStage microphone None 0) live_controls =
      Some (sent, mkStage c' None 0, k') /\
    concat frames ++ pending c' = map (downmix from_i16) (chunks 2 (concat [stereo 700; stereo 300; stereo 1000])) /\
    length (pending c') = 80%nat.
Proof.
  assert (forall n, length (stereo n) = (n * 2)%nat) as Hlen.
  { intros n. unfold stereo. induction n; simpl; lia. }
  destruct (no_sample_is_lost_in_capture 1 [stereo 700; stereo 300; stereo 1000] 2 from_i16 (mkStage microphone None 0) live_controls)
    as (frames & sent & c' & k' & H1 & H2 & H3 & H4 & _).
  - reflexivity.
  - vm_compute. lia.
  - lia.
  - repeat (apply Forall_cons; split; [by eexists|]). apply Forall_nil. exact I.
  - exists frames, sent, c', k'. split; [exact H1|]. split; [exact H2|]. apply (f_equal length) in H2.
    assert (length (concat frames) = (length frames * frame_len)%nat) as Hf.
    { clear -H3. induction H3 as [|f frames Hf _ IH]; simpl; [done|]. rewrite length_app, IH, Hf. lia. }
    rewrite !length_app, Hf in H2. cbn [pending st_capture length microphone] in H2. rewrite length_map in H2.
    assert (length (chunks 2 (concat [stereo 700; stereo 300; stereo 1000])) = 2000%nat) as Hc by (vm_compute; reflexivity).
    rewrite Hc in H2. assert (frame_len = 960%nat) as Hfl by (vm_compute; reflexivity). rewrite Hfl in *. lia.
Defined.
(** Two callbacks of a 44.1 kHz card. *)
Definition tone : list f32 := replicate 700 (f32_of 1).
Definition card : CaptureStage := match new_stage 44100 32000 with inr s => s | inl _ => mkStage microphone None 0 end.

Lemma capture_keeps_up_at_any_rate_witness :
  exists s0, new_stage 44100 32000 = inr s0 /\ exists fuel,
    (exists sent s k', callbacks fuel [tone; tone] 1 from_f32 s0 (new_controls VoiceActivity) = Some (sent, s, k')) /\
    all_taken fuel (concat (map (blocks_of 1 from_f32) [tone; tone])) s0 (new_controls VoiceActivity).
Proof.
  assert (E : new_stage 44100 32000 = inr card) by reflexivity. exists card. split; [exact E|].
  assert (Hr : 0 <= 44100 < 2 ^ 32) by lia.
  destruct (capture_keeps_up_at_any_rate 44100 32000 card Hr E) as [enough H]. exists enough.
  exact (H enough f32 [tone; tone] 1%nat from_f32 (new_controls VoiceActivity) (Nat.le_refl enough) (Nat.lt_0_succ 0)).
Defined.

End Sample_microphone.

(** ** From the mixer to the sound card

    [Playback] at 48 kHz: whatever the sizes of the driver's callbacks, the sound card plays
    the mixer's frames one after another, every sample once and in every channel. *)

Section Playing.
Context {M : Libm} {O : Opus} {HO : HashOrder}.

Definition silent_frame : list f32 := replicate frame_len (S754_zero false).

(** The next [rounds] frames of the mixer, end to end. *)
Fixpoint played (rounds : nat) (m : VoiceMixer) : list f32 :=
  match rounds with
  | 0%nat => []
  | S rounds => let '(_, frame, m) := render silent_frame m in frame ++ played rounds m
  end.

(** What is left of the frame being played: nothing of a buffer that was never filled. *)
Definition remaining (p : Playback) : list f32 := drop (position p) (take (filled p) (ready p)).

(** A playback without a converter holds one frame, none of it to play at first. *)
Definition playback_ok (p : Playback) : Prop :=
  pb_resampler p = None /\ length (ready p) = frame_len /\ (filled p = frame_len \/ filled p = 0%nat).

Lemma new_playback_ok : playback_ok (new_playback SAMPLE_RATE) /\ remaining (new_playback SAMPLE_RATE) = [].
Proof. split; [|done]. split; [done|]. split; [apply length_replicate | by right]. Qed.

(** Only the length of the buffer matters to [render]. *)
Lemma render_ignores out out' m : length out = length out' -> render out m = render out' m.
Proof.
  intros Hl. unfold render. assert (map (fun _ => S754_zero false) out = map (fun _ => S754_zero false) out') as ->; [|done].
  revert out' Hl. induction out as [|x out IH]; intros [|y out']; simpl; try done. intros [= Hl]. f_equal. by apply IH.
Qed.

Lemma render_length out m : length (render out m).1.2 = length out.
Proof.
  unfold render. destruct (negb _); cbn [fst snd]; rewrite ?length_map; [done|].
  rewrite render_loop_length. cbn [r_out]. apply length_map.
Qed.

Lemma refill_48k p m :
  playback_ok p ->
  refill p m = Some (mkPlayback (pb_frame p) None (render silent_frame m).1.2 frame_len (position p), (render silent_frame m).2).
Proof.
  intros (Hr & Hl & _). assert (length (ready p) = length silent_frame) as E by (unfold silent_frame; by rewrite length_replicate).
  unfold refill. rewrite Hr, (render_ignores _ silent_frame m E). pose proof (render_length silent_frame m) as Hlen.
  unfold silent_frame in Hlen at 2. rewrite length_replicate in Hlen. destruct (render silent_frame m) as [[n out] m1]. cbn [fst snd] in *. by rewrite Hlen.
Qed.

(** A sample comes from what is left, or from the next frame. *)
Lemma next_sample_48k p m :
  playback_ok p ->
  exists x p' m', next_sample p m = Some (x, p', m') /\ playback_ok p' /\
    ((remaining p = x :: remaining p' /\ m' = m) \/
     (remaining p = [] /\ (render silent_frame m).1.2 = x :: remaining p' /\ m' = (render silent_frame m).2)).
Proof.
  intros Hp. pose proof Hp as (Hr & Hl & Hf). pose proof frame_len_pos. unfold next_sample.
  destruct (Nat.leb_spec (filled p) (position p)) as [Hle|Hlt].
  - rewrite (refill_48k p m Hp). cbn [at_position ready position pb_frame pb_resampler filled].
    pose proof (render_length silent_frame m) as Hlen. unfold silent_frame in Hlen at 2. rewrite length_replicate in Hlen.
    destruct (render silent_frame m) as [[n out] m1]. cbn [fst snd] in *. destruct out as [|x out]; [simpl in Hlen; lia|].
    cbn [lookup list_lookup]. eexists _, _, _. split; [reflexivity|].
    split; [split; [done|]; split; [done|]; by left|]. right. split; [|split; [|done]].
    + unfold remaining. apply drop_ge. rewrite length_take. lia.
    + unfold remaining. cbn [position filled ready at_position]. rewrite take_ge by lia. done.
  - destruct Hf as [Hf|]; [|lia]. destruct (ready p !! position p) as [x|] eqn:E; [|apply lookup_ge_None in E; lia].
    eexists x, _, m. split; [reflexivity|]. split; [split; [done|]; split; [done|]; by left|]. left. split; [|done].
    unfold remaining. cbn [at_position ready position filled]. rewrite take_ge by lia. by apply drop_S.
Qed.

Lemma fill_48k {T} (conv : f32 -> T) channels frames rounds p m :
  playback_ok p -> (frames <= rounds)%nat ->
  exists p' m', playback_ok p' /\
    fill conv channels frames p m =
      Some (concat (map (fun x => replicate channels (conv x)) (take frames (remaining p ++ played rounds m))), p', m').
Proof.
  revert rounds p m. induction frames as [|frames IH]; intros rounds p m Hp Hr; cbn [fill]; [by exists p, m|].
  destruct rounds as [|rounds]; [lia|]. destruct (next_sample_48k p m Hp) as (x & p1 & m1 & -> & Hp1 & Hx).
  destruct Hx as [[-> ->] | (-> & Hx & ->)].
  - destruct (IH (S rounds) p1 m Hp1 ltac:(lia)) as (p2 & m2 & Hp2 & ->). by exists p2, m2.
  - cbn [played app]. destruct (render silent_frame m) as [[n frame] m1]. cbn [fst snd] in *. subst frame.
    destruct (IH rounds p1 m1 Hp1 ltac:(lia)) as (p2 & m2 & Hp2 & ->). by exists p2, m2.
Qed.

(** Callback after callback, each of so many device frames. *)
Fixpoint fills {T} (conv : f32 -> T) (channels : nat) (callbacks : list nat) (p : Playback) (m : VoiceMixer) :
    option (list T * Playback * VoiceMixer) :=
  match callbacks with
  | [] => Some ([], p, m)
  | frames :: callbacks =>
      match fill conv channels frames p m with
      | None => None
      | Some (data, p, m) =>
          match fills conv channels callbacks p m with Some (rest, p, m) => Some (data ++ rest, p, m) | None => None end
      end
  end.

Lemma fill_app {T} (conv : f32 -> T) channels a b p m :
  fill conv channels (a + b) p m =
  match fill conv channels a p m with
  | None => None
  | Some (data, p, m) =>
      match fill conv channels b p m with Some (rest, p, m) => Some (data ++ rest, p, m) | None => None end
  end.
Proof.
  revert p m. induction a as [|a IH]; intros p m; cbn [fill Nat.add].
  - by destruct (fill conv channels b p m) as [[[? ?] ?]|].
  - destruct (next_sample p m) as [[[x p1] m1]|]; [|done]. rewrite IH. destruct (fill conv channels a p1 m1) as [[[d p2] m2]|]; [|done].
    destruct (fill conv channels b p2 m2) as [[[r p3] m3]|]; [|done]. by rewrite app_assoc.
Qed.

Lemma fills_sum {T} (conv : f32 -> T) channels callbacks p m :
  fills conv channels callbacks p m = fill conv channels (sum_list callbacks) p m.
Proof.
  revert p m. induction callbacks as [|a callbacks IH]; intros p m; cbn [fills]; [reflexivity|].
  change (sum_list (a :: callbacks)) with (a + sum_list callbacks)%nat. rewrite fill_app. destruct (fill conv channels a p m) as [[[d p1] m1]|]; [|done]. by rewrite IH.
Qed.
End Playing.

(** On a 48 kHz device the callbacks always get what they ask for, and together they play the mixer's frames end to end whatever their sizes: every sample of every frame once and in order, converted and copied to each channel of one device frame, nothing skipped or repeated at the edge of a callback or of a frame. *)
Theorem no_sample_is_lost_in_playback {M : Libm} {O : Opus} {HO : HashOrder} {T} (conv : f32 -> T) channels callbacks m :
  exists p' m', fills conv channels callbacks (new_playback SAMPLE_RATE) m =
    Some (concat (map (fun x => replicate channels (conv x)) (take (sum_list callbacks) (played (sum_list callbacks) m))), p', m').
Proof.
  rewrite fills_sum. destruct new_playback_ok as [Hok Hrem].
  destruct (fill_48k conv channels (sum_list callbacks) (sum_list callbacks) _ m Hok (Nat.le_refl _)) as (p' & m' & _ & ->).
  rewrite Hrem. by exists p', m'.
Qed.
