(* ===== verification/VoicePath.v ===== *)
(** * From one microphone to another's ears

    [Talking] says what a burst looks like on the wire, [Speakers] that a listener treats each
    speaker alone.  Here they meet: over a network that delivers a burst in order, one frame
    per 20 ms, the listener's decoder is handed exactly what the speaker's encoder made. *)

From S2P Require Export Talking Speakers.

(** ** The buffer, in step *)

(** Waiting for [target] frames, playing two behind the arrivals. *)
Definition default_sized (j : JitterBuffer) : Prop := target_frames j = DEFAULT_TARGET_FRAMES /\ max_frames j = DEFAULT_MAX_FRAMES.

(** [k] packets numbered from 0 have arrived and all but the last two, [a] and [b], have played. *)
Definition cruising (k : Z) (a b : bytes) (j : JitterBuffer) : Prop :=
  jitter_ok j /\ playing j = true /\ next_extended j = Some (k - 2) /\ anchor j = Some (mkAnchor (wrap 32 (k - 1)) (k - 1)) /\
  packets j = <[k - 2 := a]> {[k - 1 := b]} /\ max_frames j = DEFAULT_MAX_FRAMES.

Lemma next_number k : extended_of (Some (mkAnchor (wrap 32 (k - 1)) (k - 1))) (wrap 32 k) = k.
Proof. pose proof (extended_of_numbered 0 (k - 1) (k - 1) k) as H. unfold numbered in H. rewrite !Z.add_0_l in H. rewrite H; lia. Qed.

Lemma size_insert_le {V} (m : gmap Z V) i x : (size (<[i := x]> m) <= S (size m))%nat.
Proof. rewrite map_size_insert. case_match; simpl; lia. Qed.

(** A packet that is not late and finds room. *)
Lemma push_room j seq payload :
  jitter_ok j -> is_late j (extended_of (anchor j) seq) = false -> (S (size (packets j)) <= max_frames j)%nat ->
  push j seq payload = set_packets (<[extended_of (anchor j) seq := payload]> (packets j)) (arrived j seq).
Proof.
  intros Hok Hl Hs. pose proof (size_insert_le (packets j) (extended_of (anchor j) seq) payload) as Hsz.
  destruct (push_cases j seq payload Hok) as [[H _]|[(_ & H & _)|(? & _ & _ & H & _)]]; [congruence | done |].
  cbn [packets set_packets] in H. lia.
Qed.

Lemma cruising_push_pop k a b c j :
  cruising k a b j ->
  (pop (push j (wrap 32 k) c)).1 = Some (Frame a) /\ cruising (k + 1) b c (pop (push j (wrap 32 k) c)).2.
Proof.
  intros (Hok & Hp & Hn & Ha & Hm & Hmax). assert (extended_of (anchor j) (wrap 32 k) = k) as He by (rewrite Ha; apply next_number).
  assert (size (packets j) <= 2)%nat as Hsz.
  { rewrite Hm. pose proof (size_insert_le {[k - 1 := b]} (k - 2) a). rewrite map_size_singleton in *. lia. }
  assert (push j (wrap 32 k) c = set_packets (<[k := c]> (packets j)) (arrived j (wrap 32 k))) as Hpush.
  { rewrite push_room, He; [done | done | |]; rewrite ?He, ?Hmax; unfold is_late; rewrite ?Hn; [by apply Z.ltb_ge; lia|].
    unfold DEFAULT_MAX_FRAMES. lia. }
  pose proof (push_ok j (wrap 32 k) c Hok) as Hok'. rewrite Hpush in *. set (j1 := set_packets _ _) in *.
  assert (starts_at j1 (k - 2)) as Hst by (unfold starts_at; cbn; rewrite Hp; exact Hn).
  assert (packets j1 = <[k := c]> (<[k - 2 := a]> {[k - 1 := b]})) as Hm1 by (cbn; by rewrite Hm).
  pose proof (pop_ok j1 Hok') as Hok2.
  destruct (pop_from j1 (k - 2) Hok' Hst) as [(p & Hpk & Hpop) | [(Hnone & _) | (He0 & _)]].
  - rewrite Hm1, lookup_insert_ne, lookup_insert_eq in Hpk by lia. injection Hpk as <-. rewrite Hpop in *. cbn [fst snd] in *.
    split; [done|]. unfold cruising. split; [done|]. cbn [playing next_extended anchor packets max_frames set_next set_packets set_playing].
    split_and!; [done | f_equal; lia | | | exact Hmax].
    + unfold j1, arrived. cbn. rewrite He. do 3 f_equal; lia.
    + rewrite Hm1, delete_insert_ne, delete_insert_id by (rewrite ?lookup_singleton_ne; done || lia).
      replace (k + 1 - 2) with (k - 1) by lia. replace (k + 1 - 1) with k by lia. apply insert_insert_ne. lia.
  - exfalso. rewrite Hm1, lookup_insert_ne, lookup_insert_eq in Hnone by lia. done.
  - exfalso. apply (f_equal (lookup k)) in He0. rewrite Hm1, lookup_insert_eq, lookup_empty in He0. done.
Qed.

(** ** The first three frames *)

(** [k] packets held, none played yet. *)
Definition waiting (k : Z) (held : gmap Z bytes) (j : JitterBuffer) : Prop :=
  jitter_ok j /\ playing j = false /\ target_frames j = DEFAULT_TARGET_FRAMES /\ max_frames j = DEFAULT_MAX_FRAMES /\
  anchor j = (if k =? 0 then None else Some (mkAnchor (wrap 32 (k - 1)) (k - 1))) /\ packets j = held.

Lemma reset_waiting j : jitter_ok j -> default_sized j -> waiting 0 ∅ (reset j).
Proof. intros Hok [Ht Hm]. split; [by apply reset_ok|]. done. Qed.

Lemma waiting_push k held j p :
  waiting k held j -> 0 <= k -> (size held <= 2)%nat -> waiting (k + 1) (<[k := p]> held) (push j (wrap 32 k) p).
Proof.
  intros (Hok & Hp & Ht & Hm & Ha & Hh) Hk Hs. assert (next_extended j = None) as Hn.
  { destruct (next_extended j) eqn:E; [|done]. destruct Hok as [_ _ Hnext _]. rewrite E, Hp in Hnext. destruct Hnext as [H _].
    by discriminate H. }
  assert (extended_of (anchor j) (wrap 32 k) = k) as He.
  { rewrite Ha. destruct (Z.eqb_spec k 0) as [->|]; [done | apply next_number]. }
  pose proof (push_ok j (wrap 32 k) p Hok) as Hok'.
  assert (push j (wrap 32 k) p = set_packets (<[k := p]> (packets j)) (arrived j (wrap 32 k))) as Hpush.
  { rewrite push_room; rewrite ?He, ?Hm, ?Hh; [done | done | unfold is_late; by rewrite Hn | unfold DEFAULT_MAX_FRAMES; lia]. }
  rewrite Hpush in *. split; [done|]. unfold arrived. cbn. rewrite He, (proj2 (Z.eqb_neq (k + 1) 0)) by lia. rewrite Hh.
  replace (k + 1 - 1) with k by lia. done.
Qed.

Lemma waiting_dry k held j : waiting k held j -> (size held <= 2)%nat -> pop j = (None, j).
Proof. intros (Hok & Hp & Ht & _ & _ & Hh) Hs. apply pop_dry. split; [done|]. rewrite Ht, Hh. unfold DEFAULT_TARGET_FRAMES. lia. Qed.

(** Three packets in, the first plays. *)
Lemma waiting_plays p0 p1 p2 j :
  waiting 3 (<[2 := p2]> (<[1 := p1]> {[0 := p0]})) j -> (pop j).1 = Some (Frame p0) /\ cruising 3 p1 p2 (pop j).2.
Proof.
  intros (Hok & Hp & Ht & Hm & Ha & Hh). assert (starts_at j 0) as Hst.
  { unfold starts_at. rewrite Hp, Ht, Hh. split; vm_compute; done || lia. }
  pose proof (pop_ok j Hok) as Hok'.
  destruct (pop_from j 0 Hok Hst) as [(p & Hpk & Hpop) | [(Hnone & _) | (He & _)]].
  - rewrite Hh in Hpk. assert (p = p0) as -> by (vm_compute in Hpk; congruence). rewrite Hpop in *. cbn [fst snd] in *.
    split; [done|]. split; [done|]. cbn [playing next_extended anchor packets max_frames set_next set_packets set_playing].
    rewrite Ha, Hh. split_and!; [done | done | done | | done].
    rewrite delete_insert_ne, delete_insert_ne, delete_singleton by done. apply insert_insert_ne. done.
  - rewrite Hh in Hnone. vm_compute in Hnone. done.
  - rewrite Hh in He. apply (f_equal (lookup 0)) in He. vm_compute in He. done.
Qed.

(** ** A burst, buffer only *)

(** The packet the server sends on for a captured frame. *)
Definition relayed (c : ClientId) (f : CapturedFrame) : VoiceDownstream := mkDown c (cf_seq f) (cf_flags f) (cf_payload f).

Definition buffer_packet (f : CapturedFrame) (j : JitterBuffer) : JitterBuffer :=
  push (if starts_burst (relayed 0 f) then reset j else j) (cf_seq f) (cf_payload f).

(** What plays in each 20 ms, in some of which a frame arrives. *)
Fixpoint plays (schedule : list (option CapturedFrame)) (j : JitterBuffer) : list (option JitterOutput) :=
  match schedule with
  | [] => []
  | f :: schedule =>
      let j := match f with Some f => buffer_packet f j | None => j end in
      (pop j).1 :: plays schedule (pop j).2
  end.

(** The rest of a burst: the numbers go on, the start flag does not come again. *)
Fixpoint continues (k : Z) (l : list CapturedFrame) : Prop :=
  match l with
  | [] => True
  | f :: l => cf_seq f = wrap 32 k /\ starts_burst (relayed 0 f) = false /\ continues (k + 1) l
  end.

Lemma wire_outside l s : on_wire None (map Some l) s -> Forall (fun f => cf_flags f <> FLAG_BURST_START) l -> l = [].
Proof. destruct l as [|f l]; [done|]. intros H Hf. inversion H; subst. apply Forall_cons in Hf as [Hf _]. done. Qed.

Lemma wire_continues k l s :
  0 <= k -> on_wire (Some (wrap 32 k)) (map Some l) s -> Forall (fun f => cf_flags f <> FLAG_BURST_START) l -> continues k l.
Proof.
  revert k. induction l as [|f l IH]; intros k Hk Hw Hf; [done|]. apply Forall_cons in Hf as [_ Hf]. cbn [map] in Hw.
  inversion Hw as [| | |? p ? ? Hw'| |? p ? ? Hw'|]; subst.
  - cbn [continues cf_seq]. split; [done|]. split; [done|]. apply IH; [lia | | done]. by rewrite <- wrap_add_mod.
  - apply wire_outside in Hw' as ->; [|done]. done.
Qed.

Definition as_played (f : CapturedFrame) : option JitterOutput := Some (Frame (cf_payload f)).

Lemma cruising_plays l k a b j :
  cruising k a b j -> continues k l ->
  plays (map Some l ++ [None; None]) j = [Some (Frame a); Some (Frame b)] ++ map as_played l.
Proof.
  revert k a b j. induction l as [|f l IH]; intros k a b j Hc Hl.
  - destruct Hc as (Hok & Hp & Hn & Ha & Hm & Hmax). assert (starts_at j (k - 2)) as Hst by (unfold starts_at; by rewrite Hp).
    cbn [map app plays]. pose proof (pop_ok j Hok) as Hok'.
    destruct (pop_from j (k - 2) Hok Hst) as [(p & Hpk & Hpop) | [(Hnone & _) | (He & _)]].
    2: by rewrite Hm, lookup_insert_eq in Hnone.
    2: by rewrite He in Hm; apply (f_equal (lookup (k - 2))) in Hm; rewrite lookup_insert_eq, lookup_empty in Hm.
    rewrite Hm, lookup_insert_eq in Hpk. injection Hpk as <-. rewrite Hpop in *. cbn [fst snd] in *. f_equal.
    set (j1 := set_next _ _) in *. assert (starts_at j1 (k - 1)) as Hst1 by (unfold starts_at; cbn; f_equal; lia).
    assert (packets j1 = {[k - 1 := b]}) as Hm1.
    { cbn. rewrite Hm. by rewrite delete_insert_id by (rewrite lookup_singleton_ne; done || lia). }
    destruct (pop_from j1 (k - 1) Hok' Hst1) as [(p & Hpk & ->) | [(Hnone & _) | (He & _)]].
    + rewrite Hm1, lookup_singleton_eq in Hpk. by injection Hpk as <-.
    + by rewrite Hm1, lookup_singleton_eq in Hnone.
    + rewrite He in Hm1. apply (f_equal (lookup (k - 1))) in Hm1. by rewrite lookup_singleton_eq, lookup_empty in Hm1.
  - destruct Hl as (Hs & Hf & Hl). cbn [map app plays]. unfold buffer_packet. rewrite Hf, Hs.
    destruct (cruising_push_pop k a b (cf_payload f) j Hc) as [-> Hc']. cbn [app]. f_equal.
    rewrite (IH _ _ _ _ Hc' Hl). done.
Qed.

Lemma burst_plays sent s j :
  jitter_ok j -> default_sized j -> on_wire None (map Some sent) s -> Forall (fun f => cf_flags f <> FLAG_BURST_START) (tail sent) ->
  (3 <= length sent)%nat ->
  plays (map Some sent ++ [None; None]) j = [None; None] ++ map as_played sent.
Proof.
  intros Hok Hd Hw Hf Hl. destruct sent as [|f0 l]; [simpl in Hl; lia|]. cbn [map] in Hw.
  inversion Hw as [|p0 ? ? Hw'| | | | |]; subst. cbn [tail] in Hf.
  pose proof (wire_continues 1 l s ltac:(lia) Hw' Hf) as Hc. destruct l as [|f1 [|f2 l]]; [simpl in Hl; lia..|].
  cbn [continues] in Hc. change (1 + 1) with 2 in Hc. change (2 + 1) with 3 in Hc. destruct Hc as (Hs1 & Hf1 & Hs2 & Hf2 & Hc). cbn [map app plays]. unfold buffer_packet.
  rewrite Hf1, Hf2, Hs1, Hs2. cbn [cf_seq cf_payload].
  change (starts_burst (relayed 0 (mkFrame 0 FLAG_BURST_START p0))) with true. cbv iota.
  pose proof (waiting_push 0 ∅ _ p0 (reset_waiting j Hok Hd) ltac:(lia) ltac:(vm_compute; lia)) as H1.
  change (0 + 1) with 1 in H1. change (wrap 32 0) with 0 in H1. change (<[0 := p0]> ∅) with ({[0 := p0]} : gmap Z bytes) in H1.
  pose proof (waiting_push 1 _ _ (cf_payload f1) H1 ltac:(lia) ltac:(vm_compute; lia)) as H2. change (1 + 1) with 2 in H2.
  pose proof (waiting_push 2 _ _ (cf_payload f2) H2 ltac:(lia) ltac:(vm_compute; lia)) as H3. change (2 + 1) with 3 in H3.
  rewrite (waiting_dry _ _ _ H1) by (vm_compute; lia). cbn [fst snd]. rewrite (waiting_dry _ _ _ H2) by (vm_compute; lia). cbn [fst snd].
  destruct (waiting_plays _ _ _ _ H3) as [-> H4]. do 2 f_equal. rewrite (cruising_plays l 3 _ _ _ H4 Hc). done.
Qed.

(** ** A burst, among everything else a listener receives *)

Section Listening.
Context {O : Opus} {HO : HashOrder} {L : HashOrderLaws HO}.

(** What happens between one 20 ms and the next that neither ends [c]'s stream nor feeds it:
    other speakers' packets, anyone's volume, their departures, deafening. *)
Definition bystander (c : ClientId) (op : MixerOp) : bool :=
  match op with
  | MAccept packet => negb (down_sender packet =? c)
  | MRender _ | MClear => false
  | MRemove client => negb (client =? c)
  | _ => true
  end.

(** 20 ms after 20 ms: a frame of [c]'s may arrive, other things happen, and a frame is rendered.
    The result is what [c]'s stream decodes in each. *)
Fixpoint listen (c : ClientId) (out : list f32) (schedule : list (option CapturedFrame * list MixerOp)) (m : VoiceMixer) :
    list (option (list f32)) :=
  match schedule with
  | [] => []
  | (f, others) :: schedule =>
      let m := match f with Some f => (accept (relayed c f) m).2 | None => m end in
      let m := mixer_run others m in
      (streams m !! c ≫= fun s => (play_stream s).1) :: listen c out schedule (render out m).2
  end.

Definition decoded (r : VoiceCodecError + list f32) : option (list f32) := match r with inr pcm => Some pcm | inl _ => None end.

(** A decoder that is handed one payload after another. *)
Fixpoint decode_all (payloads : list bytes) (d : VoiceDecoder) : list (option (list f32)) :=
  match payloads with
  | [] => []
  | payload :: payloads => decoded (voice_decode payload d).1 :: decode_all payloads (voice_decode payload d).2
  end.

(** What a decoder makes of what the buffer plays. *)
Definition decode_output (o : option JitterOutput) (d : VoiceDecoder) : option (list f32) * VoiceDecoder :=
  match o with
  | Some (Frame payload) => (decoded (voice_decode payload d).1, (voice_decode payload d).2)
  | Some Lost => (decoded (conceal d).1, (conceal d).2)
  | None => (None, d)
  end.

Fixpoint decode_outputs (l : list (option JitterOutput)) (d : VoiceDecoder) : list (option (list f32)) :=
  match l with [] => [] | o :: l => (decode_output o d).1 :: decode_outputs l (decode_output o d).2 end.

Lemma decode_outputs_frames sent d : decode_outputs (map as_played sent) d = decode_all (map cf_payload sent) d.
Proof. revert d; induction sent as [|f sent IH]; intros d; [done|]. cbn [map decode_outputs decode_all as_played decode_output fst snd]. by rewrite IH. Qed.

Lemma play_stream_decodes s :
  (play_stream s).1 = (decode_output (pop (jitter s)).1 (sdecoder s)).1 /\
  sdecoder (play_stream s).2 = (decode_output (pop (jitter s)).1 (sdecoder s)).2.
Proof.
  unfold play_stream, decode_output, decoded. destruct (pop (jitter s)) as [[[payload|]|] j]; cbn [fst snd]; [| | done].
  - by destruct (voice_decode payload (sdecoder s)) as [[e|pcm] d].
  - by destruct (conceal (sdecoder s)) as [[e|pcm] d].
Qed.

Definition core (s : SenderStream) : JitterBuffer * Z * VoiceDecoder := (jitter s, idle_frames s, sdecoder s).

Lemma bystander_core c op o : bystander c op = true -> core <$> solo_step c op o = core <$> o.
Proof.
  destruct op; cbn [bystander solo_step]; intros H; try done; bool_props; try (rewrite (proj2 (Z.eqb_neq _ _) H); done);
    by case_match; destruct o.
Qed.

Lemma bystanders_core c others m :
  Forall (fun op => bystander c op = true) others -> core <$> streams (mixer_run others m) !! c = core <$> streams m !! c.
Proof.
  unfold mixer_run. intros H. revert m. induction H as [|op others Hop _ IH]; intros m; cbn [fold_left]; [done|].
  by rewrite IH, mixer_step_solo, bystander_core.
Qed.

Definition buffer_of (o : option SenderStream) : JitterBuffer := match o with Some s => jitter s | None => JitterBuffer_default end.
Definition decoder_of (fresh : VoiceDecoder) (o : option SenderStream) : VoiceDecoder := match o with Some s => sdecoder s | None => fresh end.

Lemma accept_core c f m d :
  new_decoder = inr d ->
  core <$> streams (accept (relayed c f) m).2 !! c = Some (buffer_packet f (buffer_of (streams m !! c)), 0, decoder_of d (streams m !! c)).
Proof.
  intros Hd. change (accept (relayed c f) m).2 with (mixer_step (MAccept (relayed c f)) m). rewrite mixer_step_solo.
  cbn [solo_step relayed down_sender]. rewrite Z.eqb_refl, Hd. by destruct (streams m !! c).
Qed.

(** A stream that has not been idle for long survives a render. *)
Lemma render_core c out m s :
  Z.of_nat (length out) = SAMPLES_PER_FRAME -> streams m !! c = Some s -> 0 <= idle_frames s < IDLE_FRAMES_BEFORE_RELEASE ->
  exists i', core <$> streams (render out m).2 !! c =
      Some ((pop (jitter s)).2, i', (decode_output (pop (jitter s)).1 (sdecoder s)).2) /\ 0 <= i' <= idle_frames s + 1.
Proof.
  intros Hl Hs Hi. rewrite render_streams, Hs by done. cbn [mbind option_bind]. unfold advance, released.
  pose proof (play_stream_jitter s) as Hj. pose proof (proj2 (play_stream_decodes s)) as Hd. unfold IDLE_FRAMES_BEFORE_RELEASE, u32_max in *.
  assert (0 <= idle_frames (play_stream s).2 <= idle_frames s + 1) as Hidle.
  { unfold play_stream, u32_max. repeat case_match; cbn [snd idle_frames]; lia. }
  exists (idle_frames (play_stream s).2). split; [|exact Hidle]. rewrite <- Hj, <- Hd.
  destruct (play_stream s) as [[pcm|] s']; cbn [snd] in *; [done|]. by rewrite (proj2 (Z.ltb_ge 100 (idle_frames s'))) by lia.
Qed.

Lemma tick_core c out (f : option CapturedFrame) others m j i d :
  Z.of_nat (length out) = SAMPLES_PER_FRAME -> Forall (fun op => bystander c op = true) others ->
  let m1 := match f with Some f => (accept (relayed c f) m).2 | None => m end in
  core <$> streams m1 !! c = Some (j, i, d) -> 0 <= i < IDLE_FRAMES_BEFORE_RELEASE ->
  (streams (mixer_run others m1) !! c ≫= fun s => (play_stream s).1) = (decode_output (pop j).1 d).1 /\
  exists i', core <$> streams (render out (mixer_run others m1)).2 !! c =
    Some ((pop j).2, i', (decode_output (pop j).1 d).2) /\ 0 <= i' <= i + 1.
Proof.
  intros Hl Ho m1 Hm Hi. rewrite <- (bystanders_core c others m1 Ho) in Hm.
  destruct (streams (mixer_run others m1) !! c) as [s|] eqn:Hs; [|done]. cbn in Hm. injection Hm as <- <- <-.
  split; [apply play_stream_decodes | by apply render_core].
Qed.

Lemma listen_silent c out (schedule : list (option CapturedFrame * list MixerOp)) m j i d :
  Z.of_nat (length out) = SAMPLES_PER_FRAME -> Forall (fun e => e.1 = None /\ Forall (fun op => bystander c op = true) e.2) schedule ->
  core <$> streams m !! c = Some (j, i, d) -> 0 <= i -> i + Z.of_nat (length schedule) <= IDLE_FRAMES_BEFORE_RELEASE ->
  listen c out schedule m = decode_outputs (plays (map fst schedule) j) d.
Proof.
  intros Hl Hs. revert m j i d. induction Hs as [|[f others] schedule [Hf Ho] _ IH]; intros m j i d Hm Hi Hb; [done|].
  cbn [fst snd] in *. subst f. cbn [listen map plays fst length decode_outputs] in *.
  destruct (tick_core c out None others m j i d Hl Ho Hm ltac:(lia)) as (-> & i' & Hm' & Hi'). f_equal. apply (IH _ _ i'); lia || done.
Qed.

Lemma listen_plays c out frames others tail_others m d :
  new_decoder = inr d -> Z.of_nat (length out) = SAMPLES_PER_FRAME ->
  length others = length frames -> Forall (Forall (fun op => bystander c op = true)) others ->
  Forall (Forall (fun op => bystander c op = true)) tail_others -> (length tail_others <= 99)%nat -> frames <> [] ->
  listen c out (zip (map Some frames) others ++ map (pair None) tail_others) m =
  decode_outputs (plays (map Some frames ++ replicate (length tail_others) None) (buffer_of (streams m !! c))) (decoder_of d (streams m !! c)).
Proof.
  intros Hd Hl Hlen Ho Ht Htl Hne. revert others m Hlen Ho. induction frames as [|f frames IH]; intros others m Hlen Ho; [done|].
  destruct others as [|o others]; [done|]. apply Forall_cons in Ho as [Ho Hos]. simpl in Hlen. injection Hlen as Hlen.
  cbn [map zip zip_with app listen plays decode_outputs]. pose proof (accept_core c f m d Hd) as Ha.
  destruct (tick_core c out (Some f) o m _ 0 _ Hl Ho Ha ltac:(done)) as (-> & i' & Hm' & Hi'). f_equal.
  destruct frames as [|f' frames].
  - destruct others; [|done]. cbn [map zip zip_with app].
    erewrite (listen_silent c out (map (pair None) tail_others)); [ | exact Hl | | exact Hm' | lia | ].
    + do 2 f_equal. clear. induction tail_others; simpl; congruence.
    + apply Forall_map. eapply Forall_impl; [exact Ht|]. done.
    + rewrite length_map. unfold IDLE_FRAMES_BEFORE_RELEASE. lia.
  - rewrite IH; [|done..]. destruct (streams (render out _).2 !! c); [|done]. cbn in Hm'. injection Hm' as Hj _ Hdec.
    cbn [buffer_of decoder_of]. by rewrite Hj, Hdec.
Qed.
End Listening.

(** ** The property *)

Lemma push_sized j seq p : jitter_ok j -> default_sized j -> default_sized (push j seq p).
Proof.
  intros Hok [Ht Hm]. destruct (push_moves j seq p Hok) as (Ht' & Hm' & _). unfold default_sized. cbn [target_frames max_frames set_anchor] in *.
  by rewrite Ht', Hm'.
Qed.

Lemma pop_sized j : jitter_ok j -> default_sized j -> default_sized (pop j).2.
Proof.
  intros Hok Hd. destruct (pop_cases j Hok) as [[-> _] | (n & _ & [(p & _ & ->) | [(_ & _ & _ & ->) | (_ & _ & ->)]])]; exact Hd.
Qed.

Lemma listener_buffer {O : Opus} {HO : HashOrder} {L : HashOrderLaws HO} history c :
  let j := buffer_of (streams (mixer_run history new_mixer) !! c) in jitter_ok j /\ default_sized j.
Proof.
  assert (map_Forall (fun _ s => jitter_ok (jitter s) /\ default_sized (jitter s)) (streams (mixer_run history new_mixer))) as H.
  { apply (mixer_run_buffers (fun j => jitter_ok j /\ default_sized j)).
    - split; [apply new_jitter_ok | done].
    - intros j [Hok Hd]. split; [by apply reset_ok | exact Hd].
    - intros j seq p [Hok Hd]. split; [by apply push_ok | by apply push_sized].
    - intros j [Hok Hd]. split; [by apply pop_ok | by apply pop_sized].
    - apply map_Forall_empty. }
  destruct (streams (mixer_run history new_mixer) !! c) as [s|] eqn:E; [exact (H c s E)|]. split; [apply new_jitter_ok | done].
Qed.

(** C32: A burst is heard as it was spoken: whatever the microphone recorded and however its gate, mute and push-to-talk were used, when the codec refused none of the frames it was given, what was sent is one burst of at least three frames, and each frame reaches a listener within the 20 ms it was sent in, then after the two frames of buffering what the listener's stream plays is what its decoder makes of exactly the payloads that were encoded, each once and in order and none concealed, the last two after the burst has ended; whatever the listener had received from that speaker before, which is the state its decoder starts from, and whatever arrives from others or is turned up, down or muted meanwhile. *)
Theorem a_burst_is_heard_as_it_was_spoken {M : Libm} {O : Opus} {HO : HashOrder} {L : HashOrderLaws HO}
    bitrate mic input history c out others last1 last2 fresh :
  new_capture bitrate = inr mic -> refusals input mic = 0%nat ->
  let sent := (talk input mic).1 in
  (3 <= length sent)%nat -> Forall (fun f => cf_flags f <> FLAG_BURST_START) (tail sent) ->
  new_decoder = inr fresh -> Z.of_nat (length out) = SAMPLES_PER_FRAME ->
  length others = length sent -> Forall (Forall (fun op => bystander c op = true)) (others ++ [last1; last2]) ->
  let before := mixer_run history new_mixer in
  listen c out (zip (map Some sent) others ++ [(None, last1); (None, last2)]) before =
  [None; None] ++ decode_all (map cf_payload sent) (decoder_of fresh (streams before !! c)).
Proof.
  intros Hc Hn sent Hlen Hone Hd Hl Ho Hb before. apply Forall_app in Hb as [Hb1 Hb2].
  destruct (listener_buffer history c) as [Hok Hsz]. destruct (new_capture_in_step bitrate mic Hc) as [Hstep Hstate].
  pose proof (talk_on_wire input mic Hstep) as Hw. unfold sent in *. destruct (talk input mic) as [l mic'].
  cbn [fst] in *. destruct Hw as (Hw & Hsent & Hr). rewrite Hstate in Hw. rewrite Hn in Hr.
  rewrite (nothing_refused _ Hr), <- Hsent in Hw. change [(None, last1); (None, last2)] with (map (pair (@None CapturedFrame)) [last1; last2]).
  rewrite (listen_plays c out l others [last1; last2] before fresh Hd Hl Ho Hb1 Hb2); [|simpl; lia | by intros ->; simpl in Hlen; lia].
  unfold before. cbn [length replicate]. rewrite (burst_plays l _ _ Hok Hsz Hw Hone Hlen). cbn [app decode_outputs decode_output fst snd]. by rewrite decode_outputs_frames.
Qed.

(** ** A concrete conversation *)

Module Sample_voice_path.
Import Sample_microphone Sample_gate Toy_codec MapOrder.

(** Push-to-talk, muted before the key is let go. *)
Definition spoken : list (CaptureControls * list f32) :=
  let held := controls_set_held true (new_controls PushToTalk) in
  [(held, steady quarter); (held, steady quarter); (held, steady quarter); (controls_set_muted true held, steady quarter)].

(** The listener had heard the speaker before; someone else talks and the speaker is turned down. *)
Definition earlier : list MixerOp := [MAccept (mkDown 7 5 FLAG_BURST_START [1]); MAccept (mkDown 7 9 0 [1])].
Definition meanwhile : list (list MixerOp) :=
  [[MAccept (mkDown 8 0 FLAG_BURST_START [50])]; [MGain 7 quarter]; [MAccept (mkDown 8 2 0 [50]); MRemove 8]; [MDeafened true]].

Definition level (n : Z) : list f32 := replicate frame_len (f32_div (f32_of n) (f32_of levels)).

Lemma a_burst_is_heard_as_it_was_spoken_witness :
  listen 7 (steady quarter)
    (zip (map Some (talk spoken microphone).1) meanwhile ++ [(None, []); (None, [MMuted 7 true])]) (mixer_run earlier new_mixer) =
  [None; None; Some (level 25); Some (level 25); Some (level 25); Some (level 25)].
Proof.
  assert ((talk spoken microphone).1 =
    [mkFrame 0 FLAG_BURST_START [25]; mkFrame 1 0 [25]; mkFrame 2 0 [25]; mkFrame 3 FLAG_BURST_END [25]]) as Hsent by (vm_compute; reflexivity).
  destruct new_decoder as [e|fresh] eqn:Hd; [discriminate Hd|].
  pose proof (a_burst_is_heard_as_it_was_spoken 32000 microphone spoken earlier 7 (steady quarter) meanwhile [] [MMuted 7 true] fresh) as H.
  cbv zeta in H. rewrite Hsent in *. rewrite H.
  - injection Hd as <-. vm_compute. reflexivity.
  - reflexivity.
  - vm_compute. reflexivity.
  - simpl. lia.
  - repeat constructor; discriminate.
  - exact Hd.
  - reflexivity.
  - reflexivity.
  - repeat constructor.
Defined.
(** ** A start the codec refuses

    The same burst three times, with a codec that answers the first frame of the second one with
    an error: the second burst goes out numbered from 0 without a start flag, the listener takes
    its frames for late ones of the first, and none of it is heard. *)

Module Refused_start.

Definition codec : Opus := {|
  OpusEncoder := nat;
  OpusDecoder := Z;
  opus_encoder_new _ _ := inr 0%nat;
  opus_encode _ e pcm _ buffer :=
    match e, buffer with
    | 4%nat, _ => (inl (lit "internal error"), buffer, S e)
    | _, [] => (inr 0%nat, [], S e)
    | _, _ :: rest => (inr 1%nat, level_byte pcm :: rest, S e)
    end;
  opus_decoder_new _ _ := inr 0;
  opus_decode d packet _ buffer :=
    let n := match packet with b :: _ => b | [] => d end in (inr (length buffer), level_frame n buffer, n) |}.
#[local] Existing Instance codec | 0.

Definition capture : Capture :=
  mkCapture [] VoiceGate_default
    (mkEncoder (O := codec) 0%nat (mkOpus 32000 USE_INBAND_FEC ASSUMED_PACKET_LOSS_PERCENT) (replicate MAX_OPUS_PACKET 0) 0) false.

Definition sent : list CapturedFrame := (talk (spoken ++ spoken ++ spoken) capture).1.

Lemma a_refused_start_silences_the_burst :
  new_capture 32000 = inr capture /\ refusals (spoken ++ spoken ++ spoken) capture = 1%nat /\
  map (fun f => (cf_seq f, cf_flags f)) sent =
    [(0, FLAG_BURST_START); (1, 0); (2, 0); (3, FLAG_BURST_END); (0, 0); (1, 0); (2, FLAG_BURST_END);
     (0, FLAG_BURST_START); (1, 0); (2, 0); (3, FLAG_BURST_END)] /\
  map (fun heard => match heard with Some _ => true | None => false end)
    (listen 7 (steady quarter) (map (fun f => (Some f, [])) sent ++ [(None, []); (None, [])]) new_mixer) =
    [false; false; true; true; true; true; false; false; false; true; true; true; true].
Proof. split; [reflexivity|]. split; [vm_compute; reflexivity|]. split; vm_compute; reflexivity. Qed.

End Refused_start.
End Sample_voice_path.
