(* ===== verification/Frame.v ===== *)
(** * Control framing ([crates/pickle-proto/src/codec.rs])

    Length-prefixed frames over a byte stream.  The encoding of one message is the postcard
    crate's and is a parameter; a reader is the bytes still to come and how the stream ends,
    a writer the bytes that went out and how many more it will take. *)

From S2P Require Export Prelude.

(** The serializer, and what the framing relies on: it reads back what it wrote. *)
Class Postcard (T : Type) : Type := {
  to_stdvec : T -> option bytes;
  from_bytes : bytes -> option T }.

Class PostcardLaws (T : Type) (PC : Postcard T) : Prop := {
  from_to x bs : to_stdvec x = Some bs -> from_bytes bs = Some x;
  to_bytes x bs : to_stdvec x = Some bs -> Forall is_byte bs }.

Inductive IoError : Type := UnexpectedEof | OtherIo (code : Z).

Inductive CodecError : Type :=
| CIo (e : IoError)
| CEncode
| CDecode
| CFrameTooLarge (len max : Z)
| CClosed.

Definition is_clean_close (e : CodecError) : bool := match e with CClosed => true | _ => false end.

Definition MAX_FRAME_LEN : Z := Z.shiftl 1 20.
Definition LEN_PREFIX_LEN : nat := 4.

(** A stream that delivers its bytes and then ends ([None]) or breaks. *)
Record Reader : Type := mkReader { rd_bytes : bytes; rd_end : option IoError }.

(** [AsyncReadExt::read_exact]: all of it, or the error; what was there is consumed either way. *)
Definition read_exact (n : nat) (r : Reader) : (IoError + bytes) * Reader :=
  if (length (rd_bytes r) <? n)%nat
  then (inl (default UnexpectedEof (rd_end r)), mkReader [] (rd_end r))
  else (inr (take n (rd_bytes r)), mkReader (drop n (rd_bytes r)) (rd_end r)).

(** A sink that takes [wr_room] more bytes, when there is such a limit. *)
Record Writer : Type := mkWriter { wr_out : bytes; wr_room : option nat }.

Definition write_all (bs : bytes) (w : Writer) : (IoError + unit) * Writer :=
  match wr_room w with
  | Some room =>
      if (room <? length bs)%nat
      then (inl (OtherIo 0), mkWriter (wr_out w ++ take room bs) (Some 0%nat))
      else (inr tt, mkWriter (wr_out w ++ bs) (Some (room - length bs)%nat))
  | None => (inr tt, mkWriter (wr_out w ++ bs) None)
  end.

Section Codec.
Context {T : Type} {PC : Postcard T}.

Definition write_frame (w : Writer) (message : T) : (CodecError + unit) * Writer :=
  match to_stdvec message with
  | None => (inl CEncode, w)
  | Some payload =>
      if MAX_FRAME_LEN <? Z.of_nat (length payload)
      then (inl (CFrameTooLarge (wrap 32 (Z.of_nat (length payload))) MAX_FRAME_LEN), w)
      else match write_all (le_bytes 4 (wrap 32 (Z.of_nat (length payload))) ++ payload) w with
           | (inl e, w) => (inl (CIo e), w)
           | (inr _, w) => (inr tt, w)
           end
  end.

Definition read_frame (r : Reader) : (CodecError + T) * Reader :=
  match read_exact LEN_PREFIX_LEN r with
  | (inl UnexpectedEof, r) => (inl CClosed, r)
  | (inl e, r) => (inl (CIo e), r)
  | (inr len_bytes, r) =>
      let len := of_le len_bytes in
      if MAX_FRAME_LEN <? len then (inl (CFrameTooLarge len MAX_FRAME_LEN), r)
      else match read_exact (Z.to_nat len) r with
           | (inl e, r) => (inl (CIo e), r)
           | (inr payload, r) =>
               match from_bytes payload with
               | Some message => (inr message, r)
               | None => (inl CDecode, r)
               end
           end
  end.

(** ** One frame *)

(** A message that [write_frame] puts on the wire, and its bytes. *)
Definition frame_of (message : T) (frame : bytes) : Prop :=
  exists payload, to_stdvec message = Some payload /\ Z.of_nat (length payload) <= MAX_FRAME_LEN /\
    frame = le_bytes 4 (Z.of_nat (length payload)) ++ payload.

Lemma frame_len_fits n : n <= MAX_FRAME_LEN -> 0 <= n -> wrap 32 n = n /\ 0 <= n < 256 ^ Z.of_nat 4.
Proof.
  unfold MAX_FRAME_LEN. change (Z.shiftl 1 20) with (2 ^ 20). change (256 ^ Z.of_nat 4) with (2 ^ 32).
  intros. split; [apply wrap_id; unfold fits|]; lia.
Qed.

Lemma write_frame_spec w message :
  match write_frame w message with
  | (inr _, w') => exists frame, frame_of message frame /\ wr_out w' = wr_out w ++ frame
  | (inl (CIo _), w') => exists frame part, frame_of message frame /\ wr_out w' = wr_out w ++ part /\
      (length part < length frame)%nat /\ part `prefix_of` frame
  | (inl CEncode, w') => to_stdvec message = None /\ w' = w
  | (inl (CFrameTooLarge len max), w') => w' = w /\ max = MAX_FRAME_LEN /\
      exists payload, to_stdvec message = Some payload /\ len = wrap 32 (Z.of_nat (length payload)) /\ max < Z.of_nat (length payload)
  | (inl _, _) => False
  end.
Proof.
  unfold write_frame. destruct (to_stdvec message) as [payload|] eqn:E; [|done].
  destruct (Z.ltb_spec MAX_FRAME_LEN (Z.of_nat (length payload))); [eauto 8|].
  destruct (frame_len_fits (Z.of_nat (length payload))) as [-> Hl]; [done | lia |].
  assert (Hf : frame_of message (le_bytes 4 (Z.of_nat (length payload)) ++ payload)) by (exists payload; auto).
  unfold write_all. destruct (wr_room w) as [room|]; [|eauto].
  destruct (Nat.ltb_spec room (length (le_bytes 4 (Z.of_nat (length payload)) ++ payload))); [|eauto].
  do 2 eexists. split_and!; [exact Hf | reflexivity | rewrite length_take; lia | apply prefix_take].
Qed.

Context {L : PostcardLaws T PC}.

Lemma read_frame_written message frame rest e :
  frame_of message frame -> read_frame (mkReader (frame ++ rest) e) = (inr message, mkReader rest e).
Proof.
  intros (payload & Hp & Hmax & ->). destruct (frame_len_fits (Z.of_nat (length payload))) as [_ Hl]; [done | lia |].
  unfold read_frame, read_exact. cbn [rd_bytes rd_end]. rewrite !length_app, length_le_bytes.
  destruct (Nat.ltb_spec (4 + length payload + length rest) LEN_PREFIX_LEN) as [Hc|_]; [unfold LEN_PREFIX_LEN in Hc; lia|].
  rewrite <- app_assoc, take_app_length' by (by rewrite length_le_bytes). rewrite drop_app_length' by (by rewrite length_le_bytes).
  rewrite of_le_bytes by done. destruct (Z.ltb_spec MAX_FRAME_LEN (Z.of_nat (length payload))); [lia|].
  cbn [rd_bytes rd_end]. rewrite Nat2Z.id, length_app.
  destruct (Nat.ltb_spec (length payload + length rest) (length payload)); [lia|].
  rewrite take_app_length, drop_app_length. by rewrite (from_to _ _ Hp).
Qed.

(** ** A conversation *)

(** Write messages in order, stopping at the first that fails. *)
Fixpoint write_frames (w : Writer) (messages : list T) : (CodecError + unit) * Writer :=
  match messages with
  | [] => (inr tt, w)
  | m :: rest =>
      match write_frame w m with
      | (inr _, w) => write_frames w rest
      | (inl e, w) => (inl e, w)
      end
  end.

(** Read until the stream gives no more, as the loops over [read_frame] do; [fuel] bounds the
    number of frames. *)
Fixpoint read_frames (fuel : nat) (r : Reader) : list T * CodecError * Reader :=
  match fuel with
  | O => ([], CClosed, r)
  | S fuel =>
      match read_frame r with
      | (inr m, r) => let '(ms, e, r) := read_frames fuel r in (m :: ms, e, r)
      | (inl e, r) => ([], e, r)
      end
  end.

Lemma write_frames_written w messages w' :
  write_frames w messages = (inr tt, w') ->
  exists frames, Forall2 frame_of messages frames /\ wr_out w' = wr_out w ++ concat frames.
Proof.
  revert w; induction messages as [|m messages IH]; intros w; cbn [write_frames].
  - intros [= <-]. exists []. split; [constructor | by rewrite app_nil_r].
  - pose proof (write_frame_spec w m) as Hs. destruct (write_frame w m) as [[e | u] w1]; [done|].
    destruct Hs as (frame & Hf & Ho). intros (frames & Hfs & Ho')%IH. exists (frame :: frames).
    split; [by constructor|]. rewrite Ho', Ho. simpl. by rewrite app_assoc.
Qed.

Lemma read_frames_written messages frames tail fin fuel :
  Forall2 frame_of messages frames -> (length messages < fuel)%nat ->
  (length tail < LEN_PREFIX_LEN)%nat ->
  read_frames fuel (mkReader (concat frames ++ tail) fin)
  = (messages, match default UnexpectedEof fin with UnexpectedEof => CClosed | e => CIo e end, mkReader [] fin).
Proof.
  intros Hf. revert fuel; induction Hf as [|m frame messages frames Hm _ IH]; intros [|fuel] Hfuel Ht; simpl in Hfuel; try lia.
  - cbn [concat read_frames]. unfold read_frame, read_exact. cbn [rd_bytes rd_end]. rewrite app_nil_l.
    destruct (Nat.ltb_spec (length tail) LEN_PREFIX_LEN); [|lia]. by destruct fin as [[]|].
  - cbn [read_frames concat]. rewrite <- app_assoc, (read_frame_written m) by done. rewrite IH by (done || lia). done.
Qed.

(** What one side writes the other reads: messages written in order arrive in order and
    nothing else does, and the stream then ends as closed.  Nothing of a message that could not
    be written reaches the reader as a message either: when a write fails part way, the reader
    gets the messages before it and then an error or the end. *)
Theorem conversation_roundtrip w messages :
  wr_out w = [] ->
  (forall w', write_frames w messages = (inr tt, w') ->
     read_frames (S (length messages)) (mkReader (wr_out w') None) = (messages, CClosed, mkReader [] None)) /\
  (forall m w' w'' e, write_frames w messages = (inr tt, w') -> write_frame w' m = (inl e, w'') ->
     exists e' r, read_frames (S (length messages)) (mkReader (wr_out w'') None) = (messages, e', r)).
Proof.
  intros Hw. split.
  - intros w' (frames & Hf & Ho)%write_frames_written. rewrite Ho, Hw, app_nil_l.
    pose proof (read_frames_written messages frames [] None (S (length messages)) Hf ltac:(lia) ltac:(unfold LEN_PREFIX_LEN; simpl; lia)) as E.
    by rewrite app_nil_r in E.
  - intros m w' w'' e (frames & Hf & Ho)%write_frames_written Hm. rewrite Hw, app_nil_l in Ho.
    assert (Hpart : exists part, wr_out w'' = concat frames ++ part /\
      exists e' r, read_frame (mkReader part None) = (inl e', r)).
    { pose proof (write_frame_spec w' m) as Hs. rewrite Hm in Hs.
      assert (Hend : exists e' r, read_frame (mkReader [] None) = (inl e', r)) by (do 2 eexists; reflexivity).
      destruct e; try done.
      - destruct Hs as (frame & part & (payload & Hp & Hmax & ->) & Hout & Hlt & Hpre). exists part. rewrite Hout, Ho.
        split; [done|]. unfold read_frame, read_exact. cbn [rd_bytes rd_end].
        destruct (Nat.ltb_spec (length part) LEN_PREFIX_LEN); [do 2 eexists; reflexivity|].
        assert (Htake : take LEN_PREFIX_LEN part = le_bytes 4 (Z.of_nat (length payload))).
        { destruct Hpre as [more Hmore]. apply (f_equal (take LEN_PREFIX_LEN)) in Hmore.
          rewrite take_app_length' in Hmore by (by rewrite length_le_bytes). rewrite take_app_le in Hmore by lia. done. }
        destruct (frame_len_fits (Z.of_nat (length payload))) as [_ Hl]; [done | lia |].
        rewrite Htake, of_le_bytes by done. destruct (Z.ltb_spec MAX_FRAME_LEN (Z.of_nat (length payload))); [lia|].
        cbn [rd_bytes rd_end]. rewrite Nat2Z.id, length_drop. rewrite length_app, length_le_bytes in Hlt.
        destruct (Nat.ltb_spec (length part - LEN_PREFIX_LEN) (length payload)); [do 2 eexists; reflexivity|].
        unfold LEN_PREFIX_LEN in *. lia.
      - destruct Hs as [_ ->]. exists []. by rewrite Ho, app_nil_r.
      - destruct Hs as [-> _]. exists []. by rewrite Ho, app_nil_r. }
    destruct Hpart as (part & -> & e' & r & He). exists e', r. clear -Hf He L.
    induction Hf as [|m' frame messages frames Hm' _ IH]; cbn [read_frames concat length].
    + rewrite app_nil_l, He. done.
    + rewrite <- app_assoc, (read_frame_written m') by done. change (read_frames (S (length messages)) (mkReader (concat frames ++ part) None)) with
        (read_frames (S (length messages)) (mkReader (concat frames ++ part) None)) in IH. cbn [read_frames] in IH.
      rewrite IH. done.
Qed.

End Codec.

(** A hostile peer cannot make the reader reserve more than a frame: whatever arrives,
    [read_frame] asks for at most MAX_FRAME_LEN payload bytes; a longer prefix is refused when
    nothing but its four bytes has been read, and every refusal says what happened. *)
Theorem read_frame_spec {T} {PC : Postcard T} r :
  Forall is_byte (rd_bytes r) ->
  let '(result, r') := read_frame r in
  rd_end r' = rd_end r /\ rd_bytes r' `suffix_of` rd_bytes r /\
  (Z.of_nat (length (rd_bytes r)) - Z.of_nat (length (rd_bytes r')) <= 4 + MAX_FRAME_LEN) /\
  match result with
  | inr message => exists len payload, len <= MAX_FRAME_LEN /\ len = Z.of_nat (length payload) /\
      rd_bytes r = le_bytes 4 len ++ payload ++ rd_bytes r' /\ from_bytes payload = Some message
  | inl (CFrameTooLarge len max) => max = MAX_FRAME_LEN /\ max < len /\ rd_bytes r = le_bytes 4 len ++ rd_bytes r'
  | inl CClosed => (length (rd_bytes r) < 4)%nat /\ default UnexpectedEof (rd_end r) = UnexpectedEof
  | inl (CIo e) => rd_bytes r' = [] /\ e = default UnexpectedEof (rd_end r)
  | inl CDecode => exists len payload, len <= MAX_FRAME_LEN /\ len = Z.of_nat (length payload) /\
      rd_bytes r = le_bytes 4 len ++ payload ++ rd_bytes r' /\ from_bytes payload = None
  | inl CEncode => False
  end.
Proof.
  intros Hb. unfold read_frame, read_exact. destruct (Nat.ltb_spec (length (rd_bytes r)) LEN_PREFIX_LEN) as [Hs|Hs].
  { unfold LEN_PREFIX_LEN in Hs. assert (Hm : 0 <= MAX_FRAME_LEN) by (vm_compute; done).
    destruct (default UnexpectedEof (rd_end r)) eqn:E; simpl; split_and!; try done; try lia; apply suffix_nil. }
  unfold LEN_PREFIX_LEN in *. set (pre := take 4 (rd_bytes r)). set (rest := drop 4 (rd_bytes r)).
  assert (Hsplit : rd_bytes r = pre ++ rest) by (unfold pre, rest; by rewrite take_drop).
  assert (Hpre : length pre = 4%nat) by (unfold pre; rewrite length_take; lia).
  assert (Hprebytes : Forall is_byte pre) by (unfold pre; by apply Forall_take).
  assert (Hle : le_bytes 4 (of_le pre) = pre) by (rewrite <- Hpre; by apply le_bytes_of_le).
  assert (Hm : 0 <= MAX_FRAME_LEN) by (vm_compute; done).
  pose proof (of_le_range pre Hprebytes) as [Hnn _].
  assert (Hlen : Z.of_nat (length (rd_bytes r)) = 4 + Z.of_nat (length rest)) by (rewrite Hsplit, length_app; lia).
  destruct (Z.ltb_spec MAX_FRAME_LEN (of_le pre)) as [Hbig|Hok]; cbn [rd_bytes rd_end].
  { split_and!; try done; [rewrite Hsplit; by apply suffix_app_r | lia | by rewrite Hle]. }
  destruct (Nat.ltb_spec (length rest) (Z.to_nat (of_le pre))) as [Hshort|Hfull]; cbn [rd_bytes rd_end].
  { split_and!; try done; [apply suffix_nil | simpl; lia]. }
  set (payload := take (Z.to_nat (of_le pre)) rest). set (rest' := drop (Z.to_nat (of_le pre)) rest).
  assert (Hrest : rest = payload ++ rest') by (unfold payload, rest'; by rewrite take_drop).
  assert (Hpl : Z.of_nat (length payload) = of_le pre) by (unfold payload; rewrite length_take; lia).
  assert (Hsuf : rest' `suffix_of` rd_bytes r) by (rewrite Hsplit, Hrest, app_assoc; by apply suffix_app_r).
  assert (Hcount : Z.of_nat (length (rd_bytes r)) - Z.of_nat (length rest') <= 4 + MAX_FRAME_LEN)
    by (rewrite Hlen, Hrest, length_app; lia).
  assert (Hwhole : rd_bytes r = le_bytes 4 (of_le pre) ++ payload ++ rest') by (by rewrite Hle, Hsplit, Hrest).
  destruct (from_bytes payload) as [m|] eqn:E; cbn [rd_bytes rd_end]; split_and!; try done; eauto 8.
Qed.

(** A codec for bytes, to evaluate the framing with. *)
Module RawBytes.
#[export] Instance codec : Postcard bytes := {|
  to_stdvec x := if forallb (fun b => (0 <=? b) && (b <? 256)) x then Some x else None;
  from_bytes x := Some x |}.

#[export] Instance codec_laws : PostcardLaws bytes codec.
Proof.
  split; unfold to_stdvec, from_bytes; simpl; intros x bs; destruct (forallb _ x) eqn:E; intros [= <-]; [done|].
  apply Forall_forall. intros b Hb. rewrite forallb_forall in E. specialize (E b ltac:(by apply list_elem_of_In)).
  bool_props. split; lia.
Qed.

Lemma conversation_roundtrip_witness :
  read_frames 3 (mkReader (wr_out (write_frames (mkWriter [] None) [[1; 2]; [3]]).2) None)
  = ([[1; 2]; [3]], CClosed, mkReader [] None).
Proof.
  destruct (conversation_roundtrip (mkWriter [] None) [[1; 2]; [3]] eq_refl) as [H _].
  exact (H _ eq_refl).
Defined.

Lemma read_frame_spec_witness :
  (read_frame (T := bytes) (mkReader [255; 255; 255; 255; 7] None)).1 = inl (CFrameTooLarge u32_max MAX_FRAME_LEN) /\
  rd_bytes (read_frame (T := bytes) (mkReader [255; 255; 255; 255; 7] None)).2 `suffix_of` [255; 255; 255; 255; 7].
Proof.
  split; [reflexivity|].
  pose proof (read_frame_spec (T := bytes) (mkReader [255; 255; 255; 255; 7] None)) as H.
  destruct (read_frame _) as [result r']. apply H. repeat constructor; lia.
Defined.

(** A stream cut off inside a length prefix is reported like one that ended between frames. *)
Lemma a_cut_prefix_looks_clean :
  is_clean_close (match (read_frame (T := bytes) (mkReader [5; 0] None)).1 with inl e => e | inr _ => CDecode end) = true.
Proof. reflexivity. Qed.
End RawBytes.

(** ** The bytes of a signature ([SignatureBytes] in [crates/pickle-proto/src/lib.rs])

    Written as one byte string; read from a byte string, or from a sequence whose elements may
    fail one by one, depending on the format.  [SequenceError] is such an element's error. *)

Definition SIGNATURE_LEN : nat := 64.

Inductive SignatureError : Type := InvalidLength (len : nat) | SequenceError (code : Z).

Definition signature_serialize (signature : bytes) : bytes := signature.

Definition signature_visit_bytes (v : bytes) : SignatureError + bytes :=
  if (length v =? SIGNATURE_LEN)%nat then inr v else inl (InvalidLength (length v)).

(** The loop over the slots from the [i]th on; what follows the last slot is left unread. *)
Fixpoint visit_slots (slots i : nat) (seq : list (Z + Z)) : SignatureError + bytes :=
  match slots with
  | O => inr []
  | S slots =>
      match seq with
      | [] => inl (InvalidLength i)
      | inl code :: _ => inl (SequenceError code)
      | inr b :: rest => match visit_slots slots (S i) rest with inl e => inl e | inr out => inr (b :: out) end
      end
  end.

Definition signature_visit_seq (seq : list (Z + Z)) : SignatureError + bytes := visit_slots SIGNATURE_LEN 0 seq.

Lemma visit_slots_reads slots i (bs : bytes) rest :
  length bs = slots -> visit_slots slots i (map inr bs ++ rest) = inr bs.
Proof. revert slots i; induction bs as [|b bs IH]; intros [|slots] i; cbn; try done. intros [= H]. by rewrite IH. Qed.

Lemma visit_slots_short slots i (bs : bytes) :
  (length bs < slots)%nat -> visit_slots slots i (map inr bs) = inl (InvalidLength (i + length bs)).
Proof.
  revert slots i; induction bs as [|b bs IH]; intros [|slots] i; cbn; try lia; intros H; [by rewrite Nat.add_0_r|].
  rewrite IH by lia. f_equal. f_equal. lia.
Qed.

(** Both ways of reading give back the signature that was written; and both refuse one that was
    cut short, naming the length it was cut to. *)
Theorem a_signature_reads_back signature n :
  length signature = SIGNATURE_LEN -> (n < SIGNATURE_LEN)%nat ->
  signature_visit_bytes (signature_serialize signature) = inr signature /\
  signature_visit_seq (map inr (signature_serialize signature)) = inr signature /\
  signature_visit_bytes (take n signature) = inl (InvalidLength n) /\
  signature_visit_seq (map inr (take n signature)) = inl (InvalidLength n).
Proof.
  intros Hl Hn. unfold signature_visit_bytes, signature_visit_seq, signature_serialize. rewrite Hl, Nat.eqb_refl.
  assert (Ht : length (take n signature) = n) by (rewrite length_take; lia). rewrite Ht. split_and!; [done | | |].
  - rewrite <- (app_nil_r (map inr signature)). by apply visit_slots_reads.
  - by rewrite (proj2 (Nat.eqb_neq _ _)) by lia.
  - rewrite visit_slots_short by lia. by rewrite Ht.
Qed.
