(* ===== verification/Disk.v ===== *)
(** * Files that survive crashes

    The standard library's file operations the stores use, over a disk that may fail any of
    them and may lose power at any moment.  File contents are bytes; a file that was written
    and not synced may hold anything after a crash; directory changes reach the disk in order
    but late, so that a crash may bring back any earlier directory.  Each operation is one
    step of a [prog] over the disk; [always] reads a program as its successive states. *)

From S2P Require Export Prog RustStr.

Definition Path : Type := list rstring.

Inductive IoErr : Type := NotFound | InvalidData | OtherErr.

Record Inode : Type := mkInode { in_data : bytes; in_synced : bool; in_mode : Z }.

(** [past] lists the directory's earlier states; [faults] says which of the next operations
    fail, and after how many bytes when it is a write. *)
Record Disk : Type := mkDisk {
  inodes : gmap Z Inode;
  next_inode : Z;
  dir : gmap Path Z;
  past : list (gmap Path Z);
  disk_faults : list (option nat) }.

Definition set_inode (i : Z) (n : Inode) (d : Disk) : Disk :=
  mkDisk (<[i := n]> (inodes d)) (next_inode d) (dir d) (past d) (disk_faults d).
Definition set_dir (x : gmap Path Z) (d : Disk) : Disk :=
  mkDisk (inodes d) (next_inode d) x (dir d :: past d) (disk_faults d).
Definition set_disk_faults (x : list (option nat)) (d : Disk) : Disk :=
  mkDisk (inodes d) (next_inode d) (dir d) (past d) x.

(** The next operation's fate, and the disk that remembers it was used up. *)
Definition fate (d : Disk) : option nat * Disk :=
  (default None (head (disk_faults d)), set_disk_faults (tail (disk_faults d)) d).

Definition file_at (d : Disk) (p : Path) : option Inode := dir d !! p ≫= fun i => inodes d !! i.

(** Well-formed UTF-8, which [read_to_string] insists on. *)
Definition cont (b : Z) : bool := (128 <=? b) && (b <=? 191).

Fixpoint utf8_valid (bs : bytes) : bool :=
  match bs with
  | [] => true
  | b :: rest =>
      if (0 <=? b) && (b <? 128) then utf8_valid rest
      else if (194 <=? b) && (b <=? 223) then
        match rest with c :: rest => cont c && utf8_valid rest | _ => false end
      else if (224 <=? b) && (b <=? 239) then
        match rest with
        | c :: e :: rest =>
            (if b =? 224 then (160 <=? c) && (c <=? 191) else if b =? 237 then (128 <=? c) && (c <=? 159) else cont c)
            && cont e && utf8_valid rest
        | _ => false
        end
      else if (240 <=? b) && (b <=? 244) then
        match rest with
        | c :: e :: g :: rest =>
            (if b =? 240 then (144 <=? c) && (c <=? 191) else if b =? 244 then (128 <=? c) && (c <=? 143) else cont c)
            && cont e && cont g && utf8_valid rest
        | _ => false
        end
      else false
  end.

(** ** The operations *)

Definition io (A : Type) : Type := Disk -> (IoErr + A) * Disk.

(** An operation that fails as a whole when it is fated to. *)
Definition fallible {A} (f : Disk -> (IoErr + A) * Disk) : io A := fun d =>
  match fate d with
  | (Some _, d) => (inl OtherErr, d)
  | (None, d) => f d
  end.

Definition read_to_string (p : Path) : io bytes := fallible (fun d =>
  match file_at d p with
  | None => (inl NotFound, d)
  | Some n => (if utf8_valid (in_data n) then inr (in_data n) else inl InvalidData, d)
  end).

(** [fs::metadata(path)?.permissions().mode()] *)
Definition metadata_mode (p : Path) : io Z := fallible (fun d =>
  match file_at d p with None => (inl NotFound, d) | Some n => (inr (in_mode n), d) end).

(** Directories are not modelled: making them succeeds or fails. *)
Definition create_dir_all (p : Path) : io unit := fallible (fun d => (inr tt, d)).

(** [OpenOptions::write.create.truncate]: the mode only applies to a file that is made here. *)
Definition open_truncated (mode : Z) (p : Path) : io Z := fallible (fun d =>
  match dir d !! p with
  | Some i =>
      match inodes d !! i with
      | Some n => (inr i, set_inode i (mkInode [] false (in_mode n)) d)
      | None => (inl OtherErr, d)
      end
  | None =>
      let i := next_inode d in
      (inr i, mkDisk (<[i := mkInode [] false mode]> (inodes d)) (i + 1) (<[p := i]> (dir d)) (dir d :: past d) (disk_faults d))
  end).

(** [keystore::create_private]: mode 0600. *)
Definition create_private (p : Path) : io Z := open_truncated 384 p.
(** [fs::File::create], [fs::write]: mode 0666 less the umask, 022. *)
Definition create_file (p : Path) : io Z := open_truncated 420 p.

Definition append (h : Z) (bs : bytes) (d : Disk) : Disk :=
  match inodes d !! h with
  | Some n => set_inode h (mkInode (in_data n ++ bs) false (in_mode n)) d
  | None => d
  end.

Definition write_all (h : Z) (bs : bytes) : io unit := fun d =>
  match fate d with
  | (Some n, d) => (inl OtherErr, append h (take n bs) d)
  | (None, d) => (inr tt, append h bs d)
  end.

Definition sync_all (h : Z) : io unit := fallible (fun d =>
  (inr tt, match inodes d !! h with Some n => set_inode h (mkInode (in_data n) true (in_mode n)) d | None => d end)).

Definition rename (from to : Path) : io unit := fallible (fun d =>
  match dir d !! from with
  | None => (inl NotFound, d)
  | Some i => (inr tt, set_dir (<[to := i]> (delete from (dir d))) d)
  end).

Definition remove_file (p : Path) : io unit := fallible (fun d =>
  match dir d !! p with None => (inl NotFound, d) | Some _ => (inr tt, set_dir (delete p (dir d)) d) end).

(** [Path::exists] *)
Definition path_exists (p : Path) (d : Disk) : bool := match file_at d p with Some _ => true | None => false end.

(** ** Paths *)

Definition parent (p : Path) : option Path := match p with [] => None | _ => Some (take (length p - 1) p) end.

(** The index of a file name's last dot, when it is not the first character. *)
Fixpoint last_dot (i : nat) (s : rstring) : option nat :=
  match s with
  | [] => None
  | c :: rest =>
      match last_dot (S i) rest with
      | Some j => Some j
      | None => if (c =? 46) && (0 <? i)%nat then Some i else None
      end
  end.

Definition file_stem (name : rstring) : rstring :=
  match last_dot 0 name with Some i => take i name | None => name end.

(** [Path::with_extension] *)
Definition with_extension (ext : rstring) (p : Path) : Path :=
  match last p with
  | None => p
  | Some name => take (length p - 1) p ++ [file_stem name ++ [46] ++ ext]
  end.

(** ** Fallible programs *)

Definition fprog (E A : Type) : Type := prog Disk (E + A).

Definition ok {E A} (a : A) : fprog E A := Ret (inr a).
Definition fail {E A} (e : E) : fprog E A := Ret (inl e).

(** [op.map_err(f)?] *)
Definition attempt {E A} (f : IoErr -> E) (op : io A) : fprog E A :=
  bind (call op) (fun r => match r with inl e => fail (f e) | inr a => ok a end).

Definition try_bind {E A B} (p : fprog E A) (k : A -> fprog E B) : fprog E B :=
  bind p (fun r => match r with inl e => fail e | inr a => k a end).

Notation "x <-? p ;; k" := (try_bind p (fun x => k))
  (at level 100, p at next level, right associativity) : prog_scope.

(** ** Crashes *)

(** What the disk may look like after a crash: some directory that was, and every file that
    was synced since its last write as it was. *)
Definition crashed (d d' : Disk) : Prop :=
  dir d' ∈ dir d :: past d /\
  forall i n, inodes d !! i = Some n -> exists n', inodes d' !! i = Some n' /\ in_mode n' = in_mode n /\
    (in_synced n = true -> in_data n' = in_data n).

(** Whatever happens, the file at [p] holds a content of [G]. *)
Definition durable (p : Path) (G : bytes -> Prop) (d : Disk) : Prop :=
  forall d' n, crashed d d' \/ d' = d -> file_at d' p = Some n -> G (in_data n).

(** [always J Q p d]: run from [d], every state the program goes through satisfies [J], and it
    ends in a result and a state satisfying [Q]. *)
Fixpoint always {A} (J : Disk -> Prop) (Q : A -> Disk -> Prop) (p : prog Disk A) (d : Disk) : Prop :=
  match p with
  | Ret a => J d /\ Q a d
  | Act f k => J d /\ always J Q (k (f d).1) (f d).2
  | Hang => False
  end.

(** ** Reading programs as their states *)

Section Always.
Context {J : Disk -> Prop}.

Lemma always_bind {A B} (R : A -> Disk -> Prop) (Q : B -> Disk -> Prop) p k d :
  always J R p d -> (forall a d', R a d' -> J d' -> always J Q (k a) d') -> always J Q (bind p k) d.
Proof.
  revert d; induction p as [a | X f g IH |]; intros d; simpl; [intros [HJ0 HR0] HK; auto | | done].
  intros [HJ Hp] H. split; [done|]. by apply IH.
Qed.

Lemma always_weaken {A} (J' : Disk -> Prop) (R Q : A -> Disk -> Prop) p d :
  always J R p d -> (forall d, J d -> J' d) -> (forall a d, J d -> R a d -> Q a d) -> always J' Q p d.
Proof.
  intros Hp HJ HQ. revert d Hp; induction p as [a | X f g IH |]; intros d; simpl; [intros []; auto | | done].
  intros [Hd Hp]. split; auto.
Qed.

(** The program comes to an end. *)
Lemma always_ends {A} (Q : A -> Disk -> Prop) p d : always J Q p d -> ends (fun a d' => J d' /\ Q a d') p d.
Proof.
  unfold ends. revert d; induction p as [a | X f g IH |]; intros d; simpl; [done | | done].
  intros [_ H]. destruct (f d) as [x d']. by apply IH.
Qed.

Lemma always_try {E A B} (R : E + A -> Disk -> Prop) (Q : E + B -> Disk -> Prop) p k d :
  always J R p d ->
  (forall e d', R (inl e) d' -> J d' -> Q (inl e) d') ->
  (forall a d', R (inr a) d' -> J d' -> always J Q (k a) d') ->
  always J Q (try_bind p k) d.
Proof.
  intros Hp He Hk. eapply always_bind; [exact Hp|]. intros [e | a] d' HR HJ; [split; auto | by apply Hk].
Qed.

Lemma always_attempt {E A} (Q : E + A -> Disk -> Prop) f (op : io A) d :
  J d ->
  (forall e d', op d = (inl e, d') -> J d' /\ Q (inl (f e)) d') ->
  (forall a d', op d = (inr a, d') -> J d' /\ Q (inr a) d') ->
  always J Q (attempt f op) d.
Proof.
  intros HJ He Ha. simpl. split; [done|]. destruct (op d) as [[e | a] d'] eqn:Eo; simpl; [by apply He | by apply Ha].
Qed.

Lemma always_step {E A B} (Q : E + B -> Disk -> Prop) f (op : io A) k d :
  J d ->
  (forall e d', op d = (inl e, d') -> J d' /\ Q (inl (f e)) d') ->
  (forall a d', op d = (inr a, d') -> always J Q (k a) d') ->
  always J Q (try_bind (attempt f op) k) d.
Proof.
  intros HJ He Ha. simpl. split; [done|]. destruct (op d) as [[e | a] d'] eqn:Eo; simpl; [by apply He | by apply Ha].
Qed.

Lemma always_ok {E A} (Q : E + A -> Disk -> Prop) a d : J d -> Q (inr a) d -> always J Q (ok a) d.
Proof. done. Qed.

Lemma always_fail {E A} (Q : E + A -> Disk -> Prop) e d : J d -> Q (inl e) d -> always J Q (fail e) d.
Proof. done. Qed.

End Always.

(** ** The published file *)

(** Every directory the disk may come back with shows at [p] a synced file with a content of
    [G]; no file has two names, and none but [p] leads to a file that was ever shown at [p]. *)
Record guarded (p : Path) (G : bytes -> Prop) (d : Disk) : Prop := {
  gd_good : forall snap i, snap ∈ dir d :: past d -> snap !! p = Some i ->
    exists n, inodes d !! i = Some n /\ in_synced n = true /\ G (in_data n);
  gd_fresh : forall snap q i, snap ∈ dir d :: past d -> snap !! q = Some i -> i < next_inode d;
  gd_inj : forall q q' i, dir d !! q = Some i -> dir d !! q' = Some i -> q = q';
  gd_own : forall snap q i, snap ∈ past d -> snap !! p = Some i -> dir d !! q = Some i -> q = p }.

Lemma guarded_durable p G d : guarded p G d -> durable p G d.
Proof.
  intros [Hg _ _ _] d' n Hc Hn. unfold file_at in Hn. destruct (dir d' !! p) as [i|] eqn:Hi; [|done]. simpl in Hn.
  destruct Hc as [[Hd Hin] | ->].
  - destruct (Hg _ _ Hd Hi) as (m & Hm & Hs & HG). destruct (Hin i m Hm) as (m' & Hm' & _ & Heq).
    rewrite Hm' in Hn. injection Hn as <-. by rewrite Heq.
  - destruct (Hg (dir d) i ltac:(left) Hi) as (m & Hm & _ & HG). rewrite Hm in Hn. by injection Hn as <-.
Qed.

Lemma guarded_weaken p (G G' : bytes -> Prop) d : guarded p G d -> (forall c, G c -> G' c) -> guarded p G' d.
Proof.
  intros [Hg ? ? ?] HG. split; try done. intros snap i Hs Hi. destruct (Hg snap i Hs Hi) as (n & ? & ? & ?). eauto.
Qed.

(** A file being written, at [tmp], out of the published one's way. *)
Definition writing (p tmp : Path) (h : Z) (data : bytes) (synced : bool) (d : Disk) : Prop :=
  dir d !! tmp = Some h /\ (exists mode, inodes d !! h = Some (mkInode data synced mode)) /\
  forall snap, snap ∈ dir d :: past d -> snap !! p <> Some h.

(** [d'] differs from [d] only in what is to come. *)
Definition same_files (d d' : Disk) : Prop :=
  inodes d' = inodes d /\ next_inode d' = next_inode d /\ dir d' = dir d /\ past d' = past d.

Lemma same_files_refl d : same_files d d.
Proof. done. Qed.

Lemma guarded_same p G d d' : same_files d d' -> guarded p G d -> guarded p G d'.
Proof. intros (Ei & En & Ed & Ep) [? ? ? ?]. by split; rewrite ?Ei, ?En, ?Ed, ?Ep. Qed.

Lemma writing_same p tmp h data synced d d' : same_files d d' -> writing p tmp h data synced d -> writing p tmp h data synced d'.
Proof. intros (Ei & En & Ed & Ep) H. unfold writing. by rewrite Ei, Ed, Ep. Qed.

Lemma file_at_same d d' p : same_files d d' -> file_at d' p = file_at d p.
Proof. intros (Ei & _ & Ed & _). unfold file_at. by rewrite Ei, Ed. Qed.

Lemma same_files_trans d1 d2 d3 : same_files d1 d2 -> same_files d2 d3 -> same_files d1 d3.
Proof. intros (F1 & F2 & F3 & F4) (E1 & E2 & E3 & E4). split_and!; congruence. Qed.

(** A property of disks that speaks of their files alone. *)
Definition files_only (J : Disk -> Prop) : Prop := forall d d', same_files d d' -> J d -> J d'.

Lemma guarded_files_only p G : files_only (guarded p G).
Proof. intros d d'. apply guarded_same. Qed.

Lemma fate_same d : same_files d (fate d).2.
Proof. done. Qed.

Lemma fallible_inv {A} (f : io A) d r d' :
  fallible f d = (r, d') -> (r = inl OtherErr /\ same_files d d') \/ (exists d1, same_files d d1 /\ f d1 = (r, d')).
Proof.
  unfold fallible, fate. destruct (default None (head (disk_faults d))); intros H.
  - left. by injection H as <- <-.
  - right. by exists (set_disk_faults (tail (disk_faults d)) d).
Qed.

Lemma read_to_string_inv p d r d' :
  read_to_string p d = (r, d') -> same_files d d' /\
  match r with
  | inr bs => exists n, file_at d p = Some n /\ in_data n = bs /\ utf8_valid bs = true
  | inl NotFound => file_at d p = None
  | inl _ => True
  end.
Proof.
  intros [[-> H] | (d1 & Hs & H)]%fallible_inv; [done|]. rewrite (file_at_same _ _ _ Hs) in H.
  destruct (file_at d p) as [n|]; [|by injection H as <- <-].
  destruct (utf8_valid (in_data n)) eqn:E; injection H as <- <-; split; eauto.
Qed.

Lemma metadata_inv p d r d' : metadata_mode p d = (r, d') -> same_files d d' /\
  match r with inr m => exists n, file_at d p = Some n /\ in_mode n = m | inl NotFound => file_at d p = None | inl _ => True end.
Proof.
  intros [[-> H] | (d1 & Hs & H)]%fallible_inv; [done|]. rewrite (file_at_same _ _ _ Hs) in H.
  destruct (file_at d p) as [n|]; injection H as <- <-; eauto.
Qed.

Lemma create_dir_inv p d r d' : create_dir_all p d = (r, d') -> same_files d d'.
Proof. intros [[-> H] | (d1 & Hs & H)]%fallible_inv; [done|]. by injection H as <- <-. Qed.

(** Opening the temporary file does not touch the published one. *)
Lemma open_guarded mode p tmp G d r d' :
  guarded p G d -> tmp <> p -> open_truncated mode tmp d = (r, d') ->
  guarded p G d' /\ file_at d' p = file_at d p /\ match r with inr h => writing p tmp h [] false d' | inl _ => True end.
Proof.
  intros Hg Hne [[-> H] | (d1 & Hs & H)]%fallible_inv.
  { split_and!; [by eapply guarded_same | by apply file_at_same | done]. }
  pose proof (guarded_same _ _ _ _ Hs Hg) as Hg1. rewrite <- (file_at_same _ _ p Hs). clear Hg Hs d. rename d1 into d.
  pose proof Hg1 as [Hgood Hfresh Hinj Hown]. destruct (dir d !! tmp) as [i|] eqn:Hi.
  - destruct (inodes d !! i) as [n|] eqn:Hn; injection H as <- <-; [|done].
    assert (Hun : forall snap, snap ∈ dir d :: past d -> snap !! p <> Some i).
    { intros snap [-> | Hs]%elem_of_cons Hp; apply Hne; [by eapply Hinj | by eapply Hown]. }
    split_and!.
    + split; try done. intros snap j Hs Hj. destruct (Hgood snap j Hs Hj) as (m & Hm & ? & ?). exists m. split_and!; try done.
      cbn. rewrite lookup_insert_ne; [done|]. intros ->. by eapply Hun.
    + unfold file_at. cbn. destruct (dir d !! p) as [j|] eqn:Hj; [|done]. simpl. rewrite lookup_insert_ne; [done|].
      intros ->. by apply (Hun (dir d)); [left|].
    + split_and!; [done | eexists; cbn; apply lookup_insert_eq | exact Hun].
  - injection H as <- <-. cbn.
    assert (Hold : forall snap q j, snap ∈ dir d :: past d -> snap !! q = Some j -> j <> next_inode d)
      by (intros snap q j Hs Hj; specialize (Hfresh snap q j Hs Hj); lia).
    split_and!.
    + split; cbn.
      * intros snap j [-> | Hs]%elem_of_cons Hj.
        -- rewrite lookup_insert_ne in Hj by done. destruct (Hgood (dir d) j ltac:(left) Hj) as (m & Hm & ? & ?).
           exists m. rewrite lookup_insert_ne; [done|]. apply not_eq_sym, (Hold (dir d) p j); [left | done].
        -- destruct (Hgood snap j Hs Hj) as (m & Hm & ? & ?). exists m. rewrite lookup_insert_ne; [done|].
           by apply not_eq_sym, (Hold snap p j).
      * intros snap q j [-> | Hs]%elem_of_cons Hj.
        -- apply lookup_insert_Some in Hj as [[_ <-] | [_ Hj]]; [lia|]. specialize (Hfresh (dir d) q j ltac:(left) Hj). lia.
        -- specialize (Hfresh snap q j Hs Hj). lia.
      * intros q q' j Hq Hq'. apply lookup_insert_Some in Hq as [[<- <-] | [_ Hq]], Hq' as [[<- E] | [_ Hq']]; try done.
        -- exfalso. by apply (Hold (dir d) q' (next_inode d)); [left | |].
        -- exfalso. subst j. by apply (Hold (dir d) q (next_inode d)); [left | |].
        -- by eapply Hinj.
      * intros snap q j Hs Hj Hq. apply lookup_insert_Some in Hq as [[<- <-] | [_ Hq]].
        -- exfalso. by apply (Hold snap p (next_inode d)).
        -- apply elem_of_cons in Hs as [-> | Hs]; [by eapply Hinj | by eapply Hown].
    + unfold file_at. cbn. rewrite lookup_insert_ne by done. destruct (dir d !! p) as [j|] eqn:Hj; [|done]. simpl.
      rewrite lookup_insert_ne; [done|]. apply not_eq_sym, (Hold (dir d) p j); [left | done].
    + unfold writing. cbn. split_and!; [apply lookup_insert_eq | eexists; apply lookup_insert_eq |].
      intros snap [-> | Hs]%elem_of_cons Hp.
      * rewrite lookup_insert_ne in Hp by done. by apply (Hold (dir d) p (next_inode d)); [left | |].
      * by apply (Hold snap p (next_inode d)).
Qed.

(** Nor does filling it. *)
Lemma set_writing_guarded p tmp G h data synced data' synced' mode d :
  guarded p G d -> writing p tmp h data synced d ->
  let d' := set_inode h (mkInode data' synced' mode) d in
  guarded p G d' /\ file_at d' p = file_at d p /\ writing p tmp h data' synced' d'.
Proof.
  intros [Hgood ? ? ?] (Hd & (m & Hm) & Hun) d'. split_and!.
  - split; try done. intros snap i Hs Hi. destruct (Hgood snap i Hs Hi) as (n & Hn & ? & ?). exists n. split_and!; try done.
    cbn. rewrite lookup_insert_ne; [done|]. intros ->. by eapply Hun.
  - unfold file_at, d'. cbn. destruct (dir d !! p) as [j|] eqn:Hj; [|done]. simpl. rewrite lookup_insert_ne; [done|].
    intros ->. by apply (Hun (dir d)); [left|].
  - split_and!; [done | eexists; apply lookup_insert_eq | done].
Qed.

Lemma write_guarded p tmp G h data synced bs d r d' :
  guarded p G d -> writing p tmp h data synced d -> write_all h bs d = (r, d') ->
  guarded p G d' /\ file_at d' p = file_at d p /\ match r with inr _ => writing p tmp h (data ++ bs) false d' | inl _ => True end.
Proof.
  intros Hg Hw H. unfold write_all in H. destruct (fate d) as [fault d1] eqn:Ef.
  assert (Hs : same_files d d1) by (pose proof (fate_same d) as Hf; by rewrite Ef in Hf).
  pose proof (guarded_same _ _ _ _ Hs Hg) as Hg1. pose proof (writing_same _ _ _ _ _ _ _ Hs Hw) as Hw1.
  rewrite <- (file_at_same _ _ p Hs). pose proof Hw1 as (_ & (m & Hm) & _).
  assert (Happ : forall part, let d2 := append h part d1 in
    guarded p G d2 /\ file_at d2 p = file_at d1 p /\ writing p tmp h (data ++ part) false d2).
  { intros part. unfold append. rewrite Hm. cbn. by eapply set_writing_guarded. }
  destruct fault as [n|]; injection H as <- <-; [destruct (Happ (take n bs)) | destruct (Happ bs)]; tauto.
Qed.

Lemma sync_guarded p tmp G h data synced d r d' :
  guarded p G d -> writing p tmp h data synced d -> sync_all h d = (r, d') ->
  guarded p G d' /\ file_at d' p = file_at d p /\ match r with inr _ => writing p tmp h data true d' | inl _ => True end.
Proof.
  intros Hg Hw [[-> Hs] | (d1 & Hs & H)]%fallible_inv.
  { split_and!; [by eapply guarded_same | by apply file_at_same | done]. }
  pose proof (guarded_same _ _ _ _ Hs Hg) as Hg1. pose proof (writing_same _ _ _ _ _ _ _ Hs Hw) as Hw1.
  rewrite <- (file_at_same _ _ p Hs). pose proof Hw1 as (_ & (m & Hm) & _). rewrite Hm in H. injection H as <- <-. cbn.
  by eapply set_writing_guarded.
Qed.

(** Renaming a synced file over the published one. *)
Lemma rename_guarded p tmp G h data d r d' :
  guarded p G d -> writing p tmp h data true d -> tmp <> p -> G data -> rename tmp p d = (r, d') ->
  guarded p G d' /\
  match r with
  | inr _ => exists mode, file_at d' p = Some (mkInode data true mode)
  | inl _ => file_at d' p = file_at d p
  end.
Proof.
  intros Hg Hw Hne HG [[-> Hs] | (d1 & Hs & H)]%fallible_inv.
  { split; [by eapply guarded_same | by apply file_at_same]. }
  pose proof (guarded_same _ _ _ _ Hs Hg) as Hg1. pose proof (writing_same _ _ _ _ _ _ _ Hs Hw) as (Hd & (m & Hm) & Hun).
  rewrite <- (file_at_same _ _ p Hs). clear Hg Hw Hs d. rename d1 into d. rewrite Hd in H. injection H as <- <-. destruct Hg1 as [Hgood Hfresh Hinj Hown].
  assert (Hlook : forall q j, (<[p := h]> (delete tmp (dir d)) : gmap Path Z) !! q = Some j ->
            (q = p /\ j = h) \/ (q <> p /\ q <> tmp /\ dir d !! q = Some j)).
  { intros q j [[<- <-] | [Hq Hj]]%lookup_insert_Some; [by left|]. apply lookup_delete_Some in Hj as [? ?]. right. auto. }
  split.
  - split; cbn.
    + intros snap i [-> | Hs]%elem_of_cons Hi; [|by eapply Hgood].
      apply Hlook in Hi as [[_ ->] | (? & _ & _)]; [|done]. exists (mkInode data true m). auto.
    + intros snap q i [-> | Hs]%elem_of_cons Hi; [|by eapply Hfresh].
      apply Hlook in Hi as [[_ ->] | (_ & _ & Hi)]; eapply (Hfresh (dir d)); [left | exact Hd | left | exact Hi].
    + intros q q' i Hq Hq'. apply Hlook in Hq as [[-> ->] | (? & ? & Hq)], Hq' as [[-> E] | (? & ? & Hq')]; try done.
      * exfalso. assert (q' = tmp) by (by eapply Hinj). done.
      * subst i. exfalso. assert (q = tmp) by (by eapply Hinj). done.
      * by eapply Hinj.
    + intros snap q i Hs Hi Hq. apply Hlook in Hq as [[-> _] | (? & ? & Hq)]; [done|]. exfalso.
      apply elem_of_cons in Hs as [-> | Hs]; [by assert (q = p) by (by eapply Hinj) | by assert (q = p) by (by eapply Hown)].
  - exists m. unfold file_at. cbn. rewrite lookup_insert_eq. exact Hm.
Qed.

Lemma remove_guarded p q G d r d' :
  guarded p G d -> q <> p -> remove_file q d = (r, d') -> guarded p G d' /\ file_at d' p = file_at d p.
Proof.
  intros Hg Hne [[-> Hs] | (d1 & Hs & H)]%fallible_inv.
  { split; [by eapply guarded_same | by apply file_at_same]. }
  pose proof (guarded_same _ _ _ _ Hs Hg) as [Hgood Hfresh Hinj Hown]. rewrite <- (file_at_same _ _ p Hs).
  destruct (dir d1 !! q) as [i|] eqn:Hi; injection H as <- <-; [|split; [by eapply guarded_same | done]].
  split; [split; cbn|].
  - intros snap j [-> | Hsn]%elem_of_cons Hj; [|by eapply Hgood]. apply lookup_delete_Some in Hj as [_ Hj]. by eapply (Hgood (dir d1)); [left|].
  - intros snap q' j [-> | Hsn]%elem_of_cons Hj; [|by eapply Hfresh]. apply lookup_delete_Some in Hj as [_ Hj]. by eapply (Hfresh (dir d1)); [left|].
  - intros q1 q2 j H1 H2. apply lookup_delete_Some in H1 as [_ H1], H2 as [_ H2]. by eapply Hinj.
  - intros snap q' j Hsn Hj Hq'. apply lookup_delete_Some in Hq' as [_ Hq'].
    apply elem_of_cons in Hsn as [-> | Hsn]; [by eapply Hinj | by eapply Hown].
  - unfold file_at. cbn. by rewrite lookup_delete_ne by done.
Qed.

(** ** Replacing a file by way of a temporary one *)

(** [if let Some(parent) = path.parent() { if !parent.is_empty() { create_dir_all(parent)?; } }] *)
Definition ensure_parent {E} (f : IoErr -> E) (path : Path) : fprog E unit :=
  match parent path with
  | Some dir => if is_empty dir then ok tt else attempt f (create_dir_all dir)
  | None => ok tt
  end.

Lemma ensure_parent_files {E} (f : IoErr -> E) (J : Disk -> Prop) path d :
  files_only J -> J d -> always J (fun _ d' => same_files d d') (ensure_parent f path) d.
Proof.
  intros Hf HJ. unfold ensure_parent. destruct (parent path) as [dir|]; [destruct (is_empty dir)|]; try done.
  apply always_attempt; [done | |]; intros r d' H%create_dir_inv; (split; [by eapply Hf | done]).
Qed.

Lemma ensure_parent_always {E} (f : IoErr -> E) p G path d :
  guarded p G d ->
  always (guarded p G) (fun _ d' => file_at d' p = file_at d p /\ same_files d d') (ensure_parent f path) d.
Proof.
  intros Hg. eapply always_weaken; [by apply ensure_parent_files; [apply guarded_files_only|] | done |].
  intros r d' _ Hs. split; [by apply file_at_same | done].
Qed.

(** [fs::write]: the file is opened, emptied and written in place. *)
Definition fs_write {E} (f : IoErr -> E) (p : Path) (bs : bytes) : fprog E unit :=
  (h <-? attempt f (create_file p);; attempt f (write_all h bs))%prog.

(** Nothing, or a beginning of [bs]. *)
Definition begun (p : Path) (bs : bytes) (d : Disk) : Prop :=
  file_at d p = None \/ exists k n, file_at d p = Some n /\ in_data n = take k bs.

Lemma begun_files_only p bs : files_only (begun p bs).
Proof. intros d d' Hs. unfold begun. by rewrite (file_at_same _ _ p Hs). Qed.

Lemma file_at_appended h bs p d n :
  dir d !! p = Some h -> inodes d !! h = Some n ->
  file_at (append h bs d) p = Some (mkInode (in_data n ++ bs) false (in_mode n)).
Proof. intros Hp Hn. unfold append. rewrite Hn. unfold file_at. cbn. rewrite Hp. cbn. by rewrite lookup_insert_eq. Qed.

(** An emptied file. *)
Definition emptied (p : Path) (h : Z) (d : Disk) : Prop :=
  dir d !! p = Some h /\ exists mode, inodes d !! h = Some (mkInode [] false mode).

Lemma open_empties mode p d r d' :
  open_truncated mode p d = (r, d') ->
  match r with inr h => emptied p h d' | inl _ => same_files d d' end.
Proof.
  intros [[-> Hs] | (d1 & Hs & H)]%fallible_inv; [done|].
  destruct (dir d1 !! p) as [i|] eqn:Hi; [destruct (inodes d1 !! i) as [n|] eqn:Hn|]; injection H as <- <-; try done;
    (split; [cbn; by rewrite ?lookup_insert_eq | eexists; cbn; by rewrite lookup_insert_eq]).
Qed.

(** The file that was is there until it is emptied, and what was asked for when the write went
    well; in between it is some beginning of it. *)
Lemma fs_write_always {E} (f : IoErr -> E) p bs d :
  always (fun d' => file_at d' p = file_at d p \/ begun p bs d') (fun r d' => match r with
    | inr _ => exists n, file_at d' p = Some n /\ in_data n = bs
    | inl _ => True
    end) (fs_write f p bs) d.
Proof.
  unfold fs_write. apply always_step; [by left | |].
  - intros e d' H%open_empties. split; [left; by apply file_at_same | done].
  - intros h d' H%open_empties. destruct H as (Hp & mode & Hh).
    assert (H0 : begun p bs d').
    { right. exists 0%nat. eexists. split; [unfold file_at; rewrite Hp; exact Hh | done]. }
    apply always_attempt; [by right | |]; intros r d2 H; unfold write_all in H; destruct (fate d') as [fault d3] eqn:Ef;
      assert (E3 : d3 = (fate d').2) by (by rewrite Ef); subst d3; destruct fault as [k|]; simplify_eq;
      (split; [right; right | try done]).
    + exists k. eexists. split; [by apply file_at_appended with (n := mkInode [] false mode) | done].
    + exists (length bs). eexists. split; [by apply file_at_appended with (n := mkInode [] false mode)|]. cbn. by rewrite take_ge by lia.
    + eexists. split; [by apply file_at_appended with (n := mkInode [] false mode) | done].
Qed.

Lemma fs_write_new {E} (f : IoErr -> E) p bs d :
  dir d !! p = None ->
  always (begun p bs) (fun r d' => match r with
    | inr _ => exists n, file_at d' p = Some n /\ in_data n = bs
    | inl _ => True
    end) (fs_write f p bs) d.
Proof.
  intros Hp. eapply always_weaken; [apply fs_write_always | | done].
  intros d' [H | H]; [left | done]. rewrite H. unfold file_at. by rewrite Hp.
Qed.

(** The open file a writer ends with: complete, synced, and not yet published. *)
Definition staged {E} (p tmp : Path) (data : bytes) (old : option Inode) (r : E + Z) (d : Disk) : Prop :=
  file_at d p = old /\ match r with inr h => writing p tmp h data true d | inl _ => True end.

(** [create; write; write; sync], as the savers do it. *)
Definition write_twice {E} (f : IoErr -> E) (mode : Z) (tmp : Path) (a b : bytes) : fprog E Z :=
  (h <-? attempt f (open_truncated mode tmp);;
   _ <-? attempt f (write_all h a);;
   _ <-? attempt f (write_all h b);;
   _ <-? attempt f (sync_all h);;
   ok h)%prog.

Lemma write_twice_always {E} (f : IoErr -> E) mode p tmp G a b d :
  guarded p G d -> tmp <> p ->
  always (guarded p G) (staged p tmp (a ++ b) (file_at d p)) (write_twice f mode tmp a b) d.
Proof.
  intros Hg Hne. unfold write_twice, staged. apply always_step; [done | |].
  { intros e d1 H. eapply open_guarded in H as (H1 & H2 & _); eauto. }
  intros h d1 H. eapply open_guarded in H as (Hg1 & Hf1 & Hw1); eauto. apply always_step; [done | |].
  { intros e d2 H. eapply write_guarded in H as (H1 & H2 & _); eauto. split; [done | split; congruence || done]. }
  intros [] d2 H. eapply write_guarded in H as (Hg2 & Hf2 & Hw2); eauto. apply always_step; [done | |].
  { intros e d3 H. eapply write_guarded in H as (H1 & H2 & _); eauto. split; [done | split; congruence || done]. }
  intros [] d3 H. eapply write_guarded in H as (Hg3 & Hf3 & Hw3); eauto. apply always_step; [done | |].
  { intros e d4 H. eapply sync_guarded in H as (H1 & H2 & _); eauto. split; [done | split; congruence || done]. }
  intros [] d4 H. eapply sync_guarded in H as (Hg4 & Hf4 & Hw4); eauto. apply always_ok; [done|].
  rewrite app_nil_l in Hw4. split; [congruence | done].
Qed.

(** The whole replacement: [p] goes from what it held to the new content in one step, whatever
    fails and whenever the power goes. *)
Lemma replace_always {E} (f : IoErr -> E) mode p tmp (G : bytes -> Prop) a b d :
  guarded p G d -> tmp <> p ->
  always (guarded p (fun c => G c \/ c = a ++ b))
    (fun r d' => match r with
       | inr _ => exists m, file_at d' p = Some (mkInode (a ++ b) true m)
       | inl _ => file_at d' p = file_at d p
       end)
    (_ <-? ensure_parent f p;; _ <-? write_twice f mode tmp a b;; attempt f (rename tmp p))%prog d.
Proof.
  intros Hg Hne. set (G' := fun c => G c \/ c = a ++ b).
  assert (Hg' : guarded p G' d) by (eapply guarded_weaken; [exact Hg | unfold G'; auto]).
  eapply always_try; [by apply ensure_parent_always | by intros e d' [? _] _ |].
  intros [] d1 [Hf1 _] Hg1. eapply always_try; [by apply write_twice_always | |].
  { intros e d2 [Hf2 _] _. congruence. }
  intros h d2 [Hf2 Hw2] Hg2. apply always_attempt; [done | |].
  - intros e d3 H. eapply rename_guarded in H as (H1 & H2); [| exact Hg2 | exact Hw2 | done | unfold G'; auto].
    split; [done | congruence].
  - intros [] d3 H. eapply rename_guarded in H as (H1 & H2); [| exact Hg2 | exact Hw2 | done | unfold G'; auto]. by split.
Qed.

(** A disk on which nothing has happened yet guards any set its file belongs to. *)
Definition settled (d : Disk) : Prop :=
  past d = [] /\ (forall q i, dir d !! q = Some i -> i < next_inode d) /\
  (forall q q' i, dir d !! q = Some i -> dir d !! q' = Some i -> q = q') /\
  (forall q i, dir d !! q = Some i -> exists n, inodes d !! i = Some n /\ in_synced n = true).

Lemma settled_guarded p (G : bytes -> Prop) d :
  settled d -> (forall n, file_at d p = Some n -> G (in_data n)) -> guarded p G d.
Proof.
  intros (Hp & Hf & Hi & Hs) HG. split; rewrite ?Hp.
  - intros snap i ->%list_elem_of_singleton Hd. destruct (Hs p i Hd) as (n & Hn & ?). exists n. split_and!; try done.
    apply HG. unfold file_at. by rewrite Hd.
  - intros snap q i ->%list_elem_of_singleton. apply Hf.
  - exact Hi.
  - by intros snap q i ?%not_elem_of_nil.
Qed.

(** Well-formed UTF-8 stays so when ASCII follows. *)
Lemma utf8_valid_app a b : utf8_valid a = true -> utf8_valid b = true -> utf8_valid (a ++ b) = true.
Proof.
  intros Ha Hb. remember (length a) as n eqn:Hn. assert (Hle : (length a <= n)%nat) by lia. clear Hn.
  revert a Ha Hle; induction n as [|n IH]; intros [|x a] Ha Hle; try done; simpl in Hle; [lia|].
  cbn [app utf8_valid] in *. destruct ((0 <=? x) && (x <? 128)); [apply IH; [done | lia]|].
  destruct ((194 <=? x) && (x <=? 223)).
  { destruct a as [|c a]; [done|]. simpl in *. apply andb_true_iff in Ha as [-> Ha]. apply IH; [done | lia]. }
  destruct ((224 <=? x) && (x <=? 239)).
  { destruct a as [|c [|e a]]; try done. simpl in *. apply andb_true_iff in Ha as [-> Ha]. apply IH; [done | lia]. }
  destruct ((240 <=? x) && (x <=? 244)); [|done].
  destruct a as [|c [|e [|g a]]]; try done. simpl in *. apply andb_true_iff in Ha as [-> Ha]. apply IH; [done | lia].
Qed.

(** ** Files beside the ones an operation touches *)

Definition present (p : Path) (d : Disk) : Prop :=
  forall snap, snap ∈ dir d :: past d -> is_Some (snap !! p).

Lemma present_same p d d' : same_files d d' -> present p d -> present p d'.
Proof. intros (_ & _ & Ed & Ep) H. unfold present. by rewrite Ed, Ep. Qed.

Lemma present_files_only p : files_only (present p).
Proof. intros d d'. apply present_same. Qed.

Lemma present_open p mode q d r d' : open_truncated mode q d = (r, d') -> present p d -> present p d'.
Proof.
  intros [[-> H] | (d1 & Hs & H)]%fallible_inv Hp; [by eapply present_same|]. apply (present_same _ _ _ Hs) in Hp.
  destruct (dir d1 !! q) as [i|]; [destruct (inodes d1 !! i)|]; injection H as <- <-; try done.
  intros snap [-> | Hsn]%elem_of_cons; [|by apply Hp]. cbn. apply lookup_insert_is_Some.
  destruct (decide (q = p)); [by left | right; split; [done | apply Hp; left]].
Qed.

Lemma present_write p h bs d r d' : write_all h bs d = (r, d') -> present p d -> present p d'.
Proof.
  unfold write_all, append. intros H Hp. destruct (fate d) as [fault d1] eqn:Ef.
  assert (Hs : same_files d d1) by (pose proof (fate_same d) as Hf; by rewrite Ef in Hf).
  apply (present_same _ _ _ Hs) in Hp. destruct fault; injection H as <- <-; by destruct (inodes d1 !! h).
Qed.

Lemma present_sync p h d r d' : sync_all h d = (r, d') -> present p d -> present p d'.
Proof.
  intros [[-> H] | (d1 & Hs & H)]%fallible_inv Hp; [by eapply present_same|]. apply (present_same _ _ _ Hs) in Hp.
  injection H as <- <-. by destruct (inodes d1 !! h).
Qed.

Lemma present_rename p from to d r d' : rename from to d = (r, d') -> from <> p -> present p d -> present p d'.
Proof.
  intros [[-> H] | (d1 & Hs & H)]%fallible_inv Hne Hp; [by eapply present_same|]. apply (present_same _ _ _ Hs) in Hp.
  destruct (dir d1 !! from) as [i|]; injection H as <- <-; [|done].
  intros snap [-> | Hsn]%elem_of_cons; [|by apply Hp]. cbn. apply lookup_insert_is_Some.
  destruct (decide (to = p)); [by left | right; split; [done|]]. rewrite lookup_delete_ne by done. apply Hp. left.
Qed.

(** A rename between two other names. *)
Lemma rename_aside p G from to d r d' :
  guarded p G d -> from <> p -> to <> p -> rename from to d = (r, d') -> guarded p G d' /\ file_at d' p = file_at d p.
Proof.
  intros Hg Hf Ht [[-> Hs] | (d1 & Hs & H)]%fallible_inv.
  { split; [by eapply guarded_same | by apply file_at_same]. }
  pose proof (guarded_same _ _ _ _ Hs Hg) as [Hgood Hfresh Hinj Hown]. rewrite <- (file_at_same _ _ p Hs).
  destruct (dir d1 !! from) as [i|] eqn:Hi; injection H as <- <-; [|split; [by eapply guarded_same | done]].
  assert (Hlook : forall q j, (<[to := i]> (delete from (dir d1)) : gmap Path Z) !! q = Some j ->
            (q = to /\ j = i) \/ (q <> to /\ q <> from /\ dir d1 !! q = Some j)).
  { intros q j [[<- <-] | [Hq Hj]]%lookup_insert_Some; [by left|]. apply lookup_delete_Some in Hj as [? ?]. right. auto. }
  split.
  - split; cbn.
    + intros snap j [-> | Hsn]%elem_of_cons Hj; [|by eapply Hgood].
      apply Hlook in Hj as [[? _] | (_ & _ & Hj)]; [done|]. by eapply (Hgood (dir d1)); [left|].
    + intros snap q j [-> | Hsn]%elem_of_cons Hj; [|by eapply Hfresh].
      apply Hlook in Hj as [[_ ->] | (_ & _ & Hj)]; eapply (Hfresh (dir d1)); [left | exact Hi | left | exact Hj].
    + intros q q' j Hq Hq'. apply Hlook in Hq as [[-> ->] | (? & ? & Hq)], Hq' as [[-> E] | (? & ? & Hq')]; try done.
      * exfalso. by assert (q' = from) by (by eapply Hinj).
      * subst j. exfalso. by assert (q = from) by (by eapply Hinj).
      * by eapply Hinj.
    + intros snap q j Hsn Hj Hq. apply Hlook in Hq as [[-> ->] | (? & ? & Hq)].
      * exfalso. apply Hf. apply elem_of_cons in Hsn as [-> | Hsn]; [by eapply Hinj | by eapply Hown].
      * apply elem_of_cons in Hsn as [-> | Hsn]; [by eapply Hinj | by eapply Hown].
  - unfold file_at. cbn. rewrite lookup_insert_ne, lookup_delete_ne by done. done.
Qed.

(** A file nothing is done to: it has its name in every directory that may come back. *)
Definition kept (p : Path) (G : bytes -> Prop) (d : Disk) : Prop := guarded p G d /\ present p d.

Lemma kept_files_only p G : files_only (kept p G).
Proof. intros d d' Hs [? ?]. split; [by eapply guarded_same | by eapply present_same]. Qed.

(** A step of a program whose invariant every result of the step re-establishes. *)
Lemma always_keeps {E A B} (J : Disk -> Prop) f (op : io A) (k : A -> fprog E B) d :
  J d -> (forall r d', op d = (r, d') -> J d -> J d') ->
  (forall a d', J d' -> always J (fun _ _ => True) (k a) d') ->
  always J (fun _ _ => True) (try_bind (attempt f op) k) d.
Proof.
  intros HJ Hop Hk. apply always_step; [done | |]; intros r d' H; apply Hop in H; auto.
Qed.

(** Two readings of one run. *)
Lemma always_and {A} (J J' : Disk -> Prop) (Q Q' : A -> Disk -> Prop) p d :
  always J Q p d -> always J' Q' p d -> always (fun d => J d /\ J' d) (fun a d => Q a d /\ Q' a d) p d.
Proof.
  revert d; induction p as [a | X f g IH |]; intros d; simpl; [tauto | | done].
  intros [? ?] [? ?]. split; [done|]. by apply IH.
Qed.

Lemma always_last {A} (J : Disk -> Prop) (Q : A -> Disk -> Prop) p d : always J Q p d -> always J (fun a d => J d /\ Q a d) p d.
Proof. intros H. eapply always_weaken; [exact H | done | done]. Qed.

Lemma always_now {A} (J : Disk -> Prop) (Q : A -> Disk -> Prop) p d : always J Q p d -> J d.
Proof. destruct p; simpl; tauto. Qed.

(** ** Small disks *)

Definition empty_disk : Disk := mkDisk ∅ 0 ∅ [] [].
Definition one_file (p : Path) (data : bytes) : Disk :=
  mkDisk {[0 := mkInode data true 384]} 1 {[p := 0]} [] [].

Lemma empty_settled : settled empty_disk.
Proof. split_and!; try done; intros q i *; cbn; by rewrite lookup_empty. Qed.

Lemma one_file_settled p data : settled (one_file p data).
Proof.
  split_and!; try done; cbn.
  - by intros q i [<- <-]%lookup_singleton_Some.
  - by intros q q' i [<- <-]%lookup_singleton_Some [<- _]%lookup_singleton_Some.
  - intros q i [<- <-]%lookup_singleton_Some. eexists. by rewrite lookup_singleton_eq.
Qed.

Lemma one_file_at p data : file_at (one_file p data) p = Some (mkInode data true 384).
Proof. unfold file_at, one_file. cbn. by rewrite lookup_singleton_eq. Qed.

Lemma one_file_elsewhere p q data : p <> q -> file_at (one_file p data) q = None.
Proof. intros H. unfold file_at, one_file. cbn. by rewrite lookup_singleton_ne. Qed.
