(* ===== verification/Keystore.v ===== *)
(** * The server's key file ([crates/pickle-identity/src/keystore.rs])

    One identity in a file of mode 0600: loading with its checks, saving through a temporary
    file, and making a first key where there is none.  JSON and base64 are parameters. *)

From S2P Require Export Disk Identity.

Definition KEYSTORE_VERSION : Z := 1.

Inductive KeystoreError : Type :=
| KIo (path : Path) (source : IoErr)
| KMalformed (path : Path)
| KUnsupportedVersion (path : Path) (found expected : Z)
| KBadKey (path : Path)
| KPermissionsTooOpen (path : Path) (mode : Z).

Record StoredIdentity : Type := mkStoredIdentity {
  si_version : Z; si_secret_key : bytes; si_counter : Z; si_nickname : rstring }.

Record LoadedIdentity : Type := mkLoaded { li_identity : Identity; li_nickname : rstring }.

(** The document formats: a value, its text, and its text followed by white space read back. *)
Class Json (T : Type) : Type := { to_json : T -> bytes; from_json : bytes -> option T }.

Definition NEWLINE : bytes := [10].

Class JsonLaws (T : Type) (J : Json T) : Prop := {
  json_reads x : from_json (to_json x) = Some x;
  json_reads_line x : from_json (to_json x ++ NEWLINE) = Some x;
  json_utf8 x : utf8_valid (to_json x) = true }.

(** [data_encoding::BASE64]; the encoded text is given by its bytes. *)
Class Base64 : Type := { base64_encode : bytes -> bytes; base64_decode : bytes -> option bytes }.

Class Base64Laws (B : Base64) : Prop := {
  base64_roundtrip bs : Forall is_byte bs -> base64_decode (base64_encode bs) = Some bs }.

Section Keystore.
Context {B : Base64} {J : Json StoredIdentity}.

(** [check_permissions]: nobody but the owner may read the file. *)
Definition check_permissions (path : Path) : fprog KeystoreError unit :=
  (mode <-? attempt (KIo path) (metadata_mode path);;
   let mode := Z.land mode 511 in
   if Z.land mode 63 =? 0 then ok tt else fail (KPermissionsTooOpen path mode))%prog.

(** The key in an entry: 32 bytes of base64. *)
Definition decode_secret (text : bytes) : option bytes :=
  match base64_decode text with
  | Some bs => if (length bs =? 32)%nat then Some bs else None
  | None => None
  end.

(** The part of [load] after the file has been read and its mode checked. *)
Definition parse_identity (path : Path) (raw : bytes) : KeystoreError + LoadedIdentity :=
  match from_json raw with
  | None => inl (KMalformed path)
  | Some stored =>
      if negb (si_version stored =? KEYSTORE_VERSION)
      then inl (KUnsupportedVersion path (si_version stored) KEYSTORE_VERSION)
      else match decode_secret (si_secret_key stored) with
           | None => inl (KBadKey path)
           | Some secret => inr (mkLoaded (mkIdentity secret (si_counter stored)) (si_nickname stored))
           end
  end.

Definition keystore_load (path : Path) : fprog KeystoreError LoadedIdentity :=
  (raw <-? attempt (KIo path) (read_to_string path);;
   _ <-? check_permissions path;;
   Ret (parse_identity path raw))%prog.

Definition stored_identity (ident : Identity) (nickname : rstring) : StoredIdentity :=
  mkStoredIdentity KEYSTORE_VERSION (base64_encode (signing ident)) (id_counter ident) nickname.

Definition keystore_save (path : Path) (ident : Identity) (nickname : rstring) : fprog KeystoreError unit :=
  (_ <-? ensure_parent (KIo path) path;;
   _ <-? write_twice (KIo path) 384 (with_extension (lit "tmp") path)
           (to_json (stored_identity ident nickname)) NEWLINE;;
   attempt (KIo path) (rename (with_extension (lit "tmp") path) path))%prog.

(** [generated] is the key [Identity::generate] draws. *)
Definition load_or_create (path : Path) (default_nickname : rstring) (generated : Identity)
    : fprog KeystoreError LoadedIdentity :=
  bind (keystore_load path) (fun loaded =>
    match loaded with
    | inr loaded => ok loaded
    | inl (KIo _ NotFound) =>
        (_ <-? keystore_save path generated default_nickname;;
         ok (mkLoaded generated default_nickname))%prog
    | inl other => fail other
    end).

(** The bytes [keystore_save] publishes. *)
Definition identity_file (ident : Identity) (nickname : rstring) : bytes :=
  to_json (stored_identity ident nickname) ++ NEWLINE.

Lemma keystore_save_always path G ident nickname d :
  guarded path G d -> with_extension (lit "tmp") path <> path ->
  always (guarded path (fun c => G c \/ c = identity_file ident nickname))
    (fun r d' => match r with
       | inr _ => exists m, file_at d' path = Some (mkInode (identity_file ident nickname) true m)
       | inl _ => file_at d' path = file_at d path
       end) (keystore_save path ident nickname) d.
Proof. apply replace_always. Qed.

Lemma check_permissions_always (I : Disk -> Prop) path d :
  files_only I -> I d ->
  always I (fun r d' => same_files d d' /\
    match r with
    | inr _ => exists n, file_at d path = Some n /\ Z.land (Z.land (in_mode n) 511) 63 = 0
    | inl (KIo _ NotFound) => file_at d path = None
    | inl (KIo _ _) | inl (KPermissionsTooOpen _ _) => True
    | inl _ => False
    end) (check_permissions path) d.
Proof.
  intros Hf HJ. unfold check_permissions. apply always_step; [done | |].
  - intros e d' [Hs He]%metadata_inv. split; [by eapply Hf | split; [done | by destruct e]].
  - intros mode d' [Hs (n & Hn & Hm)]%metadata_inv. cbv zeta. pose proof (Hf _ _ Hs HJ).
    destruct (Z.eqb_spec (Z.land (Z.land mode 511) 63) 0); [|done].
    apply always_ok; [done|]. split; [done|]. exists n. by subst.
Qed.

Lemma keystore_load_always (I : Disk -> Prop) path d :
  files_only I -> I d ->
  always I (fun r d' => same_files d d' /\
    match r with
    | inr loaded => exists n, file_at d path = Some n /\ parse_identity path (in_data n) = inr loaded /\
        Z.land (Z.land (in_mode n) 511) 63 = 0
    | inl (KIo _ NotFound) => file_at d path = None
    | inl _ => True
    end) (keystore_load path) d.
Proof.
  intros Hfo HJ. unfold keystore_load. apply always_step; [done | |].
  - intros e d' [Hs He]%read_to_string_inv. split; [by eapply Hfo | split; [done | by destruct e]].
  - intros raw d1 [Hs1 (n & Hn & <- & Hutf)]%read_to_string_inv. pose proof (Hfo _ _ Hs1 HJ) as HJ1.
    pose proof (fun d' => same_files_trans d d1 d' Hs1) as Htrans.
    eapply always_try; [by apply check_permissions_always | |].
    + intros e d' [Hs He] _. split; [auto|]. rewrite <- (file_at_same _ _ path Hs1). by destruct e as [? []| | | |].
    + intros [] d' [Hs (n' & Hn' & Hm)] Hg'. cbn [always]. split; [done|]. split; [auto|].
      rewrite (file_at_same _ _ path Hs1), Hn in Hn'. injection Hn' as <-.
      destruct (parse_identity path (in_data n)) as [e | loaded] eqn:E; [|by exists n].
      unfold parse_identity in E. case_match_all; simplify_eq; done.
Qed.

(** The key file is never lost: from a disk whose key file is any content [c], loading or
    creating keeps, at every step and after a crash at any of them, either [c] or nothing but a
    complete new key; and a new key is made only where there was no file at all: a file that is
    unreadable, malformed or too widely readable is an error, and stays as it is. *)
Theorem a_key_is_made_only_where_there_is_none path nickname generated d :
  settled d -> with_extension (lit "tmp") path <> path ->
  always
    (durable path (fun c => match file_at d path with
       | Some n => c = in_data n
       | None => c = identity_file generated nickname
       end))
    (fun r d' => match file_at d path with
       | Some n => file_at d' path = Some n /\
           match r with
           | inr loaded => parse_identity path (in_data n) = inr loaded /\ Z.land (Z.land (in_mode n) 511) 63 = 0
           | inl _ => True
           end
       | None => match r with
           | inr loaded => loaded = mkLoaded generated nickname /\
               exists m, file_at d' path = Some (mkInode (identity_file generated nickname) true m)
           | inl _ => file_at d' path = None
           end
       end)
    (load_or_create path nickname generated) d.
Proof.
  intros Hset Hne. destruct (file_at d path) as [n|] eqn:Hn.
  - assert (Hg : guarded path (eq (in_data n)) d).
    { apply settled_guarded; [done|]. intros m Hm. rewrite Hn in Hm. by injection Hm as <-. }
    eapply always_weaken; [| intros d' H; eapply guarded_durable, (guarded_weaken _ (eq (in_data n))); [exact H | by intros c ->] | by intros a d' _ H; exact H].
    unfold load_or_create. eapply always_bind; [apply keystore_load_always; [apply guarded_files_only | done]|].
    intros r d' [Hs Hr] Hg'. pose proof (file_at_same _ _ path Hs) as Hf. rewrite Hn in Hf, Hr.
    destruct r as [[? []| | | |] | loaded]; try by apply always_fail.
    { done. }
    apply always_ok; [done|]. destruct Hr as (n' & [= <-] & ? & ?). auto.
  - assert (Hg : guarded path (fun _ => False) d).
    { apply settled_guarded; [done|]. intros m Hm. congruence. }
    eapply always_weaken; [| intros d' H; eapply guarded_durable, (guarded_weaken _ (fun c => False \/ c = identity_file generated nickname)); [exact H | by intros c [[] | ->]] | by intros a d' _ H; exact H].
    assert (Hg0 : guarded path (fun c => False \/ c = identity_file generated nickname) d) by (eapply guarded_weaken; [exact Hg | done]).
    unfold load_or_create. eapply always_bind; [apply keystore_load_always; [apply guarded_files_only | done]|].
    intros r d' [Hs Hr] Hg'. pose proof (file_at_same _ _ path Hs) as Hf. rewrite Hn in Hf, Hr.
    destruct r as [[? []| | | |] | loaded]; try by apply always_fail.
    2:{ destruct Hr as (n' & Hn' & _). done. }
    eapply always_try.
    + eapply always_weaken; [apply (keystore_save_always path (fun _ => False)) | auto | by intros a d2 _ H; exact H]; [|done].
      by eapply guarded_same.
    + intros e d2 H _. simpl in H. congruence.
    + intros [] d2 (m & H) Hg2. apply always_ok; [done|]. eauto.
Qed.

Context {BL : Base64Laws B} {JL : JsonLaws StoredIdentity J}.

(** What was saved is what loads. *)
Lemma parse_saved path ident nickname :
  length (signing ident) = 32%nat -> Forall is_byte (signing ident) ->
  parse_identity path (identity_file ident nickname) = inr (mkLoaded ident nickname).
Proof.
  intros Hl Hb. unfold parse_identity, identity_file. rewrite json_reads_line. cbn [stored_identity si_version si_secret_key].
  unfold decode_secret. rewrite base64_roundtrip by done. rewrite Hl. cbn. by destruct ident.
Qed.

End Keystore.
