(* ===== verification/Sealed.v ===== *)
(** * The passphrase envelope ([crates/pickle-identity/src/sealed.rs])

    Deriving a key from a passphrase, sealing a document under it and opening it again, with
    the header that the cipher authenticates.  Argon2id, XChaCha20-Poly1305 and base64 are
    parameters; salts and nonces are arguments, drawn by the caller. *)

From S2P Require Export Keystore.

Definition SEALED_VERSION : Z := 3.
Definition ARGON2ID : rstring := lit "argon2id".
Definition XCHACHA20_POLY1305 : rstring := lit "xchacha20poly1305".
Definition SALT_LEN : nat := 16.
Definition NONCE_LEN : nat := 24.
Definition KEY_LEN : nat := 32.
Definition AAD_CONTEXT : bytes := lit "pickle-vault-seal-v1".
Definition MAX_MEMORY_KIB : Z := 1024 * 1024.
Definition DEFAULT_MEMORY_KIB : Z := 19 * 1024.
Definition DEFAULT_ITERATIONS : Z := 2.
Definition DEFAULT_PARALLELISM : Z := 1.
(** [Version::V0x13 as u32] *)
Definition ARGON2_V0X13 : Z := 19.
(** [argon2::MIN_SALT_LEN] *)
Definition MIN_SALT_LEN : nat := 8.

Inductive SealError : Type :=
| Unauthentic
| UnsupportedKdf (name : rstring)
| UnsupportedCipher (name : rstring)
| BadParams (detail : rstring)
| BadEncoding.

Record KdfHeader : Type := mkKdf {
  kdf_algorithm : rstring; kdf_version : Z; kdf_memory_kib : Z; kdf_iterations : Z; kdf_parallelism : Z;
  kdf_salt : bytes }.

Record SealedVault : Type := mkSealed {
  sv_version : Z; sv_kdf : KdfHeader; sv_cipher : rstring; sv_nonce : bytes; sv_ciphertext : bytes }.

Record VaultKey : Type := mkVaultKey { vk_key : bytes; vk_header : KdfHeader }.

(** [argon2] and [chacha20poly1305]: parameter checking and hashing, with the text of an error
    when there is one; encryption and decryption of a message with associated data. *)
Class Ciphers : Type := {
  argon2_params : Z -> Z -> Z -> rstring + unit;
  argon2_hash : Z -> Z -> Z -> bytes -> bytes -> rstring + bytes;
  aead_encrypt : bytes -> bytes -> bytes -> bytes -> option bytes;
  aead_decrypt : bytes -> bytes -> bytes -> bytes -> option bytes }.

(** Decryption inverts encryption, and accepts nothing else under the same key, nonce and
    associated data. *)
Class CiphersLaws (K : Ciphers) : Prop := {
  aead_opens k n a m c : aead_encrypt k n a m = Some c -> aead_decrypt k n a c = Some m;
  aead_genuine k n a m c : aead_decrypt k n a c = Some m -> aead_encrypt k n a m = Some c;
  aead_bytes k n a m c : aead_encrypt k n a m = Some c -> Forall is_byte c }.

Definition push_str (value : rstring) : bytes :=
  le_bytes 8 (Z.of_nat (length (as_bytes value))) ++ as_bytes value.

(** The salt's text is ASCII and stands for its bytes. *)
Definition push_text (value : bytes) : bytes := le_bytes 8 (Z.of_nat (length value)) ++ value.

Definition associated_data (version : Z) (kdf : KdfHeader) (cipher : rstring) : bytes :=
  AAD_CONTEXT ++ le_bytes 4 version ++ push_str (kdf_algorithm kdf) ++ le_bytes 4 (kdf_version kdf)
  ++ le_bytes 4 (kdf_memory_kib kdf) ++ le_bytes 4 (kdf_iterations kdf) ++ le_bytes 4 (kdf_parallelism kdf)
  ++ push_text (kdf_salt kdf) ++ push_str cipher.

Section Sealing.
Context {B : Base64} {K : Ciphers}.

(** [VaultKey::derive] *)
Definition vault_key_derive (passphrase : rstring) (header : KdfHeader) : SealError + VaultKey :=
  if negb (bool_decide (kdf_algorithm header = ARGON2ID)) then inl (UnsupportedKdf (kdf_algorithm header))
  else if negb (kdf_version header =? ARGON2_V0X13)
  then inl (BadParams (lit "argon2 version " ++ dec (kdf_version header)))
  else if MAX_MEMORY_KIB <? kdf_memory_kib header
  then inl (BadParams (dec (kdf_memory_kib header) ++ lit " KiB of memory is beyond the "
                         ++ dec MAX_MEMORY_KIB ++ lit " KiB this build will allocate"))
  else match base64_decode (kdf_salt header) with
  | None => inl BadEncoding
  | Some salt =>
      if (length salt <? MIN_SALT_LEN)%nat
      then inl (BadParams (lit "a " ++ dec (Z.of_nat (length salt)) ++ lit "-byte salt is too short"))
      else match argon2_params (kdf_memory_kib header) (kdf_iterations header) (kdf_parallelism header) with
      | inl e => inl (BadParams e)
      | inr _ =>
          match argon2_hash (kdf_memory_kib header) (kdf_iterations header) (kdf_parallelism header)
                  (as_bytes passphrase) salt with
          | inl e => inl (BadParams e)
          | inr key => inr (mkVaultKey key header)
          end
      end
  end.

(** [VaultKey::fresh], with the salt drawn *)
Definition vault_key_fresh (passphrase : rstring) (salt : bytes) : SealError + VaultKey :=
  vault_key_derive passphrase
    (mkKdf ARGON2ID ARGON2_V0X13 DEFAULT_MEMORY_KIB DEFAULT_ITERATIONS DEFAULT_PARALLELISM (base64_encode salt)).

(** [VaultKey::seal], with the nonce drawn *)
Definition vault_key_seal (k : VaultKey) (nonce plaintext : bytes) : SealError + SealedVault :=
  match aead_encrypt (vk_key k) nonce (associated_data SEALED_VERSION (vk_header k) XCHACHA20_POLY1305) plaintext with
  | None => inl Unauthentic
  | Some ciphertext =>
      inr (mkSealed SEALED_VERSION (vk_header k) XCHACHA20_POLY1305 (base64_encode nonce) (base64_encode ciphertext))
  end.

(** [VaultKey::open] *)
Definition vault_key_open (k : VaultKey) (sealed : SealedVault) : SealError + bytes :=
  if negb (bool_decide (sv_cipher sealed = XCHACHA20_POLY1305)) then inl (UnsupportedCipher (sv_cipher sealed))
  else match base64_decode (sv_nonce sealed) with
  | None => inl BadEncoding
  | Some nonce =>
      if negb (length nonce =? NONCE_LEN)%nat then inl BadEncoding
      else match base64_decode (sv_ciphertext sealed) with
      | None => inl BadEncoding
      | Some ciphertext =>
          match aead_decrypt (vk_key k) nonce
                  (associated_data (sv_version sealed) (sv_kdf sealed) (sv_cipher sealed)) ciphertext with
          | None => inl Unauthentic
          | Some plaintext => inr plaintext
          end
      end
  end.

(** ** The authenticated header *)

(** A header whose numbers are u32 and whose strings are of a length a file can have. *)
Definition header_fits (version : Z) (kdf : KdfHeader) (cipher : rstring) : Prop :=
  fits 32 version /\ fits 32 (kdf_version kdf) /\ fits 32 (kdf_memory_kib kdf) /\ fits 32 (kdf_iterations kdf) /\
  fits 32 (kdf_parallelism kdf) /\
  Z.of_nat (length (as_bytes (kdf_algorithm kdf))) < 2 ^ 64 /\ Z.of_nat (length (kdf_salt kdf)) < 2 ^ 64 /\
  Z.of_nat (length (as_bytes cipher)) < 2 ^ 64.

Lemma push_text_inj a b c d :
  Z.of_nat (length a) < 2 ^ 64 -> Z.of_nat (length c) < 2 ^ 64 ->
  push_text a ++ b = push_text c ++ d -> a = c /\ b = d.
Proof.
  unfold push_text. intros Ha Hc H. rewrite <- !app_assoc in H.
  apply app_inj_length in H as [Hl H]; [|by rewrite !length_le_bytes].
  apply le_bytes_inj in Hl; [| change (256 ^ Z.of_nat 8) with (2 ^ 64); lia ..].
  apply app_inj_length in H; [done | lia].
Qed.

Lemma le32_inj a b c d : fits 32 a -> fits 32 c -> le_bytes 4 a ++ b = le_bytes 4 c ++ d -> a = c /\ b = d.
Proof.
  intros Ha Hc H. apply app_inj_length in H as [Hl H]; [|by rewrite !length_le_bytes].
  apply le_bytes_inj in Hl; [done | exact Ha | exact Hc].
Qed.

(** No two headers are authenticated by the same bytes: the associated data determines the
    version, every key-derivation parameter, the salt and the cipher's name, so an envelope
    cannot be given another self-description that the tag would still cover. *)
Theorem associated_data_injective v k c v' k' c' :
  header_fits v k c -> header_fits v' k' c' ->
  associated_data v k c = associated_data v' k' c' ->
  v = v' /\ as_bytes (kdf_algorithm k) = as_bytes (kdf_algorithm k') /\ kdf_version k = kdf_version k' /\
  kdf_memory_kib k = kdf_memory_kib k' /\ kdf_iterations k = kdf_iterations k' /\
  kdf_parallelism k = kdf_parallelism k' /\ kdf_salt k = kdf_salt k' /\ as_bytes c = as_bytes c'.
Proof.
  intros (V & V1 & M & I & P & A & S & Ci) (V' & V1' & M' & I' & P' & A' & S' & Ci') H. unfold associated_data in H.
  apply app_inv_head in H. apply le32_inj in H as [Ev H]; [|done..].
  apply (push_text_inj (as_bytes (kdf_algorithm k)) _ (as_bytes (kdf_algorithm k'))) in H as [Ea H]; [|done..].
  apply le32_inj in H as [E1 H]; [|done..]. apply le32_inj in H as [E2 H]; [|done..]. apply le32_inj in H as [E3 H]; [|done..].
  apply le32_inj in H as [E4 H]; [|done..]. apply push_text_inj in H as [E5 H]; [|done..].
  assert (E : push_text (as_bytes c) ++ [] = push_text (as_bytes c') ++ []) by (rewrite !app_nil_r; exact H).
  apply push_text_inj in E as [E6 _]; [|done..]. auto 10.
Qed.

Context {BL : Base64Laws B} {KL : CiphersLaws K}.

(** ** Sealing and opening *)

Lemma derive_header passphrase header k : vault_key_derive passphrase header = inr k -> vk_header k = header.
Proof. unfold vault_key_derive. intros H. case_match_all; simplify_eq; done. Qed.

Lemma open_sealed k nonce plaintext sealed :
  length nonce = NONCE_LEN -> Forall is_byte nonce ->
  vault_key_seal k nonce plaintext = inr sealed ->
  vault_key_open k sealed = inr plaintext /\ sv_kdf sealed = vk_header k /\ sv_version sealed = SEALED_VERSION.
Proof.
  intros Hl Hn H. unfold vault_key_seal in H. destruct (aead_encrypt _ _ _ _) as [c|] eqn:E; [|done]. injection H as <-.
  unfold vault_key_open. cbn [sv_cipher sv_nonce sv_ciphertext sv_version sv_kdf].
  rewrite bool_decide_eq_true_2 by done. cbn [negb].
  rewrite base64_roundtrip by done. rewrite Hl, Nat.eqb_refl. cbn [negb].
  rewrite base64_roundtrip by (by eapply aead_bytes). by rewrite (aead_opens _ _ _ _ _ E).
Qed.

(** An envelope opens with the passphrase it was made with: from the file alone (its header
    says how the key was derived) the same passphrase gives back exactly the document; and what
    opens at all under a key is what that key would seal under the file's own header, so a
    document that was not sealed there does not come out. *)
Theorem envelope_roundtrip passphrase salt nonce plaintext k sealed :
  length nonce = NONCE_LEN -> Forall is_byte nonce ->
  vault_key_fresh passphrase salt = inr k -> vault_key_seal k nonce plaintext = inr sealed ->
  (exists k', vault_key_derive passphrase (sv_kdf sealed) = inr k' /\ vault_key_open k' sealed = inr plaintext) /\
  (forall k' other doc, vault_key_open k' other = inr doc ->
     exists n c, base64_decode (sv_nonce other) = Some n /\ base64_decode (sv_ciphertext other) = Some c /\
       aead_encrypt (vk_key k') n (associated_data (sv_version other) (sv_kdf other) XCHACHA20_POLY1305) doc = Some c).
Proof.
  intros Hl Hn Hk Hs. split.
  - destruct (open_sealed k nonce plaintext sealed Hl Hn Hs) as (Ho & Hh & _). exists k. split; [|done].
    rewrite Hh. unfold vault_key_fresh in Hk. by rewrite (derive_header _ _ _ Hk).
  - intros k' other doc Ho. unfold vault_key_open in Ho.
    destruct (bool_decide_reflect (sv_cipher other = XCHACHA20_POLY1305)) as [Hc|]; [|done]. cbn [negb] in Ho.
    destruct (base64_decode (sv_nonce other)) as [n|]; [|done]. destruct (negb _); [done|].
    destruct (base64_decode (sv_ciphertext other)) as [c|]; [|done].
    destruct (aead_decrypt _ _ _ _) as [m|] eqn:E; [|done]. injection Ho as <-. rewrite Hc in E.
    exists n, c. split_and!; [done | done | by apply aead_genuine].
Qed.

End Sealing.

(** Concrete ciphers to evaluate with: the tag is the key, the nonce and the associated data. *)
Module ToySeal.

Definition small (bs : bytes) : bytes := map (fun b => b mod 256) bs.

#[export] Instance base64 : Base64 := {|
  base64_encode bs := Toy.encode bs; base64_decode bs := Toy.decode bs |}.

Lemma nibble_mod h l : 0 <= h < 16 -> 0 <= l < 16 -> (65 + h - 65) * 16 + (65 + l - 65) = h * 16 + l.
Proof. lia. Qed.

#[export] Instance base64_laws : Base64Laws base64.
Proof.
  split. intros bs H. induction H as [|b bs Hb _ IH]; [done|]. simpl in *. rewrite IH. f_equal. f_equal.
  unfold is_byte in Hb. rewrite (Z.mod_small b) by lia. pose proof (Z.div_mod b 16). lia.
Qed.

Definition tag (k n a : bytes) : bytes := small k ++ small n ++ small a.

#[export] Instance ciphers : Ciphers := {|
  argon2_params _ _ _ := inr tt;
  argon2_hash _ _ _ pass salt := inr (take 32 (pass ++ salt ++ replicate 32 0));
  aead_encrypt k n a m := if forallb (fun b => (0 <=? b) && (b <? 256)) m then Some (tag k n a ++ m) else None;
  aead_decrypt k n a c :=
    if bool_decide (take (length (tag k n a)) c = tag k n a) && forallb (fun b => (0 <=? b) && (b <? 256)) (drop (length (tag k n a)) c)
    then Some (drop (length (tag k n a)) c) else None |}.

Lemma small_bytes bs : Forall is_byte (small bs).
Proof. apply Forall_fmap, Forall_forall. intros b _. unfold is_byte. simpl. apply Z.mod_pos_bound. lia. Qed.

#[export] Instance ciphers_laws : CiphersLaws ciphers.
Proof.
  split; cbn [aead_encrypt aead_decrypt ciphers]; intros k n a m c H.
  - destruct (forallb _ m) eqn:E; [|done]. injection H as <-. rewrite take_app_length, drop_app_length, E.
    by rewrite bool_decide_eq_true_2.
  - destruct (bool_decide_reflect (take (length (tag k n a)) c = tag k n a)) as [Ht|]; [|done].
    destruct (forallb _ _) eqn:E; [|done]. injection H as <-. rewrite E. f_equal. rewrite <- Ht at 1. apply take_drop.
  - destruct (forallb _ m) eqn:E; [|done]. injection H as <-. unfold tag. rewrite !Forall_app. split_and!; try apply small_bytes.
    apply Forall_forall. intros b Hb. rewrite forallb_forall in E. specialize (E b ltac:(by apply list_elem_of_In)).
    bool_props. split; lia.
Qed.

Definition sample_nonce : bytes := replicate 24 7.

Lemma associated_data_injective_witness :
  let k := mkKdf ARGON2ID ARGON2_V0X13 DEFAULT_MEMORY_KIB 2 1 [65; 65] in
  kdf_salt k = kdf_salt (mkKdf ARGON2ID ARGON2_V0X13 DEFAULT_MEMORY_KIB 2 1 [65; 65]).
Proof.
  intros k. apply (associated_data_injective SEALED_VERSION k XCHACHA20_POLY1305 SEALED_VERSION k XCHACHA20_POLY1305).
  - repeat split; vm_compute; done.
  - repeat split; vm_compute; done.
  - reflexivity.
Defined.

Lemma envelope_roundtrip_witness :
  exists k sealed, vault_key_fresh (lit "pass") (replicate 16 3) = inr k /\ vault_key_seal k sample_nonce [1; 2; 3] = inr sealed /\
    exists k', vault_key_derive (lit "pass") (sv_kdf sealed) = inr k' /\ vault_key_open k' sealed = inr [1; 2; 3].
Proof.
  do 2 eexists. split; [vm_compute; reflexivity|]. split; [vm_compute; reflexivity|].
  eapply (envelope_roundtrip (lit "pass") (replicate 16 3) sample_nonce [1; 2; 3]).
  - reflexivity.
  - apply Forall_replicate. split; lia.
  - vm_compute. reflexivity.
  - vm_compute. reflexivity.
Defined.

End ToySeal.
