(* ===== verification/Vault.v ===== *)
(** * The identity vault ([crates/pickle-identity/src/vault.rs])

    Several identities in one file, one of them active, optionally under a passphrase:
    opening, migrating a single-key file, editing, saving and changing the protection. *)

From S2P Require Export Sealed.

Definition VAULT_VERSION : Z := 2.
Definition MIGRATED_SUFFIX : rstring := lit "v1.bak".
Definition STAGING_SUFFIX : rstring := lit "rekey".

Inductive VaultError : Type :=
| VIo (path : Path) (source : IoErr)
| VMalformed (path : Path)
| VUnsupportedVersion (path : Path) (found expected : Z)
| VBadKey (path : Path)
| VPermissionsTooOpen (path : Path) (mode : Z)
| VNotFound (fp : rstring)
| VWouldEmpty
| VMigration (from : Path) (source : KeystoreError)
| VPassphraseRequired (path : Path)
| VLocked (path : Path) (source : SealError)
| VVerificationFailed (path : Path).

Record VaultEntry : Type := mkEntry { ve_identity : Identity; ve_nickname : rstring; ve_label : rstring }.

Record StoredEntry : Type := mkStoredEntry {
  se_secret_key : bytes; se_counter : Z; se_nickname : rstring; se_label : rstring }.

Record StoredVault : Type := mkStoredVault {
  st_version : Z; st_active : rstring; st_identities : list StoredEntry }.

Inductive Protection : Type := Unprotected | Passphrase (key : VaultKey).

Record Vault : Type := mkVault {
  v_path : Path; v_entries : list VaultEntry; v_active : rstring; v_protection : Protection }.

(** The documents of a vault file: the plain one, the envelope, and the version either starts
    with. *)
Class VaultJson : Type := {
  vault_doc :: Json StoredVault;
  sealed_doc :: Json SealedVault;
  probe_version : bytes -> option Z }.

Class VaultJsonLaws (J : VaultJson) : Prop := {
  vault_doc_laws :: JsonLaws StoredVault vault_doc;
  sealed_doc_laws :: JsonLaws SealedVault sealed_doc;
  vault_json_bytes (x : StoredVault) : Forall is_byte (to_json x);
  probe_vault (x : StoredVault) : probe_version (to_json x ++ NEWLINE) = Some (st_version x);
  probe_sealed (x : SealedVault) : probe_version (to_json x ++ NEWLINE) = Some (sv_version x) }.

Section Vault.
Context {C : Crypto} {B : Base64} {K : Ciphers} {KJ : Json StoredIdentity} {VJ : VaultJson}.

Definition entry_fp (e : VaultEntry) : rstring := fp_to_string (identity_fingerprint (ve_identity e)).

Definition has_fp (fp : rstring) (e : VaultEntry) : bool := bool_decide (entry_fp e = fp).

(** ** Reading a file *)

Definition permissions_error (path : Path) (e : KeystoreError) : VaultError :=
  match e with
  | KPermissionsTooOpen _ mode => VPermissionsTooOpen path mode
  | KIo _ source => VIo path source
  | other => VMigration path other
  end.

Definition decode_entry (e : StoredEntry) : option VaultEntry :=
  match decode_secret (se_secret_key e) with
  | Some secret => Some (mkEntry (mkIdentity secret (se_counter e)) (se_nickname e) (se_label e))
  | None => None
  end.

(** The sealed document and the key that opened it. *)
Definition unseal (path : Path) (raw : bytes) (passphrase : option rstring) : VaultError + (StoredVault * Protection) :=
  match (from_json raw : option SealedVault) with
  | None => inl (VMalformed path)
  | Some sealed =>
      match passphrase with
      | None => inl (VPassphraseRequired path)
      | Some passphrase =>
          match vault_key_derive passphrase (sv_kdf sealed) with
          | inl e => inl (VLocked path e)
          | inr key =>
              match vault_key_open key sealed with
              | inl e => inl (VLocked path e)
              | inr plaintext =>
                  match (from_json plaintext : option StoredVault) with
                  | None => inl (VMalformed path)
                  | Some stored =>
                      if negb (st_version stored =? VAULT_VERSION)
                      then inl (VUnsupportedVersion path (st_version stored) VAULT_VERSION)
                      else inr (stored, Passphrase key)
                  end
              end
          end
      end
  end.

Definition read_document (path : Path) (raw : bytes) (passphrase : option rstring)
    : VaultError + (StoredVault * Protection) :=
  match probe_version raw with
  | None => inl (VMalformed path)
  | Some found =>
      if found =? VAULT_VERSION then
        match (from_json raw : option StoredVault) with
        | None => inl (VMalformed path)
        | Some stored => inr (stored, Unprotected)
        end
      else if found =? SEALED_VERSION then unseal path raw passphrase
      else inl (VUnsupportedVersion path found VAULT_VERSION)
  end.

Definition parse (path : Path) (raw : bytes) (passphrase : option rstring) : VaultError + Vault :=
  match read_document path raw passphrase with
  | inl e => inl e
  | inr (stored, protection) =>
      match mapM decode_entry (st_identities stored) with
      | None => inl (VBadKey path)
      | Some [] => inl (VMalformed path)
      | Some ((first :: _) as entries) =>
          let active := if any (has_fp (st_active stored)) entries then st_active stored else entry_fp first in
          inr (mkVault path entries active protection)
      end
  end.

Definition needs_passphrase (path : Path) : fprog VaultError bool :=
  bind (call (read_to_string path)) (fun raw =>
    match raw with
    | inr raw =>
        match probe_version raw with
        | None => fail (VMalformed path)
        | Some version => ok (version =? SEALED_VERSION)
        end
    | inl NotFound => ok false
    | inl source => fail (VIo path source)
    end).

Definition is_encrypted (v : Vault) : bool := match v_protection v with Passphrase _ => true | Unprotected => false end.

(** ** Writing a file *)

Definition store_entry (e : VaultEntry) : StoredEntry :=
  mkStoredEntry (base64_encode (signing (ve_identity e))) (id_counter (ve_identity e)) (ve_nickname e) (ve_label e).

Definition stored_vault (v : Vault) : StoredVault :=
  mkStoredVault VAULT_VERSION (v_active v) (store_entry <$> v_entries v).

(** [encode], with the nonce a seal draws *)
Definition encode (v : Vault) (protection : Protection) (nonce : bytes) : VaultError + bytes :=
  let body := to_json (stored_vault v) in
  match protection with
  | Unprotected => inr (body ++ NEWLINE)
  | Passphrase key =>
      match vault_key_seal key nonce body with
      | inl e => inl (VLocked (v_path v) e)
      | inr sealed => inr (to_json sealed ++ NEWLINE)
      end
  end.

(** The handle is returned for the reader's sake; the source drops it. *)
Definition write_private (path : Path) (bs : bytes) : fprog VaultError Z :=
  (_ <-? ensure_parent (VIo path) path;;
   h <-? attempt (VIo path) (create_private path);;
   _ <-? attempt (VIo path) (write_all h bs);;
   _ <-? attempt (VIo path) (sync_all h);;
   ok h)%prog.

Definition vault_save (v : Vault) (nonce : bytes) : fprog VaultError unit :=
  let tmp := with_extension (lit "tmp") (v_path v) in
  (bs <-? Ret (encode v (v_protection v) nonce);;
   _ <-? write_private tmp bs;;
   attempt (VIo (v_path v)) (rename tmp (v_path v)))%prog.

(** ** Opening *)

(** What the random source draws while a vault is opened: a first key, a salt, a nonce. *)
Record Drawn : Type := mkDrawn { dr_identity : Identity; dr_salt : bytes; dr_nonce : bytes }.

Definition lift_keystore {A} (f : KeystoreError -> VaultError) (p : fprog KeystoreError A) : fprog VaultError A :=
  bind p (fun r => match r with inl e => fail (f e) | inr a => ok a end).

Definition protect (path : Path) (passphrase : option rstring) (salt : bytes) : VaultError + Protection :=
  match passphrase with
  | Some passphrase =>
      match vault_key_fresh passphrase salt with
      | inl e => inl (VLocked path e)
      | inr key => inr (Passphrase key)
      end
  | None => inr Unprotected
  end.

Definition vault_create (path legacy : Path) (default_nickname : rstring) (passphrase : option rstring) (dr : Drawn)
    : fprog VaultError Vault :=
  bind (keystore_load legacy) (fun loaded =>
    (found <-? match loaded with
       | inr loaded => ok (li_identity loaded, li_nickname loaded, true)
       | inl (KIo _ NotFound) => ok (dr_identity dr, default_nickname, false)
       | inl other => fail (VMigration legacy other)
       end;;
     let '(ident, nickname, migrated) := found in
     protection <-? Ret (protect path passphrase (dr_salt dr));;
     let vault := mkVault path [mkEntry ident nickname []] (fp_to_string (identity_fingerprint ident)) protection in
     _ <-? vault_save vault (dr_nonce dr);;
     _ <-? (if migrated : bool
            then attempt (VIo (with_extension MIGRATED_SUFFIX legacy)) (rename legacy (with_extension MIGRATED_SUFFIX legacy))
            else ok tt);;
     ok vault)%prog).

Definition open_with_passphrase (path legacy : Path) (default_nickname : rstring) (passphrase : option rstring) (dr : Drawn)
    : fprog VaultError Vault :=
  bind (call (read_to_string path)) (fun raw =>
    match raw with
    | inr raw =>
        (_ <-? lift_keystore (permissions_error path) (check_permissions path);;
         Ret (parse path raw passphrase))%prog
    | inl NotFound => vault_create path legacy default_nickname passphrase dr
    | inl source => fail (VIo path source)
    end).

Definition vault_open (path legacy : Path) (default_nickname : rstring) (dr : Drawn) : fprog VaultError Vault :=
  open_with_passphrase path legacy default_nickname None dr.

(** ** Editing *)

(** [active()]: [None] is the panic of its [expect]. *)
Definition active (v : Vault) : option VaultEntry := find (has_fp (v_active v)) (v_entries v).
Definition vault_get (v : Vault) (fp : rstring) : option VaultEntry := find (has_fp fp) (v_entries v).

Definition set_entries (es : list VaultEntry) (v : Vault) : Vault :=
  mkVault (v_path v) es (v_active v) (v_protection v).
Definition set_active_fp (fp : rstring) (v : Vault) : Vault :=
  mkVault (v_path v) (v_entries v) fp (v_protection v).
Definition set_protection (p : Protection) (v : Vault) : Vault :=
  mkVault (v_path v) (v_entries v) (v_active v) p.

Definition add (v : Vault) (ident : Identity) (nickname label : rstring) : rstring * Vault :=
  let fp := fp_to_string (identity_fingerprint ident) in
  (fp, match vault_get v fp with
       | Some _ => v
       | None => set_entries (v_entries v ++ [mkEntry ident nickname label]) v
       end).

(** [iter_mut().find(...)] and a change in place. *)
Fixpoint update_first (p : VaultEntry -> bool) (f : VaultEntry -> VaultEntry) (es : list VaultEntry) : list VaultEntry :=
  match es with
  | [] => []
  | e :: rest => if p e then f e :: rest else e :: update_first p f rest
  end.

Definition entry_mut (v : Vault) (fp : rstring) (f : VaultEntry -> VaultEntry) : (VaultError + unit) * Vault :=
  match vault_get v fp with
  | None => (inl (VNotFound fp), v)
  | Some _ => (inr tt, set_entries (update_first (has_fp fp) f (v_entries v)) v)
  end.

Definition set_counter (v : Vault) (fp : rstring) (counter : Z) : (VaultError + unit) * Vault :=
  entry_mut v fp (fun e => mkEntry (mkIdentity (signing (ve_identity e)) counter) (ve_nickname e) (ve_label e)).
Definition vault_set_nickname (v : Vault) (fp nickname : rstring) : (VaultError + unit) * Vault :=
  entry_mut v fp (fun e => mkEntry (ve_identity e) nickname (ve_label e)).
Definition set_label (v : Vault) (fp label : rstring) : (VaultError + unit) * Vault :=
  entry_mut v fp (fun e => mkEntry (ve_identity e) (ve_nickname e) label).

Definition set_active (v : Vault) (fp : rstring) : (VaultError + unit) * Vault :=
  match vault_get v fp with
  | None => (inl (VNotFound fp), v)
  | Some _ => (inr tt, set_active_fp fp v)
  end.

(** [remove]: [None] is the panic of indexing an empty list. *)
Definition vault_remove (v : Vault) (fp : rstring) : option ((VaultError + unit) * Vault) :=
  match vault_get v fp with
  | None => Some (inl (VNotFound fp), v)
  | Some _ =>
      if (length (v_entries v) =? 1)%nat then Some (inl VWouldEmpty, v)
      else
        let v := set_entries (retain (fun e => negb (has_fp fp e)) (v_entries v)) v in
        if bool_decide (v_active v = fp) then
          match v_entries v with
          | [] => None
          | first :: _ => Some (inr tt, set_active_fp (entry_fp first) v)
          end
        else Some (inr tt, v)
  end.

(** ** Changing the protection *)

Definition same_entry (a b : VaultEntry) : bool :=
  bool_decide (signing (ve_identity a) = signing (ve_identity b)) &&
  (id_counter (ve_identity a) =? id_counter (ve_identity b)) &&
  bool_decide (ve_nickname a = ve_nickname b) && bool_decide (ve_label a = ve_label b).

Definition holds_the_same_identities_as (a b : Vault) : bool :=
  bool_decide (v_active a = v_active b) && (length (v_entries a) =? length (v_entries b))%nat &&
  forallb (fun e => same_entry e.1 e.2) (zip (v_entries a) (v_entries b)).

Definition rewrite_verified (v : Vault) (protection : Protection) (passphrase : option rstring) (nonce : bytes) (dr : Drawn)
    : prog Disk ((VaultError + unit) * Vault) :=
  let staging := with_extension STAGING_SUFFIX (v_path v) in
  bind (bs <-? Ret (encode v protection nonce);; write_private staging bs)%prog (fun written =>
    match written with
    | inl e => Ret (inl e, v)
    | inr _ =>
        bind (open_with_passphrase staging [] [] passphrase dr) (fun reopened =>
          let verified := match reopened with
            | inl e => inl e
            | inr reopened => if holds_the_same_identities_as reopened v then inr tt else inl (VVerificationFailed (v_path v))
            end in
          match verified with
          | inl e => bind (call (remove_file staging)) (fun _ => Ret (inl e, v))
          | inr _ =>
              bind (attempt (VIo (v_path v)) (rename staging (v_path v))) (fun renamed =>
                match renamed with
                | inl e => Ret (inl e, v)
                | inr _ => Ret (inr tt, set_protection protection v)
                end)
          end)
    end).

Definition set_passphrase (v : Vault) (passphrase : rstring) (salt nonce : bytes) (dr : Drawn)
    : prog Disk ((VaultError + unit) * Vault) :=
  match vault_key_fresh passphrase salt with
  | inl e => Ret (inl (VLocked (v_path v) e), v)
  | inr key => rewrite_verified v (Passphrase key) (Some passphrase) nonce dr
  end.

Definition remove_passphrase (v : Vault) (nonce : bytes) (dr : Drawn) : prog Disk ((VaultError + unit) * Vault) :=
  rewrite_verified v Unprotected None nonce dr.

End Vault.
