(* ===== verification/VaultSafety.v ===== *)
(** * What the vault promises

    Editing never leaves the user without an identity to sign with; a file written is a file
    read back; and neither saving, nor changing the passphrase, nor migrating a single-key file
    can lose a key, whatever operation fails and whenever the power goes. *)

From S2P Require Export Vault.

(** ** Editing *)

Section Editing.
Context {C : Crypto}.

Definition fps (v : Vault) : list rstring := entry_fp <$> v_entries v.

(** A vault somebody can sign in with: the active identity is one of the entries, which are
    told apart by their fingerprints. *)
Definition vault_ok (v : Vault) : Prop := v_active v ∈ fps v /\ NoDup (fps v).

(** The edits, and their effect; [None] is a panic. *)
Inductive VaultEdit : Type :=
| EAdd (ident : Identity) (nickname label : rstring)
| ESetCounter (fp : rstring) (counter : Z)
| ESetNickname (fp nickname : rstring)
| ESetLabel (fp label : rstring)
| ESetActive (fp : rstring)
| ERemove (fp : rstring).

Definition edit (v : Vault) (e : VaultEdit) : option Vault :=
  match e with
  | EAdd ident nickname label => Some (add v ident nickname label).2
  | ESetCounter fp counter => Some (set_counter v fp counter).2
  | ESetNickname fp nickname => Some (vault_set_nickname v fp nickname).2
  | ESetLabel fp label => Some (set_label v fp label).2
  | ESetActive fp => Some (set_active v fp).2
  | ERemove fp => snd <$> vault_remove v fp
  end.

Fixpoint edits (v : Vault) (es : list VaultEdit) : option Vault :=
  match es with
  | [] => Some v
  | e :: rest => match edit v e with Some v => edits v rest | None => None end
  end.

Lemma find_fp_some fp es e : find (has_fp fp) es = Some e -> e ∈ es /\ entry_fp e = fp.
Proof. intros [H1 H2]%find_some. unfold has_fp in H2. by apply bool_decide_eq_true in H2. Qed.

Lemma find_fp_none fp es : find (has_fp fp) es = None <-> fp ∉ entry_fp <$> es.
Proof.
  rewrite find_none. unfold has_fp. split.
  - intros H (e & -> & He)%list_elem_of_fmap. specialize (H e He). by apply bool_decide_eq_false in H.
  - intros H e He. apply bool_decide_eq_false. intros <-. apply H. by apply list_elem_of_fmap_2.
Qed.

Lemma update_first_fps p f es : (forall e, entry_fp (f e) = entry_fp e) -> entry_fp <$> update_first p f es = entry_fp <$> es.
Proof. intros Hf. induction es as [|e es IH]; [done|]. cbn [update_first]. destruct (p e); rewrite !fmap_cons; [by rewrite Hf | by rewrite IH]. Qed.

Lemma update_first_keys p f es :
  (forall e, signing (ve_identity (f e)) = signing (ve_identity e)) ->
  (fun e => signing (ve_identity e)) <$> update_first p f es = (fun e => signing (ve_identity e)) <$> es.
Proof. intros Hf. induction es as [|e es IH]; [done|]. cbn [update_first]. destruct (p e); rewrite !fmap_cons; [by rewrite Hf | by rewrite IH]. Qed.

Definition keys (v : Vault) : list bytes := (fun e => signing (ve_identity e)) <$> v_entries v.

(** The fingerprint a key has. *)
Definition key_fp (k : bytes) : rstring := fp_to_string (fp_of (ed25519_public k)).

(** What one edit does to the keys held. *)
Definition keeps_keys (e : VaultEdit) (v v' : Vault) : Prop :=
  (forall k, k ∈ keys v -> e <> ERemove (key_fp k) -> k ∈ keys v') /\
  match e with
  | EAdd ident _ _ => fp_to_string (identity_fingerprint ident) ∈ fps v'
  | ERemove fp => fp ∈ fps v' -> v' = v
  | _ => True
  end.

Lemma entry_mut_ok v fp f :
  vault_ok v -> (forall e, signing (ve_identity (f e)) = signing (ve_identity e)) ->
  vault_ok (entry_mut v fp f).2 /\ keys (entry_mut v fp f).2 = keys v.
Proof.
  intros [Ha Hn] Hf. assert (Hfp : forall e, entry_fp (f e) = entry_fp e).
  { intros e. unfold entry_fp, identity_fingerprint. by rewrite Hf. }
  unfold entry_mut. destruct (vault_get v fp); [|done]. unfold vault_ok, fps, keys in *. cbn.
  rewrite update_first_fps by done. rewrite update_first_keys by done. done.
Qed.

Lemma edit_ok v e : vault_ok v -> exists v', edit v e = Some v' /\ vault_ok v' /\ keeps_keys e v v'.
Proof.
  intros Hok. pose proof Hok as [Ha Hn]. destruct e as [ident nick label | fp n | fp n | fp l | fp | fp]; unfold keeps_keys; cbn [edit].
  - eexists. split; [done|]. unfold add. cbn [snd]. unfold vault_get.
    destruct (find _ (v_entries v)) as [e|] eqn:E.
    + apply find_fp_some in E as [Hin Hfp]. split; [done|]. split; [done|]. cbn. rewrite <- Hfp. by apply list_elem_of_fmap_2.
    + apply find_fp_none in E. unfold vault_ok, fps, keys. cbn. rewrite !fmap_app. cbn. split_and!.
      * apply elem_of_app. by left.
      * apply NoDup_app. split_and!; [done | | apply NoDup_singleton]. intros fp Hfp ->%list_elem_of_singleton. by apply E.
      * intros k Hk _. apply elem_of_app. by left.
      * apply elem_of_app. right. by apply list_elem_of_singleton.
  - destruct (entry_mut_ok v fp (fun e => mkEntry (mkIdentity (signing (ve_identity e)) n) (ve_nickname e) (ve_label e)) Hok) as [Hok' Hk]; [done|]; eexists; split; [done|]; split; [exact Hok'|]; split; [|done]; intros k Hin _; by rewrite <- Hk in Hin.
  - destruct (entry_mut_ok v fp (fun e => mkEntry (ve_identity e) n (ve_label e)) Hok) as [Hok' Hk]; [done|]; eexists; split; [done|]; split; [exact Hok'|]; split; [|done]; intros k Hin _; by rewrite <- Hk in Hin.
  - destruct (entry_mut_ok v fp (fun e => mkEntry (ve_identity e) (ve_nickname e) l) Hok) as [Hok' Hk]; [done|]; eexists; split; [done|]; split; [exact Hok'|]; split; [|done]; intros k Hin _; by rewrite <- Hk in Hin.
  - eexists. split; [done|]. unfold set_active, vault_get. destruct (find _ (v_entries v)) as [e|] eqn:E; [|done].
    apply find_fp_some in E as [Hin Hfp]. split; [|done]. split; [|done]. cbn. rewrite <- Hfp.
    by apply (list_elem_of_fmap_2 entry_fp).
  - unfold vault_remove, vault_get. destruct (find _ (v_entries v)) as [e|] eqn:E.
    2:{ eexists. split; [done|]. split; [done|]. cbn. auto. }
    apply find_fp_some in E as [Hin Hfp]. destruct (Nat.eqb_spec (length (v_entries v)) 1) as [H1|H1].
    { eexists. split; [done|]. split; [done|]. cbn. auto. }
    cbv zeta. set (rest := retain (fun e => negb (has_fp fp e)) (v_entries v)).
    assert (Hrest : forall en, en ∈ rest <-> en ∈ v_entries v /\ entry_fp en <> fp).
    { intros en. unfold rest. rewrite elem_of_retain. unfold has_fp. rewrite negb_true_iff, bool_decide_eq_false. done. }
    assert (Hnd : NoDup (entry_fp <$> rest)).
    { unfold rest, retain. eapply sublist_NoDup; [exact Hn|]. apply fmap_sublist, sublist_filter. }
    assert (Hgone : fp ∉ entry_fp <$> rest).
    { intros (en & -> & [_ Hne]%Hrest)%list_elem_of_fmap. done. }
    assert (Hkeys : forall k, k ∈ keys v -> ERemove fp <> ERemove (key_fp k) -> k ∈ (fun e => signing (ve_identity e)) <$> rest).
    { intros k (en & -> & Hen)%list_elem_of_fmap Hne. apply (list_elem_of_fmap_2 (fun e => signing (ve_identity e))), Hrest.
      split; [done|]. intros <-. by apply Hne. }
    cbn [v_active set_entries v_entries].
    destruct (bool_decide_reflect (v_active v = fp)) as [Hact|Hact].
    + destruct rest as [|first others] eqn:Er.
      { exfalso. destruct (v_entries v) as [|e1 [|e2 es]] eqn:Ev; [by apply not_elem_of_nil in Hin | done |].
        assert (He1 : entry_fp e1 = fp).
        { destruct (decide (entry_fp e1 = fp)); [done|]. assert (e1 ∈ []) by (apply Hrest; split; [left | done]).
          by apply not_elem_of_nil in H. }
        assert (He2 : entry_fp e2 = fp).
        { destruct (decide (entry_fp e2 = fp)); [done|]. assert (e2 ∈ []) by (apply Hrest; split; [right; left | done]).
          by apply not_elem_of_nil in H. }
        unfold fps in Hn. rewrite Ev in Hn. cbn in Hn. rewrite He1, He2 in Hn. apply NoDup_cons in Hn as [Hx _]. apply Hx. left. }
      eexists. split; [done|]. cbn [snd]. unfold vault_ok, fps. cbn [v_active v_entries set_active_fp set_entries]. split_and!.
      * cbn. left.
      * exact Hnd.
      * exact Hkeys.
      * intros H. by exfalso.
    + eexists. split; [done|]. cbn [snd]. unfold vault_ok, fps. cbn [v_active v_entries set_entries]. split_and!.
      * unfold fps in Ha. apply list_elem_of_fmap in Ha as (en & Een & Hen). rewrite Een. apply list_elem_of_fmap_2, Hrest.
        split; [done | congruence].
      * exact Hnd.
      * exact Hkeys.
      * intros H. by exfalso.
Qed.

(** The user can always sign in: from a vault whose active identity is one of its entries
    (told apart by fingerprint), no sequence of edits panics, and after each of them the active
    identity exists and the vault is not empty; only removing an identity takes its key away,
    and only that one. *)
Theorem editing_keeps_an_identity v es :
  vault_ok v ->
  exists v', edits v es = Some v' /\ vault_ok v' /\ (exists e, active v' = Some e) /\
    forall k, k ∈ keys v -> ERemove (key_fp k) ∉ es -> k ∈ keys v'.
Proof.
  revert v; induction es as [|e es IH]; intros v Hok.
  - exists v. split; [done|]. split; [done|]. split; [|done]. unfold active.
    destruct (find (has_fp (v_active v)) (v_entries v)) as [en|] eqn:E; [eauto|]. apply find_fp_none in E. by destruct Hok.
  - destruct (edit_ok v e Hok) as (v1 & E1 & Hok1 & Hkeep & _). destruct (IH v1 Hok1) as (v' & E' & Hok' & Hact & Hk').
    exists v'. cbn [edits]. rewrite E1. split_and!; try done. intros k Hk Hne. apply not_elem_of_cons in Hne as [He Hes].
    apply Hk'; [|done]. by apply Hkeep.
Qed.

End Editing.

(** ** Reading back *)

Section Files.
Context {C : Crypto} {B : Base64} {K : Ciphers} {KJ : Json StoredIdentity} {VJ : VaultJson}.

Definition at_path (path : Path) (v : Vault) : Vault := mkVault path (v_entries v) (v_active v) (v_protection v).

(** The path only names the file in errors. *)
Lemma read_document_path p p' raw pw doc : read_document p raw pw = inr doc -> read_document p' raw pw = inr doc.
Proof. unfold read_document, unseal. intros H. case_match_all; simplify_eq; done. Qed.

Lemma parse_path p p' raw pw v : parse p raw pw = inr v -> parse p' raw pw = inr (at_path p' v).
Proof.
  unfold parse. destruct (read_document p raw pw) as [e | doc] eqn:E; [done|]. rewrite (read_document_path _ p' _ _ _ E).
  destruct doc as [stored prot]. destruct (mapM decode_entry _) as [[|first others]|]; try done. by intros [= <-].
Qed.

(** A parsed vault is one somebody can sign in with. *)
Lemma parse_active p raw pw v : parse p raw pw = inr v -> v_active v ∈ fps v.
Proof.
  unfold parse. destruct (read_document p raw pw) as [e | [stored prot]]; [done|].
  destruct (mapM decode_entry _) as [[|first others]|] eqn:E; try done. intros H. injection H as <-. unfold fps. cbn [v_active v_entries].
  destruct (has_fp (st_active stored) first || any (has_fp (st_active stored)) others) eqn:Ea; [|left].
  change (any (has_fp (st_active stored)) (first :: others) = true) in Ea. apply any_true in Ea as (e & He & Hfp). unfold has_fp in Hfp.
  apply bool_decide_eq_true in Hfp. rewrite <- Hfp. by apply (list_elem_of_fmap_2 entry_fp).
Qed.

(** Keys as a seed is: 32 bytes. *)
Definition keys_fit (v : Vault) : Prop :=
  Forall (fun k => length k = 32%nat /\ Forall is_byte k) (keys v).

(** The protection and the passphrase that undoes it. *)
Definition opened_by (protection : Protection) (pw : option rstring) : Prop :=
  match protection with
  | Unprotected => True
  | Passphrase key => exists p, pw = Some p /\ vault_key_derive p (vk_header key) = inr key
  end.

Context {BL : Base64Laws B} {KL : CiphersLaws K} {VJL : VaultJsonLaws VJ}.

Lemma decode_stored v : keys_fit v -> mapM decode_entry (store_entry <$> v_entries v) = Some (v_entries v).
Proof.
  unfold keys_fit, keys. intros Hk. rewrite Forall_fmap in Hk. induction Hk as [|e es [Hl Hb] _ IH]; [done|].
  rewrite fmap_cons. cbn [mapM].
  assert (decode_entry (store_entry e) = Some e) as ->; [|cbn; by rewrite IH].
  unfold decode_entry, decode_secret. cbn [store_entry se_secret_key se_counter se_nickname se_label].
  rewrite base64_roundtrip by done. rewrite Hl. by destruct e as [[] ? ?].
Qed.

(** What a vault is written as reads back as the vault. *)
Lemma parse_encoded path v protection pw nonce bs :
  v_active v ∈ fps v -> keys_fit v -> length nonce = NONCE_LEN -> Forall is_byte nonce -> opened_by protection pw ->
  encode v protection nonce = inr bs -> parse path bs pw = inr (mkVault path (v_entries v) (v_active v) protection).
Proof.
  intros Hact Hk Hl Hn Hpw He.
  assert (Hdoc : read_document path bs pw = inr (stored_vault v, protection)).
  { unfold encode in He. unfold read_document. destruct protection as [|key].
    - injection He as <-. rewrite probe_vault. cbn [stored_vault st_version]. rewrite Z.eqb_refl. by rewrite json_reads_line.
    - destruct (vault_key_seal key nonce _) as [e | sealed] eqn:Es; [done|]. injection He as <-.
      destruct Hpw as (p & -> & Hderive).
      destruct (open_sealed key nonce _ sealed Hl Hn Es) as (Ho & Hh & Hv).
      rewrite probe_sealed, Hv. cbn [SEALED_VERSION VAULT_VERSION]. change (3 =? 2) with false. change (3 =? 3) with true. cbv iota.
      unfold unseal. rewrite json_reads_line, Hh, Hderive, Ho, json_reads. cbn [stored_vault st_version].
      rewrite Z.eqb_refl. done. }
  unfold parse. rewrite Hdoc. cbn [stored_vault st_identities st_active]. rewrite decode_stored by done.
  unfold fps in Hact. destruct (v_entries v) as [|first others] eqn:Ev; [by apply not_elem_of_nil in Hact|].
  replace (any (has_fp (v_active v)) (first :: others)) with true; [done|]. symmetry. apply any_true.
  apply list_elem_of_fmap in Hact as (e & -> & He'). exists e. split; [done|]. unfold has_fp. by apply bool_decide_eq_true.
Qed.

End Files.

(** ** Writing *)

Section Writing.
Context {C : Crypto} {B : Base64} {K : Ciphers} {KJ : Json StoredIdentity} {VJ : VaultJson}.

Lemma write_private_always p tmp G bs d :
  guarded p G d -> tmp <> p ->
  always (guarded p G) (staged p tmp bs (file_at d p)) (write_private tmp bs) d.
Proof.
  intros Hg Hne. unfold write_private, staged. eapply always_try; [by apply ensure_parent_always | by intros e d' [? _] _ |].
  intros [] d0 [Hf0 _] Hg0. rewrite <- Hf0. clear d Hg Hf0. rename d0 into d. apply always_step; [done | |].
  { intros e d1 H. eapply open_guarded in H as (H1 & H2 & _); eauto. }
  intros h d1 H. eapply open_guarded in H as (Hg1 & Hf1 & Hw1); eauto. apply always_step; [done | |].
  { intros e d2 H. eapply write_guarded in H as (H1 & H2 & _); eauto. split; [done | split; congruence || done]. }
  intros [] d2 H. eapply write_guarded in H as (Hg2 & Hf2 & Hw2); eauto. apply always_step; [done | |].
  { intros e d3 H. eapply sync_guarded in H as (H1 & H2 & _); eauto. split; [done | split; congruence || done]. }
  intros [] d3 H. eapply sync_guarded in H as (Hg3 & Hf3 & Hw3); eauto. apply always_ok; [done|].
  rewrite app_nil_l in Hw3. split; [congruence | done].
Qed.

(** Saving, seen from the vault's own file. *)
Lemma vault_save_always v nonce (G : bytes -> Prop) d :
  guarded (v_path v) G d -> with_extension (lit "tmp") (v_path v) <> v_path v ->
  always (guarded (v_path v) (fun c => G c \/ encode v (v_protection v) nonce = inr c))
    (fun r d' => match r with
       | inr _ => exists bs m, encode v (v_protection v) nonce = inr bs /\ file_at d' (v_path v) = Some (mkInode bs true m)
       | inl _ => file_at d' (v_path v) = file_at d (v_path v)
       end) (vault_save v nonce) d.
Proof.
  intros Hg Hne. set (G' := fun c => G c \/ encode v (v_protection v) nonce = inr c).
  assert (Hg' : guarded (v_path v) G' d) by (eapply guarded_weaken; [exact Hg | unfold G'; auto]).
  unfold vault_save. cbv zeta. destruct (encode v (v_protection v) nonce) as [e | bs] eqn:He; [done|].
  cbn [try_bind bind]. eapply always_try; [by apply write_private_always | |].
  { intros e d1 [Hf1 _] _. exact Hf1. }
  intros h d1 [Hf1 Hw1] Hg1. apply always_attempt; [done | |].
  - intros e d2 H. eapply rename_guarded in H as (H1 & H2); [| exact Hg1 | exact Hw1 | done | unfold G'; auto].
    split; [done | congruence].
  - intros [] d2 H. eapply rename_guarded in H as (H1 & m & H2); [| exact Hg1 | exact Hw1 | done | unfold G'; auto].
    split; [done|]. by exists bs, m.
Qed.

(** Opening a vault file that is there: the disk is only read. *)
Lemma open_existing_always path legacy nick pw dr p G n d :
  guarded p G d -> file_at d path = Some n ->
  always (guarded p G) (fun r d' => same_files d d' /\
    match r with
    | inr v => parse path (in_data n) pw = inr v
    | inl (VIo _ _) | inl (VPermissionsTooOpen _ _) => True
    | inl e => parse path (in_data n) pw = inl e
    end)
    (open_with_passphrase path legacy nick pw dr) d.
Proof.
  intros Hg Hn. unfold open_with_passphrase. cbn [bind call always]. split; [done|].
  destruct (read_to_string path d) as [r d1] eqn:Er. cbn [fst snd]. apply read_to_string_inv in Er as [Hs1 Hr].
  pose proof (guarded_same _ _ _ _ Hs1 Hg) as Hg1.
  destruct r as [[] | raw]; [congruence | by apply always_fail | by apply always_fail |].
  destruct Hr as (n' & Hn' & <- & _). rewrite Hn in Hn'. injection Hn' as <-.
  pose proof (fun d' => same_files_trans d d1 d' Hs1) as Htrans.
  eapply (always_try (fun r d' => same_files d d' /\
    match r with inl (VIo _ _) | inl (VPermissionsTooOpen _ _) | inr _ => True | inl _ => False end)).
  - unfold lift_keystore. eapply always_bind; [apply check_permissions_always; [apply guarded_files_only | exact Hg1]|].
    intros [e | []] d' [Hs He] Hg'; (split; [done | split; [by apply Htrans |]]); [by destruct e as [? []| | | |] | done].
  - intros e d' [Hs He] _. split; [done|]. by destruct e.
  - intros [] d' [Hs _] Hg'. cbn [always]. split; [done|]. split; [done|]. by destruct (parse path (in_data n) pw) as [[]|].
Qed.

(** C30: changing the passphrase cannot lose a key: with no assumption on the cipher or the file
    format, at every step of setting or removing a passphrase, after any failure and after a
    crash anywhere, the vault's file holds either exactly what it held or a file that opens
    under the new protection to the same identities, counters, names and selection; and the
    change is reported as done only in the second case. *)
Theorem changing_the_passphrase_loses_nothing v protection pw nonce dr d n :
  settled d -> file_at d (v_path v) = Some n ->
  with_extension STAGING_SUFFIX (v_path v) <> v_path v ->
  let reopens c := exists v', parse (v_path v) c pw = inr v' /\ holds_the_same_identities_as v' v = true in
  always (durable (v_path v) (fun c => c = in_data n \/ reopens c))
    (fun r d' => match r with
       | (inr _, v') => v' = set_protection protection v /\ exists n', file_at d' (v_path v) = Some n' /\ reopens (in_data n')
       | (inl _, v') => v' = v /\ file_at d' (v_path v) = Some n
       end)
    (rewrite_verified v protection pw nonce dr) d.
Proof.
  intros Hset Hn Hne reopens. set (G := fun c => c = in_data n \/ reopens c).
  assert (Hg : guarded (v_path v) G d).
  { apply settled_guarded; [done|]. intros m Hm. left. rewrite Hn in Hm. by injection Hm as <-. }
  eapply (always_weaken (J := guarded (v_path v) G)); [| intros d' H; by apply guarded_durable | intros a d' _ H; exact H].
  match goal with |- always _ ?Q _ _ => set (Post := Q) end.
  unfold rewrite_verified. cbv zeta. set (staging := with_extension STAGING_SUFFIX (v_path v)) in *.
  apply (always_bind (fun r d' => file_at d' (v_path v) = Some n /\
    match r with inr h => exists bs, writing (v_path v) staging h bs true d' | inl _ => True end)).
  { destruct (encode v protection nonce) as [e | bs]; [done|]. cbn [try_bind bind].
    eapply always_weaken; [apply (write_private_always (v_path v) staging G bs d Hg Hne) | done |].
    intros r d' _ [Hf Hw]. rewrite Hn in Hf. split; [done|]. destruct r; eauto. }
  intros [e | h] d1 [Hf1 Hw1] Hg1; [by split|]. destruct Hw1 as (bs & Hw1).
  assert (Hst : exists mode, file_at d1 staging = Some (mkInode bs true mode)).
  { destruct Hw1 as (Hd & (mode & Hm) & _). exists mode. unfold file_at. by rewrite Hd. }
  destruct Hst as [mode Hst]. eapply always_bind; [by apply (open_existing_always staging [] [] pw dr (v_path v) G _ d1 Hg1 Hst)|].
  cbn [in_data]. intros reopened d2 [Hs2 Hr] Hg2. pose proof (file_at_same _ _ (v_path v) Hs2) as Hf2. rewrite Hf1 in Hf2.
  assert (Hdrop : forall e, always (guarded (v_path v) G) Post (bind (call (remove_file staging)) (fun _ => Ret (inl e, v))) d2).
  { intros e. cbn [bind call always]. split; [done|]. destruct (remove_file staging d2) as [r d3] eqn:Er.
    eapply remove_guarded in Er as [Hg3 Hf3]; [| exact Hg2 | done]. cbn. split; [done|]. split; [done | congruence]. }
  destruct reopened as [e | v']; [apply Hdrop|]. destruct (holds_the_same_identities_as v' v) eqn:Hsame; [|apply Hdrop].
  assert (HG : G bs).
  { right. exists (at_path (v_path v) v'). split; [by eapply parse_path | exact Hsame]. }
  eapply always_bind; [apply (always_attempt (J := guarded (v_path v) G)
    (fun (r : VaultError + unit) d' => match r with inr _ => exists m, file_at d' (v_path v) = Some (mkInode bs true m) | inl _ => file_at d' (v_path v) = Some n end))|].
  - done.
  - intros e d3 H. eapply rename_guarded in H as (H1 & H2); [| exact Hg2 | eapply writing_same; [exact Hs2 | exact Hw1] | done | exact HG].
    split; [done | congruence].
  - intros [] d3 H. eapply rename_guarded in H as (H1 & m & H2); [| exact Hg2 | eapply writing_same; [exact Hs2 | exact Hw1] | done | exact HG].
    eauto.
  - intros [e | []] d3 H Hg3; (split; [done|]); (split; [done|]); [done|]. destruct H as [m H].
    exists (mkInode bs true m). split; [done|]. destruct HG as [HG | HG]; [|exact HG].
    exists (at_path (v_path v) v'). split; [by eapply parse_path | exact Hsame].
Qed.

Context {BL : Base64Laws B} {KL : CiphersLaws K} {VJL : VaultJsonLaws VJ}.

(** What is saved is what opens: when a vault that somebody can sign in with has been saved,
    opening its file under the same passphrase gives back that very vault, protection included;
    once the save has gone through, nothing but the disk can keep it from opening. *)
Theorem a_saved_vault_reopens v pw nonce legacy nick dr d :
  settled d -> with_extension (lit "tmp") (v_path v) <> v_path v ->
  v_active v ∈ fps v -> keys_fit v -> length nonce = NONCE_LEN -> Forall is_byte nonce -> opened_by (v_protection v) pw ->
  always (fun _ => True)
    (fun r _ => match r with
       | inl _ => True
       | inr (inr v') => v' = v
       | inr (inl (VIo _ _)) | inr (inl (VPermissionsTooOpen _ _)) => True
       | inr (inl _) => False
       end)
    (try_bind (vault_save v nonce) (fun _ => bind (open_with_passphrase (v_path v) legacy nick pw dr) ok)) d.
Proof.
  intros Hset Hne Hact Hk Hl Hn Hpw. set (G := fun c : bytes => True).
  assert (Hg : guarded (v_path v) G d) by (by apply settled_guarded).
  eapply always_weaken; [| done | by intros r d' _ H; exact H].
  eapply always_try; [by apply (vault_save_always v nonce G d Hg) | done |].
  intros [] d1 (bs & m & He & Hf) Hg1. eapply always_bind; [by apply (open_existing_always _ _ _ _ _ _ _ _ _ Hg1 Hf)|].
  intros r d2 [_ Hr] Hg2. apply always_ok; [done|]. cbn [in_data] in Hr.
  rewrite (parse_encoded _ _ _ _ _ _ Hact Hk Hl Hn Hpw He) in Hr. destruct r as [[] | v']; try done.
  injection Hr as <-. by destruct v.
Qed.

End Writing.
