(* ===== verification/Documents.v ===== *)
(** * A document format

    Documents as the digits of numbers: a format in which any of the stored documents can be
    written and read back, for the witnesses of the theorems about files. *)

From S2P Require Export Keystore.

Module Documents.

(** ** Documents as numbers in binary *)

(** A number is its sign, its binary digits and a semicolon; a list is its elements, each after
    a one, and a zero. *)
Class Ser (A : Type) : Type := { ser : A -> bytes; de : bytes -> option (A * bytes) }.
Class SerLaws (A : Type) (S : Ser A) : Prop := {
  de_ser x rest : de (ser x ++ rest) = Some (x, rest);
  ser_ascii x : Forall (fun b => 48 <= b < 60) (ser x) }.

Fixpoint digits (p : positive) : bytes :=
  match p with xH => [59] | xO p => 48 :: digits p | xI p => 49 :: digits p end.
Fixpoint number (bs : bytes) : positive * bytes :=
  match bs with
  | b :: rest => if b =? 48 then prod_map xO id (number rest) else if b =? 49 then prod_map xI id (number rest) else (xH, rest)
  | [] => (xH, [])
  end.

#[export] Instance ser_Z : Ser Z := {|
  ser z := match z with Z0 => [48] | Zpos p => 49 :: digits p | Zneg p => 50 :: digits p end;
  de bs := match bs with
    | b :: rest =>
        if b =? 48 then Some (0, rest) else let '(p, rest) := number rest in Some (if b =? 49 then Zpos p else Zneg p, rest)
    | [] => None
    end |}.

Lemma number_digits p rest : number (digits p ++ rest) = (p, rest).
Proof. induction p as [p IH | p IH |]; simpl; [by rewrite IH | by rewrite IH | done]. Qed.

Lemma digits_ascii p : Forall (fun b => 48 <= b < 60) (digits p).
Proof. induction p; simpl; constructor; try done; lia. Qed.

#[export] Instance ser_Z_laws : SerLaws Z ser_Z.
Proof.
  split; [intros [] rest; cbn; by rewrite ?number_digits|].
  intros []; cbn; constructor; try apply digits_ascii; try apply Forall_nil; lia.
Qed.

Section Lists.
Context {A : Type} `{SA : Ser A}.

Fixpoint ser_list (l : list A) : bytes := match l with [] => [48] | x :: l => 49 :: ser x ++ ser_list l end.
Fixpoint de_list (fuel : nat) (bs : bytes) : option (list A * bytes) :=
  match fuel, bs with
  | S fuel, b :: rest =>
      if b =? 48 then Some ([], rest)
      else match de rest with
           | Some (x, rest) => match de_list fuel rest with Some (l, rest) => Some (x :: l, rest) | None => None end
           | None => None
           end
  | _, _ => None
  end.

#[export] Instance ser_lists : Ser (list A) := {| ser := ser_list; de bs := de_list (length bs) bs |}.

#[export] Instance ser_lists_laws : SerLaws A SA -> SerLaws (list A) ser_lists.
Proof.
  intros HA. split; cbn [ser de ser_lists].
  - intros x rest. assert (H : forall fuel, (length x < fuel)%nat -> de_list fuel (ser_list x ++ rest) = Some (x, rest)).
    { induction x as [|a x IH]; intros [|fuel] Hf; simpl in *; try lia; [done|]. rewrite <- app_assoc, de_ser. by rewrite IH by lia. }
    apply H. rewrite length_app. clear H. induction x; simpl; [lia|]. rewrite length_app. lia.
  - intros x. induction x; simpl; constructor; try done; try lia. apply Forall_app. split; [apply ser_ascii | done].
Qed.

End Lists.
#[export] Existing Instance ser_lists.
#[export] Existing Instance ser_lists_laws.

#[export] Instance ser_prod {A B} `{Ser A, Ser B} : Ser (A * B) := {|
  ser x := ser x.1 ++ ser x.2;
  de bs := match de bs with
    | Some (a, rest) => match de rest with Some (b, rest) => Some ((a, b), rest) | None => None end
    | None => None
    end |}.

#[export] Instance ser_prod_laws {A B} `{SerLaws A, SerLaws B} : SerLaws (A * B) ser_prod.
Proof.
  split; cbn [ser de ser_prod]; [intros [a b] rest; cbn; by rewrite <- app_assoc, !de_ser | intros [a b]; apply Forall_app; split; apply ser_ascii].
Qed.

(** A type as another one. *)
Definition ser_as {A B} `{Ser B} (f : A -> B) (g : B -> A) : Ser A := {|
  ser x := ser (f x); de bs := match de bs with Some (b, rest) => Some (g b, rest) | None => None end |}.

Lemma ser_as_laws {A B} `{SerLaws B} (f : A -> B) (g : B -> A) : (forall x, g (f x) = x) -> SerLaws A (ser_as f g).
Proof. intros Hfg. split; cbn [ser de ser_as]; [intros x rest; by rewrite de_ser, Hfg | intros x; apply ser_ascii]. Qed.

(** A document and nothing after it but a newline. *)
Definition whole {A} `{Ser A} (bs : bytes) : option A :=
  match de bs with Some (x, []) => Some x | Some (x, [10]) => Some x | _ => None end.

Lemma whole_alone {A} `{SerLaws A} (x : A) : whole (ser x) = Some x.
Proof. unfold whole. rewrite <- (app_nil_r (ser x)). by rewrite de_ser. Qed.

Lemma whole_line {A} `{SerLaws A} (x : A) : whole (ser x ++ NEWLINE) = Some x.
Proof. unfold whole. by rewrite de_ser. Qed.

Lemma ascii_utf8 bs : Forall (fun b => 48 <= b < 60) bs -> utf8_valid bs = true.
Proof.
  induction 1 as [|b bs Hb _ IH]; [done|]. simpl. destruct (Z.leb_spec 0 b), (Z.ltb_spec b 128); try lia. done.
Qed.

#[export] Instance ser_option {A} `{Ser A} : Ser (option A) :=
  {| ser x := match x with Some a => 49 :: ser a | None => [48] end;
     de bs := match bs with
       | b :: rest => if b =? 48 then Some (None, rest)
                      else match de rest with Some (a, rest) => Some (Some a, rest) | None => None end
       | [] => None
       end |}.
#[export] Instance ser_option_laws {A} `{SerLaws A} : SerLaws (option A) ser_option.
Proof.
  split; cbn [ser de ser_option]; [intros [a|] rest; cbn; by rewrite ?de_ser|].
  intros [a|]; constructor; try lia; [apply ser_ascii | constructor].
Qed.

Section Maps.
Context {K V : Type} `{Countable K} `{SK : Ser K} `{SV : Ser V}.
Definition ser_gmap : Ser (gmap K V) := ser_as (B := list (K * V)) map_to_list list_to_map.
Lemma ser_gmap_laws : SerLaws K SK -> SerLaws V SV -> SerLaws (gmap K V) ser_gmap.
Proof. intros HK HV. apply (ser_as_laws (B := list (K * V))). intros x. apply list_to_map_to_list. Qed.
End Maps.

(** The format as the documents' JSON. *)
Definition plain_json {A} (S : Ser A) : Json A := {| to_json := @ser A S; from_json := @whole A S |}.
Lemma plain_json_laws {A} (S : Ser A) (SL : SerLaws A S) : JsonLaws A (plain_json S).
Proof. split; intros x; cbn [to_json from_json plain_json]; [apply whole_alone | apply whole_line | apply ascii_utf8, ser_ascii]. Qed.

End Documents.
