(* ===== verification/Migration.v ===== *)
(** * Moving a single-key file into a vault

    Creating the vault from the older key file touches two files; the key is in one of them at
    every moment. *)

From S2P Require Export VaultSafety Documents.

Section Migration.
Context {C : Crypto} {B : Base64} {K : Ciphers} {KJ : Json StoredIdentity} {VJ : VaultJson}.

Lemma write_private_present tmp bs q d : present q d -> always (present q) (fun _ _ => True) (write_private tmp bs) d.
Proof.
  intros Hp. unfold write_private. eapply (always_try (fun _ _ => True)); [| done |].
  - unfold ensure_parent. destruct (parent tmp) as [dir|]; [destruct (is_empty dir)|]; try done.
    apply always_attempt; [done | |]; intros r d' H%create_dir_inv; (split; [by eapply present_same | done]).
  - intros [] d1 _ Hp1. apply always_keeps; [done | intros; by eapply present_open |]. intros h d2 Hp2.
    apply always_keeps; [done | intros; by eapply present_write |]. intros [] d3 Hp3.
    apply always_keeps; [done | intros; by eapply present_sync | done].
Qed.

(** Saving, seen from another file. *)
Lemma vault_save_beside v nonce q G d :
  kept q G d -> with_extension (lit "tmp") (v_path v) <> q -> v_path v <> q ->
  always (kept q G) (fun _ d' => file_at d' q = file_at d q) (vault_save v nonce) d.
Proof.
  intros [Hg Hp] Ht Hv. unfold vault_save. cbv zeta. destruct (Vault.encode v (v_protection v) nonce) as [e | bs]; [done|].
  cbn [try_bind bind]. eapply always_try; [apply always_and; [by apply write_private_always | by apply write_private_present] | |].
  { intros e d1 [[Hf _] _] _. exact Hf. }
  intros h d1 [[Hf _] _] [Hg1 Hp1]. apply always_attempt; [done | |]; intros r d2 H;
    pose proof (present_rename q _ _ _ _ _ H Ht Hp1); apply (rename_aside q G) in H as [? ?]; try done; (split; [done | congruence]).
Qed.

(** Every directory the disk may come back with has a synced file with the old key at [legacy],
    or one with the new vault at [path]. *)
Definition key_somewhere (legacy path : Path) (old new : bytes -> Prop) (d : Disk) : Prop :=
  forall snap, snap ∈ dir d :: past d ->
    (exists i n, snap !! legacy = Some i /\ inodes d !! i = Some n /\ in_synced n = true /\ old (in_data n)) \/
    (exists i n, snap !! path = Some i /\ inodes d !! i = Some n /\ in_synced n = true /\ new (in_data n)).

(** What a reader finds, now or after a crash. *)
Definition key_readable (legacy path : Path) (old new : bytes -> Prop) (d : Disk) : Prop :=
  forall d', crashed d d' \/ d' = d ->
    (exists n, file_at d' legacy = Some n /\ old (in_data n)) \/ (exists n, file_at d' path = Some n /\ new (in_data n)).

Lemma crashed_file d d' snap p i n :
  crashed d d' -> dir d' = snap -> snap !! p = Some i -> inodes d !! i = Some n -> in_synced n = true ->
  exists n', file_at d' p = Some n' /\ in_data n' = in_data n.
Proof.
  intros [_ Hin] <- Hp Hi Hs. destruct (Hin i n Hi) as (n' & Hn' & _ & Hd). exists n'. split; [|auto].
  unfold file_at. by rewrite Hp.
Qed.

Lemma key_somewhere_readable legacy path old new d :
  key_somewhere legacy path old new d -> key_readable legacy path old new d.
Proof.
  intros H d' [Hc | ->].
  - destruct (H (dir d')) as [(i & n & Hp & Hi & Hs & HG) | (i & n & Hp & Hi & Hs & HG)]; [apply Hc | left | right];
      destruct (crashed_file d d' _ _ i n Hc eq_refl Hp Hi Hs) as (n' & Hn' & Hd); exists n'; rewrite Hd; done.
  - destruct (H (dir d) ltac:(left)) as [(i & n & Hp & Hi & Hs & HG) | (i & n & Hp & Hi & Hs & HG)]; [left | right];
      exists n; unfold file_at; by rewrite Hp.
Qed.

Lemma kept_somewhere legacy path old new d : kept legacy old d -> key_somewhere legacy path old new d.
Proof.
  intros [[Hg _ _ _] Hp] snap Hs. left. destruct (Hp snap Hs) as [i Hi]. destruct (Hg snap i Hs Hi) as (n & ? & ? & ?). eauto 10.
Qed.

(** The last step: the old file is set aside once the new one is there. *)
Lemma retire_always {E} (f : IoErr -> E) legacy path backup old new d n :
  kept legacy old d -> guarded path new d -> file_at d path = Some n -> backup <> path -> legacy <> path ->
  always (key_somewhere legacy path old new) (fun _ d' => file_at d' path = Some n) (attempt f (rename legacy backup)) d.
Proof.
  intros Hk Hg Hn Hb Hl. pose proof (kept_somewhere legacy path old new d Hk) as Hs. apply always_attempt; [done | |].
  - intros e d' H. pose proof (rename_aside path new _ _ _ _ _ Hg Hl Hb H) as [_ Hf]. split; [|congruence].
    apply fallible_inv in H as [[_ Hsame] | (d1 & Hsame & H)].
    + apply kept_somewhere. by eapply kept_files_only.
    + apply kept_somewhere. destruct (dir d1 !! legacy); [done|]. injection H as _ <-. by eapply kept_files_only.
  - intros [] d' H. pose proof (rename_aside path new _ _ _ _ _ Hg Hl Hb H) as [Hg' Hf]. split; [|congruence].
    apply fallible_inv in H as [[H0 _] | (d1 & Hsame & H)]; [done|].
    pose proof (kept_somewhere legacy path old new d1 (kept_files_only _ _ _ _ Hsame Hk)) as Hs1.
    destruct (dir d1 !! legacy) as [i|]; simplify_eq.
    intros snap [-> | Hsn]%elem_of_cons; [|apply Hs1; exact Hsn]. right.
    rewrite Hn in Hf. unfold file_at in Hf. cbn [dir set_dir] in *. destruct (_ !! path) as [j|] eqn:Hj; [|done].
    destruct (gd_good _ _ _ Hg' _ j ltac:(left) Hj) as (m & Hm & Hsy & HG). eauto 10.
Qed.

Section Moving.
Context (path legacy : Path) (nickname : rstring) (passphrase : option rstring) (dr : Drawn) (n : Inode) (loaded : LoadedIdentity).
Hypothesis Hparse : parse_identity legacy (in_data n) = inr loaded.
Hypothesis Hnd : NoDup [path; with_extension (lit "tmp") path; legacy; with_extension MIGRATED_SUFFIX legacy].

(** The vault that is made, under a protection, and the bytes it is written as. *)
Definition moved (protection : Protection) : Vault :=
  mkVault path [mkEntry (li_identity loaded) (li_nickname loaded) []]
    (fp_to_string (identity_fingerprint (li_identity loaded))) protection.
Definition moved_file (c : bytes) : Prop :=
  exists protection, protect path passphrase (dr_salt dr) = inr protection /\
    Vault.encode (moved protection) protection (dr_nonce dr) = inr c.
Definition moved_to (r : VaultError + Vault) (d : Disk) : Prop :=
  match r with
  | inr v => exists protection, v = moved protection /\ protect path passphrase (dr_salt dr) = inr protection /\
      exists n', file_at d path = Some n' /\ moved_file (in_data n')
  | inl _ => True
  end.

Let old (c : bytes) : Prop := c = in_data n.
Let before (d : Disk) : Prop := kept legacy old d /\ guarded path (fun _ => False) d.

Lemma before_files_only : files_only before.
Proof. intros d d' Hs [? ?]. split; [by eapply kept_files_only | by eapply guarded_same]. Qed.

Lemma before_somewhere d : before d -> key_somewhere legacy path old moved_file d.
Proof. intros [? _]. by apply kept_somewhere. Qed.

(** Saving the new vault and setting the old file aside. *)
Lemma save_and_retire protection d :
  before d -> protect path passphrase (dr_salt dr) = inr protection ->
  always (key_somewhere legacy path old moved_file) moved_to
    (_ <-? vault_save (moved protection) (dr_nonce dr);;
     _ <-? attempt (VIo (with_extension MIGRATED_SUFFIX legacy)) (rename legacy (with_extension MIGRATED_SUFFIX legacy));;
     ok (moved protection))%prog d.
Proof.
  intros [Hk Hg] Hp. pose proof Hnd as Hd. rewrite !NoDup_cons, !not_elem_of_cons in Hd.
  assert (path <> legacy /\ with_extension (lit "tmp") path <> legacy /\ with_extension (lit "tmp") path <> path /\
    with_extension MIGRATED_SUFFIX legacy <> path) as (Hpl & Htl & Htp & Hbp) by (destruct Hd as ((? & ? & ? & _) & (? & ? & _) & (? & _) & _); split_and!; congruence).
  eapply always_try.
  - eapply always_weaken; [apply always_last, always_and; [by apply (vault_save_beside _ _ legacy old) | by apply (vault_save_always _ _ (fun _ => False))] | |].
    + intros d1 [H _]. by apply kept_somewhere.
    + intros r d1 _ H. exact H.
  - intros e d1 _ _. done.
  - intros [] d1 [[Hk1 Hg1] [_ (bs & m & He & Hn1)]] _. cbn [v_path v_protection moved] in *.
    assert (HG : moved_file bs) by (exists protection; by split).
    assert (Hg2 : guarded path moved_file d1).
    { eapply guarded_weaken; [exact Hg1|]. intros c [[] | Hc]. exists protection. by split. }
    eapply always_try; [by eapply retire_always | done |].
    intros [] d2 Hf2 HJ. apply always_ok; [done|]. exists protection. eauto 10.
Qed.

Lemma vault_create_always d :
  before d -> file_at d legacy = Some n ->
  always (key_somewhere legacy path old moved_file) moved_to (vault_create path legacy nickname passphrase dr) d.
Proof.
  intros Hb Hn. unfold vault_create. eapply always_bind.
  { eapply always_weaken; [apply always_last, keystore_load_always; [apply before_files_only | exact Hb] | apply before_somewhere |].
    intros r d1 _ H. exact H. }
  intros r d1 [Hb1 [Hs Hr]] HJ. destruct r as [[? []| | | |] | loaded']; try by apply always_fail.
  { cbn in Hr. congruence. }
  destruct Hr as (n' & Hn' & Hpar & _). assert (loaded' = loaded) as -> by congruence. clear n' Hn' Hpar.
  cbn [ok try_bind bind]. destruct (protect path passphrase (dr_salt dr)) as [e | protection] eqn:Hp; [by apply always_fail|].
  cbn [try_bind bind]. by apply save_and_retire.
Qed.

End Moving.

(** C31: migrating cannot lose the key: from a readable single-key file and no vault, with no
    assumption on the cipher or the formats, at every step of making the vault, after any
    failure and after a crash anywhere, the old key file is what it was or the vault's file
    holds the complete new vault; and a vault that is returned holds that very key, counter and
    name, and is on the disk under the protection that was asked for. *)
Theorem migration_loses_no_key path legacy nickname passphrase dr d n loaded :
  settled d -> file_at d path = None -> file_at d legacy = Some n ->
  parse_identity legacy (in_data n) = inr loaded ->
  NoDup [path; with_extension (lit "tmp") path; legacy; with_extension MIGRATED_SUFFIX legacy] ->
  always (key_readable legacy path (fun c => c = in_data n) (moved_file path passphrase dr loaded))
    (moved_to path passphrase dr loaded)
    (open_with_passphrase path legacy nickname passphrase dr) d.
Proof.
  intros Hset Hpath Hlegacy Hparse Hnd. set (old := fun c => c = in_data n).
  assert (Hk : kept legacy old d).
  { split; [apply settled_guarded; [done|]; intros m Hm; rewrite Hlegacy in Hm; by injection Hm as <-|].
    destruct Hset as (Hp & _). intros snap Hs. rewrite Hp in Hs. apply list_elem_of_singleton in Hs as ->.
    unfold file_at in Hlegacy. by destruct (dir d !! legacy). }
  assert (Hg : guarded path (fun _ => False) d) by (apply settled_guarded; [done | congruence]).
  eapply (always_weaken (J := key_somewhere legacy path old (moved_file path passphrase dr loaded)));
    [| apply key_somewhere_readable | by intros a d' _ H; exact H].
  unfold open_with_passphrase. cbn [bind call always]. split; [by apply kept_somewhere|].
  destruct (read_to_string path d) as [r d1] eqn:Er. cbn [fst snd]. apply read_to_string_inv in Er as [Hs1 Hr].
  pose proof (before_files_only path legacy n _ _ Hs1 (conj Hk Hg)) as Hb. rewrite <- (file_at_same _ _ _ Hs1) in Hlegacy.
  destruct r as [[] | raw]; try (apply always_fail; [by apply (before_somewhere path legacy passphrase dr n loaded) | done]).
  - by apply vault_create_always.
  - destruct Hr as (n' & Hn' & _). congruence.
Qed.

End Migration.

(** ** The identity files, on a concrete disk

    The stored documents in the format of [Documents.v], and the theorems on the key file and
    the vault applied to small disks under it. *)

Module Sample_files.
Import Toy ToySeal Documents.

(** ** The stored documents *)

#[local] Instance ser_identity : Ser StoredIdentity :=
  ser_as (fun x => (si_version x, si_secret_key x, si_counter x, si_nickname x)) (fun '(a, b, c, d) => mkStoredIdentity a b c d).
#[local] Instance ser_identity_laws : SerLaws StoredIdentity ser_identity.
Proof. apply ser_as_laws. by intros []. Qed.
#[local] Instance ser_entry : Ser StoredEntry :=
  ser_as (fun x => (se_secret_key x, se_counter x, se_nickname x, se_label x)) (fun '(a, b, c, d) => mkStoredEntry a b c d).
#[local] Instance ser_entry_laws : SerLaws StoredEntry ser_entry.
Proof. apply ser_as_laws. by intros []. Qed.
#[local] Instance ser_vault : Ser StoredVault :=
  ser_as (fun x => (st_version x, st_active x, st_identities x)) (fun '(a, b, c) => mkStoredVault a b c).
#[local] Instance ser_vault_laws : SerLaws StoredVault ser_vault.
Proof. apply ser_as_laws. by intros []. Qed.
#[local] Instance ser_kdf : Ser KdfHeader :=
  ser_as (fun x => (kdf_algorithm x, kdf_version x, kdf_memory_kib x, kdf_iterations x, kdf_parallelism x, kdf_salt x))
    (fun '(a, b, c, d, e, f) => mkKdf a b c d e f).
#[local] Instance ser_kdf_laws : SerLaws KdfHeader ser_kdf.
Proof. apply ser_as_laws. by intros []. Qed.
#[local] Instance ser_sealed : Ser SealedVault :=
  ser_as (fun x => (sv_version x, sv_kdf x, sv_cipher x, sv_nonce x, sv_ciphertext x)) (fun '(a, b, c, d, e) => mkSealed a b c d e).
#[local] Instance ser_sealed_laws : SerLaws SealedVault ser_sealed.
Proof. apply ser_as_laws. by intros []. Qed.

(** A vault file starts with its kind. *)
Definition VAULT_KIND : bytes := [48].
Definition SEALED_KIND : bytes := [49].

#[export] Instance identity_json : Json StoredIdentity := plain_json ser_identity.

#[export] Instance vault_json : VaultJson := {|
  vault_doc := {| to_json x := VAULT_KIND ++ ser x; from_json bs := match bs with b :: rest => if b =? 48 then whole rest else None | [] => None end |};
  sealed_doc := {| to_json x := SEALED_KIND ++ ser x; from_json bs := match bs with b :: rest => if b =? 48 then None else whole rest | [] => None end |};
  probe_version bs := match bs with
    | b :: rest =>
        if b =? 48 then match (whole rest : option StoredVault) with Some x => Some (st_version x) | None => None end
        else match (whole rest : option SealedVault) with Some x => Some (sv_version x) | None => None end
    | [] => None
    end |}.

#[export] Instance identity_json_laws : JsonLaws StoredIdentity identity_json.
Proof. apply plain_json_laws, ser_identity_laws. Qed.

#[export] Instance vault_json_laws : VaultJsonLaws vault_json.
Proof.
  split; [split | split | | |]; intros x; cbn [to_json from_json vault_json vault_doc sealed_doc probe_version VAULT_KIND SEALED_KIND app];
    cbv iota beta; rewrite ?whole_alone, ?whole_line; try done.
  - change (utf8_valid ([48] ++ ser x) = true). apply utf8_valid_app; [done | apply ascii_utf8, ser_ascii].
  - change (utf8_valid ([49] ++ ser x) = true). apply utf8_valid_app; [done | apply ascii_utf8, ser_ascii].
  - constructor; [unfold is_byte; lia|]. eapply Forall_impl; [apply ser_ascii|]. intros b Hb. unfold is_byte. simpl in Hb. lia.
Qed.

(** ** Small disks and vaults *)

(** Two values the machine can compare. *)
Ltac differ := let H := fresh in intros H; apply (bool_decide_eq_true_2 _) in H; vm_compute in H; discriminate H.

Definition a_path : Path := [lit "pickle"; lit "vault.json"].
Definition old_path : Path := [lit "pickle"; lit "identity.json"].
Definition ident_a : Identity := mkIdentity (replicate 32 5) 7.
Definition ident_b : Identity := mkIdentity (replicate 32 6) 0.
Definition drawn : Drawn := mkDrawn ident_b (replicate 16 3) sample_nonce.
Definition a_vault : Vault :=
  mkVault a_path [mkEntry ident_a (lit "ann") (lit "home"); mkEntry ident_b (lit "bob") []] (fp_to_string (identity_fingerprint ident_a)) Unprotected.
Definition pass : option rstring := Some (lit "pass").
Definition a_key : VaultKey := match vault_key_fresh (lit "pass") (replicate 16 3) with inr k => k | inl _ => mkVaultKey [] (mkKdf [] 0 0 0 0 []) end.

Lemma a_vault_ok : vault_ok a_vault.
Proof.
  split; [left|]. apply NoDup_cons. split; [|apply NoDup_singleton]. rewrite list_elem_of_singleton.
  differ.
Qed.

Lemma editing_keeps_an_identity_witness :
  vault_ok a_vault /\ exists v, edits a_vault [ESetCounter (key_fp (replicate 32 5)) 9; ERemove (key_fp (replicate 32 5))] = Some v /\
    exists e, active v = Some e.
Proof.
  split; [exact a_vault_ok|].
  destruct (editing_keeps_an_identity a_vault [ESetCounter (key_fp (replicate 32 5)) 9; ERemove (key_fp (replicate 32 5))] a_vault_ok)
    as (v & Hv & _ & Ha & _).
  by exists v.
Defined.

(** A key is made on an empty disk. *)
Lemma a_key_is_made_only_where_there_is_none_witness :
  let p := load_or_create a_path (lit "bob") ident_b in
  fst <$> run p empty_disk = Some (inr (mkLoaded ident_b (lit "bob"))) /\
  ends (fun r d' => durable a_path (fun c => c = identity_file ident_b (lit "bob")) d') p empty_disk.
Proof.
  split; [vm_compute; reflexivity|]. eapply ends_weaken.
  - eapply always_ends, (a_key_is_made_only_where_there_is_none a_path (lit "bob") ident_b empty_disk); [exact empty_settled|].
    differ.
  - intros r d' [H _]. exact H.
Defined.

(** A vault written in the clear is put under a passphrase. *)
Definition plain_file : bytes := to_json (stored_vault a_vault) ++ NEWLINE.

Lemma changing_the_passphrase_loses_nothing_witness :
  let p := rewrite_verified a_vault (Passphrase a_key) pass sample_nonce drawn in
  fst <$> run p (one_file a_path plain_file) = Some ((inr tt, set_protection (Passphrase a_key) a_vault)) /\
  ends (fun r d' => durable a_path (fun c => c = plain_file \/
    exists v', parse a_path c pass = inr v' /\ holds_the_same_identities_as v' a_vault = true) d') p (one_file a_path plain_file).
Proof.
  split; [vm_compute; reflexivity|]. eapply ends_weaken.
  - eapply always_ends, (changing_the_passphrase_loses_nothing a_vault (Passphrase a_key) pass sample_nonce drawn _ (mkInode plain_file true 384)).
    + apply one_file_settled.
    + apply one_file_at.
    + differ.
  - intros r d' [H _]. exact H.
Defined.

Lemma a_saved_vault_reopens_witness :
  let v := set_protection (Passphrase a_key) a_vault in
  let p := try_bind (vault_save v sample_nonce) (fun _ => bind (open_with_passphrase a_path old_path [] pass drawn) ok) in
  fst <$> run p empty_disk = Some (inr (inr v)) /\
  ends (fun r _ => match r with inr (inr v') => v' = v | _ => True end) p empty_disk.
Proof.
  split; [vm_compute; reflexivity|]. eapply ends_weaken.
  - eapply always_ends, (a_saved_vault_reopens (set_protection (Passphrase a_key) a_vault) pass sample_nonce old_path [] drawn).
    + exact empty_settled.
    + differ.
    + left.
    + repeat constructor; vm_compute; done.
    + reflexivity.
    + apply Forall_replicate. split; lia.
    + exists (lit "pass"). split; [done | by vm_compute].
  - intros r d' [_ H]. by destruct r as [|[]].
Defined.

Definition old_file : bytes := identity_file ident_a (lit "ann").

Lemma migration_loses_no_key_witness :
  let p := open_with_passphrase a_path old_path (lit "me") None drawn in
  fst <$> run p (one_file old_path old_file) = Some (inr (mkVault a_path [mkEntry ident_a (lit "ann") []] (fp_to_string (identity_fingerprint ident_a)) Unprotected)) /\
  ends (fun r d' => key_readable old_path a_path (fun c => c = old_file) (moved_file a_path None drawn (mkLoaded ident_a (lit "ann"))) d')
    p (one_file old_path old_file).
Proof.
  split; [vm_compute; reflexivity|]. eapply ends_weaken.
  - eapply always_ends, (migration_loses_no_key a_path old_path (lit "me") None drawn (one_file old_path old_file) (mkInode old_file true 384) (mkLoaded ident_a (lit "ann"))).
    + apply one_file_settled.
    + apply one_file_elsewhere. differ.
    + apply one_file_at.
    + by vm_compute.
    + apply (bool_decide_eq_true_1 _); vm_compute; reflexivity.
  - intros r d' [H _]. exact H.
Defined.

End Sample_files.
