(* ===== verification/Config.v ===== *)
(** * The server's configuration ([crates/pickle-server/src/config.rs])

    Defaults, validation, the environment overlay, and the file they are kept in.  TOML and the
    address parser of [std::net] are parameters; so is the environment, a lookup. *)

From S2P Require Export SqlStore Disk.

Definition DEFAULT_PORT : Z := 42071.

(** What [validate] objects to. *)
Inductive Invalid : Type :=
| NoChannels
| BlankName
| DuplicateName (name : rstring)
| UnknownParent (name parent : rstring)
| OwnParent (name : rstring)
| NoTopLevel.

Inductive ConfigError : Type :=
| CIo (path : Path) (source : IoErr)
| CParse (path : Path)
| CInvalid (why : Invalid)
| CEnv (key value : rstring).

Class Toml : Type := { to_toml : ServerConfig -> bytes; from_toml : bytes -> option ServerConfig }.
Class AddrParser : Type := { parse_addr : rstring -> option SocketAddr }.

(** ** Defaults *)

Definition default_bind : SocketAddr := mkAddr [0; 0; 0; 0] DEFAULT_PORT.
Definition default_name : rstring := lit "Pickle Server".
Definition default_min_security_level : Z := 8.
Definition default_history_enabled : bool := true.
Definition default_max_users : Z := 64.
Definition default_channel_kind : ChannelKind := VoiceAndText.
Definition default_channels : list ChannelConfig := [
  mkChannelConfig (lit "Lobby") (lit "Say hello") Text None None 0;
  mkChannelConfig (lit "Off topic") (lit "Everything that is not the topic") Text None None 1;
  mkChannelConfig (lit "General") (lit "Hang out") VoiceAndText None None 2;
  mkChannelConfig (lit "AFK") [] Voice None None 100 ].

Definition ServerConfig_default : ServerConfig :=
  mkConfig default_name default_min_security_level default_max_users None default_history_enabled None default_channels
    default_bind None None None.

(** ** Validation *)

(** The names seen, or the objection to one of them. *)
Fixpoint check_names (seen : list rstring) (channels : list ChannelConfig) : Invalid + list rstring :=
  match channels with
  | [] => inr seen
  | c :: rest =>
      if is_empty (trim (cfg_ch_name c)) then inl BlankName
      else if any (fun n => bool_decide (n = cfg_ch_name c)) seen then inl (DuplicateName (cfg_ch_name c))
      else check_names (cfg_ch_name c :: seen) rest
  end.

Fixpoint check_parents (seen : list rstring) (channels : list ChannelConfig) : Invalid + unit :=
  match channels with
  | [] => inr tt
  | c :: rest =>
      match cfg_ch_parent c with
      | None => check_parents seen rest
      | Some parent =>
          if negb (any (fun n => bool_decide (n = parent)) seen) then inl (UnknownParent (cfg_ch_name c) parent)
          else if bool_decide (parent = cfg_ch_name c) then inl (OwnParent (cfg_ch_name c))
          else check_parents seen rest
      end
  end.

Definition top_level (c : ChannelConfig) : bool := match cfg_ch_parent c with None => true | Some _ => false end.

Definition validate (cfg : ServerConfig) : ConfigError + unit :=
  if is_empty (cfg_channels cfg) then inl (CInvalid NoChannels)
  else match check_names [] (cfg_channels cfg) with
       | inl why => inl (CInvalid why)
       | inr seen =>
           match check_parents seen (cfg_channels cfg) with
           | inl why => inl (CInvalid why)
           | inr _ => if negb (any top_level (cfg_channels cfg)) then inl (CInvalid NoTopLevel) else inr tt
           end
       end.

(** ** The environment *)

Definition set_cfg_bind (x : SocketAddr) (c : ServerConfig) : ServerConfig :=
  mkConfig (cfg_name c) (cfg_min_security_level c) (cfg_max_users c) (cfg_password c) (cfg_history_enabled c) (cfg_owner c)
    (cfg_channels c) x (cfg_database_url c) (cfg_history_retention_days c) (cfg_history_max_messages_per_channel c).
Definition set_cfg_name (x : rstring) (c : ServerConfig) : ServerConfig :=
  mkConfig x (cfg_min_security_level c) (cfg_max_users c) (cfg_password c) (cfg_history_enabled c) (cfg_owner c)
    (cfg_channels c) (cfg_bind c) (cfg_database_url c) (cfg_history_retention_days c) (cfg_history_max_messages_per_channel c).
Definition set_cfg_min_security_level (x : Z) (c : ServerConfig) : ServerConfig :=
  mkConfig (cfg_name c) x (cfg_max_users c) (cfg_password c) (cfg_history_enabled c) (cfg_owner c)
    (cfg_channels c) (cfg_bind c) (cfg_database_url c) (cfg_history_retention_days c) (cfg_history_max_messages_per_channel c).
Definition set_cfg_password (x : option rstring) (c : ServerConfig) : ServerConfig :=
  mkConfig (cfg_name c) (cfg_min_security_level c) (cfg_max_users c) x (cfg_history_enabled c) (cfg_owner c)
    (cfg_channels c) (cfg_bind c) (cfg_database_url c) (cfg_history_retention_days c) (cfg_history_max_messages_per_channel c).
Definition set_cfg_owner (x : option rstring) (c : ServerConfig) : ServerConfig :=
  mkConfig (cfg_name c) (cfg_min_security_level c) (cfg_max_users c) (cfg_password c) (cfg_history_enabled c) x
    (cfg_channels c) (cfg_bind c) (cfg_database_url c) (cfg_history_retention_days c) (cfg_history_max_messages_per_channel c).
Definition set_cfg_database_url (x : option rstring) (c : ServerConfig) : ServerConfig :=
  mkConfig (cfg_name c) (cfg_min_security_level c) (cfg_max_users c) (cfg_password c) (cfg_history_enabled c) (cfg_owner c)
    (cfg_channels c) (cfg_bind c) x (cfg_history_retention_days c) (cfg_history_max_messages_per_channel c).

Definition env_key (name : rstring) : rstring := lit "PICKLE_" ++ name.

(** [read]: the trimmed value of a variable that is set to something. *)
Definition read_env (get : rstring -> option rstring) (name : rstring) : option (rstring * rstring) :=
  match get (env_key name) with
  | Some value => let value := trim value in if is_empty value then None else Some (env_key name, value)
  | None => None
  end.

Section Environment.
Context {C : Crypto} {AP : AddrParser}.

(** One [if let Some((key, value)) = read(...)]: [f] is [None] where the value is refused. *)
Definition overlay (found : option (rstring * rstring)) (f : rstring -> ServerConfig -> option ServerConfig)
    (c : ServerConfig) : ConfigError + ServerConfig :=
  match found with
  | None => inr c
  | Some (key, value) => match f value c with Some c => inr c | None => inl (CEnv key value) end
  end.

Definition bind_from (value : rstring) (c : ServerConfig) : option ServerConfig :=
  (fun a => set_cfg_bind a c) <$> parse_addr value.
Definition level_from (value : rstring) (c : ServerConfig) : option ServerConfig :=
  (fun n => set_cfg_min_security_level n c) <$> parse_u32 value.
Definition owner_from (value : rstring) (c : ServerConfig) : option ServerConfig :=
  match fp_parse value with inl _ => None | inr _ => Some (set_cfg_owner (Some value) c) end.

Definition overlays (get : rstring -> option rstring) : list (ServerConfig -> ConfigError + ServerConfig) := [
  overlay (read_env get (lit "BIND")) bind_from;
  overlay (read_env get (lit "NAME")) (fun value c => Some (set_cfg_name value c));
  overlay (read_env get (lit "MIN_SECURITY_LEVEL")) level_from;
  overlay (read_env get (lit "PASSWORD")) (fun value c => Some (set_cfg_password (Some value) c));
  overlay (read_env get (lit "OWNER")) owner_from;
  overlay (read_env get (lit "DATABASE_URL")) (fun value c => Some (set_cfg_database_url (Some value) c)) ].

(** The blocks in order; an error leaves what came before it changed. *)
Fixpoint apply_overlays (fs : list (ServerConfig -> ConfigError + ServerConfig)) (c : ServerConfig)
    : (ConfigError + unit) * ServerConfig :=
  match fs with
  | [] => (inr tt, c)
  | f :: rest => match f c with inl e => (inl e, c) | inr c => apply_overlays rest c end
  end.

Definition apply_env_from (get : rstring -> option rstring) (c : ServerConfig) : (ConfigError + unit) * ServerConfig :=
  apply_overlays (overlays get) c.

End Environment.

(** ** The file *)

Section File.
Context {C : Crypto} {AP : AddrParser} {T : Toml}.

Definition config_load (path : Path) : fprog ConfigError ServerConfig :=
  (raw <-? attempt (CIo path) (read_to_string path);;
   match from_toml raw with
   | None => fail (CParse path)
   | Some config => match validate config with inl e => fail e | inr _ => ok config end
   end)%prog.

Definition config_save (path : Path) (config : ServerConfig) : fprog ConfigError unit :=
  (_ <-? ensure_parent (CIo path) path;; fs_write (CIo path) path (to_toml config))%prog.

Definition config_load_or_create (path : Path) (get : rstring -> option rstring) : fprog ConfigError ServerConfig :=
  bind (config_load path) (fun loaded =>
    (config <-? match loaded with
       | inl (CIo _ NotFound) =>
           (_ <-? config_save path ServerConfig_default;; ok ServerConfig_default)%prog
       | other => Ret other
       end;;
     match apply_env_from get config with
     | (inl e, _) => fail e
     | (inr _, config) => match validate config with inl e => fail e | inr _ => ok config end
     end)%prog).

End File.

(** ** What validation accepts *)

Definition names (cfg : ServerConfig) : list rstring := cfg_ch_name <$> cfg_channels cfg.

Lemma check_names_spec seen chans seen' :
  check_names seen chans = inr seen' <->
  seen' = reverse (cfg_ch_name <$> chans) ++ seen /\
  Forall (fun c => trim (cfg_ch_name c) <> []) chans /\
  NoDup (cfg_ch_name <$> chans) /\ (forall n, n ∈ cfg_ch_name <$> chans -> n ∉ seen).
Proof.
  revert seen; induction chans as [|c chans IH]; intros seen; cbn [check_names].
  { split; [intros [= <-]; split_and!; try constructor; intros n []%not_elem_of_nil | intros (-> & _); done]. }
  rewrite fmap_cons, reverse_cons, <- app_assoc. cbn [app].
  destruct (is_empty (trim (cfg_ch_name c))) eqn:Eb.
  { apply is_empty_true in Eb. split; [done|]. by intros (_ & [Hc _]%Forall_cons & _). }
  apply is_empty_false in Eb. destruct (any _ seen) eqn:Es.
  { apply any_true in Es as (n & Hn & ->%bool_decide_eq_true). split; [done|]. intros (_ & _ & _ & Hf).
    exfalso. eapply Hf; [left | exact Hn]. }
  pose proof (proj1 (any_false _ _) Es) as Hs. rewrite IH, Forall_cons, NoDup_cons. clear IH.
  assert (Hc : cfg_ch_name c ∉ seen) by (intros H; specialize (Hs _ H); by apply bool_decide_eq_false in Hs).
  split.
  - intros (-> & Hf & Hn & Hd). split_and!; try done.
    + intros H. eapply Hd; [exact H | left].
    + intros n [-> | Hin]%elem_of_cons; [done|]. intros H. eapply Hd; [exact Hin | by right].
  - intros (-> & [_ Hf] & [Hni Hn] & Hd). split_and!; try done.
    intros n Hin [-> | H]%elem_of_cons; [done|]. eapply Hd; [by right | exact H].
Qed.

Lemma check_parents_spec seen chans :
  check_parents seen chans = inr tt <->
  forall c p, c ∈ chans -> cfg_ch_parent c = Some p -> p ∈ seen /\ p <> cfg_ch_name c.
Proof.
  induction chans as [|c chans IH]; cbn [check_parents].
  { split; [intros _ c p []%not_elem_of_nil | done]. }
  assert (Hstep : (forall d p, d ∈ c :: chans -> cfg_ch_parent d = Some p -> p ∈ seen /\ p <> cfg_ch_name d) <->
    (forall p, cfg_ch_parent c = Some p -> p ∈ seen /\ p <> cfg_ch_name c) /\
    (forall d p, d ∈ chans -> cfg_ch_parent d = Some p -> p ∈ seen /\ p <> cfg_ch_name d)).
  { split; [intros H; split; [intros p; apply H; left | intros d p Hd; apply H; by right]|].
    intros [H1 H2] d p [-> | Hd]%elem_of_cons; [by apply H1 | by apply H2]. }
  rewrite Hstep, <- IH. clear IH Hstep. destruct (cfg_ch_parent c) as [parent|]; [|split; [intros H; by split | by intros [_ H]]].
  destruct (any _ seen) eqn:Es; cbn [negb].
  - apply any_true in Es as (n & Hn & ->%bool_decide_eq_true). destruct (bool_decide_reflect (parent = cfg_ch_name c)) as [->|Hne].
    + split; [done|]. intros [H _]. by destruct (H _ eq_refl).
    + split; [intros H; split; [intros p [= <-]; by split | done] | by intros [_ H]].
  - split; [done|]. intros [H _]. destruct (H _ eq_refl) as [Hin _]. pose proof (proj1 (any_false _ _) Es _ Hin) as Hf.
    by apply bool_decide_eq_false in Hf.
Qed.

(** What a usable list of channels is. *)
Definition well_formed (cfg : ServerConfig) : Prop :=
  Forall (fun n => trim n <> []) (names cfg) /\ NoDup (names cfg) /\
  (forall c p, c ∈ cfg_channels cfg -> cfg_ch_parent c = Some p -> p ∈ names cfg /\ p <> cfg_ch_name c) /\
  exists c, c ∈ cfg_channels cfg /\ cfg_ch_parent c = None.

Lemma validate_spec cfg : validate cfg = inr tt <-> well_formed cfg.
Proof.
  unfold validate, well_formed, names. destruct (cfg_channels cfg) as [|c0 rest] eqn:Ec.
  { cbn. split; [intros [=]|]. by intros (_ & _ & _ & c & H%not_elem_of_nil & _). }
  cbn [is_empty]. rewrite <- Ec. clear Ec. set (chans := cfg_channels cfg). rewrite Forall_fmap.
  destruct (check_names [] chans) as [why | seen] eqn:En.
  - split; [intros [=]|]. intros (Hf & Hn & _). exfalso.
    assert (H : check_names [] chans = inr (reverse (cfg_ch_name <$> chans) ++ [])); [|congruence].
    apply check_names_spec. split_and!; try done. intros n _. apply not_elem_of_nil.
  - apply check_names_spec in En as (Hseen & Hf & Hn & _).
    assert (Hmem : forall p, p ∈ seen <-> p ∈ cfg_ch_name <$> chans) by (intros p; subst seen; rewrite app_nil_r; apply elem_of_reverse).
    destruct (check_parents seen chans) as [why | []] eqn:Ep.
    + split; [intros [=]|]. intros (_ & _ & Hp & _). exfalso. enough (check_parents seen chans = inr tt) by congruence.
      apply check_parents_spec. setoid_rewrite Hmem. exact Hp.
    + pose proof (proj1 (check_parents_spec _ _) Ep) as Hp. setoid_rewrite Hmem in Hp.
      assert (Htop : any top_level chans = true <-> exists c, c ∈ chans /\ cfg_ch_parent c = None).
      { rewrite any_true. unfold top_level. split; intros (c & Hc & Ht); exists c; (split; [done|]); by destruct (cfg_ch_parent c). }
      rewrite <- Htop. destruct (any top_level chans); cbn; [by split | split; [intros [=] | by intros (_ & _ & _ & ?)]].
Qed.

(** A configuration is accepted exactly when every channel has a name, no two the same, every
    parent is another channel of the list and some channel is top-level; and the channels built
    from an accepted one are numbered from 1 in order, each under the channel its parent names. *)
Theorem an_accepted_config_builds_its_channels cfg :
  (validate cfg = inr tt <-> well_formed cfg) /\
  (well_formed cfg ->
   ch_id <$> build_channels cfg = (fun i => Z.of_nat i + 1) <$> seq 0 (length (cfg_channels cfg)) /\
   forall i c ch, cfg_channels cfg !! i = Some c -> build_channels cfg !! i = Some ch ->
     ch_name ch = cfg_ch_name c /\
     match cfg_ch_parent c with
     | None => ch_parent ch = None
     | Some p => exists j parent, j <> i /\ cfg_channels cfg !! j = Some parent /\ cfg_ch_name parent = p /\
         ch_parent ch = Some (Z.of_nat j + 1)
     end).
Proof.
  split; [apply validate_spec|]. intros (_ & Hn & Hp & _). unfold build_channels. split.
  { apply list_eq. intros i. rewrite list_lookup_fmap, list_lookup_imap, list_lookup_fmap.
    destruct (cfg_channels cfg !! i) as [c|] eqn:E; cbn.
    - rewrite lookup_seq_lt by by eapply lookup_lt_Some. done.
    - rewrite lookup_seq_ge by by apply lookup_ge_None. done. }
  intros i c ch Hc Hch. rewrite list_lookup_imap, Hc in Hch. injection Hch as <-. cbn [ch_name ch_parent]. split; [done|].
  destruct (cfg_ch_parent c) as [p|] eqn:Epar; [|done]. cbn [mbind option_bind].
  destruct (Hp c p) as [Hin Hne]; [by eapply list_elem_of_lookup_2 | done |].
  destruct (find _ _) as [[name id]|] eqn:Ef; cbn.
  - apply find_some in Ef as [Hx He]. apply bool_decide_eq_true in He. cbn in He. subst name. rewrite elem_of_reverse in Hx.
    apply elem_of_lookup_imap in Hx as (j & parent & [= -> ->] & Hj). exists j, parent. split_and!; try done.
    intros ->. congruence.
  - exfalso. apply list_elem_of_fmap in Hin as (parent & -> & Hin). apply list_elem_of_lookup in Hin as [j Hj].
    apply (proj1 (find_none _ _)) with (x := (cfg_ch_name parent, Z.of_nat j + 1)) in Ef.
    + by apply bool_decide_eq_false in Ef.
    + rewrite elem_of_reverse. apply elem_of_lookup_imap. eauto.
Qed.

(** Two channels that are each other's parent pass, and the server that starts with them cannot
    answer whether a parent would close a loop. *)
Definition knotted : ServerConfig :=
  let ch name parent := mkChannelConfig name [] Text parent None 0 in
  mkConfig default_name 0 8 None true None
    [ch (lit "a") (Some (lit "b")); ch (lit "b") (Some (lit "a")); ch (lit "c") None] default_bind None None None.

Lemma a_knot_of_parents_is_accepted {C : Crypto} (ident : Identity) :
  validate knotted = inr tt /\
  parent_would_cycle (new_shared (DB := Database) knotted ident [] (build_channels knotted) PermState_defaults 0) 3 (Some 1) = None.
Proof. split; reflexivity. Qed.

(** ** The overlay and the file *)

Section Overlay.
Context {C : Crypto} {AP : AddrParser} {T : Toml}.
Context (get : rstring -> option rstring).

(** The value of a variable that counts. *)
Definition var (name : rstring) : option rstring := snd <$> read_env get name.

Lemma var_spec name v : var name = Some v <-> exists raw, get (env_key name) = Some raw /\ v = trim raw /\ v <> [].
Proof.
  unfold var, read_env. destruct (get (env_key name)) as [raw|]; [|split; [done | by intros (? & ? & _)]].
  cbv zeta. destruct (is_empty (trim raw)) eqn:E.
  - apply is_empty_true in E. split; [done|]. intros (r & [= <-] & -> & ?). done.
  - apply is_empty_false in E. split; [intros [= <-]; eauto | intros (r & [= <-] & -> & _); done].
Qed.

Lemma overlay_var name f c :
  overlay (read_env get name) f c =
  match var name with
  | None => inr c
  | Some v => match f v c with Some c => inr c | None => inl (CEnv (env_key name) v) end
  end.
Proof.
  unfold overlay, var, read_env. destruct (get (env_key name)) as [raw|]; [|done]. cbv zeta. by destruct (is_empty (trim raw)).
Qed.

(** A variable whose value cannot be read. *)
Definition refused (name : rstring) : Prop :=
  exists v, var name = Some v /\
    ((name = lit "BIND" /\ parse_addr v = None) \/ (name = lit "MIN_SECURITY_LEVEL" /\ parse_u32 v = None) \/
     (name = lit "OWNER" /\ exists e, fp_parse v = inl e)).

(** The environment wins over the file, value by value, and only where it says something: a
    variable that is unset or blank changes nothing, and a value that cannot be read is an error
    naming its variable, never a fallback. *)
Theorem environment_overrides c :
  match apply_env_from get c with
  | (inr _, c') =>
      cfg_name c' = default (cfg_name c) (var (lit "NAME")) /\
      cfg_password c' = from_option Some (cfg_password c) (var (lit "PASSWORD")) /\
      cfg_owner c' = from_option Some (cfg_owner c) (var (lit "OWNER")) /\
      cfg_database_url c' = from_option Some (cfg_database_url c) (var (lit "DATABASE_URL")) /\
      match var (lit "BIND") with Some v => parse_addr v = Some (cfg_bind c') | None => cfg_bind c' = cfg_bind c end /\
      match var (lit "MIN_SECURITY_LEVEL") with
      | Some v => parse_u32 v = Some (cfg_min_security_level c')
      | None => cfg_min_security_level c' = cfg_min_security_level c
      end /\
      cfg_channels c' = cfg_channels c /\ cfg_max_users c' = cfg_max_users c /\
      (forall name, ~ refused name)
  | (inl (CEnv key value), _) => exists name, key = env_key name /\ var name = Some value /\ refused name
  | (inl _, _) => False
  end.
Proof.
  assert (Hgood : (forall v, var (lit "BIND") = Some v -> parse_addr v <> None) ->
    (forall v, var (lit "MIN_SECURITY_LEVEL") = Some v -> parse_u32 v <> None) ->
    (forall v e, var (lit "OWNER") = Some v -> fp_parse v <> inl e) -> forall name, ~ refused name).
  { intros H1 H2 H3 name (v & Hv & [[-> H] | [[-> H] | [-> [e H]]]]); [by eapply H1 | by eapply H2 | by eapply H3]. }
  unfold apply_env_from, overlays. cbn [apply_overlays].
  rewrite overlay_var. unfold bind_from.
  destruct (var (lit "BIND")) as [b|] eqn:Eb; [destruct (parse_addr b) as [ba|] eqn:Pb|]; cbn [fmap option_fmap option_map];
    [| exists (lit "BIND"); split; [done|]; split; [done|]; exists b; by auto |];
    (rewrite overlay_var; destruct (var (lit "NAME")) as [nm|] eqn:En;
     rewrite overlay_var; unfold level_from; destruct (var (lit "MIN_SECURITY_LEVEL")) as [l|] eqn:El;
      [destruct (parse_u32 l) as [lv|] eqn:Pl | | destruct (parse_u32 l) as [lv|] eqn:Pl |]; cbn [fmap option_fmap option_map];
      try (exists (lit "MIN_SECURITY_LEVEL"); split; [done|]; split; [done|]; exists l; by auto));
    (rewrite overlay_var; destruct (var (lit "PASSWORD")) as [pw|] eqn:Ep;
     rewrite overlay_var; unfold owner_from; destruct (var (lit "OWNER")) as [o|] eqn:Eo;
      [destruct (fp_parse o) as [eo|fo] eqn:Po | | destruct (fp_parse o) as [eo|fo] eqn:Po |];
      try (exists (lit "OWNER"); split; [done|]; split; [done|]; exists o; split; [done|]; right; right; by eauto));
    rewrite overlay_var; destruct (var (lit "DATABASE_URL")) as [db|] eqn:Ed; split_and!; try done;
    apply Hgood; congruence.
Qed.

(** Saving where there was nothing. *)
Lemma config_save_new path config d :
  dir d !! path = None ->
  always (begun path (to_toml config)) (fun r d' => match r with
    | inr _ => exists n, file_at d' path = Some n /\ in_data n = to_toml config
    | inl _ => True
    end) (config_save path config) d.
Proof.
  intros Hd. unfold config_save. eapply (always_try (fun _ d' => same_files d d')); [| done |].
  - apply ensure_parent_files; [apply begun_files_only | left; unfold file_at; by rewrite Hd].
  - intros [] d' (_ & _ & Ed & _) _. apply fs_write_new. congruence.
Qed.

(** Reading the configuration changes nothing. *)
Lemma config_load_always (J : Disk -> Prop) path d :
  files_only J -> J d ->
  always J (fun r d' => same_files d d' /\
    match r with
    | inr config => exists n, file_at d path = Some n /\ from_toml (in_data n) = Some config /\ validate config = inr tt
    | inl (CIo _ NotFound) => file_at d path = None
    | inl _ => True
    end) (config_load path) d.
Proof.
  intros Hf HJ. unfold config_load. apply always_step; [done | |].
  - intros e d' [Hs He]%read_to_string_inv. split; [by eapply Hf | split; [done | by destruct e]].
  - intros raw d' [Hs (n & Hn & <- & _)]%read_to_string_inv. pose proof (Hf _ _ Hs HJ).
    destruct (from_toml (in_data n)) as [config|] eqn:E; [|by apply always_fail].
    destruct (validate config) as [e | []] eqn:Ev; [|apply always_ok; eauto 10].
    apply always_fail; [done|]. split; [done|]. unfold validate in Ev. case_match_all; simplify_eq; done.
Qed.

(** The environment never reaches the file, and the file is never overwritten: loading or
    creating the configuration leaves a file that is there as it is at every step, whatever
    fails; where there is none, the file is at every step some beginning of the defaults; and
    the configuration that is returned is valid, and is the file's (or the defaults) with the
    environment laid over it. *)
Theorem the_environment_is_never_saved path d :
  settled d ->
  always
    (fun d' => match file_at d path with
       | Some n => file_at d' path = Some n
       | None => begun path (to_toml ServerConfig_default) d'
       end)
    (fun r d' => match r with
       | inl _ => True
       | inr config => validate config = inr tt /\
           exists base, apply_env_from get base = (inr tt, config) /\
           match file_at d path with
           | Some n => from_toml (in_data n) = Some base /\ validate base = inr tt
           | None => base = ServerConfig_default /\
               exists n', file_at d' path = Some n' /\ in_data n' = to_toml ServerConfig_default
           end
       end)
    (config_load_or_create path get) d.
Proof.
  intros (_ & _ & _ & Hset). unfold config_load_or_create. match goal with |- always ?I ?P _ _ => set (J := I); set (Post := P) end.
  assert (HfJ : files_only J).
  { intros d1 d2 Hs. unfold J. destruct (file_at d path); [by rewrite (file_at_same _ _ path Hs) | by apply begun_files_only]. }
  assert (HJ : J d) by (unfold J; destruct (file_at d path) eqn:E; [done | by left]).
  eapply always_bind; [by apply config_load_always|]. intros r d1 [Hs1 Hr] HJ1.
  assert (Hend : forall base d2, J d2 -> match file_at d path with
      | Some n => from_toml (in_data n) = Some base /\ validate base = inr tt
      | None => base = ServerConfig_default /\ exists n', file_at d2 path = Some n' /\ in_data n' = to_toml ServerConfig_default
      end -> always J Post (match apply_env_from get base with
        | (inl e, _) => fail e
        | (inr _, config) => match validate config with inl e => fail e | inr _ => ok config end
        end) d2).
  { intros base d2 HJ2 Hbase. destruct (apply_env_from get base) as [[e | []] config] eqn:Ea; [by apply always_fail|].
    destruct (validate config) as [e | []] eqn:Ev; [by apply always_fail|]. apply always_ok; [done|]. unfold Post. by eauto. }
  destruct r as [e | config].
  2:{ apply Hend; [done|]. destruct Hr as (n & -> & Hn). exact Hn. }
  destruct e as [? []| | |]; try by apply always_fail.
  assert (Hdir : dir d1 !! path = None).
  { destruct Hs1 as (_ & _ & -> & _). destruct (dir d !! path) as [i|] eqn:Hi; [|done]. exfalso.
    destruct (Hset path i Hi) as (n & Hn & _). unfold file_at in Hr. rewrite Hi in Hr. cbn in Hr. congruence. }
  unfold J in *. rewrite Hr in *. eapply (always_try (fun r d' => match r with
    | inr base => base = ServerConfig_default /\ exists n, file_at d' path = Some n /\ in_data n = to_toml ServerConfig_default
    | inl _ => True end)).
  - eapply always_try; [by apply config_save_new | done |]. intros [] d2 Hn HJ2. apply always_ok; eauto.
  - done.
  - intros base d2 Hbase HJ2. by apply Hend.
Qed.

End Overlay.

(** ** On the defaults *)

Module Config_samples.
Import Toy.

#[export] Instance toml : Toml := {| to_toml c := as_bytes (cfg_name c); from_toml bs := Some (set_cfg_name bs ServerConfig_default) |}.
#[export] Instance addr_parser : AddrParser := {| parse_addr s := if is_empty s then None else Some (mkAddr [127; 0; 0; 1] DEFAULT_PORT) |}.

Definition env (name : rstring) : option rstring :=
  if bool_decide (name = lit "PICKLE_NAME") then Some (lit " Cellar ")
  else if bool_decide (name = lit "PICKLE_PASSWORD") then Some (lit "  ") else None.

Lemma defaults_well_formed : well_formed ServerConfig_default.
Proof. apply validate_spec. reflexivity. Qed.

Lemma an_accepted_config_builds_its_channels_witness :
  ch_id <$> build_channels ServerConfig_default = [1; 2; 3; 4] /\ well_formed ServerConfig_default.
Proof.
  split; [|exact defaults_well_formed].
  exact (proj1 (proj2 (an_accepted_config_builds_its_channels ServerConfig_default) defaults_well_formed)).
Defined.

Lemma the_environment_is_never_saved_witness :
  let p := config_load_or_create [lit "config.toml"] env in
  fst <$> run p empty_disk = Some (inr (set_cfg_name (lit "Cellar") ServerConfig_default)) /\
  ends (fun r d => match r with
    | inr _ => exists n, file_at d [lit "config.toml"] = Some n /\ in_data n = as_bytes (lit "Pickle Server")
    | inl _ => True
    end) p empty_disk.
Proof.
  split; [vm_compute; reflexivity|]. eapply ends_weaken.
  - eapply always_ends, (the_environment_is_never_saved env [lit "config.toml"] empty_disk). exact empty_settled.
  - intros [e | c] d [_ H]; [done|]. by destruct H as (_ & base & _ & _ & Hn).
Defined.

End Config_samples.
