(* ===== verification/Tls.v ===== *)
(** * The certificate a server runs with, and both ends' transport settings

    [crates/pickle-server/src/tls.rs] and [crates/pickle-client/src/tls.rs].  Making a
    self-signed certificate, and what the TLS library accepts, are parameters. *)

From S2P Require Export Keystore Voice.

Definition CERT_FILE : rstring := lit "cert.der".
Definition KEY_FILE : rstring := lit "key.der".
Definition ALPN : bytes := lit "pickle/2".

(** The chain is one certificate. *)
Record ServerTls : Type := mkTls { tls_chain : list bytes; tls_key : bytes; tls_cert_hash : bytes }.

Inductive TlsError : Type := TDirectory (source : IoErr) | TGenerate | TWriteCert (source : IoErr) | TWriteKey (source : IoErr).

(** [fs::read] *)
Definition read_file (p : Path) : io bytes := fallible (fun d =>
  match file_at d p with None => (inl NotFound, d) | Some n => (inr (in_data n), d) end).

(** [tls::write_private]: a file made here is the owner's alone. *)
Definition write_key {E} (f : IoErr -> E) (p : Path) (bs : bytes) : fprog E unit :=
  (h <-? attempt f (open_truncated 384 p);; attempt f (write_all h bs))%prog.

(** The two files, or both made anew when either cannot be read; [generated] is the certificate
    and key [rcgen] makes, or its failure. *)
Definition stored_or_made (dir : Path) (generated : option (bytes * bytes)) (cert key : IoErr + bytes)
    : fprog TlsError (bytes * bytes) :=
  match cert, key with
  | inr cert, inr key => ok (cert, key)
  | _, _ =>
      (_ <-? attempt TDirectory (create_dir_all dir);;
       match generated with
       | None => fail TGenerate
       | Some (cert, key) =>
           _ <-? fs_write TWriteCert (dir ++ [CERT_FILE]) cert;;
           _ <-? write_key TWriteKey (dir ++ [KEY_FILE]) key;;
           ok (cert, key)
       end)%prog
  end.

Definition tls_load_or_create {C : Crypto} (dir : Path) (generated : option (bytes * bytes)) : fprog TlsError ServerTls :=
  bind (call (read_file (dir ++ [CERT_FILE]))) (fun cert =>
  bind (call (read_file (dir ++ [KEY_FILE]))) (fun key =>
    try_bind (stored_or_made dir generated cert key) (fun '(cert, key) =>
      ok (mkTls [cert] key (sha256 cert))))).

(** ** Transport settings *)

Record TransportConfig : Type := mkTransport {
  max_idle_timeout : Z; keep_alive_interval : Z; datagram_receive_buffer_size : nat; datagram_send_buffer_size : nat }.

(** Seconds. *)
Definition MAX_IDLE_TIMEOUT : Z := 30.
Definition KEEP_ALIVE_INTERVAL : Z := 10.

Definition transport : TransportConfig :=
  mkTransport MAX_IDLE_TIMEOUT KEEP_ALIVE_INTERVAL (MAX_DATAGRAM_LEN * 256) (MAX_DATAGRAM_LEN * 256).

Record QuinnServer : Type := mkQuinnServer {
  qs_chain : list bytes; qs_key : bytes; qs_alpn : list bytes; qs_transport : TransportConfig }.

(** [accepts] is [with_single_cert]'s verdict on a chain and a key. *)
Definition quinn_server_config (accepts : list bytes -> bytes -> bool) (tls : ServerTls) : option QuinnServer :=
  if accepts (tls_chain tls) (tls_key tls) then Some (mkQuinnServer (tls_chain tls) (tls_key tls) [ALPN] transport) else None.

(** The client takes every certificate, and leaves the proof that the peer holds its key to the
    library: [proves cert message signature]. *)
Record ServerCertVerifier : Type := mkVerifier {
  verify_server_cert : bytes -> bool; verify_tls_signature : bytes -> bytes -> bytes -> bool }.

Definition IdentityPinnedVerifier (proves : bytes -> bytes -> bytes -> bool) : ServerCertVerifier :=
  mkVerifier (fun _ => true) proves.

Record QuinnClient : Type := mkQuinnClient {
  qc_verifier : ServerCertVerifier; qc_alpn : list bytes; qc_transport : TransportConfig }.

Definition quinn_client_config (proves : bytes -> bytes -> bytes -> bool) : QuinnClient :=
  mkQuinnClient (IdentityPinnedVerifier proves) [ALPN] transport.

(** ** Writing in place, as seen from the other files *)

(** No file has two names, and new files get new numbers. *)
Record named (d : Disk) : Prop := {
  nm_fresh : forall snap q i, snap ∈ dir d :: past d -> snap !! q = Some i -> i < next_inode d;
  nm_inj : forall q q' i, dir d !! q = Some i -> dir d !! q' = Some i -> q = q' }.

Lemma named_files_only : files_only named.
Proof. intros d d' (Ei & En & Ed & Ep) [Hf Hi]. by split; rewrite ?Ed, ?Ep, ?En. Qed.

Lemma settled_named d : settled d -> named d.
Proof.
  intros (Hp & Hf & Hi & _). split; [|done]. rewrite Hp. intros snap q i ->%list_elem_of_singleton. apply Hf.
Qed.

(** Every file the key's name ever led to is the owner's alone. *)
Definition private_at (p : Path) (d : Disk) : Prop :=
  forall snap i, snap ∈ dir d :: past d -> snap !! p = Some i -> exists n, inodes d !! i = Some n /\ in_mode n = 384.

Lemma private_files_only p : files_only (private_at p).
Proof. intros d d' (Ei & En & Ed & Ep) H. unfold private_at. by rewrite Ei, Ed, Ep. Qed.

Lemma named_open mode p d r d' :
  open_truncated mode p d = (r, d') -> named d ->
  named d' /\ (forall q, q <> p -> file_at d' q = file_at d q) /\
  (forall q, private_at q d -> q <> p \/ mode = 384 -> private_at q d') /\
  match r with inr h => emptied p h d' | inl _ => same_files d d' end.
Proof.
  intros Ho Hn. pose proof (open_empties _ _ _ _ _ Ho) as He.
  apply fallible_inv in Ho as [[-> Hs] | (d1 & Hs & H)].
  { split_and!; [by eapply named_files_only | intros; by apply file_at_same | intros q Hq _; by eapply private_files_only | done]. }
  pose proof (named_files_only _ _ Hs Hn) as Hn1. pose proof Hn1 as [Hf Hi].
  assert (Hq0 : forall q, private_at q d -> private_at q d1) by (intros q; by apply private_files_only).
  assert (Hfq : forall q, file_at d1 q = file_at d q) by (intros q; by apply file_at_same).
  destruct (dir d1 !! p) as [i|] eqn:Hd; [destruct (inodes d1 !! i) as [n|] eqn:Hin|]; cbv zeta in H; injection H as <- <-.
  - split_and!; [split; cbn; eauto | | | done].
    + intros q Hq. rewrite <- Hfq. unfold file_at. cbn. destruct (dir d1 !! q) as [j|] eqn:Hj; [|done]. cbn.
      rewrite lookup_insert_ne; [done|]. intros ->. apply Hq. by eapply Hi.
    + intros q Hq _ snap j Hsn Hj. destruct (Hq0 q Hq snap j Hsn Hj) as (m & Hm & Hmode). cbn.
      destruct (decide (j = i)) as [-> | Hne]; [|exists m; by rewrite lookup_insert_ne].
      rewrite lookup_insert_eq. eexists; split; [done|]. cbn. congruence.
  - split_and!; [done | done | auto | done].
  - assert (Hold : forall snap q j, snap ∈ dir d1 :: past d1 -> snap !! q = Some j -> j <> next_inode d1)
      by (intros snap q j Hsn Hj; specialize (Hf snap q j Hsn Hj); lia).
    split_and!; [split; cbn | | | done].
    + intros snap q j [-> | Hsn]%elem_of_cons Hj.
      * apply lookup_insert_Some in Hj as [[_ <-] | [_ Hj]]; [lia|]. specialize (Hf (dir d1) q j ltac:(left) Hj). lia.
      * specialize (Hf snap q j Hsn Hj). lia.
    + intros q q' j Hq Hq'. apply lookup_insert_Some in Hq as [[<- <-] | [_ Hq]], Hq' as [[<- E] | [_ Hq']]; try done.
      * exfalso. by apply (Hold (dir d1) q' (next_inode d1)); [left | |].
      * exfalso. subst j. by apply (Hold (dir d1) q (next_inode d1)); [left | |].
      * by eapply Hi.
    + intros q Hq. rewrite <- Hfq. unfold file_at. cbn. rewrite lookup_insert_ne by done.
      destruct (dir d1 !! q) as [j|] eqn:Hj; [|done]. cbn. rewrite lookup_insert_ne; [done|]. by apply not_eq_sym, (Hold (dir d1) q j); [left|].
    + intros q Hq Hm snap j Hsn Hj. cbn in *. apply elem_of_cons in Hsn as [-> | Hsn].
      * apply lookup_insert_Some in Hj as [[<- <-] | [Hne Hj]].
        -- rewrite lookup_insert_eq. destruct Hm; [done|]. by eexists.
        -- destruct (Hq0 q Hq (dir d1) j ltac:(left) Hj) as (m & ? & ?). exists m. rewrite lookup_insert_ne; [done|].
           by apply not_eq_sym, (Hold (dir d1) q j); [left|].
      * destruct (Hq0 q Hq snap j Hsn Hj) as (m & ? & ?). exists m. rewrite lookup_insert_ne; [done|]. by apply not_eq_sym, (Hold snap q j).
Qed.

Lemma named_append h bs p d :
  named d -> dir d !! p = Some h ->
  named (append h bs d) /\ (forall q, q <> p -> file_at (append h bs d) q = file_at d q) /\
  (forall q, private_at q d -> private_at q (append h bs d)).
Proof.
  intros [Hf Hi] Hp. unfold append. destruct (inodes d !! h) as [n|] eqn:Hn; [|done]. split_and!; [by split | |].
  - intros q Hq. unfold file_at. cbn. destruct (dir d !! q) as [j|] eqn:Hj; [|done]. cbn. rewrite lookup_insert_ne; [done|].
    intros ->. apply Hq. by eapply Hi.
  - intros q Hq snap j Hsn Hj. destruct (Hq snap j Hsn Hj) as (m & Hm & Hmode). cbn.
    destruct (decide (j = h)) as [-> | Hne]; [|exists m; by rewrite lookup_insert_ne].
    rewrite lookup_insert_eq. eexists; split; [done|]. cbn. congruence.
Qed.

Section Tls.
Context {C : Crypto}.

Lemma read_file_inv p d r d' : read_file p d = (r, d') -> same_files d d' /\
  match r with inr bs => exists n, file_at d p = Some n /\ in_data n = bs | inl _ => True end.
Proof.
  intros [[-> H] | (d1 & Hs & H)]%fallible_inv; [done|]. rewrite (file_at_same _ _ _ Hs) in H.
  destruct (file_at d p) as [n|]; injection H as <- <-; eauto.
Qed.

(** A disk on which the files of [K] are their owner's. *)
Definition keeps_private (K : Path -> Prop) (d : Disk) : Prop := named d /\ forall p, K p -> private_at p d.

Lemma keeps_files_only K : files_only (keeps_private K).
Proof. intros d d' Hs [? H]. split; [by eapply named_files_only|]. intros p Hp. by eapply private_files_only, H. Qed.

Lemma in_place_always {E} (f : IoErr -> E) mode p K bs d :
  (forall q, K q -> q <> p \/ mode = 384) -> keeps_private K d ->
  always (keeps_private K)
    (fun r d' => (forall q, q <> p -> file_at d' q = file_at d q) /\
       match r with inr _ => exists n, file_at d' p = Some n /\ in_data n = bs | inl _ => True end)
    ((h <-? attempt f (open_truncated mode p);; attempt f (write_all h bs))%prog) d.
Proof.
  intros Hp [Hn Hpr]. apply always_step; [done | |].
  - intros e d' (Hn' & Hq & Hpr' & _)%named_open; [|done]. split; [split; auto | done].
  - intros h d' Ho. destruct (named_open _ _ _ _ _ Ho Hn) as (Hn' & Hq & Hpr' & (Hd & m & Hm)).
    apply always_attempt; [split; auto | |]; intros r d2 H; unfold write_all in H; destruct (fate d') as [fault d3] eqn:Ef;
      (assert (E3 : d3 = (fate d').2) by (by rewrite Ef)); subst d3; pose proof (fate_same d') as Hs;
      pose proof (named_files_only _ _ Hs Hn') as Hn3; assert (Hd3 : dir (fate d').2 !! p = Some h) by done;
      (assert (Hp3 : forall q, K q -> private_at q (fate d').2) by (intros q HK; eapply private_files_only; [exact Hs | auto]));
      destruct fault as [k|]; try discriminate H; injection H as <- <-.
    + destruct (named_append h (take k bs) p _ Hn3 Hd3) as (? & Hq3 & Hpr3).
      split; [split; auto|]. split; [|done]. intros q Hne. rewrite Hq3, (file_at_same _ _ _ Hs) by done. auto.
    + destruct (named_append h bs p _ Hn3 Hd3) as (? & Hq3 & Hpr3).
      split; [split; auto|]. split; [intros q Hne; rewrite Hq3, (file_at_same _ _ _ Hs) by done; auto|].
      eexists. split; [by apply file_at_appended with (n := mkInode [] false m)|]. done.
Qed.

(** What the two files of a running server hold. *)
Definition tls_stored (dir : Path) (t : ServerTls) (d : Disk) : Prop :=
  exists cert c k, tls_chain t = [cert] /\ tls_cert_hash t = sha256 cert /\
    file_at d (dir ++ [CERT_FILE]) = Some c /\ in_data c = cert /\
    file_at d (dir ++ [KEY_FILE]) = Some k /\ in_data k = tls_key t.

Lemma cert_not_key dir : dir ++ [CERT_FILE] <> dir ++ [KEY_FILE].
Proof. intros H. by apply app_inv_head in H. Qed.

Lemma tls_always K dir generated d :
  (forall q, K q -> q <> dir ++ [CERT_FILE]) -> keeps_private K d ->
  always (keeps_private K)
    (fun r d' => match r with inr t => tls_stored dir t d' | inl _ => True end) (tls_load_or_create dir generated) d.
Proof.
  intros HK HJ. pose proof (cert_not_key dir) as Hck. set (key := dir ++ [KEY_FILE]) in *. unfold tls_load_or_create. fold key.
  cbn [bind call always]. split; [done|]. destruct (read_file (dir ++ [CERT_FILE]) d) as [rc d1] eqn:Ec.
  apply read_file_inv in Ec as [Hs1 Hc]. cbn [fst snd]. pose proof (keeps_files_only _ _ _ Hs1 HJ) as HJ1. split; [done|].
  destruct (read_file key d1) as [rk d2] eqn:Ek. apply read_file_inv in Ek as [Hs2 Hk]. cbn [fst snd].
  pose proof (keeps_files_only _ _ _ Hs2 HJ1) as HJ2.
  assert (Hmake : always (keeps_private K)
      (fun r d' => match r with inr (cert, k) => tls_stored dir (mkTls [cert] k (sha256 cert)) d' | inl _ => True end)
      (_ <-? attempt TDirectory (create_dir_all dir);;
       match generated with
       | None => fail TGenerate
       | Some (cert, k) => _ <-? fs_write TWriteCert (dir ++ [CERT_FILE]) cert;; _ <-? write_key TWriteKey key k;; ok (cert, k)
       end)%prog d2).
  { apply always_step; [done | |].
    - intros e d' H%create_dir_inv. split; [by eapply keeps_files_only | done].
    - intros _ d' H%create_dir_inv. pose proof (keeps_files_only _ _ _ H HJ2) as HJ'.
      destruct generated as [[cert k]|]; [|by apply always_fail].
      eapply always_try; [apply (in_place_always _ _ _ K); [intros q Hq; left; by apply HK | done] | done |].
      intros [] d3 [_ (c & Hfc & Hdc)] HJ3.
      eapply always_try; [apply (in_place_always _ _ _ K); [by right | done] | done |].
      intros [] d4 [Hsame (n & Hfk & Hdk)] HJ4. apply always_ok; [done|].
      exists cert, c, n. rewrite Hsame by done. done. }
  eapply (always_try (fun r d' => match r with inr (cert, k) => tls_stored dir (mkTls [cert] k (sha256 cert)) d' | inl _ => True end)).
  - unfold stored_or_made. destruct rc as [e | cert]; [exact Hmake|]. destruct rk as [e | k]; [exact Hmake|].
    apply always_ok; [done|]. destruct Hc as (c & Hfc & Hdc), Hk as (n & Hfk & Hdk). exists cert, c, n.
    rewrite !(file_at_same _ _ _ Hs2), (file_at_same _ _ _ Hs1). fold key. rewrite Hfk. done.
  - done.
  - intros [cert k] d' Hst HJ'. by apply always_ok.
Qed.

(** The next two operations of the disk do not fail. *)
Definition two_reads_work (d : Disk) : Prop := Forall (eq None) (take 2 (disk_faults d)).

(** What is stored is what the next start runs with, when it can be read. *)
Lemma tls_reads dir generated t d :
  tls_stored dir t d -> two_reads_work d ->
  exists d', run (tls_load_or_create dir generated) d = Some (inr t, d') /\ same_files d d'.
Proof.
  intros (cert & c & k & Hch & Hh & Hfc & Hdc & Hfk & Hdk) Hf. destruct d as [ino nx dr pa fs].
  assert (Hr : forall fs p n, file_at (mkDisk ino nx dr pa []) p = Some n -> Forall (eq None) (take 1 fs) ->
            read_file p (mkDisk ino nx dr pa fs) = (inr (in_data n), mkDisk ino nx dr pa (tail fs))).
  { intros fs0 p n Hn Hfs. unfold read_file, fallible, fate. cbn. unfold file_at in *. cbn in *.
    destruct fs0 as [|f fs0]; [|inversion Hfs; subst f]; cbn; by rewrite Hn. }
  exists (mkDisk ino nx dr pa (tail (tail fs))). split; [|done]. unfold tls_load_or_create. cbn [bind call run].
  unfold two_reads_work in Hf. cbn [disk_faults] in Hf.
  rewrite (Hr fs _ _ Hfc) by (destruct fs as [|f1 [|f2 fs]]; inversion Hf; repeat constructor; done). cbn [fst snd run].
  rewrite (Hr (tail fs) _ _ Hfk) by (destruct fs as [|f1 [|f2 fs]]; inversion Hf as [|? ? ? Hf2]; try inversion Hf2; repeat constructor; done).
  cbn. destruct t. cbn in *. by subst.
Qed.

(** File work that ends, one way or the other, and what comes after it. *)
Lemma attempt_ends {E X} (f : IoErr -> E) (op : io X) d : ends (fun _ _ => True) (attempt f op) d.
Proof. unfold attempt. apply ends_call. by destruct (op d).1. Qed.

Lemma ends_after {E X Y} (Q : E + Y -> Disk -> Prop) (p : fprog E X) (next : X -> fprog E Y) d :
  ends (fun _ _ => True) p d -> (forall e d', Q (inl e) d') -> (forall x d', ends Q (next x) d') -> ends Q (try_bind p next) d.
Proof. intros Hp He Hx. eapply ends_bind; [exact Hp|]. intros [e | x] d' _; [apply ends_ret, He | apply Hx]. Qed.

Lemma in_place_ends {E} (f : IoErr -> E) (op : io Z) bs d :
  ends (fun _ _ => True) (h <-? attempt f op;; attempt f (write_all h bs))%prog d.
Proof. apply ends_after; [apply attempt_ends | done | intros; apply attempt_ends]. Qed.

(** A start never pairs what it found with what it made: it runs with both files as they are, or
    with both as it makes them. *)
Lemma tls_never_mixes dir generated t d :
  tls_stored dir t d ->
  ends (fun r _ => match r with
      | inr t' => t' = t \/ exists cert key, generated = Some (cert, key) /\ t' = mkTls [cert] key (sha256 cert)
      | inl _ => True
      end) (tls_load_or_create dir generated) d.
Proof.
  intros (cert & c & k & Hch & Hh & Hfc & Hdc & Hfk & Hdk). unfold tls_load_or_create. apply ends_call.
  destruct (read_file (dir ++ [CERT_FILE]) d) as [rc d1] eqn:Ec. apply read_file_inv in Ec as [Hs1 Hc]. cbn [fst snd].
  apply ends_call. destruct (read_file (dir ++ [KEY_FILE]) d1) as [rk d2] eqn:Ek. apply read_file_inv in Ek as [_ Hk]. cbn [fst snd].
  set (Q := fun r : TlsError + bytes * bytes =>
    match r with inr (c', k') => (c' = cert /\ k' = tls_key t) \/ generated = Some (c', k') | inl _ => True end).
  apply (ends_bind (fun r _ => Q r)).
  - assert (Hmade : ends (fun r _ => Q r)
        (_ <-? attempt TDirectory (create_dir_all dir);;
         match generated with
         | None => fail TGenerate
         | Some (cert, key) => _ <-? fs_write TWriteCert (dir ++ [CERT_FILE]) cert;; _ <-? write_key TWriteKey (dir ++ [KEY_FILE]) key;; ok (cert, key)
         end)%prog d2).
    { apply ends_after; [apply attempt_ends | done |]. intros _ d3. destruct generated as [[c' k']|] eqn:Eg; [|done].
      apply ends_after; [apply in_place_ends | done |]. intros _ d4.
      apply ends_after; [apply in_place_ends | done |]. intros _ d5. by right. }
    unfold stored_or_made. destruct rc as [e | c0]; [exact Hmade|]. destruct rk as [e | k0]; [exact Hmade|].
    destruct Hc as (n & Hn & <-), Hk as (m & Hm & <-). rewrite (file_at_same _ _ _ Hs1) in Hm.
    apply ends_ret. left. split; congruence.
  - intros [e | [c' k']] d' HQ; [done|]. apply ends_ret. destruct HQ as [[-> ->] | Hg].
    + left. destruct t. cbn in *. congruence.
    + right. by exists c', k'.
Qed.

Lemma private_after p d d' n :
  private_at p d -> crashed d d' \/ d' = d -> file_at d' p = Some n -> in_mode n = 384.
Proof.
  intros Hp Hc Hn. unfold file_at in Hn. destruct (dir d' !! p) as [i|] eqn:Hi; [|done]. cbn in Hn.
  destruct Hc as [[Hd Hin] | ->].
  - destruct (Hp _ _ Hd Hi) as (m & Hm & Hmode). destruct (Hin i m Hm) as (m' & Hm' & Hmm & _). congruence.
  - destruct (Hp (dir d) i ltac:(left) Hi) as (m & Hm & Hmode). congruence.
Qed.

(** C17: A server keeps the certificate it was first started with, and its private key stays its
    owner's.  Whatever fails and wherever the power is lost while the pair is loaded or made,
    the key file is readable by its owner alone, if it was before or did not exist; when
    loading succeeds, the hash is that of the certificate handed to the endpoint and both files
    hold what was handed over.  At any later start that finds the two files as they were left,
    whatever else happened to the disk and whatever pair it would have generated: if it can
    read them, it comes up with the very same certificate, key and hash and changes no file;
    if it cannot read one of them (the code makes no difference between a file that is missing
    and one that fails to be read), it either fails or comes up with the pair it generated,
    certificate and key, and never with half of each. *)
Theorem a_certificate_is_made_once dir generated d :
  settled d ->
  (forall n, file_at d (dir ++ [KEY_FILE]) = Some n -> in_mode n = 384) ->
  always
    (fun d' => forall d2 n, crashed d' d2 \/ d2 = d' -> file_at d2 (dir ++ [KEY_FILE]) = Some n -> in_mode n = 384)
    (fun r d' => match r with
       | inr t => (exists cert, tls_chain t = [cert] /\ tls_cert_hash t = sha256 cert) /\
           forall later generated',
             file_at later (dir ++ [CERT_FILE]) = file_at d' (dir ++ [CERT_FILE]) ->
             file_at later (dir ++ [KEY_FILE]) = file_at d' (dir ++ [KEY_FILE]) ->
             (two_reads_work later ->
               exists d3, run (tls_load_or_create dir generated') later = Some (inr t, d3) /\ same_files later d3) /\
             ends (fun r' _ => match r' with
                 | inr t' => t' = t \/ exists cert key, generated' = Some (cert, key) /\ t' = mkTls [cert] key (sha256 cert)
                 | inl _ => True
                 end) (tls_load_or_create dir generated') later
       | inl _ => True
       end)
    (tls_load_or_create dir generated) d.
Proof.
  intros Hset Hkey. eapply always_weaken; [apply (tls_always (eq (dir ++ [KEY_FILE]))); [intros q <-; apply not_eq_sym, cert_not_key | split; [by apply settled_named | intros ? <-]] | |].
  - destruct Hset as (Hp & _ & _ & Hs). intros snap i. rewrite Hp. intros ->%list_elem_of_singleton Hi.
    destruct (Hs _ _ Hi) as (n & Hn & _). exists n. split; [done|]. apply Hkey. unfold file_at. by rewrite Hi.
  - intros d' [_ Hpr] d2 n. by apply private_after, Hpr.
  - intros [e | t] d' _; [done|]. intros Hst. split; [destruct Hst as (cert & ? & ? & ? & ? & _); eauto|].
    intros later generated' Hc Hk. assert (Hst' : tls_stored dir t later).
    { destruct Hst as (cert & c & k & ? & ? & ? & ? & ? & ?). exists cert, c, k. by rewrite Hc, Hk. }
    split; [intros Hf; by apply tls_reads | by apply tls_never_mixes].
Qed.
End Tls.

(** ** A first start *)

Module First_start.
#[local] Existing Instance Identity.Toy.crypto.

Definition dir : Path := [lit "srv"].
Definition pair : option (bytes * bytes) := Some ([48; 130; 1], [7; 7; 7; 7]).

(** The second start finds other files beside the two, and could have made another pair. *)
Definition made : Disk := default empty_disk (snd <$> run (tls_load_or_create dir pair) empty_disk).
Definition other_pair : option (bytes * bytes) := Some ([48; 130; 2], [9; 9; 9; 9]).
Definition crowded : Disk := default made (snd <$> run (fs_write TWriteCert (dir ++ [lit "server.toml"]) [35]) made).

Lemma a_certificate_is_made_once_witness :
  exists t d', run (tls_load_or_create dir pair) empty_disk = Some (inr t, d') /\ t = mkTls [[48; 130; 1]] [7; 7; 7; 7] (sha256 [48; 130; 1]) /\
    exists d3, run (tls_load_or_create dir other_pair) crowded = Some (inr t, d3) /\ same_files crowded d3.
Proof.
  assert (Hfirst : run (tls_load_or_create dir pair) empty_disk = Some (inr (mkTls [[48; 130; 1]] [7; 7; 7; 7] (sha256 [48; 130; 1])), made))
    by (vm_compute; reflexivity).
  eexists _, made. split; [exact Hfirst|]. split; [reflexivity|].
  assert (Hkey : forall n, file_at empty_disk (dir ++ [KEY_FILE]) = Some n -> in_mode n = 384) by (intros n H; discriminate H).
  pose proof (always_ends _ _ _ (a_certificate_is_made_once dir pair empty_disk empty_settled Hkey)) as H. unfold ends in H. rewrite Hfirst in H.
  destruct H as [_ [_ H]]. apply (H crowded other_pair); [vm_compute; reflexivity.. | vm_compute; repeat constructor].
Defined.

(** The same pair in place and its second read failing once: another certificate from then on. *)
Lemma a_read_that_fails_once_replaces_the_certificate :
  fst <$> run (tls_load_or_create dir other_pair) (set_disk_faults [None; Some 0%nat] made)
    = Some (inr (mkTls [[48; 130; 2]] [9; 9; 9; 9] (sha256 [48; 130; 2]))).
Proof. vm_compute. reflexivity. Qed.

(** A start whose key file runs out of space after two bytes fails; the next start, with
    nothing amiss, comes up with the two bytes as its key, and makes no new pair. *)
Definition short_of_space : Disk := set_disk_faults [None; None; None; None; None; None; Some 2%nat] empty_disk.

Lemma a_torn_key_is_kept :
  match run (tls_load_or_create dir pair) short_of_space with
  | Some (r, d) => r = inl (TWriteKey OtherErr) /\
      fst <$> run (tls_load_or_create dir (Some ([48; 130; 2], [9; 9; 9; 9]))) d
        = Some (inr (mkTls [[48; 130; 1]] [7; 7] (sha256 [48; 130; 1])))
  | None => False
  end.
Proof. vm_compute. split; reflexivity. Qed.
End First_start.
