(* ===== verification/Boot.v ===== *)
(** * Starting the server ([crates/pickle-server/src/lib.rs])

    [Server::bind]: the configuration is checked, the identity loaded or made, and the channels,
    roles, overwrites and grants are read from the database, which the configuration seeds when
    it is empty.  The endpoint and the opening of the database are parameters that succeed or
    fail.  Then the commands of the process ([main.rs]), and the accept loop with its end. *)

From S2P Require Export Config Keystore Tls.
From S2P Require Import Interleaving.

Inductive BootError : Type :=
| BConfig (e : ConfigError)
| BDataDir
| BIdentity (e : KeystoreError)
| BTls (e : TlsError)
| BTlsConfig
| BEndpoint
| BDatabase.

(** ** Reading the database *)

(** [channels.iter_mut().find(..)] and a push onto what it finds. *)
Fixpoint push_overwrite (id : ChannelId) (o : Overwrite) (channels : list Channel) : list Channel :=
  match channels with
  | [] => []
  | c :: rest =>
      if ch_id c =? id then set_overwrites (ch_overwrites c ++ [o]) c :: rest else c :: push_overwrite id o rest
  end.

Definition attach_overwrites (channels : list Channel) (overwrites : list (ChannelId * Overwrite)) : list Channel :=
  fold_left (fun channels e => push_overwrite e.1 e.2 channels) overwrites channels.

(** [members.entry(fingerprint).or_default().push(role)] *)
Definition push_grant (members : gmap Fingerprint (list RoleId)) (e : Fingerprint * RoleId) : gmap Fingerprint (list RoleId) :=
  <[e.1 := default [] (members !! e.1) ++ [e.2]]> members.

Definition collect_grants (grants : list (Fingerprint * RoleId)) : gmap Fingerprint (list RoleId) :=
  fold_left push_grant grants ∅.

Section Boot.
Context {C : Crypto} {O : SqlOrder}.

(** A table that is empty is seeded, and what was seeded is what the server starts with. *)
Definition seeded {A} (found seed : list A) (insert : A -> Sql unit) : Sql (list A) :=
  if is_empty found then sql_bind (sql_each seed insert) (fun _ => sql_ret seed) else sql_ret found.

(** The part of [bind] that talks to the database; [None] is an error of any query. [now] is the
    time of day. *)
Definition boot (cfg : ServerConfig) (ident : Identity) (cert : bytes) (now : Z) : Sql (Shared Database) :=
  sql_bind highest_message_id (fun highest =>
  sql_bind load_channels (fun found =>
  sql_bind (seeded found (build_channels cfg) insert_channel) (fun channels =>
  sql_bind load_roles (fun found =>
  sql_bind (seeded found default_roles insert_role) (fun roles =>
  sql_bind load_overwrites (fun overwrites =>
  sql_bind load_role_members (fun grants => fun d =>
    let perms := mkPerms roles (collect_grants grants) in
    let shared := new_shared cfg ident cert (attach_overwrites channels overwrites) perms now in
    let shared := match highest with Some highest => resume_message_ids_after shared highest | None => shared end in
    (Some (attach_store shared d), d)))))))).

Context {B : Base64} {J : Json StoredIdentity}.

(** The files and the database. *)
Definition World : Type := Disk * Database.

Definition on_disk {A} (p : prog Disk A) : prog World A := zoom fst (fun d w => (d, w.2)) p.

Definition on_database {A} (q : Sql A) : prog World (option A) :=
  call (fun w => let '(a, d) := q w.2 in (a, (w.1, d))).

Definition IDENTITY_FILE : rstring := lit "identity.json".

(** What a start draws from its surroundings: the key and the certificate a first run makes, the
    TLS library's verdict on a certificate and its key, whether the port and the database can be
    had, and the time of day. *)
Record Surroundings : Type := mkSurroundings {
  su_identity : Identity; su_certificate : option (bytes * bytes); su_accepts : list bytes -> bytes -> bool;
  su_endpoint : bool; su_opened : bool; su_now : Z }.

Definition server_bind (cfg : ServerConfig) (data_dir : Path) (su : Surroundings) : prog World (BootError + Shared Database) :=
  match validate cfg with
  | inl e => Ret (inl (BConfig e))
  | inr _ =>
      bind (on_disk (attempt (fun _ => BDataDir) (create_dir_all data_dir))) (fun made =>
        match made with
        | inl e => Ret (inl e)
        | inr _ =>
            bind (on_disk (load_or_create (data_dir ++ [IDENTITY_FILE]) (cfg_name cfg) (su_identity su))) (fun loaded =>
            match loaded with
            | inl e => Ret (inl (BIdentity e))
            | inr loaded =>
                bind (on_disk (tls_load_or_create data_dir (su_certificate su))) (fun tls =>
                match tls with
                | inl e => Ret (inl (BTls e))
                | inr tls =>
                    match quinn_server_config (su_accepts su) tls with
                    | None => Ret (inl BTlsConfig)
                    | Some _ =>
                        if negb (su_endpoint su) then Ret (inl BEndpoint)
                        else if negb (su_opened su) then Ret (inl BDatabase)
                        else bind (on_database (boot cfg (li_identity loaded) (tls_cert_hash tls) (su_now su))) (fun shared =>
                          match shared with
                          | None => Ret (inl BDatabase)
                          | Some shared => Ret (inr shared)
                          end)
                    end
                end)
            end)
        end)
  end.

(** ** What the tables say *)

(** The channels and the permission state a table set stands for. *)
Definition channels_of (t : Tables) : list Channel :=
  attach_overwrites (map row_to_channel (order_asc cr_sort_order (order_asc cr_id (scan (t_channels t)))))
    (omap row_to_overwrite (scan (t_overwrites t))).

Definition perms_of (t : Tables) : PermState :=
  mkPerms (map row_to_role (order_asc rr_position (scan (t_roles t))))
    (collect_grants (omap (fun r => (fun fp => (fp, wrap 32 (gr_role_id r))) <$> parse_fp (gr_fingerprint r))
                       (scan (t_members t)))).

(** The state [boot] makes of tables that have been seeded. *)
Definition booted (cfg : ServerConfig) (ident : Identity) (cert : bytes) (now : Z) (d : Database) : Shared Database :=
  let shared := new_shared cfg ident cert (channels_of (tables d)) (perms_of (tables d)) now in
  attach_store match wrap 64 <$> max_id (t_messages (tables d)) with
    | Some highest => resume_message_ids_after shared highest
    | None => shared
    end d.

(** A query that is not failed. *)
Lemma query_runs {A} (f : Tables -> A) t : query f (mkDb t []) = (Some (f t), mkDb t []).
Proof. done. Qed.

Context {OL : SqlOrderLaws O}.

Lemma map_scan_nonempty {A X} (f : A -> X) (key key' : A -> Z) rows :
  rows <> [] -> is_empty (map f (order_asc key (order_asc key' (scan rows)))) = false.
Proof.
  intros H. apply is_empty_false. intros E. apply H. apply Permutation_nil.
  rewrite <- (scan_perm _ rows), <- (sort_by_key_perm key' (scan rows)), <- (sort_by_key_perm key (sort_by_key key' (scan rows))).
  unfold order_asc in E. by destruct (sort_by_key key _).
Qed.

Lemma boot_loads cfg ident cert now t :
  t_channels t <> [] -> t_roles t <> [] ->
  boot cfg ident cert now (mkDb t []) = (Some (booted cfg ident cert now (mkDb t [])), mkDb t []).
Proof.
  intros Hc Hr. unfold boot, booted, seeded, load_channels, load_roles, highest_message_id, load_overwrites, load_role_members.
  unfold sql_bind at 1. rewrite query_runs. unfold sql_bind at 1. rewrite query_runs. rewrite map_scan_nonempty by done.
  unfold sql_bind at 1, sql_ret at 1. unfold sql_bind at 1. rewrite query_runs.
  assert (is_empty (map row_to_role (order_asc rr_position (scan (t_roles t)))) = false) as ->.
  { apply is_empty_false. intros E. apply Hr, Permutation_nil.
    rewrite <- (scan_perm _ (t_roles t)), <- (sort_by_key_perm rr_position (scan (t_roles t))).
    unfold order_asc in E. by destruct (sort_by_key rr_position _). }
  unfold sql_bind at 1, sql_ret at 1. unfold sql_bind at 1. rewrite query_runs. unfold sql_bind at 1. rewrite query_runs.
  done.
Qed.


(** ** The commands ([crates/pickle-server/src/main.rs]) *)

Definition CONFIG_FILE : rstring := lit "server.toml".

Inductive Command : Type := Run (bind : option SocketAddr) (name : option rstring) | ShowIdentity | Init.

Record Cli : Type := mkCli { cli_data_dir : option Path; cli_command : option Command }.

Inductive MainError : Type := MConfig (e : ConfigError) | MIdentity (e : KeystoreError) | MServer (e : BootError).

Inductive Outcome : Type := Wrote (config : ServerConfig) | Printed (fingerprint : Fingerprint) | Serves (shared : Shared Database).

(** [offered] is the directory the platform suggests. *)
Definition default_data_dir (offered : option Path) : Path := default [lit "."; lit "pickle-data"] offered.

Definition overridden (bind : option SocketAddr) (name : option rstring) (config : ServerConfig) : ServerConfig :=
  let config := match bind with Some b => set_cfg_bind b config | None => config end in
  match name with Some n => set_cfg_name n config | None => config end.

Context {T : Toml} {A : AddrParser}.

Definition server_main (cli : Cli) (offered : option Path) (env : rstring -> option rstring) (su : Surroundings)
    : prog World (MainError + Outcome) :=
  let data_dir := default (default_data_dir offered) (cli_data_dir cli) in
  let config_path := data_dir ++ [CONFIG_FILE] in
  match default (Run None None) (cli_command cli) with
  | Init =>
      bind (on_disk (config_load_or_create config_path env)) (fun r =>
        match r with inl e => Ret (inl (MConfig e)) | inr config => Ret (inr (Wrote config)) end)
  | ShowIdentity =>
      bind (on_disk (load_or_create (data_dir ++ [IDENTITY_FILE]) (lit "Pickle Server") (su_identity su))) (fun r =>
        match r with
        | inl e => Ret (inl (MIdentity e))
        | inr loaded => Ret (inr (Printed (identity_fingerprint (li_identity loaded))))
        end)
  | Run address name =>
      bind (on_disk (config_load_or_create config_path env)) (fun r =>
        match r with
        | inl e => Ret (inl (MConfig e))
        | inr config =>
            bind (server_bind (overridden address name config) data_dir su) (fun r =>
              match r with inl e => Ret (inl (MServer e)) | inr shared => Ret (inr (Serves shared)) end)
        end)
  end.

End Boot.

(** ** Running, until told to stop *)

Section Serving.
Context {C : Crypto} {HO : HashOrder} {L : HashOrderLaws HO} {U : UnicodeTables}.
Context {DB : Type} {ST : StoreApi DB}.
Implicit Types s : Shared DB.

(** Accepting, until the shutdown resolves or the endpoint is closed underneath; the tasks go on
    until the process ends. *)
Inductive Phase : Type := Accepting | Stopped.

(** What a task may start of its own: everything but a connection. *)
Inductive session_task : prog (Shared DB) unit -> Prop :=
| task_datagram client_id datagram : session_task (datagram_received client_id datagram)
| task_writer client_id : session_task (_frame <- call (fun s => take_frame s client_id);; Ret tt)
| task_writer_gone client_id : session_task (update (fun s => drop_receiver s client_id))
| task_clock t : session_task (update (set_clock t)).

(** [run_until]: accepting spawns [serve], stopping tells every session. *)
Inductive run_until : Phase * list (prog (Shared DB) unit) * Shared DB -> Phase * list (prog (Shared DB) unit) * Shared DB -> Prop :=
| run_accepts tasks s p frames :
    run_until (Accepting, tasks, s) (Accepting, tasks ++ [(_code <- serve p frames;; Ret tt)], s)
| run_task phase tasks s tasks' s' :
    pstep session_task (tasks, s) (tasks', s') -> run_until (phase, tasks, s) (phase, tasks', s')
| run_stops tasks s : run_until (Accepting, tasks, s) (Stopped, tasks, disconnect_all s ServerShutdown).

Definition run_within (c c' : Phase * list (prog (Shared DB) unit) * Shared DB) : Prop :=
  roles_have_room c.2 /\ run_until c c'.

Lemma session_task_thread p : session_task p -> server_thread p.
Proof. intros [ | | | ]; constructor. Qed.

Lemma disconnect_all_talks s reason : talks s (disconnect_all s reason).
Proof.
  split; [done|]. intros id e' He'. unfold disconnect_all in He'. cbn in He'. rewrite map_lookup_imap in He'.
  destruct (the_clients s !! id) as [e|] eqn:He; [|done]. injection He' as <-.
  destruct (push_best_effort_extended (SUserLeft id reason) e) as (new & Hx & _). exists e, new. split_and!; [done | done |].
  by apply Forall_forall.
Qed.

(** From the first connection to the last, and through the shutdown, the state is well formed;
    once stopped, no connection is accepted. *)
Theorem a_run_keeps_the_invariant s0 phase tasks s :
  server_inv s0 -> rtc run_within (Accepting, [], s0) (phase, tasks, s) -> server_inv s.
Proof.
  intros H0 Hrun. enough (H : forall c c', rtc run_within c c' ->
    server_inv c.2 /\ Forall (safe roles_have_room server_inv (fun _ => True)) c.1.2 ->
    server_inv c'.2 /\ Forall (safe roles_have_room server_inv (fun _ => True)) c'.1.2).
  { destruct (H _ _ Hrun) as [? _]; [by split; [|constructor] | done]. }
  clear Hrun phase tasks s. intros c c'. induction 1 as [|c c1 c2 [HP Hstep] _ IH]; [done|]. intros [Hs Hl]. apply IH. clear IH.
  destruct Hstep as [tasks s p frames | phase tasks s tasks' s' Hp | tasks s]; cbn [fst snd] in *.
  - split; [done|]. apply Forall_app. split; [done|]. apply Forall_singleton, safe_server_thread, thread_serve.
  - apply (pstep_safe roles_have_room server_inv session_task (tasks, s) (tasks', s')); [| done | done].
    intros p Ht. by apply safe_server_thread, session_task_thread.
  - split; [|done]. eapply inv_talks; [done | apply disconnect_all_talks].
Qed.

(** At the shutdown every session that can still be told is told, last of all, that it was the
    server that ended it; the others are left as they are, and nothing else changes. *)
Theorem a_shutdown_tells_every_session s client e :
  the_clients s !! client = Some e ->
  only_clients s (disconnect_all s ServerShutdown) /\
  exists e', the_clients (disconnect_all s ServerShutdown) !! client = Some e' /\ cc_info e' = cc_info e /\
    q_frames (cc_control e') = q_frames (cc_control e) ++
      (if q_closed (cc_control e) || (CONTROL_QUEUE_DEPTH <=? length (q_frames (cc_control e)))%nat then []
       else [SUserLeft client ServerShutdown]).
Proof.
  intros He. split; [apply disconnect_all_talks|]. eexists. split.
  - unfold disconnect_all. cbn. rewrite map_lookup_imap, He. reflexivity.
  - unfold push_best_effort, try_queue, try_send. destruct (q_closed (cc_control e)); cbn [orb fst]; [by rewrite app_nil_r|].
    destruct (_ <=? _)%nat; cbn [fst]; [by rewrite app_nil_r | done].
Qed.
End Serving.
(** ** The identity that is printed is the one that is served *)

Section Printed.
Context {C : Crypto} {O : SqlOrder} {B : Base64} {J : Json StoredIdentity}.
Context {BL : Base64Laws B} {JL : JsonLaws StoredIdentity J}.
Context {T : Toml} {A : AddrParser}.

Lemma ends_on_disk {X} (Q : X -> Disk -> Prop) (p : prog Disk X) (w : World) :
  ends Q p w.1 -> ends (fun a w' => Q a w'.1) (on_disk p) w.
Proof.
  unfold ends, on_disk. rewrite run_zoom; [|done | by intros [] | done]. by destruct (run p w.1) as [[a d]|].
Qed.

(** Nothing but the configuration's own file changes while it is loaded. *)
Lemma config_frame path env d :
  named d ->
  ends (fun _ d' => named d' /\ forall q, q <> path -> file_at d' q = file_at d q) (config_load_or_create path env) d.
Proof.
  intros Hn. set (Q := fun (d0 : Disk) d' => forall q, q <> path -> file_at d' q = file_at d0 q).
  assert (Hsame : forall d0 d1 d2, same_files d0 d1 -> Q d1 d2 -> Q d0 d2)
    by (intros d0 d1 d2 Hs H q Hq; rewrite (H q Hq); by apply file_at_same).
  assert (Hw : forall d0, named d0 -> always named (fun _ d' => Q d0 d') (config_save path ServerConfig_default) d0).
  { intros d0 H0. unfold config_save. eapply always_try; [apply ensure_parent_files; [apply named_files_only | done] | |].
    - intros e d1 Hs _ q _. by apply file_at_same.
    - intros [] d1 Hs H1. eapply always_weaken; [apply (in_place_always (CIo path) 420 path (fun _ => False)); [done | by split] | by intros ? [] |].
      intros r d2 _ [Hq _]. by eapply Hsame. }
  apply (always_ends (J := named) (fun _ d' => Q d d')). unfold config_load_or_create.
  apply (always_bind (fun _ d' => same_files d d')).
  - unfold config_load. apply always_step; [done | |].
    + intros e d' [Hs _]%read_to_string_inv. split; [by eapply named_files_only | done].
    + intros raw d' [Hs _]%read_to_string_inv. pose proof (named_files_only _ _ Hs Hn). repeat case_match; done.
  - intros r d1 Hs H1. eapply (always_try (fun _ d' => Q d1 d')).
    + destruct r as [[? []| | |] | config]; try by apply always_ok. 2-6: (split; [done | by intros q _]).
      eapply always_try; [by apply Hw | done | by intros].
    + intros e d2 H _. by eapply Hsame.
    + intros config d2 H H2. repeat case_match; (split; [done | by eapply Hsame]).
Qed.

Lemma key_file_stored path nickname generated d :
  settled d -> with_extension (lit "tmp") path <> path ->
  length (signing generated) = 32%nat -> Forall is_byte (signing generated) ->
  ends (fun r d' => named d' /\ match r with
     | inr loaded => exists n, file_at d' path = Some n /\ parse_identity path (in_data n) = inr loaded
     | inl _ => True
     end) (load_or_create path nickname generated) d.
Proof.
  intros Hset Hne Hlen Hbytes.
  assert (Hg : guarded path (fun _ => True) d) by by apply settled_guarded.
  assert (Hn : forall G d', guarded path G d' -> named d') by (intros G d' [? ? ? ?]; by split).
  apply (always_ends (J := named)). unfold load_or_create. eapply always_bind.
  - eapply always_weaken; [apply (keystore_load_always (guarded path (fun _ => True))); [apply guarded_files_only | done] | apply Hn |].
    intros r d' Hg' H. exact (conj Hg' H).
  - intros r d1 (Hg1 & Hs & Hr) H1. destruct r as [[? []| | | |] | loaded]; try by apply always_fail.
    2:{ apply always_ok; [done|]. destruct Hr as (n & Hf & Hp & _). exists n. by rewrite (file_at_same _ _ _ Hs). }
    eapply always_try; [| done |].
    + eapply always_weaken; [apply (keystore_save_always path (fun _ => True)); done | apply Hn | by intros ? ? _ H; exact H].
    + intros [] d2 (m & Hm) H2. apply always_ok; [done|]. eexists. split; [done|]. by apply parse_saved.
Qed.

Lemma key_file_found path nickname generated d n loaded :
  named d -> file_at d path = Some n -> parse_identity path (in_data n) = inr loaded ->
  ends (fun r d' => match r with inr found => found = loaded /\ named d' | inl _ => True end) (load_or_create path nickname generated) d.
Proof.
  intros Hn Hf Hp. unfold load_or_create. eapply ends_bind.
  - eapply always_ends, (keystore_load_always named); [apply named_files_only | done].
  - intros r d1 (H1 & _ & Hr). destruct r as [[? []| | | |] | found]; try done; [congruence|].
    destruct Hr as (n' & Hn' & Hp' & _). cbn. split; [congruence | done].
Qed.

Lemma boot_identity cfg ident cert now d s d' : boot cfg ident cert now d = (Some s, d') -> identity s = ident.
Proof.
  unfold boot, sql_bind. intros H. repeat (case_match; simplify_eq; try done).
Qed.

Lemma bound_identity cfg dir su n loaded (w : World) :
  named w.1 -> file_at w.1 (dir ++ [IDENTITY_FILE]) = Some n ->
  parse_identity (dir ++ [IDENTITY_FILE]) (in_data n) = inr loaded ->
  ends (fun r _ => match r with inr shared => identity shared = li_identity loaded | inl _ => True end) (server_bind cfg dir su) w.
Proof.
  intros Hn Hf Hp. unfold server_bind. destruct (validate cfg) as [e | []]; [by apply ends_ret|].
  eapply ends_bind.
  { apply (ends_on_disk (fun _ d' => same_files w.1 d')). unfold ends, attempt, call. cbn [bind run].
    destruct (create_dir_all dir w.1) as [[e|[]] d'] eqn:E; cbn [run ok fail]; exact (create_dir_inv _ _ _ _ E). }
  intros [e | []] w1 Hs1; [by apply ends_ret|]. eapply ends_bind.
  { apply (ends_on_disk (fun r d' => match r with inr found => found = loaded /\ named d' | inl _ => True end)).
    eapply key_file_found; [by eapply named_files_only | by rewrite (file_at_same _ _ _ Hs1) | done]. }
  intros [e | found] w2 Hfound; [by apply ends_ret|]. destruct Hfound as [-> Hn2].
  eapply (ends_bind (fun _ _ => True)).
  { apply (ends_on_disk (fun _ _ => True)). eapply ends_weaken; [|done].
    eapply always_ends, (tls_always (fun _ => False)); [done | by split]. }
  intros [e | tls] w3 _; [by apply ends_ret|]. destruct (quinn_server_config _ _); [|by apply ends_ret].
  destruct (negb _); [by apply ends_ret|]. destruct (negb _); [by apply ends_ret|].
  unfold on_database. apply ends_call. destruct (boot _ _ _ _ w3.2) as [[shared|] d'] eqn:E; apply ends_ret; [|done].
  by eapply boot_identity.
Qed.

Lemma temporary_key_file dir : with_extension (lit "tmp") (dir ++ [IDENTITY_FILE]) <> dir ++ [IDENTITY_FILE].
Proof.
  unfold with_extension. rewrite last_snoc, length_app. cbn [length]. rewrite Nat.add_sub, take_app_length.
  intros H. by apply app_inv_head in H.
Qed.

(** C16: The fingerprint an operator is shown is the one clients will pin.  When the command that
    prints the identity prints one, then every later start of the server from the same
    directory that finds the key's file as it was left, on a disk where no file has two names,
    under any address, name and environment, whatever configuration, certificate and database
    it finds by then and whatever other key or certificate it could have made, either fails or
    serves under exactly that identity; this holds also when the printing made the key in the
    first place. *)
Theorem the_printed_identity_is_served dir offered env su (w : World) :
  settled w.1 -> length (signing (su_identity su)) = 32%nat -> Forall is_byte (signing (su_identity su)) ->
  ends (fun r w' => match r with
      | inr (Printed fp) => forall later address name env' su',
          named later.1 -> file_at later.1 (dir ++ [IDENTITY_FILE]) = file_at w'.1 (dir ++ [IDENTITY_FILE]) ->
          ends (fun r _ => match r with
              | inr (Serves shared) => identity_fingerprint (identity shared) = fp
              | inr _ => False
              | inl _ => True
              end) (server_main (mkCli (Some dir) (Some (Run address name))) offered env' su') later
      | inr _ => False
      | inl _ => True
      end) (server_main (mkCli (Some dir) (Some ShowIdentity)) offered env su) w.
Proof.
  intros Hset Hlen Hbytes. unfold server_main. cbn [cli_command cli_data_dir default from_option id].
  eapply ends_bind; [eapply ends_on_disk, key_file_stored; [done | apply temporary_key_file | done | done]|].
  intros [e | loaded] w1 [Hn Hl]; apply ends_ret; [done|]. destruct Hl as (n & Hf & Hp).
  intros later address name env' su' Hnl Hs. rewrite <- Hs in Hf.
  eapply ends_bind; [by apply ends_on_disk, config_frame|]. intros [e | config] w2 [Hn2 Hq]; [by apply ends_ret|].
  rewrite <- (Hq (dir ++ [IDENTITY_FILE])) in Hf by (intros H; by apply app_inv_head in H).
  eapply ends_bind; [by eapply bound_identity|]. intros [e | shared] w3 H; apply ends_ret; [done|]. by rewrite H.
Qed.
End Printed.

(** ** A server that was asked for its identity before it was first run *)

From S2P Require Import Migration.

Module Sample_server.
Import Toy ToySeal Config_samples RowOrder Sample_files.

Definition dir : Path := [lit "srv"].
Definition no_env (_ : rstring) : option rstring := None.
Definition su (ident : Identity) : Surroundings := mkSurroundings ident (Some ([48], [49])) (fun _ _ => true) true true 1000.
Definition blank : World := (empty_disk, mkDb empty_tables []).

(** The operator writes a configuration of their own in between. *)
Definition edited (w : World) : World :=
  match run (on_disk (config_save (dir ++ [CONFIG_FILE]) (set_cfg_name (lit "Attic") ServerConfig_default))) w with
  | Some (_, w) => w
  | None => w
  end.

(** The fingerprint that is printed, and the one that is served afterwards. *)
Definition printed_then_served : option (Fingerprint * Fingerprint) :=
  match run (server_main (mkCli (Some dir) (Some ShowIdentity)) None no_env (su ident_a)) blank with
  | Some (inr (Printed fp), w) =>
      match run (server_main (mkCli (Some dir) (Some (Run None (Some (lit "Cellar"))))) None no_env (su ident_b)) (edited w) with
      | Some (inr (Serves shared), _) => Some (fp, identity_fingerprint (identity shared))
      | _ => None
      end
  | _ => None
  end.

Lemma the_printed_identity_is_served_witness :
  printed_then_served = Some (identity_fingerprint ident_a, identity_fingerprint ident_a) /\
  ends (fun r w' => match r with
      | inr (Printed fp) => forall later address name env' su',
          named later.1 -> file_at later.1 (dir ++ [IDENTITY_FILE]) = file_at w'.1 (dir ++ [IDENTITY_FILE]) ->
          ends (fun r _ => match r with
              | inr (Serves shared) => identity_fingerprint (identity shared) = fp
              | inr _ => False
              | inl _ => True
              end) (server_main (mkCli (Some dir) (Some (Run address name))) None env' su') later
      | inr _ => False
      | inl _ => True
      end) (server_main (mkCli (Some dir) (Some ShowIdentity)) None no_env (su ident_a)) blank.
Proof.
  split; [vm_compute; reflexivity|]. apply (the_printed_identity_is_served dir None no_env (su ident_a) blank).
  - exact empty_settled.
  - reflexivity.
  - cbn. repeat (apply Forall_cons; split; [unfold is_byte; lia|]). apply Forall_nil_2.
Defined.
End Sample_server.
