(* ===== verification/Mirrored.v ===== *)
(** * Memory and tables

    What it means that the database holds what the server's memory holds, and that a server
    started on such a database starts with that memory. *)

From S2P Require Export Boot RoleTable Invariant.

(** ** Loading *)

Lemma collect_grants_lookup g fp :
  default [] (collect_grants g !! fp) = snd <$> retain (fun e => bool_decide (e.1 = fp)) g.
Proof.
  unfold collect_grants. enough (H : forall m, default [] (fold_left push_grant g m !! fp) =
    default [] (m !! fp) ++ (snd <$> retain (fun e => bool_decide (e.1 = fp)) g)) by (rewrite H; by rewrite lookup_empty).
  induction g as [|[f r] g IH]; intros m; cbn [fold_left]; [by rewrite app_nil_r|].
  rewrite IH, retain_cons. unfold push_grant. cbn [fst snd]. case_bool_decide as E.
  - subst f. rewrite lookup_insert_eq, fmap_cons. simpl. by rewrite <- app_assoc.
  - by rewrite lookup_insert_ne by done.
Qed.

Lemma push_overwrite_map id o cs :
  NoDup (map ch_id cs) ->
  push_overwrite id o cs = map (fun c => if ch_id c =? id then set_overwrites (ch_overwrites c ++ [o]) c else c) cs.
Proof.
  induction cs as [|c cs IH]; intros Hn; [done|]. cbn in *. apply NoDup_cons in Hn as [Hni Hn].
  destruct (Z.eqb_spec (ch_id c) id) as [<- | Hne]; [|by rewrite IH].
  f_equal. rewrite map_ext_in with (g := id); [by rewrite map_id|]. intros c' Hin.
  destruct (Z.eqb_spec (ch_id c') (ch_id c)) as [E|]; [|done]. exfalso. apply Hni. rewrite <- E.
  apply (list_elem_of_fmap_2 ch_id). by apply list_elem_of_In.
Qed.

(** The overwrites of one channel among all. *)
Definition overwrites_for (id : ChannelId) (ows : list (ChannelId * Overwrite)) : list Overwrite :=
  snd <$> retain (fun e => e.1 =? id) ows.

Lemma attach_overwrites_map cs ows :
  NoDup (map ch_id cs) ->
  attach_overwrites cs ows = map (fun c => set_overwrites (ch_overwrites c ++ overwrites_for (ch_id c) ows) c) cs.
Proof.
  unfold attach_overwrites. revert cs; induction ows as [|[id o] ows IH]; intros cs Hn; cbn [fold_left].
  - symmetry. rewrite map_ext with (g := id); [apply map_id|]. intros c. cbn. rewrite app_nil_r. by destruct c.
  - cbn [fst snd]. rewrite push_overwrite_map by done. rewrite IH.
    + rewrite map_map. apply map_ext. intros c. unfold overwrites_for. rewrite retain_cons. cbn [fst].
      rewrite (Z.eqb_sym id (ch_id c)). destruct (Z.eqb_spec (ch_id c) id) as [E|]; [|done].
      rewrite fmap_cons. simpl. by rewrite <- app_assoc.
    + rewrite map_map. rewrite map_ext with (g := ch_id); [done|]. intros c. by destruct (ch_id c =? id).
Qed.

Lemma fold_insert_lookup (cs : list Channel) id c :
  NoDup (map ch_id cs) ->
  (fold_left (fun m c => <[ch_id c := c]> m) cs (∅ : gmap ChannelId Channel)) !! id = Some c <-> c ∈ cs /\ ch_id c = id.
Proof.
  intros Hn. enough (H : forall m : gmap ChannelId Channel,
    (fold_left (fun m c => <[ch_id c := c]> m) cs m) !! id = Some c <->
    (c ∈ cs /\ ch_id c = id) \/ ((id ∉ map ch_id cs) /\ m !! id = Some c)).
  { rewrite H, lookup_empty. split; [by intros [Hl | [_ Hr]] | by left]. }
  induction cs as [|d cs IH]; intros m; cbn [fold_left map].
  { split; [intros H; right; split; [apply not_elem_of_nil | done] | intros [[[]%not_elem_of_nil _] | [_ H]]; done]. }
  cbn in Hn. apply NoDup_cons in Hn as [Hni Hn]. rewrite (IH Hn), elem_of_cons, not_elem_of_cons.
  destruct (decide (id = ch_id d)) as [->|Hne].
  - rewrite lookup_insert_eq. split.
    + intros [[Hin Hid] | [_ [= <-]]]; [left; auto | left; auto].
    + intros [[[-> | Hin] Hid] | [[Hx _] _]]; [right; auto | left; auto | done].
  - rewrite lookup_insert_ne by done. split.
    + intros [[Hin Hid] | [Hx Hm]]; [left; auto | right; auto].
    + intros [[[-> | Hin] Hid] | [[_ Hx] Hm]]; [done | left; auto | right; auto].
Qed.

(** ** The relation *)

Section Mirrored.
Context {C : Crypto} {CL : CryptoLaws C} {O : SqlOrder} {OL : SqlOrderLaws O}.

Definition overwrite_row (id : ChannelId) (o : Overwrite) : OverwriteRow :=
  mkOverwriteRow id (overwrite_key (ow_target o)).1 (overwrite_key (ow_target o)).2 (i64 (ow_allow o)) (i64 (ow_deny o)).

Definition rows_of_member (fp : Fingerprint) (rows : list MemberRow) : list MemberRow :=
  retain (fun r => bool_decide (gr_fingerprint r = fp_to_string fp)) rows.
Definition rows_of_channel (id : ChannelId) (rows : list ChannelRow) : list ChannelRow :=
  retain (fun r => cr_id r =? id) rows.
Definition overwrite_rows_of (id : ChannelId) (rows : list OverwriteRow) : list OverwriteRow :=
  retain (fun r => or_channel r =? id) rows.

(** The tables hold what memory holds: the roles, each member's grants, each channel and its
    overwrites, and nothing else. *)
Record mirrors (t : Tables) (p : PermState) (chans : gmap ChannelId Channel) : Prop := {
  mi_roles : t_roles t ≡ₚ map role_row (ps_roles p);
  mi_members fp : wf_fp fp -> map gr_role_id (rows_of_member fp (t_members t)) ≡ₚ default [] (ps_members p !! fp);
  mi_member_rows r : r ∈ t_members t -> exists fp, wf_fp fp /\ gr_fingerprint r = fp_to_string fp;
  mi_channels id : rows_of_channel id (t_channels t) = match chans !! id with Some c => [channel_row c] | None => [] end;
  mi_overwrites id : overwrite_rows_of id (t_overwrites t) ≡ₚ
    match chans !! id with Some c => map (overwrite_row id) (ch_overwrites c) | None => [] end }.

(** Memory whose integers have the widths the source gives them. *)
Record fitted (p : PermState) (chans : gmap ChannelId Channel) : Prop := {
  fi_roles r : r ∈ ps_roles p -> role_fits r;
  fi_channels id c : chans !! id = Some c -> ch_id c = id /\ channel_fits c;
  fi_overwrites id c o : chans !! id = Some c -> o ∈ ch_overwrites c -> overwrite_fits o }.

(** Two memories that differ at most in the order of a member's roles and of a channel's
    overwrites, on which nothing depends. *)
Definition same_channel (c c' : Channel) : Prop :=
  set_overwrites [] c = set_overwrites [] c' /\ ch_overwrites c ≡ₚ ch_overwrites c'.

Record agree (p : PermState) (chans : gmap ChannelId Channel) (p' : PermState) (chans' : gmap ChannelId Channel) : Prop := {
  ag_roles : ps_roles p' = ps_roles p;
  ag_members fp : wf_fp fp -> default [] (ps_members p' !! fp) ≡ₚ default [] (ps_members p !! fp);
  ag_channels id : option_Forall2 same_channel (chans !! id) (chans' !! id) }.

Section Loading.
Context (t : Tables) (p : PermState) (chans : gmap ChannelId Channel).
Hypothesis Hm : mirrors t p chans.
Hypothesis Hf : fitted p chans.
Hypothesis Hwf : wf_roles (ps_roles p).

Lemma loaded_roles : ps_roles (perms_of t) = ps_roles p.
Proof.
  unfold perms_of. cbn [ps_roles].
  assert (Hpos : map rr_position (map role_row (ps_roles p)) = role_positions (ps_roles p)) by (rewrite map_map; done).
  unfold order_asc. rewrite (sort_by_key_stable rr_position (map role_row (ps_roles p))).
  - rewrite map_map. rewrite map_ext_in with (g := id); [apply map_id|]. intros r Hr.
    apply role_roundtrip, (fi_roles _ _ Hf). by apply list_elem_of_In.
  - assert (H : StronglySorted Z.le (role_positions (ps_roles p))) by (rewrite (wf_dense _ Hwf); apply seqZ_sorted).
    revert H. unfold role_positions. generalize (ps_roles p). clear. intros l H. induction l as [|r rs IH]; cbn in *; [constructor|].
    apply StronglySorted_inv in H as [H Hr]. constructor; [by apply IH|]. apply Forall_map. exact (proj1 (Forall_map _ _ _) Hr).
  - rewrite Hpos, (wf_dense _ Hwf). apply NoDup_seqZ.
  - rewrite scan_perm. exact (mi_roles _ _ _ Hm).
Qed.

Lemma granted_roles_fit fp r : wf_fp fp -> wf_members (ps_roles p) (ps_members p) -> r ∈ default [] (ps_members p !! fp) -> fits 32 r.
Proof.
  intros Hfp Hw Hr. destruct (ps_members p !! fp) as [granted|] eqn:E; [|by apply not_elem_of_nil in Hr].
  destruct (Hw fp granted r E Hr) as [_ Hin]. apply elem_of_role_ids in Hin as (role & Hrole & <-).
  by destruct (fi_roles _ _ Hf role Hrole).
Qed.

Lemma loaded_grants fp :
  wf_members (ps_roles p) (ps_members p) -> wf_fp fp ->
  default [] (ps_members (perms_of t) !! fp) ≡ₚ default [] (ps_members p !! fp).
Proof.
  intros Hw Hfp. unfold perms_of. cbn [ps_members]. rewrite collect_grants_lookup.
  rewrite <- (mi_members _ _ _ Hm fp Hfp).
  assert (Hin : forall r, r ∈ scan (t_members t) -> exists fp, wf_fp fp /\ gr_fingerprint r = fp_to_string fp /\
      (gr_fingerprint r = fp_to_string fp -> fits 32 (gr_role_id r))).
  { intros r Hr. rewrite scan_perm in Hr. destruct (mi_member_rows _ _ _ Hm r Hr) as (f & Hf' & E). exists f. split_and!; try done.
    intros _. apply (granted_roles_fit f); [done | done |]. rewrite <- (mi_members _ _ _ Hm f Hf').
    apply (list_elem_of_fmap_2 gr_role_id), elem_of_retain. split; [done|]. by apply bool_decide_eq_true. }
  transitivity (map gr_role_id (rows_of_member fp (scan (t_members t)))).
  2:{ apply Permutation_map, retain_perm, scan_perm. }
  induction (scan (t_members t)) as [|r rows IH]; [done|].
  destruct (Hin r ltac:(left)) as (f & Hf' & E & Hfit). specialize (IH (fun r' H => Hin r' (list_elem_of_further _ _ _ H))).
  unfold rows_of_member in *. cbn [omap list_omap]. rewrite E, parse_fp_to_string by done. cbn [fmap option_fmap option_map].
  rewrite !retain_cons. cbn [fst]. rewrite E. destruct (bool_decide_reflect (f = fp)) as [->|Hne].
  - rewrite bool_decide_eq_true_2 by done. rewrite fmap_cons. cbn [map snd]. rewrite wrap_id by auto. by rewrite IH.
  - rewrite bool_decide_eq_false_2; [exact IH|]. intros H. by apply Hne, fp_to_string_inj.
Qed.

Lemma channel_row_in r : r ∈ t_channels t <-> exists c, chans !! ch_id c = Some c /\ r = channel_row c.
Proof.
  split.
  - intros Hr. assert (Hin : r ∈ rows_of_channel (cr_id r) (t_channels t)) by (apply elem_of_retain; split; [done | apply Z.eqb_refl]).
    rewrite (mi_channels _ _ _ Hm) in Hin. destruct (chans !! cr_id r) as [c|] eqn:E; [|by apply not_elem_of_nil in Hin].
    apply list_elem_of_singleton in Hin as ->. exists c. by destruct (fi_channels _ _ Hf _ _ E) as [-> _].
  - intros (c & Hc & ->). pose proof (mi_channels _ _ _ Hm (ch_id c)) as H. rewrite Hc in H.
    assert (Hin : channel_row c ∈ rows_of_channel (ch_id c) (t_channels t)) by (rewrite H; left).
    by apply elem_of_retain in Hin as [? _].
Qed.

Lemma channel_rows_distinct : NoDup (map cr_id (t_channels t)).
Proof.
  apply at_most_one_NoDup. intros k. change (retain _ _) with (rows_of_channel k (t_channels t)).
  rewrite (mi_channels _ _ _ Hm). destruct (chans !! k); cbn; lia.
Qed.

Lemma row_to_channel_row c : chans !! ch_id c = Some c -> row_to_channel (channel_row c) = set_overwrites [] c.
Proof. intros Hc. apply channel_roundtrip. by destruct (fi_channels _ _ Hf _ _ Hc). Qed.

Let rows := order_asc cr_sort_order (order_asc cr_id (scan (t_channels t))).

Lemma loaded_rows : rows ≡ₚ t_channels t.
Proof. unfold rows, order_asc. by rewrite !sort_by_key_perm, scan_perm. Qed.

Lemma loaded_ids : map ch_id (map row_to_channel rows) = map cr_id rows.
Proof.
  rewrite map_map. apply map_ext_in. intros r Hr%list_elem_of_In. rewrite loaded_rows in Hr.
  apply channel_row_in in Hr as (c & Hc & ->). by rewrite row_to_channel_row.
Qed.

Lemma loaded_distinct : NoDup (map ch_id (map row_to_channel rows)).
Proof. rewrite loaded_ids. rewrite (Permutation_map cr_id loaded_rows). apply channel_rows_distinct. Qed.

Lemma overwrite_row_in r : r ∈ t_overwrites t -> exists id c o, chans !! id = Some c /\ o ∈ ch_overwrites c /\ r = overwrite_row id o.
Proof.
  intros Hr. assert (Hin : r ∈ overwrite_rows_of (or_channel r) (t_overwrites t)) by (apply elem_of_retain; split; [done | apply Z.eqb_refl]).
  rewrite (mi_overwrites _ _ _ Hm) in Hin. destruct (chans !! or_channel r) as [c|] eqn:E; [|by apply not_elem_of_nil in Hin].
  apply list_elem_of_fmap in Hin as (o & Ho & Hin). exists (or_channel r), c, o. by rewrite <- Ho.
Qed.

Lemma row_to_overwrite_row id c o :
  chans !! id = Some c -> o ∈ ch_overwrites c -> row_to_overwrite (overwrite_row id o) = Some (id, o).
Proof.
  intros Hc Ho. apply overwrite_roundtrip; [|by eapply (fi_overwrites _ _ Hf)].
  destruct (fi_channels _ _ Hf _ _ Hc) as [<- [Hid _]]. done.
Qed.

Lemma loaded_overwrites id c :
  chans !! id = Some c -> overwrites_for id (omap row_to_overwrite (scan (t_overwrites t))) ≡ₚ ch_overwrites c.
Proof.
  intros Hc. transitivity (omap (fun r => snd <$> row_to_overwrite r) (overwrite_rows_of id (scan (t_overwrites t)))).
  - assert (Hin : forall r, r ∈ scan (t_overwrites t) -> exists id c o, chans !! id = Some c /\ o ∈ ch_overwrites c /\ r = overwrite_row id o)
      by (intros r Hr; rewrite scan_perm in Hr; by apply overwrite_row_in).
    induction (scan (t_overwrites t)) as [|r rs IH]; [done|].
    destruct (Hin r ltac:(left)) as (i & c' & o & Hc' & Ho & ->). specialize (IH (fun r' H => Hin r' (list_elem_of_further _ _ _ H))).
    unfold overwrites_for, overwrite_rows_of in *. cbn [omap list_omap]. rewrite (row_to_overwrite_row i c' o) by done.
    rewrite !retain_cons. cbn [fst or_channel overwrite_row]. destruct (i =? id); [|exact IH].
    cbn [omap list_omap]. rewrite (row_to_overwrite_row i c' o) by done. cbn. by rewrite IH.
  - unfold overwrite_rows_of. rewrite scan_perm. pose proof (mi_overwrites _ _ _ Hm id) as H. rewrite Hc in H. unfold overwrite_rows_of in H.
    rewrite H. assert (Hall : forall o, o ∈ ch_overwrites c -> row_to_overwrite (overwrite_row id o) = Some (id, o))
      by (intros o Ho; by eapply row_to_overwrite_row).
    clear H. induction (ch_overwrites c) as [|o os IH]; [done|]. cbn [map omap list_omap]. rewrite Hall by left. cbn.
    by rewrite (IH (fun o' H => Hall o' (list_elem_of_further _ _ _ H))).
Qed.

Lemma loaded_channels id :
  option_Forall2 same_channel (chans !! id) ((fold_left (fun m c => <[ch_id c := c]> m) (channels_of t) (∅ : gmap ChannelId Channel)) !! id).
Proof.
  unfold channels_of. fold rows. set (ows := omap row_to_overwrite (scan (t_overwrites t))).
  rewrite attach_overwrites_map by exact loaded_distinct. set (cs := map _ (map row_to_channel rows)).
  assert (Hids : map ch_id cs = map cr_id rows).
  { unfold cs. rewrite map_map, <- loaded_ids. reflexivity. }
  assert (Hnd : NoDup (map ch_id cs)).
  { rewrite Hids, (Permutation_map cr_id loaded_rows). apply channel_rows_distinct. }
  assert (Hcs : forall c', c' ∈ cs <-> exists c, chans !! ch_id c = Some c /\ c' = set_overwrites (overwrites_for (ch_id c) ows) c).
  { intros c'. unfold cs. rewrite map_map. split.
    - intros (r & -> & Hr)%list_elem_of_fmap. rewrite loaded_rows in Hr. apply channel_row_in in Hr as (c & Hc & ->).
      exists c. split; [done|]. by rewrite row_to_channel_row.
    - intros (c & Hc & ->). apply list_elem_of_fmap. exists (channel_row c). rewrite row_to_channel_row by done. split; [done|].
      rewrite loaded_rows. apply channel_row_in. by exists c. }
  destruct (chans !! id) as [c|] eqn:Ec.
  - destruct (fi_channels _ _ Hf _ _ Ec) as [Hid _].
    assert ((fold_left (fun m c => <[ch_id c := c]> m) cs ∅ : gmap ChannelId Channel) !! id = Some (set_overwrites (overwrites_for id ows) c)) as ->.
    { apply fold_insert_lookup; [done|]. split; [|done]. apply Hcs. exists c. by rewrite Hid. }
    constructor. split; [done|]. cbn. symmetry. by apply loaded_overwrites.
  - destruct ((fold_left (fun m c => <[ch_id c := c]> m) cs ∅ : gmap ChannelId Channel) !! id) as [c'|] eqn:E; [|constructor].
    exfalso. apply fold_insert_lookup in E as [Hin Hid]; [|done]. apply Hcs in Hin as (c & Hc & ->). cbn in Hid. congruence.
Qed.

End Loading.

(** A server started on tables that mirror a memory starts with that memory. *)
Lemma booted_agrees cfg ident cert now t p chans :
  mirrors t p chans -> fitted p chans -> wf_perms p ->
  let s := booted cfg ident cert now (mkDb t []) in agree p chans (perms s) (the_channels s).
Proof.
  intros Hm Hf [Hr Hw] s. assert (E : perms s = perms_of t /\ the_channels s = fold_left (fun m c => <[ch_id c := c]> m) (channels_of t) ∅).
  { unfold s, booted. by destruct (wrap 64 <$> max_id _). }
  destruct E as [-> ->]. split; [by eapply loaded_roles | intros fp Hfp; by eapply loaded_grants | intros id; by apply (loaded_channels t p chans)].
Qed.

End Mirrored.
