(* ===== verification/Writes.v ===== *)
(** * Each write of the store, against the memory it is made for

    On tables that mirror a memory, the statements of [store.rs] succeed and give tables that
    mirror the memory the handler goes on to install. *)

From S2P Require Export Mirrored.

(** ** Statements on a database that works *)

Definition healthy (t : Tables) : Database := mkDb t [].

Lemma exec_runs f t :
  exec f (healthy t) = match f t with Some t' => (Some tt, healthy t') | None => (None, healthy t) end.
Proof. unfold exec, statement, healthy. cbn. by destruct (f t). Qed.

Lemma write_runs f t : write f (healthy t) = (Some tt, healthy (f t)).
Proof. done. Qed.

Lemma transaction_runs {A} (body : Sql A) t a t' :
  body (healthy t) = (Some a, healthy t') -> transaction body (healthy t) = (Some a, healthy t').
Proof. intros H. unfold transaction, sql_bind. cbn. fold (healthy t). rewrite H. done. Qed.

Lemma transaction_undone {A} (body : Sql A) t t' :
  body (healthy t) = (None, healthy t') -> transaction body (healthy t) = (None, healthy t).
Proof. intros H. unfold transaction, sql_bind. cbn. fold (healthy t). rewrite H. done. Qed.

Lemma sql_bind_runs {A B} (m : Sql A) (k : A -> Sql B) t a t' :
  m (healthy t) = (Some a, healthy t') -> sql_bind m k (healthy t) = k a (healthy t').
Proof. intros H. unfold sql_bind. by rewrite H. Qed.

Lemma sql_each_writes {A} (l : list A) (body : A -> Sql unit) (f : Tables -> A -> Tables) t :
  (forall x t, body x (healthy t) = (Some tt, healthy (f t x))) ->
  sql_each l body (healthy t) = (Some tt, healthy (fold_left f l t)).
Proof.
  intros Hb. revert t; induction l as [|x l IH]; intros t; [done|]. cbn [sql_each fold_left].
  rewrite (sql_bind_runs _ _ _ _ _ (Hb x t)). apply IH.
Qed.

(** ** Rows by key *)

Lemma update_rows_perm {R} (p : R -> bool) f rows rows' : rows ≡ₚ rows' -> update_rows p f rows ≡ₚ update_rows p f rows'.
Proof. apply Permutation_map. Qed.

Lemma retain_update {R} (q p : R -> bool) f rows :
  (forall r, p r = true -> q r = false /\ q (f r) = false) -> retain q (update_rows p f rows) = retain q rows.
Proof.
  intros H. unfold update_rows. induction rows as [|r rows IH]; [done|]. cbn [map]. rewrite !retain_cons, IH.
  destruct (p r) eqn:E; [|done]. by destruct (H r E) as [-> ->].
Qed.

Lemma insert_row_fresh {R K} `{EqDecision K} (key : R -> K) r rows :
  (forall r', r' ∈ rows -> key r' <> key r) -> insert_row key r rows = Some (rows ++ [r]).
Proof.
  intros H. unfold insert_row. destruct (any _ rows) eqn:E; [|done].
  apply any_true in E as (r' & Hr & E). apply bool_decide_eq_true in E. by destruct (H r' Hr).
Qed.

Section Upsert.
Context {R K : Type} `{EqDecision K} (key : R -> K).

Lemma upsert_apart (q : R -> bool) r rows :
  q r = false -> (forall r', key r' = key r -> q r' = false) -> retain q (upsert_row key r rows) = retain q rows.
Proof.
  intros Hr Hk. unfold upsert_row. destruct (any _ rows).
  - induction rows as [|r' rows IH]; [done|]. cbn [map]. rewrite !retain_cons, IH.
    case_bool_decide as E; [|done]. by rewrite Hr, (Hk r' E).
  - rewrite retain_app, (retain_cons q r []), Hr. apply app_nil_r.
Qed.

Lemma upsert_within (q : R -> bool) r rows :
  q r = true -> (forall r', key r' = key r -> q r' = true) -> retain q (upsert_row key r rows) = upsert_row key r (retain q rows).
Proof.
  intros Hr Hk. unfold upsert_row.
  assert (any (fun r' => bool_decide (key r' = key r)) (retain q rows) = any (fun r' => bool_decide (key r' = key r)) rows) as ->.
  { apply eq_true_iff_eq. rewrite !any_true. split; intros (r' & Hin & E); exists r'; (split; [|done]).
    - by apply elem_of_retain in Hin as [? _].
    - apply elem_of_retain. split; [done|]. apply Hk. by apply bool_decide_eq_true in E. }
  destruct (any _ rows).
  - induction rows as [|r' rows IH]; [done|]. cbn [map]. rewrite !retain_cons, IH. case_bool_decide as E.
    + rewrite Hr, (Hk r' E). cbn [map]. by rewrite bool_decide_eq_true_2.
    + destruct (q r'); [|done]. cbn [map]. by rewrite bool_decide_eq_false_2.
  - rewrite retain_app, (retain_cons q r []), Hr. done.
Qed.

Lemma upsert_perm r rows :
  NoDup (map key rows) -> upsert_row key r rows ≡ₚ retain (fun r' => negb (bool_decide (key r' = key r))) rows ++ [r].
Proof.
  intros Hn. unfold upsert_row. destruct (any _ rows) eqn:E.
  - induction rows as [|r' rows IH]; [done|]. cbn [map] in *. apply NoDup_cons in Hn as [Hni Hn]. rewrite retain_cons.
    case_bool_decide as Ek; cbn [negb].
    + assert (H : forall x, x ∈ rows -> key x <> key r).
      { intros x Hx Ex. apply Hni. rewrite Ek, <- Ex. by apply (list_elem_of_fmap_2 key). }
      rewrite (retain_all _ rows) by (intros x Hx; apply negb_true_iff, bool_decide_eq_false; by apply H).
      rewrite map_ext_in with (g := id); [rewrite map_id; apply Permutation_cons_append|].
      intros x Hx%list_elem_of_In. rewrite bool_decide_eq_false_2 by by apply H. done.
    + cbn. apply Permutation_cons; [done|]. apply IH; [done|]. unfold any in E |- *. cbn in E. rewrite bool_decide_eq_false_2 in E by done. done.
  - rewrite retain_all; [done|]. intros x Hx. apply negb_true_iff. by apply (proj1 (any_false _ _) E).
Qed.

End Upsert.

Section Writes.
Context {C : Crypto} {CL : CryptoLaws C} {O : SqlOrder} {OL : SqlOrderLaws O}.

(** ** Roles *)

Lemma mirrors_roles t p chans rows roles :
  mirrors t p chans -> rows ≡ₚ map role_row roles -> mirrors (set_role_rows rows t) (mkPerms roles (ps_members p)) chans.
Proof. intros [Hr Hm Hrows Hc Ho] H. by split. Qed.

Lemma mirrors_role_order t p chans roles :
  mirrors t p chans -> ps_roles p ≡ₚ roles -> mirrors t (mkPerms roles (ps_members p)) chans.
Proof. intros [Hr Hm Hrows Hc Ho] H. split; try done. cbn. by rewrite <- H. Qed.

Definition repositioned (ps : list (RoleId * Z)) (r : RoleRow) : RoleRow :=
  match position_of ps (rr_id r) with
  | Some p => mkRoleRow (rr_id r) (rr_name r) p (rr_color r) (rr_permissions r)
  | None => r
  end.

Lemma position_of_absent ps id : id ∉ ps.*1 -> position_of ps id = None.
Proof.
  intros H. unfold position_of. destruct (find _ ps) as [[i p]|] eqn:E; [|done]. apply find_some in E as [Hin Hi].
  apply Z.eqb_eq in Hi. cbn in Hi. subst i. exfalso. apply H. by apply (list_elem_of_fmap_2 fst _ (id, p)).
Qed.

Definition put_position (rows : list RoleRow) (e : RoleId * Z) : list RoleRow :=
  update_rows (fun r => rr_id r =? e.1) (fun r => mkRoleRow (rr_id r) (rr_name r) e.2 (rr_color r) (rr_permissions r)) rows.

Lemma reposition_rows ps rows : NoDup ps.*1 -> fold_left put_position ps rows = map (repositioned ps) rows.
Proof.
  revert rows; induction ps as [|[id p] ps IH]; intros rows Hn.
  { cbn. rewrite map_ext with (g := fun r => r); [by rewrite map_id | done]. }
  rewrite fmap_cons in Hn. apply NoDup_cons in Hn as [Hni Hn]. cbn [fold_left]. rewrite IH by done. unfold put_position, update_rows.
  rewrite map_map. apply map_ext. intros r. cbn [fst snd]. unfold repositioned, position_of. cbn [find fst].
  rewrite (Z.eqb_sym id (rr_id r)). destruct (Z.eqb_spec (rr_id r) id) as [<- |]; [|done].
  cbn [rr_id]. fold (position_of ps (rr_id r)). by rewrite position_of_absent.
Qed.

Lemma repositioned_row ps r :
  repositioned ps (role_row r) = role_row match position_of ps (role_id r) with Some p => set_position p r | None => r end.
Proof. unfold repositioned. cbn. by destruct (position_of ps (role_id r)). Qed.

Lemma set_role_positions_mirrors ps t p chans :
  NoDup ps.*1 -> mirrors t p chans ->
  exists t', set_role_positions ps (healthy t) = (Some tt, healthy t') /\
    mirrors t' (mkPerms (reposition ps (ps_roles p)) (ps_members p)) chans.
Proof.
  intros Hn Hm. exists (set_role_rows (map (repositioned ps) (t_roles t)) t). split.
  - unfold set_role_positions. apply transaction_runs. erewrite (sql_each_writes ps _ (fun t e => set_role_rows (put_position (t_roles t) e) t)).
    2:{ intros [id q] u. reflexivity. }
    do 2 f_equal. rewrite <- reposition_rows by done. clear Hm Hn. revert t. induction ps as [|e ps IH]; intros t; [by destruct t|].
    cbn [fold_left]. by rewrite IH.
  - apply mirrors_roles; [done|]. rewrite (Permutation_map _ (mi_roles _ _ _ Hm)). unfold reposition. rewrite !map_map.
    erewrite map_ext; [reflexivity|]. intros r. apply repositioned_row.
Qed.

Lemma insert_role_mirrors r t p chans :
  role_id r ∉ role_ids (ps_roles p) -> mirrors t p chans ->
  exists t', insert_role r (healthy t) = (Some tt, healthy t') /\ mirrors t' (mkPerms (ps_roles p ++ [r]) (ps_members p)) chans.
Proof.
  intros Hni Hm. eexists. split.
  - unfold insert_role. rewrite exec_runs, insert_row_fresh; [reflexivity|].
    intros row Hrow E. rewrite (mi_roles _ _ _ Hm) in Hrow. apply list_elem_of_fmap in Hrow as (r' & -> & Hr'). apply Hni.
    cbn in E. rewrite <- E. by apply (list_elem_of_fmap_2 role_id).
  - apply mirrors_roles; [done|]. rewrite map_app, (mi_roles _ _ _ Hm). done.
Qed.

Lemma replace_role_as_map id updated roles :
  NoDup (role_ids roles) -> role_id updated = id ->
  replace_role id updated roles = map (fun r => if role_id r =? id then updated else r) roles.
Proof.
  intros Hn Hid. induction roles as [|r roles IH]; [done|]. cbn in *. apply NoDup_cons in Hn as [Hni Hn].
  destruct (Z.eqb_spec (role_id r) id) as [E|]; [|by rewrite IH]. f_equal. rewrite map_ext_in with (g := fun r => r); [by rewrite map_id|].
  intros r' Hin%list_elem_of_In. destruct (Z.eqb_spec (role_id r') id) as [E'|]; [|done]. exfalso. apply Hni. rewrite E, <- E'.
  by apply (list_elem_of_fmap_2 role_id).
Qed.

Lemma update_role_mirrors existing updated t p chans :
  wf_roles (ps_roles p) -> existing ∈ ps_roles p -> same_place updated existing -> mirrors t p chans ->
  exists t', store_update_role updated (healthy t) = (Some tt, healthy t') /\
    mirrors t' (perms_with_updated_role p (role_id existing) updated) chans.
Proof.
  intros Hwf Hex [Hid Hpos] Hm. pose proof (wf_unique _ Hwf) as Hn. eexists. split; [apply write_runs|]. apply mirrors_roles; [done|].
  rewrite replace_role_as_map by done. rewrite (update_rows_perm _ _ _ _ (mi_roles _ _ _ Hm)). unfold update_rows. rewrite !map_map.
  erewrite map_ext_in; [reflexivity|]. intros r Hr%list_elem_of_In. cbn [rr_id role_row]. rewrite Hid.
  destruct (Z.eqb_spec (role_id r) (role_id existing)) as [E|]; [|done].
  assert (r = existing) as -> by (by eapply (role_id_inj (ps_roles p))). cbn. unfold role_row. by rewrite <- Hid, <- Hpos.
Qed.

(** ** Grants *)

Lemma set_members_mirrors t p chans rows members :
  mirrors t p chans ->
  (forall fp, wf_fp fp -> map gr_role_id (rows_of_member fp rows) ≡ₚ default [] (members !! fp)) ->
  (forall r, r ∈ rows -> exists fp, wf_fp fp /\ gr_fingerprint r = fp_to_string fp) ->
  mirrors (set_members rows t) (mkPerms (ps_roles p) members) chans.
Proof. intros [Hr Hm Hrows Hc Ho] H1 H2. by split. Qed.

Definition grant_rows (fp : Fingerprint) (roles : list RoleId) : list MemberRow :=
  map (mkMemberRow (fp_to_string fp)) roles.

Lemma insert_grants fp roles t :
  (exists t', sql_each roles (fun role => exec (fun t => (fun rows => set_members rows t) <$>
        insert_row member_key (mkMemberRow (fp_to_string fp) role) (t_members t))) (healthy t) = (None, healthy t')) \/
  sql_each roles (fun role => exec (fun t => (fun rows => set_members rows t) <$>
        insert_row member_key (mkMemberRow (fp_to_string fp) role) (t_members t))) (healthy t) =
    (Some tt, healthy (set_members (t_members t ++ grant_rows fp roles) t)).
Proof.
  revert t; induction roles as [|r roles IH]; intros t; cbn [sql_each].
  { right. unfold grant_rows. cbn. rewrite app_nil_r. by destruct t. }
  unfold sql_bind. rewrite exec_runs. destruct (insert_row member_key _ (t_members t)) as [rows|] eqn:E; cbn [fmap option_fmap option_map].
  2:{ left. by exists t. }
  assert (rows = t_members t ++ [mkMemberRow (fp_to_string fp) r]) as -> by (unfold insert_row in E; destruct (any _ _); congruence).
  destruct (IH (set_members (t_members t ++ [mkMemberRow (fp_to_string fp) r]) t)) as [[t' ->] | ->]; [left; by exists t' | right].
  cbn [t_members set_members]. by rewrite <- app_assoc.
Qed.

Lemma rows_of_grants fp fp' roles :
  wf_fp fp -> wf_fp fp' -> map gr_role_id (rows_of_member fp' (grant_rows fp roles)) = if decide (fp' = fp) then roles else [].
Proof.
  intros H H'. unfold rows_of_member, grant_rows. destruct (decide (fp' = fp)) as [->|Hne].
  - rewrite retain_all; [rewrite map_map; apply map_id|]. intros r (x & -> & _)%list_elem_of_fmap. by apply bool_decide_eq_true.
  - rewrite retain_none; [done|]. intros r (x & -> & _)%list_elem_of_fmap. apply bool_decide_eq_false. cbn.
    intros E. by apply Hne, fp_to_string_inj.
Qed.

Lemma replace_member_roles_mirrors fp roles t p chans :
  wf_fp fp -> mirrors t p chans ->
  replace_member_roles fp roles (healthy t) = (None, healthy t) \/
  exists t', replace_member_roles fp roles (healthy t) = (Some tt, healthy t') /\ mirrors t' (perms_with_grants p fp roles) chans.
Proof.
  intros Hfp Hm. unfold replace_member_roles.
  set (kept := delete_rows (fun r => bool_decide (gr_fingerprint r = fp_to_string fp)) (t_members t)).
  destruct (insert_grants fp roles (set_members kept t)) as [[t' E] | E].
  - left. eapply transaction_undone. rewrite (sql_bind_runs _ _ _ _ _ (write_runs _ t)). exact E.
  - right. eexists. split; [apply transaction_runs; rewrite (sql_bind_runs _ _ _ _ _ (write_runs _ t)); exact E|].
    unfold perms_with_grants. cbn [t_members set_members].
    change (mirrors (set_members (kept ++ grant_rows fp roles) t) (mkPerms (ps_roles p)
      (if is_empty roles then delete fp (ps_members p) else <[fp := roles]> (ps_members p))) chans).
    apply set_members_mirrors; [done | |].
    + intros fp' Hfp'. unfold rows_of_member. rewrite retain_app, map_app. change (retain _ (grant_rows fp roles)) with (rows_of_member fp' (grant_rows fp roles)).
      rewrite rows_of_grants by done. unfold kept, delete_rows. rewrite retain_retain. destruct (decide (fp' = fp)) as [->|Hne].
      * rewrite retain_none by (intros r _; by destruct (bool_decide _)). cbn [map app].
        destruct roles as [|r roles]; cbn [is_empty]; [by rewrite lookup_delete_eq | by rewrite lookup_insert_eq].
      * rewrite app_nil_r. rewrite (retain_ext _ (fun r => bool_decide (gr_fingerprint r = fp_to_string fp'))).
        -- rewrite (mi_members _ _ _ Hm fp' Hfp'). destruct (is_empty roles); [by rewrite lookup_delete_ne by done | by rewrite lookup_insert_ne by done].
        -- intros r _. case_bool_decide as E1; case_bool_decide as E2; try done. exfalso. by apply Hne, fp_to_string_inj; [| | congruence].
    + intros r [Hr | Hr]%elem_of_app.
      * apply elem_of_retain in Hr as [Hr _]. by eapply (mi_member_rows _ _ _ Hm).
      * apply list_elem_of_fmap in Hr as (x & -> & _). by exists fp.
Qed.

(** ** Channels *)

Lemma set_channels_mirrors t p chans rows ows chans' :
  mirrors t p chans ->
  (forall id, rows_of_channel id rows = match chans' !! id with Some c => [channel_row c] | None => [] end) ->
  (forall id, overwrite_rows_of id ows ≡ₚ match chans' !! id with Some c => map (overwrite_row id) (ch_overwrites c) | None => [] end) ->
  mirrors (set_overwrite_rows ows (set_channel_rows rows t)) p chans'.
Proof. intros [Hr Hm Hrows Hc Ho] H1 H2. by split. Qed.

(** A channel gone from memory is gone from both tables. *)
Lemma no_rows t p chans id :
  mirrors t p chans -> chans !! id = None -> rows_of_channel id (t_channels t) = [] /\ overwrite_rows_of id (t_overwrites t) = [].
Proof.
  intros Hm Hn. pose proof (mi_channels _ _ _ Hm id) as Hc. pose proof (mi_overwrites _ _ _ Hm id) as Ho. rewrite Hn in Hc, Ho.
  split; [done|]. by apply Permutation_nil_r in Ho.
Qed.

Lemma insert_channel_mirrors c t p chans :
  chans !! ch_id c = None -> ch_overwrites c = [] -> mirrors t p chans ->
  exists t', insert_channel c (healthy t) = (Some tt, healthy t') /\ mirrors t' p (<[ch_id c := c]> chans).
Proof.
  intros Hn Hows Hm. destruct (no_rows _ _ _ _ Hm Hn) as [Hrows Horows]. eexists. split.
  - unfold insert_channel. rewrite exec_runs, insert_row_fresh; [reflexivity|]. intros r Hr E.
    assert (H : r ∈ rows_of_channel (ch_id c) (t_channels t)) by (apply elem_of_retain; split; [done | by apply Z.eqb_eq]).
    rewrite Hrows in H. by apply not_elem_of_nil in H.
  - change (mirrors (set_overwrite_rows (t_overwrites t) (set_channel_rows (t_channels t ++ [channel_row c]) t)) p (<[ch_id c:=c]> chans)).
    apply (set_channels_mirrors _ _ chans); [done | |]; intros id; destruct (decide (id = ch_id c)) as [->|Hne].
    + unfold rows_of_channel. rewrite retain_app, retain_cons. cbn [cr_id channel_row]. rewrite Z.eqb_refl, lookup_insert_eq.
      change (retain _ (t_channels t)) with (rows_of_channel (ch_id c) (t_channels t)). by rewrite Hrows.
    + unfold rows_of_channel. rewrite retain_app, retain_cons. cbn [cr_id channel_row].
      rewrite (proj2 (Z.eqb_neq (ch_id c) id)) by congruence. rewrite lookup_insert_ne by done. rewrite app_nil_r. apply (mi_channels _ _ _ Hm).
    + by rewrite Horows, lookup_insert_eq, Hows.
    + rewrite lookup_insert_ne by done. apply (mi_overwrites _ _ _ Hm).
Qed.

Lemma update_channel_mirrors c existing t p chans :
  chans !! ch_id c = Some existing -> mirrors t p chans ->
  exists t', store_update_channel c (healthy t) = (Some tt, healthy t') /\
    mirrors t' p (<[ch_id c := set_overwrites (ch_overwrites existing) c]> chans).
Proof.
  intros Hex Hm. eexists. split; [apply write_runs|].
  set (rows := update_rows _ _ (t_channels t)).
  change (mirrors (set_overwrite_rows (t_overwrites t) (set_channel_rows rows t)) p (<[ch_id c:=set_overwrites (ch_overwrites existing) c]> chans)).
  pose proof (mi_channels _ _ _ Hm) as Hc.
  apply (set_channels_mirrors _ _ chans); [done | |]; intros id; destruct (decide (id = ch_id c)) as [->|Hne].
  - rewrite lookup_insert_eq. specialize (Hc (ch_id c)). rewrite Hex in Hc. unfold rows, update_rows.
    unfold rows_of_channel in *. rewrite retain_map.
    rewrite (retain_ext _ (fun r => cr_id r =? ch_id c)).
    2:{ intros r _. destruct (cr_id r =? ch_id c) eqn:E; [apply Z.eqb_refl | done]. }
    assert (Hkey : cr_id (channel_row existing) = ch_id c).
    { assert (Hin : channel_row existing ∈ retain (fun r => cr_id r =? ch_id c) (t_channels t)) by (rewrite Hc; left).
      apply elem_of_retain in Hin as [_ Hin]. by apply Z.eqb_eq. }
    rewrite Hc. cbn [map]. rewrite Hkey, Z.eqb_refl. by destruct c.
  - rewrite lookup_insert_ne by done. unfold rows, rows_of_channel. rewrite retain_update; [apply Hc|].
    intros r E%Z.eqb_eq. cbn. rewrite E. split; apply Z.eqb_neq; congruence.
  - rewrite lookup_insert_eq. pose proof (mi_overwrites _ _ _ Hm (ch_id c)) as H. rewrite Hex in H. exact H.
  - rewrite lookup_insert_ne by done. apply (mi_overwrites _ _ _ Hm).
Qed.

Lemma delete_channel_mirrors id t p chans :
  mirrors t p chans ->
  exists t', store_delete_channel id (healthy t) = (Some tt, healthy t') /\ mirrors t' p (delete id chans).
Proof.
  intros Hm. eexists. split.
  { apply transaction_runs. rewrite (sql_bind_runs _ _ _ _ _ (write_runs _ t)). apply write_runs. }
  cbn [t_channels set_overwrite_rows].
  change (mirrors (set_overwrite_rows (delete_rows (fun r => or_channel r =? id) (t_overwrites t))
    (set_channel_rows (delete_rows (fun r => cr_id r =? id) (t_channels t)) t)) p (delete id chans)).
  apply (set_channels_mirrors _ _ chans); [done | |]; intros k; destruct (decide (k = id)) as [->|Hne].
  - rewrite lookup_delete_eq. unfold rows_of_channel, delete_rows. rewrite retain_retain. apply retain_none. intros r _. by destruct (cr_id r =? id).
  - rewrite lookup_delete_ne by done. unfold rows_of_channel, delete_rows. rewrite retain_retain.
    rewrite (retain_ext _ (fun r => cr_id r =? k)); [apply (mi_channels _ _ _ Hm)|]. intros r _.
    destruct (Z.eqb_spec (cr_id r) id), (Z.eqb_spec (cr_id r) k); try done; congruence.
  - rewrite lookup_delete_eq. unfold overwrite_rows_of, delete_rows. rewrite retain_retain. rewrite retain_none; [done|]. intros r _. by destruct (or_channel r =? id).
  - rewrite lookup_delete_ne by done. unfold overwrite_rows_of, delete_rows. rewrite retain_retain.
    rewrite (retain_ext _ (fun r => or_channel r =? k)); [apply (mi_overwrites _ _ _ Hm)|]. intros r _.
    destruct (Z.eqb_spec (or_channel r) id), (Z.eqb_spec (or_channel r) k); try done; congruence.
Qed.

(** ** Overwrites *)

Lemma overwrite_key_inj a b : target_fits a -> target_fits b -> overwrite_key a = overwrite_key b -> a = b.
Proof. intros Ha Hb E. pose proof (target_roundtrip a Ha) as H. rewrite E, target_roundtrip in H by done. by injection H. Qed.

Lemma set_overwrites_mirrors t p chans id c ows orows :
  mirrors t p chans -> chans !! id = Some c -> ch_id c = id ->
  (forall k, k <> id -> overwrite_rows_of k orows = overwrite_rows_of k (t_overwrites t)) ->
  overwrite_rows_of id orows ≡ₚ map (overwrite_row id) ows ->
  mirrors (set_overwrite_rows orows t) p (<[id := set_overwrites ows c]> chans).
Proof.
  intros Hm Hc Hid Hother Hthis. change (set_overwrite_rows orows t) with (set_overwrite_rows orows (set_channel_rows (t_channels t) t)).
  apply (set_channels_mirrors _ _ chans); [done | |]; intros k; destruct (decide (k = id)) as [->|Hne].
  - rewrite lookup_insert_eq. pose proof (mi_channels _ _ _ Hm id) as H. by rewrite Hc in H.
  - rewrite lookup_insert_ne by done. apply (mi_channels _ _ _ Hm).
  - by rewrite lookup_insert_eq.
  - rewrite lookup_insert_ne by done. rewrite Hother by done. apply (mi_overwrites _ _ _ Hm).
Qed.

Lemma same_key id o o' :
  overwrite_fits o -> overwrite_fits o' ->
  bool_decide (overwrite_row_key (overwrite_row id o) = overwrite_row_key (overwrite_row id o')) = bool_decide (ow_target o = ow_target o').
Proof.
  intros [H _] [H' _]. apply bool_decide_ext. unfold overwrite_row_key, overwrite_row. cbn. split; [|by intros ->].
  intros E. apply overwrite_key_inj; [done | done |]. destruct (overwrite_key (ow_target o)), (overwrite_key (ow_target o')). cbn in E. congruence.
Qed.

Section OneChannel.
Context (t : Tables) (p : PermState) (chans : gmap ChannelId Channel) (id : ChannelId) (c : Channel).
Hypothesis Hm : mirrors t p chans.
Hypothesis Hf : fitted p chans.
Hypothesis Hc : chans !! id = Some c.

Lemma fits_here o : o ∈ ch_overwrites c -> overwrite_fits o.
Proof. by apply (fi_overwrites _ _ Hf id). Qed.

Lemma rows_here : overwrite_rows_of id (t_overwrites t) ≡ₚ map (overwrite_row id) (ch_overwrites c).
Proof. pose proof (mi_overwrites _ _ _ Hm id) as H. by rewrite Hc in H. Qed.

Lemma upsert_overwrite_mirrors o :
  overwrite_fits o -> NoDup (map ow_target (ch_overwrites c)) ->
  exists t', upsert_overwrite id o (healthy t) = (Some tt, healthy t') /\
    mirrors t' p (<[id := set_overwrites (retain (fun o' => negb (bool_decide (ow_target o' = ow_target o))) (ch_overwrites c) ++ [o]) c]> chans).
Proof.
  intros Ho Hn. unfold upsert_overwrite. destruct (overwrite_key (ow_target o)) as [kind target] eqn:Ek.
  assert (Hrow : mkOverwriteRow id kind target (i64 (ow_allow o)) (i64 (ow_deny o)) = overwrite_row id o) by (unfold overwrite_row; by rewrite Ek).
  rewrite Hrow. eexists. split; [apply write_runs|]. destruct (fi_channels _ _ Hf _ _ Hc) as [Hid _].
  assert (Hch : forall k r', overwrite_row_key r' = overwrite_row_key (overwrite_row id o) -> (or_channel r' =? k) = (id =? k)).
  { intros k r' E. unfold overwrite_row_key in E. by injection E as -> _ _. }
  apply set_overwrites_mirrors; [done | done | done | |].
  - intros k Hne. apply upsert_apart; [apply Z.eqb_neq; cbn; congruence|]. intros r' E. rewrite (Hch k r' E). apply Z.eqb_neq. congruence.
  - unfold overwrite_rows_of. rewrite upsert_within; [| apply Z.eqb_refl | intros r' E; rewrite (Hch id r' E); apply Z.eqb_refl].
    fold (overwrite_rows_of id (t_overwrites t)). rewrite upsert_perm.
    + rewrite map_app. apply Permutation_app; [|done]. rewrite rows_here, retain_map. apply Permutation_map. rewrite (retain_ext _ (fun o' => negb (bool_decide (ow_target o' = ow_target o)))); [done|].
      intros o' Hin. f_equal. apply same_key; [by apply fits_here | done].
    + rewrite (Permutation_map _ rows_here), map_map. assert (Hall : forall o', o' ∈ ch_overwrites c -> target_fits (ow_target o')) by (intros o' Hin; by apply fits_here).
      clear -Hn Hall CL. induction (ch_overwrites c) as [|a l IH]; [constructor|]. cbn in *. apply NoDup_cons in Hn as [Hni Hn]. apply NoDup_cons. split.
      * intros (b & E & Hb)%list_elem_of_fmap. apply Hni. unfold overwrite_row_key, overwrite_row in E. cbn in E.
        replace (ow_target a) with (ow_target b); [by apply (list_elem_of_fmap_2 ow_target)|]. apply overwrite_key_inj; [apply Hall; by right | apply Hall; left |].
        destruct (overwrite_key (ow_target a)), (overwrite_key (ow_target b)). cbn in E. congruence.
      * apply IH; [done|]. intros o' Ho'. apply Hall. by right.
Qed.

Lemma delete_overwrite_mirrors target :
  target_fits target ->
  exists t', delete_overwrite id target (healthy t) = (Some tt, healthy t') /\
    mirrors t' p (<[id := set_overwrites (retain (fun o => negb (bool_decide (ow_target o = target))) (ch_overwrites c)) c]> chans).
Proof.
  intros Ht. unfold delete_overwrite. destruct (overwrite_key target) as [kind key] eqn:Ek. eexists. split; [apply write_runs|].
  destruct (fi_channels _ _ Hf _ _ Hc) as [Hid _]. apply set_overwrites_mirrors; [done | done | done | |].
  - intros k Hne. unfold overwrite_rows_of, delete_rows. rewrite retain_retain. apply retain_ext. intros r _.
    case_bool_decide as E; [|done]. unfold overwrite_row_key in E. injection E as -> _ _. cbn. symmetry. apply Z.eqb_neq. congruence.
  - unfold overwrite_rows_of, delete_rows. rewrite retain_retain.
    rewrite (retain_ext _ (fun r => (or_channel r =? id) && negb (bool_decide (overwrite_row_key r = (id, kind, key))))) by (intros; apply andb_comm).
    rewrite <- retain_retain. fold (overwrite_rows_of id (t_overwrites t)). rewrite rows_here, retain_map. apply Permutation_map.
    rewrite (retain_ext _ (fun o => negb (bool_decide (ow_target o = target)))); [done|]. intros o Hin. f_equal.
    assert (H : (id, kind, key) = overwrite_row_key (overwrite_row id (mkOverwrite target 0 0))) by (unfold overwrite_row_key, overwrite_row; cbn; by rewrite Ek).
    rewrite H. rewrite same_key; [done | by apply fits_here |]. split_and!; try done.
Qed.

End OneChannel.

(** ** Deleting a role *)

Lemma dec_inj a b : fits 32 a -> fits 32 b -> dec a = dec b -> a = b.
Proof. intros Ha Hb E. pose proof (parse_u32_dec a Ha) as H. rewrite E, parse_u32_dec in H by done. by injection H. Qed.

Definition stripped (id : RoleId) (c : Channel) : Channel :=
  if names_role id c then set_overwrites (retain (fun o => negb (bool_decide (ow_target o = TRole id))) (ch_overwrites c)) c else c.

Lemma stripped_spec id c :
  ch_overwrites (stripped id c) = retain (fun o => negb (bool_decide (ow_target o = TRole id))) (ch_overwrites c) /\
  set_overwrites [] (stripped id c) = set_overwrites [] c.
Proof.
  unfold stripped, names_role. destruct (any _ _) eqn:E; [done|]. split; [|done]. symmetry. apply retain_all.
  intros o Ho. pose proof (proj1 (any_false _ _) E o Ho) as H. cbn in H. by rewrite H.
Qed.

Lemma channel_row_overwrites c c' : set_overwrites [] c = set_overwrites [] c' -> channel_row c = channel_row c'.
Proof. destruct c, c'. unfold set_overwrites. cbn. by intros [= -> -> -> -> -> -> ->]. Qed.

Lemma names_this_role id k o :
  fits 32 id -> overwrite_fits o ->
  (or_kind (overwrite_row k o) =? 0) && bool_decide (or_target (overwrite_row k o) = dec id) = bool_decide (ow_target o = TRole id).
Proof.
  intros Hid [Ht _]. unfold overwrite_row. cbn. destruct (ow_target o) as [i | fp]; cbn.
  - apply bool_decide_ext. split; [intros E; f_equal; by apply dec_inj | by intros [= ->]].
  - symmetry. by apply bool_decide_eq_false.
Qed.

Lemma delete_role_mirrors id t p chans :
  fits 32 id -> fitted p chans -> mirrors t p chans ->
  exists t', store_delete_role id (healthy t) = (Some tt, healthy t') /\
    mirrors t' (mkPerms (retain (fun r => negb (role_id r =? id)) (ps_roles p))
      (retain (fun r => negb (r =? id)) <$> ps_members p)) (stripped id <$> chans).
Proof.
  intros Hid Hf Hm. eexists. split.
  { apply transaction_runs. rewrite (sql_bind_runs _ _ _ _ _ (write_runs _ t)), (sql_bind_runs _ _ _ _ _ (write_runs _ _)). apply write_runs. }
  cbn [t_roles t_overwrites set_overwrite_rows set_members]. split; cbn [t_roles t_members t_overwrites t_channels set_role_rows set_overwrite_rows set_members ps_roles ps_members].
  - unfold delete_rows. rewrite (mi_roles _ _ _ Hm), retain_map. done.
  - intros fp Hfp. unfold rows_of_member, delete_rows. rewrite retain_retain.
    rewrite (retain_ext _ (fun r => bool_decide (gr_fingerprint r = fp_to_string fp) && negb (gr_role_id r =? id))) by (intros; apply andb_comm).
    rewrite <- retain_retain. fold (rows_of_member fp (t_members t)).
    rewrite <- (retain_map (fun r => negb (r =? id)) gr_role_id).
    pose proof (mi_members _ _ _ Hm fp Hfp) as H. rewrite lookup_fmap. destruct (ps_members p !! fp) as [granted|]; cbn in *.
    + by rewrite H.
    + apply Permutation_nil_r in H. by rewrite H.
  - intros r [Hr _]%elem_of_retain. by eapply (mi_member_rows _ _ _ Hm).
  - intros k. rewrite lookup_fmap, (mi_channels _ _ _ Hm). destruct (chans !! k) as [c|]; [|done]. cbn. f_equal.
    apply channel_row_overwrites. symmetry. apply stripped_spec.
  - intros k. unfold overwrite_rows_of, delete_rows. rewrite retain_retain.
    rewrite (retain_ext _ (fun r => (or_channel r =? k) && negb ((or_kind r =? 0) && bool_decide (or_target r = dec id)))) by (intros; apply andb_comm).
    rewrite <- retain_retain. fold (overwrite_rows_of k (t_overwrites t)). rewrite (mi_overwrites _ _ _ Hm), lookup_fmap.
    destruct (chans !! k) as [c|] eqn:Ec; [|done]. cbn. rewrite (proj1 (stripped_spec id c)), retain_map. apply Permutation_map.
    rewrite (retain_ext _ (fun o => negb (bool_decide (ow_target o = TRole id)))); [done|]. intros o Ho. f_equal.
    apply names_this_role; [done | by eapply (fi_overwrites _ _ Hf)].
Qed.

(** The compacted positions, written back. *)
Lemma compacted_mirrors id t p chans :
  NoDup (role_ids (ps_roles p)) ->
  mirrors t (mkPerms (retain (fun r => negb (role_id r =? id)) (ps_roles p)) (retain (fun r => negb (r =? id)) <$> ps_members p)) chans ->
  exists t', set_role_positions (ordering_of (ps_roles (perms_without_role p id))) (healthy t) = (Some tt, healthy t') /\
    mirrors t' (perms_without_role p id) chans.
Proof.
  intros Hn Hm. unfold perms_without_role. cbv zeta. cbn [ps_roles].
  set (kept := retain (fun r => negb (role_id r =? id)) (ps_roles p)). set (sorted := sort_by_key role_position kept).
  assert (Hs : kept ≡ₚ sorted) by (symmetry; apply sort_by_key_perm).
  assert (Hks : NoDup (role_ids sorted)).
  { unfold role_ids. rewrite <- (Permutation_map role_id Hs). unfold kept, role_ids in *. eapply sublist_NoDup; [exact Hn|].
    unfold retain. change (map role_id) with (fmap (M := list) role_id). apply fmap_sublist, sublist_filter. }
  set (compact := imap (fun i r => set_position (Z.of_nat i) r) sorted).
  assert (Hids : (ordering_of compact).*1 = role_ids sorted).
  { unfold ordering_of, compact, role_ids. rewrite <- list_fmap_compose. apply list_eq. intros i. rewrite !list_lookup_fmap, list_lookup_imap. by destruct (sorted !! i). }
  destruct (set_role_positions_mirrors (ordering_of compact) t (mkPerms sorted (retain (fun r => negb (r =? id)) <$> ps_members p)) chans) as (t' & E & Ht'); [by rewrite Hids | exact (mirrors_role_order _ _ _ _ Hm Hs) |].
  exists t'. split; [exact E|]. cbn [ps_roles ps_members] in Ht'.
  assert (reposition (ordering_of compact) sorted = compact) as <-; [|exact Ht'].
  unfold reposition. apply list_eq. intros i. rewrite list_lookup_fmap. unfold compact at 2. rewrite list_lookup_imap.
  destruct (sorted !! i) as [r|] eqn:Er; [|done]. cbn. f_equal.
  rewrite (position_of_some _ _ (Z.of_nat i)); [done | by rewrite Hids |].
  unfold ordering_of. apply list_elem_of_fmap. exists (set_position (Z.of_nat i) r). split; [done|].
  apply elem_of_lookup_imap. eauto.
Qed.

End Writes.
