(* ===== verification/Restart.v ===== *)
(** * A restart loses nothing

    Each administration command, run to its end on a database that works, leaves tables that
    mirror memory; so the server can be stopped after any of them and started again with the
    roles, grants, channels and overwrites it had. *)

From S2P Require Export Writes Durability Samples.

Create HintDb sync.

Section Restart.
Context {C : Crypto} {CL : CryptoLaws C} {HO : HashOrder} {L : HashOrderLaws HO} {U : UnicodeTables}.
Context {O : SqlOrder} {OL : SqlOrderLaws O}.
Implicit Types s : Shared Database.

(** ** In step *)

(** The database works, and mirrors memory. *)
Record in_step (db : option Database) (p : PermState) (chans : gmap ChannelId Channel) (t : Tables) : Prop := {
  is_store : db = Some (healthy t);
  is_mirrors : mirrors t p chans;
  is_fitted : fitted p chans;
  is_perms : wf_perms p;
  is_targets id c : chans !! id = Some c -> NoDup (map ow_target (ch_overwrites c)) }.

Definition synced s : Prop := exists t, in_step (store s) (perms s) (the_channels s) t.

Lemma synced_only s s' : only_clients s s' -> synced s -> synced s'.
Proof.
  intros Ho [t H]. exists t. by rewrite (only_clients_store _ _ Ho), (only_clients_perms _ _ Ho), (only_clients_channels _ _ Ho).
Qed.

Lemma synced_send s c m : synced s -> synced (send s c m).
Proof. apply synced_only, send_only. Qed.
Lemma synced_broadcast s m e : synced s -> synced (broadcast s m e).
Proof. apply synced_only, broadcast_only. Qed.
Lemma synced_resync s b t : synced s -> synced (resync_visibility s b t).
Proof. apply synced_only, resync_visibility_only. Qed.
Lemma synced_clients s m : synced s -> synced (set_clients m s).
Proof. by intros [t []]; exists t. Qed.

Hint Resolve synced_send synced_broadcast synced_resync synced_clients : sync.

(** The widths that follow from the shape of the role table. *)
Lemma masked_fits mask bits : Z.land mask (Z.ones 64) = mask -> fits 64 (Z.land bits mask).
Proof.
  intros H. rewrite <- H, Z.land_assoc, Z.land_ones by done. unfold fits. apply Z.mod_pos_bound. done.
Qed.

Lemma bits_fit bits : contains ALL bits = true -> fits 64 bits.
Proof. intros H%Z.eqb_eq. rewrite <- H, Z.land_comm. by apply masked_fits. Qed.

Lemma scoped_fits bits : fits 64 (intersect bits CHANNEL_SCOPED).
Proof. by apply masked_fits. Qed.

Lemma positions_fit roles r : wf_roles roles -> Z.of_nat (length roles) <= 2 ^ 32 -> r ∈ roles -> fits 32 (role_position r).
Proof.
  intros Hwf Hl Hr. assert (Hin : role_position r ∈ role_positions roles) by (by apply (list_elem_of_fmap_2 role_position)).
  rewrite (wf_dense _ Hwf), elem_of_seqZ in Hin. unfold fits. lia.
Qed.

Definition color_fits (r : Role) : Prop := forall c, role_color r = Some c -> fits 32 c.

Lemma roles_fit roles r :
  wf_roles roles -> Z.of_nat (length roles) <= 2 ^ 32 -> fits 32 (role_id r) -> color_fits r -> r ∈ roles -> role_fits r.
Proof.
  intros Hwf Hl Hid Hc Hr. split_and!; [done | by eapply positions_fit | done | by apply bits_fit, (wf_bits _ Hwf)].
Qed.

(** A new permission state under which the channels stay as they are. *)
Lemma fitted_roles p p' chans :
  fitted p chans -> wf_perms p' -> Z.of_nat (length (ps_roles p')) <= 2 ^ 32 ->
  (forall r, r ∈ ps_roles p' -> fits 32 (role_id r) /\ color_fits r) -> fitted p' chans.
Proof. intros [Hr Hc Ho] [Hw _] Hl H. split; try done. intros r Hin. destruct (H r Hin). by eapply roles_fit. Qed.

Lemma fitted_channel p chans id c :
  fitted p chans -> ch_id c = id -> channel_fits c -> (forall o, o ∈ ch_overwrites c -> overwrite_fits o) -> fitted p (<[id := c]> chans).
Proof.
  intros [Hr Hc Ho] Hid Hf Hows. split; [done | |].
  - intros k c' [[<- <-] | [_ H]]%lookup_insert_Some; [done | by apply Hc].
  - intros k c' o [[<- <-] | [_ H]]%lookup_insert_Some Hin; [by apply Hows | by eapply Ho].
Qed.

(** A write to the store that is attached. *)
Lemma leads_write {B} (Q : B -> Shared Database -> Prop) f k s t b t' :
  store s = Some (healthy t) -> f (healthy t) = (b, healthy t') ->
  leads Q (k b) (set_store (Some (healthy t')) s) -> leads Q (bind (store_exec f) k) s.
Proof. intros Hs Hf H. apply leads_call. unfold store_step. rewrite Hs, Hf. exact H. Qed.

Lemma succeeds_run (q : Sql unit) t t' : q (healthy t) = (Some tt, healthy t') -> succeeds q (healthy t) = (true, healthy t').
Proof. unfold succeeds. by intros ->. Qed.

Lemma succeeds_fail (q : Sql unit) t : q (healthy t) = (None, healthy t) -> succeeds q (healthy t) = (false, healthy t).
Proof. unfold succeeds. by intros ->. Qed.

(** The commands that read the actor first. *)
Lemma leads_actor {B} (Q : B -> Shared Database -> Prop) client nonce k s :
  synced s ->
  (forall s', synced s' -> leads Q (k None) s') -> (forall a, leads Q (k (Some a)) s) ->
  leads Q (bind (actor client nonce) k) s.
Proof.
  intros Hs Hno Hyes. unfold actor. do 3 lead.
  - do 3 lead. apply Hno. auto with sync.
  - do 4 lead; repeat lead; auto.
Qed.

Lemma synced_swapped s p t :
  store s = Some (healthy t) -> in_step (Some (healthy t)) p (the_channels s) t -> synced (swap_perm_state s p).
Proof. intros Hs H. exists t. destruct H. by split. Qed.

Lemma synced_channels s chans t :
  store s = Some (healthy t) -> in_step (Some (healthy t)) (perms s) chans t -> synced (set_channels chans s).
Proof. intros Hs H. exists t. destruct H. by split. Qed.

Lemma in_step_perms db p p' chans t t' :
  in_step db p chans t -> mirrors t' p' chans -> wf_perms p' -> Z.of_nat (length (ps_roles p')) <= 2 ^ 32 ->
  (forall r, r ∈ ps_roles p' -> fits 32 (role_id r) /\ color_fits r) -> in_step (Some (healthy t')) p' chans t'.
Proof. intros [Hs Hm Hf Hp Ht] Hm' Hp' Hl Hr. split; try done. by eapply fitted_roles. Qed.

Lemma in_step_channels db p chans chans' t t' :
  in_step db p chans t -> mirrors t' p chans' -> fitted p chans' ->
  (forall id c, chans' !! id = Some c -> NoDup (map ow_target (ch_overwrites c))) -> in_step (Some (healthy t')) p chans' t'.
Proof. intros [Hs Hm Hf Hp Ht] Hm' Hf' Ht'. by split. Qed.

Lemma old_role_fits db p chans t r : in_step db p chans t -> r ∈ ps_roles p -> fits 32 (role_id r) /\ color_fits r.
Proof. intros [_ _ [Hf _ _] _ _] Hr. destruct (Hf r Hr) as (? & _ & ? & _). done. Qed.

(** ** Roles *)

(** A guard that refuses. *)
Ltac refused := lead; [lead; by auto with sync |].

Lemma reposition_length ps roles : length (reposition ps roles) = length roles.
Proof. apply length_map. Qed.

Lemma elem_of_repositioned ps roles r :
  r ∈ reposition ps roles -> exists r0, r0 ∈ roles /\ role_id r = role_id r0 /\ role_color r = role_color r0.
Proof. intros (r0 & -> & Hr)%list_elem_of_fmap. exists r0. split; [done|]. by destruct (position_of ps (role_id r0)). Qed.

Lemma shifted_positions_ids roles : (shifted_positions roles).*1 = role_ids roles.
Proof. unfold shifted_positions, role_ids. rewrite <- list_fmap_compose. apply map_ext. intros r. cbn. by destruct (_ =? 0). Qed.

Lemma synced_create_role client nonce name bits s :
  synced s -> role_room (ps_roles (perms s)) -> leads (fun _ => synced) (create_role client nonce name bits) s.
Proof.
  intros Hs Hroom. unfold create_role. apply leads_actor; [done | intros; by lead | intros a].
  do 2 refused. lead. refused. lead. unfold perm_state.
  destruct Hs as [t H]. pose proof (is_perms _ _ _ _ H) as Hwf. set (p := perms s) in *.
  set (role := mkRole (next_role_id (ps_roles p)) (trim name) None 1 (intersect bits ALL)).
  destruct (set_role_positions_mirrors (shifted_positions (ps_roles p)) t p (the_channels s)) as (t1 & E1 & M1);
    [rewrite shifted_positions_ids; apply (wf_unique _ (proj1 Hwf)) | exact (is_mirrors _ _ _ _ H) |].
  eapply leads_write; [exact (is_store _ _ _ _ H) | exact (succeeds_run _ _ _ E1) |]. cbn [negb].
  destruct (fun Hni => insert_role_mirrors role t1 _ (the_channels s) Hni M1) as (t2 & E2 & M2).
  { cbn [ps_roles]. unfold role_ids, reposition. rewrite map_map.
    rewrite (map_ext _ role_id) by (intros r; by destruct (position_of _ _)). by destruct (next_role_id_fresh _ Hroom) as (_ & ? & _). }
  eapply leads_write; [reflexivity | exact (succeeds_run _ _ _ E2) |]. cbn [negb]. cbv zeta.
  fold role. set (next := perms_with_new_role p role).
  assert (Hnext : in_step (Some (healthy t2)) next (the_channels s) t2).
  { eapply in_step_perms; [exact H | | apply new_role_wf; try done | |].
    - eapply (mirrors_role_order _ _ _ (ps_roles next)) in M2; [exact M2|]. unfold next, perms_with_new_role. cbn [ps_roles].
      by rewrite sort_by_key_perm.
    - apply Z.eqb_eq. cbn. unfold intersect. rewrite Z.land_comm, <- Z.land_assoc. f_equal.
    - unfold next, perms_with_new_role. cbn [ps_roles]. rewrite sort_by_key_perm, length_app, reposition_length. cbn.
      destruct Hroom as [_ Hroom]. unfold u32_max in Hroom. lia.
    - intros r Hr. unfold next, perms_with_new_role in Hr. cbn [ps_roles] in Hr. rewrite sort_by_key_perm in Hr.
      apply elem_of_app in Hr as [Hr | Hr%list_elem_of_singleton].
      + apply elem_of_repositioned in Hr as (r0 & Hr0 & -> & Hcol). unfold color_fits. rewrite Hcol. by eapply old_role_fits.
      + subst r. split; [|done]. apply wrap_fits. done. }
  do 4 lead. do 3 (first [apply synced_send | apply synced_broadcast]). by apply (synced_swapped _ _ t2).
Qed.

Lemma synced_update_role client nonce id name color bits s :
  synced s -> role_room (ps_roles (perms s)) -> (forall c, color = Some (Some c) -> fits 32 c) ->
  leads (fun _ => synced) (update_role client nonce id name color bits) s.
Proof.
  intros Hs Hroom Hcol. unfold update_role. apply leads_actor; [done | intros; by lead | intros a].
  lead. unfold perm_state. lead; [|lead; by auto with sync]. rename r into existing, Heqo into Hfind.
  do 2 refused. lead; [destruct p as [code detail]; lead; by auto with sync|]. rename r into updated, Heqs0 into Hup.
  lead. refused. lead. destruct Hs as [t H]. pose proof (is_perms _ _ _ _ H) as [Hwf Hmem].
  destruct (find_role_some _ _ _ Hfind) as [Hex <-]. pose proof (update_role_fields_place _ _ _ _ _ _ Hup) as Hplace.
  destruct (update_role_mirrors existing updated t (perms s) (the_channels s) Hwf Hex Hplace (is_mirrors _ _ _ _ H)) as (t1 & E1 & M1).
  eapply leads_write; [exact (is_store _ _ _ _ H) | exact (succeeds_run _ _ _ E1) |]. cbn [negb].
  do 4 lead. apply synced_send, synced_resync, synced_broadcast. apply (synced_swapped _ _ t1); [done|]. eapply in_step_perms; [exact H | exact M1 | | |].
  - eapply updated_role_wf; [by split | exact Hfind | done |]. eapply update_role_fields_bits; [by apply (wf_bits _ Hwf) | exact Hup].
  - cbn. rewrite <- (length_map (fun _ => tt)), (replace_role_map (fun _ => tt) _ _ existing), length_map by done.
    destruct Hroom as [_ Hroom]. unfold u32_max in Hroom. lia.
  - intros r Hr. apply elem_of_replace_role in Hr as [-> | Hr]; [|by eapply old_role_fits].
    destruct (old_role_fits _ _ _ _ _ H Hex) as [Hid Hc]. destruct Hplace as [-> _]. split; [done|].
    unfold color_fits. unfold update_role_fields in Hup. case_match_all; simplify_eq; cbn in *; naive_solver.
Qed.

Lemma fitted_stripped p chans id : fitted p chans -> fitted p (stripped id <$> chans).
Proof.
  intros [Hr Hc Ho]. split; [done | |].
  - intros k c (c0 & <- & H)%lookup_fmap_Some. destruct (Hc k c0 H) as [Hk Hf]. destruct (stripped_spec id c0) as [_ E].
    pose proof (f_equal ch_id E) as E1. pose proof (f_equal ch_parent E) as E2. pose proof (f_equal ch_max_users E) as E3.
    pose proof (f_equal ch_order E) as E4. cbn in E1, E2, E3, E4. unfold channel_fits in *. by rewrite E1, E2, E3, E4.
  - intros k c o (c0 & <- & H)%lookup_fmap_Some Hin. rewrite (proj1 (stripped_spec id c0)) in Hin.
    apply elem_of_retain in Hin as [Hin _]. by eapply Ho.
Qed.

Lemma retain_targets p ows : NoDup (map ow_target ows) -> NoDup (map ow_target (retain p ows)).
Proof. intros H. eapply sublist_NoDup; [exact H|]. apply fmap_sublist, sublist_filter. Qed.

Lemma synced_modify_where q f s : synced s -> synced (modify_where q f s).2.
Proof. apply synced_clients. Qed.

Lemma synced_delete_role client nonce id s :
  synced s -> role_room (ps_roles (perms s)) -> leads (fun _ => synced) (delete_role client nonce id) s.
Proof.
  intros Hs Hroom. unfold delete_role. apply leads_actor; [done | intros; by lead | intros a].
  refused. lead. unfold perm_state. do 2 refused. lead. refused. lead.
  apply Z.eqb_neq in Heqb. apply negb_false_iff in Heqb0. apply any_role_id, elem_of_role_ids in Heqb0 as (r0 & Hr0 & <-).
  destruct Hs as [t H]. pose proof (is_perms _ _ _ _ H) as [Hwf Hmem]. pose proof (is_fitted _ _ _ _ H) as Hfit.
  destruct (old_role_fits _ _ _ _ _ H Hr0) as [Hid _].
  destruct (delete_role_mirrors (role_id r0) t (perms s) (the_channels s) Hid Hfit (is_mirrors _ _ _ _ H)) as (t1 & E1 & M1).
  eapply leads_write; [exact (is_store _ _ _ _ H) | exact (succeeds_run _ _ _ E1) |]. cbn [negb]. cbv zeta.
  destruct (compacted_mirrors (role_id r0) t1 (perms s) _ (wf_unique _ Hwf) M1) as (t2 & E2 & M2).
  eapply leads_write; [reflexivity | exact (succeeds_run _ _ _ E2) |]. set (next := perms_without_role (perms s) (role_id r0)) in *.
  assert (Hstep : in_step (Some (healthy t2)) next (stripped (role_id r0) <$> the_channels s) t2).
  { split; [done | exact M2 | | by apply removed_role_wf |].
    - eapply fitted_roles; [by apply fitted_stripped | by apply removed_role_wf | |].
      + unfold next, perms_without_role. cbn. rewrite length_imap, sort_by_key_perm. unfold retain.
        pose proof (length_filter (fun r => negb (role_id r =? role_id r0) = true) (ps_roles (perms s))).
        destruct Hroom as [_ Hroom]. unfold u32_max in Hroom. lia.
      + intros r Hr. unfold next, perms_without_role in Hr. cbn in Hr. apply elem_of_lookup_imap in Hr as (i & r1 & -> & Hi).
        apply list_elem_of_lookup_2 in Hi. rewrite sort_by_key_perm in Hi. apply elem_of_retain in Hi as [Hi _].
        exact (old_role_fits _ _ _ _ _ H Hi).
    - intros k c (c0 & <- & Hc)%lookup_fmap_Some. rewrite (proj1 (stripped_spec _ c0)). by eapply retain_targets, (is_targets _ _ _ _ H). }
  lead. apply leads_call. apply leads_call. do 2 lead. apply (leads_bind (fun _ => synced)).
  - apply leads_for_each; [|intros u s' Hs'; lead; by auto with sync].
    apply synced_broadcast, synced_broadcast, synced_modify_where. by apply (synced_channels _ _ t2).
  - intros [] s' Hs'. do 2 lead. by auto with sync.
Qed.

Lemma synced_reorder_roles client nonce ps s :
  synced s -> role_room (ps_roles (perms s)) -> leads (fun _ => synced) (reorder_roles client nonce ps) s.
Proof.
  intros Hs Hroom. unfold reorder_roles. apply leads_actor; [done | intros; by lead | intros a].
  lead. unfold perm_state. do 3 refused. lead. refused. apply negb_false_iff in Heqb. rename Heqb into Hdense, Heqb0 into Hev.
  destruct Hs as [t H]. pose proof (is_perms _ _ _ _ H) as Hwf. destruct (reposition_dense _ _ (wf_unique _ (proj1 Hwf)) Hdense) as (Hn & _ & _).
  destruct (set_role_positions_mirrors ps t (perms s) (the_channels s) Hn (is_mirrors _ _ _ _ H)) as (t1 & E1 & M1).
  eapply leads_write; [exact (is_store _ _ _ _ H) | exact (succeeds_run _ _ _ E1) |]. cbn [negb].
  do 3 lead. apply synced_send, synced_broadcast. apply (synced_swapped _ _ t1); [done|]. eapply in_step_perms; [exact H | | by apply reordered_wf | |].
  - eapply (mirrors_role_order _ _ _ (ps_roles (perms_reordered (perms s) ps))) in M1; [exact M1|].
    unfold perms_reordered. cbn [ps_roles]. by rewrite sort_by_key_perm.
  - unfold perms_reordered. cbn [ps_roles]. rewrite sort_by_key_perm, reposition_length. destruct Hroom as [_ Hroom]. unfold u32_max in Hroom. lia.
  - intros r Hr. unfold perms_reordered in Hr. cbn [ps_roles] in Hr. rewrite sort_by_key_perm in Hr.
    apply elem_of_repositioned in Hr as (r0 & Hr0 & -> & Hcol). unfold color_fits. rewrite Hcol. by eapply old_role_fits.
Qed.

Lemma synced_set_member_roles client nonce fp roles s :
  synced s -> role_room (ps_roles (perms s)) -> wf_fp fp -> leads (fun _ => synced) (set_member_roles client nonce fp roles) s.
Proof.
  intros Hs Hroom Hfp. unfold set_member_roles. apply leads_actor; [done | intros; by lead | intros a].
  lead. unfold perm_state. do 2 refused. lead. do 2 refused. lead. refused. lead.
  apply bool_decide_eq_false in Heqb. rename Heqb into Hev, Heqb0 into Hknown.
  destruct Hs as [t H]. destruct (replace_member_roles_mirrors fp roles t (perms s) (the_channels s) Hfp (is_mirrors _ _ _ _ H)) as [E1 | (t1 & E1 & M1)].
  { eapply leads_write; [exact (is_store _ _ _ _ H) | exact (succeeds_fail _ _ E1) |]. cbn [negb]. lead. apply synced_send.
    exists t. destruct H. by split. }
  eapply leads_write; [exact (is_store _ _ _ _ H) | exact (succeeds_run _ _ _ E1) |]. cbn [negb]. lead. apply leads_call.
  apply (leads_bind (fun _ => synced)).
  - apply leads_for_each; [|intros u s' Hs'; lead; by auto with sync]. apply synced_modify_where, (synced_swapped _ _ t1); [done|].
    eapply in_step_perms; [exact H | exact M1 | by apply grants_wf; [apply (is_perms _ _ _ _ H) | |] | |].
    + cbn. destruct Hroom as [_ Hroom]. unfold u32_max in Hroom. lia.
    + intros r Hr. by eapply old_role_fits.
  - intros [] s' Hs'. do 2 lead. by auto with sync.
Qed.

(** ** Overwrites *)

Lemma targets_replaced ows o :
  NoDup (map ow_target ows) -> NoDup (map ow_target (retain (fun o' => negb (bool_decide (ow_target o' = ow_target o))) ows ++ [o])).
Proof.
  intros H. rewrite map_app. apply NoDup_app. split_and!; [by apply retain_targets | | apply NoDup_singleton].
  intros x (o' & -> & Hin)%list_elem_of_fmap Hx. apply list_elem_of_singleton in Hx. apply elem_of_retain in Hin as [_ Hin].
  by apply negb_true_iff, bool_decide_eq_false in Hin.
Qed.

(** One channel's overwrites replaced, on disk and in memory. *)
Lemma overwritten s id c ows t t' :
  in_step (store s) (perms s) (the_channels s) t -> the_channels s !! id = Some c ->
  mirrors t' (perms s) (<[id := set_overwrites ows c]> (the_channels s)) ->
  (forall o, o ∈ ows -> overwrite_fits o) -> NoDup (map ow_target ows) ->
  in_step (Some (healthy t')) (perms s) (<[id := set_overwrites ows c]> (the_channels s)) t'.
Proof.
  intros H Hc M Hf Hn. destruct (fi_channels _ _ (is_fitted _ _ _ _ H) _ _ Hc) as [Hid Hch].
  eapply in_step_channels; [exact H | exact M | |].
  - by apply fitted_channel; [apply (is_fitted _ _ _ _ H) | | |].
  - intros k c' [[<- <-] | [_ Hk]]%lookup_insert_Some; [done | by apply (is_targets _ _ _ _ H k)].
Qed.

Lemma can_channel s client id bits : can s client id bits = true -> exists c, the_channels s !! id = Some c.
Proof. unfold can. intros H. destruct (the_clients s !! client); [|done]. destruct (the_channels s !! id) as [ch|]; [by exists ch | done]. Qed.

Lemma synced_store_overwrite client nonce id o s :
  synced s -> is_Some (the_channels s !! id) -> overwrite_fits o ->
  leads (fun _ => synced)
    (stored <- get has_store;;
     if negb stored then no_database client nonce else
     before <- get visible_ids_by_client;;
     saved <- store_exec (db_upsert_overwrite id o);;
     if negb saved then refuse client nonce Internal (lit "the change was not saved") else
     _changed <- call (fun s => set_channel_overwrite s id o);;
     update (fun s => resync_visibility s before [id]);;
     ack client nonce)%prog s.
Proof.
  intros [t H] [c Hc] Ho. lead. lead; [lead; apply synced_send; by exists t|]. lead.
  pose proof (is_targets _ _ _ _ H _ _ Hc) as Hn.
  destruct (upsert_overwrite_mirrors t (perms s) (the_channels s) id c (is_mirrors _ _ _ _ H) (is_fitted _ _ _ _ H) Hc o Ho Hn) as (t1 & E1 & M1).
  eapply leads_write; [exact (is_store _ _ _ _ H) | exact (succeeds_run _ _ _ E1) |]. cbn [negb]. apply leads_call. do 2 lead.
  apply synced_send, synced_resync. unfold set_channel_overwrite.
  change (the_channels (set_store (Some (healthy t1)) s)) with (the_channels s). rewrite Hc. cbn [snd]. apply (synced_channels _ _ t1); [done|].
  eapply (overwritten s); [exact H | done | exact M1 | | by apply targets_replaced].
  intros o' [[Hin _]%elem_of_retain | ->%list_elem_of_singleton]%elem_of_app; [by eapply (fi_overwrites _ _ (is_fitted _ _ _ _ H)) | done].
Qed.

Lemma synced_set_channel_overwrite client nonce id target allow deny s :
  synced s -> target_fits target -> leads (fun _ => synced) (set_channel_overwrite_cmd client nonce id target allow deny) s.
Proof.
  intros Hs Ht. unfold set_channel_overwrite_cmd. apply leads_actor; [done | intros; by lead | intros a].
  lead. refused. apply negb_false_iff, can_channel in Heqb as Hc. refused.
  set (allow' := intersect allow CHANNEL_SCOPED) in *. set (deny' := intersect deny CHANNEL_SCOPED) in *.
  pose proof (synced_store_overwrite client nonce id (mkOverwrite target allow' deny') s Hs Hc) as Htail.
  specialize (Htail ltac:(split_and!; [done | apply scoped_fits | apply scoped_fits])).
  apply (leads_bind (fun named s' => s' = s)); [by destruct target|]. intros named s' ->. refused. cbv zeta.
  lead; [|exact Htail]. do 2 lead. lead; [|lead; done]. lead. lead; [|lead; by auto with sync]. refused. exact Htail.
Qed.

Lemma synced_delete_channel_overwrite client nonce id target s :
  synced s -> target_fits target -> leads (fun _ => synced) (delete_channel_overwrite client nonce id target) s.
Proof.
  intros Hs Ht. unfold delete_channel_overwrite. apply leads_actor; [done | intros; by lead | intros a].
  lead. refused. apply negb_false_iff, can_channel in Heqb as [c Hc]. lead. refused. lead. destruct Hs as [t H].
  destruct (delete_overwrite_mirrors t (perms s) (the_channels s) id c (is_mirrors _ _ _ _ H) (is_fitted _ _ _ _ H) Hc target Ht) as (t1 & E1 & M1).
  eapply leads_write; [exact (is_store _ _ _ _ H) | exact (succeeds_run _ _ _ E1) |]. cbn [negb]. apply leads_call. do 2 lead.
  apply synced_send, synced_resync. unfold remove_channel_overwrite.
  change (the_channels (set_store (Some (healthy t1)) s)) with (the_channels s). rewrite Hc. cbn [snd]. apply (synced_channels _ _ t1); [done|].
  eapply (overwritten s); [exact H | done | exact M1 | | by eapply retain_targets, (is_targets _ _ _ _ H)].
  intros o' [Hin _]%elem_of_retain. by eapply (fi_overwrites _ _ (is_fitted _ _ _ _ H)).
Qed.

(** ** Channels *)

Lemma known_parent s p : synced s -> any (fun c => ch_id c =? p) (list_channels s) = true -> fits 32 p.
Proof.
  intros [t H] (c & Hc & E%Z.eqb_eq)%any_true. apply elem_of_btree_values in Hc as [k Hk].
  destruct (fi_channels _ _ (is_fitted _ _ _ _ H) _ _ Hk) as [_ [Hid _]]. by subst p.
Qed.

Lemma leads_validate {B} (Q : B -> Shared Database -> Prop) client nonce id name parent k s :
  synced s -> (forall s', synced s' -> leads Q (k None) s') ->
  (forall n, (forall p, parent = Some p -> fits 32 p) -> leads Q (k (Some n)) s) ->
  leads Q (bind (validate_channel client nonce id name parent) k) s.
Proof.
  intros Hs Hno Hyes. unfold validate_channel. cbv zeta. destruct (is_empty (trim name)).
  { do 3 lead. by apply Hno, synced_send. }
  destruct parent as [p|]; [|cbn [bind]; by apply Hyes]. do 2 lead.
  destruct (any _ (list_channels s)) eqn:E; cbn [negb]; [|do 3 lead; by apply Hno, synced_send].
  assert (Hp : forall q, Some p = Some q -> fits 32 q) by (intros q [= <-]; by eapply known_parent).
  destruct id as [child|]; [|cbn [bind]; by apply Hyes]. do 2 lead. lead; [|by lead].
  destruct b; [do 3 lead; by apply Hno, synced_send | cbn [bind]; by apply Hyes].
Qed.

Definition size_fits (max_users : option Z) (order : Z) : Prop :=
  (forall m, max_users = Some m -> fits 16 m) /\ - 2 ^ 31 <= order < 2 ^ 31.

Lemma synced_create_channel client nonce name parent topic kind max_users order s :
  synced s -> channel_room s -> size_fits max_users order ->
  leads (fun _ => synced) (create_channel client nonce name parent topic kind max_users order) s.
Proof.
  intros Hs Hroom [Hmax Hord]. unfold create_channel. lead. refused. apply leads_validate; [done | intros; by lead | intros n Hpar].
  lead. refused. lead. pose proof (next_channel_id_new s Hroom) as Hnew. destruct Hs as [t H].
  set (c := mkChannel (next_channel_id s) parent n topic kind max_users order []).
  destruct (insert_channel_mirrors c t (perms s) (the_channels s) Hnew eq_refl (is_mirrors _ _ _ _ H)) as (t1 & E1 & M1).
  eapply leads_write; [exact (is_store _ _ _ _ H) | exact (succeeds_run _ _ _ E1) |]. cbn [negb]. fold c. do 4 lead.
  apply synced_send, synced_resync. apply (synced_channels _ _ t1); [done|]. eapply in_step_channels; [exact H | exact M1 | |].
  - apply fitted_channel; [apply (is_fitted _ _ _ _ H) | done | | by intros o Ho%not_elem_of_nil].
    split; [by apply wrap_fits | split; [exact Hpar | split; [exact Hmax | exact Hord]]].
  - intros k c' [[<- <-] | [_ Hk]]%lookup_insert_Some; [constructor | by apply (is_targets _ _ _ _ H k)].
Qed.

Lemma synced_update_channel client nonce id parent name topic kind max_users order s :
  synced s -> size_fits max_users order ->
  leads (fun _ => synced) (update_channel client nonce id parent name topic kind max_users order) s.
Proof.
  intros Hs [Hmax Hord]. unfold update_channel. lead. refused. lead. refused. apply negb_false_iff, can_channel in Heqb0 as [old Hold].
  apply leads_validate; [done | intros; by lead | intros n Hpar]. lead. refused. destruct Hs as [t H].
  set (c := mkChannel id parent n topic kind max_users order []).
  destruct (update_channel_mirrors c old t (perms s) (the_channels s) Hold (is_mirrors _ _ _ _ H)) as (t1 & E1 & M1).
  eapply leads_write; [exact (is_store _ _ _ _ H) | exact (succeeds_run _ _ _ E1) |]. cbn [negb]. fold c. lead. apply leads_call. do 2 lead.
  apply synced_send, synced_resync. unfold update_channel_mem. change (the_channels (set_store (Some (healthy t1)) s)) with (the_channels s).
  cbn [ch_id c] in *. rewrite Hold. cbn [snd]. apply (synced_channels _ _ t1); [done|]. destruct (fi_channels _ _ (is_fitted _ _ _ _ H) _ _ Hold) as [Hkey [Hid _]]. rewrite Hkey in Hid.
  eapply in_step_channels; [exact H | exact M1 | |].
  - apply fitted_channel; [apply (is_fitted _ _ _ _ H) | done | | intros o Ho; by apply (fi_overwrites _ _ (is_fitted _ _ _ _ H) id old)].
    split; [exact Hid | split; [exact Hpar | split; [exact Hmax | exact Hord]]].
  - intros k c' [[<- <-] | [_ Hk]]%lookup_insert_Some; [by apply (is_targets _ _ _ _ H id old) | by apply (is_targets _ _ _ _ H k)].
Qed.

Lemma synced_remove_channel s id t :
  store s = Some (healthy t) -> in_step (Some (healthy t)) (perms s) (delete id (the_channels s)) t -> is_Some (the_channels s !! id) ->
  synced (remove_channel_mem s id).2.
Proof.
  intros Hs H [c Hc]. unfold remove_channel_mem. rewrite Hc. apply synced_modify_where. by apply (synced_channels _ _ t).
Qed.

Lemma synced_delete_channel client nonce id s : synced s -> leads (fun _ => synced) (delete_channel client nonce id) s.
Proof.
  intros Hs. unfold delete_channel. lead. refused. lead. refused. apply negb_false_iff, can_channel in Heqb0 as Hc. lead. refused.
  destruct Hs as [t H]. destruct (delete_channel_mirrors id t (perms s) (the_channels s) (is_mirrors _ _ _ _ H)) as (t1 & E1 & M1).
  eapply leads_write; [exact (is_store _ _ _ _ H) | exact (succeeds_run _ _ _ E1) |]. cbn [negb]. lead. apply leads_call.
  apply (leads_bind (fun _ => synced)).
  - apply leads_for_each; [|intros u s' Hs'; do 2 lead; by auto with sync]. apply (synced_remove_channel _ _ t1); [done | | done].
    eapply in_step_channels; [exact H | exact M1 | |].
    + destruct (is_fitted _ _ _ _ H) as [Hr Hch Ho]. split; [done | |]; intros k c'; [intros [_ Hk]%lookup_delete_Some | intros o [_ Hk]%lookup_delete_Some]; eauto.
    + intros k c' [_ Hk]%lookup_delete_Some. by apply (is_targets _ _ _ _ H k).
  - intros [] s' Hs'. do 2 lead. by auto with sync.
Qed.

(** ** Everything else *)

(** The tables administration keeps. *)
Definition same_tables (t : Tables) (d : Database) : Prop :=
  exists t', d = healthy t' /\ t_roles t' = t_roles t /\ t_members t' = t_members t /\ t_overwrites t' = t_overwrites t /\
    t_channels t' = t_channels t.

Lemma in_step_same db p chans t t' :
  in_step db p chans t -> t_roles t' = t_roles t -> t_members t' = t_members t -> t_overwrites t' = t_overwrites t ->
  t_channels t' = t_channels t -> in_step (Some (healthy t')) p chans t'.
Proof.
  intros [Hs [Hr Hm Hrows Hc Ho] Hf Hp Ht] E1 E2 E3 E4. split; try done. by split; rewrite ?E1, ?E2, ?E3, ?E4.
Qed.

Section Elsewhere.
Context (t : Tables) (p : PermState) (chans : gmap ChannelId Channel).

Abbreviation aside := (unchanged (same_tables t) p chans true).

Lemma stays_insert_message m : stays (same_tables t) (db_insert_message m).
Proof.
  intros d (t' & -> & E). cbn [db_insert_message sql_store]. unfold succeeds, insert_message. rewrite exec_runs.
  destruct (insert_row _ _ _) as [rows|]; cbn; [exists (set_messages rows t') | exists t']; by split.
Qed.
Lemma stays_insert_ban b : stays (same_tables t) (db_insert_ban b).
Proof. intros d (t' & -> & E). eexists. split; [reflexivity | exact E]. Qed.
Lemma stays_delete_ban fp : stays (same_tables t) (db_delete_ban fp).
Proof. intros d (t' & -> & E). eexists. split; [reflexivity | exact E]. Qed.
Lemma stays_list_bans : stays (same_tables t) db_list_bans.
Proof. intros d (t' & -> & E). cbn. unfold store_list_bans, sql_bind, decoded. cbn. eexists. split; [reflexivity | exact E]. Qed.
Lemma stays_active_ban fp now : stays (same_tables t) (db_active_ban fp now).
Proof.
  intros d (t' & -> & E). cbn. unfold active_ban, sql_bind, decoded. cbn. exists t'. split; [|exact E]. repeat (case_match; try done).
Qed.
Lemma stays_history c b l : stays (same_tables t) (db_history c b l).
Proof.
  intros d (t' & -> & E). cbn. unfold history, sql_bind, decoded. cbn. exists t'. split; [|exact E]. repeat (case_match; try done).
Qed.

Lemma aside_step {A} (err : A) f s : stays (same_tables t) f -> aside s -> aside (store_step err f s).2.
Proof. apply un_store_step. Qed.

Hint Resolve stays_insert_message stays_insert_ban stays_delete_ban stays_list_bans stays_active_ban stays_history : sync.
Hint Resolve un_send un_broadcast un_broadcast_filtered un_resync un_remove un_eject un_close un_admit un_join
  un_leave un_force_move un_set_voice_state un_set_server_muted un_set_nickname un_build_message un_relay
  un_take_frame un_drop_receiver un_clock aside_step : sync.

Ltac aside_handler := repeat safe_step ltac:(auto with sync) ltac:(apply safe_call; intros ? ? ?; split; [auto with sync |]).

Lemma aside_eject victim reason : safe (fun _ => True) aside (fun _ => True) (eject_and_close victim reason).
Proof. unfold eject_and_close. aside_handler. Qed.
Lemma aside_authorize client nonce bit target : safe (fun _ => True) aside (fun _ => True) (authorize_against_online client nonce bit target).
Proof. unfold authorize_against_online. aside_handler. Qed.
Hint Resolve aside_eject aside_authorize : safe.

Lemma aside_handle_control client m : administers m = false -> safe (fun _ => True) aside (fun _ => True) (handle_control client m).
Proof.
  destruct m; try done; intros _; cbn [handle_control];
    unfold kick, ban, unban, list_bans, set_server_mute, move_member, send_message, post_message, fetch_history, Session.join, typing; aside_handler.
Qed.

End Elsewhere.

(** ** The theorem *)

(** Messages whose integers have the widths the protocol gives them. *)
Definition control_fits (m : ClientControl) : Prop :=
  match m with
  | CUpdateRole _ _ _ color _ => forall c, color = Some (Some c) -> fits 32 c
  | CSetMemberRoles _ fp _ => wf_fp fp
  | CSetChannelOverwrite _ _ target _ _ | CDeleteChannelOverwrite _ _ target => target_fits target
  | CCreateChannel _ _ _ _ _ max_users order | CUpdateChannel _ _ _ _ _ _ max_users order => size_fits max_users order
  | _ => True
  end.

Lemma synced_handle_control client m s :
  synced s -> role_room (ps_roles (perms s)) -> channel_room s -> control_fits m ->
  leads (fun _ => synced) (handle_control client m) s.
Proof.
  intros Hs Hr Hc Hm. destruct (administers m) eqn:Ha.
  - destruct m; try done; cbn [handle_control].
    + by apply synced_create_role.
    + by apply synced_update_role.
    + by apply synced_delete_role.
    + by apply synced_reorder_roles.
    + by apply synced_set_member_roles.
    + by apply synced_set_channel_overwrite.
    + by apply synced_delete_channel_overwrite.
    + by apply synced_create_channel.
    + by apply synced_update_channel.
    + by apply synced_delete_channel.
  - destruct Hs as [t H].
    assert (Hu : unchanged (same_tables t) (perms s) (the_channels s) true s).
    { split; [done | done | unfold has_store; by rewrite (is_store _ _ _ _ H) |]. intros d Hd. rewrite (is_store _ _ _ _ H) in Hd. injection Hd as <-. by exists t. }
    pose proof (leads_safe _ _ _ _ (aside_handle_control t (perms s) (the_channels s) client m Ha) Hu) as Hl. unfold leads in *.
    destruct (run (handle_control client m) s) as [[u s']|] eqn:Er; [|done]. destruct Hl as [[Hp Hch Hatt Hst] _].
    unfold synced. rewrite Hp, Hch. destruct (store s') as [d|] eqn:Ed.
    + destruct (Hst d eq_refl) as (t' & -> & E1 & E2 & E3 & E4). exists t'. by eapply in_step_same.
    + unfold has_store in Hatt. by rewrite Ed in Hatt.
Qed.

(** Commands run to their ends, one after another. *)
Inductive administered : Shared Database -> list (ClientId * ClientControl) -> Shared Database -> Prop :=
| adm_done s : administered s [] s
| adm_next s client m s1 rest s' :
    role_room (ps_roles (perms s)) -> channel_room s -> control_fits m ->
    run (handle_control client m) s = Some (tt, s1) -> administered s1 rest s' -> administered s ((client, m) :: rest) s'.

Lemma administered_synced s ms s' : administered s ms s' -> synced s -> synced s'.
Proof.
  induction 1 as [|s client m s1 rest s' Hr Hc Hm Hrun _ IH]; [done|]. intros Hs. apply IH.
  pose proof (synced_handle_control client m s Hs Hr Hc Hm) as H. unfold leads in H. by rewrite Hrun in H.
Qed.

(** C1: a restart loses nothing: on a database that works, after any commands of any members,
    each run to its end, stopping the server and starting it again on the database gives the
    same roles in the same order, the same grants for every member, and the same channels with
    the same overwrites, as long as a channel is left (an empty list is seeded anew). *)
Theorem a_restart_loses_nothing s ms s' cfg ident cert now :
  synced s -> administered s ms s' -> the_channels s' <> ∅ ->
  exists d s'', store s' = Some d /\ boot cfg ident cert now d = (Some s'', d) /\ store s'' = Some d /\
    agree (perms s') (the_channels s') (perms s'') (the_channels s'').
Proof.
  intros Hs Hrun Hne. destruct (administered_synced _ _ _ Hrun Hs) as [t H]. pose proof (is_mirrors _ _ _ _ H) as Hm.
  exists (healthy t), (booted cfg ident cert now (healthy t)). split; [exact (is_store _ _ _ _ H)|]. split; [|split].
  - apply boot_loads.
    + intros E. apply Hne, map_empty. intros id. pose proof (mi_channels _ _ _ Hm id) as Hc. rewrite E in Hc. by destruct (the_channels s' !! id).
    + intros E. pose proof (mi_roles _ _ _ Hm) as Hr. rewrite E in Hr. apply Permutation_nil_l in Hr.
      destruct (is_perms _ _ _ _ H) as [Hw _]. apply (wf_inhabited _ Hw). by destruct (ps_roles (perms s')).
  - unfold booted. by destruct (wrap 64 <$> _).
  - by apply booted_agrees; [exact Hm | exact (is_fitted _ _ _ _ H) | exact (is_perms _ _ _ _ H)].
Qed.

(** ** The first boot *)

Lemma mirrors_nothing : mirrors empty_tables (mkPerms [] ∅) ∅.
Proof.
  split; cbn.
  - done.
  - intros fp _. by rewrite lookup_empty.
  - intros r Hr. by apply not_elem_of_nil in Hr.
  - intros id. by rewrite lookup_empty.
  - intros id. by rewrite lookup_empty.
Qed.

Lemma seed_channels cs t p chans :
  mirrors t p chans -> NoDup (map ch_id cs) -> (forall c, c ∈ cs -> chans !! ch_id c = None /\ ch_overwrites c = []) ->
  exists t', sql_each cs insert_channel (healthy t) = (Some tt, healthy t') /\
    mirrors t' p (fold_left (fun m c => <[ch_id c := c]> m) cs chans).
Proof.
  revert t chans; induction cs as [|c cs IH]; intros t chans Hm Hn Hc; [by exists t|]. cbn in Hn. apply NoDup_cons in Hn as [Hni Hn].
  destruct (Hc c ltac:(left)) as [Hfresh Hows]. destruct (insert_channel_mirrors c t p chans Hfresh Hows Hm) as (t1 & E1 & M1).
  destruct (IH t1 _ M1 Hn) as (t2 & E2 & M2).
  { intros c' Hin. destruct (Hc c' ltac:(by right)) as [Hf Ho]. split; [|done]. rewrite lookup_insert_ne; [done|].
    intros E. apply Hni. rewrite E. by apply (list_elem_of_fmap_2 ch_id). }
  exists t2. split; [|exact M2]. cbn [sql_each]. by rewrite (sql_bind_runs _ _ _ _ _ E1).
Qed.

Lemma seed_roles rs t p chans :
  mirrors t p chans -> NoDup (role_ids (ps_roles p ++ rs)) ->
  exists t', sql_each rs insert_role (healthy t) = (Some tt, healthy t') /\ mirrors t' (mkPerms (ps_roles p ++ rs) (ps_members p)) chans.
Proof.
  revert t p; induction rs as [|r rs IH]; intros t p Hm Hn.
  { exists t. split; [done|]. rewrite app_nil_r. by destruct p. }
  assert (Hni : role_id r ∉ role_ids (ps_roles p)).
  { unfold role_ids in *. rewrite map_app in Hn. apply NoDup_app in Hn as (_ & Hn & _). intros Hin. apply (Hn _ Hin). left. }
  destruct (insert_role_mirrors r t p chans Hni Hm) as (t1 & E1 & M1).
  destruct (IH t1 _ M1) as (t2 & E2 & M2); [cbn [ps_roles]; by rewrite <- app_assoc|].
  exists t2. split; [cbn [sql_each]; by rewrite (sql_bind_runs _ _ _ _ _ E1)|]. cbn [ps_roles ps_members] in M2. by rewrite <- app_assoc in M2.
Qed.

(** The numbers in a configuration have their widths, and the channels can be numbered. *)
Definition config_fits (cfg : ServerConfig) : Prop :=
  Z.of_nat (length (cfg_channels cfg)) < 2 ^ 32 - 1 /\
  Forall (fun c => size_fits (cfg_ch_max_users c) (cfg_ch_order c)) (cfg_channels cfg).

Lemma built_channel cfg c :
  well_formed cfg -> config_fits cfg -> c ∈ build_channels cfg -> channel_fits c /\ ch_overwrites c = [].
Proof.
  intros Hwf [Hl Hf] Hin. unfold build_channels in Hin. apply elem_of_lookup_imap in Hin as (i & k & -> & Hk).
  pose proof (lookup_lt_Some _ _ _ Hk) as Hi. rewrite Forall_forall in Hf. destruct (Hf k) as [Hmax Hord]; [by eapply list_elem_of_lookup_2|].
  split; [|done]. split; [unfold fits; cbn; lia|]. split; [|split; [exact Hmax | exact Hord]]. cbn [ch_parent].
  intros p Hp. destruct (cfg_ch_parent k) as [name|]; [|done]. cbn in Hp. destruct (find _ _) as [[n q]|] eqn:E; [|done].
  injection Hp as <-. apply find_some in E as [E _]. rewrite elem_of_reverse in E. apply elem_of_lookup_imap in E as (j & k' & [= _ ->] & Hj).
  pose proof (lookup_lt_Some _ _ _ Hj). unfold fits. lia.
Qed.

Lemma built_ids cfg : NoDup (map ch_id (build_channels cfg)).
Proof.
  replace (map ch_id (build_channels cfg)) with (map (fun i => Z.of_nat i + 1) (seq 0 (length (cfg_channels cfg)))).
  { apply NoDup_fmap_2; [intros x y; lia | apply NoDup_seq]. }
  apply list_eq. intros i. unfold build_channels. rewrite !list_lookup_fmap, list_lookup_imap.
  destruct (cfg_channels cfg !! i) eqn:E; [rewrite lookup_seq_lt by (by eapply lookup_lt_Some) | rewrite lookup_seq_ge by (by apply lookup_ge_None)]; done.
Qed.

Lemma default_roles_fit r : r ∈ default_roles -> fits 32 (role_id r) /\ color_fits r.
Proof. unfold default_roles. rewrite !elem_of_cons. intros [-> | [-> | [-> | []%not_elem_of_nil]]]; by split. Qed.

(** The first start of a server with a valid configuration puts the configured channels and
    the three default roles in the database and in memory, grants nobody anything, and leaves
    the two in step: what [a_restart_loses_nothing] starts from. *)
Theorem the_first_boot_seeds cfg ident cert now :
  validate cfg = inr tt -> config_fits cfg ->
  exists t s, boot cfg ident cert now (healthy empty_tables) = (Some s, healthy t) /\ synced s /\
    perms s = PermState_defaults /\
    (forall id c, the_channels s !! id = Some c <-> c ∈ build_channels cfg /\ ch_id c = id) /\
    next_message_id (inner s) = 1 /\ the_clients s = ∅.
Proof.
  intros Hv%validate_spec Hfit. set (chans := fold_left (fun m c => <[ch_id c := c]> m) (build_channels cfg) (∅ : gmap ChannelId Channel)).
  assert (Hlook : forall id c, chans !! id = Some c <-> c ∈ build_channels cfg /\ ch_id c = id) by (intros; apply fold_insert_lookup, built_ids).
  destruct (seed_channels (build_channels cfg) empty_tables _ ∅ mirrors_nothing (built_ids cfg)) as (t1 & E1 & M1).
  { intros c Hin. split; [apply lookup_empty|]. by destruct (built_channel cfg c Hv Hfit Hin). }
  destruct (seed_roles default_roles t1 _ _ M1) as (t2 & E2 & M2); [apply (wf_unique _ (proj1 default_roles_wf))|]. cbn [ps_roles ps_members app] in M2. fold chans in M1, M2.
  assert (Hr1 : t_roles t1 = []) by (apply Permutation_nil_r; exact (mi_roles _ _ _ M1)).
  assert (Hows : t_overwrites t2 = []).
  { destruct (t_overwrites t2) as [|r rows] eqn:E; [done|]. exfalso.
    assert (Hin : r ∈ overwrite_rows_of (or_channel r) (t_overwrites t2)) by (apply elem_of_retain; rewrite E; split; [left | apply Z.eqb_refl]).
    rewrite (mi_overwrites _ _ _ M2) in Hin. destruct (chans !! or_channel r) as [c|] eqn:Ec; [|by apply not_elem_of_nil in Hin].
    apply Hlook in Ec as [Hc _]. destruct (built_channel cfg c Hv Hfit Hc) as [_ Ho]. rewrite Ho in Hin. by apply not_elem_of_nil in Hin. }
  assert (Hmem : t_members t2 = []).
  { destruct (t_members t2) as [|r rows] eqn:E; [done|]. exfalso. destruct (mi_member_rows _ _ _ M2 r) as (fp & Hfp & Hr); [rewrite E; left|].
    pose proof (mi_members _ _ _ M2 fp Hfp) as H. cbn in H. rewrite lookup_empty in H. apply Permutation_nil_r in H. rewrite E in H.
    unfold rows_of_member in H. rewrite retain_cons, bool_decide_eq_true_2 in H by done. done. }
  exists t2, (attach_store (new_shared cfg ident cert (build_channels cfg) PermState_defaults now) (healthy t2)).
  assert (Hne : is_empty (build_channels cfg) = false).
  { apply is_empty_false. intros E. destruct Hv as (_ & _ & _ & c & Hc & _). apply (f_equal length) in E. unfold build_channels in E.
    rewrite length_imap in E. destruct (cfg_channels cfg); [by apply not_elem_of_nil in Hc | done]. }
  assert (Hscan : forall A, scan (@nil A) = []) by (intros A; apply Permutation_nil_r, scan_perm).
  split; [|split_and!; try done].
  - unfold boot, seeded, load_channels, load_roles, highest_message_id, load_overwrites, load_role_members, healthy in *.
    unfold sql_bind at 1. rewrite query_runs. unfold sql_bind at 1. rewrite query_runs. cbn [t_channels empty_tables]. rewrite Hscan. cbn [order_asc sort_by_key foldr map is_empty].
    unfold sql_bind at 1, sql_bind at 1. rewrite E1. unfold sql_ret at 1. unfold sql_bind at 1. rewrite query_runs, Hr1, Hscan. cbn [order_asc sort_by_key foldr map is_empty].
    unfold sql_bind at 1, sql_bind at 1. rewrite E2. unfold sql_ret at 1. unfold sql_bind at 1. rewrite query_runs, Hows, Hscan.
    unfold sql_bind at 1. rewrite query_runs, Hmem, Hscan. done.
  - exists t2. split; [done | exact M2 | | exact default_roles_wf |].
    + split; cbn [ps_roles].
      * intros r Hr. destruct (default_roles_fit r Hr). eapply (roles_fit default_roles); try done. apply default_roles_wf.
      * intros id c Hc. apply Hlook in Hc as [Hc Hid]. by destruct (built_channel cfg c Hv Hfit Hc).
      * intros id c o Hc Ho. apply Hlook in Hc as [Hc Hid]. destruct (built_channel cfg c Hv Hfit Hc) as [_ E]. rewrite E in Ho. by apply not_elem_of_nil in Ho.
    + intros id c Hc. apply Hlook in Hc as [Hc Hid]. destruct (built_channel cfg c Hv Hfit Hc) as [_ ->]. constructor.
Qed.

End Restart.

(** ** A restart on the concrete server

    The sample configuration started on an empty database, alice logged in, one role and one
    channel made, one overwrite set, then a second start. *)

Module Sample_restart.

(** The first boot. *)
Definition first : option (Shared Database) :=
  fst (boot Sample.config (Sample.ident 0) (replicate 32 9) 1000 (healthy empty_tables)).
Definition opened : Shared Database := default Sample.server first.

(** alice, who owns the server, comes in as client 1. *)
Definition inhabited : Shared Database := Sample.enter 1 (lit "alice") opened.

Definition commands : list (ClientId * ClientControl) :=
  [ (1, CCreateRole 5 (lit "helpers") SPEAK);
    (1, CCreateChannel 6 (lit "attic") (Some 1) [] VoiceAndText None 7);
    (1, CSetChannelOverwrite 7 4 (TRole 3) 0 VIEW_CHANNEL) ].

Definition step (s : Shared Database) (m : ClientId * ClientControl) : Shared Database :=
  default s (snd <$> run (handle_control m.1 m.2) s).
Definition final : Shared Database := fold_left step commands inhabited.

Lemma holds_something (m : gmap ChannelId Channel) :
  match m !! 4 with Some _ => true | None => false end = true -> m <> ∅.
Proof. by intros H ->. Qed.

Lemma config_valid : validate Sample.config = inr tt.
Proof. reflexivity. Qed.

Lemma sample_config_fits : config_fits Sample.config.
Proof.
  split; [done|]. apply Forall_forall. intros c. cbn [cfg_channels Sample.config]. rewrite !elem_of_cons.
  intros [-> | [-> | [-> | []%not_elem_of_nil]]]; (split; [|done]); intros m [= <-]; done.
Qed.

Lemma the_first_boot_seeds_witness :
  validate Sample.config = inr tt /\ config_fits Sample.config /\
  exists t s, boot Sample.config (Sample.ident 0) (replicate 32 9) 1000 (healthy empty_tables) = (Some s, healthy t) /\ synced s.
Proof.
  split; [exact config_valid|]. split; [exact sample_config_fits|].
  destruct (the_first_boot_seeds Sample.config (Sample.ident 0) (replicate 32 9) 1000 config_valid sample_config_fits)
    as (t & s & E & Hs & _).
  by exists t, s.
Defined.

Lemma administered_step s m rest s' :
  has_room s = true -> control_fits m.2 -> fst <$> run (handle_control m.1 m.2) s = Some tt ->
  administered (step s m) rest s' -> administered s (m :: rest) s'.
Proof.
  destruct m as [client m]. unfold step. cbn [fst snd]. intros [Hr Hc]%has_room_spec Hm Hrun H.
  destruct (run (handle_control client m) s) as [[[] s1]|] eqn:E; [|done]. by eapply adm_next.
Qed.

Lemma opened_synced : synced opened.
Proof.
  unfold opened, first.
  destruct (the_first_boot_seeds Sample.config (Sample.ident 0) (replicate 32 9) 1000 config_valid sample_config_fits)
    as (t & s & -> & Hs & _). exact Hs.
Qed.

Lemma inhabited_synced : synced inhabited.
Proof.
  unfold inhabited, Sample.enter. generalize opened_synced. generalize opened. intros s [t H]. exists t.
  unfold admit_client. by repeat case_match.
Qed.

Lemma session : administered inhabited commands final.
Proof.
  unfold final, commands. cbn [fold_left].
  do 3 (apply administered_step; [vm_compute; reflexivity | by try (cbn; unfold size_fits, fits; naive_solver lia) | vm_compute; reflexivity |]).
  apply adm_done.
Qed.

(** The role, the channel and its overwrite are in memory before the restart, and the theorem
    finds them after it. *)
Lemma a_restart_loses_nothing_witness :
  (fun c => ch_overwrites c) <$> (the_channels final !! 4) = Some [mkOverwrite (TRole 3) 0 VIEW_CHANNEL] /\
  synced inhabited /\ administered inhabited commands final /\
  exists d s'', store final = Some d /\ boot Sample.config (Sample.ident 0) (replicate 32 9) 2000 d = (Some s'', d) /\
    agree (perms final) (the_channels final) (perms s'') (the_channels s'').
Proof.
  split; [vm_compute; reflexivity|]. split; [exact inhabited_synced|]. split; [exact session|].
  destruct (a_restart_loses_nothing inhabited commands final Sample.config (Sample.ident 0) (replicate 32 9) 2000
    inhabited_synced session) as (d & s'' & H1 & H2 & _ & H3).
  - apply holds_something. vm_compute. reflexivity.
  - exists d, s''. split; [exact H1|]. split; [exact H2 | exact H3].
Defined.

End Sample_restart.
