(* ===== verification/Trust.v ===== *)
(** * Pinned server identities ([crates/pickle-client/src/trust.rs])

    The trust store: which identity each address presented when the user first accepted it,
    what to make of the identity it presents now, and the file the pins are kept in. *)

From S2P Require Export Keystore.

Inductive TrustError : Type :=
| TIo (path : Path) (source : IoErr)
| TMalformed (path : Path).

Record TrustedServer : Type := mkTrusted {
  ts_fingerprint : Fingerprint; ts_name : rstring; ts_first_seen : Z; ts_last_seen : Z }.

Inductive TrustDecision : Type :=
| FirstContact (fp : Fingerprint)
| Recognised
| Changed (expected actual : Fingerprint).

(** The file's one field. *)
Abbreviation StoreFile := (gmap rstring TrustedServer) (only parsing).

Record TrustStore : Type := mkTrust { tr_path : Path; tr_servers : StoreFile }.

Definition set_servers (x : StoreFile) (store : TrustStore) : TrustStore := mkTrust (tr_path store) x.

(** An in-memory store: no path. *)
Definition ephemeral : TrustStore := mkTrust [] ∅.

Definition trust_get (store : TrustStore) (address : rstring) : option TrustedServer := tr_servers store !! address.

Definition check (store : TrustStore) (address : rstring) (fp : Fingerprint) : TrustDecision :=
  match tr_servers store !! address with
  | None => FirstContact fp
  | Some known =>
      if bool_decide (ts_fingerprint known = fp) then Recognised else Changed (ts_fingerprint known) fp
  end.

(** [now] is the time of day. *)
Definition trust (now : Z) (address : rstring) (fp : Fingerprint) (name : rstring) (store : TrustStore) : TrustStore :=
  let entry := default (mkTrusted fp name now now) (tr_servers store !! address) in
  set_servers (<[address := mkTrusted fp name (ts_first_seen entry) now]> (tr_servers store)) store.

Definition forget (address : rstring) (store : TrustStore) : bool * TrustStore :=
  (match tr_servers store !! address with Some _ => true | None => false end,
   set_servers (delete address (tr_servers store)) store).

(** [iter]: a [BTreeMap] goes by its keys, and strings compare by their bytes. *)
Fixpoint bytes_leb (a b : bytes) : bool :=
  match a, b with
  | [], _ => true
  | _ :: _, [] => false
  | x :: a, y :: b => (x <? y) || (x =? y) && bytes_leb a b
  end.

Definition trust_iter (store : TrustStore) : list (rstring * TrustedServer) :=
  merge_sort (fun x y => Is_true (bytes_leb (as_bytes x.1) (as_bytes y.1))) (map_to_list (tr_servers store)).

Section Files.
Context {J : Json StoreFile}.

Definition trust_open (path : Path) : fprog TrustError TrustStore :=
  bind (call (read_to_string path)) (fun r =>
    match r with
    | inr raw => match from_json raw with Some file => ok (mkTrust path file) | None => fail (TMalformed path) end
    | inl NotFound => ok (mkTrust path ∅)
    | inl e => fail (TIo path e)
    end).

(** The file is rewritten in place; an ephemeral store has none. *)
Definition trust_save (store : TrustStore) : fprog TrustError unit :=
  match tr_path store with
  | [] => ok tt
  | path => (_ <-? ensure_parent (TIo path) path;; fs_write (TIo path) path (to_json (tr_servers store)))%prog
  end.

End Files.

(** ** What the pins say *)

(** The identity pinned under an address. *)
Definition pin (store : TrustStore) (address : rstring) : option Fingerprint := ts_fingerprint <$> tr_servers store !! address.

Lemma check_pin store address fp :
  check store address fp = match pin store address with
    | None => FirstContact fp
    | Some p => if bool_decide (p = fp) then Recognised else Changed p fp
    end.
Proof. unfold check, pin. by destruct (tr_servers store !! address). Qed.

Lemma check_recognised store address fp : check store address fp = Recognised <-> pin store address = Some fp.
Proof. rewrite check_pin. destruct (pin store address) as [p|]; [|done]. case_bool_decide; split; congruence. Qed.

Lemma pin_trust now address fp name store a :
  pin (trust now address fp name store) a = if bool_decide (a = address) then Some fp else pin store a.
Proof.
  unfold pin, trust, set_servers. cbn [tr_servers]. case_bool_decide as H; [by rewrite H, lookup_insert_eq | by rewrite lookup_insert_ne].
Qed.

Lemma pin_forget address store a :
  pin (forget address store).2 a = if bool_decide (a = address) then None else pin store a.
Proof.
  unfold pin, forget, set_servers. cbn [tr_servers snd]. case_bool_decide as H; [by rewrite H, lookup_delete_eq | by rewrite lookup_delete_ne].
Qed.

(** Pinning again keeps when the server was first seen. *)
Lemma trust_keeps_first_seen now address fp name store known :
  tr_servers store !! address = Some known ->
  ts_first_seen <$> tr_servers (trust now address fp name store) !! address = Some (ts_first_seen known).
Proof. intros H. unfold trust, set_servers. rewrite H. cbn [tr_servers]. by rewrite lookup_insert_eq. Qed.

(** ** The file *)

Section FileLemmas.
Context {J : Json StoreFile} {JL : JsonLaws StoreFile J}.

Lemma trust_save_always store d :
  tr_path store <> [] ->
  always (fun d' => file_at d' (tr_path store) = file_at d (tr_path store) \/ begun (tr_path store) (to_json (tr_servers store)) d')
    (fun r d' => match r with
      | inr _ => exists n, file_at d' (tr_path store) = Some n /\ in_data n = to_json (tr_servers store)
      | inl _ => True
      end) (trust_save store) d.
Proof.
  intros Hne. unfold trust_save. destruct (tr_path store) as [|c p] eqn:Hp; [done|].
  set (path := c :: p). set (bs := to_json _).
  assert (Hf : files_only (fun d' => file_at d' path = file_at d path \/ begun path bs d')).
  { intros d1 d2 Hs [H | H]; [left; by rewrite (file_at_same _ _ path Hs) | right; by eapply begun_files_only]. }
  eapply (always_try (fun _ d' => same_files d d')); [by apply ensure_parent_files; [|left] | done |].
  intros [] d1 Hs _. eapply always_weaken; [apply fs_write_always | | done].
  intros d2. by rewrite (file_at_same _ _ path Hs).
Qed.

Lemma trust_open_always (I : Disk -> Prop) path d :
  files_only I -> I d ->
  always I (fun r d' => same_files d d' /\ match r with
    | inr store => tr_path store = path /\ match file_at d path with
        | Some n => from_json (in_data n) = Some (tr_servers store)
        | None => tr_servers store = ∅
        end
    | inl (TMalformed _) => exists n, file_at d path = Some n /\ from_json (in_data n) = None
    | inl (TIo q _) => q = path
    end) (trust_open path) d.
Proof.
  intros Hf HI. simpl. split; [done|]. destruct (read_to_string path d) as [r d'] eqn:E.
  apply read_to_string_inv in E as [Hs Hr]. pose proof (Hf _ _ Hs HI). cbn.
  destruct r as [[]| raw]; try done.
  - split; [done|]. split; [done|]. by rewrite Hr.
  - destruct Hr as (n & Hn & <- & _). destruct (from_json (in_data n)) as [file|] eqn:Ej; (split; [done|]); (split; [done|]).
    + cbn. by rewrite Hn.
    + eauto.
Qed.

(** A store that was saved without an error reads back with the pins it had, unless the disk
    refuses the read. *)
Lemma saved_pins_are_read_back store d d' :
  tr_path store <> [] -> run (trust_save store) d = Some (inr tt, d') ->
  ends (fun r d'' => same_files d' d'' /\ match r with
    | inr store' => store' = store
    | inl e => exists source, e = TIo (tr_path store) source
    end) (trust_open (tr_path store)) d'.
Proof.
  intros Hne Hrun. pose proof (always_ends _ _ _ (trust_save_always store d Hne)) as Hs. unfold ends in Hs.
  rewrite Hrun in Hs. destruct Hs as (_ & n & Hn & Hj).
  pose proof (always_ends _ _ _ (trust_open_always (fun _ => True) (tr_path store) d' ltac:(done) Logic.I)) as Ho.
  eapply ends_weaken; [exact Ho|]. intros r d2 (_ & Hs & Hr). split; [done|].
  destruct r as [[path e | path] | store'].
  - subst path. by exists e.
  - destruct Hr as (n' & Hn' & Hj'). rewrite Hn in Hn'. injection Hn' as <-. rewrite Hj, json_reads in Hj'. done.
  - rewrite Hn, Hj, json_reads in Hr. destruct Hr as [Hp [= E]]. destruct store, store'. cbn in *. congruence.
Qed.

End FileLemmas.
