(* ===== verification/Client.v ===== *)
(** * The client library ([crates/pickle-client/src/lib.rs])

    One connection attempt from the socket to the login verdict, the rules by which a server's
    identity is trusted, the handle a program sends through, and the translation of what
    arrives.  What the network does is a parameter: a [Wire] says how each step of the attempt
    comes out, and what the server answers to the login it is sent. *)

From S2P Require Export Frame Trust State.

(** ** Errors *)

Inductive RejectionReason : Type :=
| RProtocolMismatch (server_version : Z)
| RSecurityLevelTooLow (required provided : Z)
| RBadSignature
| RPasswordRequired
| RBadPassword
| RBanned (reason : rstring)
| RServerFull
| RNicknameRejected (reason : rstring).

(** [From<AuthFailure>] *)
Definition rejection_reason (failure : AuthFailure) : RejectionReason :=
  match failure with
  | ProtocolMismatch server_version => RProtocolMismatch server_version
  | SecurityLevelTooLow required provided => RSecurityLevelTooLow required provided
  | AuthBadSignature => RBadSignature
  | PasswordRequired => RPasswordRequired
  | BadPassword => RBadPassword
  | AuthBanned reason _ => RBanned reason
  | ServerFull => RServerFull
  | NicknameRejected reason => RNicknameRejected reason
  end.

Inductive ConnectError : Type :=
| CeTls
| CeTransport (address : SocketAddr)
| CeCodec (e : CodecError)
| CeClosedDuringHandshake
| CeTimedOut
| CeUnreachable (address : SocketAddr)
| CeUnexpectedGreeting (what : rstring)
| CeProtocolMismatch (ours theirs : Z)
| CeNoPeerCertificate
| CeForgedGreeting (fp : Fingerprint)
| CeIdentityChanged (address : rstring) (expected actual : Fingerprint)
| CeNotTrusted (address : rstring) (fp : Fingerprint)
| CeRejected (reason : RejectionReason).

(** ** Options *)

Inductive TrustPolicy : Type := OnFirstUse | Strict | Insecure.

#[global] Instance TrustPolicy_eq_dec : EqDecision TrustPolicy.
Proof. solve_decision. Defined.

Record ConnectOptions : Type := mkOptions {
  co_address : SocketAddr; co_nickname : rstring; co_password : option rstring;
  co_trust : TrustPolicy; co_server_key : option rstring }.

Definition new_options (address : SocketAddr) (nickname : rstring) : ConnectOptions :=
  mkOptions address nickname None OnFirstUse None.

(** [str::to_ascii_lowercase] of the trimmed key. *)
Definition normalise_server_key (key : rstring) : rstring := map ascii_lower (trim key).

Definition with_server_key (key : rstring) (o : ConnectOptions) : ConnectOptions :=
  mkOptions (co_address o) (co_nickname o) (co_password o) (co_trust o) (Some (normalise_server_key key)).
Definition with_password (password : rstring) (o : ConnectOptions) : ConnectOptions :=
  mkOptions (co_address o) (co_nickname o) (Some password) (co_trust o) (co_server_key o).
Definition with_trust (trust : TrustPolicy) (o : ConnectOptions) : ConnectOptions :=
  mkOptions (co_address o) (co_nickname o) (co_password o) trust (co_server_key o).

(** ** How an address is written *)

Fixpoint hex (fuel : nat) (n : Z) (acc : rstring) : rstring :=
  match fuel with
  | O => acc
  | S f =>
      let digit := if n mod 16 <? 10 then 48 + n mod 16 else 87 + n mod 16 in
      if n <? 16 then digit :: acc else hex f (n / 16) (digit :: acc)
  end.

Fixpoint join_with (sep : rstring) (parts : list rstring) : rstring :=
  match parts with
  | [] => []
  | [p] => p
  | p :: rest => p ++ sep ++ join_with sep rest
  end.

Definition ipv4_text (octets : list Z) : rstring := join_with (lit ".") (map dec octets).

Fixpoint segments (octets : list Z) : list Z :=
  match octets with
  | hi :: lo :: rest => hi * 256 + lo :: segments rest
  | _ => []
  end.

(** The first longest run of zero segments: where it starts and how long it is. *)
Fixpoint longest_zeros (i : nat) (segs : list Z) (current longest : nat * nat) : nat * nat :=
  match segs with
  | [] => longest
  | s :: rest =>
      if s =? 0 then
        let current := (if (current.2 =? 0)%nat then i else current.1, S current.2) in
        longest_zeros (S i) rest current (if (longest.2 <? current.2)%nat then current else longest)
      else longest_zeros (S i) rest (0%nat, 0%nat) longest
  end.

Definition segments_text (segs : list Z) : rstring := join_with (lit ":") (map (fun s => hex 4 s []) segs).

Definition ipv6_text (octets : list Z) : rstring :=
  let segs := segments octets in
  if bool_decide (take 12 octets = replicate 10 0 ++ [255; 255])
  then lit "::ffff:" ++ ipv4_text (drop 12 octets)
  else
    let '(start, len) := longest_zeros 0 segs (0%nat, 0%nat) (0%nat, 0%nat) in
    if (1 <? len)%nat
    then segments_text (take start segs) ++ lit "::" ++ segments_text (drop (start + len) segs)
    else segments_text segs.

(** [SocketAddr::to_string] *)
Definition addr_to_string (a : SocketAddr) : rstring :=
  if (length (sa_ip a) =? 4)%nat then ipv4_text (sa_ip a) ++ lit ":" ++ dec (sa_port a)
  else lit "[" ++ ipv6_text (sa_ip a) ++ lit "]:" ++ dec (sa_port a).

Example a_literal_v4 : addr_to_string (mkAddr [192; 168; 1; 7] 42071) = lit "192.168.1.7:42071".
Proof. reflexivity. Qed.
Example a_literal_v6 :
  addr_to_string (mkAddr ([32; 1; 13; 184] ++ replicate 11 0 ++ [1]) 443) = lit "[2001:db8::1]:443".
Proof. reflexivity. Qed.

(** ** What arrives *)

Inductive ClientEvent : Type :=
| EvUserJoined (user : UserInfo)
| EvUserLeft (client : ClientId) (reason : DisconnectReason)
| EvUserMoved (client : ClientId) (from to : option ChannelId)
| EvUserUpdated (user : UserInfo)
| EvVoiceActivity (client : ClientId) (speaking : bool)
| EvChannelCreated (channel : Channel)
| EvChannelUpdated (channel : Channel)
| EvChannelRemoved (channel : ChannelId)
| EvMessagePosted (message : ChatMessage) (nonce : option Z)
| EvMessageEdited (id : MessageId) (content : rstring) (edited_at : Z)
| EvMessageDeleted (id : MessageId)
| EvHistory (channel : ChannelId) (messages : list ChatMessage) (reached_start : bool)
| EvTyping (client : ClientId) (channel : ChannelId)
| EvRoleCreated (role : Role)
| EvRoleUpdated (role : Role)
| EvRoleDeleted (id : RoleId)
| EvRolesReordered (positions : list (RoleId * Z))
| EvBanList (bans : list BanEntry)
| EvAck (nonce : Z)
| EvCommandFailed (nonce : Z) (code : ErrorCode) (detail : rstring)
| EvVoice (packet : VoiceDownstream)
| EvPong (nonce : Z)
| EvServerError (code : ErrorCode) (detail : rstring)
| EvDisconnected (reason : rstring).

Definition translate (message : ServerControl) : option ClientEvent :=
  match message with
  | SUserJoined info => Some (EvUserJoined info)
  | SUserLeft client reason => Some (EvUserLeft client reason)
  | SUserMoved client from to => Some (EvUserMoved client from to)
  | SUserUpdated info => Some (EvUserUpdated info)
  | SVoiceActivity client speaking => Some (EvVoiceActivity client speaking)
  | SChannelCreated channel => Some (EvChannelCreated channel)
  | SChannelUpdated channel => Some (EvChannelUpdated channel)
  | SChannelRemoved id => Some (EvChannelRemoved id)
  | SMessagePosted message nonce => Some (EvMessagePosted message nonce)
  | SMessageEdited id content edited_at => Some (EvMessageEdited id content edited_at)
  | SMessageDeleted id => Some (EvMessageDeleted id)
  | SHistory channel messages reached_start => Some (EvHistory channel messages reached_start)
  | STyping client channel => Some (EvTyping client channel)
  | SPong nonce => Some (EvPong nonce)
  | SError code detail => Some (EvServerError code detail)
  | SReactionUpdated _ _ => None
  | SRoleCreated role => Some (EvRoleCreated role)
  | SRoleUpdated role => Some (EvRoleUpdated role)
  | SRoleDeleted id => Some (EvRoleDeleted id)
  | SRolesReordered positions => Some (EvRolesReordered positions)
  | SBanList bans => Some (EvBanList bans)
  | SAck nonce => Some (EvAck nonce)
  | SCommandFailed nonce code detail => Some (EvCommandFailed nonce code detail)
  | SHello _ | SAuthOk _ | SAuthFailed _ => None
  end.

Definition describe (message : ServerControl) : rstring :=
  match message with
  | SHello _ => lit "Hello"
  | SAuthOk _ => lit "AuthOk"
  | SAuthFailed _ => lit "AuthFailed"
  | SError _ _ => lit "Error"
  | _ => lit "an unexpected message"
  end.

(** The inbound control task, on the frames it reads: the events it sends, up to the one that
    ends the stream. [text] is how an error other than a clean close is put in words. *)
Fixpoint inbound_control (text : CodecError -> rstring) (frames : list (CodecError + ServerControl)) : list ClientEvent :=
  match frames with
  | [] => []
  | inr message :: rest =>
      match translate message with
      | Some event => event :: inbound_control text rest
      | None => inbound_control text rest
      end
  | inl e :: _ =>
      [EvDisconnected (if is_clean_close e then lit "the server closed the connection" else text e)]
  end.

(** The inbound voice task, on the datagrams it reads. *)
Fixpoint inbound_voice (datagrams : list bytes) : list ClientEvent :=
  match datagrams with
  | [] => []
  | datagram :: rest =>
      match decode_down datagram with
      | inr packet => EvVoice packet :: inbound_voice rest
      | inl _ => inbound_voice rest
      end
  end.

(** ** The handle *)

Record SessionInfo : Type := mkSession {
  si_client_id : ClientId; si_server_name : rstring; si_server_identity : PublicIdentity;
  si_channels : list Channel; si_users : list UserInfo; si_roles : list Role;
  si_default_channel : option ChannelId; si_limits : ServerLimits }.

(** The session an accepted login opens. *)
Definition session_of (hello : ServerHello) (ok : AuthOk) : SessionInfo :=
  mkSession (ok_client_id ok) (sh_server_name hello) (sh_server_identity hello) (ok_channels ok) (ok_users ok)
    (ok_roles ok) (ok_default_channel ok) (ok_limits ok).

(** [cl_writer] tells whether the outbound task still takes messages, [cl_datagrams] holds what
    the connection was given to send, [cl_max_datagram] what it can send at most. *)
Record Client : Type := mkHandle {
  cl_session : SessionInfo; cl_writer : bool; cl_queue : list ClientControl;
  cl_datagrams : list bytes; cl_max_datagram : option Z; cl_connected : bool }.

Definition client_id (c : Client) : ClientId := si_client_id (cl_session c).

Definition max_voice_payload (c : Client) : option Z :=
  (fun max => Z.max 0 (max - Z.of_nat UPSTREAM_HEADER_LEN)) <$> cl_max_datagram c.

Definition send_control (message : ClientControl) (c : Client) : bool * Client :=
  if cl_writer c
  then (true, mkHandle (cl_session c) true (cl_queue c ++ [message]) (cl_datagrams c) (cl_max_datagram c) (cl_connected c))
  else (false, c).

Definition cl_join_channel (channel : ChannelId) : Client -> bool * Client := send_control (CJoinChannel channel).
Definition cl_leave_channel : Client -> bool * Client := send_control CLeaveChannel.
Definition cl_set_voice_state (self_muted self_deafened : bool) : Client -> bool * Client :=
  send_control (CSetVoiceState self_muted self_deafened).
Definition cl_send_message (channel : ChannelId) (content : rstring) (nonce : Z) : Client -> bool * Client :=
  send_control (CSendMessage channel content None nonce).
Definition cl_kick (nonce : Z) (client : ClientId) (reason : rstring) : Client -> bool * Client :=
  send_control (CKick nonce client reason).
Definition cl_ban (nonce : Z) (fp : Fingerprint) (reason : rstring) (until_unix_ms : option Z) : Client -> bool * Client :=
  send_control (CBan nonce fp reason until_unix_ms).
Definition cl_unban (nonce : Z) (fp : Fingerprint) : Client -> bool * Client := send_control (CUnban nonce fp).
Definition cl_list_bans (nonce : Z) : Client -> bool * Client := send_control (CListBans nonce).
Definition cl_set_server_mute (nonce : Z) (client : ClientId) (muted : bool) : Client -> bool * Client :=
  send_control (CSetServerMute nonce client muted).
Definition cl_move_member (nonce : Z) (client : ClientId) (to : option ChannelId) : Client -> bool * Client :=
  send_control (CMoveMember nonce client to).
Definition cl_fetch_history (channel : ChannelId) (before : option MessageId) (limit : Z) : Client -> bool * Client :=
  send_control (CFetchHistory channel before limit).

(** [took] tells whether the connection took the datagram; one it does not take is dropped. *)
Definition cl_send_voice (took : bool) (seq flags : Z) (payload : bytes) (c : Client) : Client :=
  if took
  then mkHandle (cl_session c) (cl_writer c) (cl_queue c) (cl_datagrams c ++ [encode_up (mkUp seq flags payload)])
         (cl_max_datagram c) (cl_connected c)
  else c.

(** [disconnect], and dropping the handle. *)
Definition cl_disconnect (c : Client) : Client :=
  mkHandle (cl_session c) (cl_writer c) (cl_queue c) (cl_datagrams c) (cl_max_datagram c) false.

(** ** Connecting *)

(** A step of the network under a time limit. *)
Inductive Arrival (A : Type) : Type :=
| Arrived (a : A)
| TooLate
| Lost.
Arguments Arrived {A}.
Arguments TooLate {A}.
Arguments Lost {A}.

(** How one attempt goes: whether the socket and the TLS set-up can be had and the attempt can
    start, whether it connects, the certificates the peer presents, whether the control stream
    opens, the frame the server opens with, the fault of writing the login if there is one, and
    the frame that answers the login. *)
Record Wire : Type := mkWire {
  wi_endpoint : bool;
  wi_tls : bool;
  wi_started : bool;
  wi_connected : Arrival unit;
  wi_certificates : option (list bytes);
  wi_stream : Arrival unit;
  wi_greeting : Arrival (CodecError + ServerControl);
  wi_auth_fault : option CodecError;
  wi_verdict : ClientAuth -> Arrival (CodecError + ServerControl) }.

(** What an attempt works on: the trust store and the disk it is kept on, the control frames
    handed to the stream (part of the last may have gone out when writing it failed), and the
    time of day. *)
Record ClientWorld : Type := mkClientWorld {
  cw_trust : TrustStore; cw_disk : Disk; cw_sent : list ClientControl; cw_clock : Z }.

Definition set_trust (x : TrustStore) (w : ClientWorld) : ClientWorld := mkClientWorld x (cw_disk w) (cw_sent w) (cw_clock w).
Definition set_disk (x : Disk) (w : ClientWorld) : ClientWorld := mkClientWorld (cw_trust w) x (cw_sent w) (cw_clock w).
Definition sent (m : ClientControl) (w : ClientWorld) : ClientWorld :=
  mkClientWorld (cw_trust w) (cw_disk w) (cw_sent w ++ [m]) (cw_clock w).

Definition cprog (A : Type) : Type := prog ClientWorld (ConnectError + A).

Definition cok {A} (a : A) : cprog A := Ret (inr a).
Definition cfail {A} (e : ConnectError) : cprog A := Ret (inl e).

Definition and_then {A B} (p : cprog A) (k : A -> cprog B) : cprog B :=
  bind p (fun r => match r with inl e => cfail e | inr a => k a end).

Notation "x <-! p ;; k" := (and_then p (fun x => k))
  (at level 100, p at next level, right associativity) : prog_scope.

(** [tokio::time::timeout(..).await.map_err(late)?.map_err(lost)?] *)
Definition within {A} (late lost : ConnectError) (a : Arrival A) : cprog A :=
  match a with Arrived a => cok a | TooLate => cfail late | Lost => cfail lost end.

(** A frame read under the handshake's time limit. *)
Definition frame_within (a : Arrival (CodecError + ServerControl)) : cprog ServerControl :=
  match a with
  | Arrived (inr m) => cok m
  | Arrived (inl e) => cfail (CeCodec e)
  | TooLate => cfail CeTimedOut
  | Lost => cfail CeClosedDuringHandshake
  end.

#[local] Open Scope prog_scope.

Section Client.
Context {C : Crypto} {J : Json StoreFile}.

Definition peer_certificate_hash (certificates : option (list bytes)) : cprog bytes :=
  match certificates with
  | Some (end_entity :: _) => cok (sha256 end_entity)
  | _ => cfail CeNoPeerCertificate
  end.

(** [store.save()], its error only logged. *)
Definition persist : prog ClientWorld unit :=
  store <- get cw_trust;;
  _saved <- zoom cw_disk set_disk (trust_save store);;
  Ret tt.

Definition re_pin (address : rstring) (fp : Fingerprint) (server_name : rstring) : prog ClientWorld unit :=
  update (fun w => set_trust (trust (cw_clock w) address fp server_name (cw_trust w)) w).

Definition apply_trust_policy (policy : TrustPolicy) (address legacy_key : rstring) (fp : Fingerprint)
    (server_name : rstring) : cprog unit :=
  match policy with
  | Insecure => cok tt
  | _ =>
      decision <- get (fun w => check (cw_trust w) address fp);;
      match decision with
      | Recognised => cok tt
      | FirstContact fp =>
          adopt <- get (fun w => negb (bool_decide (legacy_key = address)) &&
                                 match check (cw_trust w) legacy_key fp with Recognised => true | _ => false end);;
          if (adopt : bool) then
            re_pin address fp server_name;;
            _forgotten <- call (fun w => let '(b, store) := forget legacy_key (cw_trust w) in (b, set_trust store w));;
            persist;;
            cok tt
          else
            match policy with
            | Strict => cfail (CeNotTrusted address fp)
            | _ => re_pin address fp server_name;; persist;; cok tt
            end
      | Changed expected actual => cfail (CeIdentityChanged address expected actual)
      end
  end.

(** The login a client answers a greeting with. [version] is the program's own. *)
Definition login (version : rstring) (options : ConnectOptions) (ident : Identity) (nonce cert : bytes) : ClientAuth :=
  mkAuth PROTOCOL_VERSION (public ident) (co_nickname options) (co_password options) version
    (sign_auth ident nonce cert).

(** [connect], up to the session it returns; the three tasks it starts are [send_control]'s
    queue, [inbound_control] and [inbound_voice]. *)
Definition connect (version : rstring) (options : ConnectOptions) (ident : Identity) (wire : Wire) : cprog SessionInfo :=
  let address := co_address options in
  if negb (wi_endpoint wire) then cfail (CeTransport address) else
  if negb (wi_tls wire) then cfail CeTls else
  if negb (wi_started wire) then cfail (CeTransport address) else
  _ <-! within (CeUnreachable address) (CeTransport address) (wi_connected wire);;
  cert_hash <-! peer_certificate_hash (wi_certificates wire);;
  _ <-! within CeTimedOut CeClosedDuringHandshake (wi_stream wire);;
  greeting <-! frame_within (wi_greeting wire);;
  match greeting with
  | SHello hello =>
      if negb (sh_protocol_version hello =? PROTOCOL_VERSION)
      then cfail (CeProtocolMismatch PROTOCOL_VERSION (sh_protocol_version hello)) else
      let fp := fingerprint (sh_server_identity hello) in
      match verify_server_hello (sh_server_identity hello) (sh_nonce hello) cert_hash (sh_server_name hello)
              (sh_signature hello) with
      | inl _ => cfail (CeForgedGreeting fp)
      | inr _ =>
          let address_key := default (addr_to_string address) (co_server_key options) in
          _ <-! apply_trust_policy (co_trust options) address_key (addr_to_string address) fp (sh_server_name hello);;
          let auth := login version options ident (sh_nonce hello) cert_hash in
          update (sent (CAuth auth));;
          match wi_auth_fault wire with
          | Some e => cfail (CeCodec e)
          | None =>
              verdict <-! frame_within (wi_verdict wire auth);;
              match verdict with
              | SAuthOk ok =>
                  cok (session_of hello ok)
              | SAuthFailed failure => cfail (CeRejected (rejection_reason failure))
              | other => cfail (CeUnexpectedGreeting (describe other))
              end
          end
      end
  | other => cfail (CeUnexpectedGreeting (describe other))
  end.

End Client.
