(* ===== verification/Mirror.v ===== *)
(** * The app's view of its own permissions ([apps/desktop/src-tauri/src/perms.rs])

    A session's copy of what permissions are computed from, folded forward by the events that
    arrive, and the answers the interface takes from it. *)

From S2P Require Export Client.

Record ChannelPermissionsDto : Type := mkChannelPermissions {
  cp_send : bool; cp_read_history : bool; cp_connect : bool; cp_speak : bool }.

Record MyPermissionsDto : Type := mkMyPermissions {
  mp_is_owner : bool; mp_is_admin : bool; mp_can_open_admin : bool;
  mp_channels : gmap ChannelId ChannelPermissionsDto }.

(** What hierarchy needs to know about another member. *)
Record MemberStanding : Type := mkStanding { ms_fingerprint : Fingerprint; ms_roles : list RoleId; ms_owner : bool }.

Record PermMirror : Type := mkMirror {
  pm_fingerprint : Fingerprint; pm_probe : Fingerprint; pm_owner : bool; pm_roles : list Role;
  pm_my_roles : list RoleId; pm_channels : gmap ChannelId Channel; pm_users : gmap ClientId MemberStanding }.

Record RoleDto : Type := mkRoleDto {
  rd_id : RoleId; rd_name : rstring; rd_color : option rstring; rd_position : Z; rd_permissions : list rstring;
  rd_is_everyone : bool }.

Inductive OverwriteTargetDto : Type :=
| DtoRole (id : RoleId)
| DtoMember (fingerprint : rstring).

Record OverwriteDto : Type := mkOverwriteDto {
  od_target : OverwriteTargetDto; od_allow : list rstring; od_deny : list rstring }.

Record MatrixCellDto : Type := mkCell { mc_name : rstring; mc_effective : bool; mc_base : bool; mc_state : rstring }.

Record MatrixRowDto : Type := mkRow {
  mr_role_id : RoleId; mr_role_name : rstring; mr_color : option rstring; mr_is_everyone : bool; mr_cells : list MatrixCellDto }.

Record ModerationOptionsDto : Type := mkModeration {
  mo_can_kick : bool; mo_can_ban : bool; mo_can_mute : bool; mo_can_move : bool; mo_reason : option rstring }.

Definition CHANNEL_PERMISSIONS : list (rstring * Permissions) := [
  (lit "viewChannel", VIEW_CHANNEL);
  (lit "sendMessages", SEND_MESSAGES);
  (lit "readHistory", READ_HISTORY);
  (lit "manageMessages", MANAGE_MESSAGES);
  (lit "connect", CONNECT);
  (lit "speak", SPEAK);
  (lit "muteMembers", MUTE_MEMBERS);
  (lit "moveMembers", MOVE_MEMBERS)].

Definition EDITABLE_PERMISSIONS : list (rstring * Permissions) := [
  (lit "administrator", ADMINISTRATOR);
  (lit "manageServer", MANAGE_SERVER);
  (lit "manageRoles", MANAGE_ROLES);
  (lit "manageChannels", MANAGE_CHANNELS);
  (lit "kickMembers", KICK_MEMBERS);
  (lit "banMembers", BAN_MEMBERS);
  (lit "viewChannel", VIEW_CHANNEL);
  (lit "sendMessages", SEND_MESSAGES);
  (lit "readHistory", READ_HISTORY);
  (lit "manageMessages", MANAGE_MESSAGES);
  (lit "connect", CONNECT);
  (lit "speak", SPEAK);
  (lit "muteMembers", MUTE_MEMBERS);
  (lit "moveMembers", MOVE_MEMBERS)].

Definition permission_names (bits : Permissions) : list rstring :=
  map fst (retain (fun e => contains bits e.2) EDITABLE_PERMISSIONS).

Definition permissions_from_names (names : list rstring) : Permissions :=
  fold_left (fun bits name =>
    match find (fun e => bool_decide (e.1 = name)) EDITABLE_PERMISSIONS with
    | Some (_, bit) => perm_union bits bit
    | None => bits
    end) names NONE.

(** [format!("#{c:06x}")] *)
Definition color_text (c : Z) : rstring :=
  let digits := hex 8 c [] in
  lit "#" ++ replicate (6 - length digits) 48 ++ digits.

Definition role_dto (role : Role) : RoleDto :=
  mkRoleDto (role_id role) (role_name role) (color_text <$> role_color role) (role_position role)
    (permission_names (role_perms role)) (role_id role =? EVERYONE_ROLE_ID).

Definition touches_roles (event : ClientEvent) : bool :=
  match event with
  | EvRoleCreated _ | EvRoleUpdated _ | EvRoleDeleted _ | EvRolesReordered _ => true
  | _ => false
  end.

(** [roles.retain(|r| r.id != role.id); push; sort_by_key(position)] *)
Definition put_role (role : Role) (roles : list Role) : list Role :=
  sort_by_key role_position (retain (fun r => negb (role_id r =? role_id role)) roles ++ [role]).

(** [iter_mut().find(..)] and the assignment. *)
Fixpoint set_role_position (id : RoleId) (position : Z) (roles : list Role) : list Role :=
  match roles with
  | [] => []
  | r :: rest =>
      if role_id r =? id
      then mkRole (role_id r) (role_name r) (role_color r) position (role_perms r) :: rest
      else r :: set_role_position id position rest
  end.

Definition reorder_all (positions : list (RoleId * Z)) (roles : list Role) : list Role :=
  sort_by_key role_position (fold_left (fun roles e => set_role_position e.1 e.2 roles) positions roles).

(** Stable, senior first: [sort_by_key(|r| Reverse(r.position))]. *)
Definition senior_first (roles : list Role) : list Role := sort_by_key (fun r => - role_position r) roles.

Section Mirror.
Context {C : Crypto}.

Definition standing_of (user : UserInfo) : MemberStanding :=
  mkStanding (user_fingerprint user) (u_roles user) (u_owner user).

(** [probe] is the fingerprint of an identity made up on the spot. *)
Definition from_session (fp probe : Fingerprint) (info : SessionInfo) : PermMirror :=
  let me := find (fun u => u_client_id u =? si_client_id info) (si_users info) in
  mkMirror fp probe
    (match me with Some u => u_owner u | None => false end)
    (si_roles info)
    (match me with Some u => u_roles u | None => [] end)
    (fold_left (fun m c => <[ch_id c := c]> m) (si_channels info) ∅)
    (fold_left (fun m u => <[u_client_id u := standing_of u]> m) (si_users info) ∅).

(** The answer is whether what the member may do could have changed. *)
Definition mirror_apply (event : ClientEvent) (m : PermMirror) : bool * PermMirror :=
  match event with
  | EvChannelCreated channel | EvChannelUpdated channel =>
      (true, mkMirror (pm_fingerprint m) (pm_probe m) (pm_owner m) (pm_roles m) (pm_my_roles m)
               (<[ch_id channel := channel]> (pm_channels m)) (pm_users m))
  | EvChannelRemoved id =>
      (true, mkMirror (pm_fingerprint m) (pm_probe m) (pm_owner m) (pm_roles m) (pm_my_roles m)
               (delete id (pm_channels m)) (pm_users m))
  | EvRoleCreated role | EvRoleUpdated role =>
      (true, mkMirror (pm_fingerprint m) (pm_probe m) (pm_owner m) (put_role role (pm_roles m)) (pm_my_roles m)
               (pm_channels m) (pm_users m))
  | EvRoleDeleted id =>
      (true, mkMirror (pm_fingerprint m) (pm_probe m) (pm_owner m)
               (retain (fun r => negb (role_id r =? id)) (pm_roles m))
               (retain (fun r => negb (r =? id)) (pm_my_roles m)) (pm_channels m) (pm_users m))
  | EvRolesReordered positions =>
      (true, mkMirror (pm_fingerprint m) (pm_probe m) (pm_owner m) (reorder_all positions (pm_roles m)) (pm_my_roles m)
               (pm_channels m) (pm_users m))
  | EvUserJoined user | EvUserUpdated user =>
      let users := <[u_client_id user := standing_of user]> (pm_users m) in
      if bool_decide (user_fingerprint user = pm_fingerprint m) then
        (negb (bool_decide (u_roles user = pm_my_roles m)) || negb (Bool.eqb (u_owner user) (pm_owner m)),
         mkMirror (pm_fingerprint m) (pm_probe m) (u_owner user) (pm_roles m) (u_roles user) (pm_channels m) users)
      else
        (false, mkMirror (pm_fingerprint m) (pm_probe m) (pm_owner m) (pm_roles m) (pm_my_roles m) (pm_channels m) users)
  | EvUserLeft client _ =>
      (false, mkMirror (pm_fingerprint m) (pm_probe m) (pm_owner m) (pm_roles m) (pm_my_roles m) (pm_channels m)
                (delete client (pm_users m)))
  | _ => (false, m)
  end.

Definition mirror_resolve (m : PermMirror) (ows : option (list Overwrite)) : Permissions :=
  resolve (pm_roles m) (pm_my_roles m) (pm_fingerprint m) (pm_owner m) ows.

Definition my_permissions (m : PermMirror) : MyPermissionsDto :=
  let base := mirror_resolve m None in
  let standing := any (fun bit => contains base bit)
    [MANAGE_SERVER; MANAGE_ROLES; MANAGE_CHANNELS; KICK_MEMBERS; BAN_MEMBERS; MUTE_MEMBERS; MOVE_MEMBERS] in
  mkMyPermissions (pm_owner m) (contains base ADMINISTRATOR) (pm_owner m || standing)
    (fold_left (fun dtos channel =>
       let bits := mirror_resolve m (Some (ch_overwrites channel)) in
       <[ch_id channel := mkChannelPermissions (contains bits SEND_MESSAGES) (contains bits READ_HISTORY)
                            (contains bits CONNECT) (contains bits SPEAK)]> dtos)
       (btree_values (pm_channels m)) ∅).

Definition roles_dto (m : PermMirror) : list RoleDto :=
  sort_by_key (fun r => - rd_position r) (map role_dto (pm_roles m)).

Definition overwrites_dto (m : PermMirror) (channel : ChannelId) : list OverwriteDto :=
  match pm_channels m !! channel with
  | None => []
  | Some c =>
      map (fun o => mkOverwriteDto
        (match ow_target o with TRole id => DtoRole id | TMember fp => DtoMember (fp_to_string fp) end)
        (permission_names (ow_allow o)) (permission_names (ow_deny o))) (ch_overwrites c)
  end.

Definition channel_matrix (m : PermMirror) (channel : ChannelId) : list MatrixRowDto :=
  match pm_channels m !! channel with
  | None => []
  | Some target =>
      map (fun role =>
        let held := if role_id role =? EVERYONE_ROLE_ID then [] else [role_id role] in
        let base := resolve (pm_roles m) held (pm_probe m) false None in
        let effective := resolve (pm_roles m) held (pm_probe m) false (Some (ch_overwrites target)) in
        let overwrite := find (fun o => bool_decide (ow_target o = TRole (role_id role))) (ch_overwrites target) in
        mkRow (role_id role) (role_name role) (color_text <$> role_color role) (role_id role =? EVERYONE_ROLE_ID)
          (map (fun '(name, bit) =>
             mkCell name (contains effective bit) (contains base bit)
               (match overwrite with
                | Some o => if contains (ow_deny o) bit then lit "deny"
                            else if contains (ow_allow o) bit then lit "allow" else lit "inherit"
                | None => lit "inherit"
                end)) CHANNEL_PERMISSIONS))
        (senior_first (pm_roles m))
  end.

Definition no_moderation (reason : rstring) : ModerationOptionsDto := mkModeration false false false false (Some reason).

Definition moderation_options (m : PermMirror) (target : ClientId) : ModerationOptionsDto :=
  match pm_users m !! target with
  | None => no_moderation (lit "They are no longer connected.")
  | Some them =>
      if bool_decide (ms_fingerprint them = pm_fingerprint m) then no_moderation (lit "That would be you.") else
      if negb (can_act_on (pm_roles m) (pm_my_roles m) (pm_owner m) (ms_roles them) (ms_owner them))
      then no_moderation (if ms_owner them then lit "They own this server."
                          else lit "Their highest role is not below yours.") else
      let base := mirror_resolve m None in
      let options := mkModeration (contains base KICK_MEMBERS) (contains base BAN_MEMBERS)
        (contains base MUTE_MEMBERS) (contains base MOVE_MEMBERS) None in
      if negb (mo_can_kick options || mo_can_ban options || mo_can_mute options || mo_can_move options)
      then no_moderation (lit "You have no moderation permissions here.")
      else options
  end.

End Mirror.

(** ** Names *)

(** A mask of one bit is in another or has nothing in common with it. *)
Definition one_bit (bit : Permissions) : Prop := exists n, 0 <= n /\ bit = Z.shiftl 1 n.

Lemma one_bit_apart bits bit : one_bit bit -> contains bits bit = false -> Z.land bits bit = 0.
Proof.
  intros (n & Hn & ->) H. rewrite contains_bit in H by done. apply Z.bits_inj'. intros i Hi.
  rewrite Z.land_spec, Z.bits_0, Z.shiftl_1_l, Z.pow2_bits_eqb by done.
  destruct (Z.eqb_spec n i) as [<- | _]; [by rewrite H | by rewrite andb_false_r].
Qed.

Lemma named_bits (es : list (rstring * Permissions)) bits :
  Forall (fun e => one_bit e.2) es ->
  or_all (map snd (retain (fun e => contains bits e.2) es)) = Z.land bits (or_all (map snd es)).
Proof.
  induction 1 as [|e es He _ IH]; [by rewrite Z.land_0_r|]. rewrite retain_cons. cbn [map or_all foldr].
  change (foldr Z.lor 0 (map snd es)) with (or_all (map snd es)). rewrite Z.land_lor_distr_r, <- IH.
  destruct (contains bits e.2) eqn:Ec; [unfold contains in Ec; apply Z.eqb_eq in Ec; by rewrite Ec |].
  rewrite one_bit_apart by done. by rewrite Z.lor_0_l.
Qed.

Lemma editable_bits : Forall (fun e => one_bit e.2) EDITABLE_PERMISSIONS.
Proof. unfold EDITABLE_PERMISSIONS. repeat constructor; cbn; eexists; (split; [|reflexivity]); lia. Qed.

Lemma editable_names e : e ∈ EDITABLE_PERMISSIONS -> find (fun e' => bool_decide (e'.1 = e.1)) EDITABLE_PERMISSIONS = Some e.
Proof.
  unfold EDITABLE_PERMISSIONS at 1. rewrite !elem_of_cons, elem_of_nil.
  intros H. repeat destruct H as [-> | H]; try reflexivity. done.
Qed.

Lemma named_from es bits :
  (forall e, e ∈ es -> e ∈ EDITABLE_PERMISSIONS) ->
  fold_left (fun bits name => match find (fun e => bool_decide (e.1 = name)) EDITABLE_PERMISSIONS with
    | Some (_, bit) => perm_union bits bit | None => bits end) (map fst es) bits = Z.lor bits (or_all (map snd es)).
Proof.
  revert bits; induction es as [|e es IH]; intros bits Hin; [by rewrite Z.lor_0_r|]. cbn [map fold_left].
  rewrite (editable_names e) by (apply Hin; left). destruct e as [name bit]. rewrite IH by (intros e He; apply Hin; by right).
  cbn [or_all foldr map snd]. unfold perm_union. by rewrite Z.lor_assoc.
Qed.

(** Naming permissions loses nothing: the names shown for a mask, read back, give the mask's
    known bits, all fourteen of them. *)
Theorem permission_names_roundtrip bits : permissions_from_names (permission_names bits) = intersect bits ALL.
Proof.
  unfold permissions_from_names, permission_names. rewrite named_from by (by intros e [? _]%elem_of_retain).
  rewrite named_bits by apply editable_bits. done.
Qed.
