(* ===== verification/Hearing.v ===== *)
(** * What a client's mirror makes of what it is sent

    The frames a change of the server's state puts in each queue, folded by the receiving
    client over its mirror of the permission inputs ([Mirror.v]).  [ideal] is the mirror that
    is right for a state; [follows] says that a change brings every right mirror to one that is
    right again. *)

From S2P Require Export Mirror RoleTable Visibility.

Create HintDb follow.

(** ** Hearing frames *)

Section Hear.
Context {C : Crypto}.

Definition hear (f : ServerControl) (m : PermMirror) : PermMirror :=
  match translate f with Some event => (mirror_apply event m).2 | None => m end.

Definition hear_all (fs : list ServerControl) (m : PermMirror) : PermMirror := fold_left (fun m f => hear f m) fs m.

Lemma hear_all_app fs gs m : hear_all (fs ++ gs) m = hear_all gs (hear_all fs m).
Proof. apply fold_left_app. Qed.

(** A frame a mirror ignores. *)
Definition silent (f : ServerControl) : Prop := forall m, hear f m = m.

Lemma hear_all_silent fs m : Forall silent fs -> hear_all fs m = m.
Proof. intros H. revert m. induction H as [|f fs Hf _ IH]; intros m; [done|]. simpl. by rewrite Hf. Qed.

(** Mirrors that give the same answers, about the users of [on] (and but for the probe). *)
Record same_view (on : ClientId -> Prop) (m1 m2 : PermMirror) : Prop := {
  sv_fingerprint : pm_fingerprint m1 = pm_fingerprint m2;
  sv_owner : pm_owner m1 = pm_owner m2;
  sv_roles : pm_roles m1 = pm_roles m2;
  sv_my_roles : pm_my_roles m1 = pm_my_roles m2;
  sv_channels : pm_channels m1 = pm_channels m2;
  sv_users id : on id -> pm_users m1 !! id = pm_users m2 !! id }.

#[global] Instance same_view_equiv on : Equivalence (same_view on).
Proof.
  split.
  - by intros m.
  - intros m1 m2 []; split; try congruence. intros id Hid. symmetry. auto.
  - intros m1 m2 m3 [? ? ? ? ? H1] [? ? ? ? ? H2]; split; try congruence. intros id Hid. by rewrite H1, H2.
Qed.

Lemma same_view_mono (on on' : ClientId -> Prop) m1 m2 : (forall id, on' id -> on id) -> same_view on m1 m2 -> same_view on' m1 m2.
Proof. intros H []. split; auto. Qed.

Lemma same_insert (m1 m2 : gmap ClientId MemberStanding) k v id : m1 !! id = m2 !! id -> <[k := v]> m1 !! id = <[k := v]> m2 !! id.
Proof. intros H. destruct (decide (k = id)) as [-> |]; [by rewrite !lookup_insert_eq | by rewrite !lookup_insert_ne]. Qed.

Lemma same_delete (m1 m2 : gmap ClientId MemberStanding) k id : m1 !! id = m2 !! id -> delete k m1 !! id = delete k m2 !! id.
Proof. intros H. destruct (decide (k = id)) as [-> |]; [by rewrite !lookup_delete_eq | by rewrite !lookup_delete_ne]. Qed.

#[global] Instance hear_proper on f : Proper (same_view on ==> same_view on) (hear f).
Proof.
  intros m1 m2 [Hfp Ho Hr Hm Hc Hu]. unfold hear.
  destruct f; cbn [translate mirror_apply snd]; try rewrite Hfp;
    repeat case_bool_decide; split; cbn [snd pm_fingerprint pm_owner pm_roles pm_my_roles pm_channels pm_users];
    try congruence; auto using same_insert, same_delete.
Qed.

#[global] Instance hear_all_proper on fs : Proper (same_view on ==> same_view on) (hear_all fs).
Proof. induction fs as [|f fs IH]; intros m1 m2 H; [done|]. simpl. apply IH. by apply hear_proper. Qed.

Lemma hear_departure on id reason m : ~ on id -> same_view on (hear (SUserLeft id reason) m) m.
Proof.
  intros Hid. split; try done. intros k Hk. cbn. rewrite lookup_delete_ne; [done|]. by intros ->.
Qed.

(** Notices about clients that are gone make no difference. *)
Lemma hear_woven on g ms new m :
  (forall id, g id -> ~ on id) -> woven g ms new -> same_view on (hear_all new m) (hear_all ms m).
Proof.
  intros Hg H. revert m. induction H as [| f ms new _ IH | f ms new (id & -> & Hid) _ IH]; intros m; [done | apply IH |].
  cbn [hear_all fold_left]. etransitivity; [apply IH|]. apply hear_all_proper, hear_departure. auto.
Qed.

(** Channel events only change the channels. *)
Definition with_channels (chans : gmap ChannelId Channel) (m : PermMirror) : PermMirror :=
  mkMirror (pm_fingerprint m) (pm_probe m) (pm_owner m) (pm_roles m) (pm_my_roles m) chans (pm_users m).

Definition channel_frame (f : ServerControl) : bool :=
  match f with SChannelCreated _ | SChannelUpdated _ | SChannelRemoved _ => true | _ => false end.

Lemma hear_channel_frames fs m :
  Forall (fun f => channel_frame f = true) fs -> hear_all fs m = with_channels (apply_events (pm_channels m) fs) m.
Proof.
  intros H. revert m. induction H as [|f fs Hf _ IH]; intros m; [by destruct m|].
  cbn [hear_all fold_left]. fold (hear_all fs (hear f m)). rewrite IH. by destruct f.
Qed.

Lemma hear_channels f m : pm_channels (hear f m) = apply_event (pm_channels m) f.
Proof. unfold hear. destruct f; cbn [translate mirror_apply snd apply_event]; try done; by case_bool_decide. Qed.

(** ** Being told about users *)

Section Updates.
Context (on : ClientId -> Prop) (m' : PermMirror).

(** What an update says is right by [m']. *)
Definition right_update (info : UserInfo) : Prop :=
  (on (u_client_id info) -> pm_users m' !! u_client_id info = Some (standing_of info)) /\
  (user_fingerprint info = pm_fingerprint m' -> u_roles info = pm_my_roles m' /\ u_owner info = pm_owner m').

Lemma hear_updates infos m :
  pm_fingerprint m = pm_fingerprint m' -> pm_roles m = pm_roles m' -> pm_channels m = pm_channels m' ->
  Forall right_update infos ->
  (forall id, on id -> id ∈ map u_client_id infos \/ pm_users m !! id = pm_users m' !! id) ->
  pm_fingerprint m' ∈ map user_fingerprint infos \/ (pm_my_roles m = pm_my_roles m' /\ pm_owner m = pm_owner m') ->
  same_view on (hear_all (map SUserUpdated infos) m) m'.
Proof.
  intros Hfp Hr Hc Hright. revert m Hfp Hr Hc. induction Hright as [|info infos [Hs Hm] _ IH]; intros m Hfp Hr Hc Hu Hmine.
  - split; try done.
    + destruct Hmine as [?%elem_of_nil | [_ H]]; done.
    + destruct Hmine as [?%elem_of_nil | [H _]]; done.
    + intros id Hid. destruct (Hu id Hid) as [?%elem_of_nil | H]; done.
  - cbn [map hear_all fold_left]. fold (hear_all (map SUserUpdated infos) (hear (SUserUpdated info) m)). apply IH.
    + unfold hear. cbn [translate mirror_apply]. by case_bool_decide.
    + unfold hear. cbn [translate mirror_apply]. by case_bool_decide.
    + unfold hear. cbn [translate mirror_apply]. by case_bool_decide.
    + intros id Hid. assert (E : pm_users (hear (SUserUpdated info) m) = <[u_client_id info := standing_of info]> (pm_users m)).
      { unfold hear. cbn [translate mirror_apply]. by case_bool_decide. }
      rewrite E. destruct (decide (u_client_id info = id)) as [<- | Hne].
      * right. rewrite lookup_insert_eq. symmetry. auto.
      * rewrite lookup_insert_ne by done. destruct (Hu id Hid) as [Hin | H]; [|by right].
        apply elem_of_cons in Hin as [-> | Hin]; [done | by left].
    + unfold hear. cbn [translate mirror_apply]. case_bool_decide as E; cbn [snd pm_my_roles pm_owner].
      * right. apply Hm. congruence.
      * destruct Hmine as [Hin | H]; [|by right]. apply elem_of_cons in Hin as [Ein | Hin]; [congruence | by left].
Qed.

End Updates.
End Hear.

(** ** The role table a client keeps

    The events of the role commands, folded over the table as it was, give the table the server
    installs, role by role and in the same order. *)

(** ** Tables *)

Lemma seqZ_le_sorted_by_key roles m n : role_positions roles = seqZ m n -> StronglySorted (by_key role_position) roles.
Proof.
  intros E. assert (H : StronglySorted Z.le (role_positions roles)) by (rewrite E; apply seqZ_sorted). clear E.
  induction roles as [|r roles IH]; [constructor|]. cbn in H. apply StronglySorted_inv in H as [H1 H2].
  constructor; [by apply IH|]. exact (proj1 (Forall_map role_position _ roles) H2).
Qed.

(** A well-formed table is the only sorting of its roles. *)
Lemma settled next l : wf_roles next -> l ≡ₚ next -> sort_by_key role_position l = next.
Proof.
  intros Hwf Hp. apply sort_by_key_stable; [| | done].
  - eapply seqZ_le_sorted_by_key, (wf_dense _ Hwf).
  - change (NoDup (role_positions next)). rewrite (wf_dense _ Hwf). apply NoDup_seqZ.
Qed.

Lemma retain_absent id roles : id ∉ role_ids roles -> retain (fun r => negb (role_id r =? id)) roles = roles.
Proof.
  intros H. apply retain_all. intros r Hr. apply negb_true_iff, Z.eqb_neq. intros E. apply H, elem_of_role_ids. eauto.
Qed.

(** ** One role changed *)

Lemma replaced_perm id updated roles :
  NoDup (role_ids roles) -> id ∈ role_ids roles ->
  retain (fun r => negb (role_id r =? id)) roles ++ [updated] ≡ₚ replace_role id updated roles.
Proof.
  induction roles as [|r roles IH]; intros Hn Hin; [by apply not_elem_of_nil in Hin|].
  cbn in Hn. apply NoDup_cons in Hn as [Hni Hn]. rewrite retain_cons. cbn [replace_role].
  destruct (Z.eqb_spec (role_id r) id) as [<- | Hne]; cbn [negb].
  - rewrite retain_absent by done. by rewrite Permutation_app_comm.
  - apply elem_of_cons in Hin as [E | Hin]; [congruence|]. cbn [app]. constructor. by apply IH.
Qed.

Lemma put_updated p id updated existing :
  wf_perms p -> wf_perms (perms_with_updated_role p id updated) -> find_role (ps_roles p) id = Some existing -> role_id updated = id ->
  put_role updated (ps_roles p) = ps_roles (perms_with_updated_role p id updated).
Proof.
  intros [Hwf _] [Hwf' _] Hf Hid. unfold put_role. apply settled; [done|]. rewrite Hid. apply replaced_perm.
  - apply (wf_unique _ Hwf).
  - apply find_role_some in Hf as [Hin <-]. apply elem_of_role_ids. eauto.
Qed.

(** ** Positions *)

Lemma set_role_position_absent id p roles : id ∉ role_ids roles -> set_role_position id p roles = roles.
Proof.
  induction roles as [|r roles IH]; intros H; [done|]. cbn in H. apply not_elem_of_cons in H as [H1 H2]. cbn.
  destruct (Z.eqb_spec (role_id r) id); [congruence|]. by rewrite IH.
Qed.

(** Assigning the positions one after another is assigning them all at once. *)
Lemma fold_set_positions positions roles :
  NoDup positions.*1 -> NoDup (role_ids roles) ->
  fold_left (fun roles e => set_role_position e.1 e.2 roles) positions roles = reposition positions roles.
Proof.
  revert roles; induction positions as [|[id p] rest IH]; intros roles Hn Hu.
  - symmetry. unfold reposition. cbn. apply map_id.
  - cbn in Hn. apply NoDup_cons in Hn as [Hni Hn]. cbn [fold_left fst snd].
    assert (E : set_role_position id p roles = map (fun r => if role_id r =? id then set_position p r else r) roles).
    { clear IH. induction roles as [|r roles IHr]; [done|]. cbn in Hu. apply NoDup_cons in Hu as [Hr Hu].
      cbn [set_role_position map]. destruct (Z.eqb_spec (role_id r) id) as [<- | Hne]; [|by rewrite IHr].
      f_equal. symmetry. rewrite <- (map_id roles) at 2. apply map_ext_in. intros q Hq%list_elem_of_In.
      destruct (Z.eqb_spec (role_id q) (role_id r)) as [Eq | _]; [|done]. exfalso. apply Hr, elem_of_role_ids. eauto. }
    assert (Hids : role_ids (set_role_position id p roles) = role_ids roles).
    { rewrite E. unfold role_ids. rewrite map_map. apply map_ext. intros r. by destruct (_ =? _). }
    rewrite IH by (rewrite ?Hids; done). rewrite E. unfold reposition. rewrite map_map. apply map_ext. intros r.
    unfold position_of. cbn [find fst]. rewrite (Z.eqb_sym id (role_id r)). destruct (Z.eqb_spec (role_id r) id) as [<- | Hne].
    + cbn [role_id set_position fmap option_fmap option_map snd]. rewrite (proj2 (find_none _ rest)); [done|].
      intros e He. apply Z.eqb_neq. intros Ee. apply Hni. rewrite <- Ee. by apply (list_elem_of_fmap_2 fst).
    + done.
Qed.

(** A role without its position. *)
Definition unplaced (r : Role) : Role := set_position 0 r.

Lemma replaced_position r r' : unplaced r = unplaced r' -> set_position (role_position r') r = r'.
Proof. destruct r, r'. unfold unplaced, set_position. cbn. by intros [= -> -> -> ->]. Qed.

(** The ordering of a table, applied to the same roles in other places, gives the table. *)
Lemma reposition_ordering next l :
  NoDup (role_ids next) -> map unplaced l ≡ₚ map unplaced next -> reposition (ordering_of next) l ≡ₚ next.
Proof.
  intros Hu Hp. assert (Hids : role_ids l ≡ₚ role_ids next).
  { assert (E : forall k, role_ids k = map role_id (map unplaced k)) by (intros k; unfold role_ids; by rewrite map_map).
    by rewrite (E l), (E next), Hp. }
  assert (Hof : forall r, r ∈ l -> exists r', r' ∈ next /\ unplaced r = unplaced r' /\ position_of (ordering_of next) (role_id r) = Some (role_position r')).
  { intros r Hr. assert (Hin : unplaced r ∈ map unplaced next) by (rewrite <- Hp; by apply (list_elem_of_fmap_2 unplaced)).
    apply list_elem_of_fmap in Hin as (r' & E & Hr'). exists r'. split_and!; [done | done |].
    replace (role_id r) with (role_id r') by (by destruct r, r'; injection E). by apply position_of_ordering. }
  apply NoDup_Permutation.
  - apply (NoDup_fmap_1 role_id). change (NoDup (role_ids (reposition (ordering_of next) l))). unfold role_ids.
    rewrite reposition_map by done. change (NoDup (role_ids l)). by rewrite Hids.
  - by apply (NoDup_fmap_1 role_id).
  - intros x. split.
    + intros (r & -> & Hr)%list_elem_of_fmap. destruct (Hof r Hr) as (r' & Hr' & E & ->). by rewrite (replaced_position r r').
    + intros Hx. assert (Hin : unplaced x ∈ map unplaced l) by (rewrite Hp; by apply (list_elem_of_fmap_2 unplaced)).
      apply list_elem_of_fmap in Hin as (r & E & Hr). destruct (Hof r Hr) as (r' & Hr' & E' & Ho).
      assert (r' = x) as ->.
      { apply (role_id_unique next); [done | done | done |]. by destruct r', x, r; injection E; injection E'; cbn; intros; subst. }
      apply list_elem_of_fmap. exists r. rewrite Ho. by rewrite (replaced_position r x).
Qed.

Lemma reordered_by_ordering next l :
  wf_roles next -> map unplaced l ≡ₚ map unplaced next -> reorder_all (ordering_of next) l = next.
Proof.
  intros Hwf Hp. pose proof (wf_unique _ Hwf) as Hu. unfold reorder_all. apply settled; [done|].
  rewrite fold_set_positions.
  - by apply reposition_ordering.
  - unfold ordering_of. rewrite <- list_fmap_compose. exact Hu.
  - assert (E : forall k, role_ids k = map role_id (map unplaced k)) by (intros k; unfold role_ids; by rewrite map_map).
    by rewrite (E l), Hp, <- (E next).
Qed.

(** ** The four commands *)

Lemma mirrored_create p role :
  wf_perms p -> wf_perms (perms_with_new_role p role) -> role_id role ∉ role_ids (ps_roles p) ->
  reorder_all (ordering_of (ps_roles (perms_with_new_role p role))) (put_role role (ps_roles p)) =
    ps_roles (perms_with_new_role p role).
Proof.
  intros [Hwf _] [Hwf' _] Hfresh. apply reordered_by_ordering; [done|]. unfold put_role. rewrite retain_absent by done.
  cbn [perms_with_new_role ps_roles]. rewrite !sort_by_key_perm, !map_app. f_equiv. by rewrite reposition_map.
Qed.

Lemma mirrored_delete p id :
  wf_perms (perms_without_role p id) ->
  reorder_all (ordering_of (ps_roles (perms_without_role p id))) (retain (fun r => negb (role_id r =? id)) (ps_roles p)) =
    ps_roles (perms_without_role p id).
Proof.
  intros [Hwf' _]. apply reordered_by_ordering; [done|]. cbn [perms_without_role ps_roles].
  rewrite (imap_set_position_map unplaced Z.of_nat) by done. by rewrite sort_by_key_perm.
Qed.

Lemma mirrored_reorder p positions :
  wf_perms p -> is_dense_reorder (ps_roles p) positions = true ->
  reorder_all positions (ps_roles p) = ps_roles (perms_reordered p positions).
Proof.
  intros [Hwf _] Hd. destruct (reposition_dense _ _ (wf_unique _ Hwf) Hd) as (Hn & _ & _).
  unfold reorder_all. by rewrite fold_set_positions by (try done; apply (wf_unique _ Hwf)).
Qed.

(** ** Permissions rest on masks, not on positions *)

Lemma role_permissions_in roles r : NoDup (role_ids roles) -> r ∈ roles -> role_permissions roles (role_id r) = role_perms r.
Proof.
  intros Hu Hr. unfold role_permissions. destruct (find _ roles) as [q|] eqn:E.
  - apply find_some in E as [Hq Hid%Z.eqb_eq]. by rewrite (role_id_unique roles q r).
  - pose proof (proj1 (find_none _ _) E r Hr) as H. cbn in H; by rewrite Z.eqb_refl in H.
Qed.

(** Roles that are in both tables with the same mask grant the same. *)
Lemma resolve_tables roles roles' mrs member own ows :
  (forall id, id = EVERYONE_ROLE_ID \/ id ∈ mrs -> role_permissions roles' id = role_permissions roles id) ->
  resolve roles' mrs member own ows = resolve roles mrs member own ows.
Proof.
  intros H. unfold resolve. rewrite (H EVERYONE_ROLE_ID) by by left.
  assert (E : forall base, fold_left (fun base id => base ||| role_permissions roles' id) mrs base =
                           fold_left (fun base id => base ||| role_permissions roles id) mrs base).
  { induction mrs as [|id mrs IH]; intros base; [done|]. cbn. rewrite H by (right; left). apply IH.
    intros i [-> | Hi]; apply H; [by left | by right; right]. }
  by rewrite E.
Qed.

Lemma same_masks roles roles' id :
  NoDup (role_ids roles) -> NoDup (role_ids roles') -> id ∈ role_ids roles ->
  (forall r, r ∈ roles -> exists r', r' ∈ roles' /\ role_id r' = role_id r /\ role_perms r' = role_perms r) ->
  role_permissions roles' id = role_permissions roles id.
Proof.
  intros Hu Hu' (r & Hr & <-)%elem_of_role_ids H. destruct (H r Hr) as (r' & Hr' & Ei & Ep).
  rewrite (role_permissions_in roles r) by done. rewrite <- Ei, (role_permissions_in roles' r') by done. done.
Qed.
