(* ===== verification/Following.v ===== *)
(** * From one right mirror to the next

    What the steps of the server put in a client's queue, and that a mirror which was right
    before a change of the state is right again once those frames are heard. *)

From S2P Require Export Hearing Interleaving.

Section Following.
Context {C : Crypto} {HO : HashOrder} {L : HashOrderLaws HO} {DB : Type}.
Implicit Types s : Shared DB.

Definition on_roster s (id : ClientId) : Prop := is_Some (the_clients s !! id).

Definition standings s : gmap ClientId MemberStanding := (fun e => standing_of (cc_info e)) <$> the_clients s.

(** The mirror that is right for a member in a state. *)
Definition ideal s (me : UserInfo) : PermMirror :=
  mkMirror (user_fingerprint me) (user_fingerprint me) (u_owner me) (ps_roles (perms s)) (u_roles me)
    (restrict (the_channels s) (visible_ids s me)) (standings s).

(** From [s] to [s'], a client that is still there got the frames [ms], and perhaps notices. *)
Definition told s s' (id : ClientId) (ms : list ServerControl) : Prop :=
  forall e', the_clients s' !! id = Some e' -> queue_open e' ->
    exists e new, the_clients s !! id = Some e /\ queue_open e /\
      q_frames (cc_control e') = q_frames (cc_control e) ++ new /\ woven (gone (the_clients s')) ms new.

(** From [s] to [s'], nobody arrived, the records of those who stayed changed by [F], and what
    they were told brings the right mirror of each to [V] of its record. *)
Record shows s (F : UserInfo -> UserInfo) (V : UserInfo -> PermMirror) s' : Prop := {
  sh_info id e' : the_clients s' !! id = Some e' -> exists e, the_clients s !! id = Some e /\ cc_info e' = F (cc_info e);
  sh_told id e e' : the_clients s !! id = Some e -> the_clients s' !! id = Some e' -> queue_open e' ->
    exists ms, told s s' id ms /\ same_view (on_roster s') (hear_all ms (ideal s (cc_info e))) (V (cc_info e)) }.

Definition follows s s' : Prop :=
  exists F V, shows s F V s' /\ forall id e, the_clients s !! id = Some e -> on_roster s' id ->
    same_view (on_roster s') (V (cc_info e)) (ideal s' (F (cc_info e))).

(** ** Being told *)

Lemma told_trans s1 s2 s3 id ms1 ms2 :
  (forall i, on_roster s3 i -> on_roster s2 i) -> told s1 s2 id ms1 -> told s2 s3 id ms2 -> told s1 s3 id (ms1 ++ ms2).
Proof.
  intros Hstay H1 H2 e3 He3 Ho3. destruct (H2 e3 He3 Ho3) as (e2 & n2 & He2 & Ho2 & E2 & W2).
  destruct (H1 e2 He2 Ho2) as (e1 & n1 & He1 & Ho1 & E1 & W1). exists e1, (n1 ++ n2).
  split_and!; [done | done | by rewrite E2, E1, app_assoc |]. apply woven_app; [|done].
  eapply woven_mono; [|exact W1]. intros i Hi. unfold gone in *. apply eq_None_not_Some. intros H3.
  apply Hstay in H3. unfold on_roster in H3. rewrite Hi in H3. by destruct H3.
Qed.

(** Nothing was sent. *)
Lemma told_nothing s s' id :
  (forall e', the_clients s' !! id = Some e' -> exists e, the_clients s !! id = Some e /\ cc_control e' = cc_control e) ->
  told s s' id [].
Proof.
  intros H e' He' Ho. destruct (H e' He') as (e & He & Ec). exists e, []. unfold queue_open in *.
  rewrite <- Ec, app_nil_r. split_and!; [done | done | done | constructor].
Qed.

Lemma told_received s s' id ms : received id ms s s' -> told s s' id ms.
Proof.
  intros (_ & _ & R) e' He' Ho. destruct (R e' He' Ho) as (e & new & He & Hx & Hw). exists e, new.
  split_and!; [done | | by apply extended_frames | done]. unfold queue_open in *. by rewrite <- (extended_closed _ _ _ Hx).
Qed.

Lemma told_broadcast_to sel s m id :
  keyed (the_clients s) ->
  told s (broadcast_to sel s m) id
    (match the_clients s !! id with Some e => if sel id e then [m] else [] | None => [] end).
Proof.
  intros Hk e' He' Ho. pose proof (broadcast_to_exact sel s m id Hk) as H. rewrite He' in H.
  destruct H as (e & new & He & Hx & Hn & _). exists e. eexists. rewrite He.
  assert (Hoe : queue_open e) by (unfold queue_open in *; by rewrite <- (extended_closed _ _ _ Hx)).
  split_and!; [done | done | by apply extended_frames |]. rewrite (bool_decide_eq_true_2 _ Hoe), andb_true_r.
  by apply woven_sent.
Qed.

Lemma told_broadcast s m id :
  keyed (the_clients s) -> on_roster s id -> told s (broadcast s m None) id [m].
Proof.
  intros Hk [e He]. pose proof (told_broadcast_to (fun id _ => negb (bool_decide (Some id = None))) s m id Hk) as H.
  rewrite He in H. exact H.
Qed.

Lemma told_send s client m id :
  keyed (the_clients s) -> told s (send s client m) id (if decide (id = client) then [m] else []).
Proof. intros Hk. by apply told_received, received_send. Qed.

(** ** Showing *)

Lemma shows_stays s F V s' id : shows s F V s' -> on_roster s' id -> on_roster s id.
Proof. intros [Hi _] [e' He']. destruct (Hi id e' He') as (e & He & _). by exists e. Qed.

Lemma shows_told s F V s' ms (V' : UserInfo -> PermMirror) F' s'' :
  shows s F V s' ->
  (forall id e'', the_clients s'' !! id = Some e'' -> exists e', the_clients s' !! id = Some e' /\ cc_info e'' = F' (cc_info e')) ->
  (forall id e, the_clients s !! id = Some e -> on_roster s' id -> told s' s'' id (ms id) /\
     same_view (on_roster s'') (hear_all (ms id) (V (cc_info e))) (V' (cc_info e))) ->
  shows s (fun u => F' (F u)) V' s''.
Proof.
  intros Hs Hinfo Hms. assert (Hstay : forall id, on_roster s'' id -> on_roster s' id).
  { intros id [e'' He'']. destruct (Hinfo id e'' He'') as (e' & He' & _). by exists e'. }
  split.
  - intros id e'' He''. destruct (Hinfo id e'' He'') as (e' & He' & E'). destruct (sh_info _ _ _ _ Hs id e' He') as (e & He & E).
    exists e. split; [done|]. by rewrite E', E.
  - intros id e e'' He He'' Ho. assert (Hon : on_roster s' id) by (apply Hstay; by exists e'').
    destruct (Hms id e He Hon) as [Ht Hv]. destruct (Ht e'' He'' Ho) as (e' & new & He' & Ho' & _).
    destruct (sh_told _ _ _ _ Hs id e e' He He' Ho') as (ms0 & Ht0 & Hv0). exists (ms0 ++ ms id).
    split; [by eapply told_trans|]. rewrite hear_all_app, <- Hv. apply hear_all_proper.
    eapply same_view_mono; [|exact Hv0]. done.
Qed.

(** A change of the state that leaves the queues alone. *)
Lemma shows_start s F s' :
  (forall id e', the_clients s' !! id = Some e' -> exists e, the_clients s !! id = Some e /\
     cc_control e' = cc_control e /\ cc_info e' = F (cc_info e)) ->
  shows s F (ideal s) s'.
Proof.
  intros H. split.
  - intros id e' He'. destruct (H id e' He') as (e & He & _ & Hi). eauto.
  - intros id e e' He He' _. exists []. split; [|done]. apply told_nothing. intros e1 He1.
    destruct (H id e1 He1) as (e0 & ? & ? & _). eauto.
Qed.

Lemma delivered_info F s s' :
  delivers F (the_clients s) (the_clients s') ->
  forall id e', the_clients s' !! id = Some e' -> exists e, the_clients s !! id = Some e /\ cc_info e' = cc_info e.
Proof. intros H id e' He'. destruct (H id e' He') as (e & new & He & Hx & _). exists e. split; [done | by eapply extended_info]. Qed.

Lemma broadcast_info s m except id e' :
  keyed (the_clients s) -> the_clients (broadcast s m except) !! id = Some e' ->
  exists e, the_clients s !! id = Some e /\ cc_info e' = cc_info e.
Proof. intros Hk. eapply delivered_info. by apply broadcast_to_delivers. Qed.

Lemma shows_broadcast s F V s' m :
  keyed (the_clients s') -> shows s F V s' -> shows s F (fun u => hear m (V u)) (broadcast s' m None).
Proof.
  intros Hk Hs. apply (shows_told s F V s' (fun _ => [m]) (fun u => hear m (V u)) (fun u => u)); [done | |].
  - intros id e'. by apply broadcast_info.
  - intros id e He Hon. split; [by apply told_broadcast | done].
Qed.

Lemma shows_send s F V s' client m :
  keyed (the_clients s') -> silent m -> shows s F V s' -> shows s F V (send s' client m).
Proof.
  intros Hk Hm Hs. apply (shows_told s F V s' (fun id => if decide (id = client) then [m] else []) V (fun u => u)); [done | |].
  - eapply delivered_info. by apply send_delivers.
  - intros id e He Hon. split; [by apply told_send|]. case_decide; [|done]. cbn. by rewrite Hm.
Qed.

(** A change of the records, the queues left alone. *)
Lemma shows_records s F V s' F' s'' :
  shows s F V s' ->
  (forall id e'', the_clients s'' !! id = Some e'' -> exists e', the_clients s' !! id = Some e' /\
     cc_control e'' = cc_control e' /\ cc_info e'' = F' (cc_info e')) ->
  shows s (fun u => F' (F u)) V s''.
Proof.
  intros Hs H. apply (shows_told s F V s' (fun _ => []) V F'); [done | |].
  - intros id e'' He''. destruct (H id e'' He'') as (e' & ? & _ & ?). eauto.
  - intros id e He Hon. split; [|done]. apply told_nothing. intros e'' He''. destruct (H id e'' He'') as (e' & ? & ? & _). eauto.
Qed.

(** ** Following *)

Lemma follows_refl s : follows s s.
Proof.
  exists (fun u => u), (ideal s). split; [|done]. apply shows_start. intros id e He. by exists e.
Qed.

Lemma follows_trans s1 s2 s3 : follows s1 s2 -> follows s2 s3 -> follows s1 s3.
Proof.
  intros (F1 & V1 & H1 & E1) (F2 & V2 & H2 & E2). exists (fun u => F2 (F1 u)), (fun u => V2 (F1 u)).
  assert (Hstay : forall id, on_roster s3 id -> on_roster s2 id) by (intros id; by apply (shows_stays _ _ _ _ _ H2)).
  split; [split|].
  - intros id e3 He3. destruct (sh_info _ _ _ _ H2 id e3 He3) as (e2 & He2 & I2).
    destruct (sh_info _ _ _ _ H1 id e2 He2) as (e1 & He1 & I1). exists e1. split; [done|]. by rewrite I2, I1.
  - intros id e1 e3 He1 He3 Ho. destruct (sh_info _ _ _ _ H2 id e3 He3) as (e2 & He2 & I2).
    destruct (sh_info _ _ _ _ H1 id e2 He2) as (e1' & He1' & I1).
    assert (e1' = e1) as -> by congruence.
    destruct (sh_told _ _ _ _ H2 id e2 e3 He2 He3 Ho) as (ms2 & T2 & S2).
    destruct (T2 e3 He3 Ho) as (e2' & new & He2' & Ho2 & _).
    assert (e2' = e2) as -> by congruence. destruct (sh_told _ _ _ _ H1 id e1 e2 He1 He2 Ho2) as (ms1 & T1 & S1).
    exists (ms1 ++ ms2). split; [by eapply told_trans|]. rewrite hear_all_app, <- I1, <- S2.
    apply hear_all_proper. eapply same_view_mono; [exact Hstay|]. rewrite S1, I1. apply (E1 id); [done | by exists e2].
  - intros id e1 He1 Hon. destruct (Hstay id Hon) as [e2 He2].
    destruct (sh_info _ _ _ _ H1 id e2 He2) as (e1' & He1' & I1).
    assert (e1' = e1) as -> by congruence. rewrite <- I1. by apply (E2 id).
Qed.

(** A member's own roles and owner flag are those granted to its identity. *)
Definition live s : Prop :=
  forall id e, the_clients s !! id = Some e ->
    u_roles (cc_info e) = member_roles s (user_fingerprint (cc_info e)) /\
    u_owner (cc_info e) = is_owner s (user_fingerprint (cc_info e)).

Definition good s : Prop := server_inv s /\ live s.

(** A state that is good, and that the mirrors followed to. *)
Definition ok s0 s : Prop := good s /\ follows s0 s.

Lemma ok_refl s : good s -> ok s s.
Proof. split; [done | apply follows_refl]. Qed.

Lemma ok_keyed s0 s : ok s0 s -> keyed (the_clients s).
Proof. intros [[H _] _]. by apply inv_keyed. Qed.

(** What a member may do rests on its standing. *)
Lemma standing_fields u v :
  standing_of u = standing_of v -> user_fingerprint u = user_fingerprint v /\ u_roles u = u_roles v /\ u_owner u = u_owner v.
Proof. intros H. split_and!; [exact (f_equal ms_fingerprint H) | exact (f_equal ms_roles H) | exact (f_equal ms_owner H)]. Qed.

Lemma resolve_standing p u v ows : standing_of u = standing_of v -> resolve_user p u ows = resolve_user p v ows.
Proof. intros (Hf & Hr & Ho)%standing_fields. unfold resolve_user. by rewrite Hf, Hr, Ho. Qed.

Lemma visible_standing s s' u v :
  perms s' = perms s -> the_channels s' = the_channels s -> standing_of u = standing_of v -> visible_ids s' v = visible_ids s u.
Proof.
  intros Hp Hc Hs. unfold visible_ids, perm_state. rewrite Hp, Hc. f_equal. f_equal. apply retain_ext. intros c _.
  unfold can_view_channel. by rewrite (resolve_standing _ u v).
Qed.

(** ** Steps that concern no mirror *)

(** Everything a mirror holds is as before. *)
Record quiet s (F : UserInfo -> UserInfo) s' : Prop := {
  qt_shows : shows s F (ideal s) s';
  qt_standing u : standing_of (F u) = standing_of u;
  qt_perms : perms s' = perms s;
  qt_owner : owner s' = owner s;
  qt_channels : the_channels s' = the_channels s }.

Lemma standings_lookup s id : standings s !! id = (fun e => standing_of (cc_info e)) <$> the_clients s !! id.
Proof. apply lookup_fmap. Qed.

Lemma quiet_standings s F s' id : quiet s F s' -> on_roster s' id -> standings s !! id = standings s' !! id.
Proof.
  intros [[Hi _] Hq _ _ _] [e' He']. destruct (Hi id e' He') as (e & He & E). rewrite !standings_lookup, He, He'. cbn.
  by rewrite E, Hq.
Qed.

Lemma quiet_ideal s F s' u : quiet s F s' -> same_view (on_roster s') (ideal s u) (ideal s' (F u)).
Proof.
  intros Hq. destruct (standing_fields _ _ (qt_standing _ _ _ Hq u)) as (Hf & Hr & Ho). split; cbn; try congruence.
  - by rewrite (qt_perms _ _ _ Hq).
  - rewrite (qt_channels _ _ _ Hq). f_equal. symmetry.
    apply visible_standing; [apply Hq | apply Hq | symmetry; apply Hq].
  - intros id Hid. by eapply quiet_standings.
Qed.

Lemma follows_quiet s F s' : quiet s F s' -> follows s s'.
Proof. intros Hq. exists F, (ideal s). split; [apply Hq|]. intros id e _ _. by apply quiet_ideal. Qed.

Lemma live_quiet s F s' : quiet s F s' -> live s -> live s'.
Proof.
  intros Hq Hl id e' He'. destruct (sh_info _ _ _ _ (qt_shows _ _ _ Hq) id e' He') as (e & He & ->).
  destruct (standing_fields _ _ (qt_standing _ _ _ Hq (cc_info e))) as (Hf & Hr & Ho). rewrite Hf, Hr, Ho.
  unfold member_roles, is_owner. rewrite (qt_perms _ _ _ Hq), (qt_owner _ _ _ Hq). exact (Hl id e He).
Qed.

Lemma ok_quiet s0 s F s' : quiet s F s' -> server_inv s' -> ok s0 s -> ok s0 s'.
Proof.
  intros Hq Hinv [[_ Hl] Hf]. split; [split; [done | by eapply live_quiet]|].
  eapply follows_trans; [exact Hf | by eapply follows_quiet].
Qed.

(** The queues as they are. *)
Lemma quiet_records s F s' :
  (forall id e', the_clients s' !! id = Some e' -> exists e, the_clients s !! id = Some e /\
     cc_control e' = cc_control e /\ cc_info e' = F (cc_info e)) ->
  (forall u, standing_of (F u) = standing_of u) ->
  perms s' = perms s -> owner s' = owner s -> the_channels s' = the_channels s -> quiet s F s'.
Proof. intros H. split; try done. by apply shows_start. Qed.

Lemma quiet_same s s' :
  the_clients s' = the_clients s -> perms s' = perms s -> owner s' = owner s -> the_channels s' = the_channels s ->
  quiet s (fun u => u) s'.
Proof. intros E. apply quiet_records; [|done]. intros id e' He'. rewrite E in He'. by exists e'. Qed.

Lemma quiet_only s V s' : only_clients s s' -> shows s (fun u => u) V s' -> (forall u, V u = ideal s u) -> quiet s (fun u => u) s'.
Proof.
  intros Ho Hs HV.
  split; [|done | exact (only_clients_perms _ _ Ho) | exact (only_clients_owner _ _ Ho) | exact (only_clients_channels _ _ Ho)].
  destruct Hs as [Hi Ht]. split; [done|]. intros id e e' He He' Hopen.
  destruct (Ht id e e' He He' Hopen) as (ms & H & Hv). exists ms. split; [done|]. by rewrite HV in Hv.
Qed.

Lemma shows_self s : shows s (fun u => u) (ideal s) s.
Proof. apply shows_start. intros id e He. by exists e. Qed.

Lemma ok_send s0 s client m : silent m -> ok s0 s -> ok s0 (send s client m).
Proof.
  intros Hm Hok. pose proof (ok_keyed _ _ Hok) as Hk. eapply ok_quiet; [| apply inv_send, Hok | exact Hok].
  eapply quiet_only; [apply send_only | by apply shows_send, shows_self | done].
Qed.

Lemma ok_broadcast s0 s m : silent m -> ok s0 s -> ok s0 (broadcast s m None).
Proof.
  intros Hm Hok. pose proof (ok_keyed _ _ Hok) as Hk. eapply ok_quiet; [| apply inv_broadcast, Hok | exact Hok].
  eapply quiet_only; [apply broadcast_only | by apply shows_broadcast, shows_self | intros u; exact (Hm _)].
Qed.

Lemma ok_broadcast_filtered s0 s m chan except : silent m -> ok s0 s -> ok s0 (broadcast_filtered s m chan except).
Proof.
  intros Hm Hok. pose proof (ok_keyed _ _ Hok) as Hk. unfold broadcast_filtered. destruct (the_channels s !! chan) as [target|] eqn:Ec; [|done].
  eapply ok_quiet; [| | exact Hok].
  - eapply (quiet_only s (ideal s)); [apply broadcast_to_only | | done].
    set (sel := fun (id : ClientId) (e : ConnectedClient) => negb (bool_decide (Some id = except)) && _).
    apply (shows_told s (fun u => u) (ideal s) s
      (fun id => match the_clients s !! id with Some e => if sel id e then [m] else [] | None => [] end)
      (ideal s) (fun u => u)); [apply shows_self | |].
    + eapply delivered_info. by apply broadcast_to_delivers.
    + intros id e He _. split; [by apply told_broadcast_to|]. rewrite He. destruct (sel id e); [|done]. cbn. by rewrite Hm.
  - pose proof (inv_broadcast_filtered s m chan except (proj1 (proj1 Hok))) as H. unfold broadcast_filtered in H. by rewrite Ec in H.
Qed.

(** ** The methods that change no standing *)

Definition keeps_standing (f : UserInfo -> UserInfo) : Prop := forall u, standing_of (f u) = standing_of u.

(** [f] on one client's record. *)
Definition only_on (client : ClientId) (f : UserInfo -> UserInfo) (u : UserInfo) : UserInfo :=
  if u_client_id u =? client then f u else u.

Lemma quiet_update_client f s client e :
  keyed (the_clients s) -> keeps_standing f -> the_clients s !! client = Some e ->
  quiet s (only_on client f) (update_client f s client e).
Proof.
  intros Hk Hf He. apply quiet_records; try done.
  - intros id e'. unfold update_client. rewrite the_clients_set, lookup_insert_Some. unfold only_on.
    intros [[<- <-] | [Hne He']].
    + exists e. split_and!; [done | done |]. by rewrite (Hk _ _ He), Z.eqb_refl.
    + exists e'. split_and!; [done | done |]. rewrite (Hk _ _ He'). by destruct (Z.eqb_spec id client).
  - intros u. unfold only_on. destruct (_ =? _); [apply Hf | done].
Qed.

Lemma ok_update_client s0 f s client e :
  keeps_standing f -> the_clients s !! client = Some e -> server_inv (update_client f s client e) ->
  ok s0 s -> ok s0 (update_client f s client e).
Proof. intros Hf He Hinv Hok. eapply ok_quiet; [by apply quiet_update_client; [eapply ok_keyed | |] | done | done]. Qed.

Lemma ok_join s0 s client chan : ok s0 s -> ok s0 (join_channel s client chan).2.
Proof.
  intros Hok. pose proof (inv_join s client chan (proj1 (proj1 Hok))) as Hinv. unfold join_channel in *.
  repeat case_match; try done. by apply ok_update_client.
Qed.

Lemma ok_leave s0 s client : ok s0 s -> ok s0 (leave_channel s client).2.
Proof.
  intros Hok. pose proof (inv_leave s client (proj1 (proj1 Hok))) as Hinv. unfold leave_channel in *.
  case_match; try done. by apply ok_update_client.
Qed.

Lemma ok_force_move s0 s client to : ok s0 s -> ok s0 (force_move s client to).2.
Proof.
  intros Hok. pose proof (inv_force_move s client to (proj1 (proj1 Hok))) as Hinv. unfold force_move in *.
  repeat case_match; try done; by apply ok_update_client.
Qed.

Lemma ok_modify_user s0 f s client :
  keeps_standing f -> server_inv (modify_user f s client).2 -> ok s0 s -> ok s0 (modify_user f s client).2.
Proof. intros Hf Hinv Hok. unfold modify_user in *. case_match; try done. by apply ok_update_client. Qed.

Lemma ok_set_voice_state s0 s client muted deafened : ok s0 s -> ok s0 (set_voice_state s client muted deafened).2.
Proof. intros Hok. apply ok_modify_user; [by intros [] | apply inv_set_voice_state, Hok | done]. Qed.

Lemma ok_set_server_muted s0 s client muted : ok s0 s -> ok s0 (set_server_muted s client muted).2.
Proof. intros Hok. apply ok_modify_user; [by intros [] | apply inv_set_server_muted, Hok | done]. Qed.

Lemma ok_set_nickname s0 s client n : ok s0 s -> ok s0 (set_nickname s client n).2.
Proof.
  intros Hok. pose proof (inv_set_nickname s client n (proj1 (proj1 Hok))) as Hinv. unfold set_nickname in *.
  case_match; [|done]. by apply ok_modify_user.
Qed.

Lemma ok_remove s0 s client : ok s0 s -> ok s0 (State.remove s client).2.
Proof.
  intros Hok. eapply ok_quiet; [| apply inv_remove, Hok | exact Hok].
  apply (quiet_records s (fun u => u)); try done. intros id e' He'. change (delete client (the_clients s) !! id = Some e') in He'. apply lookup_delete_Some in He' as [_ He']. by exists e'.
Qed.

Lemma ok_close s0 s e code reason : ok s0 s -> ok s0 (close_transport s e code reason).
Proof. intros Hok. apply (ok_quiet s0 s (fun u => u)); [by apply quiet_same | apply inv_close_transport, Hok | exact Hok]. Qed.

Lemma ok_build_message s0 s author chan content reply : ok s0 s -> ok s0 (build_message s author chan content reply).2.
Proof. intros Hok. apply (ok_quiet s0 s (fun u => u)); [by apply quiet_same | apply inv_build_message, Hok | exact Hok]. Qed.

Lemma ok_store_step {A} s0 (err : A) f s : ok s0 s -> ok s0 (store_step err f s).2.
Proof.
  intros Hok. apply (ok_quiet s0 s (fun u => u)); [| apply inv_store_step, Hok | exact Hok].
  unfold store_step. destruct (store s); [destruct (f _)|]; by apply quiet_same.
Qed.

(** ** Announcements about members *)

(** A record that is right about the client it names, if that is connected. *)
Definition current s (info : UserInfo) : Prop :=
  (forall e, the_clients s !! u_client_id info = Some e -> standing_of (cc_info e) = standing_of info) /\
  u_roles info = member_roles s (user_fingerprint info) /\ u_owner info = is_owner s (user_fingerprint info).

Lemma current_right s info me :
  live s -> u_roles me = member_roles s (user_fingerprint me) -> u_owner me = is_owner s (user_fingerprint me) ->
  current s info -> right_update (on_roster s) (ideal s me) info.
Proof.
  intros Hl Hr Ho (H1 & H2 & H3). split; cbn.
  - intros [e He]. rewrite standings_lookup, He. cbn. f_equal. auto.
  - intros E. rewrite H2, H3, Hr, Ho, E. done.
Qed.

Lemma live_only s s' :
  only_clients s s' -> (forall id e', the_clients s' !! id = Some e' -> exists e, the_clients s !! id = Some e /\ cc_info e' = cc_info e) ->
  live s -> live s'.
Proof.
  intros Ho Hi Hl id e' He'. destruct (Hi id e' He') as (e & He & ->). destruct (Hl id e He) as [H1 H2].
  unfold member_roles, is_owner. rewrite (only_clients_perms _ _ Ho), (only_clients_owner _ _ Ho). by split.
Qed.

Lemma ideal_only s s' u :
  only_clients s s' -> (forall id e', the_clients s' !! id = Some e' -> exists e, the_clients s !! id = Some e /\ cc_info e' = cc_info e) ->
  same_view (on_roster s') (ideal s u) (ideal s' u).
Proof.
  intros Ho Hi. split; cbn; try done.
  - by rewrite (only_clients_perms _ _ Ho).
  - rewrite (only_clients_channels _ _ Ho). f_equal. symmetry.
    apply visible_standing; [by apply only_clients_perms | by apply only_clients_channels | done].
  - intros id [e' He']. destruct (Hi id e' He') as (e & He & E). rewrite !standings_lookup, He, He'. cbn. by rewrite E.
Qed.

(** An announcement after which the mirror is what it was. *)
Lemma ok_announcement s0 s m :
  (forall me, u_roles me = member_roles s (user_fingerprint me) -> u_owner me = is_owner s (user_fingerprint me) ->
     same_view (on_roster s) (hear m (ideal s me)) (ideal s me)) ->
  ok s0 s -> ok s0 (broadcast s m None).
Proof.
  intros Hm [[Hinv Hl] Hf]. pose proof (inv_keyed _ Hinv) as Hk. pose proof (broadcast_only s m None) as Ho.
  assert (Hi : forall id e', the_clients (broadcast s m None) !! id = Some e' ->
     exists e, the_clients s !! id = Some e /\ cc_info e' = cc_info e) by (intros id e'; by apply broadcast_info).
  split; [split; [by apply inv_broadcast | by eapply live_only]|]. eapply follows_trans; [exact Hf|].
  exists (fun u => u), (fun u => hear m (ideal s u)). split; [by apply shows_broadcast, shows_self|].
  intros id e He Hon. destruct (Hl id e He) as [Hr Hw]. rewrite <- (ideal_only _ _ _ Ho Hi).
  eapply same_view_mono; [|by apply Hm]. intros i [e' He']. destruct (Hi i e' He') as (e1 & He1 & _). by exists e1.
Qed.

Lemma ok_user_updated s0 s info : current s info -> ok s0 s -> ok s0 (broadcast s (SUserUpdated info) None).
Proof.
  intros Hc Hok. apply ok_announcement; [|done]. intros me Hr Ho.
  pose proof (current_right s info me (proj2 (proj1 Hok)) Hr Ho Hc) as Hright.
  apply (hear_updates (on_roster s) (ideal s me) [info] (ideal s me)); try done; [by constructor | by right | by right].
Qed.

Lemma ok_departure s0 s id reason : the_clients s !! id = None -> ok s0 s -> ok s0 (broadcast s (SUserLeft id reason) None).
Proof.
  intros Hn Hok. apply ok_announcement; [|done]. intros me _ _. apply hear_departure. unfold on_roster. rewrite Hn. by intros [].
Qed.

Lemma ok_eject s0 s victim reason : ok s0 s -> ok s0 (eject s victim reason).2.
Proof.
  intros Hok. unfold eject. destruct (the_clients s !! victim) as [v|]; [|done]. cbn [snd].
  apply ok_departure; [apply lookup_delete_eq|]. by apply (ok_remove _ _ victim).
Qed.

Lemma modify_user_current s0 f s client info :
  keeps_standing f -> (forall u, u_client_id (f u) = u_client_id u) -> ok s0 s ->
  (modify_user f s client).1 = Some info -> current (modify_user f s client).2 info.
Proof.
  intros Hf Hid [[Hinv Hl] _]. unfold modify_user. destruct (the_clients s !! client) as [e|] eqn:He; [|done].
  intros [= <-]. pose proof (inv_keyed _ Hinv _ _ He) as Hk. destruct (Hl _ _ He) as [Hr Ho].
  destruct (standing_fields _ _ (Hf (cc_info e))) as (E1 & E2 & E3). unfold current, update_client, member_roles, is_owner in *.
  cbn [snd perms owner set_clients]. rewrite the_clients_set, Hid, Hk, E1, E2, E3, lookup_insert_eq.
  split_and!; [|done | done]. by intros ? [= <-].
Qed.

Lemma set_voice_state_current s0 s client muted deafened info :
  ok s0 s -> (set_voice_state s client muted deafened).1 = Some info -> current (set_voice_state s client muted deafened).2 info.
Proof. apply modify_user_current; by intros []. Qed.

Lemma set_server_muted_current s0 s client muted info :
  ok s0 s -> (set_server_muted s client muted).1 = Some info -> current (set_server_muted s client muted).2 info.
Proof. apply modify_user_current; by intros []. Qed.

Lemma set_nickname_current s0 s client n info :
  ok s0 s -> (set_nickname s client n).1 = Some info -> current (set_nickname s client n).2 info.
Proof. unfold set_nickname. case_match; [|done]. apply modify_user_current; by intros []. Qed.

(** ** A change of memory, and the frames that announce it *)

Definition announced (fs : list ServerControl) s : Shared DB := fold_left (fun s f => broadcast s f None) fs s.

Lemma announced_facts fs s :
  server_inv s ->
  server_inv (announced fs s) /\ only_clients s (announced fs s) /\
  forall id e', the_clients (announced fs s) !! id = Some e' -> exists e, the_clients s !! id = Some e /\ cc_info e' = cc_info e.
Proof.
  revert s; induction fs as [|f fs IH]; intros s Hinv; [split_and!; [done | apply only_clients_refl | eauto]|].
  destruct (IH (broadcast s f None)) as (H1 & H2 & H3); [by apply inv_broadcast|]. split_and!; [done | |].
  - eapply only_clients_trans; [apply broadcast_only | exact H2].
  - intros id e' He'. destruct (H3 id e' He') as (e1 & He1 & E1).
    destruct (broadcast_info s f None id e1 (inv_keyed _ Hinv) He1) as (e & He & E). exists e. split; [done|]. by rewrite E1, E.
Qed.

Lemma shows_announced s F V fs s1 :
  server_inv s1 -> shows s F V s1 -> shows s F (fun u => hear_all fs (V u)) (announced fs s1).
Proof.
  revert V s1; induction fs as [|f fs IH]; intros V s1 Hinv Hs; [exact Hs|].
  apply (IH (fun u => hear f (V u))); [by apply inv_broadcast|]. apply shows_broadcast; [by apply inv_keyed | done].
Qed.

Section Change.
Context (s s1 : Shared DB) (F : UserInfo -> UserInfo) (fs : list ServerControl).
Context (Hgood : good s) (Hgood1 : good s1).
Context (Hrecords : forall id e', the_clients s1 !! id = Some e' ->
  exists e, the_clients s !! id = Some e /\ cc_control e' = cc_control e /\ cc_info e' = F (cc_info e)).

Let s2 := announced fs s1.

Lemma changed_shows : shows s F (fun u => hear_all fs (ideal s u)) s2.
Proof. apply shows_announced; [apply Hgood1 | by apply shows_start]. Qed.

Lemma changed_good : good s2.
Proof.
  destruct (announced_facts fs s1 (proj1 Hgood1)) as (H1 & H2 & H3). split; [done|].
  eapply live_only; [exact H2 | exact H3 | apply Hgood1].
Qed.

Lemma changed_ideal u : same_view (on_roster s2) (ideal s1 u) (ideal s2 u).
Proof. destruct (announced_facts fs s1 (proj1 Hgood1)) as (_ & H2 & H3). by apply ideal_only. Qed.

Lemma changed_roster id : on_roster s2 id -> on_roster s1 id.
Proof.
  destruct (announced_facts fs s1 (proj1 Hgood1)) as (_ & _ & H3). intros [e' He'].
  destruct (H3 id e' He') as (e & He & _). by exists e.
Qed.

Lemma ok_change :
  (forall id e, the_clients s !! id = Some e ->
     same_view (on_roster s1) (hear_all fs (ideal s (cc_info e))) (ideal s1 (F (cc_info e)))) ->
  ok s s2.
Proof.
  intros H. split; [apply changed_good|]. exists F, (fun u => hear_all fs (ideal s u)). split; [apply changed_shows|].
  intros id e He _. rewrite <- changed_ideal. eapply same_view_mono; [apply changed_roster | by apply (H id)].
Qed.

Lemma resync_channel_frames chans touched was now :
  Forall (fun f => channel_frame f = true) (resync_events chans touched was now).
Proof.
  unfold resync_events, gained_events, lost_events, updated_events. rewrite !Forall_app, !Forall_forall.
  split_and!; intros f (id & Hf & _)%list_elem_of_bind.
  - destruct (chans !! id); cbn in Hf; [by apply list_elem_of_singleton in Hf as -> | by apply not_elem_of_nil in Hf].
  - by apply list_elem_of_singleton in Hf as ->.
  - destruct (_ && _); [|by apply not_elem_of_nil in Hf].
    destruct (chans !! id); cbn in Hf; [by apply list_elem_of_singleton in Hf as -> | by apply not_elem_of_nil in Hf].
Qed.

Lemma with_channels_proper on chans m1 m2 : same_view on m1 m2 -> same_view on (with_channels chans m1) (with_channels chans m2).
Proof. intros []. by split. Qed.

Lemma ok_change_resync touched :
  (forall id e, the_clients s !! id = Some e ->
     same_view (on_roster s1) (hear_all fs (ideal s (cc_info e)))
       (with_channels (pm_channels (ideal s (cc_info e))) (ideal s1 (F (cc_info e))))) ->
  (forall id e c, the_clients s !! id = Some e -> c ∉ touched -> c ∈ visible_ids s (cc_info e) ->
     c ∈ visible_ids s1 (F (cc_info e)) -> the_channels s !! c = the_channels s1 !! c) ->
  ok s (resync_visibility s2 (visible_ids_by_client s) touched).
Proof.
  intros Hview Htouched. set (s3 := resync_visibility s2 _ touched).
  destruct (announced_facts fs s1 (proj1 Hgood1)) as (Hinv2 & Ho2 & Hi2). fold s2 in Hinv2, Ho2, Hi2.
  pose proof (inv_keyed _ (proj1 Hgood)) as Hk. pose proof (inv_keyed _ Hinv2) as Hk2.
  pose proof (resync_visibility_only s2 (visible_ids_by_client s) touched) as Ho3. fold s3 in Ho3.
  assert (Hi3 : forall id e', the_clients s3 !! id = Some e' -> exists e, the_clients s2 !! id = Some e /\ cc_info e' = cc_info e)
    by (eapply delivered_info; by apply resync_visibility_talks).
  assert (Hc : the_channels s2 = the_channels s1) by (exact (only_clients_channels _ _ Ho2)).
  assert (Hsame : forall u, visible_ids s2 u = visible_ids s1 u).
  { intros u. apply visible_standing; [exact (only_clients_perms _ _ Ho2) | done | done]. }
  split; [split; [by apply inv_resync | eapply live_only; [exact Ho3 | exact Hi3 | apply changed_good]]|].
  exists F, (fun u => hear_all (resync_events (the_channels s2) touched (visible_ids s u) (visible_ids s2 (F u))) (hear_all fs (ideal s u))).
  split.
  - apply (shows_told s F (fun u => hear_all fs (ideal s u)) s2 (fun id => match the_clients s !! id with
        | Some e => resync_events (the_channels s2) touched (visible_ids s (cc_info e)) (visible_ids s2 (F (cc_info e)))
        | None => [] end) _ (fun u => u)); [apply changed_shows | exact Hi3 |].
    intros id e He [e2 He2]. rewrite He. split; [|done].
    destruct (sh_info _ _ _ _ changed_shows id e2 He2) as (e' & He' & E). assert (e' = e) as -> by congruence.
    rewrite <- E. apply told_received, received_resync; [done | by apply visible_ids_by_client_NoDup | by apply visible_ids_by_client_entry | done].
  - intros id e He Hon3. rewrite hear_channel_frames by apply resync_channel_frames.
    destruct Hon3 as [e3 He3]. destruct (Hi3 id e3 He3) as (e2 & He2 & _).
    destruct (sh_info _ _ _ _ changed_shows id e2 He2) as (e' & He' & E). assert (e' = e) as -> by congruence.
    assert (Ev : apply_events (pm_channels (hear_all fs (ideal s (cc_info e))))
        (resync_events (the_channels s2) touched (visible_ids s (cc_info e)) (visible_ids s2 (F (cc_info e)))) =
        restrict (the_channels s2) (visible_ids s2 (F (cc_info e)))).
    { rewrite (sv_channels _ _ _ (Hview id e He)). cbn [pm_channels with_channels ideal]. rewrite <- E.
      apply resync_events_view; [apply (inv_channels _ Hinv2) | apply dom_restrict_visible, (inv_channels _ (proj1 Hgood)) |].
      intros c Hw Hn. rewrite lookup_restrict, decide_True by done. rewrite Hc. rewrite Hsame, E in Hn.
      destruct (decide (c ∈ touched)); [by right | left; exact (Htouched id e c He n Hw Hn)]. }
    rewrite Ev. rewrite <- (ideal_only _ _ _ Ho3 Hi3).
    assert (Hmono : forall i, on_roster s3 i -> on_roster s1 i).
    { intros i [e4 He4]. destruct (Hi3 i e4 He4) as (e5 & He5 & _). apply changed_roster. by exists e5. }
    transitivity (with_channels (restrict (the_channels s2) (visible_ids s2 (F (cc_info e)))) (ideal s1 (F (cc_info e)))).
    + rewrite (with_channels_proper _ _ _ _ (same_view_mono _ _ _ _ Hmono (Hview id e He))). done.
    + rewrite Hsame, Hc. etransitivity; [|eapply same_view_mono; [|apply changed_ideal]].
      * by destruct (ideal s1 (F (cc_info e))) eqn:Ei; unfold ideal in Ei; injection Ei as <- <- <- <- <- <- <-.
      * intros i [e4 He4]. destruct (Hi3 i e4 He4) as (e5 & He5 & _). by exists e5.
Qed.

End Change.

End Following.

#[export] Hint Extern 1 (silent _) => (intros ?; reflexivity) : follow.
#[export] Hint Resolve ok_refl ok_send ok_broadcast ok_broadcast_filtered ok_join ok_leave ok_force_move ok_set_voice_state
  ok_set_server_muted ok_set_nickname ok_remove ok_eject ok_close ok_build_message ok_store_step ok_user_updated
  set_voice_state_current set_server_muted_current set_nickname_current : follow.
