(* ===== verification/Mirrors.v ===== *)
(** * Every mirror stays right

    Each command, run to its end, puts in every member's queue what brings that member's mirror
    from right to right.  So the application shows what the server enforces: the answers of
    [Mirror.v] are those of the server's own checks, whatever was commanded by whom, as soon as
    the frames in flight have arrived. *)

From S2P Require Export Hearing Following.

(** One step of a handler that runs alone. *)
Ltac follow_step :=
  first
    [ lead
    | match goal with
      | |- leads _ (bind (call _) _) _ => apply leads_call
      | |- leads _ (bind (store_exec _) _) _ => apply leads_call
      | |- leads _ (bind (store_query _) _) _ => apply leads_call
      | |- leads _ (error_to _ _ _) _ => apply leads_update_last
      | |- leads _ (empty_page _ _) _ => apply leads_update_last
      end ].

Ltac follow := repeat follow_step; eauto 10 with follow.

Section Commands.
Context {C : Crypto} {HO : HashOrder} {L : HashOrderLaws HO} {U : UnicodeTables}.
Context {DB : Type} {ST : StoreApi DB}.
Implicit Types s : Shared DB.

Abbreviation followed s0 := (leads (fun _ => ok s0)).

Lemma followed_authorize s0 s client nonce bit target :
  ok s0 s -> followed s0 (authorize_against_online client nonce bit target) s.
Proof. intros Hok. unfold authorize_against_online. follow. Qed.

Lemma followed_eject s0 s victim reason : ok s0 s -> followed s0 (eject_and_close victim reason) s.
Proof. intros Hok. unfold eject_and_close. follow. Qed.

Lemma followed_then {A B} s0 s (p : prog (Shared DB) A) (k : A -> prog (Shared DB) B) :
  followed s0 p s -> (forall a s', ok s0 s' -> followed s0 (k a) s') -> followed s0 (bind p k) s.
Proof. intros Hp Hk. by apply (leads_bind (fun _ => ok s0)). Qed.

(** With the parts the moderation commands share. *)
Ltac follow_on :=
  repeat
    match goal with
    | |- leads _ (bind (authorize_against_online _ _ _ _) _) _ =>
        apply followed_then; [apply followed_authorize; eauto 10 with follow | intros ? ? ?]
    | |- leads _ (bind (eject_and_close _ _) _) _ =>
        apply followed_then; [apply followed_eject; eauto 10 with follow | intros ? ? ?]
    | |- leads _ (bind (for_each _ _) _) _ =>
        apply followed_then; [apply leads_for_each; [eauto 10 with follow | intros; apply followed_eject; eauto 10 with follow] | intros ? ? ?]
    | |- leads _ _ _ => follow_step
    end; eauto 10 with follow.

Lemma followed_others s client m : administers m = false -> good s -> followed s (handle_control client m) s.
Proof.
  intros Hm Hg. assert (Hok : ok s s) by by apply ok_refl. destruct m; try discriminate Hm; clear Hm; cbn [handle_control].
  all: unfold kick, ban, unban, list_bans, set_server_mute, move_member, Session.join, send_message, post_message, typing, fetch_history; follow_on.
Qed.
(** ** The pieces of an administration command *)

Lemma set_store_self s : set_store (store s) s = s.
Proof. by destruct s. Qed.

(** A call of the database leaves the rest of the state as it is. *)
Lemma followed_store {A} s0 f s (k : bool -> prog (Shared DB) A) :
  (forall b d, followed s0 (k b) (set_store d s)) -> followed s0 (bind (store_exec f) k) s.
Proof.
  intros H. apply leads_call. unfold store_step. destruct (store s) as [d|] eqn:E; [destruct (f d) as [b d']; apply H|].
  cbn [fst snd]. rewrite <- (set_store_self s) at 1. apply H.
Qed.

Lemma good_store s d : good s -> good (set_store d s).
Proof. intros [[Hc Hch Hp Hn] Hl]. by split. Qed.

Lemma ok_store s0 s d : ok s0 s -> ok s0 (set_store d s).
Proof. intros Hok. apply (ok_quiet s0 s (fun u => u)); [by apply quiet_same | apply good_store, Hok | done]. Qed.

Lemma followed_actor {A} s0 s client nonce (k : option Actor -> prog (Shared DB) A) :
  ok s0 s -> (forall s', ok s0 s' -> followed s0 (k None) s') -> (forall a, followed s0 (k (Some a)) s) ->
  followed s0 (bind (actor client nonce) k) s.
Proof.
  intros Hok Hn Hs. unfold actor. repeat follow_step; [apply Hn; eauto with follow | apply Hs | by apply Hn].
Qed.

Lemma followed_validate {A} s0 s client nonce id name parent (k : option rstring -> prog (Shared DB) A) :
  ok s0 s -> (forall s', ok s0 s' -> followed s0 (k None) s') -> (forall n, followed s0 (k (Some n)) s) ->
  followed s0 (bind (validate_channel client nonce id name parent) k) s.
Proof.
  intros Hok Hn Hs. unfold validate_channel. repeat follow_step; first [apply Hs | apply Hn; eauto with follow].
Qed.

(** What the members hold is in the table. *)
Lemma held_roles s id e r :
  good s -> the_clients s !! id = Some e -> r = EVERYONE_ROLE_ID \/ r ∈ u_roles (cc_info e) -> r ∈ role_ids (ps_roles (perms s)).
Proof.
  intros [Hinv Hl] He. pose proof (inv_perms _ Hinv) as [Hwf Hm]. intros [-> | Hr].
  - apply elem_of_role_ids, everyone_exists, Hwf.
  - destruct (Hl id e He) as [E _]. rewrite E in Hr. unfold member_roles in Hr.
    destruct (ps_members (perms s) !! user_fingerprint (cc_info e)) as [granted|] eqn:Eg; [|by apply not_elem_of_nil in Hr].
    by destruct (Hm _ _ _ Eg Hr).
Qed.

Lemma visible_tables s s' u :
  the_channels s' = the_channels s ->
  (forall id, id = EVERYONE_ROLE_ID \/ id ∈ u_roles u ->
     role_permissions (ps_roles (perms s')) id = role_permissions (ps_roles (perms s)) id) ->
  visible_ids s' u = visible_ids s u.
Proof.
  intros Hc Hr. unfold visible_ids. rewrite Hc. f_equal. f_equal. apply retain_ext. intros c _.
  unfold can_view_channel, resolve_user, perm_state. by rewrite (resolve_tables (ps_roles (perms s))).
Qed.

Lemma good_swap s next d :
  good s -> wf_perms next -> ps_members next = ps_members (perms s) -> good (swap_perm_state (set_store d s) next).
Proof.
  intros Hg Hwf Hm. pose proof (good_store s d Hg) as [Hinv Hl]. split; [by apply inv_swap_perms|].
  intros id e He. destruct (Hl id e He) as [H1 H2]. split; [|exact H2]. rewrite H1. unfold member_roles. cbn. by rewrite Hm.
Qed.

(** A new table whose roles keep their masks. *)
Lemma ok_new_table s d next fs :
  good s -> wf_perms next -> ps_members next = ps_members (perms s) ->
  (forall r, r ∈ ps_roles (perms s) -> exists r', r' ∈ ps_roles next /\ role_id r' = role_id r /\ role_perms r' = role_perms r) ->
  (forall m, pm_roles m = ps_roles (perms s) ->
     hear_all fs m = mkMirror (pm_fingerprint m) (pm_probe m) (pm_owner m) (ps_roles next) (pm_my_roles m) (pm_channels m) (pm_users m)) ->
  ok s (announced fs (swap_perm_state (set_store d s) next)).
Proof.
  intros Hg Hwf Hm Hmasks Hfs. eapply (ok_change s _ (fun u => u)); [by apply good_swap | intros id e He; by exists e |].
  intros id e He. rewrite Hfs by done. split; try done. cbn [ideal pm_channels]. f_equal. symmetry.
  apply visible_tables; [done|]. intros r Hr. pose proof (held_roles s id e r Hg He Hr) as Hin.
  apply same_masks; [apply (wf_unique _ (proj1 (inv_perms _ (proj1 Hg)))) | apply (wf_unique _ (proj1 Hwf)) | done | done].
Qed.

Lemma sorted_in roles r : r ∈ sort_by_key role_position roles <-> r ∈ roles.
Proof. by rewrite sort_by_key_perm. Qed.

Lemma repositioned_in positions roles r :
  r ∈ roles -> exists r', r' ∈ reposition positions roles /\ role_id r' = role_id r /\ role_perms r' = role_perms r.
Proof.
  intros Hr. eexists. split; [apply list_elem_of_fmap_2, Hr|]. by destruct (position_of positions (role_id r)).
Qed.

(** Up to the next call of the database; the refusals on the way concern no mirror. *)
Ltac steer := repeat lead; eauto using ok_store with follow.

Lemma followed_create_role s client nonce name permissions :
  good s -> role_room (ps_roles (perms s)) -> followed s (create_role client nonce name permissions) s.
Proof.
  intros Hg Hroom. assert (Hok := ok_refl s Hg). unfold create_role.
  apply followed_actor; [done | intros; steer |]. intros a. steer.
  apply followed_store. intros b1 d1. steer.
  apply followed_store. intros b2 d2. steer.
  apply ok_send; [by intros ?|].
  set (role := mkRole _ _ _ _ _). set (next := perms_with_new_role (perm_state s) role).
  destruct (next_role_id_fresh _ Hroom) as (_ & Hfresh & _).
  assert (Hwf' : wf_perms next) by (apply new_role_wf; [exact (inv_perms _ (proj1 Hg)) | done | done | done | apply contains_intersect_all]).
  apply (ok_new_table s d2 next [SRoleCreated role; SRolesReordered (ordering_of (ps_roles next))]); try done.
  - intros r Hr. destruct (repositioned_in (shifted_positions (ps_roles (perms s))) _ r Hr) as (r' & Hr' & E).
    exists r'. split; [|done]. apply sorted_in, elem_of_app. by left.
  - intros m Em. unfold hear_all, hear. cbn [fold_left translate mirror_apply snd pm_roles pm_fingerprint pm_probe pm_owner pm_my_roles pm_channels pm_users].
    f_equal. rewrite Em. apply mirrored_create; [exact (inv_perms _ (proj1 Hg)) | done | done].
Qed.

Lemma followed_reorder_roles s client nonce positions :
  good s -> followed s (reorder_roles client nonce positions) s.
Proof.
  intros Hg. assert (Hok := ok_refl s Hg). unfold reorder_roles.
  apply followed_actor; [done | intros; steer |]. intros a. steer.
  apply followed_store. intros b1 d1. steer.
  apply ok_send; [by intros ?|]. set (next := perms_reordered (perm_state s) positions).
  assert (Hd : is_dense_reorder (ps_roles (perms s)) positions = true) by by bool_props.
  assert (Hwf' : wf_perms next) by (apply reordered_wf; [exact (inv_perms _ (proj1 Hg)) | done | done]).
  apply (ok_new_table s d1 next [SRolesReordered positions]); try done.
  - intros r Hr. destruct (repositioned_in positions _ r Hr) as (r' & Hr' & E). exists r'. split; [|done]. by apply sorted_in.
  - intros m Em. unfold hear_all, hear. cbn [fold_left translate mirror_apply snd]. f_equal. rewrite Em.
    apply mirrored_reorder; [exact (inv_perms _ (proj1 Hg)) | done].
Qed.
(** ** Commands that change who may see what *)

(** Nothing is announced, the records stay: the channels change, and resync tells. *)
Lemma ok_channels_changed s s1 touched :
  good s -> good s1 -> the_clients s1 = the_clients s -> perms s1 = perms s ->
  (forall c e, c ∉ touched -> c ∈ visible_ids s (cc_info e) -> c ∈ visible_ids s1 (cc_info e) -> the_channels s !! c = the_channels s1 !! c) ->
  ok s (resync_visibility s1 (visible_ids_by_client s) touched).
Proof.
  intros Hg Hg1 Hcl Hp Ht. apply (ok_change_resync s s1 (fun u => u) []); try done.
  - intros id e He. rewrite Hcl in He. by exists e.
  - intros id e He. split; try done; cbn.
    + by rewrite Hp.
    + intros i _. unfold standings. by rewrite Hcl.
  - intros id e c _. apply Ht.
Qed.

Lemma good_channels s s1 : server_inv s1 -> the_clients s1 = the_clients s -> perms s1 = perms s -> owner s1 = owner s -> good s -> good s1.
Proof.
  intros Hinv Hc Hp Ho [_ Hl]. split; [done|]. intros id e He. rewrite Hc in He. unfold member_roles, is_owner. rewrite Hp, Ho.
  exact (Hl id e He).
Qed.

Lemma set_channel_overwrite_shape s chan ow :
  let s1 := (set_channel_overwrite s chan ow).2 in
  the_clients s1 = the_clients s /\ perms s1 = perms s /\ owner s1 = owner s /\
  forall c, c <> chan -> the_channels s !! c = the_channels s1 !! c.
Proof.
  unfold set_channel_overwrite. destruct (the_channels s !! chan) as [old|]; [|done]. split_and!; try done.
  intros c Hc. cbn. by rewrite lookup_insert_ne.
Qed.

Lemma remove_channel_overwrite_shape s chan target :
  let s1 := (remove_channel_overwrite s chan target).2 in
  the_clients s1 = the_clients s /\ perms s1 = perms s /\ owner s1 = owner s /\
  forall c, c <> chan -> the_channels s !! c = the_channels s1 !! c.
Proof.
  unfold remove_channel_overwrite. destruct (the_channels s !! chan) as [old|]; [|done]. split_and!; try done.
  intros c Hc. cbn. by rewrite lookup_insert_ne.
Qed.

Lemma update_channel_shape s c :
  let s1 := (update_channel_mem s c).2 in
  the_clients s1 = the_clients s /\ perms s1 = perms s /\ owner s1 = owner s /\
  forall i, i <> ch_id c -> the_channels s !! i = the_channels s1 !! i.
Proof.
  unfold update_channel_mem. destruct (the_channels s !! ch_id c) as [old|]; [|done]. split_and!; try done.
  intros i Hi. cbn. by rewrite lookup_insert_ne.
Qed.

(** One channel touched. *)
Lemma ok_one_channel s s1 chan :
  good s -> server_inv s1 ->
  the_clients s1 = the_clients s /\ perms s1 = perms s /\ owner s1 = owner s /\
    (forall c, c <> chan -> the_channels s !! c = the_channels s1 !! c) ->
  ok s (resync_visibility s1 (visible_ids_by_client s) [chan]).
Proof.
  intros Hg Hinv (Hc & Hp & Ho & Hch). apply ok_channels_changed; try done; [by eapply good_channels|].
  intros c e Hn _ _. apply Hch. intros ->. apply Hn. left.
Qed.

Lemma followed_delete_channel_overwrite s client nonce chan target :
  good s -> followed s (delete_channel_overwrite client nonce chan target) s.
Proof.
  intros Hg. assert (Hok := ok_refl s Hg). unfold delete_channel_overwrite.
  apply followed_actor; [done | intros; steer |]. intros a. steer.
  apply followed_store. intros b1 d1. steer. apply leads_call. steer. apply ok_send; [by intros ?|].
  apply (ok_one_channel s _ chan); [done | apply inv_remove_channel_overwrite, good_store, Hg |].
  apply (remove_channel_overwrite_shape (set_store d1 s)).
Qed.

Lemma followed_set_channel_overwrite s client nonce chan target allow deny :
  good s -> followed s (set_channel_overwrite_cmd client nonce chan target allow deny) s.
Proof.
  intros Hg. assert (Hok := ok_refl s Hg). unfold set_channel_overwrite_cmd.
  apply followed_actor; [done | intros; steer |]. intros a. lead. lead; [steer|]. lead; [steer|].
  apply (leads_bind (fun _ s' => s' = s)); [by destruct target|]. intros named s' ->.
  set (ow := mkOverwrite target (intersect allow CHANNEL_SCOPED) (intersect deny CHANNEL_SCOPED)).
  assert (Hwf : wf_overwrite ow) by (apply checked_overwrite_wf; by bool_props).
  assert (Hstore : forall b d, followed s (if negb b then refuse client nonce Internal (lit "the change was not saved")
      else (_changed <- call (fun s => set_channel_overwrite s chan ow);;
            update (fun s' => resync_visibility s' (visible_ids_by_client s) [chan]);; ack client nonce)%prog) (set_store d s)).
  { intros b d. lead; [steer; eauto using ok_store with follow|]. apply leads_call. steer. apply ok_send; [by intros ?|].
    apply (ok_one_channel s _ chan); [done | apply inv_set_channel_overwrite; [apply good_store, Hg | done] |].
    apply (set_channel_overwrite_shape (set_store d s)). }
  steer; by apply followed_store.
Qed.

Lemma followed_create_channel s client nonce name parent topic kind max_users order :
  good s -> channel_room s -> followed s (create_channel client nonce name parent topic kind max_users order) s.
Proof.
  intros Hg Hroom. assert (Hok := ok_refl s Hg). unfold create_channel. do 2 lead; [steer|].
  apply followed_validate; [done | intros; steer |]. intros n. steer.
  apply followed_store. intros b1 d1. steer. apply ok_send; [by intros ?|].
  apply (ok_channels_changed s _ []); try done.
  - apply (good_channels s); try done. by apply inv_insert_channel; [apply good_store, Hg|].
  - intros c e _ Hc _. cbn. rewrite lookup_insert_ne; [done|]. cbn. intros <-.
    apply visible_ids_exist in Hc; [|apply (inv_channels _ (proj1 Hg))].
    change (next_channel_id (set_store d1 s)) with (next_channel_id s) in Hc.
    rewrite next_channel_id_new in Hc by done. by destruct Hc.
Qed.

Lemma followed_update_channel s client nonce id parent name topic kind max_users order :
  good s -> followed s (update_channel client nonce id parent name topic kind max_users order) s.
Proof.
  intros Hg. assert (Hok := ok_refl s Hg). unfold update_channel. do 2 lead; [steer|]. do 2 lead; [steer|].
  apply followed_validate; [done | intros; steer |]. intros n. steer.
  apply followed_store. intros b1 d1. steer. apply leads_call. steer. apply ok_send; [by intros ?|].
  apply (ok_one_channel s _ id); [done | apply inv_update_channel, good_store, Hg |].
  apply (update_channel_shape (set_store d1 s)).
Qed.

Lemma followed_update_role s client nonce id name color permissions :
  good s -> followed s (update_role client nonce id name color permissions) s.
Proof.
  intros Hg. assert (Hok := ok_refl s Hg). unfold update_role.
  apply followed_actor; [done | intros; steer |]. intros a. steer.
  apply followed_store. intros b1 d1. steer. apply ok_send; [by intros ?|].
  match goal with Hf : find_role _ _ = Some ?r, Hu : update_role_fields _ _ _ _ _ = inr ?r' |- _ => rename r into existing, r' into updated; rename Hf into Hfind; rename Hu into Hfields end.
  set (next := perms_with_updated_role (perm_state s) id updated).
  pose proof (inv_perms _ (proj1 Hg)) as Hwf. pose proof (update_role_fields_place _ _ _ _ _ _ Hfields) as Hplace.
  pose proof (find_role_some _ _ _ Hfind) as [Hin Hid].
  assert (Hwf' : wf_perms next).
  { eapply updated_role_wf; [done | exact Hfind | done |]. eapply update_role_fields_bits; [|exact Hfields]. by apply (wf_bits _ (proj1 Hwf)). }
  apply (ok_change_resync s (swap_perm_state (set_store d1 s) next) (fun u => u) [SRoleUpdated updated] Hg); try done.
  - by apply good_swap.
  - intros i e He. by exists e.
  - intros i e He. split; try done. cbn. apply (put_updated _ _ _ existing); [done | done | done |]. by rewrite (proj1 Hplace).
Qed.

(** ** Announcing the records that changed *)

Lemma leads_announces {A B} (fr : A -> list ServerControl) (l : list A) body (k : unit -> prog (Shared DB) B) (Q : B -> Shared DB -> Prop) s :
  (forall a s, run (body a) s = Some (tt, announced (fr a) s)) ->
  leads Q (k tt) (announced (l ≫= fr) s) -> leads Q (bind (for_each l body) k) s.
Proof.
  intros Hb H. unfold leads in *. rewrite run_bind.
  assert (E : run (for_each l body) s = Some (tt, announced (l ≫= fr) s)); [|by rewrite E]. clear H.
  revert s; induction l as [|a l IH]; intros s; [done|]. cbn [for_each]. rewrite run_bind, Hb, IH.
  rewrite bind_cons. unfold announced. by rewrite fold_left_app.
Qed.

Section Modified.
Context (s s0 : Shared DB) (p : UserInfo -> bool) (f : UserInfo -> UserInfo).
Context (Hclients : the_clients s0 = the_clients s) (Hkeyed : keyed (the_clients s)).
Context (Hf : forall u, u_client_id (f u) = u_client_id u /\ user_fingerprint (f u) = user_fingerprint u).

Definition modified (u : UserInfo) : UserInfo := if p u then f u else u.
Let infos := (modify_where p f s0).1.
Let s1 := (modify_where p f s0).2.

Lemma modified_fields u : u_client_id (modified u) = u_client_id u /\ user_fingerprint (modified u) = user_fingerprint u.
Proof. unfold modified. by destruct (p u). Qed.

Lemma modified_records id e' :
  the_clients s1 !! id = Some e' ->
  exists e, the_clients s !! id = Some e /\ cc_control e' = cc_control e /\ cc_info e' = modified (cc_info e).
Proof.
  unfold s1, modify_where. cbn [snd]. rewrite the_clients_set, lookup_fmap, Hclients.
  destruct (the_clients s !! id) as [e|]; [|done]. intros [= <-]. exists e. unfold modified. by destruct (p (cc_info e)).
Qed.

Lemma modified_lookup id e : the_clients s !! id = Some e ->
  exists e', the_clients s1 !! id = Some e' /\ cc_info e' = modified (cc_info e).
Proof.
  intros He. unfold s1, modify_where. cbn [snd]. rewrite the_clients_set, lookup_fmap, Hclients, He. eexists. split; [done|].
  unfold modified. by destruct (p (cc_info e)).
Qed.

Lemma modified_infos i : i ∈ infos <-> exists id e, the_clients s !! id = Some e /\ p (cc_info e) = true /\ i = f (cc_info e).
Proof.
  unfold infos, modify_where. cbn [fst]. rewrite list_elem_of_omap. split.
  - intros ((id & e) & Hin & E). apply elem_of_hash_iter in Hin. rewrite Hclients in Hin. cbn [snd] in E.
    destruct (p (cc_info e)) eqn:Ep; [|done]. injection E as <-. eauto.
  - intros (id & e & He & Ep & ->). exists (id, e). split; [apply elem_of_hash_iter; by rewrite Hclients|]. cbn [snd]. by rewrite Ep.
Qed.

(** What those updates make of a mirror that has the rest right. *)
Lemma hear_modified id0 e0 m :
  live s1 -> the_clients s !! id0 = Some e0 ->
  pm_fingerprint m = user_fingerprint (cc_info e0) -> pm_roles m = ps_roles (perms s0) -> pm_users m = standings s ->
  p (cc_info e0) = true \/ (pm_my_roles m = u_roles (modified (cc_info e0)) /\ pm_owner m = u_owner (modified (cc_info e0))) ->
  same_view (on_roster s1) (hear_all (map SUserUpdated infos) m) (with_channels (pm_channels m) (ideal s1 (modified (cc_info e0)))).
Proof.
  intros Hl He0 Hfp Hr Hu Hmine. apply hear_updates; cbn [pm_fingerprint pm_roles pm_channels with_channels ideal].
  - by rewrite (proj2 (modified_fields _)).
  - done.
  - done.
  - apply Forall_forall. intros i (id & e & He & Ep & ->)%modified_infos.
    destruct (modified_lookup id0 e0 He0) as (e0' & He0' & <-). destruct (Hl id0 e0' He0') as [R0 O0].
    destruct (modified_lookup id e He) as (e' & He' & E). unfold modified in E. rewrite Ep in E.
    destruct (Hl id e' He') as [R O']. rewrite E in R, O'.
    apply (current_right s1 (f (cc_info e)) (cc_info e0') Hl R0 O0). split_and!; [|done | done].
    rewrite (proj1 (Hf _)), (Hkeyed _ _ He), He'. intros ? [= <-]. by rewrite E.
  - intros id [e' He']. destruct (modified_records id e' He') as (e & He & _ & E). rewrite Hu.
    cbn [pm_users with_channels ideal]. rewrite !standings_lookup, He, He'. cbn [fmap option_fmap option_map]. rewrite E.
    unfold modified. destruct (p (cc_info e)) eqn:Ep; [left | by right].
    apply list_elem_of_fmap. exists (f (cc_info e)). rewrite (proj1 (Hf _)). split; [by rewrite (Hkeyed _ _ He)|].
    apply modified_infos. eauto.
  - destruct Hmine as [Ep | H]; [left | right; exact H]. rewrite (proj2 (modified_fields _)).
    apply list_elem_of_fmap. exists (f (cc_info e0)). split; [symmetry; apply Hf|]. apply modified_infos. eauto.
Qed.

End Modified.

Lemma one_each {A} (g : A -> ServerControl) (l : list A) : (l ≫= fun a => [g a]) = map g l.
Proof. induction l as [|a l IH]; [done|]. rewrite bind_cons, IH. done. Qed.

(** The grants of one identity, and its records. *)
Definition of_identity (fp : Fingerprint) (u : UserInfo) : bool := bool_decide (user_fingerprint u = fp).

Lemma granted_lookup snapshot fp roles f :
  default [] (ps_members (perms_with_grants snapshot fp roles) !! f) =
    if decide (f = fp) then roles else default [] (ps_members snapshot !! f).
Proof.
  cbn [ps_members perms_with_grants]. destruct (is_empty roles) eqn:E.
  - apply is_empty_true in E as ->. case_decide as Hf; [subst; by rewrite lookup_delete_eq | by rewrite lookup_delete_ne].
  - case_decide as Hf; [subst; by rewrite lookup_insert_eq | by rewrite lookup_insert_ne].
Qed.

Lemma good_granted s d fp roles :
  good s -> wf_perms (perms_with_grants (perms s) fp roles) ->
  good (update_live_member_roles (swap_perm_state (set_store d s) (perms_with_grants (perms s) fp roles)) fp roles).2.
Proof.
  intros Hg Hwf. pose proof (good_store s d Hg) as [Hinv Hl].
  split; [by apply inv_update_live_member_roles, inv_swap_perms|]. intros id e' He'.
  destruct (modified_records s (swap_perm_state (set_store d s) (perms_with_grants (perms s) fp roles)) (of_identity fp)
    (set_user_roles roles) eq_refl id e' He') as (e & He & _ & E).
  destruct (Hl id e He) as [Hr Ho]. unfold member_roles. rewrite E. unfold modified, of_identity.
  cbn [perms swap_perm_state update_live_member_roles modify_where snd set_clients set_perms set_inner]. rewrite granted_lookup.
  case_bool_decide as Hfp; (split; [|exact Ho]); cbn [u_roles set_user_roles user_fingerprint].
  - by rewrite decide_True.
  - rewrite decide_False by done. exact Hr.
Qed.

Lemma followed_set_member_roles s client nonce fp roles :
  good s -> followed s (set_member_roles client nonce fp roles) s.
Proof.
  intros Hg. assert (Hok := ok_refl s Hg). unfold set_member_roles.
  apply followed_actor; [done | intros; steer |]. intros a. steer.
  apply followed_store. intros b1 d1. steer. apply leads_call. apply (leads_announces (fun i => [SUserUpdated i])); [done|].
  rewrite one_each. steer. apply ok_send; [by intros ?|].
  assert (Hwf : wf_perms (perms_with_grants (perms s) fp roles)).
  { apply grants_wf; [exact (inv_perms _ (proj1 Hg)) | by bool_props | done]. }
  pose proof (good_granted s d1 fp roles Hg Hwf) as Hg1. pose proof (inv_keyed _ (proj1 Hg)) as Hk.
  set (s0 := swap_perm_state (set_store d1 s) (perms_with_grants (perms s) fp roles)) in *.
  pose proof (modified_records s s0 (of_identity fp) (set_user_roles roles) eq_refl) as Hrecords.
  apply (ok_change_resync s _ _ _ Hg Hg1 Hrecords); [|done]. intros id e He.
  apply (hear_modified s s0 (of_identity fp) (set_user_roles roles) eq_refl Hk ltac:(done) id e); try done; [apply Hg1|].
  unfold modified. destruct (of_identity fp (cc_info e)); [by left | by right].
Qed.

(** Deleting a role: the table, the overwrites that name it, the members that hold it. *)
Definition holds_role (id : RoleId) (u : UserInfo) : bool := bool_decide (id ∈ u_roles u).
Definition without_role (id : RoleId) (u : UserInfo) : UserInfo := set_user_roles (retain (fun r => negb (r =? id)) (u_roles u)) u.

Lemma without_role_roles id u : u_roles (modified (holds_role id) (without_role id) u) = retain (fun r => negb (r =? id)) (u_roles u).
Proof.
  unfold modified, holds_role. case_bool_decide as H; [done|]. symmetry. apply retain_all. intros r Hr.
  apply negb_true_iff, Z.eqb_neq. congruence.
Qed.

Lemma good_stripped s d id :
  good s -> id <> EVERYONE_ROLE_ID ->
  good (strip_live_role (strip_role_overwrites (swap_perm_state (set_store d s) (perms_without_role (perms s) id)) id).2 id).2.
Proof.
  intros Hg Hne. pose proof (good_store s d Hg) as [Hinv Hl].
  split; [by apply inv_strip_live_role, inv_strip_role_overwrites, inv_swap_perms, removed_role_wf; [| exact (inv_perms _ (proj1 Hg)) |]|].
  set (s0 := (strip_role_overwrites (swap_perm_state (set_store d s) (perms_without_role (perms s) id)) id).2).
  intros i e' He'. destruct (modified_records s s0 (holds_role id) (without_role id) eq_refl i e' He') as (e & He & _ & E).
  destruct (Hl i e He) as [Hr Ho]. rewrite E, without_role_roles. unfold member_roles.
  assert (Ef : user_fingerprint (modified (holds_role id) (without_role id) (cc_info e)) = user_fingerprint (cc_info e))
    by (unfold modified; by destruct (holds_role id (cc_info e))).
  assert (Eo : u_owner (modified (holds_role id) (without_role id) (cc_info e)) = u_owner (cc_info e))
    by (unfold modified; by destruct (holds_role id (cc_info e))).
  rewrite Ef, Eo. split; [|exact Ho].
  change (perms (strip_live_role s0 id).2) with (perms_without_role (perms s) id). cbn [perms_without_role ps_members].
  rewrite lookup_fmap. unfold member_roles in Hr. change (perms (set_store d s)) with (perms s) in Hr. rewrite Hr.
  by destruct (ps_members (perms s) !! user_fingerprint (cc_info e)).
Qed.

Lemma followed_delete_role s client nonce id : good s -> followed s (delete_role client nonce id) s.
Proof.
  intros Hg. assert (Hok := ok_refl s Hg). unfold delete_role.
  apply followed_actor; [done | intros; steer |]. intros a. steer.
  apply followed_store. intros b1 d1. steer. apply followed_store. intros b2 d2. lead. apply leads_call, leads_call. do 2 lead.
  apply (leads_announces (fun i => [SUserUpdated i])); [done|]. rewrite one_each. steer. apply ok_send; [by intros ?|].
  assert (Hne : id <> EVERYONE_ROLE_ID) by (by bool_props).
  pose proof (good_stripped s d2 id Hg Hne) as Hg1. pose proof (inv_keyed _ (proj1 Hg)) as Hk.
  pose proof (inv_perms _ (proj1 Hg)) as Hwf. pose proof (removed_role_wf _ _ Hwf Hne) as Hwf'.
  set (next := perms_without_role (perms s) id) in *.
  set (s0 := (strip_role_overwrites (swap_perm_state (set_store d2 s) next) id).2) in *.
  set (infos := (strip_live_role s0 id).1). set (ordering := ordering_of (ps_roles next)).
  pose proof (modified_records s s0 (holds_role id) (without_role id) eq_refl) as Hrecords.
  apply (ok_change_resync s (strip_live_role s0 id).2 _ (SRoleDeleted id :: SRolesReordered ordering :: map SUserUpdated infos) Hg Hg1 Hrecords).
  - intros i e He. cbn [hear_all fold_left]. unfold hear at 3. unfold hear at 2.
    cbn [translate mirror_apply snd pm_fingerprint pm_probe pm_owner pm_roles pm_my_roles pm_channels pm_users ideal].
    assert (Hm : reorder_all ordering (retain (fun r => negb (role_id r =? id)) (ps_roles (perms s))) = ps_roles next)
      by exact (mirrored_delete (perms s) id Hwf').
    rewrite Hm.
    apply (hear_modified s s0 (holds_role id) (without_role id) eq_refl Hk ltac:(done) i e); try done; [apply Hg1|].
    right. rewrite without_role_roles. split; [done|]. cbn. unfold modified. by destruct (holds_role id (cc_info e)).
  - intros i e c _ Hnt _ _. change (the_channels (strip_live_role s0 id).2) with
      ((fun c => if names_role id c then set_overwrites (retain (fun o => negb (bool_decide (ow_target o = TRole id))) (ch_overwrites c)) c else c)
         <$> the_channels s).
    rewrite lookup_fmap. destruct (the_channels s !! c) as [ch|] eqn:Ec; [|done]. cbn [fmap option_fmap option_map].
    destruct (names_role id ch) eqn:En; [|done]. exfalso. apply Hnt.
    apply list_elem_of_fmap. exists ch. split; [symmetry; by apply (inv_channels _ (proj1 Hg))|].
    apply elem_of_retain. split; [|done]. apply elem_of_btree_values. by exists c.
Qed.

(** Deleting a channel: those who stood in it are put out of it. *)
Definition stands_in (id : ChannelId) (u : UserInfo) : bool := bool_decide (u_channel u = Some id).

Definition eviction (id : ChannelId) (info : UserInfo) : list ServerControl :=
  [SUserMoved (u_client_id info) (Some id) None; SUserUpdated info].

Lemma hear_evictions id infos m : hear_all (infos ≫= eviction id) m = hear_all (map SUserUpdated infos) m.
Proof.
  revert m; induction infos as [|i infos IH]; intros m; [done|]. rewrite bind_cons, hear_all_app, IH. done.
Qed.

Lemma good_removed_channel s d id : good s -> good (remove_channel_mem (set_store d s) id).2.
Proof.
  intros Hg. pose proof (good_store s d Hg) as [Hinv Hl]. split; [by apply inv_remove_channel|].
  unfold remove_channel_mem. destruct (the_channels (set_store d s) !! id) as [old|]; [|done].
  set (s0 := set_channels _ (set_store d s)). intros i e' He'.
  destruct (modified_records s s0 (stands_in id) (set_user_channel None) eq_refl i e' He') as (e & He & _ & ->).
  destruct (Hl i e He) as [Hr Ho]. unfold modified. by destruct (stands_in id (cc_info e)).
Qed.

Lemma followed_delete_channel s client nonce id : good s -> followed s (delete_channel client nonce id) s.
Proof.
  intros Hg. assert (Hok := ok_refl s Hg). unfold delete_channel. do 2 lead; [steer|]. do 2 lead; [steer|]. steer.
  apply followed_store. intros b1 d1. steer. apply leads_call. apply (leads_announces (eviction id)); [done|].
  steer. apply ok_send; [by intros ?|].
  pose proof (good_removed_channel s d1 id Hg) as Hg1. pose proof (inv_keyed _ (proj1 Hg)) as Hk.
  unfold remove_channel_mem in *. destruct (the_channels (set_store d1 s) !! id) as [old|] eqn:Eo.
  2:{ apply (ok_change_resync s (set_store d1 s) (fun u => u) [] Hg Hg1); try done. intros i e He. by exists e. }
  set (s0 := set_channels _ (set_store d1 s)) in *.
  pose proof (modified_records s s0 (stands_in id) (set_user_channel None) eq_refl) as Hrecords.
  apply (ok_change_resync s _ _ _ Hg Hg1 Hrecords).
  - intros i e He. rewrite hear_evictions.
    apply (hear_modified s s0 (stands_in id) (set_user_channel None) eq_refl Hk ltac:(done) i e); try done; [apply Hg1|].
    right. unfold modified. by destruct (stands_in id (cc_info e)).
  - intros i e c _ _ _ Hin. apply visible_ids_exist in Hin; [|apply (inv_channels _ (proj1 Hg1))].
    change (is_Some (delete id (the_channels s) !! c)) in Hin. change (the_channels s !! c = delete id (the_channels s) !! c).
    destruct (decide (id = c)) as [<- | Hne]; [rewrite lookup_delete_eq in Hin; by destruct Hin | by rewrite lookup_delete_ne].
Qed.

(** ** Every command *)

Lemma followed_handle_control s client m :
  good s -> role_room (ps_roles (perms s)) -> channel_room s -> followed s (handle_control client m) s.
Proof.
  intros Hg Hr Hc. destruct (administers m) eqn:Ha; [|by apply followed_others].
  destruct m; try discriminate Ha; cbn [handle_control].
  - by apply followed_create_role.
  - by apply followed_update_role.
  - by apply followed_delete_role.
  - by apply followed_reorder_roles.
  - by apply followed_set_member_roles.
  - by apply followed_set_channel_overwrite.
  - by apply followed_delete_channel_overwrite.
  - by apply followed_create_channel.
  - by apply followed_update_channel.
  - by apply followed_delete_channel.
Qed.

End Commands.
