(* ===== verification/Agreement.v ===== *)
(** * What the application shows is what the server enforces

    The server, its members, and the mirror each member's application keeps: commands handled
    one after another, logins, departures, voice, and the frames that reach the applications one
    by one.  Whatever happens, every mirror is right once the frames in flight have arrived, and
    a right mirror gives the answers the server's own checks give. *)

From S2P Require Export Mirrors.

Section Agreement.
Context {C : Crypto} {HO : HashOrder} {L : HashOrderLaws HO} {U : UnicodeTables}.
Context {DB : Type} {ST : StoreApi DB}.
Implicit Types s : Shared DB.

(** ** The whole system *)

Record World : Type := mkWorld { w_server : Shared DB; w_mirrors : gmap ClientId PermMirror }.

(** The end of a session, once its control loop is over. *)
Definition departed s (id : ClientId) : Shared DB :=
  match State.remove s id with
  | (Some _, s1) => broadcast s1 (SUserLeft id Quit) (Some id)
  | (None, s1) => s1
  end.

Inductive happens : World -> World -> Prop :=
| hp_command s M client m s' :
    role_room (ps_roles (perms s)) -> channel_room s -> run (handle_control client m) s = Some (tt, s') ->
    happens (mkWorld s M) (mkWorld s' M)
| hp_limited s M client text : happens (mkWorld s M) (mkWorld (send s client (SError RateLimited text)) M)
| hp_arrives s M id f s' m :
    take_frame s id = (Some f, s') -> M !! id = Some m -> happens (mkWorld s M) (mkWorld s' (<[id := hear f m]> M))
| hp_voice s M client datagram s' :
    run (datagram_received client datagram) s = Some (tt, s') -> happens (mkWorld s M) (mkWorld s' M)
| hp_login s M p hello probe info ok s' :
    the_clients s !! next_client_id (inner s) = None -> run (handshake p) s = Some (Started info ok, s') ->
    happens (mkWorld s M)
      (mkWorld s' (<[u_client_id info := from_session (user_fingerprint info) probe (session_of hello ok)]> M))
| hp_left s M id : happens (mkWorld s M) (mkWorld (departed s id) M)
| hp_writer_gone s M id : happens (mkWorld s M) (mkWorld (drop_receiver s id) M)
| hp_clock s M t : happens (mkWorld s M) (mkWorld (set_clock t s) M).

(** Every connected member's mirror is right once what is in its queue has been heard. *)
Definition mirrors_right s (M : gmap ClientId PermMirror) : Prop :=
  forall id e, the_clients s !! id = Some e -> queue_open e ->
    exists m, M !! id = Some m /\
      same_view (on_roster s) (hear_all (q_frames (cc_control e)) m) (ideal s (cc_info e)).

Definition right (w : World) : Prop := good (w_server w) /\ mirrors_right (w_server w) (w_mirrors w).

(** ** One thing after another *)

Lemma gone_off s id : gone (the_clients s) id -> ~ on_roster s id.
Proof. unfold gone, on_roster. intros ->. by intros []. Qed.

Lemma right_follows s s' M : mirrors_right s M -> follows s s' -> mirrors_right s' M.
Proof.
  intros Hm (F & V & Hs & HV) id e' He' Ho.
  destruct (sh_info _ _ _ _ Hs id e' He') as (e & He & E).
  destruct (sh_told _ _ _ _ Hs id e e' He He' Ho) as (ms & Ht & Hv).
  destruct (Ht e' He' Ho) as (e1 & new & He1 & Ho1 & Ef & Hw). assert (e1 = e) as -> by congruence.
  destruct (Hm id e He Ho1) as (m & HM & Hsame). exists m. split; [done|]. rewrite Ef, hear_all_app.
  assert (Hmono : forall i, on_roster s' i -> on_roster s i) by (intros i; by apply (shows_stays _ _ _ _ _ Hs)).
  rewrite (hear_woven _ _ _ _ _ (gone_off s') Hw).
  rewrite (same_view_mono _ _ _ _ Hmono Hsame), Hv, E. apply (HV id); [done | by exists e'].
Qed.

Lemma right_ok s s' M : right (mkWorld s M) -> ok s s' -> right (mkWorld s' M).
Proof. intros [Hg Hm] [Hg' Hf]. split; [done | by eapply right_follows]. Qed.

Lemma right_quiet s s' M :
  server_inv s' -> quiet s (fun u => u) s' -> right (mkWorld s M) -> right (mkWorld s' M).
Proof. intros Hinv Hq Hr. eapply right_ok; [exact Hr|]. eapply ok_quiet; [exact Hq | done | apply ok_refl, Hr]. Qed.

Lemma right_voice s client datagram s' M :
  run (datagram_received client datagram) s = Some (tt, s') -> right (mkWorld s M) -> right (mkWorld s' M).
Proof.
  unfold datagram_received. destruct (decode_up datagram) as [e | p]; [by intros [= <-]|].
  rewrite run_update_last. intros [= <-] Hr. apply (right_quiet s); [apply inv_relay_voice, Hr | | done].
  unfold relay_voice. repeat case_match; try by apply quiet_same.
  apply (quiet_records s (fun u => u)); try done. intros id e'. rewrite the_clients_set, map_lookup_imap.
  destruct (the_clients s !! id) as [e|]; [|done]. cbn. intros [= <-]. exists e. by case_match.
Qed.

Lemma right_arrives s id f s' m M :
  take_frame s id = (Some f, s') -> M !! id = Some m -> right (mkWorld s M) -> right (mkWorld s' (<[id := hear f m]> M)).
Proof.
  intros Htake HM [Hg Hm]. cbn [w_server w_mirrors] in *. pose proof (inv_take_frame s id (proj1 Hg)) as Hinv. rewrite Htake in Hinv.
  unfold take_frame in Htake. destruct (the_clients s !! id) as [e|] eqn:He; [|done].
  destruct (q_frames (cc_control e)) as [|f0 rest] eqn:Ef; [done|]. injection Htake as -> <-.
  set (e1 := set_control e _). set (s' := set_clients _ s) in *.
  assert (Hlook : forall i e', the_clients s' !! i = Some e' -> exists e0, the_clients s !! i = Some e0 /\ cc_info e' = cc_info e0).
  { intros i e'. unfold s'. rewrite the_clients_set, lookup_insert_Some. intros [[<- <-] | [_ ?]]; eauto. }
  assert (Ho : only_clients s s') by done.
  assert (Hideal : forall m' u, same_view (on_roster s) m' (ideal s u) -> same_view (on_roster s') m' (ideal s' u)).
  { intros m' u H. rewrite <- (ideal_only _ _ _ Ho Hlook). eapply same_view_mono; [|exact H].
    intros j [e' Hj]. destruct (Hlook j e' Hj) as (e0 & He0 & _). by exists e0. }
  split; [split; [done | by eapply live_only; [exact Ho | exact Hlook | apply Hg]]|]. cbn [w_server w_mirrors].
  intros i e' He' Hopen. unfold s' in He'. rewrite the_clients_set in He'.
  apply lookup_insert_Some in He' as [[<- <-] | [Hne He']].
  - destruct (Hm id e He Hopen) as (m0 & HM0 & Hsame). assert (m0 = m) as -> by congruence.
    exists (hear f m). split; [apply lookup_insert_eq|]. apply Hideal. rewrite Ef in Hsame. exact Hsame.
  - destruct (Hm i e' He' Hopen) as (m0 & HM0 & Hsame). exists m0. rewrite lookup_insert_ne by done. split; [done | by apply Hideal].
Qed.

(** Leaving somebody out who is not there. *)
Lemma broadcast_absent s m id : the_clients s !! id = None -> broadcast s m (Some id) = broadcast s m None.
Proof.
  intros Hn. unfold broadcast, broadcast_to.
  assert (Hsel : forall i e, the_clients s !! i = Some e -> negb (bool_decide (Some i = Some id)) = negb (bool_decide (Some i = @None ClientId))).
  { intros i e He. rewrite !bool_decide_eq_false_2; [done | done | congruence]. }
  f_equal.
  - f_equal. apply map_eq. intros i. rewrite !map_lookup_imap. destruct (the_clients s !! i) as [e|] eqn:He; [|done].
    cbn. by rewrite (Hsel i e He).
  - assert (Hin : forall i e, (i, e) ∈ hash_iter (the_clients s) -> the_clients s !! i = Some e)
      by (intros i e; by rewrite elem_of_hash_iter).
    induction (hash_iter (the_clients s)) as [|[i e] l IH]; [done|]. cbn [omap list_omap fst snd].
    rewrite (Hsel i e) by (apply Hin; left). rewrite IH by (intros j e' H; apply Hin; by right). done.
Qed.

Lemma right_departed s id M : right (mkWorld s M) -> right (mkWorld (departed s id) M).
Proof.
  intros Hr. unfold departed. pose proof (ok_remove s s id (ok_refl s (proj1 Hr))) as Hok.
  unfold State.remove in *. destruct (user s id) as [u|]; [|eapply right_ok; [exact Hr | exact Hok]].
  cbn [snd] in Hok. eapply right_ok; [exact Hr|].
  assert (Hn : the_clients (set_clients (delete id (the_clients s)) s) !! id = None) by apply lookup_delete_eq.
  rewrite broadcast_absent by exact Hn. by apply ok_departure.
Qed.

Lemma right_writer_gone s id M : right (mkWorld s M) -> right (mkWorld (drop_receiver s id) M).
Proof.
  intros Hr. pose proof (inv_drop_receiver s id (proj1 (proj1 Hr))) as Hinv. revert Hinv. unfold drop_receiver.
  destruct (the_clients s !! id) as [e|] eqn:He; [|done]. intros Hinv. set (s' := set_clients _ s) in *.
  apply (right_quiet s); [done | | done]. split; try done. split.
  - intros i e'. unfold s'. rewrite the_clients_set, lookup_insert_Some. intros [[<- <-] | [_ ?]]; eauto.
  - intros i e0 e' He0 He' Ho. exists []. split; [|done]. intros e2 He2 Ho2. unfold s' in He2.
    rewrite the_clients_set, lookup_insert_Some in He2. destruct He2 as [[<- <-] | [Hne He2]]; [discriminate Ho2|].
    exists e2, []. rewrite app_nil_r. split_and!; [done | done | done | constructor].
Qed.

(** ** Logging in *)

(** The state and the reply of a handshake that lets its peer in; any other leaves every mirror
    right. *)
Definition welcomed s info ok s' : Prop :=
  exists d ident nick s1, admit_client (set_store d s) ident nick new_queue = (inr info, s1) /\
    ok_client_id ok = u_client_id info /\ ok_channels ok = visible_channels s1 info /\ ok_users ok = users s1 /\
    ok_roles ok = roles_snapshot s1 /\ s' = broadcast s1 (SUserJoined info) (Some (u_client_id info)).

Lemma admit_shape s ident nick info s1 :
  admit_client s ident nick new_queue = (inr info, s1) ->
  the_clients s1 = <[u_client_id info := mkClient info new_queue []]> (the_clients s) /\
  u_client_id info = next_client_id (inner s) /\ perms s1 = perms s /\ owner s1 = owner s /\
  the_channels s1 = the_channels s /\ u_roles info = member_roles s (user_fingerprint info) /\
  u_owner info = is_owner s (user_fingerprint info).
Proof.
  unfold admit_client. cbv zeta. repeat case_match; try done. by intros [= <- <-].
Qed.

Lemma handshake_welcomes s p :
  good s -> the_clients s !! next_client_id (inner s) = None ->
  leads (fun r s' => match r with Started info ok => welcomed s info ok s' | Refused _ | Faulted => ok s s' end) (handshake p) s.
Proof.
  intros Hg Hfree. assert (Hok := ok_refl s Hg). unfold handshake, refuse_peer. lead; [by lead|].
  repeat (lead; try done).
  { by destruct (pr_reply_written p). }
  apply (leads_bind (fun _ s1 => exists d, s1 = set_store d s)).
  { unfold check_ban. lead. lead; [|lead; exists (store s); symmetry; apply set_store_self].
    lead. apply leads_call, leads_ret. unfold store_step. destruct (store s) as [d|] eqn:Es.
    - destruct (db_active_ban _ _ d) as [x d']. by exists (Some d').
    - exists None. rewrite <- Es. symmetry. apply set_store_self. }
  intros found s1 [d ->]. assert (Hok1 : ok s (set_store d s)) by by apply ok_store.
  lead; [by destruct (pr_reply_written p)|]. apply leads_call.
  destruct (admit_client (set_store d s) _ _ new_queue) as [[f | info] s1] eqn:Ea; cbn [fst snd].
  - assert (s1 = set_store d s) as -> by (unfold admit_client in Ea; cbv zeta in Ea; repeat case_match; by simplify_eq).
    by destruct (pr_reply_written p).
  - pose proof (admit_shape _ _ _ _ _ Ea) as (Hcl & Hid & Hp & Ho & Hch & _). unfold welcome. do 6 lead.
    + do 2 lead. exists d. eauto 10.
    + apply leads_call, leads_ret. apply (ok_quiet s s (fun u => u)); [| | done].
      * apply quiet_same; try done. unfold State.remove. cbn [snd]. rewrite the_clients_set, Hcl. rewrite delete_insert_id; [done | rewrite Hid; exact Hfree].
      * apply inv_remove. pose proof (inv_admit (set_store d s) (ca_identity auth) (ca_nickname auth) (proj1 (proj1 Hok1))) as H.
        by rewrite Ea in H.
Qed.

Lemma same_view_joined on info m1 m2 :
  same_view on m1 m2 ->
  same_view (fun i => i = u_client_id info \/ on i) (hear (SUserJoined info) m1) (hear (SUserJoined info) m2).
Proof.
  intros [Hfp Ho Hr Hm Hc Hu]. unfold hear. cbn [translate mirror_apply snd]. rewrite Hfp.
  case_bool_decide; split; try done; cbn [snd pm_users]; intros i Hi;
    (destruct (decide (u_client_id info = i)) as [-> | Hne]; [by rewrite !lookup_insert_eq | rewrite !lookup_insert_ne by done; destruct Hi as [-> | Hi]; [done | by apply Hu]]).
Qed.

Lemma visible_channels_elem s u c :
  c ∈ visible_channels s u <-> (exists k, the_channels s !! k = Some c) /\ can_view_channel (perms s) u c = true.
Proof. unfold visible_channels, perm_state. by rewrite elem_of_retain, elem_of_btree_values. Qed.

Lemma visible_ids_elem s u id : wf_channels (the_channels s) ->
  id ∈ visible_ids s u <-> exists c, the_channels s !! id = Some c /\ can_view_channel (perms s) u c = true.
Proof.
  intros Hwf. unfold visible_ids. rewrite elem_of_list_to_set, list_elem_of_fmap. split.
  - intros (c & -> & [(k & Hk) Hv]%visible_channels_elem). destruct (Hwf k c Hk) as [-> _]. eauto.
  - intros (c & Hc & Hv). exists c. destruct (Hwf id c Hc) as [<- _]. split; [done|]. apply visible_channels_elem. split; [by exists (ch_id c) | done].
Qed.

(** The channels a newcomer is told are those it may see. *)
Lemma told_channels s u : wf_channels (the_channels s) ->
  fold_left (fun m c => <[ch_id c := c]> m) (visible_channels s u) ∅ = restrict (the_channels s) (visible_ids s u).
Proof.
  intros Hwf. apply map_eq. intros id.
  assert (Huniq : forall x y, x ∈ visible_channels s u -> y ∈ visible_channels s u -> ch_id x = ch_id y -> x = y).
  { intros x y [(i & Hi) _]%visible_channels_elem [(j & Hj) _]%visible_channels_elem E.
    rewrite (proj1 (Hwf _ _ Hi)), (proj1 (Hwf _ _ Hj)) in E. congruence. }
  rewrite (fold_insert_find ch_id (fun c => c) _ _ id Huniq), lookup_restrict, lookup_empty.
  destruct (find _ _) as [c|] eqn:E.
  - apply find_some in E as [[(k & Hk) Hv]%visible_channels_elem Hid%Z.eqb_eq].
    rewrite (proj1 (Hwf _ _ Hk)) in Hid. subst k. rewrite decide_True; [done|]. apply visible_ids_elem; eauto.
  - case_decide as Hin; [|done]. apply visible_ids_elem in Hin as (c & Hc & Hv); [|done]. exfalso.
    pose proof (proj1 (find_none _ _) E c) as H. cbn in H. rewrite (proj1 (Hwf _ _ Hc)), Z.eqb_refl in H.
    discriminate H. apply visible_channels_elem. eauto.
Qed.

(** The users a newcomer is told are those connected, itself among them. *)
Lemma told_users s id : keyed (the_clients s) ->
  find (fun u => u_client_id u =? id) (users s) = cc_info <$> the_clients s !! id.
Proof.
  intros Hk. assert (Hin : forall u, u ∈ users s <-> exists k e, the_clients s !! k = Some e /\ u = cc_info e).
  { intros u. unfold users. rewrite list_elem_of_fmap. split.
    - intros ([k e] & -> & H%elem_of_hash_iter). eauto.
    - intros (k & e & H & ->). exists (k, e). split; [done | by apply elem_of_hash_iter]. }
  destruct (find _ _) as [u|] eqn:E.
  - apply find_some in E as [(k & e & He & ->)%Hin Hid%Z.eqb_eq]. rewrite (Hk _ _ He) in Hid. subst k. by rewrite He.
  - destruct (the_clients s !! id) as [e|] eqn:He; [|done]. exfalso.
    assert (H : cc_info e ∈ users s) by (apply Hin; eauto). apply (proj1 (find_none _ _) E) in H. by rewrite (Hk _ _ He), Z.eqb_refl in H.
Qed.

Lemma first_mirror s hello ok probe id e : keyed (the_clients s) -> wf_channels (the_channels s) ->
  the_clients s !! id = Some e -> ok_client_id ok = id -> ok_channels ok = visible_channels s (cc_info e) ->
  ok_users ok = users s -> ok_roles ok = roles_snapshot s ->
  same_view (on_roster s) (from_session (user_fingerprint (cc_info e)) probe (session_of hello ok)) (ideal s (cc_info e)).
Proof.
  intros Hk Hwf He Hid Hc Hu Hr. unfold from_session, session_of.
  cbn [si_users si_client_id si_roles si_channels]. rewrite Hid, Hc, Hu, Hr, told_users, He by done. cbn [fmap option_fmap option_map].
  split; cbn [pm_fingerprint pm_owner pm_roles pm_my_roles pm_channels pm_users ideal]; try done.
  - by apply told_channels.
  - intros i [ei Hi]. rewrite (fold_insert_find u_client_id standing_of (users s) ∅ i).
    + rewrite told_users, standings_lookup by done. by rewrite Hi.
    + intros x y. unfold users. intros ([k1 e1] & -> & H1%elem_of_hash_iter)%list_elem_of_fmap ([k2 e2] & -> & H2%elem_of_hash_iter)%list_elem_of_fmap.
      cbn [snd]. rewrite (Hk _ _ H1), (Hk _ _ H2). congruence.
Qed.

(** The newcomer's arrival, in the mirrors of the others. *)
Lemma joined_ideal s s1 info u :
  the_clients s1 = <[u_client_id info := mkClient info new_queue []]> (the_clients s) -> perms s1 = perms s ->
  the_channels s1 = the_channels s -> u_roles info = member_roles s (user_fingerprint info) ->
  u_owner info = is_owner s (user_fingerprint info) ->
  u_roles u = member_roles s (user_fingerprint u) -> u_owner u = is_owner s (user_fingerprint u) ->
  same_view (on_roster s1) (hear (SUserJoined info) (ideal s u)) (ideal s1 u).
Proof.
  intros Hcl Hp Hch Hr Ho Hru Hou.
  assert (Hst : standings s1 = <[u_client_id info := standing_of info]> (standings s)) by (unfold standings; by rewrite Hcl, fmap_insert).
  assert (Hv : visible_ids s1 u = visible_ids s u) by by apply visible_standing.
  unfold hear. cbn [translate mirror_apply snd pm_fingerprint pm_probe pm_owner pm_roles pm_my_roles pm_channels pm_users ideal].
  case_bool_decide as E; split; cbn [snd pm_fingerprint pm_owner pm_roles pm_my_roles pm_channels pm_users ideal];
    rewrite ?Hp, ?Hch, ?Hst, ?Hv; try done; congruence.
Qed.

Lemma good_admitted s d ident nick info s1 :
  good s -> the_clients s !! next_client_id (inner s) = None -> admit_client (set_store d s) ident nick new_queue = (inr info, s1) -> good s1.
Proof.
  intros Hg Hfree Ha. pose proof (good_store s d Hg) as [Hinv Hl].
  split; [pose proof (inv_admit _ ident nick Hinv) as H; by rewrite Ha in H|].
  pose proof (admit_shape _ _ _ _ _ Ha) as (Hcl & Hid & Hp & Ho & Hch & Hr & Hw). intros i e He.
  unfold member_roles, is_owner. rewrite Hp, Ho. rewrite Hcl in He. apply lookup_insert_Some in He as [[_ <-] | [_ He]]; [done | exact (Hl i e He)].
Qed.

Lemma right_login s M info ok s' hello probe :
  right (mkWorld s M) -> the_clients s !! next_client_id (inner s) = None -> welcomed s info ok s' ->
  right (mkWorld s' (<[u_client_id info := from_session (user_fingerprint info) probe (session_of hello ok)]> M)).
Proof.
  intros [Hg Hm] Hfree (d & ident & nick & s1 & Ha & Hid & Hc & Hu & Hr & ->). cbn [w_server w_mirrors] in *.
  pose proof (good_admitted _ _ _ _ _ _ Hg Hfree Ha) as Hg1. pose proof (inv_keyed _ (proj1 Hg1)) as Hk1.
  pose proof (admit_shape _ _ _ _ _ Ha) as (Hcl & Hnew & Hp & Ho & Hch & Hroles & Hown).
  set (id := u_client_id info) in *. set (s2 := broadcast s1 (SUserJoined info) (Some id)).
  assert (Hinfo : forall k e', the_clients s2 !! k = Some e' -> exists e, the_clients s1 !! k = Some e /\ cc_info e' = cc_info e)
    by (intros k e'; by apply broadcast_info).
  assert (Honly : only_clients s1 s2) by apply broadcast_only.
  assert (Hmono : forall k, on_roster s2 k -> on_roster s1 k)
    by (intros k [e' He']; destruct (Hinfo k e' He') as (e & He & _); by exists e).
  split; [split; [by apply inv_broadcast, Hg1 | by eapply live_only; [exact Honly | exact Hinfo | apply Hg1]]|]. cbn [w_server w_mirrors].
  intros k e' He' Hopen. pose proof (broadcast_to_exact (fun i _ => negb (bool_decide (Some i = Some id))) s1 (SUserJoined info) k Hk1) as H.
  change (broadcast_to _ s1 _) with s2 in H. rewrite He' in H. destruct H as (e & new & He & Hx & Hn & _).
  rewrite (extended_info _ _ _ Hx), (extended_frames _ _ _ Hx).
  assert (Hquiet : forall m, same_view (on_roster s2) (hear_all new m) m)
    by (intros m; exact (hear_woven _ _ [] new m (gone_off s2) (woven_notices _ _ Hn))).
  rewrite Hcl in He. apply lookup_insert_Some in He as [[<- <-] | [Hne He]].
  - eexists. split; [apply lookup_insert_eq|]. rewrite bool_decide_eq_true_2 by done. cbn [negb andb app q_frames cc_control cc_info new_queue].
    rewrite Hquiet, <- (ideal_only _ _ _ Honly Hinfo). eapply same_view_mono; [exact Hmono|].
    eapply (first_mirror s1 hello ok probe id (mkClient info new_queue [])); try done; [apply (inv_channels _ (proj1 Hg1))|]. by rewrite Hcl, lookup_insert_eq.
  - assert (Hoe : queue_open e) by (unfold queue_open in *; by rewrite <- (extended_closed _ _ _ Hx)).
    destruct (Hm k e He Hoe) as (m & HM & Hsame). exists m. rewrite lookup_insert_ne by done. split; [done|].
    rewrite bool_decide_eq_false_2 by congruence. rewrite (bool_decide_eq_true_2 _ Hoe). cbn [negb andb app].
    rewrite hear_all_app. cbn [hear_all fold_left]. fold (hear_all new (hear (SUserJoined info) (hear_all (q_frames (cc_control e)) m))).
    rewrite Hquiet, <- (ideal_only _ _ _ Honly Hinfo). destruct (proj2 Hg k e He) as [Hre Hoe'].
    transitivity (hear (SUserJoined info) (ideal s (cc_info e))).
    + eapply same_view_mono; [|apply same_view_joined, Hsame]. intros i Hi. apply Hmono in Hi as [ei Hi]. rewrite Hcl in Hi.
      apply lookup_insert_Some in Hi as [[<- _] | [_ Hi]]; [by left | right; by exists ei].
    + eapply same_view_mono; [exact Hmono|]. by apply joined_ideal.
Qed.

(** ** Whatever happens *)

Lemma right_happens w w' : happens w w' -> right w -> right w'.
Proof.
  intros H Hr. destruct H as [s M client m s' Hroom Hch Hrun | s M client text | s M id f s' m Ht HM | s M client dg s' Hrun
    | s M p hello probe info ok s' Hfree Hrun | s M id | s M id | s M t].
  - pose proof (followed_handle_control s client m (proj1 Hr) Hroom Hch) as H. unfold leads in H. rewrite Hrun in H.
    by eapply right_ok.
  - eapply right_ok; [exact Hr|]. apply ok_send; [by intros ? | apply ok_refl, Hr].
  - by eapply right_arrives.
  - by eapply right_voice.
  - pose proof (handshake_welcomes s p (proj1 Hr) Hfree) as H. unfold leads in H. rewrite Hrun in H. by apply (right_login s).
  - by apply right_departed.
  - by apply right_writer_gone.
  - apply (right_quiet s); [by apply inv_set_clock, Hr | by apply quiet_same | done].
Qed.

(** ** The answers of a right mirror *)

Section Answers.
Context (s : Shared DB) (id : ClientId) (e : ConnectedClient) (m : PermMirror).
Context (Hgood : good s) (He : the_clients s !! id = Some e).
Context (Hview : same_view (on_roster s) m (ideal s (cc_info e))).

Lemma mirror_resolves ows : mirror_resolve m ows = resolve_user (perm_state s) (cc_info e) ows.
Proof.
  unfold mirror_resolve, resolve_user, perm_state.
  by rewrite (sv_roles _ _ _ Hview), (sv_my_roles _ _ _ Hview), (sv_fingerprint _ _ _ Hview), (sv_owner _ _ _ Hview).
Qed.

Lemma base_is_global bit : contains (mirror_resolve m None) bit = can_globally s id bit.
Proof. rewrite mirror_resolves. unfold can_globally. by rewrite He. Qed.

Lemma shown_channel c :
  pm_channels m !! c =
    match the_channels s !! c with
    | Some ch => if can_view_channel (perms s) (cc_info e) ch then Some ch else None
    | None => None
    end.
Proof.
  pose proof (inv_channels _ (proj1 Hgood)) as Hwf. rewrite (sv_channels _ _ _ Hview). cbn [ideal pm_channels]. rewrite lookup_restrict.
  destruct (the_channels s !! c) as [ch|] eqn:Ec; [|by case_decide].
  destruct (can_view_channel (perms s) (cc_info e) ch) eqn:Ev; case_decide as Hin; try done.
  - exfalso. apply Hin, visible_ids_elem; eauto.
  - apply visible_ids_elem in Hin as (ch' & Hch' & Hv); [|done]. congruence.
Qed.

Lemma shown_permissions c :
  mp_channels (my_permissions m) !! c =
    if can s id c VIEW_CHANNEL
    then Some (mkChannelPermissions (can s id c SEND_MESSAGES) (can s id c READ_HISTORY) (can s id c CONNECT) (can s id c SPEAK))
    else None.
Proof.
  assert (Hid : forall k ch, pm_channels m !! k = Some ch -> ch_id ch = k).
  { intros k ch. rewrite shown_channel. destruct (the_channels s !! k) as [c0|] eqn:Ek; [|done].
    destruct (can_view_channel _ _ _); [|done]. intros [= <-]. apply (inv_channels _ (proj1 Hgood) _ _ Ek). }
  unfold my_permissions. cbn [mp_channels]. rewrite (fold_insert_find ch_id).
  2:{ intros x y [i Hi]%elem_of_btree_values [j Hj]%elem_of_btree_values E. rewrite (Hid _ _ Hi), (Hid _ _ Hj) in E. congruence. }
  assert (Hfind : find (fun x => ch_id x =? c) (btree_values (pm_channels m)) = pm_channels m !! c).
  { destruct (find _ _) as [ch|] eqn:E.
    - apply find_some in E as [[k Hk]%elem_of_btree_values Ec%Z.eqb_eq]. rewrite (Hid _ _ Hk) in Ec. by subst k.
    - destruct (pm_channels m !! c) as [ch|] eqn:Ec; [|done]. exfalso.
      assert (Hin : ch ∈ btree_values (pm_channels m)) by (apply elem_of_btree_values; eauto).
      apply (proj1 (find_none _ _) E) in Hin. by rewrite (Hid _ _ Ec), Z.eqb_refl in Hin. }
  rewrite Hfind, shown_channel, lookup_empty. unfold can. rewrite He.
  destruct (the_channels s !! c) as [ch|] eqn:Ec; [|done]. unfold can_view_channel, perm_state.
  destruct (contains _ VIEW_CHANNEL); [|done]. cbn zeta. by rewrite !mirror_resolves.
Qed.

Lemma shown_target t et : the_clients s !! t = Some et -> pm_users m !! t = Some (standing_of (cc_info et)).
Proof.
  intros Ht. rewrite (sv_users _ _ _ Hview t) by by exists et. cbn [ideal pm_users]. by rewrite standings_lookup, Ht.
Qed.

(** The mirror's hierarchy test is the server's. *)
Lemma outranks_agrees t et : the_clients s !! t = Some et ->
  can_act_on (pm_roles m) (pm_my_roles m) (pm_owner m) (u_roles (cc_info et)) (u_owner (cc_info et)) =
    actor_outranks s id (user_fingerprint (cc_info et)).
Proof.
  intros Ht. destruct (proj2 Hgood t et Ht) as [Hr Ho]. unfold actor_outranks. rewrite He.
  rewrite (sv_roles _ _ _ Hview), (sv_my_roles _ _ _ Hview), (sv_owner _ _ _ Hview). cbn [ideal pm_roles pm_my_roles pm_owner].
  rewrite Hr, Ho. done.
Qed.

Lemma nobody_outranks_itself t et : the_clients s !! t = Some et -> user_fingerprint (cc_info et) = user_fingerprint (cc_info e) ->
  actor_outranks s id (user_fingerprint (cc_info et)) = false.
Proof.
  intros Ht E. destruct (proj2 Hgood id e He) as [Hr Ho]. unfold actor_outranks. rewrite He, E.
  cbv zeta. change (default [] (ps_members (perm_state s) !! user_fingerprint (cc_info e))) with (member_roles s (user_fingerprint (cc_info e))).
  rewrite <- Hr, <- Ho. unfold can_act_on.
  destruct (u_owner (cc_info e)); [done | apply Z.ltb_irrefl].
Qed.

(** One option of the menu: the bit, and the rank. *)
Lemma shown_option (pick : ModerationOptionsDto -> bool) bit t et :
  (forall r, pick (no_moderation r) = false) ->
  (forall base, pick (mkModeration (contains base KICK_MEMBERS) (contains base BAN_MEMBERS) (contains base MUTE_MEMBERS)
                        (contains base MOVE_MEMBERS) None) = contains base bit) ->
  (forall base, contains base KICK_MEMBERS || contains base BAN_MEMBERS || contains base MUTE_MEMBERS || contains base MOVE_MEMBERS = false ->
     contains base bit = false) ->
  the_clients s !! t = Some et ->
  pick (moderation_options m t) = can_globally s id bit && actor_outranks s id (user_fingerprint (cc_info et)).
Proof.
  intros Hno Hyes Hnone Ht. unfold moderation_options. rewrite (shown_target t et Ht). cbn [ms_fingerprint ms_roles ms_owner standing_of].
  rewrite (sv_fingerprint _ _ _ Hview). cbn [ideal pm_fingerprint]. case_bool_decide as E.
  { rewrite Hno, (nobody_outranks_itself t et Ht E). by rewrite andb_false_r. }
  rewrite (outranks_agrees t et Ht). destruct (actor_outranks s id _) eqn:Er; cbn [negb]; [|by rewrite Hno, andb_false_r].
  rewrite andb_true_r, <- base_is_global. cbn [mo_can_kick mo_can_ban mo_can_mute mo_can_move].
  destruct (_ || _) eqn:Eo; cbn [negb]; [apply Hyes | rewrite Hno; symmetry; by apply Hnone].
Qed.

(** The check every command against a connected member starts with. *)
Lemma authorize_runs nonce bit t et : the_clients s !! t = Some et ->
  (exists fp s', run (authorize_against_online id nonce bit t) s = Some (Some fp, s')) <->
  can_globally s id bit && actor_outranks s id (user_fingerprint (cc_info et)) = true.
Proof.
  intros Ht. unfold authorize_against_online. rewrite run_get. destruct (can_globally s id bit); cbn [negb andb].
  2:{ split; [by intros (fp & s' & H) | done]. }
  rewrite run_get. unfold fingerprint_of. rewrite Ht. cbn [fmap option_fmap option_map]. rewrite run_get.
  destruct (actor_outranks s id _); cbn [negb]; (split; [intros (fp & s' & H); done || by injection H | intros H]); [|done].
  by eexists _, s.
Qed.

End Answers.

(** ** The theorems *)

(** A server nobody is connected to yet. *)
Lemma right_empty s M : server_inv s -> the_clients s = ∅ -> right (mkWorld s M).
Proof.
  intros Hinv He. split; [split; [done|]|]; intros id e H; cbn [w_server] in H; rewrite He in H; by apply lookup_empty_Some in H.
Qed.

Lemma right_history w w' : rtc happens w w' -> right w -> right w'.
Proof. induction 1 as [|w w1 w2 H _ IH]; [done|]. intros Hr. apply IH. by eapply right_happens. Qed.

Lemma right_mirror s0 M0 w id e m :
  server_inv s0 -> the_clients s0 = ∅ -> rtc happens (mkWorld s0 M0) w ->
  the_clients (w_server w) !! id = Some e -> queue_open e -> w_mirrors w !! id = Some m ->
  good (w_server w) /\ same_view (on_roster (w_server w)) (hear_all (q_frames (cc_control e)) m) (ideal (w_server w) (cc_info e)).
Proof.
  intros Hinv Hempty Hw He Ho HM. destruct (right_history _ _ Hw (right_empty s0 M0 Hinv Hempty)) as [Hg Hm].
  split; [done|]. destruct (Hm id e He Ho) as (m' & HM' & Hsame). by assert (m' = m) as -> by congruence.
Qed.

(** C3: what the application shows is what the server enforces: after any history of logins,
    commands handled one after another, departures, voice and frames delivered, every connected
    member's application, once it has heard the frames still on their way to it, lists exactly
    the channels the server lets the member see, each with the four answers the server gives
    when the member acts there; it holds the server's role table; and it offers the
    administration pages exactly when the server would take one of their commands. *)
Theorem the_app_shows_what_the_server_enforces s0 M0 w id e m :
  server_inv s0 -> the_clients s0 = ∅ -> rtc happens (mkWorld s0 M0) w ->
  the_clients (w_server w) !! id = Some e -> queue_open e -> w_mirrors w !! id = Some m ->
  let s := w_server w in
  let shown := hear_all (q_frames (cc_control e)) m in
  let mine := my_permissions shown in
  pm_roles shown = roles_snapshot s /\
  mp_is_owner mine = is_owner s (user_fingerprint (cc_info e)) /\
  mp_is_admin mine = can_globally s id ADMINISTRATOR /\
  mp_can_open_admin mine = is_owner s (user_fingerprint (cc_info e)) ||
    any (can_globally s id) [MANAGE_SERVER; MANAGE_ROLES; MANAGE_CHANNELS; KICK_MEMBERS; BAN_MEMBERS; MUTE_MEMBERS; MOVE_MEMBERS] /\
  forall c, mp_channels mine !! c =
    if can s id c VIEW_CHANNEL
    then Some (mkChannelPermissions (can s id c SEND_MESSAGES) (can s id c READ_HISTORY) (can s id c CONNECT) (can s id c SPEAK))
    else None.
Proof.
  intros Hinv Hempty Hw He Ho HM s shown mine. destruct (right_mirror s0 M0 w id e m Hinv Hempty Hw He Ho HM) as [Hg Hview].
  assert (Hown : pm_owner shown = is_owner s (user_fingerprint (cc_info e))).
  { etransitivity; [exact (sv_owner _ _ _ Hview) | exact (proj2 (proj2 Hg id e He))]. }
  split_and!; [exact (sv_roles _ _ _ Hview) | exact Hown | exact (base_is_global s id e shown He Hview _) | |].
  - unfold mine, my_permissions. cbn [mp_can_open_admin]. rewrite Hown. f_equal. unfold any. cbn [existsb].
    by rewrite !(base_is_global s id e shown He Hview).
  - exact (shown_permissions s id e shown Hg He Hview).
Qed.

(** C4: the member menu offers what the server allows: after any such history, the application
    of a member, once it has heard what is on its way to it, offers to kick, mute or move
    another connected member exactly when the server's check for that command lets it pass, and
    to ban them exactly when they are someone else, of lower rank, and the member may ban. *)
Theorem the_menu_offers_what_the_server_allows s0 M0 w id e m t et :
  server_inv s0 -> the_clients s0 = ∅ -> rtc happens (mkWorld s0 M0) w ->
  the_clients (w_server w) !! id = Some e -> queue_open e -> w_mirrors w !! id = Some m ->
  the_clients (w_server w) !! t = Some et ->
  let s := w_server w in
  let menu := moderation_options (hear_all (q_frames (cc_control e)) m) t in
  let passes bit := exists nonce fp s', run (authorize_against_online id nonce bit t) s = Some (Some fp, s') in
  (mo_can_kick menu = true <-> passes KICK_MEMBERS) /\
  (mo_can_mute menu = true <-> passes MUTE_MEMBERS) /\
  (mo_can_move menu = true <-> passes MOVE_MEMBERS) /\
  (mo_can_ban menu = true <->
     can_globally s id BAN_MEMBERS = true /\ Some (user_fingerprint (cc_info et)) <> fingerprint_of s id /\
     actor_outranks s id (user_fingerprint (cc_info et)) = true).
Proof.
  intros Hinv Hempty Hw He Ho HM Ht s menu passes. destruct (right_mirror s0 M0 w id e m Hinv Hempty Hw He Ho HM) as [Hg Hview].
  pose proof (fun pick bit H1 H2 H3 => shown_option s id e _ Hg He Hview pick bit t et H1 H2 H3 Ht) as Hopt.
  assert (Hpass : forall bit, passes bit <-> can_globally s id bit && actor_outranks s id (user_fingerprint (cc_info et)) = true).
  { intros bit. unfold passes. split.
    - intros (nonce & fp & s' & H). by apply (authorize_runs s id nonce bit t et Ht); eauto.
    - intros H. destruct (proj2 (authorize_runs s id 0 bit t et Ht) H) as (fp & s' & Hr). eauto. }
  rewrite !Hpass. unfold menu.
  rewrite (Hopt mo_can_kick KICK_MEMBERS), (Hopt mo_can_mute MUTE_MEMBERS), (Hopt mo_can_move MOVE_MEMBERS), (Hopt mo_can_ban BAN_MEMBERS);
    try done; try (intros base Hb; repeat rewrite orb_false_iff in Hb; tauto).
  split_and!; try done. rewrite andb_true_iff. split; [|tauto]. intros [H1 H2]. split_and!; [done | | done].
  intros E. unfold fingerprint_of in E. change (the_clients s !! id = Some e) in He. rewrite He in E.
  change (Some (user_fingerprint (cc_info et)) = Some (user_fingerprint (cc_info e))) in E.
  pose proof (inj Some _ _ E) as Efp.
  by rewrite (nobody_outranks_itself s id e Hg He t et Ht Efp) in H2.
Qed.

End Agreement.
