(* ===== verification/Login.v ===== *)
(** * Logging in

    What a client makes of a server's identity, what it gives away to whom, and that a client
    and a server that are both honest understand each other. *)

From S2P Require Export Client Chat.
From S2P Require Import Documents.

(** ** Trust on first use *)

Section Trust.
Context {C : Crypto} {J : Json StoreFile}.
Implicit Types w : ClientWorld.

Lemma trust_save_runs store d : exists r d', run (trust_save store) d = Some (r, d').
Proof.
  destruct (decide (tr_path store = [])) as [E | Hne].
  - exists (inr tt), d. unfold trust_save. by rewrite E.
  - pose proof (always_ends _ _ _ (trust_save_always store d Hne)) as H. unfold ends in H.
    destruct (run (trust_save store) d) as [[r d']|]; [by exists r, d' | done].
Qed.

(** What the attempt to write the store leaves on the disk. *)
Definition saved_to (store : TrustStore) (d d' : Disk) : Prop := exists r, run (trust_save store) d = Some (r, d').

Lemma run_persist w : exists d', run persist w = Some (tt, set_disk d' w) /\ saved_to (cw_trust w) (cw_disk w) d'.
Proof.
  destruct (trust_save_runs (cw_trust w) (cw_disk w)) as (r & d' & E). exists d'. split; [|by exists r].
  unfold persist. rewrite run_get, run_bind, run_zoom by (done || by intros []). by rewrite E.
Qed.

Lemma ends_persist (Q : ConnectError + unit -> ClientWorld -> Prop) r w :
  (forall d', saved_to (cw_trust w) (cw_disk w) d' -> Q r (set_disk d' w)) -> ends Q (persist;; Ret r)%prog w.
Proof. intros H. destruct (run_persist w) as (d' & E & Hs). unfold ends. rewrite run_bind, E. by apply H. Qed.

(** What the trust store says after the policy had its say. *)
Definition trust_outcome (policy : TrustPolicy) (key legacy : rstring) (fp : Fingerprint) w
    (r : ConnectError + unit) w' : Prop :=
  match policy, pin (cw_trust w) key with
  | Insecure, _ => r = inr tt /\ w' = w
  | _, Some p => r = (if bool_decide (p = fp) then inr tt else inl (CeIdentityChanged key p fp)) /\ w' = w
  | _, None =>
      if bool_decide (legacy <> key /\ pin (cw_trust w) legacy = Some fp) then
        r = inr tt /\ saved_to (cw_trust w') (cw_disk w) (cw_disk w') /\
        forall a, pin (cw_trust w') a =
          if bool_decide (a = legacy) then None else if bool_decide (a = key) then Some fp else pin (cw_trust w) a
      else match policy with
        | Strict => r = inl (CeNotTrusted key fp) /\ w' = w
        | _ =>
            r = inr tt /\ saved_to (cw_trust w') (cw_disk w) (cw_disk w') /\
            forall a, pin (cw_trust w') a = if bool_decide (a = key) then Some fp else pin (cw_trust w) a
        end
  end.

Lemma adopts (store : TrustStore) (key legacy : rstring) fp :
  negb (bool_decide (legacy = key)) && match check store legacy fp with Recognised => true | _ => false end =
  bool_decide (legacy <> key /\ pin store legacy = Some fp).
Proof.
  rewrite check_pin. destruct (decide (legacy = key)) as [E | E].
  - rewrite (bool_decide_eq_true_2 _ E), bool_decide_eq_false_2; [done | by intros []].
  - rewrite (bool_decide_eq_false_2 _ E). destruct (pin store legacy) as [p|]; cbn [negb andb]; [|by rewrite bool_decide_eq_false_2 by (by intros [])].
    destruct (decide (p = fp)) as [-> | Hne]; [by rewrite !bool_decide_eq_true_2|].
    rewrite !bool_decide_eq_false_2; [done | intros [_ [= ?]] | ]; done.
Qed.

(** An identity that differs from the pinned one is refused under every policy but the insecure
    one and nothing is changed; a pin that matches changes nothing; an address without a pin gets
    one under trust on first use, or by adopting the pin the same identity had under the resolved
    address, which is then dropped; the strict policy refuses it; and no other address's pin is
    touched, whatever becomes of the file. *)
Lemma apply_trust_policy_outcome policy key legacy fp name w :
  ends (fun r w' => trust_outcome policy key legacy fp w r w' /\ cw_sent w' = cw_sent w)
    (apply_trust_policy policy key legacy fp name) w.
Proof.
  destruct (decide (policy = Insecure)) as [-> | Hp]; [by apply ends_ret|].
  unfold apply_trust_policy. set (Q := fun _ _ => _).
  assert (Hgo : forall adopt, adopt = bool_decide (legacy <> key /\ pin (cw_trust w) legacy = Some fp) -> pin (cw_trust w) key = None ->
    ends Q (if adopt : bool then
        re_pin key fp name;; _forgotten <- call (fun w => let '(b, store) := forget legacy (cw_trust w) in (b, set_trust store w));; persist;; cok tt
      else match policy with Strict => cfail (CeNotTrusted key fp) | _ => re_pin key fp name;; persist;; cok tt end)%prog w).
  { intros adopt Ha Hk. unfold Q, trust_outcome. rewrite Hk, <- Ha. destruct adopt.
    - apply ends_update, ends_call. cbn [forget fst snd]. apply ends_persist. intros d' Hs.
      assert (Hpin : forall a, pin (cw_trust (set_disk d' (set_trust (forget legacy (trust (cw_clock w) key fp name (cw_trust w))).2 w))) a =
        if bool_decide (a = legacy) then None else if bool_decide (a = key) then Some fp else pin (cw_trust w) a)
        by (intros a; cbn [cw_trust set_disk set_trust]; by rewrite pin_forget, pin_trust).
      by destruct policy.
    - destruct policy; [| by apply ends_ret | done]. apply ends_update, ends_persist. intros d' Hs.
      split; [split_and!; [done | exact Hs |] | done]. intros a. cbn [cw_trust set_disk set_trust]. apply pin_trust. }
  assert (Hcheck : forall body : TrustDecision -> cprog unit,
    (forall p, pin (cw_trust w) key = Some p -> ends Q (body (if bool_decide (p = fp) then Recognised else Changed p fp)) w) ->
    (pin (cw_trust w) key = None -> ends Q (body (FirstContact fp)) w) ->
    ends Q (decision <- get (fun w => check (cw_trust w) key fp);; body decision)%prog w).
  { intros body Hy Hn. apply ends_get. rewrite check_pin. destruct (pin (cw_trust w) key) as [p|]; auto. }
  assert (Hknown : forall p, pin (cw_trust w) key = Some p ->
    Q (if bool_decide (p = fp) then inr tt else inl (CeIdentityChanged key p fp)) w).
  { intros p Hk. unfold Q, trust_outcome. rewrite Hk. by destruct policy. }
  destruct policy; [| | done]; (apply Hcheck;
    [ intros p Hk; specialize (Hknown p Hk); destruct (bool_decide (p = fp)); apply ends_ret, Hknown
    | intros Hk; apply ends_get; rewrite adopts; by apply Hgo]).
Qed.

End Trust.

Section Connect.
Context {C : Crypto} {J : Json StoreFile}.
Implicit Types w : ClientWorld.

Lemma ends_and_then {A B} (R : ConnectError + A -> ClientWorld -> Prop) (Q : ConnectError + B -> ClientWorld -> Prop) p k w :
  ends R p w -> (forall e w', R (inl e) w' -> Q (inl e) w') -> (forall a w', R (inr a) w' -> ends Q (k a) w') ->
  ends Q (and_then p k) w.
Proof. intros Hp He Ha. eapply ends_bind; [exact Hp|]. intros [e | a] w' H; [by apply ends_ret, He | by apply Ha]. Qed.

Definition server_key (o : ConnectOptions) : rstring := default (addr_to_string (co_address o)) (co_server_key o).

(** The peer holds the key it claims, on this connection: its greeting is signed over the
    certificate it presented. *)
Definition proven (wire : Wire) (cert : bytes) (hello : ServerHello) : Prop :=
  (exists rest, wi_certificates wire = Some (cert :: rest)) /\ wi_greeting wire = Arrived (inr (SHello hello)) /\
  sh_protocol_version hello = PROTOCOL_VERSION /\
  ed25519_verify (key (sh_server_identity hello))
    (server_hello_challenge (sh_nonce hello) (sha256 cert) (sh_server_name hello)) (sh_signature hello) = true.

(** The identity is the one the user accepts under this name. *)
Definition accepted (o : ConnectOptions) (fp : Fingerprint) w w' : Prop :=
  co_trust o = Insecure \/
  pin (cw_trust w') (server_key o) = Some fp /\
  (forall p, pin (cw_trust w) (server_key o) = Some p -> p = fp) /\
  (co_trust o = Strict -> exists name, pin (cw_trust w) name = Some fp).

Lemma outcome_accepted o fp w w' :
  trust_outcome (co_trust o) (server_key o) (addr_to_string (co_address o)) fp w (inr tt) w' -> accepted o fp w w'.
Proof.
  unfold trust_outcome, accepted. intros H. destruct (co_trust o) eqn:Et; [| | by left]; right.
  all: destruct (pin (cw_trust w) (server_key o)) as [p|] eqn:Ek.
  1, 3: destruct H as [H ->]; case_bool_decide; [subst p | done]; rewrite Ek; split_and!; [done | by intros p [= ->] | by eauto].
  all: case_bool_decide as Had; [destruct Had as [Hne Hl]; destruct H as (_ & _ & H); rewrite H;
    rewrite bool_decide_eq_false_2, bool_decide_eq_true_2 by done; split_and!; [done | done | by eauto]|].
  - destruct H as (_ & _ & H). rewrite H, bool_decide_eq_true_2 by done. by split_and!.
  - by destruct H.
Qed.

(** How an attempt can end: before anything was decided; refused by the user's rules; or with
    the login handed to the peer. *)
Definition attempt_outcome version options ident wire w (r : ConnectError + SessionInfo) w' : Prop :=
  (w' = w /\ exists e, r = inl e) \/
  exists cert hello, proven wire cert hello /\
    exists verdict w1,
      trust_outcome (co_trust options) (server_key options) (addr_to_string (co_address options))
        (fingerprint (sh_server_identity hello)) w verdict w1 /\ cw_sent w1 = cw_sent w /\
      match verdict with
      | inl e => r = inl e /\ w' = w1
      | inr _ => w' = sent (CAuth (login version options ident (sh_nonce hello) (sha256 cert))) w1 /\
          forall session, r = inr session -> si_server_identity session = sh_server_identity hello
      end.

Lemma connect_outcome version options ident wire w :
  ends (attempt_outcome version options ident wire w) (connect version options ident wire) w.
Proof.
  unfold connect. match goal with |- ends ?P _ _ => set (Q := P) end.
  assert (Hfail : forall e, ends Q (cfail e) w) by (intros e; left; eauto).
  destruct (wi_endpoint wire), (wi_tls wire), (wi_started wire); cbn [negb]; try apply Hfail.
  destruct (wi_connected wire) as [[]| |]; try apply Hfail. cbn [within cok and_then bind].
  destruct (wi_certificates wire) as [[|cert rest]|] eqn:Ec; try apply Hfail. cbn [peer_certificate_hash cok and_then bind].
  destruct (wi_stream wire) as [[]| |]; try apply Hfail. cbn [within cok and_then bind].
  destruct (wi_greeting wire) as [[e | greeting]| |] eqn:Eg; try apply Hfail. cbn [frame_within cok and_then bind].
  destruct greeting as [hello| | | | | | | | | | | | | | | | | | | | | | | | |]; try apply Hfail.
  destruct (Z.eqb_spec (sh_protocol_version hello) PROTOCOL_VERSION) as [Hv|]; cbn [negb]; [|apply Hfail].
  unfold verify_server_hello. destruct (ed25519_verify _ _ _) eqn:Esig; [|apply Hfail].
  assert (Hp : proven wire cert hello) by (split_and!; eauto).
  eapply ends_and_then; [apply apply_trust_policy_outcome | |].
  { intros e w1 [Hout Hs]. right. exists cert, hello. split; [done|]. by exists (inl e), w1. }
  intros [] w1 [Hout Hs]. set (auth := login _ _ _ _ _).
  assert (Hgone : forall r, (forall session, r = inr session -> si_server_identity session = sh_server_identity hello) ->
    Q r (sent (CAuth auth) w1)).
  { intros r Hr. right. exists cert, hello. split; [done|]. by exists (inr tt), w1. }
  apply ends_update. destruct (wi_auth_fault wire); [by apply ends_ret, Hgone|].
  destruct (wi_verdict wire auth) as [[e | verdict]| |]; try by apply ends_ret, Hgone.
  cbn [frame_within cok and_then bind]. destruct verdict; try by apply ends_ret, Hgone.
  apply ends_ret, Hgone. by intros session [= <-].
Qed.

(** C12: nothing goes to a server that has not proven itself: whatever the network and the peer
    do, the frames an attempt hands to the peer are none, or one login, and that one only after
    the peer's greeting verified against the certificate of this very connection, and its
    identity is the one pinned under the name the user typed (or the user asked for no check);
    the login is signed over the same certificate, so it is no use elsewhere; and a session that
    comes out of it names the identity that was checked. *)
Theorem nothing_goes_to_an_unproven_server version options ident wire w :
  ends (fun r w' =>
      cw_sent w' = cw_sent w /\ (exists e, r = inl e) \/
      exists cert hello, proven wire cert hello /\ accepted options (fingerprint (sh_server_identity hello)) w w' /\
        cw_sent w' = cw_sent w ++ [CAuth (login version options ident (sh_nonce hello) (sha256 cert))] /\
        forall session, r = inr session -> si_server_identity session = sh_server_identity hello)
    (connect version options ident wire) w.
Proof.
  eapply ends_weaken; [apply connect_outcome|]. intros r w' [[-> He] | (cert & hello & Hp & [e | []] & w1 & Hout & Hs & H)].
  - by left.
  - destruct H as [-> ->]. left. eauto.
  - destruct H as [-> Hsession]. right. exists cert, hello. apply outcome_accepted in Hout. split_and!; try done. cbn. by rewrite Hs.
Qed.

(** One attempt moves a pin at most from the resolved address to the name that was typed. *)
Lemma connect_pins version options ident wire w :
  ends (fun _ w' => forall name p, pin (cw_trust w) name = Some p ->
      pin (cw_trust w') name = Some p \/
      name = addr_to_string (co_address options) /\ pin (cw_trust w') (server_key options) = Some p)
    (connect version options ident wire) w.
Proof.
  eapply ends_weaken; [apply connect_outcome|]. intros r w' H name p Hn.
  assert (Hout : forall fp verdict w1,
    trust_outcome (co_trust options) (server_key options) (addr_to_string (co_address options)) fp w verdict w1 ->
    pin (cw_trust w1) name = Some p \/
    name = addr_to_string (co_address options) /\ pin (cw_trust w1) (server_key options) = Some p).
  { intros fp verdict w1 Ho. unfold trust_outcome in Ho.
    destruct (co_trust options) eqn:Et; [| | destruct Ho as [_ ->]; by left];
      (destruct (pin (cw_trust w) (server_key options)) as [q|] eqn:Ek; [destruct Ho as [_ ->]; by left|];
       case_bool_decide as Had; [destruct Had as [Hne Hl]; destruct Ho as (_ & _ & Hpins)|]).
    1, 3: destruct (decide (name = addr_to_string (co_address options))) as [-> | Hna];
      [right; split; [done|]; rewrite Hpins, bool_decide_eq_false_2, bool_decide_eq_true_2 by done; congruence |
       left; rewrite Hpins, !bool_decide_eq_false_2 by congruence; done].
    - destruct Ho as (_ & _ & Hpins). left. rewrite Hpins, bool_decide_eq_false_2 by congruence. done.
    - destruct Ho as [_ ->]. by left. }
  destruct H as [[-> _] | (cert & hello & _ & [e | []] & w1 & Ho & _ & Hw)]; [by left | |].
  - destruct Hw as [_ ->]. by eapply Hout.
  - destruct Hw as [-> _]. exact (Hout _ _ _ Ho).
Qed.

(** One attempt of many. *)
Record Attempt : Type := mkAttempt { at_version : rstring; at_options : ConnectOptions; at_identity : Identity; at_wire : Wire }.

Definition attempt_connect (a : Attempt) : prog ClientWorld unit :=
  bind (connect (at_version a) (at_options a) (at_identity a) (at_wire a)) (fun _ => Ret tt).

(** No attempt changes a pin: through any number of connection attempts, to any peers over
    any networks and under any policies, with a disk that may fail, every identity that was
    pinned under a name stays pinned under it, but for one case: a pin filed under an address
    that some attempt resolved to may move, unchanged, to the name typed for it. *)
Theorem no_attempt_changes_a_pin attempts w :
  ends (fun _ w' => forall name p, pin (cw_trust w) name = Some p ->
      pin (cw_trust w') name = Some p \/
      (exists a, a ∈ attempts /\ name = addr_to_string (co_address (at_options a))) /\ exists key, pin (cw_trust w') key = Some p)
    (for_each attempts attempt_connect) w.
Proof.
  revert w; induction attempts as [|a rest IH]; intros w; [apply ends_ret; by left|]. cbn [for_each].
  apply (ends_bind (fun _ w1 => forall name p, pin (cw_trust w) name = Some p -> pin (cw_trust w1) name = Some p \/
    name = addr_to_string (co_address (at_options a)) /\ pin (cw_trust w1) (server_key (at_options a)) = Some p)).
  { eapply ends_bind; [apply connect_pins | intros r w1 H; apply ends_ret; exact H]. }
  intros [] w1 H1. eapply ends_weaken; [apply IH|]. intros [] w2 H2 name p Hn.
  destruct (H1 name p Hn) as [Hn1 | [Hname Hk]].
  - destruct (H2 name p Hn1) as [? | [(b & Hb & Hname) Hk]]; [by left | right]. split; [exists b; split; [by right | done] | done].
  - right. split; [exists a; split; [left | done]|]. destruct (H2 _ p Hk) as [? | [_ ?]]; eauto.
Qed.

End Connect.

(** ** An honest client and an honest server *)

Section Honest.
Context {C : Crypto} {CL : CryptoLaws C} {HO : HashOrder} {L : HashOrderLaws HO} {U : UnicodeTables}.
Context {DB : Type} {ST : StoreApi DB} {J : Json StoreFile}.
Implicit Types s : Shared DB.
Implicit Types w : ClientWorld.

(** The server's side of a login. *)
Definition caller (nonce : bytes) (auth : ClientAuth) : Peer := mkPeer nonce true (Some (CAuth auth)) true.

(** What a client hears of it. *)
Definition answer (r : option (HandshakeEnd * Shared DB)) : Arrival (CodecError + ServerControl) :=
  match r with
  | Some (Started _ ok, _) => Arrived (inr (SAuthOk ok))
  | Some (Refused failure, _) => Arrived (inr (SAuthFailed failure))
  | _ => Lost
  end.

(** A network that works, between a client and the server [s], whose certificate is [cert]. *)
Definition wire_to s (nonce cert : bytes) : Wire :=
  mkWire true true true (Arrived tt) (Some [cert]) (Arrived tt) (Arrived (inr (SHello (server_hello s nonce)))) None
    (fun auth => answer (run (handshake (caller nonce auth)) s)).

(** What the server asks of who comes in. *)
Definition fit s (o : ConnectOptions) (ident : Identity) : Prop :=
  (forall expected, cfg_password (config s) = Some expected ->
     exists p, co_password o = Some p /\ as_bytes p = as_bytes expected) /\
  (forall d, store s = Some d ->
     default None (db_active_ban (fingerprint (public ident)) (now_unix_ms s) d).1 = None) /\
  cfg_min_security_level (config s) <= public_security_level (public ident) /\
  (exists n, sanitize_nickname (co_nickname o) (Z.to_nat (max_nickname_len (limits s))) = Some n) /\
  Z.of_nat (size (the_clients s)) < cfg_max_users (config s).

Lemma honest_auth s version o ident nonce :
  match session_verify_auth s (login version o ident nonce (cert_hash s)) nonce with
  | inr _ => True
  | inl f => ~ fit s o ident /\ (f = PasswordRequired \/ f = BadPassword)
  end.
Proof.
  unfold session_verify_auth, login. cbn [ca_protocol_version ca_password ca_identity ca_signature]. rewrite Z.eqb_refl. cbn [negb].
  assert (Hs : verify_signature (public ident) nonce (cert_hash s) (sign_auth ident nonce (cert_hash s)) = inr tt)
    by (unfold verify_signature; by rewrite (proj1 (signatures_verify ident nonce (cert_hash s) []))).
  destruct (cfg_password (config s)) as [expected|] eqn:Ep; [|by rewrite Hs].
  destruct (co_password o) as [supplied|] eqn:Eo.
  - destruct (constant_time_eq _ _) eqn:Ec; cbn [negb]; [by rewrite Hs|]. split; [|by right].
    intros [H _]. destruct (H _ Ep) as (p & Hp & Hb). rewrite Eo in Hp. injection Hp as <-. rewrite Hb in Ec.
    by rewrite (proj2 (constant_time_eq_spec _ _) eq_refl) in Ec.
  - split; [|by left]. intros [H _]. destruct (H _ Ep) as (p & Hp & _). congruence.
Qed.

(** The lookup of a ban keeps the state but for the database, and finds one if there is one. *)
Lemma check_ban_finds s fp :
  ends (fun found s1 => (exists d, s1 = set_store d s) /\
    (found <> None -> ~ forall d, store s = Some d -> default None (db_active_ban fp (now_unix_ms s) d).1 = None)) (check_ban fp) s.
Proof.
  unfold check_ban. apply ends_get. unfold has_store. destruct (store s) as [d|] eqn:Hs.
  - apply ends_get. unfold store_query. apply ends_call. unfold store_step. rewrite Hs.
    destruct (db_active_ban _ _ d) as [a d'] eqn:Ea. apply ends_ret. split; [by eexists|]. intros Hne H. apply Hne.
    specialize (H d eq_refl). cbn in H. by rewrite Ea in H.
  - apply ends_ret. split; [|done]. exists None. destruct s. simpl in *. by rewrite Hs.
Qed.

(** What a working server makes of an honest login: it lets it in, or refuses it for one of its
    rules. *)
Lemma honest_handshake s version o ident nonce :
  keyed (the_clients s) -> the_clients s !! next_client_id (inner s) = None ->
  ends (fun r s' => match r with
      | Started info ok => u_identity info = public ident /\ let_in s info ok s'
      | Refused f => ~ fit s o ident /\ f <> AuthBadSignature /\ (forall v, f <> ProtocolMismatch v) /\
          the_clients s' = the_clients s
      | Faulted => False
      end) (handshake (caller nonce (login version o ident nonce (cert_hash s)))) s.
Proof.
  intros Hk Hfree. pose proof (honest_auth s version o ident nonce) as Hv. set (auth := login _ _ _ _ _) in *.
  match goal with |- ends ?P _ _ => set (Q := P) end.
  assert (Href : forall s' f, the_clients s' = the_clients s -> ~ fit s o ident -> f <> AuthBadSignature ->
    (forall v, f <> ProtocolMismatch v) -> ends Q (refuse_peer (caller nonce auth) f) s') by (intros; by apply ends_ret).
  unfold handshake. cbn [caller pr_hello_written pr_first negb]. apply ends_get. change (pr_nonce (caller nonce auth)) with nonce.
  destruct (session_verify_auth s auth nonce) as [f | []]; [destruct Hv as [? [-> | ->]]; by apply Href|].
  eapply ends_bind; [apply (check_ban_finds s)|].
  intros [entry|] s1 [[d1 ->] Hban]; [apply Href; try done; intros (_ & Hb & _); by apply Hban|].
  apply ends_call. unfold admit_client, fit in *. cbv zeta. change (ca_identity auth) with (public ident). change (ca_nickname auth) with (co_nickname o).
  change (the_clients (set_store d1 s)) with (the_clients s). cbn [config set_store limits inner].
  destruct (Z.ltb_spec (public_security_level (public ident)) (cfg_min_security_level (config s))); [apply Href; try done; intros (_ & _ & ? & _); lia|].
  destruct (sanitize_nickname _ _) as [n|] eqn:En; [|apply Href; try done; intros (_ & _ & _ & (n & Hn) & _); congruence].
  destruct (Z.leb_spec (cfg_max_users (config s)) (Z.of_nat (size (the_clients s)))); [apply Href; try done; intros (_ & _ & _ & _ & ?); lia|].
  cbn [fst snd]. eapply ends_weaken; [eapply (welcome_lets_in s (caller nonce auth)); [exact Hk | exact Hfree | by split_and!]|].
  intros [info ok | f |] s' Hend; [| done | by destruct Hend].
  destruct Hend as (_ & -> & Hin). by split.
Qed.

(** The user's rules let this server be logged in to. *)
Definition trusted w (o : ConnectOptions) (fp : Fingerprint) : Prop :=
  co_trust o = Insecure \/ pin (cw_trust w) (server_key o) = Some fp \/
  pin (cw_trust w) (server_key o) = None /\
    (co_trust o = OnFirstUse \/
     addr_to_string (co_address o) <> server_key o /\ pin (cw_trust w) (addr_to_string (co_address o)) = Some fp).

Lemma refused_untrusted o fp w w' e :
  trust_outcome (co_trust o) (server_key o) (addr_to_string (co_address o)) fp w (inl e) w' -> ~ trusted w o fp.
Proof.
  unfold trust_outcome, trusted. intros H Ht. destruct (co_trust o); [| | by destruct H].
  all: destruct (pin (cw_trust w) (server_key o)) as [p|]; [destruct H as [H _]; case_bool_decide; [done|]; destruct Ht as [? | [[= ?] | [? _]]]; done |].
  all: case_bool_decide as Had; [by destruct H as [? _] |].
  - by destruct H.
  - destruct Ht as [? | [? | [_ [? | ?]]]]; done.
Qed.

(** C11: an honest client that an honest server's rules admit gets in: on a network that works,
    an attempt ends in a session, in which the client is told exactly what the server let it
    into and is on the server's roster under its own identity, unless the user's trust rules
    speak against the server (then the server is sent nothing) or the server's rules (password,
    ban, security level, nickname, room) against the client (then it is told which, and the
    roster is as it was); neither ever takes the other for a forger or for another version. *)
Theorem an_honest_login_succeeds version o ident s nonce cert w :
  keyed (the_clients s) -> the_clients s !! next_client_id (inner s) = None -> cert_hash s = sha256 cert ->
  let fp := fingerprint (public (identity s)) in
  let outcome := run (handshake (caller nonce (login version o ident nonce (cert_hash s)))) s in
  ends (fun r w' => match r with
      | inr session => exists info ok s', outcome = Some (Started info ok, s') /\ u_identity info = public ident /\
          let_in s info ok s' /\
          session = mkSession (ok_client_id ok) (cfg_name (config s)) (public (identity s)) (ok_channels ok) (ok_users ok)
            (ok_roles ok) (ok_default_channel ok) (ok_limits ok)
      | inl e =>
          (~ trusted w o fp /\ cw_sent w' = cw_sent w) \/
          exists f s', outcome = Some (Refused f, s') /\ e = CeRejected (rejection_reason f) /\ ~ fit s o ident /\
            f <> AuthBadSignature /\ (forall v, f <> ProtocolMismatch v) /\ the_clients s' = the_clients s
      end) (connect version o ident (wire_to s nonce cert)) w.
Proof.
  intros Hk Hfree Hcert fp outcome. match goal with |- ends ?P _ _ => set (Q := P) end.
  unfold connect. cbn [wire_to wi_endpoint wi_tls wi_started wi_connected wi_certificates wi_stream wi_greeting wi_auth_fault
    wi_verdict negb within peer_certificate_hash frame_within cok and_then bind].
  cbn [server_hello sh_protocol_version sh_server_identity sh_nonce sh_server_name sh_signature]. rewrite Z.eqb_refl. cbn [negb].
  rewrite <- Hcert, (proj1 (proj2 (signatures_verify (identity s) nonce (cert_hash s) (cfg_name (config s))))).
  eapply ends_and_then; [apply apply_trust_policy_outcome | |].
  { intros e w1 [Hout%refused_untrusted Hs]. by left. }
  intros [] w1 _. apply ends_update. set (auth := login _ _ _ _ _).
  pose proof (honest_handshake s version o ident nonce Hk Hfree) as H. unfold ends in H.
  fold outcome in H. change (run (handshake (caller nonce auth)) s) with outcome.
  destruct outcome as [[[info ok | f |] s']|] eqn:Eo; cbn [answer frame_within and_then bind cok] in *; [| | by destruct H | done].
  - destruct H as [Hi Hin]. apply ends_ret. exists info, ok, s'. by split_and!.
  - destruct H as (Hfit & Hsig & Hver & Hroster). apply ends_ret. right. exists f, s'. by split_and!.
Qed.

End Honest.

(** ** Logging in to the concrete server

    dave, who has never been there, logs in to the sample server with a trust store that he
    keeps in a file. *)

Module Sample_login.
Import Documents.

#[export] Instance ser_trusted : Ser TrustedServer :=
  ser_as (fun x => (fp_bytes (ts_fingerprint x), ts_name x, ts_first_seen x, ts_last_seen x))
    (fun '(a, b, c, d) => mkTrusted (mkFp a) b c d).
#[export] Instance ser_trusted_laws : SerLaws TrustedServer ser_trusted.
Proof. apply ser_as_laws. by intros [[] ? ? ?]. Qed.
#[export] Instance trust_json : Json StoreFile := plain_json ser_gmap.
#[export] Instance trust_json_laws : JsonLaws StoreFile trust_json.
Proof. apply plain_json_laws, ser_gmap_laws; apply _. Qed.

Definition options : ConnectOptions :=
  with_server_key (lit " Chat.Example.com:42071") (new_options (mkAddr [10; 0; 0; 9] 42071) (lit "dave")).
Definition cert : bytes := replicate 32 9.
Definition nonce : bytes := replicate 32 5.
Definition known : Path := [lit "pickle"; lit "known_servers.json"].
Definition world : ClientWorld := mkClientWorld (mkTrust known ∅) empty_disk [] 5000.

Lemma an_honest_login_succeeds_witness :
  let attempt := connect (lit "1.0") options (Sample.ident 4) (wire_to Sample.server nonce cert) in
  (match fst <$> run attempt world with Some (inr session) => si_client_id session = 4 | _ => False end) /\
  ends (fun r _ => match r with
    | inr session => exists info ok s',
        run (handshake (caller nonce (login (lit "1.0") options (Sample.ident 4) nonce (cert_hash Sample.server)))) Sample.server
          = Some (Started info ok, s') /\ user s' (si_client_id session) = Some info
    | inl _ => True
    end) attempt world.
Proof.
  split; [vm_compute; reflexivity|].
  eapply ends_weaken; [apply (an_honest_login_succeeds (lit "1.0") options (Sample.ident 4) Sample.server nonce cert world)|].
  - apply inv_keyed, sample_inv.
  - vm_compute. reflexivity.
  - vm_compute. reflexivity.
  - intros [e | session] w' H; [exact Logic.I|]. destruct H as (info & ok & s' & Hrun & _ & Hin & ->).
    exists info, ok, s'. split; [exact Hrun|]. destruct Hin as (Hu & Hid & _). cbn [si_client_id]. rewrite Hid. exact Hu.
Defined.

End Sample_login.
