(* ===== verification/AgreementSamples.v ===== *)
(** * The applications of the concrete server's members

    alice, who owns the server, and bob log in to the sample server; alice makes bob a moderator
    and opens a channel; the frames are delivered to both applications one by one. *)

From S2P Require Export Agreement Login.

Module Sample_agreement.

(** What can happen here. *)
Inductive occurrence : Type :=
| Comes (n : Z) (nick : rstring)
| Commands (client : ClientId) (m : ClientControl)
| Hears (client : ClientId).

Definition nonce : bytes := replicate 32 5.

(** The peer that identity [n] is, logging in honestly. *)
Definition peer (s : Shared Database) (n : Z) (nick : rstring) : Peer :=
  caller nonce (login (lit "1.0") (new_options (mkAddr [10; 0; 0; 9] 42071) nick) (Sample.ident n) nonce (cert_hash s)).

Definition perform (w : World) (o : occurrence) : World :=
  let s := w_server w in
  let M := w_mirrors w in
  match o with
  | Comes n nick =>
      match the_clients s !! next_client_id (inner s), run (handshake (peer s n nick)) s with
      | None, Some (Started info ok, s') =>
          mkWorld s' (<[u_client_id info := from_session (user_fingerprint info) (Sample.fp 99) (session_of (server_hello s nonce) ok)]> M)
      | _, _ => w
      end
  | Commands client m =>
      if has_room s then
        match run (handle_control client m) s with Some (tt, s') => mkWorld s' M | None => w end
      else w
  | Hears client =>
      match take_frame s client, M !! client with
      | (Some f, s'), Some m => mkWorld s' (<[client := hear f m]> M)
      | _, _ => w
      end
  end.

Lemma performed w o : rtc happens w (perform w o).
Proof.
  destruct w as [s M]. unfold perform. cbn [w_server w_mirrors]. destruct o as [n nick | client m | client].
  - destruct (the_clients s !! next_client_id (inner s)) eqn:Hfree; [done|].
    destruct (run _ s) as [[[info ok | |] s']|] eqn:Er; try done. apply rtc_once. by apply (hp_login s M (peer s n nick)).
  - destruct (has_room s) eqn:Hr; [|done]. apply has_room_spec in Hr as [Hr Hc].
    destruct (run _ s) as [[[] s']|] eqn:Er; [|done]. apply rtc_once. by eapply hp_command.
  - destruct (take_frame s client) as [[f|] s'] eqn:Et; [|done]. destruct (M !! client) as [m|] eqn:Em; [|done].
    apply rtc_once. by apply (hp_arrives s M client f s' m).
Qed.

Definition history : list occurrence :=
  [ Comes 1 (lit "alice"); Comes 2 (lit "bob"); Hears 1;
    Commands 1 (CSetMemberRoles 5 Sample.bob [1]); Hears 2;
    Commands 1 (CCreateChannel 6 (lit "attic") None [] VoiceAndText None 7);
    Commands 2 (CSetNickname (lit "Robert")); Hears 1; Hears 1 ].

Definition before : @World Database := mkWorld Sample.start ∅.
Definition now : @World Database := fold_left perform history before.

Lemma happened : rtc happens before now.
Proof.
  unfold now. generalize before. generalize history. induction l as [|o l IH]; intros w; [done|].
  cbn [fold_left]. etransitivity; [apply performed | apply IH].
Qed.

Lemma start_empty : the_clients Sample.start = ∅.
Proof. reflexivity. Qed.

(** A member with an open queue and a mirror, decided. *)
Definition connected (w : @World Database) (id : ClientId) : bool :=
  match the_clients (w_server w) !! id, w_mirrors w !! id with
  | Some e, Some _ => negb (q_closed (cc_control e))
  | _, _ => false
  end.

Lemma connected_spec w id : connected w id = true ->
  exists e m, the_clients (w_server w) !! id = Some e /\ queue_open e /\ w_mirrors w !! id = Some m.
Proof.
  unfold connected. destruct (the_clients (w_server w) !! id) as [e|]; [|done]. destruct (w_mirrors w !! id) as [m|]; [|done].
  intros H. exists e, m. split; [done|]. split; [|done]. unfold queue_open. by apply negb_true_iff.
Qed.

Definition shown_to (w : @World Database) (id : ClientId) : option PermMirror :=
  match the_clients (w_server w) !! id, w_mirrors w !! id with
  | Some e, Some m => Some (hear_all (q_frames (cc_control e)) m)
  | _, _ => None
  end.

(** bob's application sees the new channel and the staff room, and shows the menu of a moderator. *)
Example bob_sees : (fun m => (map fst (btree_iter (mp_channels (my_permissions m))), mp_can_open_admin (my_permissions m),
    mo_can_kick (moderation_options m 1), length (pm_roles m))) <$> shown_to now 2 = Some ([1; 2; 3; 4], true, false, 3%nat).
Proof. vm_compute. reflexivity. Qed.

Lemma the_app_shows_what_the_server_enforces_witness :
  connected now 2 = true /\ rtc happens before now /\
  exists e m, the_clients (w_server now) !! 2 = Some e /\ w_mirrors now !! 2 = Some m /\
    mp_is_admin (my_permissions (hear_all (q_frames (cc_control e)) m)) = can_globally (w_server now) 2 ADMINISTRATOR /\
    (mp_channels (my_permissions (hear_all (q_frames (cc_control e)) m)) !! 4 =
       if can (w_server now) 2 4 VIEW_CHANNEL
       then Some (mkChannelPermissions (can (w_server now) 2 4 SEND_MESSAGES) (can (w_server now) 2 4 READ_HISTORY)
                    (can (w_server now) 2 4 CONNECT) (can (w_server now) 2 4 SPEAK))
       else None).
Proof.
  assert (Hc : connected now 2 = true) by (vm_compute; reflexivity).
  split; [exact Hc|]. split; [exact happened|].
  destruct (connected_spec now 2 Hc) as (e & m & He & Ho & HM). exists e, m. split; [exact He|]. split; [exact HM|].
  destruct (the_app_shows_what_the_server_enforces Sample.start ∅ now 2 e m sample_start_inv start_empty happened He Ho HM)
    as (_ & _ & Ha & _ & Hch).
  split; [exact Ha | exact (Hch 4)].
Defined.

(** alice's menu for bob. *)
Lemma the_menu_offers_what_the_server_allows_witness :
  connected now 1 = true /\ rtc happens before now /\
  exists e m, the_clients (w_server now) !! 1 = Some e /\ w_mirrors now !! 1 = Some m /\
    (mo_can_kick (moderation_options (hear_all (q_frames (cc_control e)) m) 2) = true <->
     exists nonce fp s', run (authorize_against_online 1 nonce KICK_MEMBERS 2) (w_server now) = Some (Some fp, s')).
Proof.
  assert (Hc : connected now 1 = true) by (vm_compute; reflexivity).
  assert (Hc2 : connected now 2 = true) by (vm_compute; reflexivity).
  split; [exact Hc|]. split; [exact happened|].
  destruct (connected_spec now 1 Hc) as (e & m & He & Ho & HM). destruct (connected_spec now 2 Hc2) as (et & mt & Het & _ & _).
  exists e, m. split; [exact He|]. split; [exact HM|].
  exact (proj1 (the_menu_offers_what_the_server_allows Sample.start ∅ now 1 e m 2 et sample_start_inv start_empty happened He Ho HM Het)).
Defined.

Example alice_may_kick_bob : (fun m => mo_can_kick (moderation_options m 2)) <$> shown_to now 1 = Some true.
Proof. vm_compute. reflexivity. Qed.

End Sample_agreement.
