(* ===== verification/EndToEnd.v ===== *)
(** * From one end to the other

    A control message from the server's queue to the client's event, and a voice frame from
    the speaker's microphone through the relay to the listener's event. *)

From S2P Require Export Client Session Relay.

(** ** Control *)

(** The message an event stands for. *)
Definition original (event : ClientEvent) : option ServerControl :=
  match event with
  | EvUserJoined info => Some (SUserJoined info)
  | EvUserLeft client reason => Some (SUserLeft client reason)
  | EvUserMoved client from to => Some (SUserMoved client from to)
  | EvUserUpdated info => Some (SUserUpdated info)
  | EvVoiceActivity client speaking => Some (SVoiceActivity client speaking)
  | EvChannelCreated channel => Some (SChannelCreated channel)
  | EvChannelUpdated channel => Some (SChannelUpdated channel)
  | EvChannelRemoved id => Some (SChannelRemoved id)
  | EvMessagePosted message nonce => Some (SMessagePosted message nonce)
  | EvMessageEdited id content edited_at => Some (SMessageEdited id content edited_at)
  | EvMessageDeleted id => Some (SMessageDeleted id)
  | EvHistory channel messages reached_start => Some (SHistory channel messages reached_start)
  | EvTyping client channel => Some (STyping client channel)
  | EvRoleCreated role => Some (SRoleCreated role)
  | EvRoleUpdated role => Some (SRoleUpdated role)
  | EvRoleDeleted id => Some (SRoleDeleted id)
  | EvRolesReordered positions => Some (SRolesReordered positions)
  | EvBanList bans => Some (SBanList bans)
  | EvAck nonce => Some (SAck nonce)
  | EvCommandFailed nonce code detail => Some (SCommandFailed nonce code detail)
  | EvPong nonce => Some (SPong nonce)
  | EvServerError code detail => Some (SError code detail)
  | EvVoice _ | EvDisconnected _ => None
  end.

(** The messages a running session has no event for. *)
Definition silent (message : ServerControl) : bool :=
  match message with SHello _ | SAuthOk _ | SAuthFailed _ | SReactionUpdated _ _ => true | _ => false end.

Lemma translate_loses_nothing message :
  match translate message with Some event => original event = Some message | None => silent message = true end.
Proof. by destruct message. Qed.

Lemma inbound_control_frames text messages rest :
  inbound_control text (map inr messages ++ rest) = omap translate messages ++ inbound_control text rest.
Proof. induction messages as [|m ms IH]; [done|]. cbn. rewrite IH. by destruct (translate m). Qed.

Section Control.
Context {PC : Postcard ServerControl} {PL : PostcardLaws ServerControl PC}.

(** What the inbound task reads from a stream, up to the error that ends its loop. *)
Definition heard (fuel : nat) (r : Reader) : list (CodecError + ServerControl) :=
  let '(messages, e, _) := read_frames fuel r in map inr messages ++ [inl e].

(** C14: every control message arrives: the messages a server writes, in whatever number, come
    out at the client as their events, in order and each once; none but the handshake's frames
    and the reactions is left out, every event names its message, and when the server then
    closes the stream the last event says so. *)
Theorem every_control_message_arrives text w messages w' :
  wr_out w = [] -> write_frames w messages = (inr tt, w') ->
  let events := inbound_control text (heard (S (length messages)) (mkReader (wr_out w') None)) in
  events = omap translate messages ++ [EvDisconnected (lit "the server closed the connection")] /\
  omap original events = retain (fun m => negb (silent m)) messages.
Proof.
  intros Hw Hwrite. unfold heard. rewrite (proj1 (conversation_roundtrip w messages Hw) w' Hwrite).
  rewrite inbound_control_frames. split; [done|]. cbn [inbound_control is_clean_close]. rewrite omap_app.
  change (omap original [EvDisconnected _]) with (@nil ServerControl). rewrite app_nil_r. clear.
  induction messages as [|m ms IH]; [done|]. rewrite retain_cons, <- IH. cbn. by destruct m.
Qed.

End Control.

(** ** Voice *)

Lemma inbound_voice_app l k : inbound_voice (l ++ k) = inbound_voice l ++ inbound_voice k.
Proof. induction l as [|d l IH]; [done|]. cbn. rewrite IH. by destruct (decode_down d). Qed.

Section Voice.
Context {C : Crypto} {HO : HashOrder} {L : HashOrderLaws HO} {U : UnicodeTables} {DB : Type} {ST : StoreApi DB}.
Implicit Types s : Shared DB.

(** C13: a spoken frame is heard: the datagram a client's [send_voice] hands to its connection,
    when the server receives it from a client that may speak, comes out at every listener of
    that channel as one more voice event, with the speaker's id, number, flags and sound, after
    those that came before, and at nobody else. *)
Theorem a_spoken_frame_is_heard s c speaker seq flags payload listener e :
  up_ok (mkUp seq flags payload) -> fits 32 speaker -> the_clients s !! listener = Some e ->
  let c' := cl_send_voice true seq flags payload c in
  exists datagram s' e', cl_datagrams c' = cl_datagrams c ++ [datagram] /\
    run (datagram_received speaker datagram) s = Some (tt, s') /\ the_clients s' !! listener = Some e' /\
    ((exists chan, speaks s speaker chan /\ listens chan speaker listener e) ->
       inbound_voice (cc_datagrams e') = inbound_voice (cc_datagrams e) ++ [EvVoice (mkDown speaker seq flags payload)]) /\
    (~ (exists chan, speaks s speaker chan /\ listens chan speaker listener e) -> e' = e).
Proof.
  intros Hok Hfit He c'. set (packet := mkUp seq flags payload).
  destruct (voice_reaches_exactly_the_listeners s speaker packet listener) as (_ & Hdec & H).
  specialize (Hdec Hok Hfit). rewrite He in H. destruct H as [Hyes Hno].
  exists (encode_up packet), (relay_voice s speaker packet).
  assert (Hrun : run (datagram_received speaker (encode_up packet)) s = Some (tt, relay_voice s speaker packet)).
  { unfold datagram_received. by rewrite decode_encode_up. }
  assert (Hpush : inbound_voice (cc_datagrams (push_datagram (encode_down (into_downstream packet speaker)) e)) =
    inbound_voice (cc_datagrams e) ++ [EvVoice (mkDown speaker seq flags payload)]).
  { cbn [push_datagram cc_datagrams]. rewrite inbound_voice_app. cbn [inbound_voice]. by rewrite Hdec. }
  destruct (relay_voice_cases s speaker packet) as [[E Hnone] | (chan & Hsp & E)].
  - exists e. split_and!; try done; [by rewrite E|]. intros (chan & Hsp & _). by destruct (Hnone chan).
  - exists (if decide (listener <> speaker /\ u_channel (cc_info e) = Some chan /\ self_deafened (u_voice (cc_info e)) = false)
            then push_datagram (encode_down (into_downstream packet speaker)) e else e).
    destruct (decide _) as [Hl | Hl].
    + split_and!; try done; [apply Hyes; by exists chan|]. intros Hn. destruct Hn. by exists chan.
    + assert (Hn : ~ exists chan, speaks s speaker chan /\ listens chan speaker listener e).
      { intros (chan' & Hsp' & Hl'). apply Hl. rewrite (speaks_inj _ _ _ _ Hsp Hsp'). exact Hl'. }
      split_and!; try done. by apply Hno.
Qed.

End Voice.

Module Sample_voice.

(** bob speaks in the lobby, carol listens. *)
Definition bob_handle : Client :=
  mkHandle (mkSession 2 [] (public (Sample.ident 0)) [] [] [] None ServerLimits_default) true [] [] None true.

Lemma a_spoken_frame_is_heard_witness :
  exists carol, the_clients Sample.server !! 3 = Some carol /\ cc_datagrams carol = [] /\
  exists datagram s' e', run (datagram_received 2 datagram) Sample.server = Some (tt, s') /\
    the_clients s' !! 3 = Some e' /\ inbound_voice (cc_datagrams e') = [EvVoice (mkDown 2 9 1 [4; 5])].
Proof.
  assert (Hc : exists carol, the_clients Sample.server !! 3 = Some carol /\ cc_datagrams carol = [] /\ listens 1 2 3 carol).
  { eexists. split; [vm_compute; reflexivity|]. split; [reflexivity|]. split; [lia|]. split; vm_compute; reflexivity. }
  assert (Hb : speaks Sample.server 2 1) by (eexists _, _; do 6 (split; [vm_compute; reflexivity|]); vm_compute; reflexivity).
  assert (Hok : up_ok (mkUp 9 1 [4; 5])) by (split; cbn; [unfold fits | unfold is_byte | repeat constructor; unfold is_byte | unfold MAX_OPUS_PACKET]; lia).
  destruct Hc as (carol & Hcarol & Hd & Hl). exists carol. split; [exact Hcarol|]. split; [exact Hd|].
  destruct (a_spoken_frame_is_heard Sample.server bob_handle 2 9 1 [4; 5] 3 carol Hok ltac:(unfold fits; lia) Hcarol)
    as (datagram & s' & e' & _ & Hrun & He' & Hheard & _).
  exists datagram, s', e'. split; [exact Hrun|]. split; [exact He'|].
  rewrite Hheard by (exists 1; by split). by rewrite Hd.
Defined.

(** A codec that knows three messages, to evaluate the framing with. *)
Definition tagged (tag n : Z) : option bytes := if (0 <=? n) && (n <? 256) then Some [tag; n] else None.

#[export] Instance few_messages : Postcard ServerControl := {|
  to_stdvec m := match m with SPong n => tagged 0 n | SAck n => tagged 1 n | SRoleDeleted n => tagged 2 n
    | SReactionUpdated n r => if decide (re_emoji r = [] /\ re_reactors r = []) then tagged 3 n else None | _ => None end;
  from_bytes bs := match bs with
    | [k; n] => if k =? 0 then Some (SPong n) else if k =? 1 then Some (SAck n) else if k =? 2 then Some (SRoleDeleted n)
                else Some (SReactionUpdated n (mkReaction [] []))
    | _ => None
    end |}.

#[export] Instance few_messages_laws : PostcardLaws ServerControl few_messages.
Proof.
  assert (Ht : forall tag n bs, is_byte tag -> tagged tag n = Some bs -> bs = [tag; n] /\ Forall is_byte bs).
  { unfold tagged. intros tag n bs Htag H. destruct (_ && _) eqn:E; [|done]. injection H as <-. split; [done|].
    unfold is_byte in *. repeat constructor; lia. }
  split; intros x bs H; destruct x; cbn [to_stdvec few_messages] in H; try done;
    try (destruct (decide _) as [[He Hr]|]; [|done]); apply Ht in H as [-> Hb]; try (unfold is_byte; lia); try done.
  cbn. destruct reaction. cbn in *. by subst.
Qed.

Lemma every_control_message_arrives_witness :
  let said := [SPong 7; SReactionUpdated 3 (mkReaction [] []); SAck 9] in
  let w' := (write_frames (mkWriter [] None) said).2 in
  inbound_control (fun _ => lit "lost") (heard 4 (mkReader (wr_out w') None))
  = [EvPong 7; EvAck 9; EvDisconnected (lit "the server closed the connection")].
Proof.
  cbv zeta.
  exact (proj1 (every_control_message_arrives (fun _ => lit "lost") (mkWriter [] None)
    [SPong 7; SReactionUpdated 3 (mkReaction [] []); SAck 9] _ eq_refl eq_refl)).
Defined.

End Sample_voice.
