(* ===== verification/Bookmarks.v ===== *)
(** * Saved servers ([apps/desktop/src-tauri/src/bookmarks.rs])

    The list of servers the user keeps, with ids that are never given out twice, and the
    private file it is saved in. *)

From S2P Require Export Documents.

Definition BOOKMARKS_VERSION : Z := 1.

Inductive BookmarkError : Type :=
| BmIo (path : Path) (source : IoErr)
| BmMalformed (path : Path)
| BmUnsupportedVersion (path : Path) (found expected : Z)
| BmPermissionsTooOpen (path : Path) (mode : Z)
| BmNotFound (id : Z).

Record Bookmark : Type := mkBookmark {
  bm_id : Z; bm_label : rstring; bm_address : rstring; bm_password : option rstring; bm_identity : option rstring }.

Record BookmarkInput : Type := mkInput {
  bi_label : rstring; bi_address : rstring; bi_password : option rstring; bi_identity : option rstring }.

Record StoredBookmarks : Type := mkStoredBookmarks { sb_version : Z; sb_next_id : Z; sb_entries : list Bookmark }.

Record Bookmarks : Type := mkBookmarks { bms_path : Path; bms_next_id : Z; bms_entries : list Bookmark }.

(** [password.filter(|p| !p.is_empty())] *)
Definition kept_password (p : option rstring) : option rstring :=
  match p with Some p => if is_empty p then None else Some p | None => None end.

Definition bookmark_of (id : Z) (input : BookmarkInput) : Bookmark :=
  mkBookmark id (bi_label input) (bi_address input) (kept_password (bi_password input)) (bi_identity input).

Definition bookmarks_list (b : Bookmarks) : list Bookmark := bms_entries b.

Definition bookmark_add (input : BookmarkInput) (b : Bookmarks) : Bookmark * Bookmarks :=
  let entry := bookmark_of (bms_next_id b) input in
  (entry, mkBookmarks (bms_path b) (wrap 64 (bms_next_id b + 1)) (bms_entries b ++ [entry])).

(** [iter_mut().find(..)] and the four assignments. *)
Fixpoint rewrite_first (id : Z) (input : BookmarkInput) (entries : list Bookmark) : option (Bookmark * list Bookmark) :=
  match entries with
  | [] => None
  | e :: rest =>
      if bm_id e =? id then Some (bookmark_of (bm_id e) input, bookmark_of (bm_id e) input :: rest)
      else match rewrite_first id input rest with Some (x, rest) => Some (x, e :: rest) | None => None end
  end.

Definition bookmark_update (id : Z) (input : BookmarkInput) (b : Bookmarks) : (BookmarkError + Bookmark) * Bookmarks :=
  match rewrite_first id input (bms_entries b) with
  | None => (inl (BmNotFound id), b)
  | Some (entry, entries) => (inr entry, mkBookmarks (bms_path b) (bms_next_id b) entries)
  end.

Definition bookmark_remove (id : Z) (b : Bookmarks) : bool * Bookmarks :=
  let left := retain (fun e => negb (bm_id e =? id)) (bms_entries b) in
  (negb (length left =? length (bms_entries b))%nat, mkBookmarks (bms_path b) (bms_next_id b) left).

Section Files.
Context {J : Json StoredBookmarks}.

Definition bm_check_permissions (path : Path) : fprog BookmarkError unit :=
  (mode <-? attempt (BmIo path) (metadata_mode path);;
   let mode := Z.land mode 511 in
   if Z.land mode 63 =? 0 then ok tt else fail (BmPermissionsTooOpen path mode))%prog.

Definition highest_bookmark (entries : list Bookmark) : Z := foldr Z.max 0 (map bm_id entries).

(** The part of [open] after the permissions are checked. *)
Definition parse_bookmarks (path : Path) (raw : bytes) : BookmarkError + Bookmarks :=
  match from_json raw with
  | None => inl (BmMalformed path)
  | Some stored =>
      if negb (sb_version stored =? BOOKMARKS_VERSION)
      then inl (BmUnsupportedVersion path (sb_version stored) BOOKMARKS_VERSION)
      else
        let next_id := Z.max (sb_next_id stored) (wrap 64 (highest_bookmark (sb_entries stored) + 1)) in
        inr (mkBookmarks path next_id (sb_entries stored))
  end.

Definition bookmarks_open (path : Path) : fprog BookmarkError Bookmarks :=
  bind (call (read_to_string path)) (fun r =>
    match r with
    | inl NotFound => ok (mkBookmarks path 1 [])
    | inl e => fail (BmIo path e)
    | inr raw => (_ <-? bm_check_permissions path;; Ret (parse_bookmarks path raw))%prog
    end).

Definition stored_bookmarks (b : Bookmarks) : StoredBookmarks :=
  mkStoredBookmarks BOOKMARKS_VERSION (bms_next_id b) (bms_entries b).

Definition bookmarks_save (b : Bookmarks) : fprog BookmarkError unit :=
  let path := bms_path b in
  let tmp := with_extension (lit "tmp") path in
  (_ <-? ensure_parent (BmIo path) path;;
   _ <-? write_twice (BmIo path) 384 tmp (to_json (stored_bookmarks b)) NEWLINE;;
   attempt (BmIo path) (rename tmp path))%prog.

End Files.

(** ** Ids *)

(** Ids below the counter, each used once. *)
Record wf_bookmarks (b : Bookmarks) : Prop := {
  wf_next : 1 <= bms_next_id b < 2 ^ 64;
  wf_below e : e ∈ bms_entries b -> 0 <= bm_id e < bms_next_id b;
  wf_ids : NoDup (map bm_id (bms_entries b)) }.

Lemma highest_bookmark_spec entries e : e ∈ entries -> bm_id e <= highest_bookmark entries.
Proof.
  unfold highest_bookmark. induction entries as [|x l IH]; [by intros ?%not_elem_of_nil|]. cbn.
  intros [-> | H]%elem_of_cons; [lia | specialize (IH H); lia].
Qed.

Lemma highest_bookmark_bound entries n : 0 <= n -> (forall e, e ∈ entries -> bm_id e <= n) -> 0 <= highest_bookmark entries <= n.
Proof.
  unfold highest_bookmark. intros Hn. induction entries as [|x l IH]; cbn; intros H; [lia|].
  pose proof (H x ltac:(left)). assert (forall e, e ∈ l -> bm_id e <= n) by (intros e He; apply H; by right). specialize (IH ltac:(done)). lia.
Qed.

Lemma rewrite_first_ids id input entries x entries' :
  rewrite_first id input entries = Some (x, entries') -> map bm_id entries' = map bm_id entries /\ x = bookmark_of id input /\ x ∈ entries'.
Proof.
  revert entries'; induction entries as [|e l IH]; intros entries' H; [done|]. cbn in H. destruct (Z.eqb_spec (bm_id e) id) as [<- | Hne].
  - injection H as <- <-. split_and!; [done | done | left].
  - destruct (rewrite_first id input l) as [[y l']|]; [|done]. injection H as <- <-. destruct (IH l' eq_refl) as (E & ? & ?).
    cbn. rewrite E. split_and!; [done | done | by right].
Qed.

Lemma rewrite_first_none id input entries : rewrite_first id input entries = None <-> id ∉ map bm_id entries.
Proof.
  induction entries as [|e l IH]; cbn; [split; [intros _; apply not_elem_of_nil | done]|]. rewrite not_elem_of_cons.
  destruct (Z.eqb_spec (bm_id e) id) as [E | E]; [split; [done | by intros []]|].
  destruct (rewrite_first id input l) as [[]|]; [split; [done | intros [_ H]; by apply IH in H] | split; [intros _ | done]].
  split; [congruence | by apply IH].
Qed.

(** What a session does to the list, with the ids it was given so far. *)
Inductive edits : list Z * Bookmarks -> list Z * Bookmarks -> Prop :=
| ed_done x : edits x x
| ed_add issued b input x' :
    bms_next_id b < 2 ^ 64 - 1 ->
    edits (bm_id (bookmark_add input b).1 :: issued, (bookmark_add input b).2) x' -> edits (issued, b) x'
| ed_update issued b id input x' : edits (issued, (bookmark_update id input b).2) x' -> edits (issued, b) x'
| ed_remove issued b id x' : edits (issued, (bookmark_remove id b).2) x' -> edits (issued, b) x'
| ed_reopen {J : Json StoredBookmarks} {JL : JsonLaws StoredBookmarks J} issued b b' x' :
    parse_bookmarks (bms_path b) (to_json (stored_bookmarks b) ++ NEWLINE) = inr b' ->
    edits (issued, b') x' -> edits (issued, b) x'.

Lemma wf_add input b : wf_bookmarks b -> bms_next_id b < 2 ^ 64 - 1 -> wf_bookmarks (bookmark_add input b).2.
Proof.
  intros [Hn Hb Hd] Hroom. unfold bookmark_add. cbn [snd]. rewrite wrap_id by (unfold fits; lia). split; cbn [bms_next_id bms_entries].
  - lia.
  - intros e [He | ->%list_elem_of_singleton]%elem_of_app; [specialize (Hb e He); lia | cbn; lia].
  - rewrite map_app. apply NoDup_app. split_and!; [done | | repeat constructor; apply not_elem_of_nil].
    intros id (e & -> & He)%list_elem_of_fmap Hin%list_elem_of_singleton. specialize (Hb e He). cbn in Hin. lia.
Qed.

Lemma wf_update id input b : wf_bookmarks b -> wf_bookmarks (bookmark_update id input b).2.
Proof.
  intros [Hn Hb Hd]. unfold bookmark_update. destruct (rewrite_first _ _ _) as [[x l]|] eqn:E; [|by split].
  destruct (rewrite_first_ids _ _ _ _ _ E) as (Eids & _). split; cbn [bms_next_id bms_entries snd]; [done | | by rewrite Eids].
  intros e He. assert (Hin : bm_id e ∈ map bm_id l) by (by apply (list_elem_of_fmap_2 bm_id)).
  rewrite Eids in Hin. apply list_elem_of_fmap in Hin as (e0 & -> & He0). by apply Hb.
Qed.

Lemma wf_remove id b : wf_bookmarks b -> wf_bookmarks (bookmark_remove id b).2.
Proof.
  intros [Hn Hb Hd]. split; cbn; [done | intros e [He _]%elem_of_retain; by apply Hb |].
  eapply sublist_NoDup; [exact Hd|]. apply fmap_sublist. apply sublist_filter.
Qed.

(** The bytes [bookmarks_save] publishes. *)
Definition bookmarks_file {J : Json StoredBookmarks} (b : Bookmarks) : bytes := to_json (stored_bookmarks b) ++ NEWLINE.

Lemma parse_bookmarks_saved {J : Json StoredBookmarks} {JL : JsonLaws StoredBookmarks J} b :
  wf_bookmarks b -> parse_bookmarks (bms_path b) (bookmarks_file b) = inr b.
Proof.
  intros [Hn Hb _]. unfold parse_bookmarks, bookmarks_file. rewrite json_reads_line. cbn [stored_bookmarks sb_version sb_next_id sb_entries].
  rewrite Z.eqb_refl. cbn [negb]. cbv zeta.
  assert (Hh : 0 <= highest_bookmark (bms_entries b) <= bms_next_id b - 1)
    by (apply highest_bookmark_bound; [lia | intros e He; specialize (Hb e He); lia]).
  rewrite wrap_id by (unfold fits; lia). rewrite Z.max_l by lia. by destruct b.
Qed.

(** A bookmark's id is never given to another: however bookmarks are added, changed and
    removed, and however often the list is saved and read back, the ids handed out are all
    different, the entries' ids are distinct, and a removed entry's id stays dead. *)
Theorem bookmark_ids_are_never_reused issued b issued' b' :
  edits (issued, b) (issued', b') ->
  wf_bookmarks b -> NoDup issued -> (forall id, id ∈ issued -> id < bms_next_id b) ->
  wf_bookmarks b' /\ NoDup issued' /\ forall id, id ∈ issued' -> id < bms_next_id b'.
Proof.
  intros H. remember (issued, b) as x. remember (issued', b') as x'. revert issued b Heqx.
  induction H as [x | issued0 b0 input x' Hroom _ IH | issued0 b0 id input x' _ IH | issued0 b0 id x' _ IH | ? ? issued0 b0 b1 x' Hp _ IH];
    intros issued b Heqx Hwf Hn Hlt; [subst x; by injection Heqx as -> ->| | | |]; injection Heqx as -> ->.
  - eapply IH; [done | reflexivity | by apply wf_add | |].
    + cbn. apply NoDup_cons. split; [|done]. intros Hin. specialize (Hlt _ Hin). cbn in Hlt. lia.
    + intros id. cbn. rewrite wrap_id by (pose proof (wf_next _ Hwf); unfold fits; lia).
      intros [-> | Hin]%elem_of_cons; [lia | specialize (Hlt _ Hin); lia].
  - eapply IH; [done | reflexivity | by apply wf_update | done |].
    intros i Hin. unfold bookmark_update. destruct (rewrite_first _ _ _) as [[? ?]|]; by apply Hlt.
  - eapply IH; [done | reflexivity | by apply wf_remove | done | done].
  - fold (bookmarks_file b) in Hp. rewrite parse_bookmarks_saved in Hp by done. injection Hp as <-. by eapply IH.
Qed.

(** ** The file *)

Section Saving.
Context {J : Json StoredBookmarks} {JL : JsonLaws StoredBookmarks J}.

Lemma bm_check_permissions_inv path d :
  ends (fun r d' => same_files d d' /\ match r with
    | inr _ => exists n, file_at d path = Some n /\ Z.land (Z.land (in_mode n) 511) 63 = 0
    | inl (BmPermissionsTooOpen _ _) => exists n, file_at d path = Some n /\ Z.land (Z.land (in_mode n) 511) 63 <> 0
    | inl (BmIo _ _) => True
    | inl _ => False
    end) (bm_check_permissions path) d.
Proof.
  unfold bm_check_permissions, ends. cbn [try_bind attempt bind run call]. destruct (metadata_mode path d) as [[e | mode] d'] eqn:E; apply metadata_inv in E as [Hs H]; cbn; [done|].
  destruct H as (n & Hn & <-). destruct (Z.eqb_spec (Z.land (Z.land (in_mode n) 511) 63) 0); cbn; eauto.
Qed.

(** What opening the list answers, and that it leaves the file alone. *)
Lemma bookmarks_open_answers path d :
  ends (fun r d' => same_files d d' /\ match r with
    | inr b => match file_at d path with
        | Some n => parse_bookmarks path (in_data n) = inr b /\ Z.land (Z.land (in_mode n) 511) 63 = 0
        | None => b = mkBookmarks path 1 []
        end
    | inl (BmIo _ _) => True
    | inl (BmPermissionsTooOpen _ _) => exists n, file_at d path = Some n /\ Z.land (Z.land (in_mode n) 511) 63 <> 0
    | inl e => exists n, file_at d path = Some n /\ parse_bookmarks path (in_data n) = inl e
    end) (bookmarks_open path) d.
Proof.
  unfold bookmarks_open. apply ends_call. destruct (read_to_string path d) as [r d1] eqn:E. apply read_to_string_inv in E as [Hs Hr]. cbn [fst snd].
  destruct r as [[]| raw]; try done; [apply ends_ret; by rewrite Hr|]. destruct Hr as (n & Hn & <- & _).
  eapply ends_bind; [apply bm_check_permissions_inv|]. intros r d2 [Hs2 H2]. rewrite (file_at_same _ _ path Hs) in H2.
  pose proof (same_files_trans _ _ _ Hs Hs2) as Hs12. rewrite Hn in H2 |- *.
  destruct r as [e | []]; apply ends_ret; (split; [done|]).
  - destruct e; try done; eauto.
  - destruct H2 as (n' & [= <-] & Hmode). destruct (parse_bookmarks path (in_data n)) as [e | b] eqn:Ep; [|done].
    pose proof Ep as Ep'. unfold parse_bookmarks in Ep'. case_match_all; simplify_eq; eauto.
Qed.

(** Saving the bookmarks is all or nothing: whatever fails and whenever power is lost, what
    the file then holds reads as the list that was there before or as the one being saved; a
    save that reports success leaves the new one, and it opens again as it was unless somebody
    else may read it or the disk fails. *)
Theorem saving_bookmarks_is_all_or_nothing old b d :
  wf_bookmarks b -> with_extension (lit "tmp") (bms_path b) <> bms_path b ->
  guarded (bms_path b) (fun c => parse_bookmarks (bms_path b) c = inr old) d ->
  always (fun d' => durable (bms_path b)
            (fun c => parse_bookmarks (bms_path b) c = inr old \/ parse_bookmarks (bms_path b) c = inr b) d')
    (fun r d' => match r with
       | inl _ => file_at d' (bms_path b) = file_at d (bms_path b)
       | inr _ => ends (fun r _ => match r with
           | inr b' => b' = b
           | inl (BmIo _ _) | inl (BmPermissionsTooOpen _ _) => True
           | inl _ => False
           end) (bookmarks_open (bms_path b)) d'
       end) (bookmarks_save b) d.
Proof.
  intros Hwf Hne Hg. pose proof (parse_bookmarks_saved b Hwf) as Hparse. unfold bookmarks_save. cbv zeta.
  eapply always_weaken; [by apply replace_always | |].
  - intros d' Hd'. apply guarded_durable. eapply guarded_weaken; [exact Hd'|]. intros c [H | ->]; [by left | by right].
  - intros r d' _. destruct r as [e | []]; [done|]. intros (m & Hm). eapply ends_weaken; [apply bookmarks_open_answers|].
    intros r d2 (_ & H). fold (bookmarks_file b) in Hm. rewrite Hm in H. cbn [in_data] in H. rewrite Hparse in H.
    destruct r as [[]| b']; try done; [| | | destruct H as [[= ->] _]; done]; destruct H as (n & [= <-] & H); cbn in H; by rewrite Hparse in H.
Qed.

End Saving.

(** ** On a small disk *)

Module Sample_bookmarks.
Import Documents.

#[export] Instance ser_bookmark : Ser Bookmark :=
  ser_as (fun x => (bm_id x, bm_label x, bm_address x, bm_password x, bm_identity x)) (fun '(a, b, c, d, e) => mkBookmark a b c d e).
#[export] Instance ser_bookmark_laws : SerLaws Bookmark ser_bookmark.
Proof. apply ser_as_laws. by intros []. Qed.
#[export] Instance ser_bookmarks : Ser StoredBookmarks :=
  ser_as (fun x => (sb_version x, sb_next_id x, sb_entries x)) (fun '(a, b, c) => mkStoredBookmarks a b c).
#[export] Instance ser_bookmarks_laws : SerLaws StoredBookmarks ser_bookmarks.
Proof. apply ser_as_laws. by intros []. Qed.
#[export] Instance json : Json StoredBookmarks := plain_json ser_bookmarks.
#[export] Instance json_laws : JsonLaws StoredBookmarks json.
Proof. apply plain_json_laws, ser_bookmarks_laws. Qed.

Definition path : Path := [lit "pickle"; lit "bookmarks.json"].
Definition nobody : Bookmarks := mkBookmarks path 1 [].
Definition input (label : rstring) : BookmarkInput := mkInput label (lit "example.com") (Some []) None.
Definition one : Bookmarks := (bookmark_add (input (lit "home")) nobody).2.
Definition two : Bookmarks := (bookmark_add (input (lit "work")) (bookmark_remove 1 one).2).2.

Lemma nobody_wf : wf_bookmarks nobody.
Proof. split; cbn; [lia | by intros e ?%not_elem_of_nil | constructor]. Qed.

Lemma two_wf : wf_bookmarks two.
Proof. apply wf_add; [apply wf_remove, wf_add; [exact nobody_wf | cbn; lia] | vm_compute; done]. Qed.

Lemma bookmark_ids_are_never_reused_witness :
  bm_id <$> bms_entries two = [2] /\ exists issued b, edits ([], nobody) (issued, b) /\ issued = [2; 1] /\ NoDup issued /\ wf_bookmarks b.
Proof.
  split; [reflexivity|]. exists [2; 1], two.
  assert (He : edits ([], nobody) ([2; 1], two)).
  { apply (ed_add _ _ (input (lit "home"))); [reflexivity|]. apply (ed_remove _ _ 1).
    eapply (@ed_reopen json json_laws _ _ (bookmark_remove 1 one).2); [vm_compute; reflexivity|].
    apply (ed_add _ _ (input (lit "work"))); [reflexivity|]. apply ed_done. }
  split; [exact He|]. split; [reflexivity|].
  destruct (bookmark_ids_are_never_reused [] nobody [2; 1] two He nobody_wf ltac:(constructor)) as (Hwf & Hn & _).
  - by intros id ?%not_elem_of_nil.
  - by split.
Defined.

Definition before : Disk := one_file path (bookmarks_file one).

Lemma saving_bookmarks_is_all_or_nothing_witness :
  wf_bookmarks two /\
  ends (fun r d' => match r with
    | inl _ => file_at d' path = file_at before path
    | inr _ => ends (fun r _ => match r with inr b' => b' = two | inl _ => True end) (bookmarks_open path) d'
    end) (bookmarks_save two) before.
Proof.
  split; [exact two_wf|]. eapply ends_weaken.
  - eapply always_ends, (saving_bookmarks_is_all_or_nothing one two before two_wf).
    + intros E. apply (f_equal last) in E. vm_compute in E. discriminate E.
    + apply settled_guarded; [apply one_file_settled|]. intros n Hn. unfold before in Hn. rewrite one_file_at in Hn. injection Hn as <-.
      vm_compute. reflexivity.
  - intros [e | []] d' [_ H]; [exact H|]. eapply ends_weaken; [exact H|]. intros [[]|] d2 Hr; try exact Hr; exact Logic.I.
Defined.

End Sample_bookmarks.
