(* ===== verification/Settings.v ===== *)
(** * User preferences ([apps/desktop/src-tauri/src/settings.rs])

    What the user chose, with defaults for what is missing, in a file that is replaced as a
    whole and put aside when it cannot be understood. *)

From S2P Require Export Documents.
From S2P Require Import Vad VoiceCodec.

Inductive StoredGateMode : Type := SVoiceActivity | SPushToTalk | SContinuous.

(** [From<StoredGateMode>] *)
Definition gate_mode (mode : StoredGateMode) : GateMode :=
  match mode with SVoiceActivity => VoiceActivity | SPushToTalk => PushToTalk | SContinuous => Continuous end.

Record AudioSettings : Type := mkAudio {
  au_input_device : option rstring; au_output_device : option rstring; au_bitrate : Z; au_gate_mode : StoredGateMode }.

Definition AudioSettings_default : AudioSettings := mkAudio None None DEFAULT_BITRATE SVoiceActivity.

Definition needs_restart (now next : AudioSettings) : bool :=
  negb (bool_decide (au_input_device now = au_input_device next)) ||
  negb (bool_decide (au_output_device now = au_output_device next)) ||
  negb (au_bitrate now =? au_bitrate next).

Record Keybinds : Type := mkKeybinds {
  kb_push_to_talk : option rstring; kb_toggle_mute : option rstring; kb_toggle_deafen : option rstring }.

Definition Keybinds_default : Keybinds := mkKeybinds None None None.

Record OpenConnection : Type := mkOpen { oc_address : rstring; oc_identity : rstring }.

Record Settings : Type := mkSettings {
  st_audio : AudioSettings; st_keybinds : Keybinds; st_connections : list OpenConnection }.

Definition Settings_default : Settings := mkSettings AudioSettings_default Keybinds_default [].

Inductive SettingsError : Type := StIo (path : Path) (source : IoErr).

Section Files.
Context {J : Json Settings}.

(** The renaming's result is dropped. *)
Definition settings_load (path : Path) : prog Disk Settings :=
  bind (call (read_to_string path)) (fun r =>
    match r with
    | inl _ => Ret Settings_default
    | inr raw =>
        match from_json raw with
        | Some settings => Ret settings
        | None => bind (call (rename path (with_extension (lit "json.bad") path))) (fun _ => Ret Settings_default)
        end
    end).

Definition settings_save (path : Path) (settings : Settings) : fprog SettingsError unit :=
  let tmp := with_extension (lit "tmp") path in
  (_ <-? ensure_parent (StIo path) path;;
   _ <-? write_twice (StIo path) 420 tmp (to_json settings) NEWLINE;;
   attempt (StIo path) (rename tmp path))%prog.

End Files.

(** Only the devices and the bitrate need the engine rebuilt. *)
Lemma needs_restart_spec now next :
  needs_restart now next = false <->
  au_input_device now = au_input_device next /\ au_output_device now = au_output_device next /\ au_bitrate now = au_bitrate next.
Proof. unfold needs_restart. rewrite !orb_false_iff, !negb_false_iff, !bool_decide_eq_true, Z.eqb_eq. tauto. Qed.

(** ** The file *)

Section Saving.
Context {J : Json Settings} {JL : JsonLaws Settings J}.

(** Loading the settings destroys nothing and never fails: at every step the file that was
    there is there, under its name or put aside; it is put aside only when it cannot be
    understood; and what is returned are the settings it holds, or the defaults. *)
Theorem loading_settings_destroys_nothing path d :
  with_extension (lit "json.bad") path <> path ->
  always (fun d' => forall n, file_at d path = Some n -> exists q, file_at d' q = Some n /\ q ∈ [path; with_extension (lit "json.bad") path])
    (fun s d' => match file_at d path with
       | None => s = Settings_default /\ same_files d d'
       | Some n =>
           from_json (in_data n) = Some s /\ same_files d d' \/
           s = Settings_default /\ (same_files d d' \/ from_json (in_data n) = None /\
             file_at d' path = None /\ file_at d' (with_extension (lit "json.bad") path) = Some n)
       end) (settings_load path) d.
Proof.
  intros Hne. set (aside := with_extension _ _) in *. set (I := fun d' => forall n, _ -> _).
  assert (HI : I d) by (intros n Hn; exists path; split; [done | left]).
  assert (Hsame : forall d', same_files d d' -> I d') by (intros d' Hs n Hn; exists path; rewrite (file_at_same _ _ path Hs); split; [done | left]).
  unfold settings_load. fold aside. cbn [call bind always]. split; [done|].
  destruct (read_to_string path d) as [r d1] eqn:E. apply read_to_string_inv in E as [Hs Hr]. cbn [fst snd].
  destruct r as [e | raw]; [split; [by apply Hsame|]; destruct (file_at d path) eqn:Ef; [right; split; [done | by left] | by split]|].
  destruct Hr as (n & Hn & <- & _). rewrite Hn.
  destruct (from_json (in_data n)) as [s|] eqn:Ej; [split; [by apply Hsame | by left]|]. cbn [call bind always].
  split; [by apply Hsame|]. destruct (rename path aside d1) as [r d2] eqn:Er. cbn [fst snd].
  apply fallible_inv in Er as [[_ Hs2] | (d3 & Hs3 & Hren)].
  { pose proof (same_files_trans _ _ _ Hs Hs2). split; [by apply Hsame | right; split; [done | by left]]. }
  pose proof (same_files_trans _ _ _ Hs Hs3) as Hs13. pose proof Hs13 as (Ei & _ & Ed & _).
  assert (Hf3 : file_at d3 path = Some n) by (by rewrite (file_at_same _ _ path Hs13)). unfold file_at in Hf3.
  destruct (dir d3 !! path) as [i|] eqn:Hi; [|done]. cbn in Hf3. injection Hren as <- <-.
  assert (Ha : file_at (set_dir (<[aside:=i]> (delete path (dir d3))) d3) aside = Some n)
    by (unfold file_at, set_dir; cbn [dir inodes]; by rewrite lookup_insert_eq).
  split; [intros n' Hn'; exists aside; rewrite Hn in Hn'; injection Hn' as <-; split; [done | right; left]|].
  right. split; [done|]. right. split_and!; [done | | exact Ha]. unfold file_at, set_dir. cbn [dir inodes].
  by rewrite lookup_insert_ne, lookup_delete_eq by done.
Qed.

Lemma settings_save_always path G settings d :
  guarded path G d -> with_extension (lit "tmp") path <> path ->
  always (guarded path (fun c => G c \/ c = to_json settings ++ NEWLINE))
    (fun r d' => match r with
       | inr _ => exists m, file_at d' path = Some (mkInode (to_json settings ++ NEWLINE) true m)
       | inl _ => file_at d' path = file_at d path
       end) (settings_save path settings) d.
Proof. apply replace_always. Qed.

(** Settings that were saved load again, unless the disk fails the read. *)
Lemma saved_settings_load path settings d m :
  file_at d path = Some (mkInode (to_json settings ++ NEWLINE) true m) ->
  ends (fun s d' => s = settings \/ s = Settings_default /\ same_files d d') (settings_load path) d.
Proof.
  intros Hf. unfold settings_load. apply ends_call. destruct (read_to_string path d) as [r d1] eqn:E.
  apply read_to_string_inv in E as [Hs Hr]. cbn [fst snd]. destruct r as [e | raw]; [apply ends_ret; by right|].
  destruct Hr as (n & Hn & <- & _). rewrite Hf in Hn. injection Hn as <-. cbn [in_data]. rewrite json_reads_line. apply ends_ret. by left.
Qed.

End Saving.

(** ** On a small disk *)

Module Sample_settings.
Import Documents.

#[export] Instance ser_gate : Ser StoredGateMode :=
  ser_as (fun x => match x with SVoiceActivity => 0 | SPushToTalk => 1 | SContinuous => 2 end)
    (fun n => if n =? 0 then SVoiceActivity else if n =? 1 then SPushToTalk else SContinuous).
#[export] Instance ser_settings : Ser Settings :=
  ser_as (fun x => (au_input_device (st_audio x), au_output_device (st_audio x), au_bitrate (st_audio x), au_gate_mode (st_audio x)))
    (fun '(a, b, c, d) => mkSettings (mkAudio a b c d) Keybinds_default []).
#[export] Instance json : Json Settings := plain_json ser_settings.

Definition path : Path := [lit "pickle"; lit "settings.json"].
Definition broken : Disk := one_file path (as_bytes (lit "{ not json")).

Lemma loading_settings_destroys_nothing_witness :
  fst <$> run (settings_load path) broken = Some Settings_default /\
  ends (fun s d' => exists q n, file_at d' q = Some n /\ in_data n = as_bytes (lit "{ not json")) (settings_load path) broken.
Proof.
  split; [vm_compute; reflexivity|].
  assert (Hne : with_extension (lit "json.bad") path <> path) by (intros E; apply (f_equal last) in E; vm_compute in E; discriminate E).
  eapply ends_weaken; [eapply always_ends, (loading_settings_destroys_nothing path broken Hne)|].
  intros s d' [H _]. destruct (H _ (one_file_at path _)) as (q & Hq & _). exists q. eexists. split; [exact Hq | reflexivity].
Defined.

End Sample_settings.
