(* ===== verification/MouseGrab.v ===== *)
(** * Mouse buttons read from the device ([apps/desktop/src-tauri/src/mouse_grab.rs])

    Which input devices may be read for a bound mouse button, what is read from them, and the
    rule offered to someone whose mouse cannot be opened.  The devices the system shows and the
    files it keeps about them are inputs; the build is the Linux one. *)

From S2P Require Export RustStr.
From S2P Require Import Client.

(** [shortcuts::Action] *)
Inductive Action : Type := PushToTalkAction | ToggleMute | ToggleDeafen.

#[global] Instance Action_eq_dec : EqDecision Action.
Proof. solve_decision. Defined.

Definition PLUS : char := 43.
Definition NL : char := 10.
Definition HASH : char := 35.
Definition QUOTE : char := 34.
Definition SPACE : char := 32.

Definition quoted (s : rstring) : rstring := QUOTE :: s ++ [QUOTE].

Definition UDEV_RULE_PATH : rstring := lit "/etc/udev/rules.d/70-pickle-mouse.rules".

Record MouseDevice : Type := mkMouse { md_name : rstring; md_vendor : rstring; md_product : rstring }.

Record UdevAdvice : Type := mkAdvice { ua_path : rstring; ua_rule : rstring; ua_devices : list MouseDevice }.

Inductive GrabOutcome : Type :=
| Active (devices : nat)
| NoPermission (devices : list MouseDevice)
| NoMouse
| Modified.

Definition is_active (o : GrabOutcome) : bool := match o with Active _ => true | _ => false end.

(** The sentence for each outcome, nothing while the grab works. *)
Definition explain (o : GrabOutcome) : option rstring :=
  match o with
  | Active _ => None
  | NoPermission devices => Some (
      lit "Found " ++ dec (Z.of_nat (length devices)) ++ lit " mouse device(s), but could not open any of them. " ++
      lit "Reading a mouse directly needs permission on that one device, " ++
      lit "which a small udev rule grants " ++ [8212] ++ lit " Pickle can write the exact " ++
      lit "rule for your hardware. Until then the button works while " ++ lit "Pickle is focused.")
  | NoMouse => Some (lit "No mouse reporting that button was found. It works while Pickle is focused.")
  | Modified => Some (
      lit "A mouse binding with modifiers only works while Pickle is focused: checking " ++
      lit "whether a modifier is held would mean reading your keyboard, which this app " ++ lit "deliberately does not do.")
  end.

(** ** Codes *)

Abbreviation KeyCode := Z (only parsing).
Definition KEY_1 : KeyCode := 2.
Definition KEY_SLASH : KeyCode := 53.
Definition KEY_F13 : KeyCode := 183.
Definition BTN_LEFT : KeyCode := 272.
Definition BTN_RIGHT : KeyCode := 273.
Definition BTN_MIDDLE : KeyCode := 274.
Definition BTN_SIDE : KeyCode := 275.
Definition BTN_EXTRA : KeyCode := 276.
Definition REL_X : Z := 0.
Definition REL_Y : Z := 1.

(** The twelve keys have consecutive codes. *)
Fixpoint fkey_from (names : list rstring) (code : KeyCode) (accelerator : rstring) : option KeyCode :=
  match names with
  | [] => None
  | name :: names => if bool_decide (accelerator = name) then Some code else fkey_from names (code + 1) accelerator
  end.

Definition fkey_code : rstring -> option KeyCode :=
  fkey_from [lit "F13"; lit "F14"; lit "F15"; lit "F16"; lit "F17"; lit "F18"; lit "F19"; lit "F20"; lit "F21"; lit "F22";
             lit "F23"; lit "F24"] KEY_F13.

Definition has_plus (accelerator : rstring) : bool := any (fun c => c =? PLUS) accelerator.

Definition button_code (accelerator : rstring) : option KeyCode :=
  if has_plus accelerator then None
  else if bool_decide (accelerator = lit "Mouse2") then Some BTN_RIGHT
  else if bool_decide (accelerator = lit "Mouse3") then Some BTN_MIDDLE
  else if bool_decide (accelerator = lit "Mouse4") then Some BTN_SIDE
  else if bool_decide (accelerator = lit "Mouse5") then Some BTN_EXTRA
  else fkey_code accelerator.

(** ** Devices *)

(** [KeyCode::KEY_1.0..=KeyCode::KEY_SLASH.0] *)
Definition typing_block : list KeyCode := map (fun n => KEY_1 + Z.of_nat n) (seq 0 (Z.to_nat (KEY_SLASH - KEY_1) + 1)).

Definition capabilities_are_mouse_only (keys : gset KeyCode) (axes : option (gset Z)) : bool :=
  let moves_a_pointer := match axes with Some axes => bool_decide (REL_X ∈ axes) && bool_decide (REL_Y ∈ axes) | None => false end in
  let types := any (fun code => bool_decide (code ∈ keys)) typing_block in
  moves_a_pointer && bool_decide (BTN_LEFT ∈ keys) && negb types.

(** [evdev::Device], with whether a reader of it can be started. *)
Record InputDevice : Type := mkInput {
  in_keys : option (gset KeyCode); in_axes : option (gset Z); in_name : option rstring; in_vendor : Z; in_product : Z;
  in_readable : bool }.

Definition is_mouse_only (device : InputDevice) : bool :=
  match in_keys device with Some keys => capabilities_are_mouse_only keys (in_axes device) | None => false end.

(** [{:04x}] *)
Definition hex4 (n : Z) : rstring := let s := hex 4 n [] in replicate (4 - length s) 48 ++ s.

(** ** Names *)

(** [split_whitespace]: the maximal runs without whitespace. *)
Fixpoint words (s : rstring) : list rstring :=
  match s with
  | [] => []
  | c :: rest =>
      if is_whitespace c then words rest
      else match rest with
           | [] => [[c]]
           | d :: _ => if is_whitespace d then [c] :: words rest
                       else match words rest with w :: ws => (c :: w) :: ws | [] => [[c]] end
           end
  end.

Definition unnamed : rstring := lit "unnamed mouse".

Definition clean_name (name : rstring) : rstring :=
  let cleaned := map (fun c => if is_control c then SPACE else c) name in
  let cleaned := join_with [SPACE] (words cleaned) in
  if is_empty cleaned then unnamed else take 80 cleaned.

Definition identify (device : InputDevice) : MouseDevice :=
  mkMouse (clean_name (default unnamed (in_name device))) (hex4 (in_vendor device)) (hex4 (in_product device)).

(** ** Mice that cannot be opened *)

(** An entry of [/dev/input/by-id]: its name where that is text, whether opening it works, and
    the files under the node it links to, where that can be followed. *)
Record ByIdEntry : Type := mkEntry {
  be_name : option rstring; be_opens : bool; be_sysfs : option (rstring -> option rstring) }.

Fixpoint ends_with (suffix s : rstring) : bool :=
  bool_decide (s = suffix) || match s with [] => false | _ :: rest => ends_with suffix rest end.

Definition is_hex_digit (c : char) : bool :=
  ((48 <=? c) && (c <=? 57)) || ((65 <=? c) && (c <=? 70)) || ((97 <=? c) && (c <=? 102)).

(** Four hex digits, whatever surrounds them and in whichever case. *)
Definition hex_id (value : option rstring) : option rstring :=
  match value with
  | None => None
  | Some value =>
      let id := map ascii_lower (trim value) in
      if (str_len id =? 4) && forallb is_hex_digit id then Some id else None
  end.

Definition identify_from_sysfs (sysfs : option (rstring -> option rstring)) : option MouseDevice :=
  read ← sysfs;
  vendor ← hex_id (read (lit "id/vendor"));
  product ← hex_id (read (lit "id/product"));
  Some (mkMouse (clean_name (trim (default unnamed (read (lit "name"))))) vendor product).

(** [dedupe]: the first of those that share their ids stays. *)
Fixpoint dedupe_loop (seen : list (rstring * rstring)) (devices : list MouseDevice) : list MouseDevice :=
  match devices with
  | [] => []
  | d :: rest =>
      let key := (md_vendor d, md_product d) in
      if bool_decide (key ∈ seen) then dedupe_loop seen rest else d :: dedupe_loop (seen ++ [key]) rest
  end.

Definition dedupe : list MouseDevice -> list MouseDevice := dedupe_loop [].

(** [by_id] is the directory, [None] when it cannot be listed. *)
Definition unreadable_mice (by_id : option (list ByIdEntry)) : list MouseDevice :=
  match by_id with
  | None => []
  | Some entries =>
      let mice := retain (fun e => match be_name e with Some name => ends_with (lit "-event-mouse") name | None => false end) entries in
      dedupe (omap (fun e => identify_from_sysfs (be_sysfs e)) (retain (fun e => negb (be_opens e)) mice))
  end.

(** What of the system this file looks at. *)
Record InputSystem : Type := mkSystem { sys_devices : list InputDevice; sys_by_id : option (list ByIdEntry) }.

Definition fkey_routes (sys : InputSystem) (accelerator : rstring) : bool :=
  match fkey_code accelerator with
  | None => false
  | Some code =>
      if has_plus accelerator then false
      else
        any (fun d => is_mouse_only d && match in_keys d with Some keys => bool_decide (code ∈ keys) | None => false end) (sys_devices sys)
        || negb (is_empty (unreadable_mice (sys_by_id sys)))
  end.

(** ** Starting *)

(** What was asked for that has a code, and whether something was refused for its modifiers. *)
Fixpoint wanted_codes (bindings : list (rstring * Action)) : list (KeyCode * Action) * bool :=
  match bindings with
  | [] => ([], false)
  | (accelerator, action) :: rest =>
      let '(wanted, modified) := wanted_codes rest in
      match button_code accelerator with
      | Some code => ((code, action) :: wanted, modified)
      | None => (wanted, has_plus accelerator || modified)
      end
  end.

(** A reader: the device, and the codes it acts on. *)
Record Reader : Type := mkReader { rd_device : InputDevice; rd_codes : list (KeyCode * Action) }.

(** One turn of the loop over the devices, per device. *)
Inductive Considered : Type := Ignored | Opened (r : Reader) | Blocked (d : MouseDevice).

Definition consider (wanted : list (KeyCode * Action)) (device : InputDevice) : Considered :=
  if negb (is_mouse_only device) then Ignored
  else
    match in_keys device with
    | None => Ignored
    | Some keys =>
        let codes := retain (fun e => bool_decide (e.1 ∈ keys)) wanted in
        if is_empty codes then Ignored
        else if in_readable device then Opened (mkReader device codes) else Blocked (identify device)
    end.

Definition opened_readers (l : list Considered) : list Reader := omap (fun c => match c with Opened r => Some r | _ => None end) l.
Definition blocked_mice (l : list Considered) : list MouseDevice := omap (fun c => match c with Blocked d => Some d | _ => None end) l.

(** The readers started, if any, and the outcome. *)
Definition start (sys : InputSystem) (bindings : list (rstring * Action)) : list Reader * GrabOutcome :=
  let '(wanted, modified) := wanted_codes bindings in
  if is_empty wanted then ([], if modified then Modified else NoMouse)
  else
    let considered := map (consider wanted) (sys_devices sys) in
    let readers := opened_readers considered in
    let blocked := dedupe (blocked_mice considered ++ unreadable_mice (sys_by_id sys)) in
    if is_empty readers then ([], if is_empty blocked then NoMouse else NoPermission blocked)
    else (readers, Active (length readers)).

(** ** Reading *)

(** What [fetch_events] gives: key events as a code and a value among others, nothing yet, or a
    fault. *)
Inductive Fetched : Type := Events (l : list (option (KeyCode * Z))) | WouldBlock | Fault.

(** What one event makes of the bindings. *)
Definition event_action (codes : list (KeyCode * Action)) (event : option (KeyCode * Z)) : option (Action * bool) :=
  match event with
  | None => None
  | Some (code, value) =>
      match find (fun e => e.1 =? code) codes with
      | None => None
      | Some (_, action) => if value =? 1 then Some (action, true) else if value =? 0 then Some (action, false) else None
      end
  end.

(** What is dispatched for one fetch, and whether the reader goes on. *)
Definition read_fetched (codes : list (KeyCode * Action)) (fetched : Fetched) : list (Action * bool) * bool :=
  match fetched with
  | Events events => (omap (event_action codes) events, true)
  | WouldBlock => ([], true)
  | Fault => (map (fun _ => (PushToTalkAction, false)) (retain (fun e => bool_decide (e.2 = PushToTalkAction)) codes), false)
  end.

(** ** The rule *)

Definition comment_lines : list rstring := [
  lit "# Pickle: read one mouse's buttons, and nothing else.";
  lit "#";
  lit "# Install with:";
  lit "#   sudo cp <this file> " ++ UDEV_RULE_PATH;
  lit "#   sudo udevadm control --reload";
  lit "#   sudo udevadm trigger --subsystem-match=input";
  lit "# then unplug and replug the mouse, or reboot.";
  lit "#";
  lit "# Each rule grants access to one device, for whoever is logged in at";
  lit "# this machine's own screen and keyboard, for as long as that session";
  lit "# lasts. It is not the `input` group: nothing here gives any process";
  lit "# access to a keyboard, to another user's devices, or to a device that";
  lit "# is not named below.";
  lit "#";
  lit "# Derive the ids for a mouse yourself with:";
  lit "#   udevadm info -a -n /dev/input/eventN | grep -m2 -E 'idVendor|idProduct'";
  lit "# For a Bluetooth or I2C mouse, which has no USB parent, use";
  lit "# ATTRS{id/vendor} and ATTRS{id/product} in place of";
  lit "# ATTRS{idVendor} and ATTRS{idProduct}."].

Definition unlines (l : list rstring) : rstring := l ≫= fun line => line ++ [NL].

Definition rule_line (d : MouseDevice) : rstring :=
  lit "SUBSYSTEM==" ++ quoted (lit "input") ++ lit ", KERNEL==" ++ quoted (lit "event*") ++ lit ", " ++
  lit "ENV{ID_INPUT_MOUSE}==" ++ quoted (lit "1") ++ lit ", ENV{ID_INPUT_KEYBOARD}!=" ++ quoted (lit "1") ++ lit ", " ++
  lit "ATTRS{idVendor}==" ++ quoted (md_vendor d) ++ lit ", ATTRS{idProduct}==" ++ quoted (md_product d) ++
  lit ", TAG+=" ++ quoted (lit "uaccess").

Definition device_lines (d : MouseDevice) : list rstring := [[]; lit "# " ++ clean_name (md_name d); rule_line d].

Definition udev_rule (devices : list MouseDevice) : rstring := unlines (comment_lines ++ (devices ≫= device_lines)).

Definition udev_advice (by_id : option (list ByIdEntry)) : option UdevAdvice :=
  let devices := unreadable_mice by_id in
  if is_empty devices then None else Some (mkAdvice UDEV_RULE_PATH (udev_rule devices) devices).

(** ** What the rule says *)

(** [str::lines], without the empty piece after a last newline. *)
Fixpoint split_lines (s : rstring) : list rstring :=
  match s with
  | [] => [[]]
  | c :: rest =>
      if c =? NL then [] :: split_lines rest
      else match split_lines rest with l :: ls => (c :: l) :: ls | [] => [[c]] end
  end.

(** A decidable fact about constants. *)
Ltac decided := apply (bool_decide_unpack _); vm_compute; exact Logic.I.

Lemma split_lines_line line rest : NL ∉ line -> split_lines (line ++ NL :: rest) = line :: split_lines rest.
Proof.
  induction line as [|c line IH]; intros H; [done|]. apply not_elem_of_cons in H as [Hc H]. cbn [app split_lines].
  rewrite IH by exact H. by destruct (Z.eqb_spec c NL).
Qed.

Lemma split_unlines ls : Forall (fun l => NL ∉ l) ls -> split_lines (unlines ls) = ls ++ [[]].
Proof.
  induction 1 as [|l ls Hl _ IH]; [done|]. unfold unlines in *. cbn [mbind list_bind]. rewrite <- app_assoc. cbn [app].
  rewrite split_lines_line by exact Hl. by rewrite IH.
Qed.

Lemma elem_of_words w s c : w ∈ words s -> c ∈ w -> c ∈ s.
Proof.
  revert w. induction s as [|x s IH]; intros w Hw Hc; [by apply not_elem_of_nil in Hw|]. cbn in Hw.
  destruct (is_whitespace x); [right; by eapply IH|].
  destruct s as [|y s]; [apply list_elem_of_singleton in Hw as ->; exact Hc|].
  destruct (is_whitespace y).
  - apply elem_of_cons in Hw as [-> | Hw]; [apply list_elem_of_singleton in Hc as ->; left | right; by eapply IH].
  - remember (words (y :: s)) as ws eqn:Ews. destruct ws as [|v vs]; [apply list_elem_of_singleton in Hw as ->; apply list_elem_of_singleton in Hc as ->; left|].
    apply elem_of_cons in Hw as [-> | Hw]; [apply elem_of_cons in Hc as [-> | Hc]; [left | right; apply (IH v); [left | exact Hc]]|].
    right. apply (IH w); [by right | exact Hc].
Qed.

Lemma elem_of_join_with sep parts c : c ∈ join_with sep parts -> c ∈ sep \/ exists p, p ∈ parts /\ c ∈ p.
Proof.
  induction parts as [|p parts IH]; intros H; [by apply not_elem_of_nil in H|]. cbn in H. destruct parts as [|q parts].
  - right. exists p. split; [left | exact H].
  - apply elem_of_app in H as [H | [H | H]%elem_of_app]; [right; exists p; split; [left | done] | by left |].
    destruct (IH H) as [Hs | (r & Hr & Hc)]; [by left | right; exists r; split; [by right | done]].
Qed.

(** Nothing but what can stand on a line is left of a name. *)
Lemma clean_name_stays_on_its_line name : NL ∉ clean_name name.
Proof.
  unfold clean_name. destruct (is_empty _); [decided|].
  intros (i & H%list_elem_of_lookup_2 & _)%elem_of_take.
  apply elem_of_join_with in H as [H | (w & Hw & H)]; [by apply list_elem_of_singleton in H|].
  apply (elem_of_words w _ _ Hw), list_elem_of_fmap in H as (c & Hc & _). revert Hc.
  destruct (is_control c) eqn:E; [done|]. intros <-. by vm_compute in E.
Qed.

(** Four hex digits. *)
Definition proper_id (id : rstring) : Prop := length id = 4%nat /\ forallb is_hex_digit id = true.

Lemma proper_id_line id : proper_id id -> NL ∉ id.
Proof. intros [_ H] Hin. rewrite forallb_forall in H. apply list_elem_of_In, H in Hin. by vm_compute in Hin. Qed.

Lemma hex_digits_one_byte id : forallb is_hex_digit id = true -> str_len id = Z.of_nat (length id).
Proof.
  induction id as [|c id IH]; [done|]. cbn [forallb str_len foldr length]. intros [Hc Hid]%andb_true_iff. fold (str_len id).
  rewrite (IH Hid). assert (Hl : char_len c = 1); [|lia]. unfold char_len, is_hex_digit in *.
  rewrite !orb_true_iff, !andb_true_iff, !Z.leb_le in Hc. destruct (Z.ltb_spec c 128); lia.
Qed.

Lemma hex_id_proper value id : hex_id value = Some id -> proper_id id.
Proof.
  unfold hex_id. destruct value as [value|]; [|done]. cbv zeta. destruct (_ && _) eqn:E; [|done]. intros [= <-].
  apply andb_true_iff in E as [El%Z.eqb_eq Eh]. split; [|exact Eh]. rewrite hex_digits_one_byte in El by exact Eh. lia.
Qed.

Definition proper_mouse (d : MouseDevice) : Prop := proper_id (md_vendor d) /\ proper_id (md_product d).

Lemma identify_from_sysfs_proper sysfs d : identify_from_sysfs sysfs = Some d -> proper_mouse d.
Proof.
  unfold identify_from_sysfs. intros H. destruct sysfs; simplify_option_eq. split; by eapply hex_id_proper.
Qed.

Lemma elem_of_dedupe_loop seen devices d : d ∈ dedupe_loop seen devices -> d ∈ devices.
Proof.
  revert seen. induction devices as [|x devices IH]; intros seen H; [done|]. cbn in H.
  case_bool_decide; [right; by eapply IH|]. apply elem_of_cons in H as [-> | H]; [left | right; by eapply IH].
Qed.

Lemma unreadable_mice_proper by_id : Forall proper_mouse (unreadable_mice by_id).
Proof.
  apply Forall_forall. intros d. unfold unreadable_mice. destruct by_id as [entries|]; [|intros H; by apply not_elem_of_nil in H].
  intros H%elem_of_dedupe_loop. apply list_elem_of_omap in H as (e & _ & H). by eapply identify_from_sysfs_proper.
Qed.

(** ** Reading a rule

    A rule as udev(7) describes it: clauses with a comma between them, each a key, an operator and
    a value in quotes. *)

Inductive Operator : Type := Matches | Differs | Adds.

Record Clause : Type := mkClause { cl_key : rstring; cl_operator : Operator; cl_value : rstring }.

(** The string up to the first of some characters, and from there. *)
Fixpoint until (stop : char -> bool) (s : rstring) : rstring * rstring :=
  match s with
  | [] => ([], [])
  | c :: rest => if stop c then ([], s) else let '(word, tail) := until stop rest in (c :: word, tail)
  end.

Definition operator_char (c : char) : bool := bool_decide (c ∈ lit "=!+").

Definition read_operator (s : rstring) : option (Operator * rstring) :=
  match s with
  | 61 :: 61 :: rest => Some (Matches, rest)
  | 33 :: 61 :: rest => Some (Differs, rest)
  | 43 :: 61 :: rest => Some (Adds, rest)
  | _ => None
  end.

Definition read_clause (s : rstring) : option (Clause * rstring) :=
  let '(key, rest) := until operator_char s in
  '(operator, rest) ← read_operator rest;
  match rest with
  | 34 :: rest =>
      match until (fun c => c =? QUOTE) rest with
      | (value, _ :: rest) => Some (mkClause key operator value, rest)
      | (_, []) => None
      end
  | _ => None
  end.

(** A clause takes at least one character, so as many turns as characters are enough. *)
Fixpoint read_clauses (fuel : nat) (s : rstring) : option (list Clause) :=
  match fuel with
  | 0%nat => None
  | S fuel =>
      '(c, rest) ← read_clause s;
      match rest with
      | [] => Some [c]
      | 44 :: 32 :: rest => cs ← read_clauses fuel rest; Some (c :: cs)
      | _ => None
      end
  end.

Definition read_rule (line : rstring) : option (list Clause) := read_clauses (length line) line.

(** The rule that grants the user at the screen one mouse: of its vendor and product, the event
    devices that are a mouse and are not a keyboard. *)
Definition grants_one_mouse (d : MouseDevice) (rule : list Clause) : Prop :=
  rule = [mkClause (lit "SUBSYSTEM") Matches (lit "input"); mkClause (lit "KERNEL") Matches (lit "event*");
          mkClause (lit "ENV{ID_INPUT_MOUSE}") Matches (lit "1"); mkClause (lit "ENV{ID_INPUT_KEYBOARD}") Differs (lit "1");
          mkClause (lit "ATTRS{idVendor}") Matches (md_vendor d); mkClause (lit "ATTRS{idProduct}") Matches (md_product d);
          mkClause (lit "TAG") Adds (lit "uaccess")].

Lemma until_stops stop word c rest :
  forallb (fun x => negb (stop x)) word = true -> stop c = true -> until stop (word ++ c :: rest) = (word, c :: rest).
Proof.
  intros Hw Hc. induction word as [|x word IH]; cbn [app until]; [by rewrite Hc|]. cbn [forallb] in Hw.
  apply andb_true_iff in Hw as [Hx%negb_true_iff Hw]. by rewrite Hx, (IH Hw).
Qed.

Definition operator_text (o : Operator) : rstring := match o with Matches => lit "==" | Differs => lit "!=" | Adds => lit "+=" end.
Definition clause_text (c : Clause) : rstring := cl_key c ++ operator_text (cl_operator c) ++ quoted (cl_value c).

Definition readable_clause (c : Clause) : bool :=
  forallb (fun x => negb (operator_char x)) (cl_key c) && forallb (fun x => negb (x =? QUOTE)) (cl_value c).

Lemma read_clause_text c rest : readable_clause c = true -> read_clause (clause_text c ++ rest) = Some (c, rest).
Proof.
  destruct c as [key o value]. intros [Hk Hv]%andb_true_iff. cbn [cl_key cl_value] in *. unfold read_clause, clause_text, quoted.
  cbn [cl_key cl_operator cl_value]. rewrite <- !app_assoc.
  assert (exists x tail, operator_text o = x :: tail /\ operator_char x = true) as (x & tail & E & Hx).
  { destruct o; (eexists _, _; split; [reflexivity | by vm_compute]). }
  rewrite E. cbn [app]. rewrite until_stops by done. rewrite app_comm_cons, <- E.
  assert (read_operator (operator_text o ++ QUOTE :: (value ++ [QUOTE]) ++ rest) = Some (o, QUOTE :: value ++ QUOTE :: rest)) as ->.
  { rewrite <- app_assoc. by destruct o. }
  cbn [mbind option_bind]. change QUOTE with 34 at 1. cbv iota. by rewrite until_stops.
Qed.

(** The rule of a mouse, read back. *)
Lemma rule_line_grants d : proper_mouse d -> exists rule, read_rule (rule_line d) = Some rule /\ grants_one_mouse d rule.
Proof.
  intros [[Lv Hv] [Lp Hp]]. eexists. split; [|reflexivity]. unfold rule_line. destruct d as [name vendor product]. cbn [md_vendor md_product] in *.
  assert (Hex : forall id, forallb is_hex_digit id = true -> forallb (fun x => negb (x =? QUOTE)) id = true).
  { intros id H. rewrite !forallb_forall in *. intros x Hx. specialize (H x Hx). by destruct (Z.eqb_spec x QUOTE) as [-> |]. }
  apply Hex in Hv, Hp. clear Hex. set (cs := [_; _; _; _; _; _; _]).
  assert (Hread : forallb readable_clause cs = true).
  { unfold cs, readable_clause. cbn [forallb cl_key cl_value]. rewrite Hv, Hp. by vm_compute. }
  destruct vendor as [|v1 [|v2 [|v3 [|v4 []]]]]; try discriminate Lv. destruct product as [|p1 [|p2 [|p3 [|p4 []]]]]; try discriminate Lp.
  match goal with |- read_rule ?t = _ => replace t with (join_with (lit ", ") (map clause_text cs)) by reflexivity end.
  unfold read_rule. assert (Hfuel : (length cs <= length (join_with (lit ", ") (map clause_text cs)))%nat) by (vm_compute; lia).
  clear -Hread Hfuel. revert Hread Hfuel. generalize (length (join_with (lit ", ") (map clause_text cs))) as fuel.
  assert (Hne : cs <> []) by done. clearbody cs. induction cs as [|c cs IH]; [done|]. intros [|fuel] Hread Hfuel; [cbn in Hfuel; lia|].
  cbn [forallb] in Hread. apply andb_true_iff in Hread as [Hc Hcs]. cbn [length] in Hfuel. cbn [read_clauses]. destruct cs as [|c' cs].
  - cbn [map join_with]. by rewrite <- (app_nil_r (clause_text c)), read_clause_text.
  - change (join_with (lit ", ") (map clause_text (c :: c' :: cs)))
      with (clause_text c ++ lit ", " ++ join_with (lit ", ") (map clause_text (c' :: cs))).
    rewrite read_clause_text by done. cbn [mbind option_bind lit app]. cbv iota.
    rewrite IH; [done | done | done | lia].
Qed.

(** What a line of the file is: nothing, a comment, or a rule that grants one of the mice. *)
Definition harmless_line (devices : list MouseDevice) (line : rstring) : Prop :=
  line = [] \/ head line = Some HASH \/
  exists d rule, d ∈ devices /\ read_rule line = Some rule /\ grants_one_mouse d rule.

(** An entry of the directory that is a mouse's event device, cannot be opened and says who it is. *)
Definition blocked_mouse (by_id : option (list ByIdEntry)) (d : MouseDevice) : Prop :=
  exists entries e name, by_id = Some entries /\ e ∈ entries /\ be_name e = Some name /\
    (exists stem, name = stem ++ lit "-event-mouse") /\ be_opens e = false /\ identify_from_sysfs (be_sysfs e) = Some d.

Lemma ends_with_suffix suffix s : ends_with suffix s = true -> exists stem, s = stem ++ suffix.
Proof.
  induction s as [|c s IH]; cbn [ends_with]; rewrite orb_true_iff; (intros [<-%bool_decide_eq_true | H]; [by exists []|]); [done|].
  destruct (IH H) as [stem ->]. by exists (c :: stem).
Qed.

Lemma unreadable_mice_blocked by_id d : d ∈ unreadable_mice by_id -> blocked_mouse by_id d.
Proof.
  unfold unreadable_mice. destruct by_id as [entries|]; [|intros H; by apply not_elem_of_nil in H].
  intros H%elem_of_dedupe_loop. apply list_elem_of_omap in H as (e & He & Hd). repeat apply elem_of_retain in He as [He ?].
  destruct (be_name e) as [name|] eqn:En; [|done]. exists entries, e, name. split_and!; try done; [by apply ends_with_suffix | by apply negb_true_iff].
Qed.

Lemma rule_line_is_one_line d : proper_mouse d -> NL ∉ rule_line d.
Proof.
  intros [Hv%proper_id_line Hp%proper_id_line]. unfold rule_line, quoted.
  repeat (rewrite not_elem_of_app || rewrite not_elem_of_cons); split_and!; try done; decided.
Qed.

Lemma comment_lines_comment l : l ∈ comment_lines -> (NL ∉ l) /\ head l = Some HASH.
Proof.
  assert (H : forallb (fun l => bool_decide ((NL ∉ l) /\ head l = Some HASH)) comment_lines = true) by (vm_compute; reflexivity).
  intros Hl. rewrite forallb_forall in H. apply list_elem_of_In, H in Hl. by apply bool_decide_eq_true in Hl.
Qed.

(** C27: the file offered for the mice that cannot be opened grants access to those mice only:
    whatever the devices call themselves, each line of it is empty, a comment, or a rule that,
    read as udev reads it, tags for the user at the screen exactly the event devices that are
    a mouse, are not a keyboard, and carry the vendor and product ids, four hex digits each,
    of one of the mice listed with it; and each of those is an event device of the by-id
    directory that could not be opened. *)
Theorem no_device_name_becomes_a_rule by_id advice :
  udev_advice by_id = Some advice ->
  Forall (harmless_line (ua_devices advice)) (split_lines (ua_rule advice)) /\
  Forall (fun d => proper_mouse d /\ blocked_mouse by_id d) (ua_devices advice).
Proof.
  unfold udev_advice. destruct (is_empty _); [done|]. intros [= <-]. cbn [ua_rule ua_devices].
  pose proof (unreadable_mice_proper by_id) as Hp. pose proof (unreadable_mice_blocked by_id) as Hblocked.
  set (devices := unreadable_mice by_id) in *. clearbody devices.
  split; [|apply Forall_forall; intros d Hd; split; [by apply (proj1 (Forall_forall _ _) Hp) | by apply Hblocked]]. unfold udev_rule.
  assert (Hlines : forall l, l ∈ comment_lines ++ (devices ≫= device_lines) -> (NL ∉ l) /\ harmless_line devices l).
  { intros l [Hl | Hl]%elem_of_app.
    - destruct (comment_lines_comment l Hl). split; [done | by right; left].
    - apply list_elem_of_bind in Hl as (d & Hl & Hd). pose proof (proj1 (Forall_forall _ _) Hp d Hd) as Hdp.
      unfold device_lines in Hl. repeat rewrite elem_of_cons in Hl. destruct Hl as [-> | [-> | [-> | Hl]]].
      + split; [apply not_elem_of_nil | by left].
      + split; [|by right; left]. rewrite not_elem_of_app.
        split; [decided | apply clean_name_stays_on_its_line].
      + split; [by apply rule_line_is_one_line|]. right; right. exists d.
        destruct (rule_line_grants d Hdp) as (rule & H1 & H2). by exists rule.
      + by apply not_elem_of_nil in Hl. }
  rewrite split_unlines by (apply Forall_forall; intros l Hl; by apply Hlines).
  apply Forall_app. split; [apply Forall_forall; intros l Hl; by apply Hlines | constructor; [by left | done]].
Qed.

(** ** What is read *)

Lemma wanted_codes_bound bindings code action :
  (code, action) ∈ (wanted_codes bindings).1 -> exists accelerator, (accelerator, action) ∈ bindings /\ button_code accelerator = Some code.
Proof.
  induction bindings as [|[acc act] rest IH]; [intros H; by apply not_elem_of_nil in H|]. cbn.
  destruct (wanted_codes rest) as [wanted modified]. destruct (button_code acc) as [c|] eqn:E; cbn [fst] in *; intros H.
  - apply elem_of_cons in H as [[= -> ->] | H]; [exists acc; split; [left | done]|].
    destruct (IH H) as (a & Ha & Hc). exists a. split; [by right | done].
  - destruct (IH H) as (a & Ha & Hc). exists a. split; [by right | done].
Qed.

Lemma mouse_only_never_types keys axes code :
  capabilities_are_mouse_only keys axes = true -> KEY_1 <= code <= KEY_SLASH -> code ∉ keys.
Proof.
  unfold capabilities_are_mouse_only. cbv zeta. rewrite !andb_true_iff, negb_true_iff. intros [_ H] Hc Hin.
  assert (Ht : any (fun c => bool_decide (c ∈ keys)) typing_block = true); [|congruence].
  apply existsb_exists. exists code. split; [|by apply bool_decide_eq_true_2]. apply in_map_iff. exists (Z.to_nat (code - KEY_1)).
  unfold KEY_1, KEY_SLASH in *. split; [lia|]. apply in_seq. lia.
Qed.

Lemma consider_opens wanted device r :
  consider wanted device = Opened r ->
  rd_device r = device /\
  exists keys, in_keys device = Some keys /\ capabilities_are_mouse_only keys (in_axes device) = true /\
    rd_codes r <> [] /\ forall e, e ∈ rd_codes r -> e ∈ wanted /\ e.1 ∈ keys.
Proof.
  unfold consider, is_mouse_only. destruct (in_keys device) as [keys|]; [|done].
  destruct (capabilities_are_mouse_only keys (in_axes device)) eqn:E; [|done]. cbn [negb].
  destruct (is_empty _) eqn:Ee; [done|]. destruct (in_readable device); [|done]. intros [= <-]. cbn [rd_device rd_codes].
  split; [done|]. exists keys. split_and!; [done | done | by apply is_empty_false |].
  intros e [He Hk]%elem_of_retain. split; [done|]. by apply bool_decide_eq_true in Hk.
Qed.

Lemma start_readers sys bindings r :
  r ∈ (start sys bindings).1 ->
  exists device, device ∈ sys_devices sys /\ consider (wanted_codes bindings).1 device = Opened r.
Proof.
  unfold start. destruct (wanted_codes bindings) as [wanted modified]. cbn [fst].
  destruct (is_empty wanted); [intros H; by apply not_elem_of_nil in H|]. cbv zeta. destruct (is_empty _); [intros H; by apply not_elem_of_nil in H|].
  cbn [fst]. intros H. apply list_elem_of_omap in H as (c & Hc & H). apply list_elem_of_fmap in Hc as (device & -> & Hd).
  exists device. split; [exact Hd|]. by destruct (consider wanted device); [|injection H as ->|].
Qed.

(** C26: no device that is read can report a keystroke: a started reader's device has no key of the
    typing block, and whatever it delivers, an action is only taken for an event of a button that
    is bound to it, except that push to talk is let go when the device goes away. *)
Theorem no_reader_can_report_a_keystroke sys bindings r :
  r ∈ (start sys bindings).1 ->
  (forall keys code, in_keys (rd_device r) = Some keys -> KEY_1 <= code <= KEY_SLASH -> code ∉ keys) /\
  (forall fetched (action : Action) (pressed : bool), (action, pressed) ∈ (read_fetched (rd_codes r) fetched).1 ->
     (exists events code accelerator, fetched = Events events /\ Some (code, if pressed then 1 else 0) ∈ events /\
        (accelerator, action) ∈ bindings /\ button_code accelerator = Some code) \/
     (fetched = Fault /\ action = PushToTalkAction /\ pressed = false)).
Proof.
  intros (device & _ & H)%start_readers. apply consider_opens in H as (-> & keys & Hk & Hm & _ & Hcodes). split.
  { intros keys' code Hk'. rewrite Hk in Hk'. injection Hk' as <-. by apply mouse_only_never_types with (1 := Hm). }
  intros [events | |] action pressed Hin; cbn [read_fetched fst] in Hin; [| by apply not_elem_of_nil in Hin |].
  - left. apply list_elem_of_omap in Hin as (event & He & Ha). unfold event_action in Ha. destruct event as [[code value]|]; [|done].
    destruct (find (fun e => e.1 =? code) (rd_codes r)) as [[c act]|] eqn:Ef; [|done]. apply find_some in Ef as [Hf Hc%Z.eqb_eq]. cbn in Hc. subst c.
    destruct (Hcodes _ Hf) as [Hw _]. clear Hf. rename Hw into Hf. apply wanted_codes_bound in Hf as (acc & Hb & Hcode).
    destruct (Z.eqb_spec value 1) as [-> |]; [|destruct (Z.eqb_spec value 0) as [-> |]; [|done]]; injection Ha as <- <-;
      by exists events, code, acc.
  - right. apply list_elem_of_fmap in Hin as (e & [= -> ->] & _). done.
Qed.

(** ** On a small machine *)

Module Sample_mice.

Definition buttons : gset Z := {[ BTN_LEFT; BTN_RIGHT; BTN_SIDE ]}.
Definition axes : gset Z := {[ REL_X; REL_Y ]}.
Definition mouse : InputDevice := mkInput (Some buttons) (Some axes) (Some (lit "A mouse")) 1189 32778 true.
(** A keyboard with a pointing stick: both on one node. *)
Definition trackpoint : InputDevice := mkInput (Some (buttons ∪ {[ 30; 31 ]})) (Some axes) (Some (lit "A keyboard")) 1 2 true.
Definition bindings : list (rstring * Action) := [(lit "Mouse4", PushToTalkAction)].

(** A mouse whose name carries a rule of its own. *)
Definition hostile_files (file : rstring) : option rstring :=
  if bool_decide (file = lit "name") then Some (lit "Mouse" ++ [NL] ++ lit "KERNEL==event*, MODE=0666")
  else if bool_decide (file = lit "id/vendor") then Some (lit "04A5" ++ [NL])
  else if bool_decide (file = lit "id/product") then Some (lit "800a" ++ [NL]) else None.
Definition hostile : ByIdEntry := mkEntry (Some (lit "usb-evil-event-mouse")) false (Some hostile_files).
Definition system : InputSystem := mkSystem [trackpoint; mouse] (Some [hostile]).

Example only_the_mouse_is_opened : (start system bindings).1 = [mkReader mouse [(BTN_SIDE, PushToTalkAction)]].
Proof. vm_compute. reflexivity. Qed.

(** The name carries a rule of its own; what is offered is one rule, for that mouse. *)
Lemma no_device_name_becomes_a_rule_witness :
  exists advice, udev_advice (Some [hostile]) = Some advice /\
    omap read_rule (split_lines (ua_rule advice)) =
      [[mkClause (lit "SUBSYSTEM") Matches (lit "input"); mkClause (lit "KERNEL") Matches (lit "event*");
        mkClause (lit "ENV{ID_INPUT_MOUSE}") Matches (lit "1"); mkClause (lit "ENV{ID_INPUT_KEYBOARD}") Differs (lit "1");
        mkClause (lit "ATTRS{idVendor}") Matches (lit "04a5"); mkClause (lit "ATTRS{idProduct}") Matches (lit "800a");
        mkClause (lit "TAG") Adds (lit "uaccess")]] /\
    Forall (harmless_line (ua_devices advice)) (split_lines (ua_rule advice)).
Proof.
  eexists. split; [vm_compute; reflexivity|]. split; [vm_compute; reflexivity|].
  refine (proj1 (no_device_name_becomes_a_rule (Some [hostile]) _ _)). vm_compute. reflexivity.
Defined.

Lemma no_reader_can_report_a_keystroke_witness :
  mkReader mouse [(BTN_SIDE, PushToTalkAction)] ∈ (start system bindings).1 /\ 30 ∉ buttons.
Proof.
  assert (H : mkReader mouse [(BTN_SIDE, PushToTalkAction)] ∈ (start system bindings).1)
    by (apply (list_elem_of_lookup_2 _ 0); vm_compute; reflexivity).
  split; [exact H|]. refine (proj1 (no_reader_can_report_a_keystroke system bindings _ H) buttons 30 _ _); [reflexivity|].
  unfold KEY_1, KEY_SLASH. lia.
Defined.

End Sample_mice.
