(* ===== verification/Dto.v ===== *)
(** * What crosses to the interface ([apps/desktop/src-tauri/src/dto.rs])

    The shapes the application hands to its web view, and the translation of a connection's
    events and failures into them.  The numbers keep their widths, an optional field is an
    [option], and a name the interface matches on is the string the source writes. *)

From S2P Require Export Mirror.
From S2P Require Import Vault Devices.

Abbreviation SessionId := Z (only parsing).

(** ** Identities *)

Record IdentityDto : Type := mkIdentityDto {
  idd_fingerprint : rstring; idd_short : rstring; idd_security_level : Z; idd_nickname : rstring }.

Record VaultEntryDto : Type := mkVaultEntryDto {
  ved_fingerprint : rstring; ved_short : rstring; ved_security_level : Z; ved_nickname : rstring; ved_label : rstring }.

Record IdentityListDto : Type := mkIdentityListDto { idl_active : rstring; idl_identities : list VaultEntryDto }.

(** ** The channel tree and its members *)

Record ChannelDto : Type := mkChannelDto {
  chd_id : ChannelId; chd_parent : option ChannelId; chd_name : rstring; chd_topic : rstring; chd_has_voice : bool;
  chd_has_text : bool; chd_order : Z; chd_max_users : option Z }.

(** [From<&Channel>] *)
Definition channel_dto (channel : Channel) : ChannelDto :=
  mkChannelDto (ch_id channel) (ch_parent channel) (ch_name channel) (ch_topic channel) (has_voice (ch_kind channel))
    (has_text (ch_kind channel)) (ch_order channel) (ch_max_users channel).

Record UserDto : Type := mkUserDto {
  ud_client_id : ClientId; ud_nickname : rstring; ud_fingerprint : rstring; ud_short : rstring; ud_security_level : Z;
  ud_channel : option ChannelId; ud_self_muted : bool; ud_self_deafened : bool; ud_server_muted : bool;
  ud_roles : list RoleId }.

Record BanDto : Type := mkBanDto {
  bd_fingerprint : rstring; bd_short : rstring; bd_reason : rstring; bd_until : option Z; bd_issued_by_short : rstring;
  bd_issued_at : Z }.

Record MessageDto : Type := mkMessageDto {
  md_id : MessageId; md_channel : ChannelId; md_author_nickname : rstring; md_author_fingerprint : rstring;
  md_content : rstring; md_sent_at : Z }.

Record SessionDto : Type := mkSessionDto {
  sd_client_id : ClientId; sd_server_name : rstring; sd_server_fingerprint : rstring; sd_default_channel : option ChannelId;
  sd_channels : list ChannelDto; sd_users : list UserDto }.

(** ** Connections *)

Record ConnectionDto : Type := mkConnectionDto {
  cd_permissions : MyPermissionsDto; cd_roles : list RoleDto; cd_session : SessionId; cd_info : SessionDto; cd_identity : rstring }.

Record SpeakingDto : Type := mkSpeakingDto { spd_session : option SessionId; spd_clients : list ClientId }.

Definition SpeakingDto_default : SpeakingDto := mkSpeakingDto None [].

Record SessionListDto : Type := mkSessionListDto { sld_sessions : list ConnectionDto; sld_voice : option SessionId }.

Record AudioDeviceDto : Type := mkAudioDeviceDto {
  add_name : rstring; add_is_default : bool; add_usable : bool; add_sample_rate : option Z }.

(** [From<&DeviceInfo>] *)
Definition audio_device_dto (device : DeviceInfo) : AudioDeviceDto :=
  mkAudioDeviceDto (di_name device) (di_default device) (di_usable device) (di_rate device).

(** ** Events *)

Inductive EventDto : Type :=
| DUserJoined (user : UserDto)
| DUserLeft (client_id : ClientId) (reason : rstring)
| DUserMoved (client_id : ClientId) (channel : option ChannelId)
| DUserUpdated (user : UserDto)
| DMessage (message : MessageDto)
| DHistory (channel : ChannelId) (messages : list MessageDto) (reached_start : bool)
| DTyping (client_id : ClientId) (channel : ChannelId)
| DChannelCreated (channel : ChannelDto)
| DChannelUpdated (channel : ChannelDto)
| DChannelRemoved (channel_id : ChannelId)
| DServerError (code detail : rstring)
| DBanList (bans : list BanDto)
| DCommandFailed (nonce : Z) (code detail : rstring)
| DRolesChanged (roles : list RoleDto)
| DPermissionsChanged (permissions : MyPermissionsDto)
| DDisconnected (reason : rstring).

Definition error_code_str (code : ErrorCode) : rstring :=
  match code with
  | NotAuthenticated => lit "notAuthenticated"
  | NoSuchChannel => lit "noSuchChannel"
  | NoSuchMessage => lit "noSuchMessage"
  | ChannelFull => lit "channelFull"
  | ChannelPasswordRequired => lit "channelPasswordRequired"
  | NotPermitted => lit "notPermitted"
  | RateLimited => lit "rateLimited"
  | MessageTooLong => lit "messageTooLong"
  | Malformed => lit "malformed"
  | Internal => lit "internal"
  end.

(** ** Failures *)

Record IdentityChangedDto : Type := mkIdentityChangedDto { icd_address_key : rstring; icd_previous : rstring; icd_current : rstring }.

Record ConnectFailureDto : Type := mkConnectFailureDto { cfd_message : rstring; cfd_identity_changed : option IdentityChangedDto }.

(** [From<String>] *)
Definition failure_of_text (message : rstring) : ConnectFailureDto := mkConnectFailureDto message None.

Section Dto.
Context {C : Crypto}.

Definition identity_dto (ident : Identity) (nickname : rstring) : IdentityDto :=
  mkIdentityDto (fp_to_string (identity_fingerprint ident)) (fp_short (identity_fingerprint ident))
    (identity_security_level ident) nickname.

Definition vault_entry_dto (entry : VaultEntry) : VaultEntryDto :=
  mkVaultEntryDto (fp_to_string (identity_fingerprint (ve_identity entry))) (fp_short (identity_fingerprint (ve_identity entry)))
    (identity_security_level (ve_identity entry)) (ve_nickname entry) (ve_label entry).

(** [From<&UserInfo>] *)
Definition user_dto (user : UserInfo) : UserDto :=
  mkUserDto (u_client_id user) (u_nickname user) (fp_to_string (user_fingerprint user)) (fp_short (user_fingerprint user))
    (public_security_level (u_identity user)) (u_channel user) (self_muted (u_voice user)) (self_deafened (u_voice user))
    (server_muted (u_voice user)) (u_roles user).

(** [From<&BanEntry>] *)
Definition ban_dto (ban : BanEntry) : BanDto :=
  mkBanDto (fp_to_string (ban_fingerprint ban)) (fp_short (ban_fingerprint ban)) (ban_reason ban) (ban_until ban)
    (fp_short (ban_issued_by ban)) (ban_issued_at ban).

(** [From<&ChatMessage>] *)
Definition message_dto (message : ChatMessage) : MessageDto :=
  mkMessageDto (m_id message) (m_channel message) (m_author_nickname message) (fp_short (m_author_fingerprint message))
    (m_content message) (m_sent_at message).

(** [From<&SessionInfo>] *)
Definition session_dto (session : SessionInfo) : SessionDto :=
  mkSessionDto (si_client_id session) (si_server_name session) (fp_to_string (fingerprint (si_server_identity session)))
    (si_default_channel session) (map channel_dto (si_channels session)) (map user_dto (si_users session)).

Definition from_event (event : ClientEvent) : option EventDto :=
  match event with
  | EvUserJoined user => Some (DUserJoined (user_dto user))
  | EvUserLeft client reason =>
      Some (DUserLeft client (match reason with Kicked => lit "kicked" | Banned => lit "banned" | _ => lit "left" end))
  | EvUserMoved client _ to => Some (DUserMoved client to)
  | EvUserUpdated user => Some (DUserUpdated (user_dto user))
  | EvMessagePosted message _ => Some (DMessage (message_dto message))
  | EvHistory channel messages reached_start => Some (DHistory channel (map message_dto messages) reached_start)
  | EvTyping client channel => Some (DTyping client channel)
  | EvChannelCreated channel => Some (DChannelCreated (channel_dto channel))
  | EvChannelUpdated channel => Some (DChannelUpdated (channel_dto channel))
  | EvChannelRemoved id => Some (DChannelRemoved id)
  | EvServerError code detail => Some (DServerError (error_code_str code) detail)
  | EvDisconnected reason => Some (DDisconnected reason)
  | EvBanList bans => Some (DBanList (map ban_dto bans))
  | EvCommandFailed nonce code detail => Some (DCommandFailed nonce (error_code_str code) detail)
  | EvRoleCreated _ | EvRoleUpdated _ | EvRoleDeleted _ | EvRolesReordered _ | EvAck _ | EvVoice _ | EvVoiceActivity _ _
  | EvPong _ | EvMessageEdited _ _ _ | EvMessageDeleted _ => None
  end.

(** [From<&ConnectError>]; [text] is how an error is put in words. *)
Definition connect_failure_dto (text : ConnectError -> rstring) (error : ConnectError) : ConnectFailureDto :=
  mkConnectFailureDto (text error)
    (match error with
     | CeIdentityChanged address expected actual =>
         Some (mkIdentityChangedDto address (fp_to_string expected) (fp_to_string actual))
     | _ => None
     end).

End Dto.

(** The interface tells every code apart. *)
Lemma error_codes_are_told_apart a b : error_code_str a = error_code_str b -> a = b.
Proof. destruct a, b; intros H; try reflexivity; by vm_compute in H. Qed.
