(* ===== verification/App.v ===== *)
(** * The application's state ([apps/desktop/src-tauri/src/state.rs])

    What the application keeps: the identities, the settings, the live connections, which of
    them holds the microphone, and the audio engine.  Values the source shares through an [Arc]
    (clients, permission mirrors, engines) live in stores of the state and are named by their
    place there; each lock the source takes is one step of a [prog] over the whole state.  The
    pumps of [bridge.rs] and the commands of [commands.rs] are programs over the same state, in
    [Bridge] and [Commands]. *)

From S2P Require Export Dto Engine.
From S2P Require Import Keystore Devices Vault Settings Bookmarks.

(** ** The pieces *)

Record ActiveSession : Type := mkActive {
  as_id : SessionId; as_client : Z; as_event_pump : Z; as_perms : Z; as_address : rstring; as_identity : rstring }.

(** [VoiceState] of the application; the protocol has a type of that name. *)
Record VoiceButtons : Type := mkButtons { vb_muted : bool; vb_deafened : bool }.

Definition VoiceButtons_default : VoiceButtons := mkButtons false false.

(** What is emitted to the web view. *)
Inductive UiEvent : Type :=
| SessionEvent (session : SessionId) (event : EventDto)
| VoiceStateEvent (voice : VoiceButtons)
| MiningEvent (best_level hashes : Z) (done : bool).

(** A thread or task that was started, and how far it is: what its closure captured, and
    whether it was scheduled yet. *)
Inductive TaskKind : Type :=
| EventPump (session : SessionId) (perms : Z)
| CapturePump (engine : Z).

Inductive TaskState : Type := Spawned | Running | Finished.

Record Task : Type := mkTask { task_kind : TaskKind; task_state : TaskState }.

(** The receiving end of an engine's frame channel; it is closed once the engine is dropped. *)
Record FrameChannel : Type := mkFrames { fc_queue : list CapturedFrame; fc_open : bool }.

Record AppPaths : Type := mkPaths { vault_path : Path; trust_path : Path; bookmarks_path : Path; settings_path : Path }.

(** What the system says when an engine is started: the audio thread's report, and whether the
    thread of its capture pump is granted. *)
Record AudioStart : Type := mkStart { devices_report : option (AudioError + unit); pump_granted : bool }.

(** How the application's errors are put in words: the [Display] of each error type, and the
    [Debug] of a string. *)
Class AppTexts : Type := {
  vault_error_text : VaultError -> rstring;
  trust_error_text : TrustError -> rstring;
  bookmark_error_text : BookmarkError -> rstring;
  settings_error_text : SettingsError -> rstring;
  identity_error_text : IdentityError -> rstring;
  connect_error_text : ConnectError -> rstring;
  audio_error_text : AudioError -> rstring;
  device_error_text : DeviceError -> rstring;
  debug_text : rstring -> rstring }.

Definition gone : rstring := lit "That connection is no longer open.".

Section App.
Context {C : Crypto} {M : Libm} {O : Opus} {HO : HashOrder}.

(** [AppState], with the stores behind its [Arc]s and what lies around it: the disk, the clock,
    what the web view was told, the counter of command nonces.  [ap_issued] and
    [ap_mirrored] are history variables: the client each session id was handed out for, and the
    session id each permission mirror was made for. *)
Record App : Type := mkApp {
  ap_vault : Vault; ap_settings : Settings; ap_paths : AppPaths; ap_disk : Disk; ap_clock : Z;
  ap_next_ref : Z; ap_clients : gmap Z Client; ap_mirrors : gmap Z PermMirror; ap_engines : gmap Z AudioEngine;
  ap_frames : gmap Z FrameChannel; ap_tasks : gmap Z Task;
  ap_engine : option Z; ap_sessions : gmap SessionId ActiveSession; ap_next_session : Z; ap_voice : option (SessionId * Z);
  ap_nonce : Z; ap_emitted : list UiEvent; ap_issued : gmap SessionId Z; ap_mirrored : gmap Z SessionId }.

#[local] Abbreviation aprog A := (prog App A).

(** ** Updates, one field each *)

Definition up_vault (f : Vault -> Vault) (a : App) : App :=
  mkApp (f (ap_vault a)) (ap_settings a) (ap_paths a) (ap_disk a) (ap_clock a) (ap_next_ref a) (ap_clients a) (ap_mirrors a)
    (ap_engines a) (ap_frames a) (ap_tasks a) (ap_engine a) (ap_sessions a) (ap_next_session a) (ap_voice a) (ap_nonce a)
    (ap_emitted a) (ap_issued a) (ap_mirrored a).
Definition up_settings (f : Settings -> Settings) (a : App) : App :=
  mkApp (ap_vault a) (f (ap_settings a)) (ap_paths a) (ap_disk a) (ap_clock a) (ap_next_ref a) (ap_clients a) (ap_mirrors a)
    (ap_engines a) (ap_frames a) (ap_tasks a) (ap_engine a) (ap_sessions a) (ap_next_session a) (ap_voice a) (ap_nonce a)
    (ap_emitted a) (ap_issued a) (ap_mirrored a).
Definition put_disk (d : Disk) (a : App) : App :=
  mkApp (ap_vault a) (ap_settings a) (ap_paths a) d (ap_clock a) (ap_next_ref a) (ap_clients a) (ap_mirrors a)
    (ap_engines a) (ap_frames a) (ap_tasks a) (ap_engine a) (ap_sessions a) (ap_next_session a) (ap_voice a) (ap_nonce a)
    (ap_emitted a) (ap_issued a) (ap_mirrored a).
Definition up_clients (f : gmap Z Client -> gmap Z Client) (a : App) : App :=
  mkApp (ap_vault a) (ap_settings a) (ap_paths a) (ap_disk a) (ap_clock a) (ap_next_ref a) (f (ap_clients a)) (ap_mirrors a)
    (ap_engines a) (ap_frames a) (ap_tasks a) (ap_engine a) (ap_sessions a) (ap_next_session a) (ap_voice a) (ap_nonce a)
    (ap_emitted a) (ap_issued a) (ap_mirrored a).
Definition up_mirrors (f : gmap Z PermMirror -> gmap Z PermMirror) (a : App) : App :=
  mkApp (ap_vault a) (ap_settings a) (ap_paths a) (ap_disk a) (ap_clock a) (ap_next_ref a) (ap_clients a) (f (ap_mirrors a))
    (ap_engines a) (ap_frames a) (ap_tasks a) (ap_engine a) (ap_sessions a) (ap_next_session a) (ap_voice a) (ap_nonce a)
    (ap_emitted a) (ap_issued a) (ap_mirrored a).
Definition up_engines (f : gmap Z AudioEngine -> gmap Z AudioEngine) (a : App) : App :=
  mkApp (ap_vault a) (ap_settings a) (ap_paths a) (ap_disk a) (ap_clock a) (ap_next_ref a) (ap_clients a) (ap_mirrors a)
    (f (ap_engines a)) (ap_frames a) (ap_tasks a) (ap_engine a) (ap_sessions a) (ap_next_session a) (ap_voice a) (ap_nonce a)
    (ap_emitted a) (ap_issued a) (ap_mirrored a).
Definition up_frames (f : gmap Z FrameChannel -> gmap Z FrameChannel) (a : App) : App :=
  mkApp (ap_vault a) (ap_settings a) (ap_paths a) (ap_disk a) (ap_clock a) (ap_next_ref a) (ap_clients a) (ap_mirrors a)
    (ap_engines a) (f (ap_frames a)) (ap_tasks a) (ap_engine a) (ap_sessions a) (ap_next_session a) (ap_voice a) (ap_nonce a)
    (ap_emitted a) (ap_issued a) (ap_mirrored a).
Definition up_tasks (f : gmap Z Task -> gmap Z Task) (a : App) : App :=
  mkApp (ap_vault a) (ap_settings a) (ap_paths a) (ap_disk a) (ap_clock a) (ap_next_ref a) (ap_clients a) (ap_mirrors a)
    (ap_engines a) (ap_frames a) (f (ap_tasks a)) (ap_engine a) (ap_sessions a) (ap_next_session a) (ap_voice a) (ap_nonce a)
    (ap_emitted a) (ap_issued a) (ap_mirrored a).
Definition put_engine (e : option Z) (a : App) : App :=
  mkApp (ap_vault a) (ap_settings a) (ap_paths a) (ap_disk a) (ap_clock a) (ap_next_ref a) (ap_clients a) (ap_mirrors a)
    (ap_engines a) (ap_frames a) (ap_tasks a) e (ap_sessions a) (ap_next_session a) (ap_voice a) (ap_nonce a)
    (ap_emitted a) (ap_issued a) (ap_mirrored a).
Definition up_sessions (f : gmap SessionId ActiveSession -> gmap SessionId ActiveSession) (a : App) : App :=
  mkApp (ap_vault a) (ap_settings a) (ap_paths a) (ap_disk a) (ap_clock a) (ap_next_ref a) (ap_clients a) (ap_mirrors a)
    (ap_engines a) (ap_frames a) (ap_tasks a) (ap_engine a) (f (ap_sessions a)) (ap_next_session a) (ap_voice a) (ap_nonce a)
    (ap_emitted a) (ap_issued a) (ap_mirrored a).
Definition put_voice (v : option (SessionId * Z)) (a : App) : App :=
  mkApp (ap_vault a) (ap_settings a) (ap_paths a) (ap_disk a) (ap_clock a) (ap_next_ref a) (ap_clients a) (ap_mirrors a)
    (ap_engines a) (ap_frames a) (ap_tasks a) (ap_engine a) (ap_sessions a) (ap_next_session a) v (ap_nonce a)
    (ap_emitted a) (ap_issued a) (ap_mirrored a).
Definition app_emit (e : UiEvent) (a : App) : App :=
  mkApp (ap_vault a) (ap_settings a) (ap_paths a) (ap_disk a) (ap_clock a) (ap_next_ref a) (ap_clients a) (ap_mirrors a)
    (ap_engines a) (ap_frames a) (ap_tasks a) (ap_engine a) (ap_sessions a) (ap_next_session a) (ap_voice a) (ap_nonce a)
    (ap_emitted a ++ [e]) (ap_issued a) (ap_mirrored a).

(** [fetch_add] on the static of [admin_nonce]. *)
Definition admin_nonce (a : App) : Z * App :=
  (ap_nonce a,
   mkApp (ap_vault a) (ap_settings a) (ap_paths a) (ap_disk a) (ap_clock a) (ap_next_ref a) (ap_clients a) (ap_mirrors a)
     (ap_engines a) (ap_frames a) (ap_tasks a) (ap_engine a) (ap_sessions a) (ap_next_session a) (ap_voice a)
     (wrap 64 (ap_nonce a + 1)) (ap_emitted a) (ap_issued a) (ap_mirrored a)).

(** A fresh place in the stores. *)
Definition fresh_ref (a : App) : Z * App :=
  (ap_next_ref a,
   mkApp (ap_vault a) (ap_settings a) (ap_paths a) (ap_disk a) (ap_clock a) (ap_next_ref a + 1) (ap_clients a) (ap_mirrors a)
     (ap_engines a) (ap_frames a) (ap_tasks a) (ap_engine a) (ap_sessions a) (ap_next_session a) (ap_voice a) (ap_nonce a)
     (ap_emitted a) (ap_issued a) (ap_mirrored a)).

(** [next_session_id], and the [Arc::new] of the client that gets the id: an atomic counter and
    a thing nobody else holds yet, so one step. *)
Definition next_session_id (client : Client) (a : App) : (SessionId * Z) * App :=
  let '(r, a) := fresh_ref a in
  let id := ap_next_session a in
  ((id, r),
   mkApp (ap_vault a) (ap_settings a) (ap_paths a) (ap_disk a) (ap_clock a) (ap_next_ref a) (<[r := client]> (ap_clients a))
     (ap_mirrors a) (ap_engines a) (ap_frames a) (ap_tasks a) (ap_engine a) (ap_sessions a) (wrap 64 (id + 1)) (ap_voice a)
     (ap_nonce a) (ap_emitted a) (<[id := r]> (ap_issued a)) (ap_mirrored a)).

Definition made_for (r : Z) (id : SessionId) (a : App) : App :=
  mkApp (ap_vault a) (ap_settings a) (ap_paths a) (ap_disk a) (ap_clock a) (ap_next_ref a) (ap_clients a) (ap_mirrors a)
    (ap_engines a) (ap_frames a) (ap_tasks a) (ap_engine a) (ap_sessions a) (ap_next_session a) (ap_voice a) (ap_nonce a)
    (ap_emitted a) (ap_issued a) (<[r := id]> (ap_mirrored a)).

(** The [Arc::new] of a connection's mirror; [id] only goes into the history. *)
Definition new_mirror (id : SessionId) (m : PermMirror) (a : App) : Z * App :=
  let '(r, a) := fresh_ref a in (r, made_for r id (up_mirrors (<[r := m]>) a)).

Definition spawn (kind : TaskKind) (a : App) : Z * App :=
  let '(r, a) := fresh_ref a in (r, up_tasks (<[r := mkTask kind Spawned]>) a).

(** [JoinHandle::abort], or running to the end. *)
Definition finish_task (t : Z) : App -> App := up_tasks (alter (fun x => mkTask (task_kind x) Finished) t).

Definition on_client {R} (c : Z) (f : Client -> R * Client) (default : R) (a : App) : R * App :=
  match ap_clients a !! c with
  | Some client => let '(r, client) := f client in (r, up_clients (<[c := client]>) a)
  | None => (default, a)
  end.

Definition tell_client (c : Z) (f : Client -> bool * Client) (a : App) : App := (on_client c f false a).2.
Definition change_client (c : Z) (f : Client -> Client) : App -> App := up_clients (alter f c).
Definition change_engine (e : Z) (f : AudioEngine -> AudioEngine) : App -> App := up_engines (alter f e).

Definition mirror_at (m : Z) (a : App) : option PermMirror := ap_mirrors a !! m.

(** ** The voice route ([VoiceRoute]) *)

Definition route_client (a : App) : option Z := snd <$> ap_voice a.
Definition route_session (a : App) : option SessionId := fst <$> ap_voice a.
Definition route_set (id : SessionId) (client : Z) : App -> App := put_voice (Some (id, client)).
Definition route_clear : App -> App := put_voice None.

Definition clear_if (id : SessionId) (a : App) : bool * App :=
  match ap_voice a with
  | Some (current, _) => if current =? id then (true, put_voice None a) else (false, a)
  | None => (false, a)
  end.

(** ** The engine slot ([EngineSlot]) *)

Definition current_engine (a : App) : option Z := ap_engine a.
Definition replace_engine (e : option Z) (a : App) : option Z * App := (ap_engine a, put_engine e a).

(** Dropping an engine stops its streams and closes its frame channel. *)
Definition drop_engine (e : Z) : App -> App := up_frames (alter (fun ch => mkFrames (fc_queue ch) false) e).

(** [AudioEngine::start], with the store place of the engine it makes. *)
Definition start_engine (config : EngineConfig) (opened : option (AudioError + unit)) (a : App) : (AudioError + Z) * App :=
  match engine_start config opened with
  | inl e => (inl e, a)
  | inr engine => let '(r, a) := fresh_ref a in (inr r, up_engines (<[r := engine]>) a)
  end.

(** [take_frames]: the channel is in the taker's hands from here on. *)
Definition take_engine_frames (e : Z) (a : App) : bool * App :=
  match ap_engines a !! e with
  | None => (false, a)
  | Some engine =>
      match take_frames engine with
      | (Some queue, engine) => (true, up_frames (<[e := mkFrames queue true]>) (up_engines (<[e := engine]>) a))
      | (None, engine) => (false, a)
      end
  end.

#[local] Open Scope prog_scope.

Section Methods.
Context {T : AppTexts} {KJ : Json StoredIdentity} {B : Base64} {K : Ciphers} {VJ : VaultJson} {SJ : Json Settings}
  {TJ : Json StoreFile} {BJ : Json StoredBookmarks}.

(** A failure is the text that is shown. *)
Definition and_then_app {X Y E} (p : aprog (E + X)) (k : X -> aprog (E + Y)) : aprog (E + Y) :=
  bind p (fun r => match r with inl e => Ret (inl e) | inr x => k x end).
#[local] Notation "x <-@ p ;; k" := (and_then_app p (fun x => k)) (at level 100, p at next level, right associativity) : prog_scope.

(** File work, its error in words. The vault's own lock is held through its saves, which takes
    some interleavings away and adds none. *)
Definition on_disk {E X} (text : E -> rstring) (p : fprog E X) : aprog (rstring + X) :=
  r <- zoom ap_disk put_disk p;; Ret (match r with inl e => inl (text e) | inr x => inr x end).

Definition trust_store : aprog (rstring + TrustStore) :=
  path <- get (fun a => trust_path (ap_paths a));; on_disk trust_error_text (trust_open path).

Definition bookmarks : aprog (rstring + Bookmarks) :=
  path <- get (fun a => bookmarks_path (ap_paths a));; on_disk bookmark_error_text (bookmarks_open path).

(** [nonce] is what a sealed file is sealed with. *)
Definition persist_vault (nonce : bytes) : aprog (rstring + unit) :=
  v <- get ap_vault;; on_disk vault_error_text (vault_save v nonce).

Definition vault_is_encrypted : aprog bool := get (fun a => is_encrypted (ap_vault a)).

Definition set_vault_passphrase (passphrase : option rstring) (salt nonce : bytes) (dr : Drawn) : aprog (rstring + unit) :=
  v <- get ap_vault;;
  r <- zoom ap_disk put_disk (match passphrase with
         | Some p => set_passphrase v p salt nonce dr
         | None => remove_passphrase v nonce dr
         end);;
  update (up_vault (fun _ => r.2));;
  Ret (match r.1 with inl e => inl (vault_error_text e) | inr tt => inr tt end).

(** [active_identity]; the panic of [active()] is [None]. *)
Definition active_identity (a : App) : option Identity := ve_identity <$> active (ap_vault a).
Definition active_nickname (a : App) : option rstring := ve_nickname <$> active (ap_vault a).

(** The copied key, the nickname to present, and the fingerprint to record. *)
Definition identity_for (fp : option rstring) (a : App) : option (rstring + Identity * rstring * rstring) :=
  let found := match fp with Some fp => vault_get (ap_vault a) fp | None => active (ap_vault a) end in
  match found, fp with
  | Some entry, _ => Some (inr (ve_identity entry, ve_nickname entry, entry_fp entry))
  | None, Some fp => Some (inl (lit "No identity with fingerprint " ++ fp ++ lit "."))
  | None, None => None
  end.

Definition persist_settings : aprog (rstring + unit) :=
  settings <- get ap_settings;;
  path <- get (fun a => settings_path (ap_paths a));;
  on_disk settings_error_text (settings_save path settings).

Definition set_connections (open : list OpenConnection) (s : Settings) : Settings := mkSettings (st_audio s) (st_keybinds s) open.

(** The failure to write is only logged. *)
Definition remember_open_connections : aprog unit :=
  open <- get (fun a => map (fun e => mkOpen (as_address e.2) (as_identity e.2)) (hash_iter (ap_sessions a)));;
  update (up_settings (set_connections open));;
  _saved <- persist_settings;;
  Ret tt.

(** ** Audio *)

Definition clear_current_speakers : aprog unit :=
  e <- get current_engine;;
  match e with Some e => update (change_engine e engine_clear_speakers) | None => Ret tt end.

Definition engine_config (audio : AudioSettings) : EngineConfig :=
  mkConfig (au_input_device audio) (au_output_device audio) (au_bitrate audio) (Settings.gate_mode (au_gate_mode audio)).

Definition read_engine {X} (default : X) (e : Z) (f : AudioEngine -> X) : aprog X :=
  get (fun a => match ap_engines a !! e with Some engine => f engine | None => default end).

(** The mute and deafen of the engine that runs, if one does. *)
Definition carried_controls (old : option Z) : aprog (option (bool * bool)) :=
  match old with
  | Some old =>
      muted <- read_engine false old is_muted;;
      deafened <- read_engine false old engine_is_deafened;;
      Ret (Some (muted, deafened))
  | None => Ret None
  end.

(** [spawn_capture_pump], on the receiver of [engine]; false when the system grants no thread, which
    is a panic: the receiver goes with it. *)
Definition spawn_capture_pump (granted : bool) (engine : Z) : aprog bool :=
  if granted then _pump <- call (spawn (CapturePump engine));; Ret true
  else update (drop_engine engine);; Ret false.

(** The panics: an engine that does not own its frame stream any more, and a refused pump. What was
    replaced is dropped either way. *)
Definition start_audio (opened : AudioStart) : aprog (rstring + Z) :=
  audio <- get (fun a => st_audio (ap_settings a));;
  old <- get current_engine;;
  carried <- carried_controls old;;
  started <- call (start_engine (engine_config audio) (devices_report opened));;
  match started with
  | inl e => Ret (inl (lit "The audio devices could not be opened: " ++ audio_error_text e))
  | inr engine =>
      match carried with
      | Some (muted, deafened) =>
          update (change_engine engine (engine_set_muted muted));; update (change_engine engine (engine_set_deafened deafened))
      | None => Ret tt
      end;;
      taken <- call (take_engine_frames engine);;
      if (taken : bool) then
        previous <- call (replace_engine (Some engine));;
        pumped <- spawn_capture_pump (pump_granted opened) engine;;
        match previous with Some previous => update (drop_engine previous) | None => Ret tt end;;
        if (pumped : bool) then Ret (inr engine) else Hang
      else Hang
  end.

Definition ensure_audio (opened : AudioStart) : aprog (rstring + Z) :=
  current <- get current_engine;;
  match current with Some engine => Ret (inr engine) | None => start_audio opened end.

Definition stop_audio : aprog unit :=
  previous <- call (replace_engine None);;
  match previous with Some previous => update (drop_engine previous) | None => Ret tt end.

(** ** Voice *)

Definition route_voice (id : SessionId) : aprog (rstring + unit) :=
  client <- get (fun a => (as_client <$> ap_sessions a !! id : option Z));;
  match client with
  | None => Ret (inl gone)
  | Some client =>
      routed <- get route_session;;
      if bool_decide (routed = Some id) then Ret (inr tt)
      else
        update (route_set id client);;
        clear_current_speakers;;
        Ret (inr tt)
  end.

Definition running_engine : aprog (rstring + Z) :=
  e <- get current_engine;;
  Ret (match e with Some e => inr e | None => inl (lit "Audio is not running.") end).

(** [set_voice_state] on the client of every session, under the table's lock. *)
Definition tell_all (muted deafened : bool) (a : App) : App :=
  fold_left (fun a e => tell_client (as_client e.2) (cl_set_voice_state muted deafened) a) (hash_iter (ap_sessions a)) a.

Definition announce_voice_state (engine : Z) : aprog VoiceButtons :=
  muted <- read_engine false engine is_muted;;
  deafened <- read_engine false engine engine_is_deafened;;
  update (tell_all muted deafened);;
  Ret (mkButtons muted deafened).

Definition app_set_muted (muted : bool) : aprog (rstring + VoiceButtons) :=
  engine <-@ running_engine;;
  update (change_engine engine (engine_set_muted muted));;
  state <- announce_voice_state engine;;
  Ret (inr state).

Definition app_set_deafened (deafened : bool) : aprog (rstring + VoiceButtons) :=
  engine <-@ running_engine;;
  update (change_engine engine (engine_set_deafened deafened));;
  (if deafened then update (change_engine engine (engine_set_muted true)) else Ret tt);;
  state <- announce_voice_state engine;;
  Ret (inr state).

Definition toggle_muted : aprog (rstring + VoiceButtons) :=
  engine <-@ running_engine;;
  muted <- read_engine false engine is_muted;;
  app_set_muted (negb muted).

Definition toggle_deafened : aprog (rstring + VoiceButtons) :=
  engine <-@ running_engine;;
  deafened <- read_engine false engine engine_is_deafened;;
  app_set_deafened (negb deafened).

Definition app_set_push_to_talk_held (held : bool) : aprog unit :=
  e <- get current_engine;;
  match e with Some e => update (change_engine e (set_push_to_talk_held held)) | None => Ret tt end.

Definition voice_state : aprog VoiceButtons :=
  e <- get current_engine;;
  match e with
  | Some e =>
      muted <- read_engine false e is_muted;;
      deafened <- read_engine false e engine_is_deafened;;
      Ret (mkButtons muted deafened)
  | None => Ret VoiceButtons_default
  end.

(** [if clear_if(id) { clear_speakers }] *)
Definition release_voice (id : SessionId) : aprog unit :=
  released <- call (clear_if id);;
  if (released : bool) then clear_current_speakers else Ret tt.

(** ** Sessions *)

Definition shutdown (session : ActiveSession) : aprog unit :=
  update (finish_task (as_event_pump session));;
  update (change_client (as_client session) cl_disconnect).

Definition remove_session (id : SessionId) (a : App) : option ActiveSession * App :=
  (ap_sessions a !! id, up_sessions (delete id) a).

Definition end_session (id : SessionId) : aprog unit :=
  session <- call (remove_session id);;
  match session with
  | None => Ret tt
  | Some session =>
      shutdown session;;
      release_voice id;;
      empty <- get (fun a => bool_decide (ap_sessions a = ∅));;
      if (empty : bool) then stop_audio else Ret tt
  end.

Definition end_all_sessions : aprog unit :=
  ids <- get (fun a => map fst (hash_iter (ap_sessions a)));;
  for_each ids end_session;;
  update route_clear;;
  stop_audio.

(** Under the table's lock. *)
Definition with_session {X} (id : SessionId) (f : ActiveSession -> App -> X * App) : aprog (rstring + X) :=
  call (fun a => match ap_sessions a !! id with
    | Some session => let '(x, a) := f session a in (inr x, a)
    | None => (inl gone, a)
    end).

Definition identity_in_use (fp : rstring) : aprog bool :=
  get (fun a => bool_decide (map_Exists (fun _ session => as_identity session = fp) (ap_sessions a))).

(** ** Opening *)

Definition IDENTITY_FILE : rstring := lit "identity.json".
Definition VAULT_FILE : rstring := lit "identities.json".
Definition TRUST_FILE : rstring := lit "known_servers.json".
Definition SETTINGS_FILE : rstring := lit "settings.json".
Definition BOOKMARKS_FILE : rstring := lit "bookmarks.json".

(** [dir] is the platform's data directory, [nickname] what the environment says, [clock] the
    time of day. *)
Definition load_with_passphrase (dir : Path) (nickname : rstring) (passphrase : option rstring) (dr : Drawn) (clock : Z)
    : prog Disk (rstring + (Disk -> App)) :=
  let paths := mkPaths (dir ++ [VAULT_FILE]) (dir ++ [TRUST_FILE]) (dir ++ [BOOKMARKS_FILE]) (dir ++ [SETTINGS_FILE]) in
  opened <- open_with_passphrase (vault_path paths) (dir ++ [IDENTITY_FILE]) nickname passphrase dr;;
  match opened with
  | inl e => Ret (inl (vault_error_text e))
  | inr vault =>
      settings <- settings_load (settings_path paths);;
      Ret (inr (fun d => mkApp vault settings paths d clock 0 ∅ ∅ ∅ ∅ ∅ None ∅ 1 None 1 [] ∅ ∅))
  end.

Definition load (dir : Path) (nickname : rstring) (dr : Drawn) (clock : Z) : prog Disk (rstring + (Disk -> App)) :=
  load_with_passphrase dir nickname None dr clock.

Definition default_nickname (user username : option rstring) : rstring :=
  match user, username with Some n, _ => n | None, Some n => n | None, None => lit "pickle" end.

Definition data_dir (platform : option Path) : Path := default [lit "."; lit "pickle-data"] platform.

End Methods.
End App.
