(* ===== verification/Bridge.v ===== *)
(** * Between the sound card, the network and the window ([apps/desktop/src-tauri/src/bridge.rs])

    The thread that carries the microphone to whichever connection holds voice, and the task of
    each connection that carries voice to the mixer and everything else to the window.  Both are
    programs over [App]; the frames the audio thread captures and the events a connection
    delivers come from outside, in lists. *)

From S2P Require Export App.

Section Bridge.
Context {C : Crypto} {M : Libm} {O : Opus} {HO : HashOrder}.

#[local] Abbreviation aprog A := (prog App A).
#[local] Open Scope prog_scope.

(** ** Tasks *)

(** A spawned task is scheduled: it runs once, with what its closure captured. *)
Definition claim (t : Z) (a : App) : option TaskKind * App :=
  match ap_tasks a !! t with
  | Some (mkTask kind Spawned) => (Some kind, up_tasks (<[t := mkTask kind Running]>) a)
  | _ => (None, a)
  end.

Definition task_runs (t : Z) (a : App) : bool :=
  match ap_tasks a !! t with Some (mkTask _ Running) => true | _ => false end.

(** ** The microphone *)

Inductive Received : Type := Got (frame : CapturedFrame) | Waiting | Closed.

(** [frames.recv()], which waits while the channel is open and empty. *)
Definition recv_frame (e : Z) (a : App) : Received * App :=
  match ap_frames a !! e with
  | Some (mkFrames (f :: rest) opened) => (Got f, up_frames (<[e := mkFrames rest opened]>) a)
  | Some (mkFrames [] true) => (Waiting, a)
  | _ => (Closed, a)
  end.

(** One turn of the pump: whether it goes on. [took] tells whether the connection takes the
    datagram. *)
Definition forward_frame (e : Z) (took : bool) : aprog bool :=
  received <- call (recv_frame e);;
  match received with
  | Closed => Ret false
  | Waiting => Ret true
  | Got frame =>
      client <- get route_client;;
      match client with
      | Some client =>
          update (change_client client (cl_send_voice took (cf_seq frame) (cf_flags frame) (cf_payload frame)));; Ret true
      | None => Ret true
      end
  end.

Fixpoint forward_frames (t e : Z) (took : list bool) : aprog unit :=
  match took with
  | [] => Ret tt
  | took :: rest =>
      go_on <- forward_frame e took;;
      if (go_on : bool) then forward_frames t e rest else update (finish_task t)
  end.

(** [spawn_capture_pump]'s thread, for as many turns as [took] has entries. *)
Definition capture_pump (t : Z) (took : list bool) : aprog unit :=
  kind <- call (claim t);;
  match kind with Some (CapturePump e) => forward_frames t e took | _ => Ret tt end.

(** The audio thread: one callback of the input device.  What it encodes goes down the engine's
    channel, unless the engine was dropped. *)
Definition send_frames (e : Z) (sent : list CapturedFrame) : App -> App :=
  up_frames (alter (fun ch => if fc_open ch then mkFrames (fc_queue ch ++ sent) true else ch) e).

Definition input_callback (e : Z) (samples : list f32) (c : Capture) (a : App) : Capture * App :=
  match ap_engines a !! e with
  | None => (c, a)
  | Some engine =>
      let '(sent, c, k) := capture_push samples c (controls engine) in
      (c, send_frames e sent (change_engine e (set_controls k) a))
  end.

(** ** A connection's events *)

Definition emit_event (session : SessionId) (event : EventDto) : aprog unit := update (app_emit (SessionEvent session event)).

Definition on_mirror {X} (m : Z) (f : PermMirror -> X * PermMirror) (default : X) (a : App) : X * App :=
  match ap_mirrors a !! m with
  | Some mirror => let '(x, mirror) := f mirror in (x, up_mirrors (<[m := mirror]>) a)
  | None => (default, a)
  end.

Definition emit_snapshot (m : Z) (session : SessionId) (f : PermMirror -> EventDto) : aprog unit :=
  snapshot <- get (fun a => (f <$> ap_mirrors a !! m : option EventDto));;
  match snapshot with Some event => emit_event session event | None => Ret tt end.

Definition terminal (event : ClientEvent) : bool := match event with EvDisconnected _ => true | _ => false end.

(** A voice packet: into the mixer, when it is from the connection that holds voice. *)
Definition pump_voice (session : SessionId) (packet : VoiceDownstream) : aprog unit :=
  routed <- get route_session;;
  if negb (bool_decide (routed = Some session)) then Ret tt
  else
    e <- get current_engine;;
    match e with Some e => update (change_engine e (engine_accept packet)) | None => Ret tt end.

(** Anything else: folded into the mirror, shown, and followed by what it changed. *)
Definition pump_other (session : SessionId) (perms : Z) (event : ClientEvent) : aprog unit :=
  perms_changed <- call (on_mirror perms (mirror_apply event) false);;
  match from_event event with Some event => emit_event session event | None => Ret tt end;;
  (if touches_roles event then emit_snapshot perms session (fun m => DRolesChanged (roles_dto m)) else Ret tt);;
  (if (perms_changed : bool) then emit_snapshot perms session (fun m => DPermissionsChanged (my_permissions m)) else Ret tt);;
  if terminal event then release_voice session else Ret tt.

(** One turn of the pump: whether it goes on. *)
Definition pump_event (session : SessionId) (perms : Z) (event : ClientEvent) : aprog bool :=
  match event with
  | EvVoice packet => pump_voice session packet;; Ret true
  | _ => pump_other session perms event;; Ret (negb (terminal event))
  end.

(** An abort takes effect where the task waits, which is between events. *)
Fixpoint pump_events (t : Z) (session : SessionId) (perms : Z) (events : list ClientEvent) : aprog unit :=
  match events with
  | [] => update (finish_task t)
  | event :: rest =>
      runs <- get (task_runs t);;
      if (runs : bool) then
        go_on <- pump_event session perms event;;
        if (go_on : bool) then pump_events t session perms rest else update (finish_task t)
      else Ret tt
  end.

(** [spawn_event_pump]'s task, on the events that arrive. *)
Definition event_pump (t : Z) (events : list ClientEvent) : aprog unit :=
  kind <- call (claim t);;
  match kind with Some (EventPump session perms) => pump_events t session perms events | _ => Ret tt end.

End Bridge.
