(* ===== verification/Commands.v ===== *)
(** * The commands of the interface ([apps/desktop/src-tauri/src/commands.rs])

    What the web view can ask for, each command a program over [App].  What the network, the
    sound devices, the resolver, the random source and the clock do is passed in.  A panic ends
    the command: [Hang]. *)

From S2P Require Export Bridge.
From S2P Require Import Keystore Devices Vault Settings Bookmarks.

Definition DEFAULT_PORT : Z := 42071.

(** ** Addresses *)

Definition COLON : char := 58.
Definition BRACKET : char := 93.

(** The string from the last [c] on ([rfind] and the slice). *)
Fixpoint from_last (c : char) (s : rstring) : option rstring :=
  match s with
  | [] => None
  | x :: rest => match from_last c rest with Some tail => Some tail | None => if x =? c then Some s else None end
  end.

Definition contains_char (c : char) (s : rstring) : bool := any (fun x => x =? c) s.
Definition count_char (c : char) (s : rstring) : nat := length (retain (fun x => x =? c) s).

Definition has_port (address : rstring) : bool :=
  match from_last BRACKET address with
  | Some tail => contains_char COLON tail
  | None => (count_char COLON address =? 1)%nat
  end.

(** What [canonical_address] and [resolve] both make of a trimmed input. *)
Definition with_port (trimmed : rstring) : rstring := if has_port trimmed then trimmed else trimmed ++ lit ":" ++ dec DEFAULT_PORT.

Definition canonical_address (input : rstring) : rstring := with_port (trim input).

(** The system's resolver, its failure in words. *)
Class Resolver : Type := { to_socket_addrs : rstring -> rstring + list SocketAddr }.

(** ** Small readings *)

(** [trim_start_matches(prefix)]: every leading occurrence goes. *)
Fixpoint strip_prefix (prefix s : rstring) : option rstring :=
  match prefix, s with
  | [], _ => Some s
  | p :: prefix, c :: s => if p =? c then strip_prefix prefix s else None
  | _ :: _, [] => None
  end.

Fixpoint trim_start_matches (fuel : nat) (prefix s : rstring) : rstring :=
  match fuel with
  | 0%nat => s
  | S fuel => match strip_prefix prefix s with Some rest => trim_start_matches fuel prefix rest | None => s end
  end.

Record MiningProgress : Type := mkMining { mp_best_level : Z; mp_hashes : Z; mp_done : bool }.
Record AudioDevices : Type := mkAudioDevices { ad_inputs : list AudioDeviceDto; ad_outputs : list AudioDeviceDto }.
Record InputActivity : Type := mkActivity { ia_level_dbfs : f32; ia_transmitting : bool }.
Record KnownServer : Type := mkKnown { ks_address : rstring; ks_name : rstring; ks_fingerprint : rstring }.

Section Commands.
Context {C : Crypto} {M : Libm} {O : Opus} {HO : HashOrder} {T : AppTexts} {KJ : Json StoredIdentity} {B : Base64} {K : Ciphers}
  {VJ : VaultJson} {SJ : Json Settings} {TJ : Json StoreFile} {BJ : Json StoredBookmarks} {R : Resolver} {AH : AudioHost}.

#[local] Abbreviation aprog A := (prog App A).
#[local] Open Scope prog_scope.
#[local] Notation "x <-@ p ;; k" := (and_then_app p (fun x => k)) (at level 100, p at next level, right associativity) : prog_scope.

Definition resolve_address (input : rstring) : rstring + SocketAddr :=
  let trimmed := trim input in
  if is_empty trimmed then inl (lit "Enter a server address.")
  else
    match to_socket_addrs (with_port trimmed) with
    | inl e => inl (lit "Could not look up " ++ trimmed ++ lit ": " ++ e)
    | inr (first :: _) => inr first
    | inr [] => inl (trimmed ++ lit " did not resolve to any address.")
    end.

Definition parse_fingerprint (text : rstring) : rstring + Fingerprint :=
  match fp_parse text with
  | inl e => inl (lit "that fingerprint is not readable: " ++ identity_error_text e)
  | inr fp => inr fp
  end.

Definition overwrite_target (target : OverwriteTargetDto) : rstring + OverwriteTarget :=
  match target with
  | DtoRole id => inr (TRole id)
  | DtoMember fingerprint => match parse_fingerprint fingerprint with inl e => inl e | inr fp => inr (TMember fp) end
  end.

Definition parse_kind (kind : rstring) : rstring + ChannelKind :=
  if bool_decide (kind = lit "voice") then inr Voice
  else if bool_decide (kind = lit "text") then inr Text
  else if bool_decide (kind = lit "voice_and_text") then inr VoiceAndText
  else inl (lit "unknown channel kind " ++ debug_text kind).

(** ** Identities *)

Definition identity_info : aprog IdentityDto :=
  active <- get (fun a => active (ap_vault a));;
  match active with Some entry => Ret (identity_dto (ve_identity entry) (ve_nickname entry)) | None => Hang end.

Definition identities : aprog IdentityListDto :=
  get (fun a => mkIdentityListDto (v_active (ap_vault a)) (map vault_entry_dto (v_entries (ap_vault a)))).

(** An edit of the vault, under its lock. *)
Definition edit_vault (f : Vault -> (VaultError + unit) * Vault) : aprog (rstring + unit) :=
  r <- call (fun a => let '(r, v) := f (ap_vault a) in (r, up_vault (fun _ => v) a));;
  Ret (match r with inl e => inl (vault_error_text e) | inr tt => inr tt end).

(** The control message to every session signed in with [fp], under the table's lock. *)
Definition tell_sessions_of (fp : rstring) (message : ClientControl) (a : App) : App :=
  fold_left (fun a e => if bool_decide (as_identity e.2 = fp) then tell_client (as_client e.2) (send_control message) a else a)
    (hash_iter (ap_sessions a)) a.

Definition no_nickname : rstring := lit "A nickname needs at least one visible character.".

(** [nonce] is what the vault's file is sealed with. *)
Definition set_nickname (nickname : rstring) (nonce : bytes) : aprog (rstring + IdentityDto) :=
  let trimmed := trim nickname in
  if is_empty trimmed then Ret (inl no_nickname)
  else
    active <- call (fun a =>
      let fp := v_active (ap_vault a) in
      let '(r, v) := vault_set_nickname (ap_vault a) fp trimmed in
      (match r with inl e => inl (vault_error_text e) | inr tt => inr fp end, up_vault (fun _ => v) a));;
    match active with
    | inl e => Ret (inl e)
    | inr active =>
        _saved <-@ persist_vault nonce;;
        update (tell_sessions_of active (CSetNickname trimmed));;
        info <- identity_info;;
        Ret (inr info)
    end.

(** [generated] is the key drawn. *)
Definition add_identity (generated : Identity) (nickname label : rstring) (nonce : bytes) : aprog (rstring + IdentityListDto) :=
  let nickname := trim nickname in
  if is_empty nickname then Ret (inl no_nickname)
  else
    _set <-@ edit_vault (fun v => let '(fp, v) := add v generated nickname (trim label) in set_active v fp);;
    _saved <-@ persist_vault nonce;;
    list <- identities;;
    Ret (inr list).

Definition set_active_identity (fp : rstring) (nonce : bytes) : aprog (rstring + IdentityListDto) :=
  _set <-@ edit_vault (fun v => set_active v fp);;
  _saved <-@ persist_vault nonce;;
  list <- identities;;
  Ret (inr list).

Definition set_identity_label (fp label : rstring) (nonce : bytes) : aprog (rstring + IdentityListDto) :=
  _set <-@ edit_vault (fun v => set_label v fp (trim label));;
  _saved <-@ persist_vault nonce;;
  list <- identities;;
  Ret (inr list).

Definition in_use_text : rstring := lit "That identity is signed in to a server. Disconnect it before deleting the key.".

Definition remove_identity (fp : rstring) (nonce : bytes) : aprog (rstring + IdentityListDto) :=
  in_use <- identity_in_use fp;;
  if (in_use : bool) then Ret (inl in_use_text)
  else
    removed <- call (fun a => match vault_remove (ap_vault a) fp with
      | Some (r, v) => (Some r, up_vault (fun _ => v) a)
      | None => (None, a)
      end);;
    match removed with
    | None => Hang
    | Some (inl e) => Ret (inl (vault_error_text e))
    | Some (inr tt) =>
        _saved <-@ persist_vault nonce;;
        list <- identities;;
        Ret (inr list)
    end.

(** The mining thread, on [fuel] hashes; its callback only announces progress. *)
Definition mining_thread (fuel : nat) (ident : Identity) (target_level : Z) (nonce : bytes) : aprog unit :=
  match identity_mine (fun (said : list UiEvent) p => (said ++ [MiningEvent (prog_best_level p) (prog_hashes p) false], true))
          fuel [] ident target_level with
  | None => Hang
  | Some (said, report, ident') =>
      for_each said (fun event => update (app_emit event));;
      set <- edit_vault (fun v => set_counter v (fp_to_string (identity_fingerprint ident)) (id_counter ident'));;
      match set with
      | inr tt => _saved <- persist_vault nonce;; Ret tt
      | inl _ => Ret tt
      end;;
      update (app_emit (MiningEvent (rep_level report) (rep_hashes report) true))
  end.

Definition too_high : rstring := lit "Levels above 40 take longer than any reasonable session. Try 24 to 32.".

(** What [mine_identity] refuses, or the copy of the key it starts the thread with. *)
Definition mine_identity (target_level : Z) : aprog (rstring + Identity) :=
  if 40 <? target_level then Ret (inl too_high)
  else
    ident <- get active_identity;;
    match ident with Some ident => Ret (inr ident) | None => Hang end.

(** ** Devices *)

(** [None] is the panic of choosing from an empty range. *)
Definition audio_devices_listed : option (rstring + AudioDevices) :=
  inputs ← list_devices Input;
  match inputs with
  | inl e => Some (inl (device_error_text e))
  | inr inputs =>
      outputs ← list_devices Output;
      Some (match outputs with
        | inl e => inl (device_error_text e)
        | inr outputs => inr (mkAudioDevices (map audio_device_dto inputs) (map audio_device_dto outputs))
        end)
  end.

Definition audio_devices : aprog (rstring + AudioDevices) := match audio_devices_listed with Some r => Ret r | None => Hang end.

(** ** Connections *)

(** What the outside does to one attempt: the network, the datagram size it leaves, the sound
    devices when the audio has to start, the fingerprint of the mirror's probe, and the
    program's own version. *)
Record Outside : Type := mkOutside {
  ou_wire : Wire; ou_max_datagram : option Z; ou_opened : AudioStart; ou_probe : Fingerprint; ou_version : rstring }.

Definition connect_options (target : SocketAddr) (nickname address : rstring) (password : option rstring) : ConnectOptions :=
  let options := with_trust OnFirstUse (with_server_key (canonical_address address) (new_options target nickname)) in
  match kept_password password with Some p => Client.with_password p options | None => options end.

(** The attempt of [pickle_client::connect], over the shared disk and a trust store of its own. *)
Definition attempt_login (o : Outside) (options : ConnectOptions) (ident : Identity) (store : TrustStore)
    : aprog (ConnectError + SessionInfo) :=
  r <- zoom_local (fun a l => mkClientWorld l.1 (ap_disk a) l.2 (ap_clock a)) (fun w => put_disk (cw_disk w))
         (fun w => (cw_trust w, cw_sent w)) (Client.connect (ou_version o) options ident (ou_wire o)) (store, []);;
  Ret r.1.

Definition connection_dto (a : App) (perms : Z) (session : SessionId) (info : SessionDto) (identity : rstring) : option ConnectionDto :=
  (fun m => mkConnectionDto (my_permissions m) (roles_dto m) session info identity) <$> ap_mirrors a !! perms.

Definition starts_badly (e : rstring) : rstring :=
  lit "Connected, but " ++ trim_start_matches (length e) (lit "The ") e.

(** From the accepted login on; the client is dropped when the audio cannot start. *)
Definition open_session (o : Outside) (ident : Identity) (fp address : rstring) (info : SessionInfo)
    : aprog (rstring + option ConnectionDto) :=
  issued <- call (next_session_id (mkHandle info true [] [] (ou_max_datagram o) true));;
  let '(id, client) := issued : SessionId * Z in
  perms <- call (new_mirror id (from_session (identity_fingerprint ident) (ou_probe o) info));;
  audio <- ensure_audio (ou_opened o);;
  match audio with
  | inl e => update (change_client client cl_disconnect);; Ret (inl (starts_badly e))
  | inr _ =>
      event_pump <- call (spawn (EventPump id perms));;
      update (up_sessions (<[id := mkActive id client event_pump perms address fp]>));;
      routed <- get route_session;;
      _routed <-@ match routed with None => route_voice id | Some _ => Ret (inr tt) end;;
      remember_open_connections;;
      mirror <- get (fun a => connection_dto a perms id (session_dto info) []);;
      identity <- get (fun a => default [] (as_identity <$> ap_sessions a !! id));;
      Ret (inr ((fun d => mkConnectionDto (cd_permissions d) (cd_roles d) (cd_session d) (cd_info d) identity) <$> mirror))
  end.

Definition app_connect (o : Outside) (address : rstring) (password identity : option rstring)
    : aprog (ConnectFailureDto + option ConnectionDto) :=
  let fail_with {X} (e : rstring) : aprog (ConnectFailureDto + X) := Ret (inl (failure_of_text e)) in
  match resolve_address address with
  | inl e => fail_with e
  | inr target =>
      chosen <- get (identity_for identity);;
      match chosen with
      | None => Hang
      | Some (inl e) => fail_with e
      | Some (inr (ident, nickname, fp)) =>
          store <- trust_store;;
          match store with
          | inl e => fail_with e
          | inr store =>
              login <- attempt_login o (connect_options target nickname address password) ident store;;
              match login with
              | inl e => Ret (inl (connect_failure_dto connect_error_text e))
              | inr info =>
                  opened <- open_session o ident fp address info;;
                  match opened with inl e => fail_with e | inr dto => Ret (inr dto) end
              end
          end
      end
  end.

Definition disconnect (session : SessionId) : aprog unit := end_session session;; remember_open_connections.

Definition sessions : aprog SessionListDto :=
  get (fun a => mkSessionListDto
    (omap (fun e => client ← ap_clients a !! as_client e.2;
                    connection_dto a (as_perms e.2) (as_id e.2) (session_dto (cl_session client)) (as_identity e.2))
       (hash_iter (ap_sessions a)))
    (route_session a)).

Definition set_voice_session (session : SessionId) : aprog (rstring + unit) := route_voice session.

(** ** Voice and audio *)

Definition emit_voice_state (voice : VoiceButtons) : aprog unit := update (app_emit (VoiceStateEvent voice)).

Definition set_muted_command (muted : bool) : aprog (rstring + VoiceButtons) :=
  voice <-@ app_set_muted muted;; emit_voice_state voice;; Ret (inr voice).

Definition set_deafened_command (deafened : bool) : aprog (rstring + VoiceButtons) :=
  voice <-@ app_set_deafened deafened;; emit_voice_state voice;; Ret (inr voice).

Definition input_activity : aprog InputActivity :=
  e <- get current_engine;;
  match e with
  | Some e =>
      level <- read_engine NEG_INFINITY e input_level_dbfs;;
      sending <- read_engine false e is_transmitting;;
      Ret (mkActivity level sending)
  | None => Ret (mkActivity NEG_INFINITY false)
  end.

Definition client_of (session : SessionId) (a : App) : option ClientId :=
  active ← ap_sessions a !! session; client_id <$> ap_clients a !! as_client active.

(** Who is audible: what the mixer plays, and this client while it transmits. *)
Definition speaking_now : aprog SpeakingDto :=
  voice <- get route_session;;
  match voice with
  | None => Ret SpeakingDto_default
  | Some voice =>
      e <- get current_engine;;
      match e with
      | None => Ret SpeakingDto_default
      | Some e =>
          speaking <- read_engine [] e engine_speaking;;
          sending <- read_engine false e is_transmitting;;
          (if (sending : bool) then
             me <- get (client_of voice);;
             Ret (mkSpeakingDto (Some voice) (match me with Some me => speaking ++ [me] | None => speaking end))
           else Ret (mkSpeakingDto (Some voice) speaking))
      end
  end.

Definition set_audio (audio : AudioSettings) (s : Settings) : Settings := mkSettings audio (st_keybinds s) (st_connections s).

Definition set_audio_settings (audio : AudioSettings) (opened : AudioStart) : aprog (rstring + unit) :=
  restart <- call (fun a => (needs_restart (st_audio (ap_settings a)) audio, up_settings (set_audio audio) a));;
  _saved <-@ persist_settings;;
  e <- get current_engine;;
  match e with
  | None => Ret (inr tt)
  | Some e =>
      if (restart : bool) then _started <-@ start_audio opened;; Ret (inr tt)
      else update (change_engine e (engine_set_gate_mode (Settings.gate_mode (au_gate_mode audio))));; Ret (inr tt)
  end.

Definition start_audio_preview (opened : AudioStart) : aprog (rstring + unit) :=
  _engine <-@ ensure_audio opened;; Ret (inr tt).

Definition stop_audio_preview : aprog unit :=
  empty <- get (fun a => bool_decide (ap_sessions a = ∅));;
  if (empty : bool) then stop_audio else Ret tt.

(** ** Servers *)

Definition known_servers : aprog (rstring + list KnownServer) :=
  store <-@ trust_store;;
  Ret (inr (map (fun e => mkKnown e.1 (ts_name e.2) (fp_short (ts_fingerprint e.2))) (trust_iter store))).

Definition save_trust (store : TrustStore) : aprog (rstring + unit) := on_disk trust_error_text (trust_save store).

Definition forget_server (address : rstring) : aprog (rstring + unit) :=
  store <-@ trust_store;; save_trust (forget address store).2.

Definition trust_changed_identity (address_key fingerprint : rstring) : aprog (rstring + unit) :=
  match parse_fingerprint fingerprint with
  | inl e => Ret (inl e)
  | inr fp =>
      store <-@ trust_store;;
      now <- get ap_clock;;
      let name := default [] (ts_name <$> trust_get store address_key) in
      save_trust (trust now address_key fp name store)
  end.

Definition save_bookmarks (store : Bookmarks) : aprog (rstring + list Bookmark) :=
  _saved <-@ on_disk bookmark_error_text (bookmarks_save store);; Ret (inr (bookmarks_list store)).

Definition list_bookmarks : aprog (rstring + list Bookmark) := store <-@ bookmarks;; Ret (inr (bookmarks_list store)).

Definition add_bookmark (input : BookmarkInput) : aprog (rstring + list Bookmark) :=
  store <-@ bookmarks;; save_bookmarks (bookmark_add input store).2.

Definition update_bookmark (id : Z) (input : BookmarkInput) : aprog (rstring + list Bookmark) :=
  store <-@ bookmarks;;
  match bookmark_update id input store with
  | (inl e, _) => Ret (inl (bookmark_error_text e))
  | (inr _, store) => save_bookmarks store
  end.

Definition remove_bookmark (id : Z) : aprog (rstring + list Bookmark) :=
  store <-@ bookmarks;; save_bookmarks (bookmark_remove id store).2.

Definition settings : aprog Settings := get ap_settings.

End Commands.

(** ** What the interface asks a server for ([apps/desktop/src-tauri/src/commands.rs])

    The commands that put a request in one connection's outbound queue.  Each looks the session
    up and sends under the lock of the session table, with a nonce of the process's counter where
    the request is answered by one. *)

Section Requests.
Context {C : Crypto} {M : Libm} {O : Opus} {HO : HashOrder} {T : AppTexts}.

#[local] Abbreviation aprog A := (prog App A).
#[local] Abbreviation reply := (prog App (rstring + unit)).

(** A request on one session. *)
Definition ask (session : SessionId) (request : Client -> bool * Client) : reply :=
  with_session session (fun active a => (tt, tell_client (as_client active) request a)).

(** One that carries a fresh nonce. *)
Definition ask_with_nonce (session : SessionId) (request : Z -> Client -> bool * Client) : reply :=
  with_session session (fun active a => let '(nonce, a) := admin_nonce a in (tt, tell_client (as_client active) (request nonce) a)).

Definition refuse {A} (e : rstring) : prog App (rstring + A) := Ret (inl e).

Definition ask_join_channel (session : SessionId) (channel : ChannelId) : reply := ask session (cl_join_channel channel).
Definition ask_leave_channel (session : SessionId) : reply := ask session cl_leave_channel.
Definition ask_fetch_history (session : SessionId) (channel : ChannelId) : reply := ask session (cl_fetch_history channel None 100).

(** ** From the mirror *)

Definition from_mirror {X} (session : SessionId) (f : PermMirror -> X) : prog App (rstring + option X) :=
  with_session session (fun active a => ((f <$> ap_mirrors a !! as_perms active : option X), a)).

Definition session_permissions (session : SessionId) : prog App (rstring + option MyPermissionsDto) := from_mirror session my_permissions.
Definition session_matrix (session : SessionId) (channel : ChannelId) : prog App (rstring + option (list MatrixRowDto)) :=
  from_mirror session (fun m => channel_matrix m channel).
Definition channel_overwrites (session : SessionId) (channel : ChannelId) : prog App (rstring + option (list OverwriteDto)) :=
  from_mirror session (fun m => overwrites_dto m channel).
Definition session_moderation (session : SessionId) (client_id : ClientId) : prog App (rstring + option ModerationOptionsDto) :=
  from_mirror session (fun m => moderation_options m client_id).

(** ** Moderation *)

Definition ask_kick (session : SessionId) (client_id : ClientId) (reason : option rstring) : reply :=
  ask_with_nonce session (fun nonce => cl_kick nonce client_id (default [] reason)).

Definition ask_ban (session : SessionId) (fingerprint reason : rstring) (until_unix_ms : option Z) : reply :=
  match parse_fingerprint fingerprint with
  | inl e => refuse e
  | inr fp => ask_with_nonce session (fun nonce => cl_ban nonce fp reason until_unix_ms)
  end.

Definition ask_unban (session : SessionId) (fingerprint : rstring) : reply :=
  match parse_fingerprint fingerprint with
  | inl e => refuse e
  | inr fp => ask_with_nonce session (fun nonce => cl_unban nonce fp)
  end.

Definition ask_list_bans (session : SessionId) : reply := ask_with_nonce session cl_list_bans.

Definition ask_set_server_muted (session : SessionId) (client_id : ClientId) (muted : bool) : reply :=
  ask_with_nonce session (fun nonce => cl_set_server_mute nonce client_id muted).

Definition ask_move_user (session : SessionId) (client_id : ClientId) (channel : option ChannelId) : reply :=
  ask_with_nonce session (fun nonce => cl_move_member nonce client_id channel).

(** ** Roles and overwrites *)

Definition ask_create_role (session : SessionId) (name : rstring) (permissions : list rstring) : reply :=
  let bits := permissions_from_names permissions in
  ask_with_nonce session (fun nonce => send_control (CCreateRole nonce name bits)).

Definition ask_update_role (session : SessionId) (role_id : RoleId) (name : option rstring) (color : option Z)
    (clear_color : option bool) (permissions : option (list rstring)) : reply :=
  let permissions := permissions_from_names <$> permissions in
  let color := if default false clear_color then Some None else Some <$> color in
  ask_with_nonce session (fun nonce => send_control (CUpdateRole nonce role_id name color permissions)).

Definition ask_delete_role (session : SessionId) (role_id : RoleId) : reply :=
  ask_with_nonce session (fun nonce => send_control (CDeleteRole nonce role_id)).

Definition ask_reorder_roles (session : SessionId) (positions : list (RoleId * Z)) : reply :=
  ask_with_nonce session (fun nonce => send_control (CReorderRoles nonce positions)).

Definition ask_set_member_roles (session : SessionId) (fingerprint : rstring) (roles : list RoleId) : reply :=
  match parse_fingerprint fingerprint with
  | inl e => refuse e
  | inr fp => ask_with_nonce session (fun nonce => send_control (CSetMemberRoles nonce fp roles))
  end.

Definition ask_set_channel_overwrite (session : SessionId) (channel : ChannelId) (target : OverwriteTargetDto)
    (allow deny : list rstring) : reply :=
  match overwrite_target target with
  | inl e => refuse e
  | inr target =>
      let allow := permissions_from_names allow in
      let deny := permissions_from_names deny in
      ask_with_nonce session (fun nonce => send_control (CSetChannelOverwrite nonce channel target allow deny))
  end.

Definition ask_delete_channel_overwrite (session : SessionId) (channel : ChannelId) (target : OverwriteTargetDto) : reply :=
  match overwrite_target target with
  | inl e => refuse e
  | inr target => ask_with_nonce session (fun nonce => send_control (CDeleteChannelOverwrite nonce channel target))
  end.

(** ** Channels *)

Definition ask_create_channel (session : SessionId) (name kind : rstring) (parent : option ChannelId) (topic : option rstring)
    (max_users order : option Z) : reply :=
  match parse_kind kind with
  | inl e => refuse e
  | inr kind =>
      ask_with_nonce session (fun nonce =>
        send_control (CCreateChannel nonce name parent (default [] topic) kind max_users (default 0 order)))
  end.

Definition ask_update_channel (session : SessionId) (channel : ChannelId) (name kind : rstring) (parent : option ChannelId)
    (topic : rstring) (max_users : option Z) (order : Z) : reply :=
  match parse_kind kind with
  | inl e => refuse e
  | inr kind =>
      ask_with_nonce session (fun nonce => send_control (CUpdateChannel nonce channel parent name topic kind max_users order))
  end.

Definition ask_delete_channel (session : SessionId) (channel : ChannelId) : reply :=
  ask_with_nonce session (fun nonce => send_control (CDeleteChannel nonce channel)).

(** [nanos] is the time since the epoch, which wraps to 64 bits; a clock before it counts as 0. *)
Definition ask_send_message (session : SessionId) (channel : ChannelId) (content : rstring) (nanos : option Z) : reply :=
  if is_empty (trim content) then Ret (inr tt)
  else ask session (cl_send_message channel content (default 0 (wrap 64 <$> nanos))).

End Requests.
