(* ===== verification/Shortcuts.v ===== *)
(** * Global shortcuts ([apps/desktop/src-tauri/src/shortcuts.rs])

    Which keys and buttons the application has taken hold of, what it tells the user about each,
    and what happens when one is pressed.  What the system says to a grab, and the devices
    it has, come from outside. *)

From S2P Require Export Commands MouseGrab.
From S2P Require Import Keystore Vault Settings Bookmarks.

Definition action_label (action : Action) : rstring :=
  match action with
  | PushToTalkAction => lit "pushToTalk"
  | ToggleMute => lit "toggleMute"
  | ToggleDeafen => lit "toggleDeafen"
  end.

Inductive Reach : Type := ExclusiveReach | SharedReach | DeviceReach | FocusedReach.

Definition is_global (r : Reach) : bool := match r with FocusedReach => false | _ => true end.

Record BindingStatus : Type := mkStatus { bs_action : rstring; bs_accelerator : rstring; bs_reach : Reach; bs_note : option rstring }.

Inductive WindowSystem : Type := X11 | Wayland | OtherSystem.

Definition system_reach (w : WindowSystem) : Reach := match w with Wayland => SharedReach | X11 | OtherSystem => ExclusiveReach end.

Definition is_set (value : option rstring) : bool := match value with Some v => negb (is_empty v) | None => false end.

Definition classify (session_type wayland_display display : option rstring) : WindowSystem :=
  let stated := trim <$> session_type in
  if bool_decide (stated = Some (lit "wayland")) then Wayland
  else if bool_decide (stated = Some (lit "x11")) then X11
  else if is_set wayland_display then Wayland
  else if is_set display then X11
  else OtherSystem.

(** On another platform the environment is not asked. *)
Definition window_system (linux : bool) (var : rstring -> option rstring) : WindowSystem :=
  if negb linux then OtherSystem
  else classify (var (lit "XDG_SESSION_TYPE")) (var (lit "WAYLAND_DISPLAY")) (var (lit "DISPLAY")).

(** ** What a key does to the window in front *)

Fixpoint starts_with (prefix s : rstring) : bool :=
  match prefix, s with
  | [], _ => true
  | p :: prefix, c :: s => (p =? c) && starts_with prefix s
  | _ :: _, [] => false
  end.

Definition typing_keys : list rstring := [
  lit "Space"; lit "Enter"; lit "Tab"; lit "Minus"; lit "Equal"; lit "Comma"; lit "Period"; lit "Slash"; lit "Semicolon";
  lit "Quote"; lit "Backquote"; lit "Backslash"; lit "BracketLeft"; lit "BracketRight"].

Definition types_a_character (accelerator : rstring) : bool :=
  if has_plus accelerator then false
  else
    starts_with (lit "Key") accelerator || starts_with (lit "Digit") accelerator || starts_with (lit "Numpad") accelerator
    || bool_decide (accelerator ∈ typing_keys).

Definition wayland_note (accelerator : rstring) : rstring :=
  accelerator ++ lit " was claimed through XWayland, which is the only global keyboard grab " ++
  lit "Wayland offers an ordinary application. It reaches Pickle while another window is in " ++
  lit "front, but Wayland still delivers it to that window as well." ++
  (if types_a_character accelerator then
     lit " Because it is a key that types, holding it will also put characters into whatever you " ++
     lit "are looking at " ++ [8212] ++ lit " a function key, or a combination with Control or Alt, would not."
   else []) ++
  lit " Not every compositor forwards to XWayland; if it does nothing while " ++
  lit "another window is in front, that is why, and it still works while Pickle is focused.".

(** [rsplit('+').next()]: what follows the last plus. *)
Definition last_token (accelerator : rstring) : rstring := match from_last PLUS accelerator with Some (_ :: token) => token | _ => accelerator end.

Definition is_mouse (accelerator : rstring) : bool := starts_with (lit "Mouse") (trim (last_token accelerator)).

(** ** The registry *)

(** The shortcut library: what an accelerator parses to, and what the system says to a grab and
    to a release, given what is grabbed. *)
Class ShortcutHost : Type := {
  Shortcut : Type;
  Shortcut_eq_dec :: EqDecision Shortcut;
  parse_shortcut : rstring -> rstring + Shortcut;
  grab_refused : list Shortcut -> Shortcut -> option rstring;
  release_fails : list Shortcut -> Shortcut -> bool }.

Section Shortcuts.
Context {C : Crypto} {M : Libm} {O : Opus} {HO : HashOrder} {T : AppTexts} {SJ : Json Settings} {SH : ShortcutHost}.

(** The application with its [Registry]: the table of what is bound, and the mouse readers in
    force; and the system's side: what is grabbed, the readers of every grab so far, and which
    grabs were told to stop. *)
Record Desk : Type := mkDesk {
  dk_app : App; dk_bound : list (Shortcut * Action); dk_mouse : option nat; dk_grabbed : list Shortcut;
  dk_readers : list (list Reader); dk_stopped : list nat }.

#[local] Abbreviation dprog A := (prog Desk A).
#[local] Open Scope prog_scope.

Definition put_app (a : App) (d : Desk) : Desk :=
  mkDesk a (dk_bound d) (dk_mouse d) (dk_grabbed d) (dk_readers d) (dk_stopped d).
Definition put_bound (b : list (Shortcut * Action)) (d : Desk) : Desk :=
  mkDesk (dk_app d) b (dk_mouse d) (dk_grabbed d) (dk_readers d) (dk_stopped d).
Definition put_grabbed (g : list Shortcut) (d : Desk) : Desk :=
  mkDesk (dk_app d) (dk_bound d) (dk_mouse d) g (dk_readers d) (dk_stopped d).

Definition in_app {X} (p : prog App X) : dprog X := zoom dk_app put_app p.

Definition action_for (shortcut : Shortcut) (d : Desk) : option Action :=
  snd <$> find (fun e => bool_decide (e.1 = shortcut)) (dk_bound d).

(** ** Grabbing *)

Definition release (grabbed : list Shortcut) (shortcut : Shortcut) : list Shortcut :=
  if release_fails grabbed shortcut then grabbed else retain (fun s => negb (bool_decide (s = shortcut))) grabbed.

(** The table is drained under its lock, each entry released on the way. *)
Definition release_all (d : Desk) : Desk :=
  put_bound [] (put_grabbed (fold_left release (map fst (dk_bound d)) (dk_grabbed d)) d).

Definition register (shortcut : Shortcut) (d : Desk) : option rstring * Desk :=
  match grab_refused (dk_grabbed d) shortcut with
  | Some error => (Some error, d)
  | None => (None, put_grabbed (dk_grabbed d ++ [shortcut]) d)
  end.

Definition only_focused : rstring := lit ". It works while Pickle is focused.".

(** One keyboard binding: what it reaches and what there is to say about it. *)
Definition grab_key (system : WindowSystem) (action : Action) (accelerator : rstring) : dprog (Reach * option rstring) :=
  match parse_shortcut accelerator with
  | inl error =>
      Ret (FocusedReach, Some (accelerator ++ lit " is not a key this system understands: " ++ error ++
                               lit ". " ++ lit "It works while Pickle is focused."))
  | inr shortcut =>
      refused <- call (register shortcut);;
      match refused with
      | None =>
          update (fun d => put_bound (dk_bound d ++ [(shortcut, action)]) d);;
          Ret (system_reach system, match system_reach system with SharedReach => Some (wayland_note accelerator) | _ => None end)
      | Some error => Ret (FocusedReach, Some (error ++ only_focused))
      end
  end.

(** [filter(|a| !a.trim().is_empty())] *)
Definition configured (accelerator : option rstring) : option rstring :=
  match accelerator with Some a => if is_empty (trim a) then None else Some a | None => None end.

Definition goes_to_mouse (sys : InputSystem) (accelerator : rstring) : bool := is_mouse accelerator || fkey_routes sys accelerator.

(** The loop: the statuses of the keys, and the bindings left for the mouse. *)
Fixpoint grab_all (sys : InputSystem) (system : WindowSystem) (wanted : list (Action * option rstring))
    : dprog (list BindingStatus * list (rstring * Action)) :=
  match wanted with
  | [] => Ret ([], [])
  | (action, accelerator) :: rest =>
      match configured accelerator with
      | None => grab_all sys system rest
      | Some accelerator =>
          if goes_to_mouse sys accelerator then
            r <- grab_all sys system rest;; Ret (r.1, (accelerator, action) :: r.2)
          else
            grabbed <- grab_key system action accelerator;;
            r <- grab_all sys system rest;;
            Ret (mkStatus (action_label action) accelerator grabbed.1 grabbed.2 :: r.1, r.2)
      end
  end.

(** Replacing the grab stops the readers of the one before. *)
Definition replace_mouse (readers : option (list Reader)) (d : Desk) : Desk :=
  mkDesk (dk_app d) (dk_bound d) (match readers with Some _ => Some (length (dk_readers d)) | None => None end) (dk_grabbed d)
    (match readers with Some rs => dk_readers d ++ [rs] | None => dk_readers d end)
    (match dk_mouse d with Some old => old :: dk_stopped d | None => dk_stopped d end).

Definition start_mouse (sys : InputSystem) (bindings : list (rstring * Action)) : option (list Reader) * GrabOutcome :=
  if is_empty bindings then (None, NoMouse)
  else let '(readers, outcome) := start sys bindings in (if is_active outcome then Some readers else None, outcome).

Definition mouse_status (outcome : GrabOutcome) (e : rstring * Action) : BindingStatus :=
  mkStatus (action_label e.2) e.1 (if is_active outcome then DeviceReach else FocusedReach) (explain outcome).

Definition apply_keybinds (sys : InputSystem) (system : WindowSystem) : dprog (list BindingStatus) :=
  update release_all;;
  keybinds <- get (fun d => st_keybinds (ap_settings (dk_app d)));;
  r <- grab_all sys system [(PushToTalkAction, kb_push_to_talk keybinds); (ToggleMute, kb_toggle_mute keybinds);
                            (ToggleDeafen, kb_toggle_deafen keybinds)];;
  let mouse := start_mouse sys r.2 in
  update (replace_mouse mouse.1);;
  Ret (r.1 ++ map (mouse_status mouse.2) r.2).

Definition set_keybinds_of (keybinds : Keybinds) (s : Settings) : Settings := mkSettings (st_audio s) keybinds (st_connections s).

(** The commands of [commands.rs]. *)
Definition set_keybinds (keybinds : Keybinds) (sys : InputSystem) (system : WindowSystem) : dprog (rstring + list BindingStatus) :=
  in_app (update (up_settings (set_keybinds_of keybinds)));;
  saved <- in_app persist_settings;;
  match saved with
  | inl e => Ret (inl e)
  | inr tt => statuses <- apply_keybinds sys system;; Ret (inr statuses)
  end.

Definition keybind_status (sys : InputSystem) (system : WindowSystem) : dprog (list BindingStatus) := apply_keybinds sys system.

(** ** Acting *)

(** A failed toggle is only logged. *)
Definition toggled (p : prog App (rstring + VoiceButtons)) : dprog unit :=
  outcome <- in_app p;;
  match outcome with inr voice => in_app (emit_voice_state voice) | inl _ => Ret tt end.

Definition dispatch (action : Action) (pressed : bool) : dprog unit :=
  match action with
  | PushToTalkAction => in_app (app_set_push_to_talk_held pressed)
  | ToggleMute => if pressed then toggled toggle_muted else Ret tt
  | ToggleDeafen => if pressed then toggled toggle_deafened else Ret tt
  end.

(** A grabbed key, pressed or let go. *)
Definition handle_shortcut (shortcut : Shortcut) (pressed : bool) : dprog unit :=
  action <- get (action_for shortcut);;
  match action with Some action => dispatch action pressed | None => Ret tt end.

(** A reader of the grab numbered [g], on what its device gives it turn by turn. *)
Fixpoint mouse_reader (g : nat) (codes : list (KeyCode * Action)) (fetches : list Fetched) : dprog unit :=
  match fetches with
  | [] => Ret tt
  | fetched :: rest =>
      stopped <- get (fun d => bool_decide (g ∈ dk_stopped d));;
      if (stopped : bool) then Ret tt
      else
        let '(actions, go_on) := read_fetched codes fetched in
        for_each actions (fun e => dispatch e.1 e.2);;
        if go_on then mouse_reader g codes rest else Ret tt
  end.

(** The application's start ([src/lib.rs]): last time's bindings are grabbed, and those that do
    not reach beyond the window are warned about; starting goes on either way. *)
Definition desktop_setup (sys : InputSystem) (system : WindowSystem) : dprog (list BindingStatus) :=
  statuses <- apply_keybinds sys system;;
  Ret (retain (fun status => negb (is_global (bs_reach status))) statuses).

End Shortcuts.

(** Before the window is made: the renderer that fails on NVIDIA's driver is turned off by a
    variable, unless it was set already. *)
Definition disable_dmabuf_renderer_on_nvidia (linux : bool) (variable : option rstring) (driver_loaded : bool) : option rstring :=
  if negb linux then variable
  else match variable with
       | Some value => Some value
       | None => if driver_loaded then Some (lit "1") else None
       end.
