(* ===== verification/Keys.v ===== *)
(** * What holding a key means

    Rebinding is a full replacement: afterwards exactly the keys of the settings are grabbed and
    act, and of all the mouse readers ever started only those of the last grab still run. *)

From S2P Require Export Shortcuts.
From S2P Require Import Keystore Vault Settings Bookmarks.

(** What the shortcut library documents of registering: a key that is held is not given out a
    second time ([AlreadyRegistered]).  Of releasing it promises nothing; it may fail. *)
Class ShortcutHostLaws {SH : ShortcutHost} : Prop := {
  held_is_refused held s : s ∈ held -> is_Some (grab_refused held s) }.

Section Keys.
Context {C : Crypto} {M : Libm} {O : Opus} {HO : HashOrder} {T : AppTexts} {SJ : Json Settings} {SH : ShortcutHost}.
Implicit Types d : Desk.

(** ** The registry *)

(** The keys that act are held, each once and for one action; and of the grabs of mice the one in
    force is the one that was not stopped. *)
Record registry_in_order d : Prop := {
  rg_held s : s ∈ map fst (dk_bound d) -> s ∈ dk_grabbed d;
  rg_grabbed : NoDup (dk_grabbed d);
  rg_once : NoDup (map fst (dk_bound d));
  rg_known g : g ∈ dk_stopped d \/ dk_mouse d = Some g -> (g < length (dk_readers d))%nat;
  rg_one g : (g < length (dk_readers d))%nat -> (g ∉ dk_stopped d <-> dk_mouse d = Some g) }.

(** The actions that have an accelerator, and the accelerators. *)
Definition bound_by (wanted : list (Action * option rstring)) : list (Action * rstring) :=
  omap (fun e => pair e.1 <$> configured e.2) wanted.

Definition wanted_of (kb : Keybinds) : list (Action * option rstring) :=
  [(PushToTalkAction, kb_push_to_talk kb); (ToggleMute, kb_toggle_mute kb); (ToggleDeafen, kb_toggle_deafen kb)].

Definition named (e : Action * rstring) : rstring * rstring := (action_label e.1, e.2).
Definition about (st : BindingStatus) : rstring * rstring := (bs_action st, bs_accelerator st).

Lemma bound_acts d s action : NoDup (map fst (dk_bound d)) -> (s, action) ∈ dk_bound d -> action_for s d = Some action.
Proof.
  unfold action_for. induction (dk_bound d) as [|[s' a'] l IH]; intros Hn Hin; [by apply not_elem_of_nil in Hin|].
  cbn in *. apply NoDup_cons in Hn as [Hs Hn]. case_bool_decide as E.
  - subst s'. apply elem_of_cons in Hin as [[= ->] | Hin]; [done|]. destruct Hs. by apply (list_elem_of_fmap_2 fst) in Hin.
  - apply elem_of_cons in Hin as [[= -> ->] | Hin]; [done | by apply IH].
Qed.

Lemma acts_bound d s action : action_for s d = Some action -> (s, action) ∈ dk_bound d.
Proof.
  unfold action_for. destruct (find _ _) as [[s' a]|] eqn:E; intros [= <-]. apply find_some in E as [Hin Hs].
  apply bool_decide_eq_true in Hs. cbn in Hs. by subst s'.
Qed.

Lemma idle_unbound d s : action_for s d = None <-> s ∉ map fst (dk_bound d).
Proof.
  unfold action_for. destruct (find _ _) as [[s' a]|] eqn:E; cbn.
  - apply find_some in E as [Hin Hs%bool_decide_eq_true]. cbn in Hs. subst s'. split; [done|]. intros []. by apply (list_elem_of_fmap_2 fst _ (s, a)).
  - split; [|done]. intros _ ([s' a] & Hs & Hin)%list_elem_of_fmap. cbn in Hs. subst s'.
    pose proof (proj1 (find_none _ _) E _ Hin) as H. cbn in H. by rewrite bool_decide_true in H.
Qed.

(** ** Letting go *)

Section Laws.
Context {SHL : ShortcutHostLaws}.

Lemma elem_of_release held s x : x ∈ release held s -> x ∈ held /\ (x = s -> release_fails held s = true).
Proof.
  unfold release. destruct (release_fails held s) eqn:E; [done|]. intros [Hin Hx]%elem_of_retain. split; [done|].
  intros ->. by rewrite bool_decide_true in Hx.
Qed.

(** A key is still held after all were released only when the system failed to release it, or
    when it was not one of them. *)
Lemma released_or_failed keys held x :
  x ∈ fold_left release keys held -> x ∈ held /\ (x ∈ keys -> exists held', release_fails held' x = true).
Proof.
  revert held; induction keys as [|s keys IH]; intros held; cbn [fold_left]; [intros H; split; [done | intros H'; by apply not_elem_of_nil in H']|].
  intros [[Hin Hs]%elem_of_release Hk]%IH. split; [done|]. intros [-> | Hx]%elem_of_cons; [exists held; by apply Hs | by apply Hk].
Qed.

Lemma release_once keys held : NoDup held -> NoDup (fold_left release keys held).
Proof.
  revert held; induction keys as [|s keys IH]; intros held H; [done|]. cbn [fold_left]. apply IH. unfold release.
  destruct (release_fails held s); [done|]. by apply NoDup_filter.
Qed.

(** ** Taking hold *)

(** What a run of the loop over [wanted] leaves. *)
Record grabbed_for (system : WindowSystem) wanted d (r : list BindingStatus * list (rstring * Action)) d' : Prop := {
  gf_new : exists new, dk_bound d' = dk_bound d ++ new /\ dk_grabbed d' = dk_grabbed d ++ map fst new /\
    (forall e, e ∈ new -> exists accelerator, (e.2, accelerator) ∈ bound_by wanted /\ parse_shortcut accelerator = inr e.1) /\
    (forall st, st ∈ r.1 -> bs_reach st = FocusedReach \/
       exists action s, (action, bs_accelerator st) ∈ bound_by wanted /\ bs_action st = action_label action /\
         parse_shortcut (bs_accelerator st) = inr s /\ (s, action) ∈ new /\ bs_reach st = system_reach system);
  gf_once : NoDup (dk_grabbed d) -> NoDup (dk_grabbed d');
  gf_rest : dk_app d' = dk_app d /\ dk_mouse d' = dk_mouse d /\ dk_readers d' = dk_readers d /\ dk_stopped d' = dk_stopped d;
  gf_all : map about r.1 ++ map (fun e => (action_label e.2, e.1)) r.2 ≡ₚ map named (bound_by wanted);
  gf_mouse e : e ∈ r.2 -> (e.2, e.1) ∈ bound_by wanted }.

(** One key: it is held from now on and acts, or nothing changes. *)
Lemma grab_key_grabs system action accelerator d :
  ends (fun r d' => exists new, d' = put_bound (dk_bound d ++ new) (put_grabbed (dk_grabbed d ++ map fst new) d) /\
      (new = [] /\ r.1 = FocusedReach \/
       exists s, new = [(s, action)] /\ parse_shortcut accelerator = inr s /\ (s ∉ dk_grabbed d) /\ r.1 = system_reach system))
    (grab_key system action accelerator) d.
Proof.
  assert (Hid : d = put_bound (dk_bound d ++ []) (put_grabbed (dk_grabbed d ++ map fst ([] : list (Shortcut * Action))) d))
    by (cbn; rewrite !app_nil_r; by destruct d).
  unfold grab_key. destruct (parse_shortcut accelerator) as [e|s] eqn:Ep; [apply ends_ret; exists []; split; [exact Hid | by left]|].
  apply ends_call. unfold register. destruct (grab_refused (dk_grabbed d) s) as [e|] eqn:Eg; cbn [fst snd].
  - apply ends_ret. exists []. split; [exact Hid | by left].
  - apply ends_update, ends_ret. exists [(s, action)]. split; [done|]. right. exists s. split_and!; try done.
    intros Hs. destruct (held_is_refused _ _ Hs) as [x Hx]. congruence.
Qed.

Lemma grab_all_grabs sys system wanted d : ends (fun r d' => grabbed_for system wanted d r d') (grab_all sys system wanted) d.
Proof.
  revert d; induction wanted as [|[action accelerator] wanted IH]; intros d; cbn [grab_all].
  { apply ends_ret. split; [| done | done | done | intros e H; by apply not_elem_of_nil in H].
    exists []. cbn. rewrite !app_nil_r. split_and!; [done | done | intros e H | intros st H]; by apply not_elem_of_nil in H. }
  destruct (configured accelerator) as [acc|] eqn:Ec.
  2: { assert (Hb : bound_by ((action, accelerator) :: wanted) = bound_by wanted) by (unfold bound_by; cbn; by rewrite Ec).
       eapply ends_weaken; [apply IH|]. intros r d' [H1 H2 H3 H4 H5]. split; rewrite ?Hb; done. }
  assert (Hb : bound_by ((action, accelerator) :: wanted) = (action, acc) :: bound_by wanted) by (unfold bound_by; cbn; by rewrite Ec).
  destruct (goes_to_mouse sys acc).
  - eapply ends_bind; [apply IH|]. intros r d' [(new & H1 & H1' & Hnew & Hst) H2 H3 H4 H5]. apply ends_ret. split; rewrite ?Hb; cbn [fst snd map]; [|done..| |].
    + exists new. split_and!; [done..| |].
      * intros e He. destruct (Hnew e He) as (x & Hx & Hp). exists x. split; [by right | done].
      * intros st Hin. destruct (Hst st Hin) as [? | (x & s & Hx & Hr)]; [by left | right]. exists x, s. split; [by right | done].
    + cbn. rewrite <- H4. symmetry. apply Permutation_middle.
    + intros e [-> | He]%elem_of_cons; [left | right; by apply H5].
  - eapply ends_bind; [apply grab_key_grabs|]. intros [reach note] d1 (new1 & -> & Hgrab). eapply ends_bind; [apply IH|].
    intros r d' [(new & H1 & H1' & Hnew & Hst) H2 H3 H4 H5]. apply ends_ret. cbn [fst snd] in *. split; rewrite ?Hb; cbn [fst snd map].
    + exists (new1 ++ new). rewrite H1, H1'. cbn [dk_bound dk_grabbed put_bound put_grabbed]. rewrite map_app, !app_assoc. split_and!; [done..| |].
      * intros e [He | He]%elem_of_app.
        { destruct Hgrab as [[-> _] | (s & -> & Hp & _)]; [by apply not_elem_of_nil in He|].
          apply list_elem_of_singleton in He as ->. exists acc. split; [left | done]. }
        destruct (Hnew e He) as (x & Hx & Hpx). exists x. split; [by right | done].
      * intros st [-> | Hin]%elem_of_cons; cbn [bs_reach bs_action bs_accelerator].
        { destruct Hgrab as [[_ ->] | (s & -> & Hp & _ & ->)]; [by left|]. right. exists action, s. split_and!; try done; [left|].
          apply elem_of_app. left. by apply list_elem_of_singleton. }
        destruct (Hst st Hin) as [? | (x & s & Hx & Ha & Hp & Hn & Hr)]; [by left | right]. exists x, s. split_and!; try done; [by right|].
        apply elem_of_app. by right.
    + intros Hn. apply H2. cbn [dk_grabbed put_bound put_grabbed]. destruct Hgrab as [[-> _] | (s & -> & _ & Hs & _)]; cbn; [by rewrite app_nil_r|].
      apply NoDup_app. split_and!; [done | | apply NoDup_singleton]. intros x Hx ->%list_elem_of_singleton. done.
    + done.
    + by apply Permutation_cons.
    + intros e He. right. by apply H5.
Qed.

(** ** The mice *)

Lemma started_readers sys bindings readers :
  (start_mouse sys bindings).1 = Some readers ->
  readers <> [] /\ forall r code action, r ∈ readers -> (code, action) ∈ rd_codes r ->
    exists accelerator, (accelerator, action) ∈ bindings /\ button_code accelerator = Some code.
Proof.
  unfold start_mouse. destruct (is_empty bindings); [done|]. pose proof (start_readers sys bindings) as Hr.
  destruct (start sys bindings) as [rs outcome] eqn:E. cbn [fst] in *. destruct (is_active outcome) eqn:Ea; [|done]. intros [= <-]. split.
  - intros ->. revert E Ea. unfold start. destruct (wanted_codes bindings) as [wanted modified].
    destruct (is_empty wanted); [destruct modified; by intros [= <-]|]. cbv zeta.
    destruct (is_empty (opened_readers _)) eqn:Eo; [destruct (is_empty (dedupe _)); by intros [= <-]|].
    intros [= Hn _]. by rewrite Hn in Eo.
  - intros r code action Hin Hc. destruct (Hr r Hin) as (device & _ & Hcon). apply consider_opens in Hcon as (_ & keys & _ & _ & _ & Hcodes).
    destruct (Hcodes _ Hc) as [Hw _]. by apply wanted_codes_bound in Hw.
Qed.

Lemma mouse_reports sys bindings e :
  bs_reach (mouse_status (start_mouse sys bindings).2 e) = DeviceReach -> is_Some (start_mouse sys bindings).1.
Proof.
  unfold start_mouse, mouse_status. destruct (is_empty bindings); [done|]. destruct (start sys bindings) as [rs outcome]. cbn.
  by destruct (is_active outcome).
Qed.
(** After a replacement every grab before it is stopped, and stopped grabs are old ones. *)
Lemma replaced_stops readers d g :
  registry_in_order d -> g ∈ dk_stopped (replace_mouse readers d) <-> (g < length (dk_readers d))%nat.
Proof.
  intros [_ _ _ Hk Ho]. specialize (Hk g). specialize (Ho g). unfold replace_mouse. cbn [dk_stopped]. split.
  - intros Hg. apply Hk. destruct (dk_mouse d); [apply elem_of_cons in Hg as [-> | Hg]; [by right | by left] | by left].
  - intros Hg. specialize (Ho Hg). destruct (decide (g ∈ dk_stopped d)) as [Hs | Hs]; [destruct (dk_mouse d); [by right | done]|].
    rewrite (proj1 Ho Hs). left.
Qed.

Lemma replaced_in_order readers d : registry_in_order d -> registry_in_order (replace_mouse readers d).
Proof.
  intros Hd. pose proof (replaced_stops readers d) as Hs. destruct (Hd) as [H1 H2 H3 _ _]. split; [done | done | done | |]; intros g;
    rewrite Hs by done; destruct readers as [rs|]; cbn [replace_mouse dk_mouse dk_readers]; rewrite ?length_app; cbn [length].
  - intros [? | [= <-]]; lia.
  - by intros [? | ?].
  - intros Hg. split; [intros ?; f_equal; lia | intros [= <-]; lia].
  - intros Hg. split; [lia | done].
Qed.

(** C25: rebinding is a full replacement, and its report is kept, also where the system fails to
    let a key go. Starting from a registry in order, the application is left as it was and the
    registry is in order again: every key that acts is held for us, for one action, and of all
    readers of mice only those of the last grab run. A key that is held and does nothing was
    held before, and the system either failed to release it or had failed to before; so when
    no release fails, the keys held are the keys that act. Every binding of the settings gets
    exactly one status; a key that is reported to work everywhere is held and does what it is
    bound to; a button is reported only while a reader runs; and nothing acts, key or button,
    that the settings do not bind to that action. The shortcut library is taken at its word
    that it refuses to register a key it already holds. *)
Theorem rebinding_is_a_full_replacement sys system d :
  registry_in_order d ->
  let bound := bound_by (wanted_of (st_keybinds (ap_settings (dk_app d)))) in
  ends (fun statuses d' =>
      dk_app d' = dk_app d /\ registry_in_order d' /\
      (forall s, s ∈ dk_grabbed d' -> action_for s d' = None ->
         s ∈ dk_grabbed d /\ (action_for s d = None \/ exists held, release_fails held s = true)) /\
      map about statuses ≡ₚ map named bound /\
      (forall st, st ∈ statuses -> bs_reach st = ExclusiveReach \/ bs_reach st = SharedReach ->
         exists action s, (action, bs_accelerator st) ∈ bound /\ bs_action st = action_label action /\
           parse_shortcut (bs_accelerator st) = inr s /\ s ∈ dk_grabbed d' /\ action_for s d' = Some action) /\
      (forall st, st ∈ statuses -> bs_reach st = DeviceReach -> exists g, dk_mouse d' = Some g) /\
      (forall s action, action_for s d' = Some action -> exists accelerator, (action, accelerator) ∈ bound /\ parse_shortcut accelerator = inr s) /\
      (forall g readers r code action, dk_readers d' !! g = Some readers -> g ∉ dk_stopped d' -> r ∈ readers -> (code, action) ∈ rd_codes r ->
         exists accelerator, (action, accelerator) ∈ bound /\ button_code accelerator = Some code))
    (apply_keybinds sys system) d.
Proof.
  intros Hd bound. unfold apply_keybinds. apply ends_update.
  set (d0 := release_all d). set (kept := fold_left release (map fst (dk_bound d)) (dk_grabbed d)).
  apply ends_get. change (st_keybinds (ap_settings (dk_app d0))) with (st_keybinds (ap_settings (dk_app d))).
  eapply ends_bind; [apply grab_all_grabs|]. intros r d1 [(new & Hb & Hg & Hnew & Hst) Honce (Ea & Em & Er & Es) Hall Hmouse].
  change (dk_grabbed d0) with kept in Hg, Honce. cbn in Hb. specialize (Honce (release_once _ _ (rg_grabbed d Hd))).
  assert (Hd1 : registry_in_order d1).
  { destruct Hd as [_ _ _ Hk Ho]. split; [intros s; rewrite Hb, Hg, elem_of_app; by right | done | | |]; try (intros g; rewrite Em, Er, Es; [apply Hk || apply Ho]).
    rewrite Hg in Honce. rewrite Hb. by apply NoDup_app in Honce as (_ & _ & ?). }
  cbv zeta. destruct (start_mouse sys r.2) as [readers outcome] eqn:Estart.
  pose proof (started_readers sys r.2) as Hread. pose proof (mouse_reports sys r.2) as Hrep. rewrite Estart in Hread, Hrep. cbn [fst snd] in *.
  apply ends_update, ends_ret. pose proof (replaced_in_order readers d1 Hd1) as Hd2. split_and!; [done | done | | | | | |].
  - intros s Hs Hn%idle_unbound. cbn in Hs, Hn. rewrite Hg in Hs. rewrite Hb in Hn. apply elem_of_app in Hs as [Hs | Hs]; [|done].
    apply released_or_failed in Hs as [Hs Hf]. split; [done|]. destruct (action_for s d) eqn:Ea'; [right | by left].
    apply Hf. apply acts_bound in Ea'. by apply (list_elem_of_fmap_2 fst _ (s, a)).
  - rewrite map_app, map_map. exact Hall.
  - intros st [Hin | Hin]%elem_of_app Hr.
    + destruct (Hst st Hin) as [Hf | (action & s & Hbo & Ha & Hp & Hn & _)]; [rewrite Hf in Hr; by destruct Hr|].
      exists action, s. split_and!; try done; [cbn; rewrite Hg; apply elem_of_app; right; by apply (list_elem_of_fmap_2 fst) in Hn|].
      apply bound_acts; [apply Hd2 | cbn; by rewrite Hb].
    + apply list_elem_of_fmap in Hin as (e & -> & _). cbn in Hr. destruct (is_active outcome); by destruct Hr.
  - intros st [Hin | Hin]%elem_of_app Hr.
    + destruct (Hst st Hin) as [Hf | (action & s & _ & _ & _ & _ & Hf)]; rewrite Hf in Hr; [done | by destruct system].
    + apply list_elem_of_fmap in Hin as (e & -> & _). destruct (Hrep e Hr) as [rs ->]. cbn. by eexists.
  - intros s action Ha%acts_bound. cbn in Ha. rewrite Hb in Ha. by apply (Hnew (s, action)).
  - intros g rs x code action Hl Hns Hx Hc. rewrite replaced_stops in Hns by done. destruct readers as [rs'|]; cbn in Hl.
    + apply lookup_app_Some in Hl as [Hl | [Hge Hl]]; [apply lookup_lt_Some in Hl; lia|].
      apply list_lookup_singleton_Some in Hl as [_ <-]. destruct (Hread rs' eq_refl) as [_ H].
      destruct (H x code action Hx Hc) as (acc & Hacc & Hcode). exists acc. split; [by apply (Hmouse (acc, action)) | done].
    + apply lookup_lt_Some in Hl. lia.
Qed.

(** Nothing is held at first. *)
Lemma empty_registry_in_order a : registry_in_order (mkDesk a [] None [] [] []).
Proof.
  split; [done | apply NoDup_nil_2 | apply NoDup_nil_2 | |]; cbn; intros g; [intros [H | H]; [by apply not_elem_of_nil in H | done] | lia].
Qed.

(** Acting changes the application only. *)
Lemma acting_keeps_the_registry a d : registry_in_order d -> registry_in_order (put_app a d).
Proof. by intros [H1 H2 H3 H4 H5]. Qed.

End Laws.
End Keys.
