(* ===== verification/Tables.v ===== *)
(** * The application's tables under every interleaving

    The commands, the pumps and the shortcuts run on threads of their own and take the locks of
    [App] one at a time.  [app_tables] says what holds of the tables whatever their order: each session
    stands under the id it was issued, with its own client, mirror and event pump, and the
    microphone's route pairs an id with that id's own client. *)

From S2P Require Export Commands Shortcuts.
From S2P Require Import Keystore Vault Settings Bookmarks.

Section Tables.
Context {C : Crypto} {M : Libm} {O : Opus} {HO : HashOrder}.
Implicit Types a : App.

(** ** The invariant *)

(** The mirror was made for this session, and watches the identity the session is listed under. *)
Definition own_mirror (s : ActiveSession) a : Prop :=
  ap_mirrored a !! as_perms s = Some (as_id s) /\
  (fun m => fp_to_string (pm_fingerprint m)) <$> ap_mirrors a !! as_perms s = Some (as_identity s).

Record app_tables a : Prop := {
  tb_next : 1 <= ap_next_session a;
  tb_listed id s : ap_sessions a !! id = Some s ->
    as_id s = id /\ ap_issued a !! id = Some (as_client s) /\ own_mirror s a /\
    task_kind <$> ap_tasks a !! as_event_pump s = Some (EventPump id (as_perms s));
  tb_route id c : ap_voice a = Some (id, c) -> ap_issued a !! id = Some c;
  tb_issued id c : ap_issued a !! id = Some c -> 1 <= id < ap_next_session a /\ is_Some (ap_clients a !! c);
  tb_mirrored m id : ap_mirrored a !! m = Some id -> is_Some (ap_mirrors a !! m);
  tb_own id id' c : ap_issued a !! id = Some c -> ap_issued a !! id' = Some c -> id = id';
  tb_task t kind : task_kind <$> ap_tasks a !! t = Some kind ->
    match kind with EventPump _ m => is_Some (ap_mirrors a !! m) | CapturePump e => is_Some (ap_engines a !! e) end;
  tb_engine e : ap_engine a = Some e -> is_Some (ap_engines a !! e);
  tb_fresh r : ap_next_ref a <= r ->
    ap_clients a !! r = None /\ ap_mirrors a !! r = None /\ ap_engines a !! r = None /\ ap_tasks a !! r = None }.

(** What no step takes back: the ids that were issued, and what the stores hold. *)
Record grows a a' : Prop := {
  gr_issued : ap_issued a ⊆ ap_issued a';
  gr_mirrored : ap_mirrored a ⊆ ap_mirrored a';
  gr_mirrors m fp : pm_fingerprint <$> ap_mirrors a !! m = Some fp -> pm_fingerprint <$> ap_mirrors a' !! m = Some fp;
  gr_engines e : is_Some (ap_engines a !! e) -> is_Some (ap_engines a' !! e);
  gr_tasks t kind : task_kind <$> ap_tasks a !! t = Some kind -> task_kind <$> ap_tasks a' !! t = Some kind;
  gr_next : ap_next_session a <= ap_next_session a' }.

#[export] Instance grows_refl : Reflexive grows.
Proof. by split. Qed.

#[export] Instance grows_trans : Transitive grows.
Proof.
  intros x y z Hxy Hyz. split; intros; [by etrans; [apply (gr_issued _ _ Hxy) | apply (gr_issued _ _ Hyz)] |
    by etrans; [apply (gr_mirrored _ _ Hxy) | apply (gr_mirrored _ _ Hyz)] | | | |
    pose proof (gr_next _ _ Hxy); pose proof (gr_next _ _ Hyz); lia].
  - by apply (gr_mirrors _ _ Hyz), (gr_mirrors _ _ Hxy).
  - by apply (gr_engines _ _ Hyz), (gr_engines _ _ Hxy).
  - by apply (gr_tasks _ _ Hyz), (gr_tasks _ _ Hxy).
Qed.

(** A step that only works inside what is there: values change in place, sessions and the route
    may go. *)
Record like a a' : Prop := {
  lk_issued : ap_issued a' = ap_issued a;
  lk_next : ap_next_session a' = ap_next_session a;
  lk_ref : ap_next_ref a' = ap_next_ref a;
  lk_sessions : ap_sessions a' ⊆ ap_sessions a;
  lk_voice : ap_voice a' = ap_voice a \/ ap_voice a' = None;
  lk_engine : ap_engine a' = ap_engine a \/ ap_engine a' = None;
  lk_clients r : is_Some (ap_clients a' !! r) <-> is_Some (ap_clients a !! r);
  lk_mirrored : ap_mirrored a' = ap_mirrored a;
  lk_mirrors r : pm_fingerprint <$> ap_mirrors a' !! r = pm_fingerprint <$> ap_mirrors a !! r;
  lk_engines r : is_Some (ap_engines a' !! r) <-> is_Some (ap_engines a !! r);
  lk_tasks t : task_kind <$> ap_tasks a' !! t = task_kind <$> ap_tasks a !! t }.

#[export] Instance like_refl : Reflexive like.
Proof. split; auto. Qed.

#[export] Instance like_trans : Transitive like.
Proof.
  intros x y z H1 H2. split.
  - by rewrite (lk_issued _ _ H2), (lk_issued _ _ H1).
  - by rewrite (lk_next _ _ H2), (lk_next _ _ H1).
  - by rewrite (lk_ref _ _ H2), (lk_ref _ _ H1).
  - etrans; [apply (lk_sessions _ _ H2) | apply (lk_sessions _ _ H1)].
  - destruct (lk_voice _ _ H2) as [-> | ->]; [apply (lk_voice _ _ H1) | by right].
  - destruct (lk_engine _ _ H2) as [-> | ->]; [apply (lk_engine _ _ H1) | by right].
  - intros r. by rewrite (lk_clients _ _ H2), (lk_clients _ _ H1).
  - by rewrite (lk_mirrored _ _ H2), (lk_mirrored _ _ H1).
  - intros r. by rewrite (lk_mirrors _ _ H2), (lk_mirrors _ _ H1).
  - intros r. by rewrite (lk_engines _ _ H2), (lk_engines _ _ H1).
  - intros r. by rewrite (lk_tasks _ _ H2), (lk_tasks _ _ H1).
Qed.

Lemma not_some_iff {A B} (x : option A) (y : option B) : (is_Some x <-> is_Some y) -> y = None -> x = None.
Proof. intros H ->. destruct x; [|done]. by destruct (proj1 H (mk_is_Some _ _ eq_refl)). Qed.

(** A mirror with its fingerprint is a mirror. *)
Lemma watched_is_Some a m : is_Some (ap_mirrors a !! m) <-> exists fp, pm_fingerprint <$> ap_mirrors a !! m = Some fp.
Proof. destruct (ap_mirrors a !! m) as [x|]; split; [by exists (pm_fingerprint x) | done | by intros [] | by intros []]. Qed.

Lemma mirrors_grow a a' m : grows a a' -> is_Some (ap_mirrors a !! m) -> is_Some (ap_mirrors a' !! m).
Proof. intros Hg. rewrite !watched_is_Some. intros [fp H]. exists fp. by apply (gr_mirrors _ _ Hg). Qed.

(** Nothing takes a session's mirror away, or turns it to another identity. *)
Lemma own_mirror_grows s a a' : grows a a' -> own_mirror s a -> own_mirror s a'.
Proof.
  intros Hg [H1 H2]. split; [eapply lookup_weaken; [exact H1 | apply (gr_mirrored _ _ Hg)]|].
  destruct (ap_mirrors a !! as_perms s) as [m|] eqn:E; [|done]. injection H2 as <-.
  assert (H : pm_fingerprint <$> ap_mirrors a' !! as_perms s = Some (pm_fingerprint m)).
  { apply (gr_mirrors _ _ Hg). by rewrite E. }
  destruct (ap_mirrors a' !! as_perms s) as [m'|]; [|done]. by injection H as <-.
Qed.

Lemma like_grows a a' : app_tables a -> like a a' -> app_tables a' /\ grows a a'.
Proof.
  intros Ht Hl. destruct Hl as [Hi Hn Hr Hs Hv He Hcl Hmd Hm Hen Hta].
  assert (Hg : grows a a').
  { split; rewrite ?Hi, ?Hn, ?Hmd; [done | done | intros r fp; by rewrite Hm | intros r; apply Hen | intros t kind; by rewrite Hta | done]. }
  assert (Hms : forall r, is_Some (ap_mirrors a' !! r) <-> is_Some (ap_mirrors a !! r)) by (intros r; by rewrite !watched_is_Some, Hm).
  split; [|exact Hg]. { split; rewrite ?Hn, ?Hi, ?Hr, ?Hmd.
    + apply Ht.
    + intros id s Hid. eapply lookup_weaken in Hid; [|exact Hs]. destruct (tb_listed _ Ht id s Hid) as (H1 & H2 & H3 & H4).
      rewrite Hta. split_and!; [done.. | by apply (own_mirror_grows _ a) | done].
    + intros id c Hid. destruct Hv as [Ev | Ev]; rewrite Ev in Hid; [|done]. by apply (tb_route _ Ht).
    + intros id c Hid. destruct (tb_issued _ Ht id c Hid). split; [done | by apply Hcl].
    + intros m id Hid. by apply Hms, (tb_mirrored _ Ht m id).
    + apply (tb_own _ Ht).
    + intros t kind. rewrite Hta. intros Hk. pose proof (tb_task _ Ht t kind Hk) as H. destruct kind; [by apply Hms | by apply Hen].
    + intros e Hid. destruct He as [Ee | Ee]; rewrite Ee in Hid; [|done]. by apply Hen, (tb_engine _ Ht).
    + intros r Hge. destruct (tb_fresh _ Ht r Hge) as (H1 & H2 & H3 & H4).
      split_and!; [by eapply not_some_iff; [apply Hcl|] | by eapply not_some_iff; [apply Hms|] | by eapply not_some_iff; [apply Hen|]|].
      specialize (Hta r). rewrite H4 in Hta. by destruct (ap_tasks a' !! r). }
Qed.

(** ** The updates that change values in place *)

Lemma alter_is_Some {A} (f : A -> A) k (m : gmap Z A) r : is_Some (alter f k m !! r) <-> is_Some (m !! r).
Proof. destruct (decide (k = r)) as [-> |]; [rewrite lookup_alter_eq; apply fmap_is_Some | by rewrite lookup_alter_ne]. Qed.

Lemma overwrite_is_Some {A} (x : A) k (m : gmap Z A) r : is_Some (m !! k) -> is_Some (<[k := x]> m !! r) <-> is_Some (m !! r).
Proof. intros H. destruct (decide (k = r)) as [-> |]; [rewrite lookup_insert_eq; split; [done | by eexists] | by rewrite lookup_insert_ne]. Qed.

Lemma change_client_like c f a : like a (change_client c f a).
Proof. split; auto. intros r. apply alter_is_Some. Qed.

Lemma change_engine_like e f a : like a (change_engine e f a).
Proof. split; auto. intros r. apply alter_is_Some. Qed.

Lemma finish_task_like t a : like a (finish_task t a).
Proof.
  split; auto. intros r. unfold finish_task, up_tasks. cbn. destruct (decide (t = r)) as [-> |]; [|by rewrite lookup_alter_ne].
  rewrite lookup_alter_eq. by destruct (ap_tasks a !! r).
Qed.

Lemma on_client_like {R} c (f : Client -> R * Client) d a : like a (on_client c f d a).2.
Proof.
  unfold on_client. destruct (ap_clients a !! c) as [x|] eqn:E; [|done]. destruct (f x) as [r y]. split; auto.
  intros k. apply overwrite_is_Some. by exists x.
Qed.

Lemma tell_client_like c f a : like a (tell_client c f a).
Proof. apply on_client_like. Qed.

(** A mirror follows events and keeps the identity it watches. *)
Lemma mirror_apply_watches event m : pm_fingerprint (mirror_apply event m).2 = pm_fingerprint m.
Proof. destruct event; cbn; repeat case_bool_decide; done. Qed.

Lemma on_mirror_like m event d a : like a (on_mirror m (mirror_apply event) d a).2.
Proof.
  unfold on_mirror. destruct (ap_mirrors a !! m) as [x|] eqn:E; [|done]. pose proof (mirror_apply_watches event x) as H.
  destruct (mirror_apply event x) as [r y]. split; auto. intros k. cbn.
  destruct (decide (m = k)) as [<- |]; [rewrite lookup_insert_eq, E; cbn; by f_equal | by rewrite lookup_insert_ne].
Qed.

Lemma claim_like t a : like a (claim t a).2.
Proof.
  unfold claim. destruct (ap_tasks a !! t) as [[kind []]|] eqn:E; try done. split; auto. intros r. unfold up_tasks. cbn.
  destruct (decide (t = r)) as [<- |]; [by rewrite lookup_insert_eq, E | by rewrite lookup_insert_ne].
Qed.

Lemma recv_frame_like e a : like a (recv_frame e a).2.
Proof. unfold recv_frame. destruct (ap_frames a !! e) as [[[|f rest] []]|]; split; auto. Qed.

Lemma input_callback_like e samples c a : like a (input_callback e samples c a).2.
Proof.
  unfold input_callback. destruct (ap_engines a !! e) as [x|]; [|done]. destruct (capture_push _ _ _) as [[sent c'] k]. cbn [snd].
  etrans; [apply (change_engine_like e (set_controls k))|]. split; auto.
Qed.

Lemma take_engine_frames_like e a : like a (take_engine_frames e a).2.
Proof.
  unfold take_engine_frames. destruct (ap_engines a !! e) as [x|] eqn:E; [|done]. destruct (take_frames x) as [[q|] y]; [|done].
  split; auto. intros r. apply overwrite_is_Some. by exists x.
Qed.

Lemma fold_like {A} (f : App -> A -> App) l a : (forall x a, like a (f a x)) -> like a (fold_left f l a).
Proof. intros H. revert a; induction l as [|x l IH]; intros a; [done|]. simpl. etrans; [apply H | apply IH]. Qed.

Lemma tell_all_like muted deafened a : like a (tell_all muted deafened a).
Proof. apply fold_like. intros. apply tell_client_like. Qed.

Lemma tell_sessions_of_like fp message a : like a (tell_sessions_of fp message a).
Proof. apply fold_like. intros x a'. case_bool_decide; [apply tell_client_like | done]. Qed.

Lemma clear_if_like id a : like a (clear_if id a).2.
Proof. unfold clear_if. destruct (ap_voice a) as [[current c]|]; [|done]. destruct (current =? id); split; auto. Qed.

Lemma remove_session_like id a : like a (remove_session id a).2.
Proof. split; auto. apply delete_subseteq. Qed.

Lemma clear_engine_like a : like a (replace_engine None a).2.
Proof. split; auto. Qed.

End Tables.

#[export] Existing Instance grows_refl.
#[export] Existing Instance grows_trans.
#[export] Existing Instance like_refl.
#[export] Existing Instance like_trans.
Create HintDb like.
#[export] Hint Resolve change_client_like change_engine_like finish_task_like on_client_like tell_client_like on_mirror_like
  claim_like recv_frame_like input_callback_like take_engine_frames_like tell_all_like tell_sessions_of_like clear_if_like
  remove_session_like clear_engine_like : like.

Section Growing.
Context {C : Crypto} {M : Libm} {O : Opus} {HO : HashOrder}.
Implicit Types a : App.

(** ** The updates that make something new *)

Lemma fresh_ne a r x : app_tables a -> (is_Some (ap_clients a !! x) \/ is_Some (ap_mirrors a !! x) \/ is_Some (ap_engines a !! x) \/
  is_Some (ap_tasks a !! x)) -> ap_next_ref a <= r -> x <> r.
Proof. intros Ht H Hr ->. destruct (tb_fresh _ Ht r Hr) as (H1 & H2 & H3 & H4). rewrite H1, H2, H3, H4 in H. destruct H as [[] | [[] | [[] | []]]]; done. Qed.

Lemma insert_is_Some {A} (x : A) k (m : gmap Z A) r : is_Some (m !! r) -> is_Some (<[k := x]> m !! r).
Proof. intros H. destruct (decide (k = r)) as [-> |]; [rewrite lookup_insert_eq; by eexists | by rewrite lookup_insert_ne]. Qed.

(** Beyond the next place nothing is taken. *)
Lemma fresh_insert {A} (x : A) k (m : gmap Z A) r : m !! r = None -> k < r -> <[k := x]> m !! r = None.
Proof. intros H Hk. rewrite lookup_insert_ne by lia. exact H. Qed.

Lemma start_engine_tables config opened a :
  app_tables a -> let '(r, a') := start_engine config opened a in
  app_tables a' /\ grows a a' /\ match r with inr e => is_Some (ap_engines a' !! e) | inl _ => True end.
Proof.
  intros Ht. unfold start_engine. destruct (engine_start config opened) as [e | engine]; [done|]. cbn.
  assert (Hg : grows a (up_engines <[ap_next_ref a := engine]> (fresh_ref a).2)).
  { split; cbn; try done. intros e. apply insert_is_Some. }
  split_and!; [|exact Hg | rewrite lookup_insert_eq; by eexists]. split; cbn; try apply Ht.
  - intros t kind Hk. pose proof (tb_task _ Ht t kind Hk). destruct kind; [done | by apply insert_is_Some].
  - intros e He. apply insert_is_Some, Ht, He.
  - intros r Hr. destruct (tb_fresh _ Ht r ltac:(lia)) as (H1 & H2 & H3 & H4). split_and!; [done.. | apply fresh_insert; [done | lia] | done].
Qed.

Lemma replace_engine_tables e a :
  app_tables a -> is_Some (ap_engines a !! e) -> app_tables (replace_engine (Some e) a).2 /\ grows a (replace_engine (Some e) a).2.
Proof. intros Ht He. split; [|done]. destruct Ht. split; try done. cbn. by intros ? [= <-]. Qed.

Lemma spawn_tables kind a :
  app_tables a -> match kind with EventPump _ m => is_Some (ap_mirrors a !! m) | CapturePump e => is_Some (ap_engines a !! e) end ->
  let '(t, a') := spawn kind a in app_tables a' /\ grows a a' /\ task_kind <$> ap_tasks a' !! t = Some kind.
Proof.
  intros Ht Hk. cbn. assert (Hold : forall t, task_kind <$> ap_tasks a !! t = Some kind \/ is_Some (ap_tasks a !! t) -> t <> ap_next_ref a).
  { intros t H. apply (fresh_ne a _ t Ht); [|lia]. right; right; right. destruct H as [H |]; [|done]. by destruct (ap_tasks a !! t). }
  assert (Hkeep : forall t k, task_kind <$> ap_tasks a !! t = Some k ->
            task_kind <$> <[ap_next_ref a := mkTask kind Spawned]> (ap_tasks a) !! t = Some k).
  { intros t k H. rewrite lookup_insert_ne; [exact H|]. intros E. apply (Hold t); [right | done]. by destruct (ap_tasks a !! t). }
  split_and!; [| by split | by rewrite lookup_insert_eq]. split; cbn; try apply Ht.
  - intros id s Hid. destruct (tb_listed _ Ht id s Hid) as (H1 & H2 & H3 & H4). split_and!; [done.. | by apply Hkeep].
  - intros t k. destruct (decide (ap_next_ref a = t)) as [<- |]; [rewrite lookup_insert_eq; by intros [= <-] | rewrite lookup_insert_ne by done; apply Ht].
  - intros r Hr. destruct (tb_fresh _ Ht r ltac:(lia)) as (H1 & H2 & H3 & H4). split_and!; [done.. | apply fresh_insert; [done | lia]].
Qed.

(** The place of a new mirror was nobody's before. *)
Lemma new_mirror_grows id m a : app_tables a -> grows a (new_mirror id m a).2.
Proof.
  intros Ht. destruct (tb_fresh _ Ht (ap_next_ref a) ltac:(lia)) as (_ & Hm & _ & _). split; cbn; try done.
  - apply insert_subseteq. destruct (ap_mirrored a !! ap_next_ref a) as [i|] eqn:E; [|done].
    apply (tb_mirrored _ Ht) in E. rewrite Hm in E. by destruct E.
  - intros r fp H. rewrite lookup_insert_ne; [done|]. intros <-. by rewrite Hm in H.
Qed.

Lemma new_mirror_tables id m a :
  app_tables a -> let '(r, a') := new_mirror id m a in
  app_tables a' /\ grows a a' /\ ap_mirrored a' !! r = Some id /\ pm_fingerprint <$> ap_mirrors a' !! r = Some (pm_fingerprint m).
Proof.
  intros Ht. pose proof (new_mirror_grows id m a Ht) as Hg. cbn in *. rewrite !lookup_insert_eq. split_and!; [|done..].
  split; cbn; try apply Ht.
  - intros id' s Hid. destruct (tb_listed _ Ht id' s Hid) as (H1 & H2 & H3 & H4).
    split_and!; [done.. | by apply (own_mirror_grows _ _ _ Hg) | done].
  - intros r i. destruct (decide (ap_next_ref a = r)) as [<- |];
      [rewrite !lookup_insert_eq; by eexists | rewrite !lookup_insert_ne by done; apply Ht].
  - intros t kind Hk. pose proof (tb_task _ Ht t kind Hk). destruct kind; [by apply insert_is_Some | done].
  - intros r Hr. destruct (tb_fresh _ Ht r ltac:(lia)) as (H1 & H2 & H3 & H4). split_and!; [done | apply fresh_insert; [done | lia] | done..].
Qed.

(** Session ids are not used up. *)
Definition ids_left a : Prop := ap_next_session a < u64_max.

Lemma next_session_id_tables client a :
  ids_left a -> app_tables a -> let '((id, c), a') := next_session_id client a in
  app_tables a' /\ grows a a' /\ ap_issued a' !! id = Some c.
Proof.
  intros Hp Ht. cbn. pose proof (tb_next _ Ht). unfold ids_left, u64_max in Hp.
  assert (Hw : wrap 64 (ap_next_session a + 1) = ap_next_session a + 1) by (apply wrap_id; split; lia). rewrite Hw.
  assert (Hnew : ap_issued a !! ap_next_session a = None).
  { destruct (ap_issued a !! ap_next_session a) as [c|] eqn:E; [|done]. apply (tb_issued _ Ht) in E. lia. }
  assert (Hsub : ap_issued a ⊆ <[ap_next_session a := ap_next_ref a]> (ap_issued a)) by by apply insert_subseteq.
  assert (Hg : grows a (next_session_id client a).2) by (split; cbn; rewrite ?Hw; try done; lia). cbn in Hg. rewrite Hw in Hg.
  split_and!; [| exact Hg | by rewrite lookup_insert_eq]. split; cbn.
  - lia.
  - intros id s Hid. destruct (tb_listed _ Ht id s Hid) as (H1 & H2 & H3 & H4). split_and!; try done. by eapply lookup_weaken.
  - intros id c Hid. eapply lookup_weaken; [by apply (tb_route _ Ht) | done].
  - intros id c. destruct (decide (ap_next_session a = id)) as [<- |].
    + rewrite lookup_insert_eq. intros [= <-]. split; [lia|]. rewrite lookup_insert_eq. by eexists.
    + rewrite lookup_insert_ne by done. intros Hc. destruct (tb_issued _ Ht id c Hc). split; [lia | by apply insert_is_Some].
  - apply Ht.
  - assert (Hfresh : forall id, ap_issued a !! id <> Some (ap_next_ref a)).
    { intros id Hc. destruct (tb_issued _ Ht id _ Hc) as [_ Hs]. by eapply (fresh_ne a (ap_next_ref a) _ Ht); [left; exact Hs | lia |]. }
    intros id id' c. destruct (decide (ap_next_session a = id)) as [<- |]; destruct (decide (ap_next_session a = id')) as [<- |];
      rewrite ?lookup_insert_eq, ?lookup_insert_ne by done; intros Hc Hc'; try done; [| | by eapply (tb_own _ Ht)].
    + injection Hc as <-. by destruct (Hfresh id').
    + injection Hc' as <-. by destruct (Hfresh id).
  - apply Ht.
  - apply Ht.
  - intros r Hr. destruct (tb_fresh _ Ht r ltac:(lia)) as (H1 & H2 & H3 & H4). split_and!; [apply fresh_insert; [done | lia] | done..].
Qed.

Lemma list_session_tables s a :
  app_tables a -> ap_issued a !! as_id s = Some (as_client s) -> own_mirror s a ->
  task_kind <$> ap_tasks a !! as_event_pump s = Some (EventPump (as_id s) (as_perms s)) ->
  app_tables (up_sessions <[as_id s := s]> a) /\ grows a (up_sessions <[as_id s := s]> a).
Proof.
  intros Ht Hi Hm Hp. split; [|by split]. destruct Ht. split; try done. cbn. intros id s'.
  destruct (decide (as_id s = id)) as [<- |]; [rewrite lookup_insert_eq; by intros [= <-] | rewrite lookup_insert_ne by done; auto].
Qed.

Lemma route_set_tables id c a :
  app_tables a -> ap_issued a !! id = Some c -> app_tables (route_set id c a) /\ grows a (route_set id c a).
Proof. intros Ht Hi. split; [|by split]. destruct Ht. split; try done. cbn. by intros ? ? [= <- <-]. Qed.

End Growing.

Section Programs.
Context {C : Crypto} {M : Libm} {O : Opus} {HO : HashOrder} {T : AppTexts} {KJ : Json StoredIdentity} {B : Base64} {K : Ciphers}
  {VJ : VaultJson} {SJ : Json Settings} {TJ : Json StoreFile} {BJ : Json StoredBookmarks} {R : Resolver}.
Implicit Types a : App.

#[local] Abbreviation calm := (tame ids_left app_tables grows).
#[local] Abbreviation lasting := (stable app_tables grows).
#[local] Abbreviation informed := (knows ids_left app_tables grows).

(** ** Threads *)

Lemma calm_update f : (forall a, like a (f a)) -> calm (update f).
Proof. intros H. apply tame_update. intros a _ Ha. by apply like_grows. Qed.

Lemma calm_call {X} (f : App -> X * App) : (forall a, like a (f a).2) -> calm (call f).
Proof. intros H. apply tame_call. intros a _ Ha. by apply like_grows. Qed.

Lemma calm_zoom {X} (p : prog Disk X) : calm (zoom ap_disk put_disk p).
Proof.
  induction p as [x | Y f k IH |]; [done | | done]. intros a _ Ha _. cbn. destruct (f (ap_disk a)) as [y d]. cbn.
  destruct (like_grows a (put_disk d a)) as [H1 H2]; [done | by split; auto |].
  split_and!; [done..|]. exists (fun _ => True). split_and!; [done..|]. apply IH.
Qed.

Lemma calm_zoom_local {S L X} (look : App -> L -> S) (put : S -> App -> App) (keep : S -> L) (p : prog S X) l :
  (forall s a, like a (put s a)) -> calm (zoom_local look put keep p l).
Proof.
  intros Hput. revert l. induction p as [x | Y f k IH |]; intros l; [done | | done]. intros a _ Ha _. cbn.
  destruct (f (look a l)) as [y s]. cbn. destruct (like_grows a (put s a)) as [H1 H2]; [done | done |].
  split_and!; [done..|]. exists (fun _ => True). split_and!; [done..|]. apply IH.
Qed.

Lemma calm_and_then {X Y E} (p : prog App (E + X)) (k : X -> prog App (E + Y)) :
  calm p -> (forall x, calm (k x)) -> calm (and_then_app p k).
Proof. intros Hp Hk. apply tame_bind; [done|]. intros [e | x]; [done | apply Hk]. Qed.

End Programs.

(** One step of a thread at a time, with nothing to be remembered. *)
Ltac calm_step :=
  lazymatch goal with
  | |- tame _ _ _ (Ret _) => done
  | |- tame _ _ _ Hang => done
  | |- Reflexive _ => exact _
  | |- knows ?P ?I ?R (fun _ => True) (fun _ _ => True) ?p => change (tame P I R p)
  | |- tame _ _ _ (and_then_app _ _) => apply calm_and_then; [|intros ?]
  | |- tame _ _ _ (bind _ _) => apply tame_bind; [|intros ?]
  | |- tame _ _ _ (get _) => apply tame_last_get
  | |- tame _ _ _ (read_engine _ _ _) => apply tame_last_get
  | |- tame _ _ _ (update _) => apply calm_update; intros ?; solve [auto with like | by split; auto]
  | |- tame _ _ _ (call _) => apply calm_call; intros ?; solve [auto with like | by split; auto]
  | |- tame _ _ _ (zoom _ _ _) => apply calm_zoom
  | |- tame _ _ _ (for_each _ _) => apply tame_for_each; intros ?
  | |- tame _ _ _ (match ?x with _ => _ end) => destruct x
  end.
Ltac calm := repeat (calm_step || solve [eauto with calm]).
Create HintDb calm.

Section Threads.
Context {C : Crypto} {M : Libm} {O : Opus} {HO : HashOrder} {T : AppTexts} {KJ : Json StoredIdentity} {B : Base64} {K : Ciphers}
  {VJ : VaultJson} {SJ : Json Settings} {TJ : Json StoreFile} {BJ : Json StoredBookmarks} {R : Resolver}.
Implicit Types a : App.

#[local] Abbreviation calmly := (tame ids_left app_tables grows).
#[local] Abbreviation lasting := (stable app_tables grows).
#[local] Abbreviation informed := (knows ids_left app_tables grows).

Lemma on_disk_calm {E X} (text : E -> rstring) (p : fprog E X) : calmly (on_disk text p).
Proof. unfold on_disk. calm. Qed.
Hint Resolve on_disk_calm : calm.

Lemma trust_store_calm : calmly trust_store.
Proof. unfold trust_store. calm. Qed.
Lemma bookmarks_calm : calmly bookmarks.
Proof. unfold bookmarks. calm. Qed.
Lemma persist_vault_calm nonce : calmly (persist_vault nonce).
Proof. unfold persist_vault. calm. Qed.
Lemma persist_settings_calm : calmly persist_settings.
Proof. unfold persist_settings. calm. Qed.
Lemma clear_current_speakers_calm : calmly clear_current_speakers.
Proof. unfold clear_current_speakers. calm. Qed.
Hint Resolve trust_store_calm bookmarks_calm persist_vault_calm persist_settings_calm clear_current_speakers_calm : calm.

Lemma remember_open_connections_calm : calmly remember_open_connections.
Proof. unfold remember_open_connections. calm. Qed.
Lemma release_voice_calm id : calmly (release_voice id).
Proof. unfold release_voice. calm. Qed.
Lemma stop_audio_calm : calmly stop_audio.
Proof. unfold stop_audio. calm. Qed.
Hint Resolve remember_open_connections_calm release_voice_calm stop_audio_calm : calm.

Lemma end_session_calm id : calmly (end_session id).
Proof. unfold end_session, shutdown. calm. Qed.
Lemma announce_voice_state_calm e : calmly (announce_voice_state e).
Proof. unfold announce_voice_state. calm. Qed.
Hint Resolve end_session_calm announce_voice_state_calm : calm.

Lemma app_set_muted_calm b : calmly (app_set_muted b).
Proof. unfold app_set_muted, running_engine. calm. Qed.
Lemma app_set_deafened_calm b : calmly (app_set_deafened b).
Proof. unfold app_set_deafened, running_engine. calm. Qed.
Hint Resolve app_set_muted_calm app_set_deafened_calm : calm.

(** The engine that was started stays there to be installed. *)
Lemma start_audio_calm opened : calmly (start_audio opened).
Proof.
  unfold start_audio, carried_controls. apply tame_bind; [calm|]; intros audio. apply tame_bind; [calm|]; intros old.
  apply tame_bind; [calm|]; intros carried.
  apply knows_call. intros a _ Ha _. pose proof (start_engine_tables (engine_config audio) (devices_report opened) a Ha) as H.
  destruct (start_engine _ (devices_report opened) a) as [[e | engine] a']; destruct H as (H1 & H2 & H3); split_and!; try done.
  { exists (fun _ => True). by split_and!. }
  set (F := fun s : App => is_Some (ap_engines s !! engine)). assert (HF : lasting F) by (intros s s' _ Hg; apply (gr_engines _ _ Hg)).
  exists F. split_and!; [done..|].
  apply tame_knows; [exact HF | calm | intros []]. apply tame_knows; [exact HF | calm | intros []]; [|done].
  apply knows_call. intros s _ Hs Hf. destruct (replace_engine_tables engine s Hs Hf). split_and!; [done..|]. exists F. split_and!; [done..|].
  apply (knows_bind _ _ _ F (fun _ _ => True)); [|intros pumped; destruct (ap_engine s), pumped; calm].
  unfold spawn_capture_pump. destruct (pump_granted opened).
  - apply knows_call. intros s1 _ Hs1 Hf1. pose proof (spawn_tables (CapturePump engine) s1 Hs1 Hf1) as H4.
    destruct (spawn _ s1) as [t s2]. destruct H4 as (H4 & H5 & H6). split_and!; [done..|]. by exists (fun _ => True).
  - apply (knows_pre _ _ _ (fun _ => True)); [done | calm].
Qed.
Hint Resolve start_audio_calm : calm.

Lemma ensure_audio_calm opened : calmly (ensure_audio opened).
Proof. unfold ensure_audio. calm. Qed.

(** A session that was looked up was issued its client, which stays so. *)
Lemma route_voice_calm id : calmly (route_voice id).
Proof.
  unfold route_voice. apply knows_get; [exact _|]. intros a _ Ha _. destruct (ap_sessions a !! id) as [s|] eqn:E;
    cbn [fmap option_fmap option_map]; [|by exists (fun _ => True)].
  destruct (tb_listed _ Ha id s E) as (Hid & Hi & _). set (F := fun a => ap_issued a !! id = Some (as_client s)).
  assert (HF : lasting F) by (intros x y _ Hg Hx; eapply lookup_weaken; [exact Hx | apply (gr_issued _ _ Hg)]).
  exists F. split_and!; [done..|]. apply tame_knows; [exact HF | calm | intros routed]. case_bool_decide; [done|].
  apply knows_update; [exact HF | |].
  { intros x _ Hx Hf. by apply route_set_tables. }
  apply tame_knows; [exact HF | calm | by intros []].
Qed.
Hint Resolve ensure_audio_calm route_voice_calm : calm.

(** ** Opening a session *)

(** From the id to the table: the id's client, the mirror and the pump are there all along. *)
Lemma open_session_calm o ident fp address info :
  fp = fp_to_string (identity_fingerprint ident) -> calmly (open_session o ident fp address info).
Proof.
  intros Hfp. unfold open_session. apply knows_call. intros a Hp Ha _. pose proof (next_session_id_tables (mkHandle info true [] [] (ou_max_datagram o) true) a Hp Ha) as H.
  destruct (next_session_id _ a) as [[id client] a']. destruct H as (H1 & H2 & H3). split_and!; [done..|].
  set (F := fun s : App => ap_issued s !! id = Some client).
  assert (HF : lasting F) by (intros x y _ Hg Hx; eapply lookup_weaken; [exact Hx | apply (gr_issued _ _ Hg)]).
  exists F. split_and!; [done..|]. apply knows_call. intros s _ Hs Hf.
  pose proof (new_mirror_tables id (from_session (identity_fingerprint ident) (ou_probe o) info) s Hs) as H.
  destruct (new_mirror _ _ s) as [perms s']. destruct H as (H4 & H5 & H6 & H7). split_and!; [done..|].
  set (G := fun s : App => F s /\ own_mirror (mkActive id client 0 perms address fp) s).
  assert (HG : lasting G) by (intros x y Hx Hg [Hx1 Hx2]; split; [by apply (HF x) | by apply (own_mirror_grows _ x)]).
  exists G. split_and!; [split; [by apply (HF s) | split; cbn; [done|]] | done |].
  { rewrite Hfp. destruct (ap_mirrors s' !! perms) as [m|]; [|done]. cbn in *. by injection H7 as ->. }
  apply tame_knows; [exact HG | calm | intros [e | engine]].
  { apply (knows_pre _ _ _ (fun _ => True)); [done | calm]. }
  apply knows_call. intros s1 _ Hs1 [Hf1 Hm1]. assert (Hm2 : is_Some (ap_mirrors s1 !! perms)) by (apply (tb_mirrored _ Hs1 perms id), Hm1).
  pose proof (spawn_tables (EventPump id perms) s1 Hs1 Hm2) as H.
  destruct (spawn _ s1) as [pump s2]. destruct H as (H10 & H8 & H9). split_and!; [done..|].
  set (W := fun s : App => G s /\ task_kind <$> ap_tasks s !! pump = Some (EventPump id perms)).
  assert (HW : lasting W) by (intros x y Hx Hg [Hx1 Hx2]; split; [by apply (HG x) | by apply (gr_tasks _ _ Hg)]).
  exists W. split_and!; [split; [by apply (HG s1) | done] | done |].
  apply knows_update; [exact HW | |].
  { intros x _ Hx [[Hx1 Hx2] Hx3]. by apply (list_session_tables (mkActive id client pump perms address fp)). }
  apply (knows_pre _ _ _ (fun _ => True)); [done | calm].
Qed.
Hint Extern 1 (tame _ _ _ (open_session _ _ _ _ _)) => apply open_session_calm; assumption : calm.

Lemma attempt_login_calm o options ident store : calmly (attempt_login o options ident store).
Proof. unfold attempt_login. apply tame_bind; [|intros r; calm]. apply calm_zoom_local. split; auto. Qed.
Hint Resolve attempt_login_calm : calm.

(** The fingerprint that is recorded is that of the key that signs in. *)
Lemma identity_for_own fp a ident nickname own :
  identity_for fp a = Some (inr (ident, nickname, own)) -> own = fp_to_string (identity_fingerprint ident).
Proof. unfold identity_for. cbv zeta. destruct fp as [fp|]; [destruct (vault_get _ _) | destruct (active _)]; intros [=]; by subst. Qed.

Lemma app_connect_calm o address password ident : calmly (app_connect o address password ident).
Proof.
  unfold app_connect. destruct (resolve_address address) as [e | target]; [calm|]. apply knows_get; [exact _|]. intros a _ _ _.
  exists (fun _ => True). destruct (identity_for ident a) as [[e | [[key nickname] fp]]|] eqn:E; split_and!; try done. apply identity_for_own in E.
  change (calmly (store <- trust_store;;
      match store with
      | inl e => Ret (inl (failure_of_text e))
      | inr store =>
          login <- attempt_login o (connect_options target nickname address password) key store;;
          match login with
          | inl e => Ret (inl (connect_failure_dto connect_error_text e))
          | inr info =>
              opened <- open_session o key fp address info;;
              match opened with inl e => Ret (inl (failure_of_text e)) | inr dto => Ret (inr dto) end
          end
      end)%prog). calm.
Qed.
Hint Resolve app_connect_calm : calm.

Lemma edit_vault_calm f : calmly (edit_vault f).
Proof. unfold edit_vault. calm. apply calm_call. intros a. destruct (f (ap_vault a)). split; auto. Qed.
Hint Resolve edit_vault_calm : calm.

Lemma identity_info_calm : calmly identity_info.
Proof. unfold identity_info. calm. Qed.
Lemma identities_calm : calmly identities.
Proof. unfold identities. calm. Qed.
Hint Resolve identity_info_calm identities_calm : calm.

Lemma set_nickname_calm nickname nonce : calmly (set_nickname nickname nonce).
Proof.
  unfold set_nickname. destruct (is_empty _); [done|]. apply tame_bind; [|intros active; calm].
  apply calm_call. intros a. destruct (vault_set_nickname _ _ _) as [[e | []] v]; split; auto.
Qed.

Lemma remove_identity_calm fp nonce : calmly (remove_identity fp nonce).
Proof.
  unfold remove_identity, identity_in_use. apply tame_bind; [calm|]. intros []; [done|].
  apply tame_bind; [|intros removed; calm]. apply calm_call. intros a. destruct (vault_remove _ _) as [[r v]|]; split; auto.
Qed.

Lemma mining_thread_calm fuel ident target nonce : calmly (mining_thread fuel ident target nonce).
Proof. unfold mining_thread. destruct (identity_mine _ _ _ _ _) as [[[said report] ident']|]; calm. Qed.

Lemma with_session_calm {X} id (f : ActiveSession -> App -> X * App) :
  (forall s a, like a (f s a).2) -> calmly (with_session id f).
Proof.
  intros H. unfold with_session. apply calm_call. intros a. destruct (ap_sessions a !! id) as [s|]; [|done].
  specialize (H s a). by destruct (f s a).
Qed.

Lemma ask_calm session request : calmly (ask session request).
Proof. apply with_session_calm. intros s a. apply tell_client_like. Qed.

Lemma ask_with_nonce_calm session request : calmly (ask_with_nonce session request).
Proof. apply with_session_calm. intros s a. cbn. etrans; [|apply tell_client_like]. split; auto. Qed.

Lemma set_audio_settings_calm audio opened : calmly (set_audio_settings audio opened).
Proof. unfold set_audio_settings. calm. Qed.

Lemma save_trust_calm store : calmly (save_trust store).
Proof. unfold save_trust. calm. Qed.
Lemma save_bookmarks_calm store : calmly (save_bookmarks store).
Proof. unfold save_bookmarks. calm. Qed.
Hint Resolve ask_calm ask_with_nonce_calm set_audio_settings_calm save_trust_calm save_bookmarks_calm : calm.

Lemma forward_frames_calm t e took : calmly (forward_frames t e took).
Proof. induction took as [|b took IH]; [done|]. cbn [forward_frames]. unfold forward_frame. calm. Qed.
Hint Resolve forward_frames_calm : calm.

Lemma capture_pump_calm t took : calmly (capture_pump t took).
Proof. unfold capture_pump. calm. Qed.

Lemma pump_event_calm session perms event : calmly (pump_event session perms event).
Proof. unfold pump_event, pump_voice, pump_other, emit_snapshot, emit_event. calm. Qed.
Hint Resolve pump_event_calm : calm.

Lemma pump_events_calm t session perms events : calmly (pump_events t session perms events).
Proof. induction events as [|event events IH]; cbn [pump_events]; calm. Qed.
Hint Resolve pump_events_calm : calm.

Lemma event_pump_calm t events : calmly (event_pump t events).
Proof. unfold event_pump. calm. Qed.

Lemma toggle_muted_calm : calmly toggle_muted.
Proof. unfold toggle_muted, running_engine. calm. Qed.
Lemma toggle_deafened_calm : calmly toggle_deafened.
Proof. unfold toggle_deafened, running_engine. calm. Qed.
Hint Resolve set_nickname_calm remove_identity_calm mining_thread_calm capture_pump_calm event_pump_calm toggle_muted_calm
  toggle_deafened_calm : calm.

(** ** All of it together *)

Definition quietly {S X} (p : prog S X) : prog S unit := bind p (fun _ => Ret tt).

(** What the interface asks one server for. *)
Inductive request : prog App (rstring + unit) -> Prop :=
| rq_join s ch : request (ask_join_channel s ch)
| rq_leave s : request (ask_leave_channel s)
| rq_history s ch : request (ask_fetch_history s ch)
| rq_kick s c r : request (ask_kick s c r)
| rq_ban s fp r u : request (ask_ban s fp r u)
| rq_unban s fp : request (ask_unban s fp)
| rq_bans s : request (ask_list_bans s)
| rq_mute s c b : request (ask_set_server_muted s c b)
| rq_move s c ch : request (ask_move_user s c ch)
| rq_role s n ps : request (ask_create_role s n ps)
| rq_edit_role s r n c cl ps : request (ask_update_role s r n c cl ps)
| rq_drop_role s r : request (ask_delete_role s r)
| rq_reorder s ps : request (ask_reorder_roles s ps)
| rq_member s fp rs : request (ask_set_member_roles s fp rs)
| rq_overwrite s ch t al de : request (ask_set_channel_overwrite s ch t al de)
| rq_drop_overwrite s ch t : request (ask_delete_channel_overwrite s ch t)
| rq_channel s n k p t m o : request (ask_create_channel s n k p t m o)
| rq_edit_channel s ch n k p t m o : request (ask_update_channel s ch n k p t m o)
| rq_drop_channel s ch : request (ask_delete_channel s ch)
| rq_message s ch c ns : request (ask_send_message s ch c ns).

(** Every thread of the application that changes anything: commands, shortcuts, pumps, the audio
    callback and mining. *)
Inductive app_thread : prog App unit -> Prop :=
| at_connect o address password ident : app_thread (quietly (app_connect o address password ident))
| at_disconnect s : app_thread (disconnect s)
| at_end_all : app_thread end_all_sessions
| at_voice s : app_thread (quietly (set_voice_session s))
| at_request p : request p -> app_thread (quietly p)
| at_mute b : app_thread (quietly (set_muted_command b))
| at_deafen b : app_thread (quietly (set_deafened_command b))
| at_toggle_mute : app_thread (quietly toggle_muted)
| at_toggle_deafen : app_thread (quietly toggle_deafened)
| at_hold b : app_thread (app_set_push_to_talk_held b)
| at_audio audio opened : app_thread (quietly (set_audio_settings audio opened))
| at_preview opened : app_thread (quietly (start_audio_preview opened))
| at_stop_preview : app_thread stop_audio_preview
| at_nickname n nonce : app_thread (quietly (set_nickname n nonce))
| at_add_identity i n l nonce : app_thread (quietly (add_identity i n l nonce))
| at_active fp nonce : app_thread (quietly (set_active_identity fp nonce))
| at_label fp l nonce : app_thread (quietly (set_identity_label fp l nonce))
| at_remove fp nonce : app_thread (quietly (remove_identity fp nonce))
| at_mine fuel i target nonce : app_thread (mining_thread fuel i target nonce)
| at_forget address : app_thread (quietly (forget_server address))
| at_trust key fp : app_thread (quietly (trust_changed_identity key fp))
| at_add_bookmark i : app_thread (quietly (add_bookmark i))
| at_update_bookmark id i : app_thread (quietly (update_bookmark id i))
| at_remove_bookmark id : app_thread (quietly (remove_bookmark id))
| at_events t events : app_thread (event_pump t events)
| at_capture t took : app_thread (capture_pump t took)
| at_callback e samples c : app_thread (quietly (call (input_callback e samples c))).

Lemma request_calm p : request p -> calmly p.
Proof.
  intros []; unfold ask_join_channel, ask_leave_channel, ask_fetch_history, ask_kick, ask_ban, ask_unban, ask_list_bans, ask_set_server_muted,
    ask_move_user, ask_create_role, ask_update_role, ask_delete_role, ask_reorder_roles, ask_set_member_roles,
    ask_set_channel_overwrite, ask_delete_channel_overwrite, ask_create_channel, ask_update_channel, ask_delete_channel,
    ask_send_message, refuse; cbv zeta; calm.
Qed.
Hint Resolve request_calm : calm.

Lemma app_thread_calm p : app_thread p -> calmly p.
Proof.
  intros []; unfold quietly, disconnect, end_all_sessions, set_voice_session, set_muted_command, set_deafened_command,
    emit_voice_state, app_set_push_to_talk_held, start_audio_preview, stop_audio_preview, add_identity, set_active_identity,
    set_identity_label, forget_server, trust_changed_identity, add_bookmark, update_bookmark, remove_bookmark; cbv zeta; calm.
Qed.

(** A fresh application has nothing in its tables. *)
Lemma loaded_tables vault settings paths d clock :
  app_tables (mkApp vault settings paths d clock 0 ∅ ∅ ∅ ∅ ∅ None ∅ 1 None 1 [] ∅ ∅).
Proof. split; cbn; intros; try lia; try (split_and!); by simplify_map_eq. Qed.

(** The clients, the mirrors and the pumps of two sessions are not shared. *)
Lemma sessions_apart a id1 id2 s1 s2 :
  app_tables a -> ap_sessions a !! id1 = Some s1 -> ap_sessions a !! id2 = Some s2 ->
  as_client s1 = as_client s2 \/ as_perms s1 = as_perms s2 \/ as_event_pump s1 = as_event_pump s2 -> id1 = id2.
Proof.
  intros Ha E1 E2. destruct (tb_listed _ Ha _ _ E1) as (<- & Hc1 & [Hm1 _] & Ht1). destruct (tb_listed _ Ha _ _ E2) as (<- & Hc2 & [Hm2 _] & Ht2).
  intros [E | [E | E]].
  - rewrite <- E in Hc2. by apply (tb_own _ Ha _ _ _ Hc1).
  - rewrite <- E in Hm2. congruence.
  - rewrite <- E in Ht2. congruence.
Qed.

(** C18: under every interleaving of commands, shortcuts, pumps, audio callbacks and mining, as long
    as session ids last, the application's tables stay in order.  Each session in the table stands
    under the id it was issued, with the client that id was issued for, the mirror that was made for
    it, which watches the identity the session is listed under, and a pump that feeds that mirror;
    two sessions never share a client, a mirror or a pump.  The microphone's route pairs an id with
    that id's own client.  And an id, once issued, names the same client ever after, as a mirror
    stays the mirror of the session it was made for. *)
Theorem the_tables_stay_in_order a l a' :
  app_tables a -> rtc (pstep_within ids_left app_thread) ([], a) (l, a') ->
  app_tables a' /\
  (forall id s, ap_sessions a' !! id = Some s ->
     as_id s = id /\ ap_issued a' !! id = Some (as_client s) /\ own_mirror s a' /\
     task_kind <$> ap_tasks a' !! as_event_pump s = Some (EventPump id (as_perms s))) /\
  (forall id1 id2 s1 s2, ap_sessions a' !! id1 = Some s1 -> ap_sessions a' !! id2 = Some s2 -> id1 <> id2 ->
     as_client s1 <> as_client s2 /\ as_perms s1 <> as_perms s2 /\ as_event_pump s1 <> as_event_pump s2) /\
  (forall id c, ap_voice a' = Some (id, c) -> ap_issued a' !! id = Some c) /\
  ap_issued a ⊆ ap_issued a' /\ ap_mirrored a ⊆ ap_mirrored a'.
Proof.
  intros Ha Hsteps. destruct (psteps_knowing ids_left app_tables grows app_thread _ _ app_thread_calm Hsteps) as [[H _] Hg].
  { by split; [|constructor]. }
  split_and!; [exact H | apply (tb_listed _ H) | | apply (tb_route _ H) | apply (gr_issued _ _ Hg) | apply (gr_mirrored _ _ Hg)].
  intros id1 id2 s1 s2 E1 E2 Hne. split_and!; intros E; apply Hne; apply (sessions_apart a' id1 id2 s1 s2 H E1 E2); auto.
Qed.

End Threads.
