(* ===== verification/Answers.v ===== *)
(** * Every command answers

    A command of the application panics where the vault has no identity to offer, where an engine
    it has just started does not own its frame stream any more, or where a sound device reports an
    empty range of rates.  The vault's invariant, the thread's ownership of what it made, and the
    sound library's promise rule these out, whatever else runs.  Only mining is as long as luck
    makes it. *)

From S2P Require Export Tables.
From S2P Require Import Keystore Vault VaultSafety Sealed Settings Bookmarks Devices MouseGrab.

Create HintDb answers.

(** ** What is relied on *)

Section Relied.
Context {C : Crypto} {M : Libm} {O : Opus} {HO : HashOrder}.
Implicit Types a : App.

(** Somebody can sign in: the active key is in the vault, which lists no key twice. *)
Definition signable a : Prop := vault_ok (ap_vault a).

(** Places not handed out yet hold no engine. *)
Definition engines_placed a : Prop := forall r, ap_next_ref a <= r -> ap_engines a !! r = None.

Definition ready a : Prop := signable a /\ engines_placed a.

(** The engine there still owns its frame stream. *)
Definition unclaimed (e : Z) a : Prop := has_receiver <$> ap_engines a !! e = Some true.

#[local] Abbreviation surely := (owning ready unclaimed None).

(** A step that keeps the vault, and every engine's frame stream where it is. *)
Record undisturbed a a' : Prop := {
  un_vault : ap_vault a' = ap_vault a;
  un_ref : ap_next_ref a <= ap_next_ref a';
  un_engines r : has_receiver <$> ap_engines a' !! r = has_receiver <$> ap_engines a !! r }.

#[export] Instance undisturbed_refl : Reflexive undisturbed.
Proof. done. Qed.

#[export] Instance undisturbed_trans : Transitive undisturbed.
Proof. intros x y z [H1 H2 H3] [H4 H5 H6]. split; [congruence | lia | intros r; by rewrite H6]. Qed.

Lemma undisturbed_placed a a' : undisturbed a a' -> engines_placed a -> engines_placed a'.
Proof.
  intros [_ Hr He] H r Hge. specialize (He r). rewrite (H r) in He by lia. by destruct (ap_engines a' !! r).
Qed.

Lemma undisturbed_steady a a' : undisturbed a a' -> ready a -> steady ready unclaimed a a'.
Proof.
  intros Hu [Hs Hp]. split; [split; [|by apply (undisturbed_placed a)]|].
  - unfold signable. by rewrite (un_vault _ _ Hu).
  - intros e. unfold unclaimed. by rewrite (un_engines _ _ Hu).
Qed.

(** A step that only changes the vault, which can be signed in with afterwards. *)
Lemma vault_steady f a : vault_ok (f (ap_vault a)) -> ready a -> steady ready unclaimed a (up_vault f a).
Proof. intros Hv [_ Hp]. split; [by split | done]. Qed.

Lemma step_update f : (forall a, undisturbed a (f a)) -> surely (update f).
Proof. intros H. apply owning_update. intros a Ha. by apply undisturbed_steady. Qed.

Lemma step_call {X} (f : App -> X * App) : (forall a, undisturbed a (f a).2) -> surely (call f).
Proof. intros H. apply owning_last_call. intros a Ha. by apply undisturbed_steady. Qed.

Lemma zoom_disk_answers {X} (p : prog Disk X) : answers (fun _ => True) p -> surely (zoom ap_disk put_disk p).
Proof. apply owning_aside; [done|]. intros d a Ha. by apply undisturbed_steady. Qed.

(** ** Steps that leave all that alone *)

Lemma change_engine_undisturbed e f a : (forall x, has_receiver (f x) = has_receiver x) -> undisturbed a (change_engine e f a).
Proof.
  intros H. split; [done | done |]. intros r. cbn. destruct (decide (e = r)) as [<- |]; [|by rewrite lookup_alter_ne].
  rewrite lookup_alter_eq. destruct (ap_engines a !! e); [cbn; by f_equal | done].
Qed.

Lemma on_client_undisturbed {X} c (f : Client -> X * Client) d a : undisturbed a (on_client c f d a).2.
Proof. unfold on_client. destruct (ap_clients a !! c) as [x|]; [by destruct (f x) | done]. Qed.

Lemma tell_client_undisturbed c f a : undisturbed a (tell_client c f a).
Proof. apply on_client_undisturbed. Qed.

Lemma fold_undisturbed {A} (f : App -> A -> App) l a : (forall x a, undisturbed a (f a x)) -> undisturbed a (fold_left f l a).
Proof. intros H. revert a; induction l as [|x l IH]; intros a; [done|]. simpl. etrans; [apply H | apply IH]. Qed.

Lemma tell_all_undisturbed muted deafened a : undisturbed a (tell_all muted deafened a).
Proof. apply fold_undisturbed. intros. apply on_client_undisturbed. Qed.

Lemma tell_sessions_of_undisturbed fp message a : undisturbed a (tell_sessions_of fp message a).
Proof. apply fold_undisturbed. intros x y. case_bool_decide; [apply on_client_undisturbed | done]. Qed.

Lemma on_mirror_undisturbed {X} m (f : PermMirror -> X * PermMirror) d a : undisturbed a (on_mirror m f d a).2.
Proof. unfold on_mirror. destruct (ap_mirrors a !! m) as [x|]; [by destruct (f x) | done]. Qed.

Lemma claim_undisturbed t a : undisturbed a (claim t a).2.
Proof. unfold claim. by destruct (ap_tasks a !! t) as [[kind []]|]. Qed.

Lemma recv_frame_undisturbed e a : undisturbed a (recv_frame e a).2.
Proof. unfold recv_frame. by destruct (ap_frames a !! e) as [[[|f rest] []]|]. Qed.

Lemma input_callback_undisturbed e samples c a : undisturbed a (input_callback e samples c a).2.
Proof.
  unfold input_callback. destruct (ap_engines a !! e) as [x|]; [|done]. destruct (capture_push _ _ _) as [[sent c'] k]. cbn [snd].
  etrans; [by apply (change_engine_undisturbed e (set_controls k)) | done].
Qed.

Lemma clear_if_undisturbed id a : undisturbed a (clear_if id a).2.
Proof. unfold clear_if. destruct (ap_voice a) as [[current c]|]; [by destruct (current =? id) | done]. Qed.

Lemma fresh_ref_undisturbed a : undisturbed a (fresh_ref a).2.
Proof. split; cbn; [done | lia | done]. Qed.

Lemma next_session_id_undisturbed client a : undisturbed a (next_session_id client a).2.
Proof. split; cbn; [done | lia | done]. Qed.

Lemma new_mirror_undisturbed id m a : undisturbed a (new_mirror id m a).2.
Proof. split; cbn; [done | lia | done]. Qed.

Lemma spawn_undisturbed kind a : undisturbed a (spawn kind a).2.
Proof. split; cbn; [done | lia | done]. Qed.

End Relied.

#[export] Hint Resolve tell_client_undisturbed tell_all_undisturbed tell_sessions_of_undisturbed on_client_undisturbed on_mirror_undisturbed
  claim_undisturbed recv_frame_undisturbed input_callback_undisturbed clear_if_undisturbed next_session_id_undisturbed
  new_mirror_undisturbed spawn_undisturbed : answers.
#[export] Hint Extern 1 (undisturbed _ (change_engine _ _ _)) => by apply change_engine_undisturbed : answers.

(** One step of a thread at a time. *)
Ltac answer_step :=
  lazymatch goal with
  | |- answers _ (Ret _) => exact Logic.I
  | |- answers _ (ok _) => exact Logic.I
  | |- answers _ (fail _) => exact Logic.I
  | |- answers _ (cok _) => exact Logic.I
  | |- answers _ (cfail _) => exact Logic.I
  | |- answers _ (and_then_app _ _) => apply answers_bind; [|intros [?|?]]
  | |- answers _ (and_then _ _) => apply answers_bind; [|intros [?|?]]
  | |- answers _ (zoom _ _ _) => apply (answers_zoom (fun _ => True)); [done | by intros | ]
  | |- answers _ (try_bind _ _) => apply answers_bind; [|intros [?|?]]
  | |- answers _ (attempt _ _) => apply answers_bind; [apply answers_last_call; done | intros [?|?]]
  | |- answers _ (bind (get _) _) => apply answers_get; intros ? ?
  | |- answers _ (bind _ _) => apply answers_bind; [|intros ?]
  | |- answers _ (get _) => apply answers_last_get
  | |- answers _ (read_engine _ _ _) => apply answers_last_get
  | |- answers _ (update _) => apply answers_update; solve [intros ? ?; done | auto with answers]
  | |- answers _ (call _) => apply answers_last_call; solve [intros ? ?; done | auto with answers]
  | |- answers _ (for_each _ _) => apply answers_for_each; intros ?
  | |- answers _ (match ?x with _ => _ end) => destruct x
  | |- owning _ _ _ (Ret _) => exact Logic.I
  | |- owning _ _ _ (and_then_app _ _) => apply owning_bind; [|intros [?|?]]
  | |- owning _ _ _ (zoom ap_disk put_disk _) => apply zoom_disk_answers
  | |- owning _ _ _ (bind (get _) _) => apply owning_get; intros ? ?
  | |- owning _ _ _ (bind _ _) => apply owning_bind; [|intros ?]
  | |- owning _ _ _ (get _) => apply owning_last_get
  | |- owning _ _ _ (read_engine _ _ _) => apply owning_last_get
  | |- owning _ _ _ (update _) => apply step_update; intros ?; solve [auto with answers | by split]
  | |- owning _ _ _ (call _) => apply step_call; intros ?; solve [auto with answers | by split]
  | |- owning _ _ _ (for_each _ _) => apply owning_for_each; intros ?
  | |- owning _ _ _ (match ?x with _ => _ end) => destruct x
  end.
Ltac answer := repeat (answer_step || solve [auto with answers]).

(** ** File work *)

Section Files.
Context {C : Crypto} {KJ : Json StoredIdentity} {B : Base64} {K : Ciphers} {VJ : VaultJson} {SJ : Json Settings}
  {TJ : Json StoreFile} {BJ : Json StoredBookmarks}.

#[local] Abbreviation plainly := (answers (fun _ : Disk => True)).

Lemma ensure_parent_answers {E} (f : IoErr -> E) path : plainly (ensure_parent f path).
Proof. unfold ensure_parent. answer. Qed.
Hint Resolve ensure_parent_answers : answers.

Lemma write_twice_answers {E} (f : IoErr -> E) mode tmp a b : plainly (write_twice f mode tmp a b).
Proof. unfold write_twice. answer. Qed.
Hint Resolve write_twice_answers : answers.

Lemma trust_open_answers path : plainly (trust_open path).
Proof. unfold trust_open. answer. Qed.
Lemma trust_save_answers store : plainly (trust_save store).
Proof. unfold trust_save, fs_write. answer. Qed.
Lemma saved_servers_open_answers path : plainly (bookmarks_open path).
Proof. unfold bookmarks_open, bm_check_permissions. answer. Qed.
Lemma bookmarks_save_answers b : plainly (bookmarks_save b).
Proof. unfold bookmarks_save. answer. Qed.
Lemma settings_save_answers path settings : plainly (settings_save path settings).
Proof. unfold settings_save. answer. Qed.
Lemma vault_save_answers v nonce : plainly (vault_save v nonce).
Proof. unfold vault_save, write_private. answer. Qed.
Hint Resolve trust_save_answers : answers.

Lemma connect_answers version options ident wire : answers (fun _ => True) (Client.connect version options ident wire).
Proof.
  unfold Client.connect, peer_certificate_hash, within, frame_within, apply_trust_policy, persist, re_pin. cbv zeta. answer.
Qed.

End Files.

(** ** Commands *)

Section Commands.
Context {C : Crypto} {M : Libm} {O : Opus} {HO : HashOrder} {T : AppTexts} {KJ : Json StoredIdentity} {B : Base64} {K : Ciphers}
  {VJ : VaultJson} {SJ : Json Settings} {TJ : Json StoreFile} {BJ : Json StoredBookmarks} {R : Resolver} {AH : AudioHost}.
Implicit Types a : App.

#[local] Abbreviation surely := (owning ready unclaimed None).

Lemma signable_active a : signable a -> is_Some (active (ap_vault a)).
Proof.
  intros [H _]. unfold active. destruct (find _ _) eqn:E; [by eexists|]. apply find_fp_none in E. by destruct E.
Qed.

(** ** Every command *)

Lemma on_disk_answers {E X} (text : E -> rstring) (p : fprog E X) : answers (fun _ => True) p -> surely (on_disk text p).
Proof. intros H. unfold on_disk. answer. Qed.

Lemma trust_store_answers : surely trust_store.
Proof. unfold trust_store. answer. apply on_disk_answers, trust_open_answers. Qed.
Lemma bookmarks_answers : surely bookmarks.
Proof. unfold bookmarks. answer. apply on_disk_answers, saved_servers_open_answers. Qed.
Lemma persist_vault_answers nonce : surely (persist_vault nonce).
Proof. unfold persist_vault. answer. apply on_disk_answers, vault_save_answers. Qed.
Lemma persist_settings_answers : surely persist_settings.
Proof. unfold persist_settings. answer. apply on_disk_answers, settings_save_answers. Qed.
Lemma save_trust_answers store : surely (save_trust store).
Proof. apply on_disk_answers, trust_save_answers. Qed.
Lemma save_bookmarks_answers store : surely (save_bookmarks store).
Proof. unfold save_bookmarks. answer. apply on_disk_answers, bookmarks_save_answers. Qed.
Hint Resolve trust_store_answers bookmarks_answers persist_vault_answers persist_settings_answers save_trust_answers save_bookmarks_answers : answers.

Lemma remember_answers : surely remember_open_connections.
Proof. unfold remember_open_connections. answer. Qed.
Lemma clear_current_speakers_answers : surely clear_current_speakers.
Proof. unfold clear_current_speakers. answer. Qed.
Hint Resolve remember_answers clear_current_speakers_answers : answers.

(** An engine that is started owns its frame stream, and is nobody else's. *)
Lemma start_engine_fresh config report a :
  ready a -> let '(r, a') := start_engine config report a in
  steady ready unclaimed a a' /\ match r with inr e => ~ unclaimed e a /\ unclaimed e a' | inl _ => True end.
Proof.
  intros [Hs Hp]. unfold start_engine, engine_start.
  assert (Hn : ap_engines a !! ap_next_ref a = None) by (apply Hp; lia).
  destruct report as [[x | []]|]; [by split | | by split]. cbn. unfold steady, unclaimed. cbn. rewrite lookup_insert_eq, Hn.
  split_and!; [split; [done|] | | done | done].
  - intros r Hr. cbn in *. rewrite lookup_insert_ne by lia. apply Hp. lia.
  - intros e He. rewrite lookup_insert_ne; [done|]. intros <-. by rewrite Hn in He.
Qed.

(** Taking its stream leaves every other engine alone, and succeeds while it owns it. *)
Lemma take_engine_frames_own e a :
  ready a -> unclaimed e a ->
  (take_engine_frames e a).1 = true /\ ready (take_engine_frames e a).2 /\ spares unclaimed (Some e) a (take_engine_frames e a).2.
Proof.
  intros [Hs Hp] He. unfold unclaimed in He. unfold take_engine_frames. destruct (ap_engines a !! e) as [x|] eqn:E; [|done].
  injection He as He. unfold take_frames. rewrite He. split_and!; [done | split; [done|] |].
  - intros r Hr. cbn in *. rewrite lookup_insert_ne; [by apply Hp|]. intros ->. by rewrite Hp in E.
  - intros e' He' Hne. unfold unclaimed. cbn. rewrite lookup_insert_ne; [done | congruence].
Qed.

Lemma install_answers opened engine :
  pump_granted opened = true ->
  owning ready unclaimed (Some engine)
    (taken <- call (take_engine_frames engine);;
     if (taken : bool) then
       previous <- call (replace_engine (Some engine));;
       pumped <- spawn_capture_pump (pump_granted opened) engine;;
       match previous with Some previous => update (drop_engine previous) | None => Ret tt end;;
       if (pumped : bool) then Ret (inr engine) else Hang
     else (Hang : prog App (rstring + Z)))%prog.
Proof.
  intros Hg a Ha He. destruct (take_engine_frames_own engine a Ha He) as (H1 & H2 & H3). split_and!; [done..|].
  exists None. split; [by split; [|left]|]. cbn [bind]. rewrite H1, Hg. unfold spawn_capture_pump. apply owning_bind; [answer|].
  intros previous. apply owning_step. intros b Hb. split; [apply undisturbed_steady; [apply spawn_undisturbed | exact Hb]|]. answer.
Qed.

(** Provided the system grants the pump its thread. *)
Lemma start_audio_answers opened : pump_granted opened = true -> surely (start_audio opened).
Proof.
  intros Hg. unfold start_audio. apply owning_get. intros a0 _. apply owning_get. intros a1 _.
  apply owning_bind; [unfold carried_controls; answer|]. intros carried a Ha _.
  pose proof (start_engine_fresh (engine_config (st_audio (ap_settings a0))) (devices_report opened) a Ha) as H.
  destruct (start_engine _ _ a) as [[e | engine] a']; cbn [fst snd]; destruct H as [H1 H2].
  { split_and!; [apply H1 | by apply (steady_spares ready)|]. exists None. split; [by split; [|left] | done]. }
  split_and!; [apply H1 | by apply (steady_spares ready)|]. exists (Some engine). split.
  { split; [apply H2|]. right; right. exists engine. split; [done | apply H2]. }
  destruct carried as [[muted deafened]|]; [|by apply install_answers].
  do 2 (apply (owning_step ready unclaimed); intros ? ?; split; [apply undisturbed_steady; [by apply change_engine_undisturbed | done]|]).
  by apply install_answers.
Qed.
Lemma ensure_audio_answers opened : pump_granted opened = true -> surely (ensure_audio opened).
Proof. intros Hg. pose proof (start_audio_answers opened Hg). unfold ensure_audio. answer. Qed.
Lemma stop_audio_answers : surely stop_audio.
Proof. unfold stop_audio. answer. Qed.
Lemma route_voice_answers id : surely (route_voice id).
Proof. unfold route_voice. answer. Qed.
Lemma release_voice_answers id : surely (release_voice id).
Proof. unfold release_voice. answer. Qed.
Hint Resolve start_audio_answers ensure_audio_answers stop_audio_answers route_voice_answers release_voice_answers : answers.

Lemma end_session_answers id : surely (end_session id).
Proof. unfold end_session, shutdown. answer. Qed.
Hint Resolve end_session_answers : answers.

Lemma announce_answers e : surely (announce_voice_state e).
Proof. unfold announce_voice_state. answer. Qed.
Hint Resolve announce_answers : answers.

Lemma app_set_muted_answers b : surely (app_set_muted b).
Proof. unfold app_set_muted, running_engine. answer. Qed.
Lemma app_set_deafened_answers b : surely (app_set_deafened b).
Proof. unfold app_set_deafened, running_engine. answer. Qed.
Hint Resolve app_set_muted_answers app_set_deafened_answers : answers.

Lemma set_audio_settings_answers audio opened : pump_granted opened = true -> surely (set_audio_settings audio opened).
Proof. intros Hg. unfold set_audio_settings. answer. Qed.
Hint Resolve set_audio_settings_answers : answers.

(** Choosing from ranges that have a rate in them does not panic. *)
Lemma audio_devices_answers :
  (forall d kind l, device_configs d kind = inr l -> Forall proper l) -> surely audio_devices.
Proof.
  intros Hp. unfold audio_devices, audio_devices_listed.
  assert (H : forall kind, is_Some (list_devices kind)) by (intros kind; by apply list_devices_total).
  destruct (H Input) as [[e | inputs] ->]; [done|]. by destruct (H Output) as [[e | outputs] ->].
Qed.
Hint Resolve audio_devices_answers : answers.

(** ** Commands that need the vault *)

Lemma edit_vault_answers f : (forall v, vault_ok v -> vault_ok (f v).2) -> surely (edit_vault f).
Proof.
  intros Hf. unfold edit_vault. apply owning_bind; [|by intros]. apply owning_last_call. intros a Ha.
  pose proof (Hf (ap_vault a) (proj1 Ha)) as H. destruct (f (ap_vault a)) as [x v]. by apply vault_steady.
Qed.

Lemma edited_ok v e v' : edit v e = Some v' -> vault_ok v -> vault_ok v'.
Proof. intros He Hv. destruct (edit_ok v e Hv) as (x & Hx & Hok & _). congruence. Qed.

Lemma identity_info_answers : surely identity_info.
Proof. apply owning_get. intros a [[e ->]%signable_active _]. done. Qed.
Hint Resolve identity_info_answers : answers.

Lemma mine_identity_answers level : surely (mine_identity level).
Proof.
  unfold mine_identity. destruct (40 <? level); [done|]. apply owning_get. intros a [[e He]%signable_active _].
  unfold active_identity. by rewrite He.
Qed.

Lemma set_nickname_answers nickname nonce : surely (set_nickname nickname nonce).
Proof.
  unfold set_nickname. destruct (is_empty _); [done|]. apply owning_bind.
  - apply owning_last_call. intros a Ha. cbv zeta.
    pose proof (edited_ok (ap_vault a) (ESetNickname (v_active (ap_vault a)) (trim nickname)) _ eq_refl (proj1 Ha)) as H.
    destruct (vault_set_nickname _ _ _) as [x v]. by apply vault_steady.
  - intros [e | active]; answer.
Qed.

Lemma add_identity_answers generated nickname label nonce : surely (add_identity generated nickname label nonce).
Proof.
  unfold add_identity, identities. cbv zeta. destruct (is_empty _); [done|]. apply owning_bind; [|intros [e | []]; answer].
  apply edit_vault_answers. intros v Hv. pose proof (edited_ok v (EAdd generated (trim nickname) (trim label)) _ eq_refl Hv) as H.
  destruct (add v generated (trim nickname) (trim label)) as [fp w]. exact (edited_ok w (ESetActive fp) _ eq_refl H).
Qed.

Lemma set_active_identity_answers fp nonce : surely (set_active_identity fp nonce).
Proof.
  unfold set_active_identity, identities. apply owning_bind; [|intros [e | []]; answer].
  apply edit_vault_answers. intros v. exact (edited_ok v (ESetActive fp) _ eq_refl).
Qed.

Lemma set_identity_label_answers fp label nonce : surely (set_identity_label fp label nonce).
Proof.
  unfold set_identity_label, identities. apply owning_bind; [|intros [e | []]; answer].
  apply edit_vault_answers. intros v. exact (edited_ok v (ESetLabel fp (trim label)) _ eq_refl).
Qed.

(** [remove] never indexes an empty list. *)
Lemma remove_identity_answers fp nonce : surely (remove_identity fp nonce).
Proof.
  unfold remove_identity, identity_in_use, identities. apply owning_get. intros a0 _. cbv beta. destruct (bool_decide (map_Exists _ _)); [done|].
  apply owning_call. intros a Ha. destruct (edit_ok (ap_vault a) (ERemove fp) (proj1 Ha)) as (v & Hv & Hok & _).
  cbn [edit] in Hv. destruct (vault_remove (ap_vault a) fp) as [[r w]|]; [|done]. injection Hv as ->. split; [by apply vault_steady|].
  cbn [fst]. destruct r as [e | []]; answer.
Qed.

(** When the search is long enough to end. *)
Lemma mining_thread_answers fuel ident target nonce :
  identity_mine (fun said p => (said ++ [MiningEvent (prog_best_level p) (prog_hashes p) false], true)) fuel [] ident target <> None ->
  surely (mining_thread fuel ident target nonce).
Proof.
  intros H. unfold mining_thread. destruct (identity_mine _ _ _ _ _) as [[[said report] ident']|]; [|done].
  apply owning_bind; [answer|]. intros _. apply owning_bind; [|intros [e | []]; answer].
  apply edit_vault_answers. intros v. exact (edited_ok v (ESetCounter _ _) _ eq_refl).
Qed.

Lemma open_session_answers o ident fp address info : pump_granted (ou_opened o) = true -> surely (open_session o ident fp address info).
Proof. intros Hg. unfold open_session. answer. Qed.
Hint Resolve open_session_answers : answers.

Lemma connect_command_answers o address password identity :
  pump_granted (ou_opened o) = true -> surely (app_connect o address password identity).
Proof.
  intros Hg. unfold app_connect. destruct (resolve_address address) as [e | target]; [done|]. apply owning_get. intros a [Ha _].
  assert (Hc : identity_for identity a <> None).
  { destruct (signable_active a Ha) as [e He]. unfold identity_for. destruct identity as [fp|]; [by destruct (vault_get _ _) | by rewrite He]. }
  destruct (identity_for identity a) as [[e | [[ident nickname] fp]]|]; [done | | done].
  apply owning_bind; [answer|]. intros [e | store]; [done|]. apply owning_bind; [|intros [e | info]; answer].
  unfold attempt_login. apply owning_bind; [|done].
  apply (owning_aside_local _ _ _ _ _ (fun _ => True)); [done | intros w b Hb; by apply undisturbed_steady | apply connect_answers].
Qed.

Hint Resolve mine_identity_answers set_nickname_answers add_identity_answers set_active_identity_answers set_identity_label_answers
  remove_identity_answers connect_command_answers : answers.

Lemma with_session_answers {X} id (f : ActiveSession -> App -> X * App) :
  (forall s a, undisturbed a (f s a).2) -> surely (with_session id f).
Proof.
  intros H. apply step_call. intros a. destruct (ap_sessions a !! id) as [s|]; [|done].
  specialize (H s a). by destruct (f s a).
Qed.

Lemma ask_answers session request : surely (ask session request).
Proof. apply with_session_answers. intros s a. apply on_client_undisturbed. Qed.

Lemma ask_with_nonce_answers session request : surely (ask_with_nonce session request).
Proof. apply with_session_answers. intros s a. cbn. etrans; [|apply on_client_undisturbed]. done. Qed.
Hint Resolve ask_answers ask_with_nonce_answers : answers.

Lemma request_answers p : request p -> surely p.
Proof.
  intros []; unfold ask_join_channel, ask_leave_channel, ask_fetch_history, ask_kick, ask_ban, ask_unban, ask_list_bans, ask_set_server_muted,
    ask_move_user, ask_create_role, ask_update_role, ask_delete_role, ask_reorder_roles, ask_set_member_roles,
    ask_set_channel_overwrite, ask_delete_channel_overwrite, ask_create_channel, ask_update_channel, ask_delete_channel,
    ask_send_message, refuse; cbv zeta; answer.
Qed.

Lemma from_mirror_answers {X} session (f : PermMirror -> X) : surely (from_mirror session f).
Proof. by apply with_session_answers. Qed.
Hint Resolve from_mirror_answers : answers.

(** The commands of [lib.rs]'s [invoke_handler] that work on the application's state, in its order, and
    the threads beside them: the pumps, the audio callback, mining.  A search for a proof of work is
    one that ends, the system grants the capture pump its thread, and the ranges the sound library
    reports are not empty. *)
Inductive app_command : prog App unit -> Prop :=
| ac_identity_info : app_command (quietly identity_info)
| ac_identities : app_command (quietly identities)
| ac_set_nickname n nonce : app_command (quietly (set_nickname n nonce))
| ac_add_identity i n l nonce : app_command (quietly (add_identity i n l nonce))
| ac_set_active_identity fp nonce : app_command (quietly (set_active_identity fp nonce))
| ac_set_identity_label fp l nonce : app_command (quietly (set_identity_label fp l nonce))
| ac_remove_identity fp nonce : app_command (quietly (remove_identity fp nonce))
| ac_mine_identity level : app_command (quietly (mine_identity level))
| ac_audio_devices :
    (forall d kind l, device_configs d kind = inr l -> Forall proper l) -> app_command (quietly audio_devices)
| ac_settings : app_command (quietly settings)
| ac_set_audio_settings audio opened : pump_granted opened = true -> app_command (quietly (set_audio_settings audio opened))
| ac_start_audio_preview opened : pump_granted opened = true -> app_command (quietly (start_audio_preview opened))
| ac_stop_audio_preview : app_command stop_audio_preview
| ac_connect o address password ident :
    pump_granted (ou_opened o) = true -> app_command (quietly (app_connect o address password ident))
| ac_disconnect s : app_command (disconnect s)
| ac_sessions : app_command (quietly sessions)
| ac_set_voice_session s : app_command (quietly (set_voice_session s))
| ac_request p : request p -> app_command (quietly p)
| ac_my_permissions s : app_command (quietly (session_permissions s))
| ac_moderation_options s c : app_command (quietly (session_moderation s c))
| ac_channel_overwrites s ch : app_command (quietly (channel_overwrites s ch))
| ac_channel_matrix s ch : app_command (quietly (session_matrix s ch))
| ac_set_muted b : app_command (quietly (set_muted_command b))
| ac_set_deafened b : app_command (quietly (set_deafened_command b))
| ac_set_push_to_talk_held b : app_command (app_set_push_to_talk_held b)
| ac_voice_state : app_command (quietly voice_state)
| ac_input_activity : app_command (quietly input_activity)
| ac_speaking : app_command (quietly speaking_now)
| ac_known_servers : app_command (quietly known_servers)
| ac_forget_server address : app_command (quietly (forget_server address))
| ac_trust_changed_identity key fp : app_command (quietly (trust_changed_identity key fp))
| ac_bookmarks : app_command (quietly list_bookmarks)
| ac_add_bookmark i : app_command (quietly (add_bookmark i))
| ac_update_bookmark id i : app_command (quietly (update_bookmark id i))
| ac_remove_bookmark id : app_command (quietly (remove_bookmark id))
| ac_end_all_sessions : app_command end_all_sessions
| ac_event_pump t events : app_command (event_pump t events)
| ac_capture_pump t took : app_command (capture_pump t took)
| ac_input_callback e samples c : app_command (quietly (call (input_callback e samples c)))
| ac_mining_thread fuel ident target nonce :
    identity_mine (fun said p => (said ++ [MiningEvent (prog_best_level p) (prog_hashes p) false], true)) fuel [] ident target <> None ->
    app_command (mining_thread fuel ident target nonce).

(** ** The pumps *)

Lemma forward_frames_answers t e took : surely (forward_frames t e took).
Proof. induction took as [|took rest IH]; cbn [forward_frames]; unfold forward_frame; answer. Qed.
Hint Resolve forward_frames_answers : answers.

Lemma pump_event_answers session perms event : surely (pump_event session perms event).
Proof. destruct event; cbn [pump_event]; unfold pump_voice, pump_other, emit_snapshot, emit_event; answer. Qed.
Hint Resolve pump_event_answers : answers.

Lemma pump_events_answers t session perms events : surely (pump_events t session perms events).
Proof. induction events as [|event rest IH]; cbn [pump_events]; answer. Qed.
Hint Resolve pump_events_answers mining_thread_answers request_answers : answers.

Lemma app_command_answers p : app_command p -> surely p.
Proof.
  intros []; unfold quietly, identities, settings, disconnect, sessions, set_voice_session, set_muted_command, set_deafened_command,
    emit_voice_state, app_set_push_to_talk_held, start_audio_preview, stop_audio_preview, voice_state, input_activity, speaking_now,
    known_servers, forget_server, trust_changed_identity, list_bookmarks, add_bookmark, update_bookmark, remove_bookmark,
    session_permissions, session_moderation, channel_overwrites, session_matrix, end_all_sessions, event_pump, capture_pump; answer.
Qed.

(** ** At the desk *)

Context {SH : ShortcutHost}.

#[local] Abbreviation at_desk := (owning (fun d => ready (dk_app d)) (fun e d => unclaimed e (dk_app d)) None).

Lemma in_app_answers {X} (p : prog App X) : surely p -> at_desk (in_app p).
Proof. by apply owning_zoom. Qed.

(** A step that leaves the application alone. *)
Lemma desk_step_update f : (forall d, dk_app (f d) = dk_app d) -> at_desk (update f).
Proof. intros H. apply owning_update. intros d Hd. split; [by rewrite H | intros e; by rewrite H]. Qed.

Lemma register_answers shortcut : at_desk (call (register shortcut)).
Proof. apply owning_last_call. intros d Hd. unfold register. by destruct (grab_refused _ _). Qed.

Lemma grab_key_answers system action accelerator : at_desk (grab_key system action accelerator).
Proof.
  unfold grab_key. destruct (parse_shortcut accelerator) as [e | shortcut]; [done|]. apply owning_bind; [apply register_answers|].
  intros [e|]; [done|]. apply owning_bind; [by apply desk_step_update | done].
Qed.

Lemma grab_all_answers sys system wanted : at_desk (grab_all sys system wanted).
Proof.
  induction wanted as [|[action accelerator] rest IH]; cbn [grab_all]; [done|]. destruct (configured accelerator) as [x|]; [|done].
  destruct (goes_to_mouse sys x); [by apply owning_bind|]. apply owning_bind; [apply grab_key_answers|]. intros grabbed. by apply owning_bind.
Qed.

Lemma apply_keybinds_answers sys system : at_desk (apply_keybinds sys system).
Proof.
  unfold apply_keybinds. apply owning_bind; [by apply desk_step_update|]. intros _. apply owning_get. intros d _.
  apply owning_bind; [apply grab_all_answers|]. intros r. apply owning_bind; [by apply desk_step_update | done].
Qed.

Lemma set_keybinds_answers keybinds sys system : at_desk (set_keybinds keybinds sys system).
Proof.
  unfold set_keybinds. apply owning_bind; [apply in_app_answers; answer|]. intros _.
  apply owning_bind; [apply in_app_answers; answer|]. intros [e | []]; [done|]. apply owning_bind; [apply apply_keybinds_answers | done].
Qed.

Lemma dispatch_answers action pressed : at_desk (dispatch action pressed).
Proof.
  assert (Ht : forall p, surely p -> at_desk (toggled p)).
  { intros p Hp. apply owning_bind; [by apply in_app_answers|]. intros [e | voice]; [done|]. apply in_app_answers. unfold emit_voice_state. answer. }
  destruct action; cbn [dispatch]; [apply in_app_answers; unfold app_set_push_to_talk_held; answer | |];
    (destruct pressed; [|done]; apply Ht; unfold toggle_muted, toggle_deafened, running_engine; answer).
Qed.

Lemma mouse_reader_answers g codes fetches : at_desk (mouse_reader g codes fetches).
Proof.
  induction fetches as [|fetched rest IH]; cbn [mouse_reader]; [done|]. apply owning_get. intros d _.
  destruct (bool_decide _); [done|]. destruct (read_fetched codes fetched) as [actions go_on].
  apply owning_bind; [|by destruct go_on]. apply owning_for_each. intros e. apply dispatch_answers.
Qed.

(** Everything that runs beside the window: those commands, the commands about the shortcuts, the
    start's own grabbing, a shortcut that is pressed or let go, and a mouse's reader. *)
Inductive desk_command : prog Desk unit -> Prop :=
| dc_app p : app_command p -> desk_command (in_app p)
| dc_set_keybinds keybinds sys system : desk_command (quietly (set_keybinds keybinds sys system))
| dc_keybind_status sys system : desk_command (quietly (keybind_status sys system))
| dc_mouse_udev_rule by_id : desk_command (quietly (Ret (udev_advice by_id)))
| dc_setup sys system : desk_command (quietly (desktop_setup sys system))
| dc_shortcut shortcut pressed : desk_command (handle_shortcut shortcut pressed)
| dc_mouse g codes fetches : desk_command (mouse_reader g codes fetches).

Lemma desk_command_answers p : desk_command p -> at_desk p.
Proof.
  intros [q Hq | keybinds sys system | sys system | by_id | sys system | shortcut pressed | g codes fetches].
  - by apply in_app_answers, app_command_answers.
  - by apply owning_bind; [apply set_keybinds_answers|].
  - by apply owning_bind; [apply apply_keybinds_answers|].
  - done.
  - apply owning_bind; [|done]. by apply owning_bind; [apply apply_keybinds_answers|].
  - apply owning_get. intros d _. destruct (action_for shortcut d) as [action|]; [apply dispatch_answers | done].
  - apply mouse_reader_answers.
Qed.

(** C19: every command of the application answers: under every interleaving of all the commands the
    interface can invoke, shortcuts, mouse readers, pumps, audio callbacks and searches that end, no
    thread ever panics or is caught, and each thread, left alone from wherever it is, comes to its
    end. It rests on four things: the vault the application started with has its active key in it and
    lists no key twice (and it stays so); the application's tables were in order; the system grants a
    capture pump its thread; and the ranges of rates the sound library reports are not empty. A
    locked section is one step here, so waiting for a lock is not part of it. *)
Theorem every_command_answers d l d' :
  signable (dk_app d) -> app_tables (dk_app d) -> rtc (pstep desk_command) ([], d) (l, d') ->
  signable (dk_app d') /\ forall i p, l !! i = Some p -> ends (fun _ d => signable (dk_app d)) p d'.
Proof.
  intros Hs Ht Hsteps.
  assert (Hp : engines_placed (dk_app d)) by (intros r Hr; apply (tb_fresh _ Ht r Hr)).
  assert (H : owners (fun d => ready (dk_app d)) (fun e d => unclaimed e (dk_app d)) (l, d')).
  { apply (psteps_owning _ _ desk_command _ _ desk_command_answers Hsteps). split; [by split|]. exists []. by split_and!. }
  split; [apply (proj1 H)|]. intros i p Hi. eapply ends_weaken; [exact (owners_end _ _ (l, d') i p H Hi)|]. by intros _ x [Hx _].
Qed.

End Commands.
