(* ===== verification/Controls.v ===== *)
(** * What the controls do

    Mute and deafen belong to the application, not to a connection: every server is told of them,
    and they survive a change of devices in the middle of a call.  The last part is the answer to
    a server whose identity changed. *)

From S2P Require Export Answers.
From S2P Require Import Keystore Vault VaultSafety Sealed Settings Bookmarks.

Section Controls.
Context {C : Crypto} {M : Libm} {O : Opus} {HO : HashOrder} {HOL : HashOrderLaws HO} {T : AppTexts} {SJ : Json Settings}.
Implicit Types (a : App) (v : bool * bool) (engine : AudioEngine).

(** Muted and deafened. *)
Definition engine_voice (engine : AudioEngine) : bool * bool := (is_muted engine, engine_is_deafened engine).

(** The four ways to change it, and what each means. *)
Inductive voice_button : prog App (rstring + VoiceButtons) -> (bool * bool -> bool * bool) -> Prop :=
| vb_mute b : voice_button (app_set_muted b) (fun v => (b, v.2))
| vb_deafen b : voice_button (app_set_deafened b) (fun v => (b || v.1, b))
| vb_toggle_mute : voice_button toggle_muted (fun v => (negb v.1, v.2))
| vb_toggle_deafen : voice_button toggle_deafened (fun v => (negb v.2 || v.1, negb v.2)).

Definition listed_client a (c : Z) : Prop := exists id s, ap_sessions a !! id = Some s /\ as_client s = c.

(** ** Telling the servers *)

Lemma tell_client_lookup c f a c' :
  ap_clients (tell_client c f a) !! c' = (if c' =? c then (fun x => (f x).2) else id) <$> ap_clients a !! c'.
Proof.
  unfold tell_client, on_client. destruct (Z.eqb_spec c' c) as [-> | Hne].
  - destruct (ap_clients a !! c) as [x|] eqn:E; [|done]. destruct (f x) as [r y] eqn:Ef. cbn. by rewrite lookup_insert_eq, Ef.
  - rewrite option_fmap_id. destruct (ap_clients a !! c) as [x|]; [|done]. destruct (f x). cbn. by rewrite lookup_insert_ne.
Qed.

Lemma tell_each (f : Client -> bool * Client) (l : list (Z * ActiveSession)) a c :
  NoDup (map (fun e => as_client e.2) l) ->
  ap_clients (fold_left (fun a e => tell_client (as_client e.2) f a) l a) !! c =
    (if bool_decide (c ∈ map (fun e => as_client e.2) l) then (fun x => (f x).2) else id) <$> ap_clients a !! c.
Proof.
  revert a; induction l as [|[id s] l IH]; intros a; cbn [map fold_left snd].
  - intros _. rewrite bool_decide_false by apply not_elem_of_nil. by rewrite option_fmap_id.
  - intros [Hs Hn]%NoDup_cons. rewrite IH, tell_client_lookup by done. destruct (Z.eqb_spec c (as_client s)) as [-> | Hne].
    + rewrite (bool_decide_false (as_client s ∈ map _ l)) by done. rewrite bool_decide_true by left. by rewrite option_fmap_id.
    + rewrite option_fmap_id. f_equal. by rewrite (bool_decide_ext (c ∈ map _ l) (c ∈ as_client s :: map _ l)) by (rewrite elem_of_cons; split; [by right | by intros [-> |]]).
Qed.

Lemma clients_are_told_once a : app_tables a -> NoDup (map (fun e => as_client e.2) (hash_iter (ap_sessions a))).
Proof.
  intros Ha. apply NoDup_fmap_2_strong.
  - intros [i s] [j t] Hi Hj E. apply elem_of_hash_iter in Hi, Hj. cbn in E.
    destruct (tb_listed a Ha i s Hi) as (_ & Hsi & _), (tb_listed a Ha j t Hj) as (_ & Htj & _). rewrite <- E in Htj.
    assert (i = j) as -> by exact (tb_own a Ha _ _ _ Hsi Htj). by simplify_eq.
  - eapply NoDup_fmap_1, NoDup_hash_iter.
Qed.

Lemma elem_of_told a c : c ∈ map (fun e => as_client e.2) (hash_iter (ap_sessions a)) <-> listed_client a c.
Proof.
  rewrite list_elem_of_fmap. split.
  - intros ([id s] & -> & Hin). apply elem_of_hash_iter in Hin. by exists id, s.
  - intros (id & s & Hs & <-). exists (id, s). split; [done|]. by apply elem_of_hash_iter.
Qed.

(** What telling everybody changes. *)
Record everybody_told (muted deafened : bool) a a' : Prop := {
  et_listed c : listed_client a c -> ap_clients a' !! c = (fun x => (cl_set_voice_state muted deafened x).2) <$> ap_clients a !! c;
  et_others c : ~ listed_client a c -> ap_clients a' !! c = ap_clients a !! c;
  et_sessions : ap_sessions a' = ap_sessions a;
  et_voice : ap_voice a' = ap_voice a }.

Lemma tell_all_rest muted deafened a :
  let a' := tell_all muted deafened a in
  ap_sessions a' = ap_sessions a /\ ap_voice a' = ap_voice a /\ ap_engines a' = ap_engines a.
Proof.
  unfold tell_all. cbv zeta. generalize (hash_iter (ap_sessions a)) as l. intros l. revert a. induction l as [|[id s] l IH]; intros a; [done|].
  cbn [fold_left snd]. destruct (IH (tell_client (as_client s) (cl_set_voice_state muted deafened) a)) as (-> & -> & ->).
  unfold tell_client, on_client. destruct (ap_clients a !! as_client s) as [x|]; [|done]. by destruct (cl_set_voice_state _ _ x).
Qed.

Lemma tell_all_tells muted deafened a : app_tables a -> everybody_told muted deafened a (tell_all muted deafened a).
Proof.
  intros Ha. destruct (tell_all_rest muted deafened a) as (Hs & Hv & _). pose proof (fun c => tell_each (cl_set_voice_state muted deafened)
    (hash_iter (ap_sessions a)) a c (clients_are_told_once a Ha)) as Ht. fold (tell_all muted deafened a) in Ht.
  split; [intros c Hc | intros c Hc | done | done]; rewrite Ht, <- elem_of_told in *.
  - by rewrite bool_decide_true.
  - rewrite bool_decide_false by done. by rewrite option_fmap_id.
Qed.

(** ** The buttons *)

Definition with_voice (v : bool * bool) (engine : AudioEngine) : AudioEngine := engine_set_deafened v.2 (engine_set_muted v.1 engine).

Lemma with_voice_spec v engine : engine_voice (with_voice v engine) = v.
Proof. by destruct v. Qed.

Lemma set_muted_voice b engine : engine_set_muted b engine = with_voice (b, engine_is_deafened engine) engine.
Proof. destruct engine as [r q [] []]. done. Qed.

Lemma set_deafened_voice (b : bool) engine :
  (if b then engine_set_muted true (engine_set_deafened true engine) else engine_set_deafened false engine) =
  with_voice (b || is_muted engine, b) engine.
Proof. destruct engine as [r q [] []], b; done. Qed.

(** What a button that ends in [v] leaves. *)
Record pressed_to v (e : Z) engine a (r : rstring + VoiceButtons) a' : Prop := {
  pt_answer : r = inr (mkButtons v.1 v.2);
  pt_engine : ap_engines a' = <[e := with_voice v engine]> (ap_engines a);
  pt_told : everybody_told v.1 v.2 a a' }.

Lemma announce_tells v (e : Z) engine a :
  app_tables a -> ap_engines a !! e = Some engine ->
  ends (fun r a' => pressed_to v e engine a (inr r) a') (announce_voice_state e) (change_engine e (fun _ => with_voice v engine) a).
Proof.
  intros Ha He. set (a1 := change_engine e (fun _ => with_voice v engine) a).
  assert (Ha1 : app_tables a1) by (eapply like_grows; [exact Ha | apply change_engine_like]).
  assert (He1 : ap_engines a1 = <[e := with_voice v engine]> (ap_engines a)).
  { unfold a1, change_engine, up_engines. cbn. apply map_eq. intros i. destruct (decide (i = e)) as [-> | Hne].
    - by rewrite lookup_alter_eq, lookup_insert_eq, He.
    - by rewrite lookup_alter_ne, lookup_insert_ne. }
  unfold announce_voice_state, read_engine. do 2 apply ends_get. rewrite He1, lookup_insert_eq. apply ends_update, ends_ret.
  change (is_muted (with_voice v engine)) with v.1. change (engine_is_deafened (with_voice v engine)) with v.2.
  destruct (tell_all_tells v.1 v.2 a1 Ha1) as [H1 H2 H3 H4]. destruct (tell_all_rest v.1 v.2 a1) as (_ & _ & H5).
  split; [done | by rewrite H5 | split; [exact H1 | exact H2 | exact H3 | exact H4]].
Qed.

Lemma running_ends {X} (Q : rstring + X -> App -> Prop) (k : Z -> prog App (rstring + X)) (e : Z) a :
  ap_engine a = Some e -> ends Q (k e) a -> ends Q (and_then_app running_engine k) a.
Proof. intros He H. unfold and_then_app, running_engine. apply ends_assoc, ends_get. unfold current_engine. by rewrite He. Qed.

Lemma change_engine_to e f engine a :
  ap_engines a !! e = Some engine -> change_engine e f a = change_engine e (fun _ => f engine) a.
Proof.
  intros He. unfold change_engine, up_engines. f_equal. apply map_eq. intros i. destruct (decide (i = e)) as [-> | Hne].
  - by rewrite !lookup_alter_eq, He.
  - by rewrite !lookup_alter_ne.
Qed.

Lemma change_engine_twice e f g a : change_engine e g (change_engine e f a) = change_engine e (fun x => g (f x)) a.
Proof.
  unfold change_engine, up_engines. cbn. f_equal. apply map_eq. intros i. destruct (decide (i = e)) as [-> | Hne].
  - rewrite !lookup_alter_eq. by destruct (ap_engines a !! e).
  - by rewrite !lookup_alter_ne.
Qed.

Lemma set_muted_presses b e engine a :
  app_tables a -> ap_engine a = Some e -> ap_engines a !! e = Some engine ->
  ends (pressed_to (b, (engine_voice engine).2) e engine a) (app_set_muted b) a.
Proof.
  intros Ha Hc He. apply running_ends with (e := e); [done|]. apply ends_update. rewrite (change_engine_to e _ engine) by done.
  rewrite set_muted_voice. eapply ends_bind; [by apply announce_tells|]. intros r a' H. by apply ends_ret.
Qed.

Lemma set_deafened_presses b e engine a :
  app_tables a -> ap_engine a = Some e -> ap_engines a !! e = Some engine ->
  ends (pressed_to (b || (engine_voice engine).1, b) e engine a) (app_set_deafened b) a.
Proof.
  intros Ha Hc He. apply running_ends with (e := e); [done|]. apply ends_update. pose proof (set_deafened_voice b engine) as Hv.
  assert (Hend : forall x, x = change_engine e (fun _ => with_voice (b || is_muted engine, b) engine) a ->
    ends (pressed_to (b || (engine_voice engine).1, b) e engine a)
      (bind (announce_voice_state e) (fun state => Ret (inr state))) x).
  { intros x ->. eapply ends_bind; [by apply announce_tells|]. intros r a' H. by apply ends_ret. }
  destruct b; [apply ends_update|]; apply Hend; rewrite ?change_engine_twice, (change_engine_to e _ engine) by done; by rewrite <- Hv.
Qed.

(** C23: every server is told. While the audio runs, each of the four ways to mute or deafen comes
    to an end and answers with the state it leaves; the engine that runs is left in exactly that
    state and no other engine is touched; each connection that is listed is told that state once,
    whether it holds voice or not, no other connection is told anything, and the table and the
    route of voice stay as they were. *)
Theorem every_server_is_told p f e engine a :
  voice_button p f -> app_tables a -> ap_engine a = Some e -> ap_engines a !! e = Some engine ->
  ends (fun r a' => let v := f (engine_voice engine) in
      r = inr (mkButtons v.1 v.2) /\
      (exists engine', ap_engines a' = <[e := engine']> (ap_engines a) /\ engine_voice engine' = v) /\
      (forall id s client, ap_sessions a !! id = Some s -> ap_clients a !! as_client s = Some client ->
         ap_clients a' !! as_client s = Some (cl_set_voice_state v.1 v.2 client).2) /\
      (forall c, ~ listed_client a c -> ap_clients a' !! c = ap_clients a !! c) /\
      ap_sessions a' = ap_sessions a /\ ap_voice a' = ap_voice a) p a.
Proof.
  intros Hp Ha Hc He. assert (H : ends (pressed_to (f (engine_voice engine)) e engine a) p a).
  { destruct Hp; cbn [fst snd].
    - by apply set_muted_presses.
    - by apply set_deafened_presses.
    - apply running_ends with (e := e); [done|]. apply ends_get. rewrite He. by apply set_muted_presses.
    - apply running_ends with (e := e); [done|]. apply ends_get. rewrite He. by apply set_deafened_presses. }
  eapply ends_weaken; [exact H|]. intros r a' [H1 H2 [H3 H4 H5 H6]]. cbv zeta. split_and!; try done.
  - exists (with_voice (f (engine_voice engine)) engine). split; [done | apply with_voice_spec].
  - intros id s client Hs Hcl. rewrite H3, Hcl by (by exists id, s). done.
Qed.

(** ** Changing the devices *)

(** The engine that [opened] devices would give under [audio], with [v] carried over and its
    frames in the pump's hands. *)
Definition fresh_engine (audio : AudioSettings) v : AudioEngine :=
  with_voice v (mkEngine false [] new_mixer (new_controls (Settings.gate_mode (au_gate_mode audio)))).

(** What starting an engine over a running one leaves. *)
Record restarted (e : Z) v a (e' : Z) a' : Prop := {
  rs_slot : ap_engine a' = Some e';
  rs_new : ap_engines a !! e' = None;
  rs_engines : ap_engines a' = <[e' := fresh_engine (st_audio (ap_settings a)) v]> (ap_engines a);
  rs_frames : ap_frames a' !! e' = Some (mkFrames [] true) /\
              ap_frames a' !! e = (fun ch => mkFrames (fc_queue ch) false) <$> ap_frames a !! e;
  rs_pump : exists t, ap_tasks a !! t = None /\ ap_tasks a' = <[t := mkTask (CapturePump e') Spawned]> (ap_tasks a);
  rs_rest : ap_sessions a' = ap_sessions a /\ ap_voice a' = ap_voice a /\ ap_clients a' = ap_clients a /\
            ap_mirrors a' = ap_mirrors a /\ ap_settings a' = ap_settings a }.

Lemma change_new e f engine a : change_engine e f (up_engines (<[e := engine]>) a) = up_engines (<[e := f engine]>) a.
Proof. unfold change_engine, up_engines. cbn. f_equal. apply alter_insert_eq. Qed.

Lemma start_audio_restarts opened e engine a :
  app_tables a -> pump_granted opened = true -> ap_engine a = Some e -> ap_engines a !! e = Some engine ->
  ends (fun r a' => match r with
      | inl _ => a' = a
      | inr e' => restarted e (engine_voice engine) a e' a'
      end) (start_audio opened) a.
Proof.
  intros Ha Hg Hc He. unfold start_audio, spawn_capture_pump. rewrite Hg. do 2 apply ends_get. unfold current_engine. rewrite Hc. cbn [carried_controls].
  unfold read_engine. apply ends_assoc, ends_get, ends_assoc, ends_get. rewrite He. cbn [bind]. apply ends_call.
  unfold start_engine, engine_start. destruct (devices_report opened) as [[x | []]|]; cbn [fst snd]; [by apply ends_ret | | by apply ends_ret].
  cbn [fst snd fresh_ref]. apply ends_assoc, ends_update, ends_update. rewrite !change_new.
  destruct (tb_fresh a Ha (ap_next_ref a)) as (_ & _ & Hn & _); [lia|]. destruct (tb_fresh a Ha (ap_next_ref a + 1)) as (_ & _ & _ & Ht); [lia|].
  assert (Hne : e <> ap_next_ref a) by (intros ->; congruence).
  apply ends_call. unfold take_engine_frames. cbn [ap_engines up_engines]. rewrite lookup_insert_eq. cbn [take_frames has_receiver set_mixer
    set_controls engine_set_deafened engine_set_muted fst snd queue mixer controls up_frames ap_frames].
  apply ends_call, ends_call. cbn [fst snd replace_engine spawn fresh_ref put_engine ap_engine up_tasks ap_tasks]. rewrite Hc.
  apply ends_update, ends_ret. split; cbn; [done | done | by rewrite insert_insert_eq | | by exists (ap_next_ref a + 1) | done].
  rewrite lookup_alter_ne, lookup_insert_eq by done. split; [done|]. by rewrite lookup_alter_eq, lookup_insert_ne.
Qed.

Lemma persist_settings_ends a : ends (fun _ a' => exists d, a' = put_disk d a) persist_settings a.
Proof.
  unfold persist_settings. do 2 apply ends_get. unfold on_disk.
  apply (ends_bind (fun _ a' => exists d, a' = put_disk d a)); [|intros r a' Ha; by apply ends_ret].
  pose proof (answers_ends _ _ (ap_disk a) (settings_save_answers (settings_path (ap_paths a)) (ap_settings a)) Logic.I) as H.
  unfold ends in *. rewrite run_zoom; [| done | by intros [] | done].
  destruct (run (settings_save _ _) (ap_disk a)) as [[r d]|]; [by exists d | done].
Qed.

(** C24: a change of devices keeps the call. Whatever is chosen, storing it comes to an end, as long
    as the system grants the capture pump of a new engine its thread (the source panics where it does
    not); the
    connections and the route of voice are as they were. On success the engine that runs is as
    muted and as deafened as the one before and gates the microphone as chosen, and if it is
    another one, it is new, with a pump of its own on an open channel, and the old one's channel is
    closed; without an engine none is started. On failure the engine that ran still runs,
    untouched. *)
Theorem changing_devices_keeps_the_call audio opened a :
  app_tables a -> pump_granted opened = true ->
  ends (fun r a' =>
      ap_sessions a' = ap_sessions a /\ ap_voice a' = ap_voice a /\ ap_clients a' = ap_clients a /\
      st_audio (ap_settings a') = audio /\
      match r, ap_engine a with
      | inr _, Some e =>
          exists e' engine engine', ap_engines a !! e = Some engine /\ ap_engine a' = Some e' /\ ap_engines a' !! e' = Some engine' /\
            engine_voice engine' = engine_voice engine /\
            controls_gate_mode (controls engine') = Settings.gate_mode (au_gate_mode audio) /\
            (e' <> e -> ap_engines a !! e' = None /\ ap_frames a' !! e' = Some (mkFrames [] true) /\
               ap_frames a' !! e = (fun ch => mkFrames (fc_queue ch) false) <$> ap_frames a !! e /\
               exists t, ap_tasks a !! t = None /\ ap_tasks a' = <[t := mkTask (CapturePump e') Spawned]> (ap_tasks a))
      | _, _ => ap_engine a' = ap_engine a /\ ap_engines a' = ap_engines a
      end)
    (set_audio_settings audio opened) a.
Proof.
  intros Ha Hg. unfold set_audio_settings. apply ends_call. cbn [fst snd]. unfold and_then_app.
  eapply ends_bind; [apply persist_settings_ends|]. intros [e0 | []] a1 (d & ->).
  { apply ends_ret. cbn. by destruct (ap_engine a). }
  set (a1 := put_disk d _). assert (Ha1 : app_tables a1) by (eapply like_grows; [exact Ha | by split; auto]).
  apply ends_get. unfold current_engine. change (ap_engine a1) with (ap_engine a). destruct (ap_engine a) as [e|] eqn:Ee.
  2: { by apply ends_ret. }
  destruct (tb_engine a Ha e Ee) as [engine He]. destruct (needs_restart _ _).
  - eapply ends_bind; [by apply (start_audio_restarts opened e engine a1)|]. intros [x | e'] a2 H; apply ends_ret; [by subst a2|].
    destruct H as [H1 H2 H3 [H4 H5] (t & H6 & H7) (H8 & H9 & H10 & _ & H11)]. rewrite H8, H9, H10, H11. split_and!; [done..|].
    exists e', engine, (fresh_engine audio (engine_voice engine)). rewrite H3, lookup_insert_eq. split_and!; try done.
    { unfold controls_gate_mode. cbn. apply mode_roundtrip. }
    intros _. split_and!; try done. by exists t.
  - apply ends_update, ends_ret. split_and!; [done..|]. exists e, engine, (engine_set_gate_mode (Settings.gate_mode (au_gate_mode audio)) engine).
    cbn. rewrite lookup_alter_eq, He, Ee. split_and!; try done. unfold controls_gate_mode. cbn. apply mode_roundtrip.
Qed.

End Controls.

(** ** Accepting a changed identity

    A server that shows another identity than the pinned one is refused, and the refusal carries
    what was shown.  Accepting it pins that identity and nothing else. *)

Section Accepting.
Context {C : Crypto} {CL : CryptoLaws C} {M : Libm} {O : Opus} {HO : HashOrder} {T : AppTexts} {TJ : Json StoreFile} {JL : JsonLaws StoreFile TJ}.
Implicit Types a : App.

(** ** File work under a lock *)

Definition in_words {E X} (text : E -> rstring) (r : E + X) : rstring + X := match r with inl e => inl (text e) | inr x => inr x end.

Lemma on_disk_ends {E X} (text : E -> rstring) (p : fprog E X) (Q : rstring + X -> App -> Prop) a :
  ends (fun r d => Q (in_words text r) (put_disk d a)) p (ap_disk a) -> ends Q (on_disk text p) a.
Proof.
  unfold ends, on_disk. rewrite run_bind, run_zoom; [| done | by intros [] | done]. by destruct (run p (ap_disk a)) as [[r d]|].
Qed.

(** The pins the disk holds, when they can be read. *)
Definition pins_on (d : Disk) (path : Path) : option StoreFile :=
  match file_at d path with Some n => from_json (in_data n) | None => Some ∅ end.

Lemma trust_store_reads (Q : rstring + TrustStore -> App -> Prop) a :
  (forall d r, same_files (ap_disk a) d ->
     match r with inr store => tr_path store = trust_path (ap_paths a) /\ pins_on (ap_disk a) (tr_path store) = Some (tr_servers store) | inl _ => True end ->
     Q r (put_disk d a)) ->
  ends Q trust_store a.
Proof.
  intros H. apply ends_get, on_disk_ends. set (path := trust_path (ap_paths a)) in *.
  pose proof (always_ends _ _ _ (trust_open_always (fun _ => True) path (ap_disk a) ltac:(done) Logic.I)) as Ho.
  eapply ends_weaken; [exact Ho|]. intros r d (_ & Hs & Hr). apply H; [exact Hs|].
  destruct r as [e | store]; cbn [in_words]; [done|]. destruct Hr as [Hp Hr]. split; [exact Hp|]. unfold pins_on. rewrite Hp.
  destruct (file_at (ap_disk a) path); [exact Hr | by rewrite Hr].
Qed.

Lemma save_trust_writes (Q : rstring + unit -> App -> Prop) store a :
  tr_path store <> [] ->
  (forall r d, match r with inr _ => pins_on d (tr_path store) = Some (tr_servers store) | inl _ => True end -> Q r (put_disk d a)) ->
  ends Q (save_trust store) a.
Proof.
  intros Hne H. apply on_disk_ends. pose proof (always_ends _ _ _ (trust_save_always store (ap_disk a) Hne)) as Hs.
  eapply ends_weaken; [exact Hs|]. intros [e | []] d (_ & Hr); apply H; [done|]. destruct Hr as (n & Hn & Hj).
  unfold pins_on. rewrite Hn, Hj. apply json_reads.
Qed.

(** What is decided about an identity once [fp] is pinned under [address] and all else is as in
    [before]. *)
Definition decided_with (path : Path) (before : StoreFile) (address : rstring) (actual : Fingerprint) (key : rstring) (fp : Fingerprint)
    : TrustDecision :=
  if bool_decide (key = address) then (if bool_decide (fp = actual) then Recognised else Changed actual fp)
  else check (mkTrust path before) key fp.

(** C22: the identity that was shown is the one that is pinned. When a connection is refused because
    the server's identity changed, the refusal names the address and the new identity, and
    accepting these two comes to an end without touching anything but the disk; when it reports
    success, then from the pins the disk held before to those it holds now, that address answers
    to exactly that identity, any other identity there is a change again, and every other address
    is decided as before. *)
Theorem the_identity_that_was_shown_is_pinned text address expected actual a :
  wf_fp actual -> trust_path (ap_paths a) <> [] ->
  exists shown, cfd_identity_changed (connect_failure_dto text (CeIdentityChanged address expected actual)) = Some shown /\
    ends (fun r a' =>
        (exists d, a' = put_disk d a) /\
        match r with
        | inl _ => True
        | inr _ => let path := trust_path (ap_paths a) in exists before after,
            pins_on (ap_disk a) path = Some before /\ pins_on (ap_disk a') path = Some after /\
            forall key fp, check (mkTrust path after) key fp = decided_with path before address actual key fp
        end) (trust_changed_identity (icd_address_key shown) (icd_current shown)) a.
Proof.
  intros Hwf Hpath. eexists. split; [done|]. cbn [icd_address_key icd_current]. unfold trust_changed_identity, parse_fingerprint.
  rewrite fp_roundtrip by done. unfold and_then_app. eapply ends_bind; [apply (trust_store_reads (fun r a' => exists d, a' = put_disk d a /\
    match r with inr store => tr_path store = trust_path (ap_paths a) /\ pins_on (ap_disk a) (tr_path store) = Some (tr_servers store) | inl _ => True end))|].
  { intros d r _ Hr. by exists d. }
  intros [e | store] a1 (d & -> & Hr); [apply ends_ret; split; [by exists d | done]|]. destruct Hr as [Hp Hb].
  apply ends_get. cbv zeta. apply save_trust_writes; [by rewrite <- Hp in Hpath|].
  intros r d' Hw. split; [by exists d'|]. destruct r as [e | u]; [done|].
  exists (tr_servers store), (tr_servers (trust (ap_clock (put_disk d a)) address actual (default [] (ts_name <$> trust_get store address)) store)).
  change (tr_path (trust _ _ _ _ store)) with (tr_path store) in Hw. rewrite Hp in Hb, Hw. split_and!; [done | exact Hw |].
  intros key fp. unfold decided_with. rewrite !check_pin.
  pose proof (pin_trust (ap_clock (put_disk d a)) address actual (default [] (ts_name <$> trust_get store address)) store key) as Ht.
  unfold pin in *. cbn [tr_servers] in *. rewrite Ht. case_bool_decide as Hk; [|done]. by rewrite (bool_decide_ext (actual = fp) (fp = actual)) by (split; by intros ->).
Qed.

End Accepting.
