(* ===== verification/Routing.v ===== *)
(** * The application, one command at a time

    What holds between commands when each runs to its end before the next: the microphone only
    feeds a listed connection, the audio runs while anything is connected, and the key of every
    live connection is in the vault.  [AppSamples] shows what is lost when they
    overlap. *)

From S2P Require Export Tables.
From S2P Require Import Keystore Vault VaultSafety Settings Bookmarks.

Section Routing.
Context {C : Crypto} {M : Libm} {O : Opus} {HO : HashOrder}.
Implicit Types a : App.

Record app_settled a : Prop := {
  se_route id : route_session a = Some id -> is_Some (ap_sessions a !! id);
  se_audio : ap_sessions a <> ∅ -> is_Some (ap_engine a);
  se_identity id s : ap_sessions a !! id = Some s -> as_identity s ∈ fps (ap_vault a) }.

(** A step that touches none of it, or only lets the route go. *)
Record mild a a' : Prop := {
  md_sessions : ap_sessions a' = ap_sessions a;
  md_voice : ap_voice a' = ap_voice a \/ ap_voice a' = None;
  md_engine : is_Some (ap_engine a) -> is_Some (ap_engine a');
  md_vault fp : fp ∈ fps (ap_vault a) -> fp ∈ fps (ap_vault a') }.

#[export] Instance mild_refl : Reflexive mild.
Proof. split; auto. Qed.

#[export] Instance mild_trans : Transitive mild.
Proof.
  intros x y z H1 H2. split.
  - by rewrite (md_sessions _ _ H2), (md_sessions _ _ H1).
  - destruct (md_voice _ _ H2) as [-> | ->]; [apply (md_voice _ _ H1) | by right].
  - intros H. by apply (md_engine _ _ H2), (md_engine _ _ H1).
  - intros fp H. by apply (md_vault _ _ H2), (md_vault _ _ H1).
Qed.

Lemma mild_settled a a' : mild a a' -> app_settled a -> app_settled a'.
Proof.
  intros [Hs Hv He Hf] Ha. split; rewrite ?Hs.
  - intros id. unfold route_session. destruct Hv as [-> | ->]; [apply Ha | done].
  - intros H. by apply He, Ha.
  - intros id s H. apply Hf. by apply (se_identity _ Ha id).
Qed.

Lemma on_client_mild {R} c (f : Client -> R * Client) d a : mild a (on_client c f d a).2.
Proof. unfold on_client. destruct (ap_clients a !! c) as [x|]; [|done]. destruct (f x). split; auto. Qed.

Lemma on_mirror_mild {X} m (f : PermMirror -> X * PermMirror) d a : mild a (on_mirror m f d a).2.
Proof. unfold on_mirror. destruct (ap_mirrors a !! m) as [x|]; [|done]. destruct (f x). split; auto. Qed.

Lemma fold_mild {A} (f : App -> A -> App) l a : (forall x a, mild a (f a x)) -> mild a (fold_left f l a).
Proof. intros H. revert a; induction l as [|x l IH]; intros a; [done|]. simpl. etrans; [apply H | apply IH]. Qed.

Lemma tell_all_mild muted deafened a : mild a (tell_all muted deafened a).
Proof. apply fold_mild. intros. apply on_client_mild. Qed.

Lemma tell_sessions_of_mild fp message a : mild a (tell_sessions_of fp message a).
Proof. apply fold_mild. intros x a'. case_bool_decide; [apply on_client_mild | done]. Qed.

Lemma claim_mild t a : mild a (claim t a).2.
Proof. unfold claim. destruct (ap_tasks a !! t) as [[kind []]|]; split; auto. Qed.

Lemma recv_frame_mild e a : mild a (recv_frame e a).2.
Proof. unfold recv_frame. destruct (ap_frames a !! e) as [[[|f rest] []]|]; split; auto. Qed.

Lemma input_callback_mild e samples c a : mild a (input_callback e samples c a).2.
Proof. unfold input_callback. destruct (ap_engines a !! e) as [x|]; [|done]. destruct (capture_push _ _ _) as [[sent c'] k]. split; auto. Qed.

Lemma take_engine_frames_mild e a : mild a (take_engine_frames e a).2.
Proof. unfold take_engine_frames. destruct (ap_engines a !! e) as [x|]; [|done]. destruct (take_frames x) as [[q|] y]; split; auto. Qed.

Lemma start_engine_mild config opened a : mild a (start_engine config opened a).2.
Proof. unfold start_engine. destruct (engine_start config opened); split; auto. Qed.

Lemma replace_engine_mild e a : mild a (replace_engine (Some e) a).2.
Proof. split; auto. Qed.

Lemma clear_if_mild id a : mild a (clear_if id a).2.
Proof. unfold clear_if. destruct (ap_voice a) as [[current c]|]; [|done]. destruct (current =? id); split; auto. Qed.

Lemma spawn_mild kind a : mild a (spawn kind a).2.
Proof. split; auto. Qed.

(** ** Edits of the vault *)

Lemma entry_mut_fps v fp f : (forall e, entry_fp (f e) = entry_fp e) -> fps (entry_mut v fp f).2 = fps v.
Proof. intros H. unfold entry_mut. destruct (vault_get v fp); [|done]. by apply update_first_fps. Qed.

Lemma set_active_fps v fp : fps (set_active v fp).2 = fps v.
Proof. unfold set_active. by destruct (vault_get v fp). Qed.

Lemma add_fps v ident nickname label fp : fp ∈ fps v -> fp ∈ fps (add v ident nickname label).2.
Proof.
  unfold add. cbn [snd]. destruct (vault_get v _); [done|]. intros H. unfold fps. cbn [v_entries set_entries].
  rewrite fmap_app. apply elem_of_app. by left.
Qed.

Lemma vault_remove_fps v fp r v' x : vault_remove v fp = Some (r, v') -> x ∈ fps v -> x <> fp -> x ∈ fps v'.
Proof.
  unfold vault_remove. destruct (vault_get v fp); [|by intros [= <- <-]]. destruct (_ =? 1)%nat; [by intros [= <- <-]|]. cbv zeta.
  intros H Hx Hne. assert (Hk : x ∈ fps (set_entries (retain (fun e => negb (has_fp fp e)) (v_entries v)) v)).
  { unfold fps in *. cbn [v_entries set_entries]. apply list_elem_of_fmap in Hx as (e & -> & He). apply list_elem_of_fmap_2.
    apply elem_of_retain. split; [done|]. unfold has_fp. by rewrite bool_decide_eq_false_2. }
  destruct (bool_decide _); [|by injection H as <- <-]. destruct (v_entries (set_entries _ _)) eqn:E; [done|].
  injection H as <- <-. unfold fps in *. cbn [v_entries set_active_fp]. exact Hk.
Qed.

End Routing.

#[export] Existing Instance mild_refl.
#[export] Existing Instance mild_trans.
Create HintDb mild.
#[export] Hint Resolve on_client_mild on_mirror_mild tell_all_mild tell_sessions_of_mild claim_mild recv_frame_mild input_callback_mild
  take_engine_frames_mild start_engine_mild replace_engine_mild clear_if_mild spawn_mild : mild.

Section Gentle.
Context {C : Crypto} {M : Libm} {O : Opus} {HO : HashOrder} {T : AppTexts} {KJ : Json StoredIdentity} {B : Base64} {K : Ciphers}
  {VJ : VaultJson} {SJ : Json Settings} {TJ : Json StoreFile} {BJ : Json StoredBookmarks} {R : Resolver}.
Implicit Types a : App.

#[local] Abbreviation gently a := (safe (fun _ => True) (mild a) (fun _ => True)).

Lemma gentle_bind {X Y} a0 (p : prog App X) (k : X -> prog App Y) : gently a0 p -> (forall x, gently a0 (k x)) -> gently a0 (bind p k).
Proof. intros Hp Hk. eapply safe_bind; [exact Hp|]. intros x _. apply Hk. Qed.

Lemma gentle_and_then {X Y E} a0 (p : prog App (E + X)) (k : X -> prog App (E + Y)) :
  gently a0 p -> (forall x, gently a0 (k x)) -> gently a0 (and_then_app p k).
Proof. intros Hp Hk. apply gentle_bind; [exact Hp|]. intros [e | x]; [done | apply Hk]. Qed.

Lemma gentle_update a0 f : (forall a, mild a (f a)) -> gently a0 (update f).
Proof. intros H a _ Ha. split; [|done]. cbn. by etrans. Qed.

Lemma gentle_call {X} a0 (f : App -> X * App) : (forall a, mild a (f a).2) -> gently a0 (call f).
Proof. intros H a _ Ha. split; [|done]. cbn. by etrans. Qed.

Lemma gentle_zoom {X} a0 (p : prog Disk X) : gently a0 (zoom ap_disk put_disk p).
Proof.
  induction p as [x | Y f k IH |]; [done | | done]. intros a _ Ha. cbn. destruct (f (ap_disk a)) as [y d]. split; [|apply IH].
  cbn. etrans; [exact Ha|]. split; auto.
Qed.

Lemma gentle_zoom_local {S L X} (look : App -> L -> S) (put : S -> App -> App) (keep : S -> L) a0 (p : prog S X) l :
  (forall s a, mild a (put s a)) -> gently a0 (zoom_local look put keep p l).
Proof.
  intros Hput. revert l. induction p as [x | Y f k IH |]; intros l; [done | | done]. intros a _ Ha. cbn.
  destruct (f (look a l)) as [y s]. split; [cbn; by etrans | apply IH].
Qed.

(** A gentle program run alone. *)
Lemma leads_gentle {X} (p : prog App X) a : gently a p -> leads (fun _ a' => mild a a') p a.
Proof.
  intros H. unfold leads. pose proof (leads_safe (mild a) (fun _ => True) p a H) as L. unfold leads in L.
  destruct (run p a) as [[x a']|]; [|done]. by destruct L.
Qed.

Lemma leads_gentle_then {X Y} (p : prog App X) (k : X -> prog App Y) Q a :
  gently a p -> (forall x a', mild a a' -> leads Q (k x) a') -> leads Q (bind p k) a.
Proof. intros Hp Hk. eapply leads_bind; [by apply leads_gentle | exact Hk]. Qed.

Lemma leads_weaken_gentle {X} a (p : prog App X) (Q : X -> App -> Prop) :
  gently a p -> (forall x a', mild a a' -> Q x a') -> leads Q p a.
Proof.
  intros Hp HQ. pose proof (leads_gentle p a Hp) as L. unfold leads in *. destruct (run p a) as [[x a']|]; [|done]. by apply HQ.
Qed.

Lemma gentle_settled {X} (p : prog App X) a : gently a p -> app_settled a -> leads (fun _ => app_settled) p a.
Proof.
  intros Hp Ha. pose proof (leads_gentle p a Hp) as L. unfold leads in *. destruct (run p a) as [[x a']|]; [|done]. by eapply mild_settled.
Qed.

End Gentle.

(** One step of a program every step of which is mild. *)
Ltac gentle_step :=
  lazymatch goal with
  | |- safe _ _ _ (Ret _) => done
  | |- safe _ _ _ Hang => done
  | |- safe _ _ _ (and_then_app _ _) => apply gentle_and_then; [|intros ?]
  | |- safe _ _ _ (bind _ _) => apply gentle_bind; [|intros ?]
  | |- safe _ _ _ (get _) => by intros ? _ ?
  | |- safe _ _ _ (read_engine _ _ _) => by intros ? _ ?
  | |- safe _ _ _ (update _) => apply gentle_update; intros ?; solve [auto with mild | by split; auto]
  | |- safe _ _ _ (call _) => apply gentle_call; intros ?; solve [auto with mild | by split; auto]
  | |- safe _ _ _ (zoom _ _ _) => apply gentle_zoom
  | |- safe _ _ _ (for_each _ _) => apply safe_for_each; intros ? _
  | |- safe _ _ _ (match ?x with _ => _ end) => destruct x
  end.
Create HintDb gentle.
Ltac gentle := repeat (gentle_step || solve [eauto with gentle]).

Section Programs.
Context {C : Crypto} {M : Libm} {O : Opus} {HO : HashOrder} {T : AppTexts} {KJ : Json StoredIdentity} {B : Base64} {K : Ciphers}
  {VJ : VaultJson} {SJ : Json Settings} {TJ : Json StoreFile} {BJ : Json StoredBookmarks} {R : Resolver}.
Implicit Types a : App.

#[local] Abbreviation gently a := (safe (fun _ => True) (mild a) (fun _ => True)).

Lemma on_disk_gentle {E X} (text : E -> rstring) (p : fprog E X) a : gently a (on_disk text p).
Proof. unfold on_disk. gentle. Qed.
Hint Resolve on_disk_gentle : gentle.
Lemma trust_store_gentle a : gently a trust_store.
Proof. unfold trust_store. gentle. Qed.
Lemma bookmarks_gentle a : gently a bookmarks.
Proof. unfold bookmarks. gentle. Qed.
Lemma persist_vault_gentle nonce a : gently a (persist_vault nonce).
Proof. unfold persist_vault. gentle. Qed.
Lemma persist_settings_gentle a : gently a persist_settings.
Proof. unfold persist_settings. gentle. Qed.
Lemma clear_current_speakers_gentle a : gently a clear_current_speakers.
Proof. unfold clear_current_speakers. gentle. Qed.
Hint Resolve trust_store_gentle bookmarks_gentle persist_vault_gentle persist_settings_gentle clear_current_speakers_gentle : gentle.
Lemma remember_gentle a : gently a remember_open_connections.
Proof. unfold remember_open_connections. gentle. Qed.
Lemma release_voice_gentle id a : gently a (release_voice id).
Proof. unfold release_voice. gentle. Qed.
Lemma start_audio_gentle opened a : gently a (start_audio opened).
Proof. unfold start_audio, carried_controls, spawn_capture_pump. gentle. Qed.
Lemma announce_gentle e a : gently a (announce_voice_state e).
Proof. unfold announce_voice_state. gentle. Qed.
Hint Resolve remember_gentle release_voice_gentle start_audio_gentle announce_gentle : gentle.
Lemma ensure_audio_gentle opened a : gently a (ensure_audio opened).
Proof. unfold ensure_audio. gentle. Qed.
Lemma set_muted_gentle b a : gently a (app_set_muted b).
Proof. unfold app_set_muted, running_engine. gentle. Qed.
Lemma set_deafened_gentle b a : gently a (app_set_deafened b).
Proof. unfold app_set_deafened, running_engine. gentle. Qed.
Hint Resolve ensure_audio_gentle set_muted_gentle set_deafened_gentle : gentle.

Lemma edit_vault_gentle f a : (forall v fp, fp ∈ fps v -> fp ∈ fps (f v).2) -> gently a (edit_vault f).
Proof.
  intros H. unfold edit_vault. apply gentle_bind; [|intros r; gentle]. apply gentle_call. intros x. specialize (H (ap_vault x)).
  destruct (f (ap_vault x)) as [r v]. split; auto.
Qed.

Lemma with_session_gentle {X} id (f : ActiveSession -> App -> X * App) a : (forall s x, mild x (f s x).2) -> gently a (with_session id f).
Proof.
  intros H. unfold with_session. apply gentle_call. intros x. destruct (ap_sessions x !! id) as [s|]; [|done].
  specialize (H s x). by destruct (f s x).
Qed.

Lemma ask_gentle session q a : gently a (ask session q).
Proof. apply with_session_gentle. intros. apply on_client_mild. Qed.
Lemma ask_with_nonce_gentle session q a : gently a (ask_with_nonce session q).
Proof. apply with_session_gentle. intros. cbn. etrans; [|apply on_client_mild]. split; auto. Qed.
Hint Resolve ask_gentle ask_with_nonce_gentle : gentle.

Lemma request_gentle p a : request p -> gently a p.
Proof.
  intros []; unfold ask_join_channel, ask_leave_channel, ask_fetch_history, ask_kick, ask_ban, ask_unban, ask_list_bans,
    ask_set_server_muted, ask_move_user, ask_create_role, ask_update_role, ask_delete_role, ask_reorder_roles, ask_set_member_roles,
    ask_set_channel_overwrite, ask_delete_channel_overwrite, ask_create_channel, ask_update_channel, ask_delete_channel,
    ask_send_message, refuse; cbv zeta; gentle.
Qed.

Lemma save_trust_gentle store a : gently a (save_trust store).
Proof. unfold save_trust. gentle. Qed.
Lemma save_bookmarks_gentle store a : gently a (save_bookmarks store).
Proof. unfold save_bookmarks. gentle. Qed.
Lemma identity_info_gentle a : gently a identity_info.
Proof. unfold identity_info. gentle. Qed.
Lemma identities_gentle a : gently a identities.
Proof. unfold identities. gentle. Qed.
Lemma toggle_muted_gentle a : gently a toggle_muted.
Proof. unfold toggle_muted, running_engine. gentle. Qed.
Lemma toggle_deafened_gentle a : gently a toggle_deafened.
Proof. unfold toggle_deafened, running_engine. gentle. Qed.
Lemma pump_event_gentle session perms event a : gently a (pump_event session perms event).
Proof. unfold pump_event, pump_voice, pump_other, emit_snapshot, emit_event. gentle. Qed.
Lemma forward_frame_gentle e took a : gently a (forward_frame e took).
Proof. unfold forward_frame. gentle. Qed.
Hint Resolve save_trust_gentle save_bookmarks_gentle identity_info_gentle identities_gentle toggle_muted_gentle toggle_deafened_gentle
  pump_event_gentle forward_frame_gentle : gentle.


(** ** The programs that move voice, open and close *)

Lemma route_voice_settled id a : app_settled a -> leads (fun _ => app_settled) (route_voice id) a.
Proof.
  intros Ha. unfold route_voice. apply leads_get. destruct (ap_sessions a !! id) as [s|] eqn:E; [|exact Ha].
  cbn [fmap option_fmap option_map]. apply leads_get. case_bool_decide; [exact Ha|]. apply leads_update.
  apply leads_gentle_then; [gentle|]. intros _ a' Hm. eapply mild_settled; [exact Hm|].
  split; cbn; [intros ? [= <-]; by rewrite E | apply Ha | apply Ha].
Qed.

Lemma ensure_audio_runs opened a :
  leads (fun r a' => mild a a' /\ match r with inr _ => is_Some (ap_engine a') | inl _ => True end) (ensure_audio opened) a.
Proof.
  unfold ensure_audio. apply leads_get. unfold current_engine. destruct (ap_engine a) as [e|] eqn:Ee.
  { apply leads_ret. split; [done | by rewrite Ee]. }
  unfold start_audio. do 2 (apply leads_get). unfold current_engine. rewrite Ee. cbn [carried_controls bind].
  apply leads_call. pose proof (start_engine_mild (engine_config (st_audio (ap_settings a))) (devices_report opened) a) as Hm.
  destruct (start_engine _ _ _) as [[e | engine] a1]; cbn [fst snd] in *; [by apply leads_ret|]. cbn [bind].
  apply leads_call. set (a2 := (take_engine_frames engine a1).2). assert (Hm2 : mild a a2) by (etrans; [exact Hm | apply take_engine_frames_mild]).
  clearbody a2. destruct (take_engine_frames engine a1).1; [|by apply leads_hang]. apply leads_call. set (a3 := (replace_engine _ a2).2).
  assert (Hm3 : mild a a3) by (etrans; [exact Hm2 | apply replace_engine_mild]). assert (He3 : is_Some (ap_engine a3)) by (by eexists).
  clearbody a3. apply (leads_bind (fun _ x => mild a x /\ is_Some (ap_engine x))).
  { apply (leads_weaken_gentle a3); [unfold spawn_capture_pump; gentle|]. intros _ x Hx. split; [by etrans | by apply (md_engine _ _ Hx)]. }
  intros pumped x [Hx1 Hx2]. destruct (replace_engine _ a2).1; destruct pumped; repeat apply leads_update; try done; apply leads_ret; try done.
  split; [etrans; [exact Hx1 | split; auto] | done].
Qed.

(** Ending a session: it is gone, and what it held with it. *)
Lemma end_session_settled id a :
  app_settled a -> leads (fun _ a' => app_settled a' /\ ap_sessions a' = delete id (ap_sessions a)) (end_session id) a.
Proof.
  intros Ha. unfold end_session. apply leads_call. set (a1 := (remove_session id a).2).
  change ((remove_session id a).1) with (ap_sessions a !! id). destruct (ap_sessions a !! id) as [s|] eqn:E.
  2: { apply leads_ret. assert (Hd : delete id (ap_sessions a) = ap_sessions a) by by apply delete_id.
       split; [|done]. destruct Ha as [H1 H2 H3]. split; unfold a1; cbn; by rewrite Hd. }
  apply leads_gentle_then; [unfold shutdown; gentle|]. intros _ a2 H2.
  apply (leads_bind (fun _ x => mild a1 x /\ route_session x <> Some id)).
  { unfold release_voice. apply leads_call. assert (H3 : mild a1 (clear_if id a2).2) by (etrans; [exact H2 | apply clear_if_mild]).
    assert (Hr : route_session (clear_if id a2).2 <> Some id).
    { unfold clear_if, route_session. destruct (ap_voice a2) as [[current c]|] eqn:Ev; [|cbn; by rewrite Ev].
      destruct (Z.eqb_spec current id) as [-> | Hne]; cbn; [done | rewrite Ev; cbn; congruence]. }
    revert H3 Hr. generalize (clear_if id a2).2 as a3. intros a3 H3 Hr. destruct (clear_if id a2).1; [|by apply leads_ret].
    apply (leads_weaken_gentle a3); [gentle|]. intros _ x Hx. split; [by etrans|]. unfold route_session in *.
    by destruct (md_voice _ _ Hx) as [-> | ->]. }
  intros _ a4 [H4 Hr4]. pose proof (md_sessions _ _ H4) as Hs4. change (ap_sessions a1) with (delete id (ap_sessions a)) in Hs4.
  assert (Hset : forall x, ap_sessions x = ap_sessions a4 -> ap_voice x = ap_voice a4 -> ap_vault x = ap_vault a4 ->
            (ap_sessions x <> ∅ -> is_Some (ap_engine x)) -> app_settled x /\ ap_sessions x = delete id (ap_sessions a)).
  { intros x Ex Ev Evl Hen. rewrite Ex, Hs4. split; [|done]. split; [|by rewrite Ex in *|].
    - intros id'. unfold route_session. rewrite Ev, Ex, Hs4. intros Hid'. unfold route_session in Hr4.
      destruct (md_voice _ _ H4) as [Ev4 | Ev4]; rewrite Ev4 in *; [|done].
      rewrite lookup_delete_ne by congruence. by apply (se_route _ Ha).
    - intros id' s'. rewrite Ex, Hs4, Evl. intros [_ Hl]%lookup_delete_Some. apply (md_vault _ _ H4). exact (se_identity _ Ha id' s' Hl). }
  apply leads_get. case_bool_decide as He.
  - unfold stop_audio. apply leads_call. destruct (replace_engine None a4).1; [apply leads_update_last | apply leads_ret]; by apply Hset.
  - apply leads_ret. apply Hset; try done. intros _. apply (md_engine _ _ H4), (se_audio _ Ha). intros E0. by rewrite E0 in E.
Qed.

(** A program that keeps [app_settled], then a gentle one. *)
Lemma settled_then {X Y} (p : prog App X) (k : X -> prog App Y) a :
  leads (fun _ => app_settled) p a -> (forall x a', gently a' (k x)) -> leads (fun _ => app_settled) (bind p k) a.
Proof. intros Hp Hk. eapply leads_bind; [exact Hp|]. intros x a' Ha. by apply gentle_settled. Qed.

Lemma quietly_settled {X} (p : prog App X) a : leads (fun _ => app_settled) p a -> leads (fun _ => app_settled) (quietly p) a.
Proof. intros H. by apply settled_then. Qed.

Lemma end_all_settled {HL : HashOrderLaws HO} a : app_settled a -> leads (fun _ => app_settled) end_all_sessions a.
Proof.
  intros Ha. unfold end_all_sessions. apply leads_get.
  assert (Hall : forall ids x, app_settled x -> (forall id, id ∈ dom (ap_sessions x) -> id ∈ ids) ->
            leads (fun _ y => app_settled y /\ ap_sessions y = ∅) (for_each ids end_session) x).
  { induction ids as [|id ids IH]; intros x Hx Hin.
    - apply leads_ret. split; [done|]. apply dom_empty_inv_L. apply set_eq. intros i. split; [|set_solver]. intros H%Hin. by apply not_elem_of_nil in H.
    - cbn [for_each]. eapply leads_bind; [by apply end_session_settled|]. intros _ y [Hy Ey]. apply IH; [exact Hy|].
      intros i. rewrite Ey, dom_delete_L. intros [Hi Hne]%elem_of_difference. apply Hin, elem_of_cons in Hi as [-> |]; [set_solver | done]. }
  eapply leads_bind; [apply Hall; [exact Ha|]|].
  - intros id [s Hs]%elem_of_dom. apply list_elem_of_fmap. exists (id, s). split; [done|]. rewrite hash_iter_perm. by apply elem_of_map_to_list.
  - intros _ x [Hx Ex]. apply leads_update. unfold stop_audio. apply leads_call.
    assert (Hend : forall y, ap_sessions y = ∅ -> ap_voice y = None -> app_settled y).
    { intros y Ey Ev. split; rewrite ?Ey; [unfold route_session; by rewrite Ev | done | done]. }
    destruct (replace_engine None _).1; [apply leads_update_last | apply leads_ret]; by apply Hend.
Qed.

Lemma stop_preview_settled a : app_settled a -> leads (fun _ => app_settled) stop_audio_preview a.
Proof.
  intros Ha. unfold stop_audio_preview. apply leads_get. case_bool_decide as He; [|by apply leads_ret]. unfold stop_audio. apply leads_call.
  assert (Hend : forall y, ap_sessions y = ap_sessions a -> ap_voice y = ap_voice a -> app_settled y).
  { intros y Ey Ev. rewrite He in Ey. destruct Ha as [H1 H2 H3]. split; rewrite ?Ey; [|done|done].
    intros id. unfold route_session. rewrite Ev. intros H. specialize (H1 id H). by rewrite He in H1. }
  destruct (replace_engine None a).1; [apply leads_update_last | apply leads_ret]; by apply Hend.
Qed.

Lemma attempt_login_gentle o options ident store a : gently a (attempt_login o options ident store).
Proof. unfold attempt_login. apply gentle_bind; [|intros r; gentle]. apply gentle_zoom_local. split; auto. Qed.

Lemma next_session_id_mild client a : mild a (next_session_id client a).2.
Proof. split; auto. Qed.
Lemma new_mirror_mild id m a : mild a (new_mirror id m a).2.
Proof. split; auto. Qed.

Lemma open_session_settled o ident fp address info a :
  app_settled a -> fp ∈ fps (ap_vault a) -> leads (fun _ => app_settled) (open_session o ident fp address info) a.
Proof.
  intros Ha Hfp. unfold open_session. apply leads_call. set (first := next_session_id _ a).
  assert (H1 : mild a first.2) by apply next_session_id_mild. destruct first as [[id client] a1]. cbn [fst snd] in *.
  apply leads_call. set (mirrored := new_mirror _ _ a1). assert (H2 : mild a mirrored.2) by (etrans; [exact H1 | apply new_mirror_mild]).
  destruct mirrored as [perms a2]. cbn [fst snd] in *. eapply leads_bind; [apply ensure_audio_runs|].
  intros [e | engine] a3 [H3 He].
  { apply gentle_settled; [gentle|]. eapply mild_settled; [|exact Ha]. by etrans. }
  assert (H4 : mild a a3) by by etrans. apply leads_call. set (spawned := spawn _ a3).
  assert (H5 : mild a spawned.2 /\ is_Some (ap_engine spawned.2)) by (split; [etrans; [exact H4 | split; auto] | done]).
  destruct spawned as [pump a4]. destruct H5 as [H5 He5]. cbn [fst snd] in *. apply leads_update.
  set (s := mkActive id client pump perms address fp).
  assert (Hset : app_settled (up_sessions <[id := s]> a4)).
  { pose proof (mild_settled _ _ H5 Ha) as [H6 H7 H8]. split; cbn.
    - intros id' Hid'. specialize (H6 id' Hid'). by apply insert_is_Some.
    - done.
    - intros id' s'. destruct (decide (id = id')) as [<- | Hne]; [rewrite lookup_insert_eq; intros [= <-] | rewrite lookup_insert_ne by done; apply H8].
      cbn. by apply (md_vault _ _ H5). }
  apply leads_get. apply (leads_bind (fun _ => app_settled)).
  { destruct (route_session _); [by apply leads_ret | by apply route_voice_settled]. }
  intros [e | []] a5 H6; [by apply leads_ret | apply gentle_settled; [gentle | exact H6]].
Qed.

Lemma identity_for_in_vault fp a ident nickname own : identity_for fp a = Some (inr (ident, nickname, own)) -> own ∈ fps (ap_vault a).
Proof.
  unfold identity_for. cbv zeta. destruct fp as [fp|]; [unfold vault_get | unfold active];
    destruct (find _ (v_entries (ap_vault a))) as [e|] eqn:E; try done; intros [= <- <- <-];
    apply find_fp_some in E as [E _]; by apply list_elem_of_fmap_2.
Qed.

Lemma app_connect_settled o address password ident a : app_settled a -> leads (fun _ => app_settled) (app_connect o address password ident) a.
Proof.
  intros Ha. unfold app_connect. cbv zeta. destruct (resolve_address address) as [e | target]; [exact Ha|]. apply leads_get.
  destruct (identity_for ident a) as [[e | [[key nickname] fp]]|] eqn:Ei; [exact Ha | | done]. apply identity_for_in_vault in Ei.
  apply leads_gentle_then; [gentle|]. intros [e | store] a1 H1; [by eapply mild_settled|].
  apply leads_gentle_then; [apply attempt_login_gentle|]. intros [e | info] a2 H2; assert (H12 : mild a a2) by (by etrans); [by eapply mild_settled|].
  apply settled_then; [|intros [e | d] x; gentle].
  apply open_session_settled; [by eapply mild_settled | by apply (md_vault _ _ H12)].
Qed.

Lemma remove_identity_settled fp nonce a : app_settled a -> leads (fun _ => app_settled) (remove_identity fp nonce) a.
Proof.
  intros Ha. unfold remove_identity, identity_in_use. apply leads_get. case_bool_decide as Hu; [by apply leads_ret|].
  apply leads_call. destruct (vault_remove (ap_vault a) fp) as [[r v]|] eqn:E; cbn [fst snd]; [|done].
  assert (Hs : app_settled (up_vault (fun _ => v) a)).
  { destruct Ha as [H1 H2 H3]. split; cbn; [exact H1 | exact H2|]. intros id s Hid. eapply vault_remove_fps; [exact E | by apply (H3 id) |].
    intros Heq. apply Hu. by exists id, s. }
  destruct r as [e | []]; [by apply leads_ret | apply gentle_settled; [gentle | exact Hs]].
Qed.

Lemma set_nickname_gentle nickname nonce a : gently a (set_nickname nickname nonce).
Proof.
  unfold set_nickname. destruct (is_empty _); [done|]. apply gentle_bind; [|intros active; gentle]. apply gentle_call. intros x.
  pose proof (entry_mut_fps (ap_vault x) (v_active (ap_vault x)) (fun e => mkEntry (ve_identity e) (trim nickname) (ve_label e)) ltac:(done)) as Hf.
  change (fps (vault_set_nickname (ap_vault x) (v_active (ap_vault x)) (trim nickname)).2 = fps (ap_vault x)) in Hf.
  destruct (vault_set_nickname _ _ _) as [[e | []] v]; cbn [fst snd] in *; split; cbn; auto; intros fp; by rewrite Hf.
Qed.

Lemma edits_gentle a :
  (forall fp, gently a (edit_vault (fun v => set_active v fp))) /\ (forall fp l, gently a (edit_vault (fun v => set_label v fp l))) /\
  (forall fp n, gently a (edit_vault (fun v => set_counter v fp n))) /\
  (forall i n l, gently a (edit_vault (fun v => let '(fp, v) := add v i n l in set_active v fp))).
Proof.
  split_and!; intros; apply edit_vault_gentle; intros v x Hx.
  - by rewrite set_active_fps.
  - unfold set_label. by rewrite entry_mut_fps.
  - unfold set_counter. by rewrite entry_mut_fps.
  - pose proof (add_fps v i n l x Hx) as H. destruct (add v i n l) as [fp v']. by rewrite set_active_fps.
Qed.

Lemma mining_thread_gentle fuel ident target nonce a : gently a (mining_thread fuel ident target nonce).
Proof.
  destruct (edits_gentle a) as (_ & _ & Hc & _). unfold mining_thread. destruct (identity_mine _ _ _ _ _) as [[[said report] ident']|]; [|done].
  apply gentle_bind; [gentle|]. intros []. apply gentle_bind; [apply Hc|]. intros r. gentle.
Qed.

(** ** One at a time *)

(** What runs without being interrupted: a command or another thread as a whole, one event of a
    connection, one frame of the microphone, the start of a task. *)
Inductive app_turn : prog App unit -> Prop :=
| tn_thread p : app_thread p -> app_turn p
| tn_claim t : app_turn (quietly (call (claim t)))
| tn_event session perms event : app_turn (quietly (pump_event session perms event))
| tn_frame e took : app_turn (quietly (forward_frame e took)).

Inductive one_at_a_time : App -> App -> Prop :=
| turn p a r a' : app_turn p -> run p a = Some (r, a') -> one_at_a_time a a'.

Lemma quietly_gentle {X} (p : prog App X) a : gently a p -> app_settled a -> leads (fun _ => app_settled) (quietly p) a.
Proof. intros Hp. apply gentle_settled. by apply gentle_bind. Qed.

Lemma thread_settled {HL : HashOrderLaws HO} p a : app_thread p -> app_settled a -> leads (fun _ => app_settled) p a.
Proof.
  intros Hp Ha. destruct (edits_gentle a) as (Hact & Hlab & _ & Hadd).
  destruct Hp;
    unfold set_muted_command, set_deafened_command, emit_voice_state, app_set_push_to_talk_held, set_audio_settings, start_audio_preview,
      add_identity, set_active_identity, set_identity_label, forget_server, trust_changed_identity, add_bookmark, update_bookmark,
      remove_bookmark, set_voice_session; cbv zeta;
    try solve [apply quietly_gentle; [gentle | exact Ha]]; try solve [apply gentle_settled; [gentle | exact Ha]].
  - apply quietly_settled. by apply app_connect_settled.
  - unfold disconnect. apply settled_then; [|intros; gentle]. pose proof (end_session_settled s a Ha) as H.
    unfold leads in *. destruct (run _ a) as [[x a']|]; [by destruct H | done].
  - by apply end_all_settled.
  - apply quietly_settled. by apply route_voice_settled.
  - apply quietly_gentle; [by apply request_gentle | exact Ha].
  - by apply stop_preview_settled.
  - apply quietly_gentle; [apply set_nickname_gentle | exact Ha].
  - apply quietly_settled. by apply remove_identity_settled.
  - apply gentle_settled; [apply mining_thread_gentle | exact Ha].
  - apply gentle_settled; [|exact Ha]. unfold event_pump. apply gentle_bind; [gentle|]. intros [[session perms | e]|]; try done.
    induction events as [|event events IH]; cbn [pump_events]; gentle.
  - apply gentle_settled; [|exact Ha]. unfold capture_pump. apply gentle_bind; [gentle|]. intros [[session perms | e]|]; try done.
    induction took as [|b took IH]; cbn [forward_frames]; gentle.
Qed.

Lemma turn_settled {HL : HashOrderLaws HO} p a : app_turn p -> app_settled a -> leads (fun _ => app_settled) p a.
Proof.
  intros [q Hq | t | session perms event | e took] Ha; [by apply thread_settled | | |]; apply quietly_gentle; [gentle | exact Ha | gentle | exact Ha | gentle | exact Ha].
Qed.

(** C20: when commands, shortcuts, connection events and captured frames come one at a time, the
    microphone only ever feeds a connection that is listed, the audio engine runs whenever
    anything is connected, and no key is deleted that a live connection signed in with. *)
Theorem one_at_a_time_the_app_stays_settled {HL : HashOrderLaws HO} a a' : app_settled a -> rtc one_at_a_time a a' -> app_settled a'.
Proof.
  intros Ha H. induction H as [a | a b a' Hstep _ IH]; [exact Ha|]. apply IH. destruct Hstep as [p a r b Hp Hr].
  pose proof (turn_settled p a Hp Ha) as L. unfold leads in L. by rewrite Hr in L.
Qed.

Lemma loaded_settled vault settings paths d clock :
  app_settled (mkApp vault settings paths d clock 0 ∅ ∅ ∅ ∅ ∅ None ∅ 1 None 1 [] ∅ ∅).
Proof. by split. Qed.

End Programs.
