(* ===== verification/Window.v ===== *)
(** * What the window is told

    The interface keeps no rules of its own: it replaces its roles and its permissions by each
    snapshot a connection's pump sends it.  This file shows that the snapshots are always current:
    after any events, what the window holds is what the connection's mirror answers. *)

From S2P Require Export Bridge.
From S2P Require Import Keystore Vault Settings Bookmarks.

Section Window.
Context {C : Crypto} {M : Libm} {O : Opus} {HO : HashOrder}.
Implicit Types a : App.

(** ** The window *)

(** What the window holds for one session after what was emitted. *)
Definition seen_permissions (session : Z) (held : MyPermissionsDto) (l : list UiEvent) : MyPermissionsDto :=
  fold_left (fun held e => match e with
    | SessionEvent s (DPermissionsChanged snapshot) => if s =? session then snapshot else held
    | _ => held
    end) l held.

Definition seen_roles (session : Z) (held : list RoleDto) (l : list UiEvent) : list RoleDto :=
  fold_left (fun held e => match e with
    | SessionEvent s (DRolesChanged snapshot) => if s =? session then snapshot else held
    | _ => held
    end) l held.

(** The events up to the one that ends the stream, and the mirror they make. *)
Fixpoint handled (events : list ClientEvent) : list ClientEvent :=
  match events with
  | [] => []
  | event :: rest => event :: (if terminal event then [] else handled rest)
  end.

Definition follow (m : PermMirror) (events : list ClientEvent) : PermMirror := fold_left (fun m e => (mirror_apply e m).2) events m.

(** ** What changes a snapshot *)

Lemma quiet_events_change_no_permission event m :
  (mirror_apply event m).1 = false -> my_permissions (mirror_apply event m).2 = my_permissions m.
Proof.
  destruct event; try done; cbn [mirror_apply fst snd]; case_bool_decide; try done; cbn [fst snd];
    rewrite orb_false_iff, !negb_false_iff, bool_decide_eq_true, Bool.eqb_true_iff; intros [Hr Ho];
    unfold my_permissions, mirror_resolve; cbn; by rewrite Hr, Ho.
Qed.

Lemma other_events_change_no_role event m : touches_roles event = false -> roles_dto (mirror_apply event m).2 = roles_dto m.
Proof. destruct event; try done; intros _; cbn [mirror_apply fst snd]; by try case_bool_decide. Qed.

(** The events of the translation are no snapshots. *)
Lemma translated_is_no_snapshot event d :
  from_event event = Some d -> match d with DRolesChanged _ | DPermissionsChanged _ => False | _ => True end.
Proof. destruct event; try done; by intros [= <-]. Qed.

(** ** One event *)

(** What an event leaves: the mirror, what was emitted, and the tasks as they were. *)
Record told session perms m m' a a' : Prop := {
  to_mirror : ap_mirrors a' !! perms = Some m';
  to_tasks : ap_tasks a' = ap_tasks a;
  to_shown : exists shown, ap_emitted a' = ap_emitted a ++ shown /\
    seen_permissions session (my_permissions m) shown = my_permissions m' /\
    seen_roles session (roles_dto m) shown = roles_dto m' /\
    forall s d, SessionEvent s d ∈ shown -> s = session }.

(** Steps that have nothing to do with the window. *)
Definition elsewhere a a' : Prop := ap_mirrors a' = ap_mirrors a /\ ap_tasks a' = ap_tasks a /\ ap_emitted a' = ap_emitted a.

Lemma told_elsewhere session perms m m' a a1 a2 : told session perms m m' a a1 -> elsewhere a1 a2 -> told session perms m m' a a2.
Proof. intros [H1 H2 H3] (E1 & E2 & E3). split; [by rewrite E1 | by rewrite E2 | by rewrite E3]. Qed.

Lemma release_voice_elsewhere session a : ends (fun _ a' => elsewhere a a') (release_voice session) a.
Proof.
  unfold release_voice. apply ends_call. assert (H : elsewhere a (clear_if session a).2).
  { unfold clear_if. destruct (ap_voice a) as [[current c]|]; [by destruct (current =? session) | done]. }
  destruct (clear_if session a).1; [|exact H]. unfold clear_current_speakers. apply ends_get.
  destruct (current_engine _); [by apply ends_update_last | exact H].
Qed.

Lemma pump_voice_elsewhere session packet a : ends (fun _ a' => elsewhere a a') (pump_voice session packet) a.
Proof.
  unfold pump_voice. apply ends_get. destruct (negb _); [done|]. apply ends_get. by destruct (current_engine a); [apply ends_update_last|].
Qed.

(** What is emitted for one event, on the mirror after it. *)
Definition shown_for (session : Z) (event : ClientEvent) (changed : bool) (m : PermMirror) : list UiEvent :=
  match from_event event with Some d => [SessionEvent session d] | None => [] end ++
  (if touches_roles event then [SessionEvent session (DRolesChanged (roles_dto m))] else []) ++
  (if changed then [SessionEvent session (DPermissionsChanged (my_permissions m))] else []).

Lemma pump_other_shows session perms event m a :
  ap_mirrors a !! perms = Some m ->
  ends (fun _ a' => ap_mirrors a' !! perms = Some (mirror_apply event m).2 /\ ap_tasks a' = ap_tasks a /\
          ap_emitted a' = ap_emitted a ++ shown_for session event (mirror_apply event m).1 (mirror_apply event m).2)
    (pump_other session perms event) a.
Proof.
  intros Hm. unfold pump_other. apply ends_call. unfold on_mirror. rewrite Hm. destruct (mirror_apply event m) as [changed m'] eqn:E. cbn [fst snd].
  set (a1 := up_mirrors _ a). assert (H1 : ap_mirrors a1 !! perms = Some m') by (unfold a1; cbn; by rewrite lookup_insert_eq).
  assert (Ht : ap_tasks a1 = ap_tasks a) by done. assert (He : ap_emitted a1 = ap_emitted a ++ []) by (by rewrite app_nil_r). clearbody a1.
  set (Q := fun shown (_ : unit) x => ap_mirrors x !! perms = Some m' /\ ap_tasks x = ap_tasks a /\ ap_emitted x = ap_emitted a ++ shown).
  assert (Hemit : forall d shown x, Q shown tt x -> ends (Q (shown ++ [SessionEvent session d])) (emit_event session d) x).
  { intros d shown x (Q1 & Q2 & Q3). apply ends_update_last. split_and!; [done..|]. cbn. by rewrite Q3, app_assoc. }
  assert (Hsnap : forall f shown x, Q shown tt x -> ends (Q (shown ++ [SessionEvent session (f m')])) (emit_snapshot perms session f) x).
  { intros f shown x Hx. unfold emit_snapshot. apply ends_get. destruct Hx as (Q1 & Q2 & Q3). rewrite Q1. cbn [fmap option_fmap option_map].
    by apply Hemit. }
  assert (H0 : Q [] tt a1) by done. unfold shown_for.
  eapply (ends_bind (Q (match from_event event with Some d => [SessionEvent session d] | None => [] end))).
  { destruct (from_event event) as [d|]; [apply (Hemit d [] a1 H0) | exact H0]. }
  intros [] x2 H2. eapply (ends_bind (Q (_ ++ if touches_roles event then _ else []))).
  { destruct (touches_roles event); [apply (Hsnap (fun m => DRolesChanged (roles_dto m)) _ x2 H2) | rewrite app_nil_r; exact H2]. }
  intros [] x3 H3. eapply (ends_bind (Q ((_ ++ _) ++ if changed then _ else []))).
  { destruct changed; [apply (Hsnap (fun m => DPermissionsChanged (my_permissions m)) _ x3 H3) | rewrite app_nil_r; exact H3]. }
  intros [] x4 H4. rewrite <- app_assoc in H4. destruct (terminal event); [|exact H4].
  eapply ends_weaken; [apply release_voice_elsewhere|]. intros [] x5 (E1 & E2 & E3). rewrite E1, E2, E3. exact H4.
Qed.

Lemma shown_for_current session event m :
  let m' := (mirror_apply event m).2 in
  let shown := shown_for session event (mirror_apply event m).1 m' in
  seen_permissions session (my_permissions m) shown = my_permissions m' /\ seen_roles session (roles_dto m) shown = roles_dto m' /\
  forall s d, SessionEvent s d ∈ shown -> s = session.
Proof.
  intros m' shown. pose proof (quiet_events_change_no_permission event m) as Hp. pose proof (other_events_change_no_role event m) as Hr.
  pose proof (translated_is_no_snapshot event) as Hd. fold m' in Hp, Hr. unfold shown, shown_for. clear shown.
  destruct (from_event event) as [d|]; [specialize (Hd d eq_refl)|];
    destruct (touches_roles event); destruct (mirror_apply event m).1; cbn; rewrite ?Z.eqb_refl;
    rewrite <- ?Hp, <- ?Hr by done; (split_and!; [by try destruct d | by try destruct d |]);
    intros s d' Hin; repeat (apply elem_of_cons in Hin as [[= -> _] | Hin]; [done|]); by apply not_elem_of_nil in Hin.
Qed.

Lemma pump_event_told session perms event m a :
  ap_mirrors a !! perms = Some m ->
  ends (fun go_on a' => go_on = negb (terminal event) /\ told session perms m (mirror_apply event m).2 a a') (pump_event session perms event) a.
Proof.
  intros Hm. assert (Hother : ends (fun go_on a' => go_on = negb (terminal event) /\ told session perms m (mirror_apply event m).2 a a')
    (bind (pump_other session perms event) (fun _ => Ret (negb (terminal event)))) a).
  { eapply ends_bind; [by apply (pump_other_shows session perms event m)|]. intros [] x (H1 & H2 & H3). apply ends_ret. split; [done|].
    destruct (shown_for_current session event m) as (S1 & S2 & S3). split; [done..|]. by eexists. }
  destruct event; try exact Hother. cbn [pump_event].
  eapply ends_bind; [apply pump_voice_elsewhere|]. intros [] x (E1 & E2 & E3). apply ends_ret. split; [done|]. cbn [mirror_apply snd].
  split; [by rewrite E1 | done|]. exists []. rewrite app_nil_r. split_and!; [done..|]. intros s d Hin. by apply not_elem_of_nil in Hin.
Qed.

Lemma shown_trans session perms m1 m2 m3 a b c :
  told session perms m1 m2 a b -> told session perms m2 m3 b c -> told session perms m1 m3 a c.
Proof.
  intros [H1 H2 (l & H3 & H4 & H5 & H6)] [K1 K2 (k & K3 & K4 & K5 & K6)]. split; [done | by rewrite K2 |].
  exists (l ++ k). unfold seen_permissions, seen_roles in *. rewrite !fold_left_app, H4, H5. split_and!; [by rewrite K3, H3, app_assoc | done..|].
  intros s d [H | H]%elem_of_app; [by eapply H6 | by eapply K6].
Qed.

(** C21: the window is never behind: whatever events a connection delivers, its pump handles each up
    to the one that ends it, and afterwards the roles and the permissions the window was last given
    are exactly what the mirror of those events answers, and everything it was told was told under
    this session. *)
Theorem the_window_is_never_behind t session perms events m a :
  task_runs t a = true -> ap_mirrors a !! perms = Some m ->
  ends (fun _ a' =>
      ap_mirrors a' !! perms = Some (follow m (handled events)) /\
      exists shown, ap_emitted a' = ap_emitted a ++ shown /\
        seen_permissions session (my_permissions m) shown = my_permissions (follow m (handled events)) /\
        seen_roles session (roles_dto m) shown = roles_dto (follow m (handled events)) /\
        forall s d, SessionEvent s d ∈ shown -> s = session)
    (pump_events t session perms events) a.
Proof.
  assert (H : forall events m a, task_runs t a = true -> ap_mirrors a !! perms = Some m ->
    ends (fun _ a' => exists b, told session perms m (follow m (handled events)) a b /\ ap_mirrors a' = ap_mirrors b /\ ap_emitted a' = ap_emitted b)
      (pump_events t session perms events) a).
  { clear. induction events as [|event events IH]; intros m a Ht Hm; cbn [pump_events].
    - apply ends_update_last. exists a. split_and!; [|done..]. split; [done..|]. exists []. rewrite app_nil_r. split_and!; [done..|].
      intros s d Hin. by apply not_elem_of_nil in Hin.
    - apply ends_get. rewrite Ht. eapply ends_bind; [by apply (pump_event_told session perms event m)|].
      intros go_on x [-> Hx]. unfold follow. cbn [handled fold_left]. destruct (terminal event); cbn [negb].
      + apply ends_update_last. by exists x.
      + eapply ends_weaken; [apply (IH (mirror_apply event m).2); [|apply Hx]|].
        * unfold task_runs in *. by rewrite (to_tasks _ _ _ _ _ _ Hx).
        * intros [] y (b & Hb & Eb). exists b. split; [by eapply shown_trans | done]. }
  intros Ht Hm. eapply ends_weaken; [by apply (H events m a)|]. intros _ a' (b & [H1 H2 H3] & Em & Ee). rewrite Em, Ee. by split.
Qed.

End Window.
