(* ===== verification/AppSamples.v ===== *)
(** * A small running application

    dave's desktop: one identity, no saved settings, sound devices that open, and the sample
    server within reach.  What overlapping commands can do to it is shown at the end. *)

From S2P Require Export Routing Window Keys Controls Login.
From S2P Require Import Keystore Sealed Vault Migration Settings Bookmarks Devices Answers VaultSafety.

Module Sample_app.
#[export] Existing Instances Sample_gate.libm Toy_codec.opus Sample_login.trust_json Sample_login.trust_json_laws Sample_settings.json Sample_bookmarks.json
  ToySeal.base64 ToySeal.ciphers Sample_files.identity_json Sample_files.vault_json.

#[export] Instance texts : AppTexts := {|
  vault_error_text _ := lit "vault"; trust_error_text _ := lit "trust"; bookmark_error_text _ := lit "bookmarks";
  settings_error_text _ := lit "settings"; identity_error_text _ := lit "identity"; connect_error_text _ := lit "connect";
  audio_error_text _ := lit "audio"; device_error_text _ := lit "device"; debug_text s := s |}.

#[export] Instance resolver : Resolver := {| to_socket_addrs _ := inr [mkAddr [10; 0; 0; 9] 42071] |}.

Definition dave : Identity := Sample.ident 4.
Definition dave_fp : rstring := fp_to_string (identity_fingerprint dave).
Definition eve : Identity := Sample.ident 5.
Definition vault : Vault := mkVault [lit "pickle"; lit "identities.json"] [mkEntry dave (lit "dave") []; mkEntry eve (lit "eve") []] dave_fp Unprotected.
Definition paths : AppPaths :=
  mkPaths [lit "pickle"; lit "identities.json"] [lit "pickle"; lit "known_servers.json"] [lit "pickle"; lit "bookmarks.json"]
    [lit "pickle"; lit "settings.json"].
Definition idle : App := mkApp vault Settings_default paths empty_disk 5000 0 ∅ ∅ ∅ ∅ ∅ None ∅ 1 None 1 [] ∅ ∅.

Definition devices_open : AudioStart := mkStart (Some (inr tt)) true.
Definition outside : Outside :=
  mkOutside (wire_to Sample.server Sample_login.nonce Sample_login.cert) (Some 1200) devices_open (Sample.fp 9) (lit "1.0").
Definition join_server : prog App unit := quietly (app_connect outside (lit "chat.example.com") None None).

(** The state after programs that run one after the other. *)
Definition after (ps : list (prog App unit)) (a : App) : App :=
  fold_left (fun a p => match run p a with Some (_, a) => a | None => a end) ps a.

Definition connected : App := after [join_server] idle.

Example the_first_connection_takes_voice :
  (route_session connected, map as_identity (map snd (map_to_list (ap_sessions connected))), ap_engine connected)
  = (Some 1, [dave_fp], Some 2).
Proof. vm_compute. reflexivity. Qed.

(** Two connections to the same server, opened by threads that take turns. *)
Definition two_joins : list (prog App unit) * App :=
  schedule (fun a => bool_decide (ap_next_session a < u64_max)) (concat (replicate 60 [0; 1]%nat)) ([join_server; join_server], idle).

Lemma the_tables_stay_in_order_witness :
  (map (fun e => (e.1, as_client e.2, as_perms e.2, as_event_pump e.2)) (map_to_list (ap_sessions two_joins.2)),
   length (two_joins.1))
    = ([(2, 1, 3, 9); (1, 0, 2, 8)], 2%nat) /\
  forall s1 s2, ap_sessions two_joins.2 !! 1 = Some s1 -> ap_sessions two_joins.2 !! 2 = Some s2 -> as_perms s1 <> as_perms s2.
Proof.
  split; [vm_compute; reflexivity|]. intros s1 s2 E1 E2.
  assert (Hr : rtc (pstep_within ids_left app_thread) ([], idle) (two_joins.1, two_joins.2)).
  { assert (Hids : ids_left idle) by (unfold ids_left; vm_compute; reflexivity).
    eapply rtc_l; [split; [exact Hids | apply pstep_spawn, (at_connect outside (lit "chat.example.com") None None)]|].
    eapply rtc_l; [split; [exact Hids | apply pstep_spawn, (at_connect outside (lit "chat.example.com") None None)]|].
    rewrite <- surjective_pairing. apply schedule_steps. intros a. apply bool_decide_eq_true_1. }
  exact (proj1 (proj2 (proj1 (proj2 (proj2 (the_tables_stay_in_order idle _ _ (loaded_tables _ _ _ _ _) Hr))) 1 2 s1 s2 E1 E2 ltac:(discriminate)))).
Defined.

(** Connecting, moving the microphone nowhere new, and disconnecting. *)
Lemma one_at_a_time_the_app_stays_settled_witness :
  exists a, rtc one_at_a_time idle a /\ app_settled a /\ route_session a = Some 1.
Proof.
  assert (Hp : (fun r => match r with Some (_, a) => route_session a | None => None end) (run join_server idle) = Some 1)
    by (vm_compute; reflexivity).
  destruct (run join_server idle) as [[[] a]|] eqn:E; [|discriminate Hp].
  assert (Hr : rtc one_at_a_time idle a) by (eapply rtc_once, turn; [apply tn_thread, at_connect | exact E]).
  exists a. split_and!; [exact Hr | | exact Hp].
  refine (one_at_a_time_the_app_stays_settled idle a _ Hr). apply loaded_settled.
Defined.

(** The first connection's event task, once it runs. *)
Definition pumping : App := (claim 4 connected).2.

(** A role is deleted, the connection drops, and what would come after is not handled. *)
Lemma the_window_is_never_behind_witness :
  exists m, ap_mirrors pumping !! 1 = Some m /\
    ends (fun _ a' => exists shown, ap_emitted a' = ap_emitted pumping ++ shown /\
        seen_roles 1 (roles_dto m) shown = roles_dto (follow m [EvRoleDeleted 2; EvDisconnected (lit "gone")]))
      (pump_events 4 1 1 [EvRoleDeleted 2; EvDisconnected (lit "gone"); EvRoleDeleted 3]) pumping.
Proof.
  assert (Hrun : task_runs 4 pumping = true) by (vm_compute; reflexivity).
  assert (Hm : (fun x => bool_decide (is_Some x)) (ap_mirrors pumping !! 1) = true) by (vm_compute; reflexivity).
  destruct (ap_mirrors pumping !! 1) as [m|] eqn:E; [|discriminate Hm]. exists m. split; [reflexivity|].
  pose proof (the_window_is_never_behind 4 1 1 [EvRoleDeleted 2; EvDisconnected (lit "gone"); EvRoleDeleted 3] m pumping Hrun E) as H.
  revert H. generalize pumping. intros a. unfold ends. destruct (run _ a) as [[u a']|]; [|intros []].
  intros (_ & shown & H1 & _ & H2 & _). exists shown. split; [exact H1 | exact H2].
Defined.

(** ** One connection, made by hand *)

Definition handle : Client := mkHandle (mkSession 7 (lit "hall") (mkPub [] 0) [] [] [] None ServerLimits_default) true [] [] (Some 1200) true.
Definition engine : AudioEngine := mkEngine false [] new_mixer (new_controls Continuous).
Definition in_hall : App :=
  mkApp vault Settings_default paths empty_disk 5000 20 {[10 := handle]} {[11 := from_session (identity_fingerprint dave) (Sample.fp 9) (cl_session handle)]}
    {[12 := engine]} {[12 := mkFrames [] true]} {[13 := mkTask (EventPump 1 11) Running]} (Some 12)
    {[1 := mkActive 1 10 13 11 (lit "hall") dave_fp]} 2 (Some (1, 10)) 1 [] {[1 := 10]} {[11 := 1]}.
Lemma in_hall_tables : app_tables in_hall.
Proof.
  split; cbn; [lia | | | | | | | |]; intros *.
  - intros [<- <-]%lookup_singleton_Some. unfold own_mirror. cbn. rewrite !lookup_singleton_eq. by split_and!.
  - intros [= <- <-]. by rewrite lookup_singleton_eq.
  - intros [<- <-]%lookup_singleton_Some. split; [lia|]. by eexists.
  - intros [<- <-]%lookup_singleton_Some. by eexists.
  - by intros [<- <-]%lookup_singleton_Some [<- _]%lookup_singleton_Some.
  - destruct (decide (t = 13)) as [-> | Hne]; [|by rewrite lookup_singleton_ne]. rewrite lookup_singleton_eq. intros [= <-]. by eexists.
  - intros [= <-]. by eexists.
  - intros Hr. rewrite !lookup_singleton_ne by lia. done.
Qed.

(** Deafening in the hall. *)
Lemma every_server_is_told_witness :
  ends (fun r a' => r = inr (mkButtons true true) /\ ap_clients a' !! 10 = Some (cl_set_voice_state true true handle).2)
    (app_set_deafened true) in_hall.
Proof.
  eapply ends_weaken; [exact (every_server_is_told _ _ 12 engine in_hall (vb_deafen true) in_hall_tables eq_refl eq_refl)|].
  intros r a' (H1 & _ & H2 & _). split; [exact H1|]. exact (H2 1 (mkActive 1 10 13 11 (lit "hall") dave_fp) handle eq_refl eq_refl).
Defined.

(** Another microphone. *)
Definition other_microphone : AudioSettings := mkAudio (Some (lit "USB")) None 64000 SContinuous.

Lemma changing_devices_keeps_the_call_witness :
  app_tables in_hall /\
  ends (fun r a' => ap_voice a' = Some (1, 10) /\ st_audio (ap_settings a') = other_microphone)
    (set_audio_settings other_microphone devices_open) in_hall.
Proof.
  split; [exact in_hall_tables|].
  eapply ends_weaken; [exact (changing_devices_keeps_the_call other_microphone devices_open in_hall in_hall_tables eq_refl)|].
  intros r a' (_ & H1 & _ & H2 & _). split; [exact H1 | exact H2].
Defined.

Lemma the_identity_that_was_shown_is_pinned_witness :
  exists shown, cfd_identity_changed (connect_failure_dto connect_error_text (CeIdentityChanged (lit "hall:42071") Sample.alice Sample.bob)) = Some shown /\
    ends (fun r a' => exists d, a' = put_disk d in_hall) (trust_changed_identity (icd_address_key shown) (icd_current shown)) in_hall.
Proof.
  assert (Hwf : wf_fp Sample.bob) by (apply wf_fp_of).
  assert (Hp : trust_path (ap_paths in_hall) <> []) by discriminate.
  destruct (the_identity_that_was_shown_is_pinned connect_error_text (lit "hall:42071") Sample.alice Sample.bob in_hall Hwf Hp) as (shown & H1 & H2).
  exists shown. split; [exact H1|]. eapply ends_weaken; [exact H2|]. intros r a' [H _]. exact H.
Defined.

(** ** What overlapping commands lose *)

(** The first [n] turns of a thread, the whole of another, and the rest of the first. *)
Definition interrupted (n : nat) (p q : prog App unit) (a : App) : App :=
  (schedule (fun _ => true) (replicate n 0%nat ++ replicate 200 1%nat ++ replicate 200 0%nat) ([p; q], a)).2.

(** An identity is deleted while a connection signs in with it: it is not in use yet, and then it
    is, without a key. *)
Lemma a_key_is_deleted_under_a_login :
  let a := interrupted 6 join_server (quietly (remove_identity dave_fp [])) idle in
  (map as_identity (map snd (map_to_list (ap_sessions a))), bool_decide (dave_fp ∈ VaultSafety.fps (ap_vault a))) = ([dave_fp], false).
Proof. vm_compute. reflexivity. Qed.

(** What waits to be sent to a session's server, and the engine that runs. *)
Definition queue_of (id : Z) (a : App) : option (list ClientControl) :=
  cl_queue <$> (ap_sessions a !! id ≫= fun s => ap_clients a !! as_client s).
Definition engine_of (a : App) : option AudioEngine := ap_engine a ≫= fun e => ap_engines a !! e.

(** The server drops a connection that was just made: its event pump runs before the connection
    is listed and takes voice, which then stays on it. *)
Lemma voice_is_left_on_a_dead_connection :
  let a := interrupted 21 join_server (event_pump 4 [EvDisconnected (lit "gone")]) idle in
  (route_session a, task_state <$> ap_tasks a !! 4) = (Some 1, Some Finished).
Proof. vm_compute. reflexivity. Qed.

(** The last connection closes while another is being made: the audio it was told to share is
    stopped. *)
Lemma audio_stops_under_a_new_connection :
  let a := interrupted 8 join_server (disconnect 1) connected in
  (map fst (map_to_list (ap_sessions a)), ap_engine a) = ([2], None).
Proof. vm_compute. reflexivity. Qed.

(** Voice moves to a second server between the moment a packet of the first is let through and the
    moment it is mixed: the mixer that was just cleared hears a speaker of the first. *)
Lemma a_packet_outlives_the_move_of_voice :
  let packet := mkDown 7 0 0 [1] in
  let a := interrupted 1 (pump_voice 1 packet) (quietly (set_voice_session 2)) (after [join_server] connected) in
  (route_session a, (fun e => map fst (map_to_list (streams (mixer e)))) <$> engine_of a)
  = (Some 2, Some [7]).
Proof. vm_compute. reflexivity. Qed.

(** A microphone that was muted before a connection was made: that server is not told. *)
Lemma a_new_server_is_not_told_of_the_mute :
  let a := after [quietly (app_set_muted true); join_server] connected in
  (queue_of 1 a, queue_of 2 a, is_muted <$> engine_of a) = (Some [CSetVoiceState true false], Some [], Some true).
Proof. vm_compute. reflexivity. Qed.

(** Unmuting while deafened: the application counts as unmuted, and says so to a server that keeps
    a deafened client muted. *)
Lemma unmuting_while_deafened_divides_them :
  let a := after [quietly (app_set_deafened true); quietly toggle_muted] connected in
  (is_muted <$> engine_of a, engine_is_deafened <$> engine_of a, last <$> queue_of 1 a)
    = (Some false, Some true, Some (Some (CSetVoiceState false true))) /\
  (fun u => self_muted (u_voice u)) <$> (set_voice_state Sample.server 1 false true).1 = Some true.
Proof. split; vm_compute; reflexivity. Qed.

(** The devices could not be opened: the call goes on with the old ones, but the choice is kept, and
    choosing it again when they can be opened changes nothing, because nothing changed. *)
Lemma a_failed_change_of_devices_is_never_made :
  let failed := after [quietly (set_audio_settings other_microphone (mkStart (Some (inl (BuildStream (lit "unplugged")))) true))] connected in
  let again := after [quietly (set_audio_settings other_microphone devices_open)] failed in
  (ap_engine connected, ap_engine failed, ap_engine again, au_input_device (st_audio (ap_settings again)))
  = (Some 2, Some 2, Some 2, Some (lit "USB")).
Proof. vm_compute. reflexivity. Qed.

(** ** Keys and buttons *)

(** A system on which every accelerator is a key, each key is had once, and F9 is not let go. *)
#[export] Instance host : ShortcutHost := {|
  Shortcut := rstring; Shortcut_eq_dec := _; parse_shortcut := inr;
  grab_refused held s := if bool_decide (s ∈ held) then Some (lit "already registered") else None;
  release_fails held s := negb (bool_decide (s ∈ held)) || bool_decide (s = lit "F9") |}.

#[export] Instance host_laws : ShortcutHostLaws.
Proof. split. intros held s H. cbn. by rewrite bool_decide_true. Qed.

Definition binding (talk mute deafen : option rstring) : Settings -> Settings := set_keybinds_of (mkKeybinds talk mute deafen).
Definition desk : Desk := mkDesk (up_settings (binding (Some (lit "F5")) (Some (lit "Mouse4")) None) connected) [] None [] [] [].
Definition machine : InputSystem := mkSystem [Sample_mice.trackpoint; Sample_mice.mouse] None.

(** The sound library of a machine with two devices. *)
#[export] Instance sound : AudioHost := Sample_devices.machine (lit "webcam").

Lemma webcam_proper d kind l : @device_configs sound d kind = inr l -> Forall proper l.
Proof. cbn. destruct (d =? 1); intros [= <-]; repeat constructor; unfold proper; cbn; lia. Qed.

Definition over (p : prog Desk unit) : bool := match p with Ret _ => true | _ => false end.

(** Two connections that each start an engine, a new choice of keys and a look at the sound devices,
    seventeen turns of each into it: both engines are started, neither frame stream is taken. *)
Definition busy_threads : list (prog Desk unit) :=
  [in_app join_server; in_app join_server; quietly (set_keybinds (mkKeybinds (Some (lit "F5")) None None) machine X11);
   in_app (quietly audio_devices)].
Definition fresh_desk : Desk := mkDesk idle [] None [] [] [].
Definition busy : list (prog Desk unit) * Desk :=
  schedule (fun _ => true) (concat (replicate 17 [0; 1; 2; 3]%nat)) (busy_threads, fresh_desk).

Lemma every_command_answers_witness :
  signable (dk_app fresh_desk) /\ app_tables (dk_app fresh_desk) /\
  (map over busy.1, size (ap_engines (dk_app busy.2)), ap_engine (dk_app busy.2)) = ([false; false; true; true], 2%nat, None) /\
  forall i p, busy.1 !! i = Some p -> ends (fun _ d => signable (dk_app d)) p busy.2.
Proof.
  assert (Hv : signable (dk_app fresh_desk)) by (apply (bool_decide_eq_true_1 (_ /\ NoDup _)); vm_compute; reflexivity).
  assert (Ht : app_tables (dk_app fresh_desk)) by apply loaded_tables.
  assert (Hj : desk_command (in_app join_server)) by (apply dc_app, ac_connect; reflexivity).
  assert (Hd : desk_command (in_app (quietly audio_devices))).
  { apply dc_app, ac_audio_devices. intros d kind l. apply (webcam_proper d kind l). }
  assert (Hs : rtc (pstep desk_command) ([], fresh_desk) (busy.1, busy.2)).
  { rewrite <- surjective_pairing. apply (transitivity (y := (busy_threads, fresh_desk))).
    - do 2 (eapply rtc_l; [apply pstep_spawn, Hj|]). eapply rtc_l; [apply pstep_spawn, dc_set_keybinds|].
      eapply rtc_l; [apply pstep_spawn, Hd | apply rtc_refl].
    - apply schedule_run. }
  split_and!; [exact Hv | exact Ht | vm_compute; reflexivity | exact (proj2 (every_command_answers fresh_desk _ _ Hv Ht Hs))].
Defined.

(** The programs run one after the other on a desk. *)
Definition at_desk (ps : list (prog Desk unit)) (d : Desk) : Desk :=
  fold_left (fun d p => match run p d with Some (_, d) => d | None => d end) ps d.
Definition rebind : prog Desk unit := bind (apply_keybinds machine X11) (fun _ => Ret tt).

(** F9 was bound and held before; it stays held and does nothing any more. *)
Definition stuck : Desk := mkDesk (dk_app desk) [(lit "F9", ToggleDeafen)] None [lit "F9"] [] [].

Lemma rebinding_is_a_full_replacement_witness :
  registry_in_order stuck /\
  match run (apply_keybinds machine X11) stuck with
  | Some (statuses, d) =>
      registry_in_order d /\ map about statuses ≡ₚ [(lit "pushToTalk", lit "F5"); (lit "toggleMute", lit "Mouse4")] /\
      (dk_grabbed d, action_for (lit "F5") d, action_for (lit "F9") d) = ([lit "F9"; lit "F5"], Some PushToTalkAction, None)
  | None => False
  end.
Proof.
  assert (Hd : registry_in_order stuck).
  { split; cbn.
    - done.
    - apply NoDup_singleton.
    - apply NoDup_singleton.
    - intros g [H | H]; [by apply not_elem_of_nil in H | done].
    - intros g H. lia. }
  split; [exact Hd|].
  assert (Hc : match run (apply_keybinds machine X11) stuck with
               | Some (_, d) => (dk_grabbed d, action_for (lit "F5") d, action_for (lit "F9") d) = ([lit "F9"; lit "F5"], Some PushToTalkAction, None)
               | None => False end) by (vm_compute; reflexivity).
  pose proof (rebinding_is_a_full_replacement machine X11 stuck Hd) as H. cbv zeta in H.
  replace (st_keybinds (ap_settings (dk_app stuck))) with (mkKeybinds (Some (lit "F5")) (Some (lit "Mouse4")) None) in H
    by (vm_compute; reflexivity).
  unfold ends in H. destruct (run (apply_keybinds machine X11) stuck) as [[statuses d]|]; [|exact H].
  destruct H as (_ & H1 & _ & H2 & _). split; [exact H1|]. split; [exact H2 | exact Hc].
Defined.

Definition talking (d : Desk) : option bool := (fun e => push_to_talk_held (controls e)) <$> engine_of (dk_app d).

(** A key is let go after it was bound to something else, or to nothing: the microphone stays
    keyed, because nobody is left to see the release. *)
Lemma rebinding_leaves_the_microphone_keyed :
  let press := at_desk [rebind; handle_shortcut (lit "F5") true] desk in
  let changed := at_desk [in_app (update (up_settings (binding None None None))); rebind; handle_shortcut (lit "F5") false] press in
  (talking press, talking changed, dk_bound changed) = (Some true, Some true, []).
Proof. vm_compute. reflexivity. Qed.

(** Two buttons are bound and one of them is refused for its modifier; both are reported to work
    whatever window is in front, and no reader knows the second. *)
Lemma a_button_is_reported_that_nobody_reads :
  let d := at_desk [in_app (update (up_settings (binding (Some (lit "Mouse4")) (Some (lit "Shift+Mouse4")) None)))] desk in
  match run (apply_keybinds machine X11) d with
  | Some (statuses, d) => (map bs_reach statuses, map (map rd_codes) (dk_readers d))
  | None => ([], [])
  end = ([DeviceReach; DeviceReach], [[[(BTN_SIDE, PushToTalkAction)]]]).
Proof. vm_compute. reflexivity. Qed.

End Sample_app.
